(* ===== verification/_CoqProject ===== *)
-Q . S2P
Prelude.v
FrameTypes.v
Varint.v
WireBytes.v
Codec.v
FramesAck.v
FramesFlow.v
FramesStream.v
FramesDatagram.v
FramesPath.v
FramesHandshake.v
FramesRouting.v
FramesRelay.v
FramesBundle.v
FramesMisc.v
Frame.v
FrameTheory.v
Pn.v
Header.v
Packet.v
Crypto.v
ProtectedPacket.v
Spaces.v
SentPackets.v
Ack.v
AckWire.v
Stream.v
Loss.v
Congestion.v
Flow.v
Datagrams.v
Cids.v
Paths.v
KeyPhase.v
Reset.v
Records.v
SessionState.v
SessionOps.v
SessionInbound.v
SessionRules.v
SessionRun.v
SessionTrace.v
SessionInvariant.v
SessionSafety.v
SessionGates.v
SessionLink.v
SessionExchange.v
SessionLimits.v
BTree.v
Sorting.v
RouteTypes.v
RouteCache.v
RouteRequests.v
RouteResponses.v
RoutePaths.v
RoutePolicy.v
RelayCircuits.v
RelayQueues.v
RelayMultipath.v
RelayOnion.v
BundleTransfer.v
Identity.v
HandshakeMessages.v
HandshakeKeys.v
HandshakePackets.v
HandshakeAuth.v
HandshakeGates.v
Store.v
Canonical.v
TrustStatements.v
Trust.v
TrustGraph.v
Recovery.v
Revocation.v
Handshake.v
HandshakeAgreement.v
SessionRegistry.v
Accept.v
Connect.v
Clocks.v
