(* ===== verification/Prelude.v ===== *)
(** * Universal Mesh Core: a verification development

    Universal Mesh Core is a mesh transport written in Rust: a wire format of
    frames in encrypted packets, sessions that carry streams and datagrams over
    one or several paths, a handshake that authenticates long-term identities,
    route discovery and relaying over other nodes, and a daemon, [umcd], that
    holds the sessions of a node.  This library translates those parts into
    definitions that compute and proves what makes them correct.

    ** How the program is organised, and where it is modelled

    A packet of an established session goes through these parts, bottom up.

    - The wire format (crates/umc-wire, crates/umc-types).  [FrameTypes]: the
      registry of frame types and the limits.  [Varint], [WireBytes]: integers
      and byte strings.  [Codec]: the statements all frame codecs consist of, as
      an encoder and a decoder monad, with the laws that a round trip follows
      from.  [FramesAck] to [FramesMisc]: one Module per frame, named after the
      source's struct, with its record [t], [encode] and [decode].  [Frame]: the
      sum of all frames and [decode_frames]; [FrameTheory]: its theorems.  [Pn],
      [Header], [Packet]: packet numbers, headers, and which frame may be in
      which packet.
    - Packet protection (crates/umc-crypto).  [Crypto]: HMAC, HKDF, labels,
      packet keys, nonces, header protection.  [ProtectedPacket]: sealing and
      opening a packet (crates/umc-session/src/packet.rs).
    - The mechanisms of a session (crates/umc-session/src), one file for each
      source file: [Spaces] (spaces.rs), [SentPackets] (sent_packet.rs), [Ack]
      (ack.rs), [Stream] (stream.rs), [Loss] (rtt.rs, loss.rs), [Congestion]
      (congestion.rs), [Flow] (flow.rs), [Datagrams] (datagram.rs), [Cids]
      (cid.rs), [Paths] (path.rs), [KeyPhase] (key_update.rs, ticket.rs),
      [Reset] (reset.rs); [AckWire] takes an acknowledgement through the wire.
    - The session (session.rs).  [SessionState] has the record of all fields and
      the monad its methods run in, state with errors, where an error keeps what
      was changed before it.  [SessionOps] has the methods called by the owner,
      [SessionInbound] what is done with a packet.  [SessionRules] and
      [SessionRun] have sequences of calls, [SessionTrace], [SessionInvariant],
      [SessionSafety], [SessionGates], [SessionLink], [SessionExchange] and
      [SessionLimits] the theorems.
    - Routing (crates/umc-routing).  [RouteTypes], [RouteCache] (cache.rs),
      [RouteRequests] (duplicate.rs, request.rs), [RouteResponses] (reverse.rs,
      response.rs), [RoutePaths] (paths.rs), [RoutePolicy] (score.rs, local.rs,
      failure.rs, sybil.rs).
    - Relaying (crates/umc-relay).  [RelayCircuits] (circuit.rs, close.rs,
      forward.rs, admission.rs, status.rs), [RelayQueues] (quota.rs),
      [RelayMultipath] (multi.rs), [RelayOnion] (onion.rs).
    - Bundles.  [BundleTransfer] (crates/umc-bundle/src/transfer.rs).

    How a session comes about is the other half.

    - The handshake (crates/umc-handshake).  [Identity]: keys, bindings and
      rotation proofs.  [HandshakeMessages]: messages, transcript, negotiation.
      [HandshakeKeys]: secrets, tickets, Retry tokens.  [HandshakePackets]:
      Initial, Handshake and Retry packets.  [HandshakeAuth]: authentication and
      Finished messages.  [HandshakeGates]: the state machine, attempt counters,
      invitations, the memory of used tickets.
    - Trust (crates/umc-core).  [Store]: the trait of the record store and its
      promises.  [Canonical]: decoders that determine the bytes they accept.
      [TrustStatements] (trust_statement.rs), [Trust] and [TrustGraph]
      (trust.rs), [Revocation] (revocation.rs), [Recovery] (recovery.rs).
    - The daemon (bins/umcd) and the connecting node
      (crates/umc-core/src/node.rs).  [Handshake]: the responder and the
      client's computations; [HandshakeAgreement]: matching conversations.
      [SessionRegistry]: the registry, the block list and
      [register_session_locked].  [Accept]: an accepted link packet by packet.
      [Connect]: the client packet by packet, and the client with the daemon.
      [Clocks]: the two clocks the daemon reads.

    [Records], [BTree] and [Sorting] are shared: record update, ordered maps,
    orders and stable sorting.  This file has the machine integers, the [Result]
    type with its monad, bytes, and the lemmas and tactics all files use.

    ** Conventions

    An unsigned integer is an [N]; where an operation can leave its width the
    model has what the source does there: a wrap-around, a saturation, or an
    error.  Bytes are [list N].  A fixed-size array is a list whose length is a
    hypothesis where it matters.  A [BTreeMap] is a list in the order of its
    keys, a [HashMap] a [gmap] with its order of iteration a parameter
    ([HashOrder], [MapOrder]) where the result depends on it.  A method that
    mutates [self] returns the new state with its answer.  An [Err] is a value
    of the source's error type.  A panic, where it can be reached, is [None].

    Code of other crates is an argument with its documented behaviour as a class:
    BLAKE2s, ChaCha20 and the AEAD ([Primitives], [PrimitiveLaws],
    [AeadTotal]), Ed25519 and X25519 ([Curves], [CurveLaws]), the backends of the
    store ([Store], [StoreLaws]), randomness ([EntropySource]).  The
    congestion controller, a trait of the source, is [CongestionController], with
    the source's Reno controller as an instance.  No law says that a signature
    cannot be forged or a hash has no collision: theorems that rest on this say
    which signature, which two hashed texts or which digest.  Each class has an instance that
    computes, at which the witnesses evaluate.

    ** What the theorems show

    - Two sessions.  What one session is given to send the other delivers
      ([stream_delivered]), since a packet does to its receiver what its frames
      do ([session_link]).  Over any calls no nonce is used twice
      ([session_nonces_fresh]), no packet is admitted twice
      ([session_no_replay]), and bounds and shape of the state are kept
      ([session_invariant]); a send keeps to the window
      ([congestion_respected]).
    - Mechanisms.  Streams are delivered in order and completely
      ([stream_in_order], [stream_complete]); exactly the packets received are
      acknowledged while the ranges fit ([ack_loop]); payloads decode to the
      frames they were made of exactly when these can be told apart, and every
      payload is decoded or refused ([decode_frames_roundtrip],
      [decode_frames_total]).
    - The handshake.  An honest client gets its session, through a Retry too
      ([connection_established]), and can resume it ([session_resumed]).  What a
      responder accepts was signed by the identity it names
      ([client_authenticated]) in a run with the same messages and secrets
      ([matching_conversations], [transcript_binds]); keys are installed after
      the confirmation only ([keys_after_confirmation]).
    - The daemon.  Each session it accepted has been vouched for ([sessions_accounted]) and
      registered by the rules ([session_registered], [sessions_bounded]); the
      Retry gate lets nobody pass that it should stop ([retry_gate_sound]), as
      far as it is applied ([retry_gate_bypassed]).  What does not work because
      of the two clocks is in [handshake_misses_revocations] and
      [outbound_ignores_block].
    - Trust.  Revocations are enforced and propagate ([revocation_enforced],
      [revocation_propagates]), those of a recovery key until its authority is
      superseded ([recovery_enforced]); first bindings are pinned
      ([tofu_pins]); chains of delegation and introductions are accepted exactly
      when they should be ([delegation_chain_exact], [delegation_no_rollback],
      [introduced_exactly]); statements have one encoding
      ([trust_statements_canonical]).
    - Routing and relaying.  Copies of a request are not forwarded while
      it is remembered ([duplicate_request_suppressed]), responses go back to who asked
      ([reverse_branch]), paths are well formed ([route_path_sound]), failover
      sets are as diverse as possible ([route_diverse_optimal]); relayed bytes
      are accounted for and none forwarded twice ([relay_accounting]), and multipath circuits and bundles
      are put together in order and completely ([multipath_in_order],
      [multipath_complete], [bundle_reassembled]).

    Where the code does something other than its documentation says, the theorem
    states what the code does.

    ** Bounds on recursion

    Loops that are not structural have a counter, and a lemma shows that it is
    enough.  [decode_loop] has as many turns as the payload has bytes, each of
    which reads at least one ([decode_frames_total]); [pad_and_seal] has one
    turn for each of the 1200 bytes of a padded Initial packet and one more
    ([pad_and_seal_read]); [chunks] one for each byte; [release] of
    [RelayMultipath] one for each buffered frame; [expand_loop] the 255 of its
    source.  [has_authorized_introduction] counts down the depth the source
    counts up.

    ** Not modelled

    Input and output: the carriers and their sockets, the SQLite store and key
    files, plugins, the operating system's randomness.  Concurrency inside the
    daemon: tasks, channels, deadlines and the loop around a session; the steps
    of different links interleave in [Accept], each step being atomic as under
    the daemon's lock.  Of the daemon also: attaching a further carrier to a
    session and the set of links of a session, the control interface (its
    messages are generated at build time) and the services behind it, start-up
    and configuration, the command line.  Of the node: dialling, the single
    repetition after a version negotiation, applications and the mesh.  Not
    translated are the discovery of addresses and the distributed table, the
    custody, replication and persistence of bundles, the SDKs and language
    bindings, metrics, and drivers that only tests use
    ([run_xx_handshake]). *)

From stdpp Require Export base tactics list numbers option.
From Stdlib Require Export NArith ZArith Lia ZifyBool ZifyN ZifyNat.

#[global] Open Scope N_scope.

(** ** Machine integers

    Rust's unsigned integers are natural numbers of type [N]; an operation
    that can leave its width is written out with the width's maximum.  [usize]
    is the 64-bit one.  A signed [i64] is a [Z]. *)

Abbreviation u8 := N (only parsing).
Abbreviation u32 := N (only parsing).
Abbreviation u64 := N (only parsing).
Abbreviation usize := N (only parsing).
Abbreviation i64 := Z (only parsing).

Definition u8_max : N := 255.
Definition u32_max : N := 4294967295.
Definition u64_max : N := 18446744073709551615.
Definition usize_max : N := u64_max.

(** [x as u8] keeps the low byte. *)
Definition as_u8 (x : N) : u8 := x mod 256.

Definition checked_add (a b : u64) : option u64 :=
  if a + b <=? u64_max then Some (a + b) else None.

Definition checked_mul (a b : u64) : option u64 :=
  if a * b <=? u64_max then Some (a * b) else None.

Definition saturating_add (a b : u64) : u64 := N.min (a + b) u64_max.

(** [a + b] as a release build computes it. *)
Definition wrapping_add (a b : u64) : u64 := (a + b) mod 2 ^ 64.

Definition saturating_sub (a b : u64) : u64 := a - b.

Definition saturating_mul (a b : u64) : u64 := N.min (a * b) u64_max.

Definition abs_diff (a b : u64) : u64 := (a - b) + (b - a).

(** ** Results

    [Result<A, E>] with the monad that the question mark operator is. *)

Inductive Result (E A : Type) : Type :=
| Ok (a : A)
| Err (e : E).

Arguments Ok {E A} a.
Arguments Err {E A} e.

#[global] Instance Result_ret E : MRet (Result E) := fun A a => Ok a.
#[global] Instance Result_bind E : MBind (Result E) := fun A B f m =>
  match m with
  | Ok a => f a
  | Err e => Err e
  end.
#[global] Instance Result_fmap E : FMap (Result E) := fun A B f m =>
  match m with
  | Ok a => Ok (f a)
  | Err e => Err e
  end.

#[global] Instance Result_eq_dec E A `{EqDecision E, EqDecision A} :
  EqDecision (Result E A).
Proof. solve_decision. Defined.

Definition map_err {E F A} (f : E -> F) (r : Result E A) : Result F A :=
  match r with
  | Ok a => Ok a
  | Err e => Err (f e)
  end.

Definition ok_or {E A} (e : E) (o : option A) : Result E A :=
  match o with
  | Some a => Ok a
  | None => Err e
  end.

Definition is_ok {E A} (r : Result E A) : bool :=
  match r with
  | Ok _ => true
  | Err _ => false
  end.

(** ** Slices and vectors *)

(** [l.len()]. *)
Definition len {A} (l : list A) : N := N.of_nat (length l).

(** [&l\[from..\]]. *)
Definition from {A} (l : list A) (pos : N) : list A := drop (N.to_nat pos) l.

(** [l.get(i)]. *)
Definition get {A} (l : list A) (i : N) : option A :=
  if i <? len l then l !! N.to_nat i else None.

(** [l.get(lo..hi)]: absent when the range is reversed or runs past the end.
    The bound is tested on [N] first, so an absurd length costs nothing. *)
Definition get_range {A} (l : list A) (lo hi : N) : option (list A) :=
  if (lo <=? hi) && (hi <=? len l)
  then Some (take (N.to_nat (hi - lo)) (drop (N.to_nat lo) l))
  else None.

(** Every element is a byte. *)
Definition is_bytes (l : list u8) : Prop := Forall (fun b => b <= u8_max) l.

(** [v.to_be_bytes()] of an [n]-byte integer, and [from_be_bytes]. *)
Fixpoint to_be_bytes (n : nat) (v : N) : list u8 :=
  match n with
  | O => []
  | S n => to_be_bytes n (v / 256) ++ [v mod 256]
  end.

Fixpoint from_be_bytes_acc (acc : N) (l : list u8) : N :=
  match l with
  | [] => acc
  | b :: l => from_be_bytes_acc (acc * 256 + b) l
  end.

Definition from_be_bytes (l : list u8) : N := from_be_bytes_acc 0 l.

(** ** Tactics *)

(** Case analysis on the scrutinee of the outermost [if] or [match] of a
    hypothesis or of the goal, keeping the equation. *)
Ltac case_on t :=
  let E := fresh "E" in
  destruct t eqn:E.

Ltac step_in H :=
  match type of H with
  | context [match ?t with _ => _ end] =>
      first [ case_on t; try discriminate H | fail 1 ]
  end.

Ltac step_goal :=
  match goal with
  | |- context [match ?t with _ => _ end] => case_on t
  end.

(** Turn a monadic success [m >>= f = Ok b] into its two halves. *)
Lemma bind_Ok {E A B} (m : Result E A) (f : A -> Result E B) b :
  m ≫= f = Ok b <-> exists a, m = Ok a /\ f a = Ok b.
Proof. destruct m; simpl; naive_solver. Qed.

Lemma map_err_Ok {E F A} (f : E -> F) (r : Result E A) a :
  map_err f r = Ok a <-> r = Ok a.
Proof. destruct r; simpl; naive_solver. Qed.

#[global] Instance Ok_inj E A : Inj (=) (=) (@Ok E A).
Proof. by intros x y [= ->]. Qed.

Lemma wrapping_add_small a b : a + b <= u64_max -> wrapping_add a b = a + b.
Proof. unfold wrapping_add, u64_max. intros H. apply N.mod_small. change (2 ^ 64) with 18446744073709551616. lia. Qed.

Lemma checked_add_Some a b c : checked_add a b = Some c <-> c = a + b /\ a + b <= u64_max.
Proof. unfold checked_add. destruct (N.leb_spec (a + b) u64_max); naive_solver lia. Qed.

Lemma ok_or_Ok {E A} (e : E) (o : option A) a : ok_or e o = Ok a <-> o = Some a.
Proof. destruct o; simpl; naive_solver. Qed.

(** ** Generic lemmas *)

Lemma len_nil {A} : len (@nil A) = 0.
Proof. done. Qed.

Lemma len_cons {A} (x : A) l : len (x :: l) = 1 + len l.
Proof. unfold len. simpl. lia. Qed.

Lemma len_app {A} (l k : list A) : len (l ++ k) = len l + len k.
Proof. unfold len. rewrite length_app. lia. Qed.

Lemma len_to_be_bytes n v : len (to_be_bytes n v) = N.of_nat n.
Proof.
  revert v. induction n as [|n IH]; intros v; simpl; [done|].
  rewrite len_app, IH, len_cons, len_nil. lia.
Qed.

Lemma length_len {A} (l : list A) : length l = N.to_nat (len l).
Proof. unfold len. lia. Qed.

Lemma len_0_nil {A} (l : list A) : len l = 0 -> l = [].
Proof. unfold len. destruct l; simpl; [done|lia]. Qed.

Lemma from_0 {A} (l : list A) : from l 0 = l.
Proof. done. Qed.

Lemma from_app_len {A} (l k : list A) : from (l ++ k) (len l) = k.
Proof. unfold from. rewrite <- length_len. apply drop_app_length. Qed.

Lemma from_app_add {A} (l k : list A) n : from (l ++ k) (len l + n) = from k n.
Proof.
  unfold from, len. rewrite N2Nat.inj_add, Nat2N.id.
  rewrite drop_app_ge by lia. f_equal. lia.
Qed.

Lemma get_app_len {A} (l k : list A) x : get (l ++ x :: k) (len l) = Some x.
Proof.
  unfold get. rewrite len_app, len_cons.
  destruct (N.ltb_spec (len l) (len l + (1 + len k))); [|lia].
  rewrite <- length_len. by apply list_lookup_middle.
Qed.

Lemma get_range_app {A} (l k m : list A) n :
  n = len l + len k -> get_range (l ++ k ++ m) (len l) n = Some k.
Proof.
  intros ->. unfold get_range. rewrite !len_app.
  destruct ((_ <=? _) && _) eqn:E; [|lia].
  replace (len l + len k - len l) with (len k) by lia.
  rewrite <- !length_len, drop_app_length, take_app_length. done.
Qed.

Lemma get_range_Some {A} (l : list A) lo hi k :
  get_range l lo hi = Some k ->
  lo <= hi /\ hi <= len l /\ len k = hi - lo /\
  k = take (N.to_nat (hi - lo)) (drop (N.to_nat lo) l).
Proof.
  unfold get_range. destruct ((_ <=? _) && _) eqn:E; [|done]. intros [= <-].
  unfold len in *. rewrite length_take, length_drop. repeat split; lia.
Qed.

(** Every index below the length is present. *)
Lemma get_Some_lt {A} (l : list A) i x : get l i = Some x -> i < len l.
Proof. unfold get. destruct (N.ltb_spec i (len l)); [done|discriminate]. Qed.

Lemma from_be_bytes_acc_app acc l k :
  from_be_bytes_acc acc (l ++ k) = from_be_bytes_acc (from_be_bytes_acc acc l) k.
Proof. revert acc. induction l as [|b l IH]; intros acc; simpl; [done|]. apply IH. Qed.

Lemma from_to_be_bytes n v : v < 256 ^ N.of_nat n -> from_be_bytes (to_be_bytes n v) = v.
Proof.
  unfold from_be_bytes. revert v. induction n as [|n IH]; intros v Hv.
  - simpl in *. lia.
  - rewrite Nat2N.inj_succ, N.pow_succ_r' in Hv. simpl.
    rewrite from_be_bytes_acc_app. simpl.
    rewrite IH; [lia|]. apply N.Div0.div_lt_upper_bound. lia.
Qed.

Lemma is_bytes_to_be_bytes n v : is_bytes (to_be_bytes n v).
Proof.
  revert v. induction n as [|n IH]; intros v; simpl; [constructor|].
  apply Forall_app. split; [apply IH|]. constructor; [|constructor].
  unfold u8_max. lia.
Qed.

(** The low [k] bytes of a wider integer are those of its value modulo their
    range. *)
Lemma to_be_bytes_app m k v :
  to_be_bytes (m + k) v = to_be_bytes m (v / 256 ^ N.of_nat k) ++ to_be_bytes k v.
Proof.
  revert v. induction k as [|k IH]; intros v.
  - rewrite Nat.add_0_r, app_nil_r. simpl. by rewrite N.div_1_r.
  - rewrite Nat.add_succ_r. cbn [to_be_bytes].
    rewrite IH, <- app_assoc, N.Div0.div_div, Nat2N.inj_succ, N.pow_succ_r'. done.
Qed.

Lemma drop_to_be_bytes n k v :
  (k <= n)%nat -> drop (n - k) (to_be_bytes n v) = to_be_bytes k v.
Proof.
  intros Hk. replace n with ((n - k) + k)%nat at 2 by lia. rewrite to_be_bytes_app.
  apply drop_app_length'. pose proof (len_to_be_bytes (n - k) (v / 256 ^ N.of_nat k)) as Hl.
  unfold len in Hl. lia.
Qed.

Lemma to_be_bytes_mod n v : to_be_bytes n (v mod 256 ^ N.of_nat n) = to_be_bytes n v.
Proof.
  revert v. induction n as [|n IH]; intros v; cbn [to_be_bytes]; [done|].
  rewrite Nat2N.inj_succ, N.pow_succ_r'. pose proof (N.pow_nonzero 256 (N.of_nat n) ltac:(lia)).
  rewrite N.Div0.mod_mul_r, (N.add_comm (v mod 256)).
  rewrite (N.mul_comm 256), N.div_add_l by lia.
  rewrite (N.div_small (v mod 256)), N.add_0_r, IH by lia.
  f_equal. f_equal. rewrite N.add_comm, N.Div0.mod_add. lia.
Qed.

Lemma from_to_be_bytes_mod n v : from_be_bytes (to_be_bytes n v) = v mod 256 ^ N.of_nat n.
Proof.
  rewrite <- to_be_bytes_mod. apply from_to_be_bytes. apply N.mod_lt.
  by apply N.pow_nonzero.
Qed.

(** A boolean property of the numbers below a bound is decided by running it. *)
Fixpoint all_below (n : nat) (P : N -> bool) : bool :=
  match n with
  | O => true
  | S n => P (N.of_nat n) && all_below n P
  end.

Lemma all_below_spec n P : all_below n P = true -> forall x, x < N.of_nat n -> P x = true.
Proof.
  induction n as [|n IH]; intros H x Hx; [lia|].
  simpl in H. apply andb_true_iff in H as [H1 H2].
  destruct (decide (x = N.of_nat n)) as [->|]; [done|]. apply IH; [done|lia].
Qed.

(** A property every step keeps holds after a run. *)
Lemma fold_left_inv {S E} (P : S -> Prop) (step : S -> E -> S) :
  (forall s e, P s -> P (step s e)) -> forall es s, P s -> P (fold_left step es s).
Proof. intros H es. induction es as [|e es IH]; intros s Hs; simpl; auto. Qed.

(** [n] numbers from [a] on. *)
Fixpoint count_from (a : N) (n : nat) : list N :=
  match n with
  | O => []
  | S n => a :: count_from (a + 1) n
  end.

Lemma count_from_app a n m : count_from a (n + m) = count_from a n ++ count_from (a + N.of_nat n) m.
Proof.
  revert a. induction n as [|n IH]; intros a; simpl; [f_equal; lia|]. rewrite IH. do 3 f_equal. lia.
Qed.

Lemma count_from_drop a n m : drop n (count_from a m) = count_from (a + N.of_nat n) (m - n).
Proof.
  revert a m. induction n as [|n IH]; intros a [|m]; simpl; try done; [by rewrite N.add_0_r|].
  rewrite IH. f_equal. lia.
Qed.

Lemma length_count_from a n : length (count_from a n) = n.
Proof. revert a. induction n as [|n IH]; intros a; simpl; [done|]. by rewrite IH. Qed.

Lemma elem_of_count_from a n x : x ∈ count_from a n <-> a <= x < a + N.of_nat n.
Proof.
  revert a. induction n as [|n IH]; intros a; simpl; [split; [by intros ?%elem_of_nil|lia]|].
  rewrite elem_of_cons, IH. lia.
Qed.

Create HintDb umc.
Create Rewrite HintDb umc.
#[export] Hint Rewrite @len_nil @len_cons @len_app len_to_be_bytes : umc.
