(* ===== verification/FrameTypes.v ===== *)
(** * The frame registry and the protocol constants (crates/umc-types)

    [FrameType] is the source's one-field tuple struct over [u64]; the two low
    bits of a type say how a receiver treats a frame it does not know. *)

From S2P Require Import Prelude.

Module FrameType.

Abbreviation t := u64 (only parsing).

Definition PADDING : t := 0x00.
Definition PING : t := 0x04.
Definition ACK : t := 0x08.
Definition CONNECTION_CLOSE : t := 0x0C.
Definition STREAM : t := 0x10.
Definition RESET_STREAM : t := 0x14.
Definition STOP_SENDING : t := 0x18.
Definition MAX_DATA : t := 0x1C.
Definition MAX_STREAM_DATA : t := 0x20.
Definition MAX_STREAMS : t := 0x24.
Definition DATAGRAM : t := 0x28.
Definition NEW_CONNECTION_ID : t := 0x2C.
Definition RETIRE_CONNECTION_ID : t := 0x30.
Definition PATH_CHALLENGE : t := 0x34.
Definition PATH_RESPONSE : t := 0x38.
Definition PATH_STATUS : t := 0x3C.
Definition MIGRATE : t := 0x40.
Definition KEY_UPDATE : t := 0x44.
Definition ROUTE_REQUEST : t := 0x48.
Definition ROUTE_RESPONSE : t := 0x4C.
Definition ROUTE_ERROR : t := 0x50.
Definition RELAY_OPEN : t := 0x54.
Definition RELAY_DATA : t := 0x58.
Definition RELAY_CLOSE : t := 0x5C.
Definition BUNDLE : t := 0x60.
Definition BUNDLE_ACK : t := 0x64.
Definition PEER_HINT : t := 0x68.
Definition CAPABILITIES : t := 0x6C.
Definition AUTH : t := 0x70.
Definition HANDSHAKE_DATA : t := 0x74.
Definition SESSION_TICKET : t := 0x78.
Definition SERVICE_HINT : t := 0x7C.
Definition DHT_LOOKUP : t := 0x7F.
Definition RELAY_STATUS : t := 0x82.
Definition REVOCATION_BATCH : t := 0x83.

End FrameType.

Inductive ExtensionBehavior :=
| CriticalFixed
| OptionalFixed
| CriticalLengthDelimited
| OptionalLengthDelimited.

#[global] Instance ExtensionBehavior_eq_dec : EqDecision ExtensionBehavior.
Proof. solve_decision. Defined.

Definition behavior (ty : FrameType.t) : ExtensionBehavior :=
  match N.land ty 3 with
  | 0 => CriticalFixed
  | 1 => OptionalFixed
  | 2 => CriticalLengthDelimited
  | _ => OptionalLengthDelimited
  end.

(** Protocol limits (version.rs). *)
Definition PROTOCOL_VERSION : u32 := 0x00000001.
Definition MAX_PACKET_SIZE : usize := 65535.
Definition MAX_CONNECTION_ID_LEN : usize := 20.
Definition MAX_TOKEN_LEN : usize := 1024.
