(* ===== verification/Varint.v ===== *)
(** * Variable-length integers (crates/umc-wire/src/varint.rs)

    The QUIC-style encoding: the two high bits of the first byte give the width
    (1, 2, 4 or 8 bytes), the rest is the big-endian value, and the decoder
    accepts the shortest form only. *)

From S2P Require Import Prelude.

Definition MAX_VARINT : u64 := 4611686018427387903.

Inductive EncodeError :=
| ValueTooLarge.

Inductive DecodeError :=
| Truncated
| NonCanonical
| InvalidWidth
| Overflow.

#[global] Instance EncodeError_eq_dec : EqDecision EncodeError.
Proof. solve_decision. Defined.
#[global] Instance DecodeError_eq_dec : EqDecision DecodeError.
Proof. solve_decision. Defined.

(** The extended vector, or the error. *)
Definition encode_into (out : list u8) (v : u64) : Result EncodeError (list u8) :=
  if v <=? 63 then Ok (out ++ [as_u8 (N.land v 0x3F)])
  else if v <=? 16383 then
    Ok (out ++ [N.lor 0x40 (as_u8 (N.land (N.shiftr v 8) 0x3F))]
            ++ [as_u8 (N.land v 0xFF)])
  else if v <=? 1073741823 then
    Ok (out ++ [N.lor 0x80 (as_u8 (N.land (N.shiftr v 24) 0x3F))]
            ++ drop 1 (to_be_bytes 4 (N.land v 0x00FFFFFF)))
  else if v <=? MAX_VARINT then
    Ok (out ++ [N.lor 0xC0 (as_u8 (N.land (N.shiftr v 56) 0x3F))]
            ++ drop 1 (to_be_bytes 8 v))
  else Err ValueTooLarge.

Definition encode (v : u64) : Result EncodeError (list u8) := encode_into [] v.

Definition width_of (first : u8) : N :=
  match N.shiftr first 6 with
  | 0 => 1
  | 1 => 2
  | 2 => 4
  | _ => 8
  end.

(** [raw\[0\] &= 0x3F]. *)
Definition mask_first (raw : list u8) : list u8 :=
  match raw with
  | [] => []
  | b :: raw => N.land b 0x3F :: raw
  end.

Definition fits_width (width v : N) : bool :=
  match width with
  | 1 => v <=? 63
  | 2 => v <=? 16383
  | 4 => v <=? 1073741823
  | _ => v <=? MAX_VARINT
  end.

Definition non_canonical (width v : N) : bool :=
  match width with
  | 2 => v <=? 63
  | 4 => v <=? 16383
  | 8 => v <=? 1073741823
  | _ => false
  end.

Definition decode (buf : list u8) : Result DecodeError (u64 * usize) :=
  match buf with
  | [] => Err Truncated
  | first :: _ =>
      let width := width_of first in
      if len buf <? width then Err Truncated
      else
        let raw := mask_first (take (N.to_nat width) buf
                               ++ replicate (N.to_nat (8 - width)) 0) in
        let v := N.shiftr (from_be_bytes raw) ((8 - width) * 8) in
        if negb (fits_width width v) then Err InvalidWidth
        else if non_canonical width v then Err NonCanonical
        else Ok (v, width)
  end.

(** Equality of explicit lists of numbers, element by element. *)
Ltac list_lia := cbn [app]; repeat (apply f_equal2; [lia|]); done.

(** ** The four forms, as arithmetic *)

(** The first byte: a tag in the two high bits over a six-bit value. *)
Definition tagged_ok (tag w : N) : bool :=
  all_below 64 (fun x =>
    (N.lor tag x =? tag + x) && (width_of (tag + x) =? w)
    && (N.land (tag + x) 0x3F =? x)).

Lemma tagged tag w x :
  tagged_ok tag w = true -> x < 64 ->
  N.lor tag x = tag + x /\ width_of (tag + x) = w /\ N.land (tag + x) 0x3F = x.
Proof. intros H Hx. pose proof (all_below_spec _ _ H x Hx) as H'. simpl in H'. lia. Qed.

Lemma tagged_00 x : x < 64 -> N.lor 0 x = 0 + x /\ width_of (0 + x) = 1 /\ N.land (0 + x) 0x3F = x.
Proof. by apply tagged. Qed.
Lemma tagged_40 x : x < 64 -> N.lor 64 x = 64 + x /\ width_of (64 + x) = 2 /\ N.land (64 + x) 0x3F = x.
Proof. by apply tagged. Qed.
Lemma tagged_80 x : x < 64 -> N.lor 128 x = 128 + x /\ width_of (128 + x) = 4 /\ N.land (128 + x) 0x3F = x.
Proof. by apply tagged. Qed.
Lemma tagged_c0 x : x < 64 -> N.lor 192 x = 192 + x /\ width_of (192 + x) = 8 /\ N.land (192 + x) 0x3F = x.
Proof. by apply tagged. Qed.

Lemma land_low v n : N.land v (N.ones n) = v mod 2 ^ n.
Proof. apply N.land_ones. Qed.

Lemma encode_into_1 out v : v <= 63 -> encode_into out v = Ok (out ++ [0 + v]).
Proof.
  intros Hv. unfold encode_into, as_u8. destruct (N.leb_spec v 63); [|lia].
  change 0x3F with (N.ones 6). rewrite land_low. do 3 f_equal.
  change (2 ^ 6) with 64. lia.
Qed.

Lemma encode_into_2 out v :
  63 < v <= 16383 -> encode_into out v = Ok (out ++ [64 + v / 256; v mod 256]).
Proof.
  intros Hv. unfold encode_into, as_u8.
  destruct (N.leb_spec v 63); [lia|]. destruct (N.leb_spec v 16383); [|lia].
  change 0x3F with (N.ones 6). change 0xFF with (N.ones 8).
  rewrite !land_low, N.shiftr_div_pow2.
  change (2 ^ 6) with 64. change (2 ^ 8) with 256.
  rewrite (N.mod_small (v / 256) 64) by lia. rewrite (N.mod_small (v / 256) 256) by lia.
  destruct (tagged_40 (v / 256)) as [-> _]; [lia|].
  rewrite (N.mod_small (v mod 256) 256) by lia. done.
Qed.

Lemma encode_into_4 out v :
  16383 < v <= 1073741823 ->
  encode_into out v =
    Ok (out ++ [128 + v / 16777216; v / 65536 mod 256; v / 256 mod 256; v mod 256]).
Proof.
  intros Hv. unfold encode_into, as_u8.
  destruct (N.leb_spec v 63); [lia|]. destruct (N.leb_spec v 16383); [lia|].
  destruct (N.leb_spec v 1073741823); [|lia].
  change 0x3F with (N.ones 6). change 0x00FFFFFF with (N.ones 24).
  rewrite !land_low, N.shiftr_div_pow2.
  change (2 ^ 6) with 64. change (2 ^ 24) with 16777216.
  rewrite (N.mod_small (v / 16777216) 64) by lia.
  rewrite (N.mod_small (v / 16777216) 256) by lia.
  destruct (tagged_80 (v / 16777216)) as [-> _]; [lia|].
  cbn [to_be_bytes app drop]. rewrite !N.Div0.div_div.
  do 2 f_equal. cbn [app]. list_lia.
Qed.

Lemma encode_into_8 out v :
  1073741823 < v <= MAX_VARINT ->
  encode_into out v =
    Ok (out ++ [192 + v / 2 ^ 56; v / 2 ^ 48 mod 256; v / 2 ^ 40 mod 256; v / 2 ^ 32 mod 256;
                v / 2 ^ 24 mod 256; v / 2 ^ 16 mod 256; v / 2 ^ 8 mod 256; v mod 256]).
Proof.
  intros Hv. unfold encode_into, as_u8.
  destruct (N.leb_spec v 63); [lia|]. destruct (N.leb_spec v 16383); [lia|].
  destruct (N.leb_spec v 1073741823); [lia|].
  destruct (N.leb_spec v MAX_VARINT) as [Hle|]; [|lia]. unfold MAX_VARINT in Hle.
  change 0x3F with (N.ones 6). rewrite !land_low, N.shiftr_div_pow2.
  change (2 ^ 6) with 64. change (2 ^ 56) with 72057594037927936.
  rewrite (N.mod_small (v / 72057594037927936) 64) by lia.
  rewrite (N.mod_small (v / 72057594037927936) 256) by lia.
  destruct (tagged_c0 (v / 72057594037927936)) as [-> _]; [lia|].
  cbn [to_be_bytes app drop]. rewrite !N.Div0.div_div. done.
Qed.

(** The common part of the four forms: a tagged first byte and enough
    bytes after it. *)
Lemma decode_form tag w x tl rest :
  x < 64 -> (0 < w)%nat -> width_of (tag + x) = N.of_nat w -> N.land (tag + x) 0x3F = x ->
  length tl = (w - 1)%nat ->
  decode (tag + x :: tl ++ rest) =
    let v := from_be_bytes (x :: tl ++ replicate (8 - w) 0) / 2 ^ ((8 - N.of_nat w) * 8) in
    if negb (fits_width (N.of_nat w) v) then Err InvalidWidth
    else if non_canonical (N.of_nat w) v then Err NonCanonical
    else Ok (v, N.of_nat w).
Proof.
  intros Hx Hw Hwid Hmask Hl. unfold decode. rewrite Hwid.
  destruct (N.ltb_spec (len (tag + x :: tl ++ rest)) (N.of_nat w)) as [Hlt|_].
  { autorewrite with umc in Hlt. unfold len in Hlt. lia. }
  rewrite Nat2N.id. replace (N.to_nat (8 - N.of_nat w)) with (8 - w)%nat by lia.
  destruct w as [|w]; [lia|]. replace (S w - 1)%nat with w in Hl by lia. subst w.
  rewrite firstn_cons, take_app_length. cbn [app mask_first].
  rewrite Hmask, N.shiftr_div_pow2. done.
Qed.

Lemma decode_1 x rest : x < 64 -> decode (0 + x :: rest) = Ok (x, 1).
Proof.
  intros Hx. destruct (tagged_00 x Hx) as (_ & Hw & Hm).
  pose proof (decode_form 0 1 x [] rest Hx ltac:(lia) Hw Hm eq_refl) as H.
  cbn [app] in H. rewrite H. unfold from_be_bytes.
  cbn [replicate Nat.sub app from_be_bytes_acc].
  change (2 ^ ((8 - N.of_nat 1) * 8)) with 72057594037927936. change (N.of_nat 1) with 1.
  replace (_ / _) with x by lia. unfold fits_width, non_canonical.
  destruct (N.leb_spec x 63); [done|lia].
Qed.

Lemma decode_2 x b rest :
  x < 64 -> b < 256 ->
  decode (64 + x :: b :: rest) =
    if x * 256 + b <=? 63 then Err NonCanonical else Ok (x * 256 + b, 2).
Proof.
  intros Hx Hb. destruct (tagged_40 x Hx) as (_ & Hw & Hm).
  pose proof (decode_form 64 2 x [b] rest Hx ltac:(lia) Hw Hm eq_refl) as H.
  cbn [app] in H. rewrite H. unfold from_be_bytes.
  cbn [replicate Nat.sub app from_be_bytes_acc].
  change (2 ^ ((8 - N.of_nat 2) * 8)) with 281474976710656. change (N.of_nat 2) with 2.
  replace (_ / _) with (x * 256 + b) by lia. unfold fits_width, non_canonical.
  destruct (N.leb_spec (x * 256 + b) 16383); [done|lia].
Qed.

Lemma decode_4 x b c d rest :
  x < 64 -> b < 256 -> c < 256 -> d < 256 ->
  decode (128 + x :: b :: c :: d :: rest) =
    let v := ((x * 256 + b) * 256 + c) * 256 + d in
    if v <=? 16383 then Err NonCanonical else Ok (v, 4).
Proof.
  intros Hx Hb Hc Hd. destruct (tagged_80 x Hx) as (_ & Hw & Hm).
  pose proof (decode_form 128 4 x [b; c; d] rest Hx ltac:(lia) Hw Hm eq_refl) as H.
  cbn [app] in H. rewrite H. unfold from_be_bytes.
  cbn [replicate Nat.sub app from_be_bytes_acc].
  change (2 ^ ((8 - N.of_nat 4) * 8)) with 4294967296. change (N.of_nat 4) with 4.
  cbv zeta. set (v := ((x * 256 + b) * 256 + c) * 256 + d).
  replace (_ / _) with v by lia. unfold fits_width, non_canonical.
  destruct (N.leb_spec v 1073741823); [done|lia].
Qed.

Lemma decode_8 x b c d e f g h rest :
  x < 64 -> b < 256 -> c < 256 -> d < 256 -> e < 256 -> f < 256 -> g < 256 -> h < 256 ->
  decode (192 + x :: b :: c :: d :: e :: f :: g :: h :: rest) =
    let v := ((((((x * 256 + b) * 256 + c) * 256 + d) * 256 + e) * 256 + f) * 256 + g) * 256 + h in
    if v <=? 1073741823 then Err NonCanonical else Ok (v, 8).
Proof.
  intros Hx ???????. destruct (tagged_c0 x Hx) as (_ & Hw & Hm).
  pose proof (decode_form 192 8 x [b; c; d; e; f; g; h] rest Hx ltac:(lia) Hw Hm eq_refl) as H'.
  cbn [app] in H'. rewrite H'. unfold from_be_bytes.
  cbn [replicate Nat.sub app from_be_bytes_acc].
  change (2 ^ ((8 - N.of_nat 8) * 8)) with 1. change (N.of_nat 8) with 8.
  cbv zeta. set (v := _ * 256 + h). rewrite N.div_1_r. unfold fits_width, non_canonical.
  unfold MAX_VARINT. destruct (N.leb_spec v 4611686018427387903); [done|lia].
Qed.

(** ** Round trip, canonicity, bounds *)

(** One digit of a big-endian number. *)
Lemma be_digit v m : v / (m * 256) * 256 + (v / m) mod 256 = v / m.
Proof.
  rewrite <- N.Div0.div_div. pose proof (N.div_mod' (v / m) 256). lia.
Qed.

(** What [encode_into] appends, [decode] reads back whatever follows. *)
Lemma encode_into_decode out v out' :
  encode_into out v = Ok out' ->
  exists bs, out' = out ++ bs /\ forall rest, decode (bs ++ rest) = Ok (v, len bs).
Proof.
  intros H.
  destruct (decide (v <= 63)) as [H1|H1].
  { rewrite encode_into_1 in H by lia. injection H as <-. eexists; split; [done|].
    intros rest. cbn [app]. rewrite decode_1 by lia. done. }
  destruct (decide (v <= 16383)) as [H2|H2].
  { rewrite encode_into_2 in H by lia. injection H as <-. eexists; split; [done|].
    intros rest. cbn [app]. rewrite decode_2 by lia.
    destruct (N.leb_spec (v / 256 * 256 + v mod 256) 63); [lia|].
    do 2 f_equal. lia. }
  destruct (decide (v <= 1073741823)) as [H4|H4].
  { rewrite encode_into_4 in H by lia. injection H as <-. eexists; split; [done|].
    intros rest. cbn [app]. rewrite decode_4 by lia. cbv zeta.
    match goal with |- context [?t <=? 16383] => replace t with v by lia end.
    destruct (N.leb_spec v 16383); [lia|done]. }
  destruct (decide (v <= MAX_VARINT)) as [H8|H8].
  { rewrite encode_into_8 in H by lia. injection H as <-. eexists; split; [done|].
    unfold MAX_VARINT in H8.
    intros rest. cbn [app]. rewrite decode_8 by lia. cbv zeta.
    change (2 ^ 56) with (2 ^ 48 * 256). change (2 ^ 48) with (2 ^ 40 * 256).
    change (2 ^ 40) with (2 ^ 32 * 256). change (2 ^ 32) with (2 ^ 24 * 256).
    change (2 ^ 24) with (2 ^ 16 * 256). change (2 ^ 16) with (2 ^ 8 * 256).
    change (2 ^ 8) with (1 * 256). rewrite !be_digit.
    replace (v / (1 * 256) * 256 + v mod 256) with v by lia.
    destruct (N.leb_spec v 1073741823); [lia|done]. }
  exfalso. unfold encode_into in H.
  repeat case_match; try lia; congruence.
Qed.

Lemma encode_into_app out v :
  encode_into out v = (fun bs => out ++ bs) <$> encode v.
Proof. unfold encode, encode_into. simpl. repeat case_match; done. Qed.

Lemma encode_Ok_iff v : (exists bs, encode v = Ok bs) <-> v <= MAX_VARINT.
Proof.
  unfold encode, encode_into, MAX_VARINT. split.
  - intros [bs H]. repeat case_match; try lia; congruence.
  - intros H. repeat case_match; eauto. lia.
Qed.

Lemma width_of_cases b :
  width_of b = 1 \/ width_of b = 2 \/ width_of b = 4 \/ width_of b = 8.
Proof. unfold width_of. repeat case_match; auto. Qed.

(** A success consumes between one byte and the whole buffer, and the value is
    in range; no assumption on the bytes. *)
Lemma decode_bounds buf v n :
  decode buf = Ok (v, n) -> 0 < n <= len buf /\ v <= MAX_VARINT.
Proof.
  unfold decode. destruct buf as [|first tl]; [done|].
  destruct (N.ltb_spec (len (first :: tl)) (width_of first)) as [|Hlen]; [done|].
  set (w := width_of first) in *. cbv zeta.
  match goal with |- context [fits_width w ?x] => set (y := x) end.
  destruct (fits_width w y) eqn:Hf; [|done]. cbn [negb].
  destruct (non_canonical w y); [done|]. intros [= <- <-].
  unfold fits_width, MAX_VARINT in *.
  destruct (width_of_cases first) as [H|[H|[H|H]]]; fold w in H; rewrite H in *; lia.
Qed.

Lemma byte_tagged b :
  b <= u8_max -> exists x, x < 64 /\ (b = 0 + x \/ b = 64 + x \/ b = 128 + x \/ b = 192 + x).
Proof. unfold u8_max. intros H. exists (b mod 64). lia. Qed.

Lemma decode_width b tl v n : decode (b :: tl) = Ok (v, n) -> n = width_of b.
Proof. unfold decode. repeat case_match; try done. by intros [= <- <-]. Qed.

(** Name the next byte of a buffer known to be long enough. *)
Ltac next_byte tl Hb Hl :=
  let c := fresh "c" in
  destruct tl as [|c tl];
  [ exfalso; autorewrite with umc in Hl; lia
  | let Hc := fresh "Hc" in
    apply Forall_cons_iff in Hb as [Hc Hb]; unfold u8_max in Hc ].

(** A decoded buffer starts with the encoding of the value read. *)
Lemma decode_canonical buf v n :
  is_bytes buf -> decode buf = Ok (v, n) -> encode v = Ok (take (N.to_nat n) buf).
Proof.
  intros Hb H. destruct buf as [|b tl]; [done|].
  pose proof (decode_bounds _ _ _ H) as [[_ Hl] _]. pose proof (decode_width _ _ _ _ H) as Hn.
  apply Forall_cons_iff in Hb as [Hb0 Hb]. unfold encode.
  destruct (byte_tagged b Hb0) as (x & Hx & [->|[->|[->| ->]]]).
  - rewrite decode_1 in H by lia. injection H as <- <-.
    rewrite encode_into_1 by lia. done.
  - rewrite (proj1 (proj2 (tagged_40 x Hx))) in Hn. subst n.
    next_byte tl Hb Hl.
    rewrite decode_2 in H by lia. case_match; [done|]. injection H as <-.
    rewrite encode_into_2 by lia. f_equal. change (N.to_nat 2) with 2%nat.
    rewrite !firstn_cons, firstn_O. list_lia.
  - rewrite (proj1 (proj2 (tagged_80 x Hx))) in Hn. subst n.
    do 3 next_byte tl Hb Hl.
    rewrite decode_4 in H by lia. cbv zeta in H. case_match; [done|]. injection H as <-.
    rewrite encode_into_4 by lia. f_equal. change (N.to_nat 4) with 4%nat.
    rewrite !firstn_cons, firstn_O. list_lia.
  - rewrite (proj1 (proj2 (tagged_c0 x Hx))) in Hn. subst n.
    do 7 next_byte tl Hb Hl.
    rewrite decode_8 in H by lia. cbv zeta in H. case_match; [done|]. injection H as <-.
    rewrite encode_into_8 by (unfold MAX_VARINT; lia). f_equal. change (N.to_nat 8) with 8%nat.
    rewrite !firstn_cons, firstn_O. list_lia.
Qed.

(** ** Properties *)

(** Variable-length integers are a bijection with their canonical
    encodings: exactly the values up to 2^62-1 encode, an encoding decodes to
    its value whatever follows it, and a decoded prefix of a byte string is the
    encoding of the value read, so no second encoding of a value is accepted. *)
Theorem varint_bijective :
  (forall v, (exists bs, encode v = Ok bs) <-> v <= MAX_VARINT)
  /\ (forall v bs rest, encode v = Ok bs -> decode (bs ++ rest) = Ok (v, len bs))
  /\ (forall buf v n, is_bytes buf -> decode buf = Ok (v, n) -> encode v = Ok (take (N.to_nat n) buf)).
Proof.
  split_and!; [apply encode_Ok_iff| |apply decode_canonical].
  intros v bs rest H. unfold encode in H. apply encode_into_decode in H as (k & -> & H). apply H.
Qed.
