(* ===== verification/WireBytes.v ===== *)
(** * Length-prefixed byte strings (crates/umc-wire/src/bytes.rs) *)

From S2P Require Import Prelude Varint.

Inductive BytesError :=
| VarintTooLarge
| LengthExceedsLimit
| Truncated.

Definition encode (out value : list u8) (limit : usize) : Result BytesError (list u8) :=
  if limit <? len value then Err LengthExceedsLimit
  else
    out ← map_err (fun _ => VarintTooLarge) (Varint.encode_into out (len value));
    Ok (out ++ value).

Definition decode (buf : list u8) (limit : usize) : Result BytesError (list u8 * usize) :=
  '(l, n) ← map_err (fun _ => Truncated) (Varint.decode buf);
  if limit <? l then Err LengthExceedsLimit
  else
    total ← ok_or Truncated (checked_add n l);
    if len buf <? total then Err Truncated
    else Ok (take (N.to_nat l) (drop (N.to_nat n) buf), total).

Lemma encode_decode out value limit out' :
  encode out value limit = Ok out' ->
  exists bs, out' = out ++ bs /\
    forall rest, decode (bs ++ rest) limit = Ok (value, len bs).
Proof.
  unfold encode. destruct (N.ltb_spec limit (len value)) as [|Hlim]; [done|].
  intros (out1 & H1%map_err_Ok & [= <-])%bind_Ok.
  destruct (Varint.encode_into_decode _ _ _ H1) as (bs & -> & Hd).
  exists (bs ++ value). split; [by rewrite app_assoc|]. intros rest.
  unfold decode. rewrite <- app_assoc, Hd. cbn.
  destruct (N.ltb_spec limit (len value)); [lia|].
  pose proof (Varint.decode_bounds _ _ _ (Hd [])) as [[_ Hb] Hmax].
  rewrite app_nil_r in Hb. assert (Hsmall : len bs <= 8).
  { pose proof (Hd []) as Hd0. destruct bs as [|b bs]; [rewrite len_nil; lia|].
    apply Varint.decode_width in Hd0.
    destruct (Varint.width_of_cases b) as [Hw|[Hw|[Hw|Hw]]]; lia. }
  unfold checked_add, MAX_VARINT, u64_max in *.
  destruct (N.leb_spec (len bs + len value) 18446744073709551615); [|lia]. cbn.
  destruct (N.ltb_spec (len (bs ++ value ++ rest)) (len bs + len value)) as [Hl|_].
  { autorewrite with umc in Hl. lia. }
  rewrite <- !length_len, drop_app_length, take_app_length, len_app. done.
Qed.

Lemma bytes_decode_bounds buf limit v n :
  decode buf limit = Ok (v, n) -> 0 < n <= len buf /\ len v <= limit /\ len v < n.
Proof.
  unfold decode. intros ([l m] & Hd%map_err_Ok & H)%bind_Ok.
  apply Varint.decode_bounds in Hd as [[Hm1 Hm2] _].
  destruct (N.ltb_spec limit l); [done|].
  apply bind_Ok in H as (total & Ht%ok_or_Ok & H).
  destruct (N.ltb_spec (len buf) total) as [|Hlen]; [done|]. injection H as <- <-.
  unfold checked_add in Ht. case_match; [|done]. injection Ht as <-.
  unfold len in *. rewrite length_take, length_drop. lia.
Qed.
