(* ===== verification/Codec.v ===== *)
(** * Building and parsing frame bodies

    Every frame of crates/umc-wire/src/frames is written by the same few
    statements: an encoder appends to a vector and leaves with [?] on the first
    error; a decoder advances a position over the frame's body.  This file has
    those statements as two small monads, the error type both share
    (crates/umc-wire/src/frame.rs), and the laws that every frame uses: what an
    encoder appends its decoder reads back, in any surrounding bytes, and a
    decoder never runs past the body it was given. *)

From S2P Require Import Prelude FrameTypes Varint WireBytes.

Inductive FrameError :=
| UnknownCriticalFrame (ty : FrameType.t)
| UnknownOptionalFixedFrame (ty : FrameType.t)
| InvalidPadding
| AckRangeUnderflow
| TooManyAckRanges
| AckDelayTooLarge
| VarintErr (e : Varint.DecodeError)
| VarintEncode (e : Varint.EncodeError)
| Truncated
| LengthExceedsLimit
| UnsupportedLengthDelimited.

#[global] Instance FrameError_eq_dec : EqDecision FrameError.
Proof. solve_decision. Defined.

(** ** Encoders *)

Definition EncOf (Er : Type) : Type := list u8 -> Result Er (list u8).
Abbreviation Enc := (EncOf FrameError).

Definition enc_seq {Er} (e1 e2 : EncOf Er) : EncOf Er := fun out => out ← e1 out; e2 out.

Declare Scope codec_scope.
Delimit Scope codec_scope with codec.
#[global] Open Scope codec_scope.
Infix ">>>" := enc_seq (at level 60, right associativity) : codec_scope.

(** [varint::encode_into(&mut out, v).map_err(FrameError::VarintEncode)?]. *)
Definition put_varint_or {Er} (err : Varint.EncodeError -> Er) (v : u64) : EncOf Er :=
  fun out => map_err err (Varint.encode_into out v).
Definition put_varint (v : u64) : Enc := put_varint_or VarintEncode v.

(** [bytes::encode(&mut out, v, limit).map_err(|_| LengthExceedsLimit)?]. *)
Definition put_bytes_or {Er} (err : Er) (v : list u8) (limit : usize) : EncOf Er :=
  fun out => map_err (fun _ => err) (WireBytes.encode out v limit).
Definition put_bytes (v : list u8) (limit : usize) : Enc := put_bytes_or LengthExceedsLimit v limit.

(** [out.push(b)] and [out.extend_from_slice(s)]. *)
Definition put_slice {Er} (s : list u8) : EncOf Er := fun out => Ok (out ++ s).
Definition put_u8 {Er} (b : u8) : EncOf Er := put_slice [b].

(** [if b { ... }] and [for x in &l { ... }]. *)
Definition put_when {Er} (b : bool) (e : EncOf Er) : EncOf Er := if b then e else fun out => Ok out.
Fixpoint put_all {Er A} (f : A -> EncOf Er) (l : list A) : EncOf Er :=
  match l with
  | [] => fun out => Ok out
  | x :: l => f x >>> put_all f l
  end.

(** [if b { return Err(e) }] before the vector is built. *)
Definition refuse {Er} (b : bool) (e : Er) : EncOf Er :=
  fun out => if b then Err e else Ok out.

(** One flag of a flags byte: [if b { flags |= bit; }]. *)
Definition flag (b : bool) (bit : u8) (flags : u8) : u8 :=
  if b then N.lor flags bit else flags.

(** ** Decoders *)

(** From the body and the position [*p], the value and the new position. *)
Definition DecOf (Er A : Type) : Type := list u8 -> usize -> Result Er (A * usize).
Abbreviation Dec := (DecOf FrameError).

#[global] Instance Dec_ret {Er} : MRet (DecOf Er) := fun A a body pos => Ok (a, pos).
#[global] Instance Dec_bind {Er} : MBind (DecOf Er) := fun A B k d body pos =>
  match d body pos with
  | Ok (a, pos) => k a body pos
  | Err e => Err e
  end.

(** The closure [read_varint]: [varint::decode(&body\[*p..\])]. *)
Definition read_varint_or {Er} (err : Varint.DecodeError -> Er) : DecOf Er u64 := fun body pos =>
  '(v, n) ← map_err err (Varint.decode (from body pos));
  Ok (v, pos + n).
Definition read_varint : Dec u64 := read_varint_or VarintErr.

(** [bytes::decode(&body\[pos..\], limit).map_err(|_| Truncated)?; pos += n]. *)
Definition read_bytes_or {Er} (err : Er) (limit : usize) : DecOf Er (list u8) := fun body pos =>
  '(v, n) ← map_err (fun _ => err) (WireBytes.decode (from body pos) limit);
  Ok (v, pos + n).
Definition read_bytes (limit : usize) : Dec (list u8) := read_bytes_or Truncated limit.

(** [*body.get(pos).ok_or(Truncated)?; pos += 1]. *)
Definition read_u8 : Dec u8 := fun body pos =>
  b ← ok_or Truncated (get body pos);
  Ok (b, pos + 1).

(** [end = pos.checked_add(n)?; body.get(pos..end).ok_or(Truncated)?]. *)
Definition read_slice_or {Er} (err : Er) (n : usize) : DecOf Er (list u8) := fun body pos =>
  hi ← ok_or err (checked_add pos n);
  v ← ok_or err (get_range body pos hi);
  Ok (v, hi).
Definition read_slice (n : usize) : Dec (list u8) := read_slice_or Truncated n.

Definition fail_if {Er} (b : bool) (e : Er) : DecOf Er unit := fun body pos =>
  if b then Err e else Ok (tt, pos).

(** [if b { d } else { default }]. *)
Definition read_when {Er A} (b : bool) (d : DecOf Er A) (default : A) : DecOf Er A :=
  if b then d else mret default.

(** [for _ in 0..n { v.push(d) }]. *)
Fixpoint read_n {Er A} (n : nat) (d : DecOf Er A) : DecOf Er (list A) :=
  match n with
  | O => mret []
  | S n => x ← d; l ← read_n n d; mret (x :: l)
  end.

(** [flags & mask != 0]. *)
Definition has (flags mask : u8) : bool := negb (N.land flags mask =? 0).

(** ** Encoders append, and what they append is read back *)

(** [reads d bs a]: wherever the bytes [bs] stand in a body, [d] started on them
    yields [a] and stops just after them. *)
Definition reads {Er A} (d : DecOf Er A) (bs : list u8) (a : A) : Prop :=
  forall pre post, len (pre ++ bs ++ post) <= usize_max ->
    d (pre ++ bs ++ post) (len pre) = Ok (a, len pre + len bs).

(** [codec e d a]: when the encoder [e] succeeds it has appended bytes on which
    the decoder [d] yields [a]. *)
Definition codec {Er A} (e : EncOf Er) (d : DecOf Er A) (a : A) : Prop :=
  forall out out', e out = Ok out' -> exists bs, out' = out ++ bs /\ reads d bs a.

Lemma reads_ret {Er A : Type} (a : A) : reads (Er := Er) (mret a) [] a.
Proof. intros pre post _. unfold mret, Dec_ret. by rewrite len_nil, N.add_0_r. Qed.

Lemma dec_bind_Ok {Er A B} (d : DecOf Er A) (k : A -> DecOf Er B) body pos r :
  (d ≫= k) body pos = Ok r -> exists a pos1, d body pos = Ok (a, pos1) /\ k a body pos1 = Ok r.
Proof. unfold mbind, Dec_bind. destruct (d body pos) as [[a pos1]|]; [eauto|done]. Qed.

Lemma reads_bind {Er A B} (d : DecOf Er A) (k : A -> DecOf Er B) bs cs a b :
  reads d bs a -> reads (k a) cs b -> reads (d ≫= k) (bs ++ cs) b.
Proof.
  intros H1 H2 pre post Hl. unfold mbind, Dec_bind.
  rewrite <- app_assoc in *. rewrite H1 by done.
  specialize (H2 (pre ++ bs) post). rewrite <- !app_assoc, !len_app in H2.
  rewrite !len_app in Hl. rewrite H2 by (rewrite ?len_app; lia).
  do 2 f_equal. rewrite len_app. lia.
Qed.

Lemma codec_bind {Er A B} (e1 e2 : EncOf Er) (d : DecOf Er A) (k : A -> DecOf Er B) a b :
  codec e1 d a -> codec e2 (k a) b -> codec (e1 >>> e2) (d ≫= k) b.
Proof.
  intros H1 H2 out out' (out1 & E1 & E2)%bind_Ok.
  destruct (H1 _ _ E1) as (bs & -> & R1). destruct (H2 _ _ E2) as (cs & -> & R2).
  exists (bs ++ cs). split; [by rewrite app_assoc|]. by eapply reads_bind.
Qed.

(** The last field: nothing is left to write. *)
Lemma codec_last {Er A B} (e : EncOf Er) (d : DecOf Er A) (f : A -> B) a b :
  codec e d a -> f a = b -> codec e (d ≫= fun x => mret (f x)) b.
Proof.
  intros H <- out out' E. destruct (H _ _ E) as (bs & -> & R).
  exists bs. split; [done|]. rewrite <- (app_nil_r bs). eapply reads_bind; [done|].
  apply reads_ret.
Qed.

(** A guard of the decoder that does not fire. *)
Lemma codec_fail_if {Er B} e (b : bool) err (k : unit -> DecOf Er B) x :
  b = false -> codec e (k tt) x -> codec e (fail_if b err ≫= k) x.
Proof. intros -> H out out' E. destruct (H _ _ E) as (bs & -> & R). by exists bs. Qed.

(** A guard of the encoder: past it, its condition is known to be false. *)
Lemma codec_refuse {Er A} b err e (d : DecOf Er A) a :
  (b = false -> codec e d a) -> codec (refuse b err >>> e) d a.
Proof.
  intros H out out' E. unfold enc_seq, refuse in E. destruct b; [done|].
  by apply H.
Qed.

Lemma codec_varint_or {Er} (err : _ -> Er) err' v : codec (put_varint_or err v) (read_varint_or err') v.
Proof.
  intros out out' H%map_err_Ok.
  destruct (Varint.encode_into_decode _ _ _ H) as (bs & -> & Hd).
  exists bs. split; [done|]. intros pre post _. unfold read_varint_or.
  rewrite from_app_len, Hd. done.
Qed.

Lemma codec_varint v : codec (put_varint v) read_varint v.
Proof. apply codec_varint_or. Qed.

Lemma codec_bytes_or {Er} (err err' : Er) v limit : codec (put_bytes_or err v limit) (read_bytes_or err' limit) v.
Proof.
  intros out out' H%map_err_Ok.
  destruct (WireBytes.encode_decode _ _ _ _ H) as (bs & -> & Hd).
  exists bs. split; [done|]. intros pre post _. unfold read_bytes_or.
  rewrite from_app_len, Hd. done.
Qed.

Lemma codec_bytes v limit : codec (put_bytes v limit) (read_bytes limit) v.
Proof. apply codec_bytes_or. Qed.

Lemma codec_u8 b : codec (put_u8 b) read_u8 b.
Proof.
  intros out out' [= <-]. exists [b]. split; [done|]. intros pre post _.
  unfold read_u8. cbn [app]. rewrite get_app_len. done.
Qed.

Lemma codec_slice_or {Er} (err : Er) s n : n = len s -> codec (put_slice s) (read_slice_or err n) s.
Proof.
  intros -> out out' [= <-]. exists s. split; [done|]. intros pre post Hl.
  unfold read_slice_or, checked_add. rewrite !len_app in Hl.
  unfold usize_max in Hl. destruct (N.leb_spec (len pre + len s) u64_max); [|lia].
  cbn. by rewrite get_range_app.
Qed.

Lemma codec_slice s n : n = len s -> codec (put_slice s) (read_slice n) s.
Proof. apply codec_slice_or. Qed.

Lemma codec_when {Er A} (b : bool) e (d : DecOf Er A) default a :
  (b = true -> codec e d a) -> (b = false -> a = default) ->
  codec (put_when b e) (read_when b d default) a.
Proof.
  destruct b; intros H1 H2; simpl; [by apply H1|].
  rewrite H2 by done. intros out out' [= <-]. exists []. rewrite app_nil_r.
  split; [done|]. apply reads_ret.
Qed.

Lemma codec_all {Er A} (f : A -> EncOf Er) (d : DecOf Er A) (l : list A) :
  Forall (fun x => codec (f x) d x) l ->
  codec (put_all f l) (read_n (length l) d) l.
Proof.
  induction 1 as [|x l Hx Hl IH]; simpl.
  - intros out out' [= <-]. exists []. rewrite app_nil_r. split; [done|]. apply reads_ret.
  - eapply codec_bind; [done|]. by eapply codec_last.
Qed.

(** ** Decoders stay inside their body *)

(** Started inside the body, a successful decoder does not move back and stops
    inside the body; so every slice expression [&body\[pos..\]] is in range. *)
Definition in_bounds {Er A} (d : DecOf Er A) : Prop :=
  forall body pos a pos', pos <= len body ->
    d body pos = Ok (a, pos') -> pos <= pos' <= len body.

Lemma in_bounds_ret {Er A : Type} (a : A) : in_bounds (Er := Er) (mret a).
Proof. intros body pos x pos' Hp [= <- <-]. lia. Qed.

Lemma in_bounds_bind {Er A B} (d : DecOf Er A) (k : A -> DecOf Er B) :
  in_bounds d -> (forall a, in_bounds (k a)) -> in_bounds (d ≫= k).
Proof.
  intros H1 H2 body pos b pos' Hp E. unfold mbind, Dec_bind in E.
  destruct (d body pos) as [[a pos1]|] eqn:E1; [|done].
  apply H1 in E1; [|done]. apply H2 in E; [|lia]. lia.
Qed.

Lemma len_from {A} (l : list A) pos : len (from l pos) = len l - pos.
Proof. unfold from, len. rewrite length_drop. lia. Qed.

Lemma in_bounds_varint : in_bounds read_varint.
Proof.
  intros body pos a pos' Hp ([v n] & H%map_err_Ok & [= <- <-])%bind_Ok.
  apply Varint.decode_bounds in H. rewrite len_from in H. lia.
Qed.

Lemma in_bounds_bytes limit : in_bounds (read_bytes limit).
Proof.
  intros body pos a pos' Hp ([v n] & H%map_err_Ok & [= <- <-])%bind_Ok.
  apply WireBytes.bytes_decode_bounds in H. rewrite len_from in H. lia.
Qed.

Lemma in_bounds_u8 : in_bounds read_u8.
Proof.
  intros body pos a pos' Hp (b & H%ok_or_Ok & [= <- <-])%bind_Ok.
  apply get_Some_lt in H. lia.
Qed.

Lemma in_bounds_slice n : in_bounds (read_slice n).
Proof.
  intros body pos a pos' Hp (hi & H1%ok_or_Ok & H)%bind_Ok.
  apply bind_Ok in H as (v & H2%ok_or_Ok & [= <- <-]).
  apply get_range_Some in H2. lia.
Qed.

Lemma in_bounds_fail_if {Er} b (e : Er) : in_bounds (fail_if b e).
Proof. intros body pos a pos' Hp H. unfold fail_if in H. destruct b; [done|]. injection H as <- <-. lia. Qed.

Lemma in_bounds_when {Er A} b (d : DecOf Er A) x : in_bounds d -> in_bounds (read_when b d x).
Proof. destruct b; simpl; [done|]. intros _. apply in_bounds_ret. Qed.

Lemma in_bounds_n {Er A} n (d : DecOf Er A) : in_bounds d -> in_bounds (read_n n d).
Proof.
  intros H. induction n as [|n IH]; simpl; [apply in_bounds_ret|].
  apply in_bounds_bind; [done|]. intros a. apply in_bounds_bind; [done|].
  intros l. apply in_bounds_ret.
Qed.

#[export] Hint Resolve codec_varint codec_bytes codec_u8 codec_slice @codec_varint_or @codec_bytes_or @codec_slice_or : umc.
#[export] Hint Resolve @in_bounds_ret @in_bounds_bind in_bounds_varint in_bounds_bytes
  in_bounds_u8 in_bounds_slice in_bounds_fail_if @in_bounds_when @in_bounds_n : umc.

(** ** What a decoded value satisfies *)

(** [yields d P]: every value a successful run of [d] returns satisfies [P]. *)
Definition yields {Er A} (d : DecOf Er A) (P : A -> Prop) : Prop :=
  forall body pos a pos', d body pos = Ok (a, pos') -> P a.

Lemma yields_ret {Er A : Type} (a : A) (P : A -> Prop) : P a -> yields (Er := Er) (mret a) P.
Proof. intros H body pos x pos' [= <- <-]. done. Qed.

Lemma yields_bind {Er A B} (d : DecOf Er A) (k : A -> DecOf Er B) Q P :
  yields d Q -> (forall a, Q a -> yields (k a) P) -> yields (d ≫= k) P.
Proof.
  intros H1 H2 body pos b pos' E. unfold mbind, Dec_bind in E.
  destruct (d body pos) as [[a pos1]|] eqn:E1; [|done].
  apply H1 in E1. by eapply H2.
Qed.

Lemma yields_varint : yields read_varint (fun v => v <= MAX_VARINT).
Proof.
  intros body pos a pos' ([v n] & H%map_err_Ok & [= <- <-])%bind_Ok.
  by apply Varint.decode_bounds in H as [_ ?].
Qed.

Lemma yields_bytes limit : yields (read_bytes limit) (fun v => len v <= limit).
Proof.
  intros body pos a pos' ([v n] & H%map_err_Ok & [= <- <-])%bind_Ok.
  by apply WireBytes.bytes_decode_bounds in H as (_ & ? & _).
Qed.

Lemma yields_u8 : yields read_u8 (fun _ => True).
Proof. done. Qed.

Lemma yields_slice n : yields (read_slice n) (fun v => len v = n).
Proof.
  intros body pos a pos' (hi & H1%ok_or_Ok & H)%bind_Ok.
  apply bind_Ok in H as (v & H2%ok_or_Ok & [= <- <-]).
  unfold checked_add in H1. case_match; [|done]. injection H1 as <-.
  apply get_range_Some in H2. lia.
Qed.

Lemma yields_fail_if {Er} b (e : Er) : yields (fail_if b e) (fun _ => b = false).
Proof. intros body pos a pos' H. unfold fail_if in H. by destruct b. Qed.

Lemma yields_when {Er A} b (d : DecOf Er A) x Q :
  yields d Q -> yields (read_when b d x) (fun a => if b then Q a else a = x).
Proof. destruct b; simpl; [done|]. intros _. by apply yields_ret. Qed.

Lemma yields_n {Er A} n (d : DecOf Er A) Q :
  yields d Q -> yields (read_n n d) (fun l => length l = n /\ Forall Q l).
Proof.
  intros H. induction n as [|n IH]; simpl; [by apply yields_ret|].
  eapply yields_bind; [exact H|]. intros x Hx. eapply yields_bind; [exact IH|].
  intros l [Hl HQ]. apply yields_ret. simpl. split; [lia|by constructor].
Qed.

Lemma yields_true {Er A} (d : DecOf Er A) : yields d (fun _ => True).
Proof. done. Qed.

#[export] Hint Resolve yields_varint yields_bytes yields_u8 yields_slice yields_fail_if : umc.

(** Collect what each field satisfies, down to the record that is returned. *)
Ltac yields_step :=
  cbv beta zeta;
  first
    [ apply yields_ret
    | eapply yields_bind; [solve [eauto with umc]|]; intros ? ?; cbv beta in * ].

(** ** Whole frames *)

(** [framed ty d bs f]: [bs] is the type [ty] followed by a body that the
    decoder [d] reads as [f]. *)
Definition framed {A} (ty : FrameType.t) (d : Dec A) (bs : list u8) (f : A) : Prop :=
  exists tb body, bs = tb ++ body
    /\ (forall rest, Varint.decode (tb ++ rest) = Ok (ty, len tb))
    /\ reads d body f.

Lemma framed_intro {A} ty e (d : Dec A) f bs :
  (put_varint ty >>> e) [] = Ok bs -> codec e d f -> framed ty d bs f.
Proof.
  intros (tb & H1%map_err_Ok & H2)%bind_Ok Hc.
  destruct (Varint.encode_into_decode _ _ _ H1) as (tb' & -> & Hd).
  destruct (Hc _ _ H2) as (body & -> & Hr). by exists tb', body.
Qed.

Lemma refuse_Ok {Er} b (err : Er) e out r :
  (refuse b err >>> e) out = Ok r <-> b = false /\ e out = Ok r.
Proof. unfold enc_seq, refuse. destruct b; naive_solver. Qed.

(** Continue after the last field through guards that do not fire. *)
Lemma codec_final {Er A B} (e : EncOf Er) (d : DecOf Er A) (k : A -> DecOf Er B) a b :
  codec e d a -> reads (k a) [] b -> codec e (d ≫= k) b.
Proof.
  intros H Hk out out' E. destruct (H _ _ E) as (bs & -> & R).
  exists bs. split; [done|]. rewrite <- (app_nil_r bs). by eapply reads_bind.
Qed.

Lemma reads_fail_if {Er B} (b : bool) (err : Er) (k : unit -> DecOf Er B) cs x :
  b = false -> reads (k tt) cs x -> reads (fail_if b err ≫= k) cs x.
Proof. intros -> H. exact H. Qed.

(** A frame decoder started at the beginning of its body. *)
Lemma reads_start {Er A} (d : DecOf Er A) bs post a :
  reads d bs a -> len (bs ++ post) <= usize_max -> d (bs ++ post) 0 = Ok (a, len bs).
Proof. intros H Hl. by apply (H [] post). Qed.

(** *** Flags bytes *)

Lemma has_flag b bit fl mask :
  has (flag b bit fl) mask = (b && has bit mask) || has fl mask.
Proof.
  unfold has, flag. destruct b; simpl; [|done].
  rewrite N.land_lor_distr_l.
  destruct (N.eqb_spec (N.land bit mask) 0) as [->|Hb].
  - by rewrite N.lor_0_r.
  - destruct (N.eqb_spec (N.lor (N.land fl mask) (N.land bit mask)) 0) as [He|]; [|done].
    apply N.lor_eq_0_iff in He. naive_solver.
Qed.

(** Compute the membership of literal bits in literal masks, leaving each flag's
    boolean. *)
Ltac flags_simp :=
  rewrite ?has_flag;
  repeat match goal with
    | |- context [has ?a ?b] =>
        let r := eval vm_compute in (has a b) in
        match r with true => idtac | false => idtac end;
        change (has a b) with r
    end;
  rewrite ?andb_false_r, ?andb_true_r, ?orb_false_r, ?orb_false_l.

(** Walk an encoder and its decoder in step. *)
Ltac codec_step :=
  cbv beta;
  lazymatch goal with
  | |- codec (_ >>> _) (fail_if _ _ ≫= _) _ => apply codec_fail_if; [try solve [flags_simp; done]|]
  | |- codec (_ >>> _) _ _ => eapply codec_bind; [solve [auto with umc]|]
  | |- codec _ (fail_if _ _ ≫= _) _ => apply codec_fail_if; [try solve [flags_simp; done]|]
  | |- codec _ _ _ => eapply codec_final; [solve [auto with umc]|]
  | |- reads (fail_if _ _ ≫= _) _ _ => apply reads_fail_if; [try solve [flags_simp; done]|]
  end.

(** At the end the decoder rebuilds the very record that was encoded. *)
Ltac codec_done f :=
  match goal with
  | |- reads (mret ?r) [] _ =>
      replace r with f by (flags_simp; destruct f; try done); apply reads_ret
  end.

Ltac bounds_solve :=
  repeat first
    [ apply in_bounds_bind; [|intros ?]
    | apply in_bounds_n
    | apply in_bounds_when
    | progress cbv beta
    | solve [auto with umc]
    | case_match ].

(** ** Encoders that succeed *)

(** [writes e n]: the encoder [e] always succeeds and appends at most [n] bytes. *)
Definition writes {Er} (e : EncOf Er) (n : N) : Prop :=
  forall out, exists bs, e out = Ok (out ++ bs) /\ len bs <= n.

Lemma writes_le {Er} (e : EncOf Er) m n : writes e m -> m <= n -> writes e n.
Proof. intros Hw Hmn out. destruct (Hw out) as (bs & -> & Hl). exists bs. split; [done|lia]. Qed.

Lemma writes_seq {Er} (e1 e2 : EncOf Er) m n : writes e1 m -> writes e2 n -> writes (e1 >>> e2) (m + n).
Proof.
  intros H1 H2 out. destruct (H1 out) as (bs & E1 & L1). destruct (H2 (out ++ bs)) as (cs & E2 & L2).
  exists (bs ++ cs). unfold enc_seq. rewrite E1. cbn. rewrite E2, len_app, app_assoc. split; [done|lia].
Qed.

Lemma writes_slice {Er} s : writes (Er := Er) (put_slice s) (len s).
Proof. intros out. exists s. done. Qed.

Lemma writes_varint {Er} (err : _ -> Er) v : v <= MAX_VARINT -> writes (put_varint_or err v) 8.
Proof.
  intros Hv out. unfold put_varint_or. rewrite Varint.encode_into_app.
  destruct (proj2 (Varint.encode_Ok_iff v) Hv) as [bs Hbs]. rewrite Hbs. exists bs. split; [done|].
  unfold Varint.encode, Varint.encode_into in Hbs. repeat case_match; try done; apply (inj Ok) in Hbs as <-;
    unfold len; rewrite ?length_app, ?length_drop, ?length_to_be_bytes; simpl; lia.
Qed.

Lemma writes_bytes_len {Er} (err : Er) v limit :
  len v <= limit -> limit <= MAX_VARINT -> writes (put_bytes_or err v limit) (8 + len v).
Proof.
  intros Hv Hlim out. unfold put_bytes_or, WireBytes.encode.
  destruct (N.ltb_spec limit (len v)); [lia|].
  destruct (writes_varint (fun _ => WireBytes.VarintTooLarge) (len v) ltac:(lia) out) as (bs & E1 & L1).
  unfold put_varint_or in E1. rewrite E1. cbn. exists (bs ++ v).
  rewrite app_assoc, len_app. split; [done|lia].
Qed.

Lemma writes_bytes {Er} (err : Er) v limit :
  len v <= limit -> limit <= MAX_VARINT -> writes (put_bytes_or err v limit) (8 + limit).
Proof. intros Hv Hlim. eapply writes_le; [by apply writes_bytes_len|lia]. Qed.

Lemma writes_all {Er A} (f : A -> EncOf Er) n l :
  Forall (fun x => writes (f x) n) l -> writes (put_all f l) (len l * n).
Proof.
  induction 1 as [|x l Hx _ IH]; simpl.
  - intros out. exists []. rewrite app_nil_r. done.
  - eapply writes_le; [by apply writes_seq|]. autorewrite with umc. lia.
Qed.

(** What has been appended and is read back, together. *)
Lemma writes_codec {Er A} (e : EncOf Er) n (d : DecOf Er A) a :
  writes e n -> codec e d a -> exists bs, e [] = Ok bs /\ len bs <= n /\ reads d bs a.
Proof.
  intros Hw Hc. destruct (Hw []) as (bs & E & Hl). destruct (Hc _ _ E) as (bs' & Heq & Hr).
  simpl in Heq. subst bs'. by exists bs.
Qed.
