(* ===== verification/FramesAck.v ===== *)
(** * ACK and CONNECTION_CLOSE (crates/umc-wire/src/frame.rs) *)

From S2P Require Import Prelude FrameTypes Varint WireBytes Codec.

Definition MAX_ACK_RANGES : usize := 64.
Definition MAX_REASON_LEN : usize := 1024.

Module AckRange.

Record t := mk { gap : u64; length : u64 }.

Definition put (r : t) : Enc := put_varint r.(gap) >>> put_varint r.(length).

Definition range : Dec t :=
  gap ← read_varint;
  length ← read_varint;
  fail_if (length =? 0) AckRangeUnderflow;;
  mret (mk gap length).

Lemma codec_range r : r.(length) <> 0 -> codec (put r) range r.
Proof. intros Hr. unfold put, range. codec_step. codec_step. codec_step; [lia|]. codec_done r. Qed.

Lemma range_decoded : yields range (fun r => r.(length) <> 0).
Proof. unfold range. repeat yields_step. simpl. lia. Qed.

End AckRange.

Module AckFrame.

Record t := mk {
  largest_acknowledged : u64;
  ack_delay : u64;
  first_ack_range : u64;
  additional_ranges : list AckRange.t
}.

Definition put (f : t) : Enc :=
  put_varint f.(largest_acknowledged)
  >>> put_varint f.(ack_delay)
  >>> put_varint (len f.(additional_ranges) + 1)
  >>> put_varint f.(first_ack_range)
  >>> put_all AckRange.put f.(additional_ranges).

Definition encode (f : t) : Result FrameError (list u8) :=
  (refuse (MAX_ACK_RANGES <? len f.(additional_ranges)) TooManyAckRanges
   >>> put_varint FrameType.ACK >>> put f) [].

Definition body : Dec t :=
  largest ← read_varint;
  delay ← read_varint;
  range_count ← read_varint;
  fail_if ((range_count =? 0) || (MAX_ACK_RANGES + 1 <? range_count)) TooManyAckRanges;;
  first ← read_varint;
  fail_if (first =? 0) AckRangeUnderflow;;
  ranges ← read_n (N.to_nat (range_count - 1)) AckRange.range;
  mret (mk largest delay first ranges).

Definition decode (b : list u8) : Result FrameError (t * usize) := body b 0.

(** Ranges the decoder accepts: none is empty. *)
Definition nonempty (f : t) : Prop :=
  f.(first_ack_range) <> 0 /\ Forall (fun r => r.(AckRange.length) <> 0) f.(additional_ranges).

Lemma ack_framed f bs :
  nonempty f -> encode f = Ok bs -> framed FrameType.ACK body bs f.
Proof.
  intros [H1 H2] [Hl H]%refuse_Ok. eapply framed_intro; [exact H|]. unfold put, body.
  do 3 codec_step. codec_step; [lia|]. codec_step. codec_step; [lia|].
  replace (len _ + 1 - 1) with (len (additional_ranges f)) by lia. rewrite <- length_len.
  eapply codec_final; [|cbv beta].
  { apply codec_all. eapply Forall_impl; [apply AckRange.codec_range|exact H2]. }
  codec_done f.
Qed.

Lemma ack_in_bounds : in_bounds body.
Proof. unfold body, AckRange.range. bounds_solve. Qed.

Lemma ack_decoded :
  yields body (fun f => nonempty f /\ len f.(additional_ranges) <= MAX_ACK_RANGES).
Proof.
  unfold body. repeat first [yields_step
    | eapply yields_bind; [apply yields_n, AckRange.range_decoded|]; intros ? [Hl HF]].
  unfold nonempty. simpl. rewrite length_len in Hl. unfold MAX_ACK_RANGES in *.
  repeat split; try done; lia.
Qed.

End AckFrame.

Module ConnectionCloseFrame.

Record t := mk { error_code : u64; trigger_frame_type : u64; reason : list u8 }.

Definition put (f : t) : Enc :=
  put_varint f.(error_code)
  >>> put_varint f.(trigger_frame_type)
  >>> put_bytes f.(reason) MAX_REASON_LEN.

Definition encode (f : t) : Result FrameError (list u8) :=
  (refuse (MAX_REASON_LEN <? len f.(reason)) LengthExceedsLimit
   >>> put_varint FrameType.CONNECTION_CLOSE >>> put f) [].

Definition body : Dec t :=
  code ← read_varint;
  trigger ← read_varint;
  reason ← read_bytes MAX_REASON_LEN;
  mret (mk code trigger reason).

Definition decode (b : list u8) : Result FrameError (t * usize) := body b 0.

Lemma connection_close_framed f bs :
  encode f = Ok bs -> framed FrameType.CONNECTION_CLOSE body bs f.
Proof.
  intros [_ H]%refuse_Ok. eapply framed_intro; [exact H|]. unfold put, body.
  repeat codec_step. codec_done f.
Qed.

Lemma connection_close_in_bounds : in_bounds body.
Proof. unfold body. bounds_solve. Qed.

Lemma connection_close_decoded :
  yields body (fun f => len f.(reason) <= MAX_REASON_LEN).
Proof. unfold body. repeat yields_step. done. Qed.

End ConnectionCloseFrame.
