(* ===== verification/FramesFlow.v ===== *)
(** * Flow-control frames (crates/umc-wire/src/frames/flow.rs) *)

From S2P Require Import Prelude FrameTypes Varint WireBytes Codec.

Module MaxDataFrame.

Record t := mk { maximum_data : u64 }.

Definition put (f : t) : Enc := put_varint f.(maximum_data).

Definition encode (f : t) : Result FrameError (list u8) :=
  (put_varint FrameType.MAX_DATA >>> put f) [].

Definition body : Dec t := v ← read_varint; mret (mk v).

Definition decode (b : list u8) : Result FrameError (t * usize) := body b 0.

Lemma max_data_framed f bs :
  encode f = Ok bs -> framed FrameType.MAX_DATA body bs f.
Proof.
  intros H. eapply framed_intro; [exact H|]. unfold put, body.
  repeat codec_step. codec_done f.
Qed.

Lemma max_data_in_bounds : in_bounds body.
Proof. unfold body. bounds_solve. Qed.

End MaxDataFrame.

Module MaxStreamDataFrame.

Record t := mk { stream_id : u64; maximum_stream_data : u64 }.

Definition put (f : t) : Enc :=
  put_varint f.(stream_id) >>> put_varint f.(maximum_stream_data).

Definition encode (f : t) : Result FrameError (list u8) :=
  (put_varint FrameType.MAX_STREAM_DATA >>> put f) [].

Definition body : Dec t :=
  sid ← read_varint;
  max ← read_varint;
  mret (mk sid max).

Definition decode (b : list u8) : Result FrameError (t * usize) := body b 0.

Lemma max_stream_data_framed f bs :
  encode f = Ok bs -> framed FrameType.MAX_STREAM_DATA body bs f.
Proof.
  intros H. eapply framed_intro; [exact H|]. unfold put, body.
  repeat codec_step. codec_done f.
Qed.

Lemma max_stream_data_in_bounds : in_bounds body.
Proof. unfold body. bounds_solve. Qed.

End MaxStreamDataFrame.

Module MaxStreamsFrame.

Record t := mk { bidirectional : bool; maximum_streams : u64 }.

Definition put (f : t) : Enc :=
  put_varint (if f.(bidirectional) then 0 else 1) >>> put_varint f.(maximum_streams).

Definition encode (f : t) : Result FrameError (list u8) :=
  (put_varint FrameType.MAX_STREAMS >>> put f) [].

Definition body : Dec t :=
  dir ← read_varint;
  fail_if (1 <? dir) InvalidPadding;;
  max ← read_varint;
  mret (mk (dir =? 0) max).

Definition decode (b : list u8) : Result FrameError (t * usize) := body b 0.

Lemma max_streams_framed f bs :
  encode f = Ok bs -> framed FrameType.MAX_STREAMS body bs f.
Proof.
  intros H. eapply framed_intro; [exact H|]. unfold put, body.
  repeat codec_step; [by destruct (bidirectional f)|].
  repeat codec_step. destruct f as [[] m]; apply reads_ret.
Qed.

Lemma max_streams_in_bounds : in_bounds body.
Proof. unfold body. bounds_solve. Qed.

End MaxStreamsFrame.
