(* ===== verification/FramesStream.v ===== *)
(** * Stream frames (crates/umc-wire/src/frames/stream.rs) *)

From S2P Require Import Prelude FrameTypes Varint WireBytes Codec.

Definition MAX_PROTOCOL_ID_LEN : usize := 255.
Definition MAX_STREAM_METADATA_LEN : usize := 4096.

Module StreamFrame.

Record t := mk {
  stream_id : u64;
  fin : bool;
  offset_present : bool;
  len_present : bool;
  open : bool;
  unidirectional : bool;
  offset : u64;
  data : list u8;
  protocol_id : list u8;
  metadata : list u8
}.

Definition flags (f : t) : u8 :=
  flag f.(unidirectional) 0x10
    (flag f.(open) 0x08
      (flag f.(len_present) 0x04
        (flag f.(offset_present) 0x02
          (flag f.(fin) 0x01 0)))).

Definition put (f : t) : Enc :=
  put_varint f.(stream_id)
  >>> put_u8 (flags f)
  >>> put_when f.(offset_present) (put_varint f.(offset))
  >>> put_when f.(len_present) (put_varint (len f.(data)))
  >>> put_slice f.(data)
  >>> put_when f.(open)
        (put_bytes f.(protocol_id) MAX_PROTOCOL_ID_LEN
         >>> put_bytes f.(metadata) MAX_STREAM_METADATA_LEN).

Definition encode (f : t) : Result FrameError (list u8) :=
  (put_varint FrameType.STREAM >>> put f) [].

(** The data length: the declared one, which must fit [u32], or all that is left
    of the body. *)
Definition data_len (present : bool) : Dec usize :=
  if present then
    l ← read_varint;
    fail_if (u32_max <? l) LengthExceedsLimit;;
    mret l
  else fun body pos => Ok (len body - pos, pos).

Definition body : Dec t :=
  stream_id ← read_varint;
  flags ← read_u8;
  fail_if (has flags 0xE0) InvalidPadding;;
  let offset_present := has flags 0x02 in
  let len_present := has flags 0x04 in
  offset ← read_when offset_present read_varint 0;
  data_len ← data_len len_present;
  data ← read_slice data_len;
  '(protocol_id, metadata) ←
    read_when (has flags 0x08)
      (p ← read_bytes MAX_PROTOCOL_ID_LEN;
       m ← read_bytes MAX_STREAM_METADATA_LEN;
       mret (p, m))
      ([], []);
  mret (mk stream_id (has flags 0x01) offset_present len_present (has flags 0x08)
           (has flags 0x10) offset data protocol_id metadata).

Definition decode (b : list u8) : Result FrameError (t * usize) := body b 0.

(** A frame whose absent fields hold what the decoder fills in, and whose data
    is delimited by its own length. *)
Definition delimited (f : t) : Prop :=
  f.(len_present) = true /\ len f.(data) <= u32_max
  /\ (f.(offset_present) = false -> f.(offset) = 0)
  /\ (f.(open) = false -> f.(protocol_id) = [] /\ f.(metadata) = []).

(** A frame whose data is all that is left of the payload. *)
Definition open_ended (f : t) : Prop :=
  f.(len_present) = false /\ f.(open) = false /\ (f.(offset_present) = false -> f.(offset) = 0)
  /\ f.(protocol_id) = [] /\ f.(metadata) = [].

Lemma stream_flags_read f :
  has (flags f) 0xE0 = false /\ has (flags f) 0x01 = fin f
  /\ has (flags f) 0x02 = offset_present f /\ has (flags f) 0x04 = len_present f
  /\ has (flags f) 0x08 = open f /\ has (flags f) 0x10 = unidirectional f.
Proof. unfold flags. flags_simp. done. Qed.

Lemma codec_data_len n :
  n <= u32_max -> codec (put_varint n) (data_len true) n.
Proof.
  intros Hn. unfold data_len. codec_step. codec_step; [lia|]. apply reads_ret.
Qed.

Lemma codec_open p m :
  codec (put_bytes p MAX_PROTOCOL_ID_LEN >>> put_bytes m MAX_STREAM_METADATA_LEN)
    (p ← read_bytes MAX_PROTOCOL_ID_LEN; m ← read_bytes MAX_STREAM_METADATA_LEN; mret (p, m))
    (p, m).
Proof. repeat codec_step. apply reads_ret. Qed.

Lemma stream_framed f bs :
  delimited f -> encode f = Ok bs -> framed FrameType.STREAM body bs f.
Proof.
  intros (Hl & Hu & Ho & Hp) H. eapply framed_intro; [exact H|]. unfold put, body.
  destruct (stream_flags_read f) as (F0 & F1 & F2 & F3 & F4 & F5).
  codec_step. codec_step. cbv beta zeta. rewrite F0, F1, F2, F3, F4, F5.
  codec_step. cbv beta.
  eapply codec_bind. { apply codec_when; [auto with umc|]. intros E. by apply Ho. }
  rewrite Hl. cbn [put_when]. eapply codec_bind; [by apply codec_data_len|].
  codec_step. eapply codec_final.
  { apply codec_when; [intros _; apply codec_open|]. intros E. by destruct (Hp E) as [-> ->]. }
  cbv iota beta. rewrite <- Hl. destruct f; apply reads_ret.
Qed.

(** At the end of a payload such a frame is read back too. *)
Lemma stream_open_ended f bs :
  open_ended f -> encode f = Ok bs ->
  exists tb rest, bs = tb ++ rest /\ (forall post, Varint.decode (tb ++ post) = Ok (FrameType.STREAM, len tb)) /\
    (len rest <= usize_max -> body rest 0 = Ok (f, len rest)).
Proof.
  intros (Hl & Hp & Ho & Hpi & Hm) (o1 & H1%map_err_Ok & H)%bind_Ok.
  destruct (Varint.encode_into_decode _ _ _ H1) as (tb & -> & Ht). unfold put in H. rewrite Hl, Hp in H.
  apply bind_Ok in H as (o2 & (b1 & -> & R1)%codec_varint & H). apply bind_Ok in H as (o3 & (b2 & -> & R2)%codec_u8 & H).
  apply bind_Ok in H as (o4 & H4 & H).
  destruct (codec_when f.(offset_present) (put_varint f.(offset)) read_varint 0 f.(offset)
    ltac:(intros _; apply codec_varint) Ho _ _ H4) as (b3 & -> & R3).
  apply bind_Ok in H as (o5 & [= <-] & H). apply bind_Ok in H as (o6 & [= <-] & [= <-]).
  exists tb, (b1 ++ b2 ++ b3 ++ f.(data)). cbn [app]. rewrite <- !app_assoc. split; [done|]. split; [done|]. intros Hlen.
  specialize (R1 [] (b2 ++ b3 ++ f.(data)) Hlen). specialize (R2 b1 (b3 ++ f.(data)) Hlen).
  specialize (R3 (b1 ++ b2) f.(data)). rewrite <- !app_assoc in R3. specialize (R3 Hlen).
  destruct (codec_slice f.(data) (len f.(data)) eq_refl [] _ eq_refl) as (d & Ed & R4). cbn [app] in Ed. subst d.
  specialize (R4 (b1 ++ b2 ++ b3) []). rewrite app_nil_r, <- !app_assoc in R4. specialize (R4 Hlen).
  destruct (stream_flags_read f) as (F0 & F1 & F2 & F3 & F4 & F5).
  unfold body, mbind, Dec_bind. cbn [app] in R1. change (len []) with 0 in R1. rewrite R1, N.add_0_l, R2, F0. cbn [fail_if].
  cbv zeta. rewrite F1, F2, F3, F4, F5, Hl, Hp, <- len_app, R3. cbn [data_len read_when].
  rewrite <- len_app, <- app_assoc. replace (len (b1 ++ b2 ++ b3 ++ data f) - len (b1 ++ b2 ++ b3)) with (len (data f))
    by (autorewrite with umc; lia).
  rewrite R4. unfold mret, Dec_ret. do 2 f_equal; [|autorewrite with umc; lia]. destruct f; simpl in *. by subst.
Qed.

Lemma stream_in_bounds : in_bounds body.
Proof.
  unfold body, data_len. bounds_solve.
  intros b pos n pos' Hp [= <- <-]. lia.
Qed.

Lemma stream_decoded :
  yields body (fun f =>
    len f.(protocol_id) <= MAX_PROTOCOL_ID_LEN /\ len f.(metadata) <= MAX_STREAM_METADATA_LEN
    /\ (f.(open) = false -> f.(protocol_id) = [] /\ f.(metadata) = [])
    /\ (f.(offset_present) = false -> f.(offset) = 0)).
Proof.
  unfold body. do 3 yields_step. cbv zeta.
  eapply yields_bind; [apply yields_when, yields_true|]. intros off Hoff.
  do 2 (eapply yields_bind; [apply yields_true|]; intros ? _).
  eapply yields_bind.
  { apply yields_when. repeat yields_step.
    instantiate (1 := fun pm => len pm.1 <= MAX_PROTOCOL_ID_LEN
                             /\ len pm.2 <= MAX_STREAM_METADATA_LEN). done. }
  intros [p m] Hpm. yields_step. simpl.
  destruct (has _ 8); [|injection Hpm as -> ->; rewrite len_nil];
    destruct (has _ 2); repeat split; try naive_solver; unfold MAX_PROTOCOL_ID_LEN,
    MAX_STREAM_METADATA_LEN; lia.
Qed.

(** Every frame read is delimited by its length or has taken all that was left. *)
Lemma stream_shape b pos f pos' :
  pos <= len b -> body b pos = Ok (f, pos') -> delimited f \/ (open_ended f /\ pos' = len b).
Proof.
  intros Hp H. pose proof (stream_decoded _ _ _ _ H) as (_ & _ & Hopen & Hoff). unfold body in H.
  apply dec_bind_Ok in H as (id & p1 & H1 & H). apply dec_bind_Ok in H as (fl & p2 & H2 & H).
  apply dec_bind_Ok in H as (u & p3 & H3 & H). cbv zeta in H. apply dec_bind_Ok in H as (off & p4 & H4 & H).
  apply dec_bind_Ok in H as (n & p5 & H5 & H). apply dec_bind_Ok in H as (d & p6 & H6 & H).
  apply dec_bind_Ok in H as ([pi m] & p7 & H7 & H). injection H as <- <-. cbn in Hopen, Hoff.
  assert (Hp4 : p4 <= len b).
  { assert (Hb : in_bounds (Er := FrameError) (read_when (has fl 2) read_varint 0)) by bounds_solve.
    assert (Hb3 : in_bounds (fail_if (has fl 224) InvalidPadding)) by bounds_solve.
    assert (Hb2 : in_bounds read_u8) by bounds_solve. assert (Hb1 : in_bounds read_varint) by bounds_solve.
    apply Hb1 in H1; [|done]. apply Hb2 in H2; [|lia]. apply Hb3 in H3; [|lia]. apply Hb in H4; lia. }
  destruct (has fl 4) eqn:E4.
  - left. unfold delimited. cbn. split; [done|]. split; [|done]. unfold data_len in H5.
    apply dec_bind_Ok in H5 as (l & q & _ & H5). apply dec_bind_Ok in H5 as (u' & q' & Hf & H5). injection H5 as <- <-.
    unfold fail_if in Hf. destruct (N.ltb_spec u32_max l); [done|]. apply yields_slice in H6. lia.
  - right. injection H5 as <- <-. apply bind_Ok in H6 as (hi & Hc%ok_or_Ok & H6). apply bind_Ok in H6 as (v & Hg%ok_or_Ok & H6).
    injection H6 as <- <-. apply checked_add_Some in Hc as [-> _]. replace (p4 + (len b - p4)) with (len b) in H7 by lia.
    destruct (has fl 8) eqn:E8.
    + cbn [read_when] in H7. apply dec_bind_Ok in H7 as (p & q & H7 & _). exfalso.
      apply bind_Ok in H7 as ([v' n] & H7%map_err_Ok & _). replace (from b (len b)) with (@nil u8) in H7; [done|].
      unfold from. by rewrite <- length_len, drop_all.
    + injection H7 as <- <- <-. split; [|done]. by destruct (Hopen eq_refl).
Qed.

End StreamFrame.

Module ResetStreamFrame.

Record t := mk { stream_id : u64; app_error_code : u64; final_size : u64 }.

Definition put (f : t) : Enc :=
  put_varint f.(stream_id) >>> put_varint f.(app_error_code) >>> put_varint f.(final_size).

Definition encode (f : t) : Result FrameError (list u8) :=
  (put_varint FrameType.RESET_STREAM >>> put f) [].

Definition body : Dec t :=
  stream_id ← read_varint;
  code ← read_varint;
  final_size ← read_varint;
  mret (mk stream_id code final_size).

Definition decode (b : list u8) : Result FrameError (t * usize) := body b 0.

Lemma reset_stream_framed f bs :
  encode f = Ok bs -> framed FrameType.RESET_STREAM body bs f.
Proof.
  intros H. eapply framed_intro; [exact H|]. unfold put, body.
  repeat codec_step. codec_done f.
Qed.

Lemma reset_stream_in_bounds : in_bounds body.
Proof. unfold body. bounds_solve. Qed.

End ResetStreamFrame.

Module StopSendingFrame.

Record t := mk { stream_id : u64; app_error_code : u64 }.

Definition put (f : t) : Enc :=
  put_varint f.(stream_id) >>> put_varint f.(app_error_code).

Definition encode (f : t) : Result FrameError (list u8) :=
  (put_varint FrameType.STOP_SENDING >>> put f) [].

Definition body : Dec t :=
  stream_id ← read_varint;
  code ← read_varint;
  mret (mk stream_id code).

Definition decode (b : list u8) : Result FrameError (t * usize) := body b 0.

Lemma stop_sending_framed f bs :
  encode f = Ok bs -> framed FrameType.STOP_SENDING body bs f.
Proof.
  intros H. eapply framed_intro; [exact H|]. unfold put, body.
  repeat codec_step. codec_done f.
Qed.

Lemma stop_sending_in_bounds : in_bounds body.
Proof. unfold body. bounds_solve. Qed.

End StopSendingFrame.
