(* ===== verification/FramesDatagram.v ===== *)
(** * Datagram frame (crates/umc-wire/src/frames/datagram.rs) *)

From S2P Require Import Prelude FrameTypes Varint WireBytes Codec.

Definition MAX_DATAGRAM_PAYLOAD : usize := 1200.

Module DatagramFrame.

Record t := mk {
  context_id : u64;
  ack_requested : bool;
  duplicate_suppression : bool;
  expiration_delta : option u64;
  data : list u8
}.

Definition flags (f : t) : u8 :=
  flag (bool_decide (is_Some f.(expiration_delta))) 0x04
    (flag f.(duplicate_suppression) 0x02
      (flag f.(ack_requested) 0x01 0)).

Definition put (f : t) : Enc :=
  put_varint f.(context_id)
  >>> put_u8 (flags f)
  >>> match f.(expiration_delta) with
      | Some d => put_varint d
      | None => fun out => Ok out
      end
  >>> put_varint (len f.(data))
  >>> put_slice f.(data).

Definition encode (f : t) : Result FrameError (list u8) :=
  (refuse (MAX_DATAGRAM_PAYLOAD <? len f.(data)) LengthExceedsLimit
   >>> put_varint FrameType.DATAGRAM >>> put f) [].

Definition body : Dec t :=
  context_id ← read_varint;
  flags ← read_u8;
  fail_if (has flags 0xF8) InvalidPadding;;
  expiration_delta ←
    (if has flags 0x04 then d ← read_varint; mret (Some d) else mret None);
  data_len ← read_varint;
  fail_if (MAX_DATAGRAM_PAYLOAD <? data_len) LengthExceedsLimit;;
  data ← read_slice data_len;
  mret (mk context_id (has flags 0x01) (has flags 0x02) expiration_delta data).

Definition decode (b : list u8) : Result FrameError (t * usize) := body b 0.

Lemma codec_expiration (o : option u64) :
  codec match o with Some d => put_varint d | None => fun out => Ok out end
        (if bool_decide (is_Some o) then d ← read_varint; mret (Some d) else mret None) o.
Proof.
  destruct o as [d|]; simpl.
  - codec_step. apply reads_ret.
  - intros out out' [= <-]. exists []. rewrite app_nil_r. split; [done|]. apply reads_ret.
Qed.

Lemma datagram_framed f bs :
  encode f = Ok bs -> framed FrameType.DATAGRAM body bs f.
Proof.
  intros [Hl H]%refuse_Ok. eapply framed_intro; [exact H|]. unfold put, body.
  assert (has (flags f) 0xF8 = false /\ has (flags f) 0x01 = ack_requested f
    /\ has (flags f) 0x02 = duplicate_suppression f
    /\ has (flags f) 0x04 = bool_decide (is_Some (expiration_delta f)))
    as (F0 & F1 & F2 & F3) by (unfold flags; flags_simp; done).
  codec_step. codec_step. cbv beta. rewrite F0, F1, F2, F3. codec_step.
  eapply codec_bind; [apply codec_expiration|]. codec_step. codec_step.
  codec_step. codec_done f.
Qed.

Lemma datagram_in_bounds : in_bounds body.
Proof. unfold body. bounds_solve. Qed.

Lemma datagram_decoded : yields body (fun f => len f.(data) <= MAX_DATAGRAM_PAYLOAD).
Proof.
  unfold body. do 3 yields_step. eapply yields_bind; [apply yields_true|]. intros ? _.
  repeat yields_step. simpl. lia.
Qed.

End DatagramFrame.
