(* ===== verification/FramesPath.v ===== *)
(** * Path, migration, key-update and connection-ID frames
      (crates/umc-wire/src/frames/path.rs)

    The fixed-size arrays [\[u8; N\]] are lists; their length, which the type
    fixes in the source, is a hypothesis where it matters. *)

From S2P Require Import Prelude FrameTypes Varint WireBytes Codec.

Definition CHALLENGE_LEN : usize := 8.
Definition RESET_TOKEN_LEN : usize := 16.

Module PathChallengeFrame.

Record t := mk { data : list u8 }.

Definition put (f : t) : Enc := put_slice f.(data).

Definition encode (f : t) : Result FrameError (list u8) :=
  (put_varint FrameType.PATH_CHALLENGE >>> put f) [].

Definition body : Dec t := data ← read_slice CHALLENGE_LEN; mret (mk data).

Definition decode (b : list u8) : Result FrameError (t * usize) := body b 0.

Lemma path_challenge_framed f bs :
  len f.(data) = CHALLENGE_LEN ->
  encode f = Ok bs -> framed FrameType.PATH_CHALLENGE body bs f.
Proof.
  intros Hl H. eapply framed_intro; [exact H|]. unfold put, body.
  eapply codec_final; [by apply codec_slice|]. codec_done f.
Qed.

Lemma path_challenge_in_bounds : in_bounds body.
Proof. unfold body. bounds_solve. Qed.

Lemma path_challenge_decoded :
  yields body (fun f => len f.(data) = CHALLENGE_LEN).
Proof. unfold body. repeat yields_step. done. Qed.

End PathChallengeFrame.

Module PathResponseFrame.

Record t := mk { data : list u8 }.

Definition put (f : t) : Enc := put_slice f.(data).

Definition encode (f : t) : Result FrameError (list u8) :=
  (put_varint FrameType.PATH_RESPONSE >>> put f) [].

Definition body : Dec t := data ← read_slice CHALLENGE_LEN; mret (mk data).

Definition decode (b : list u8) : Result FrameError (t * usize) := body b 0.

Lemma path_response_framed f bs :
  len f.(data) = CHALLENGE_LEN ->
  encode f = Ok bs -> framed FrameType.PATH_RESPONSE body bs f.
Proof.
  intros Hl H. eapply framed_intro; [exact H|]. unfold put, body.
  eapply codec_final; [by apply codec_slice|]. codec_done f.
Qed.

Lemma path_response_in_bounds : in_bounds body.
Proof. unfold body. bounds_solve. Qed.

Lemma path_response_decoded :
  yields body (fun f => len f.(data) = CHALLENGE_LEN).
Proof. unfold body. repeat yields_step. done. Qed.

End PathResponseFrame.

Module PathStatusFrame.

Record t := mk {
  path_id : u64;
  validated : bool;
  active : bool;
  degraded : bool;
  local : bool;
  metered : bool;
  censored_or_filtered : bool;
  estimated_rtt : u64;
  estimated_bandwidth : u64;
  estimated_loss : u64;
  cost_class : u64
}.

Definition flags (f : t) : u8 :=
  flag f.(censored_or_filtered) 0x20
    (flag f.(metered) 0x10
      (flag f.(local) 0x08
        (flag f.(degraded) 0x04
          (flag f.(active) 0x02
            (flag f.(validated) 0x01 0))))).

Definition put (f : t) : Enc :=
  put_varint f.(path_id)
  >>> put_u8 (flags f)
  >>> put_varint f.(estimated_rtt)
  >>> put_varint f.(estimated_bandwidth)
  >>> put_varint f.(estimated_loss)
  >>> put_varint f.(cost_class).

Definition encode (f : t) : Result FrameError (list u8) :=
  (put_varint FrameType.PATH_STATUS >>> put f) [].

Definition body : Dec t :=
  path_id ← read_varint;
  flags ← read_u8;
  fail_if (has flags 0xC0) InvalidPadding;;
  rtt ← read_varint;
  bw ← read_varint;
  loss ← read_varint;
  cost ← read_varint;
  mret (mk path_id (has flags 0x01) (has flags 0x02) (has flags 0x04) (has flags 0x08)
           (has flags 0x10) (has flags 0x20) rtt bw loss cost).

Definition decode (b : list u8) : Result FrameError (t * usize) := body b 0.

Lemma path_status_framed f bs :
  encode f = Ok bs -> framed FrameType.PATH_STATUS body bs f.
Proof.
  intros H. eapply framed_intro; [exact H|]. unfold put, body, flags.
  repeat codec_step. codec_done f.
Qed.

Lemma path_status_in_bounds : in_bounds body.
Proof. unfold body. bounds_solve. Qed.

End PathStatusFrame.

Module MigrateFrame.

Record t := mk {
  old_path_id : u64;
  new_path_id : u64;
  migration_sequence : u64;
  make_primary : bool;
  keep_old_path : bool;
  duplicate_critical_frames : bool
}.

Definition put (f : t) : Enc :=
  put_varint f.(old_path_id)
  >>> put_varint f.(new_path_id)
  >>> put_varint f.(migration_sequence)
  >>> put_u8 (flag f.(duplicate_critical_frames) 0x04
               (flag f.(keep_old_path) 0x02
                 (flag f.(make_primary) 0x01 0))).

Definition encode (f : t) : Result FrameError (list u8) :=
  (put_varint FrameType.MIGRATE >>> put f) [].

Definition body : Dec t :=
  old ← read_varint;
  new ← read_varint;
  seq ← read_varint;
  flags ← read_u8;
  fail_if (has flags 0xF8) InvalidPadding;;
  mret (mk old new seq (has flags 0x01) (has flags 0x02) (has flags 0x04)).

Definition decode (b : list u8) : Result FrameError (t * usize) := body b 0.

Lemma migrate_framed f bs :
  encode f = Ok bs -> framed FrameType.MIGRATE body bs f.
Proof.
  intros H. eapply framed_intro; [exact H|]. unfold put, body.
  repeat codec_step. codec_done f.
Qed.

Lemma migrate_in_bounds : in_bounds body.
Proof. unfold body. bounds_solve. Qed.

End MigrateFrame.

Module KeyUpdateFrame.

Record t := mk { update_sequence : u64; request_peer_update : bool }.

Definition put (f : t) : Enc :=
  put_varint f.(update_sequence) >>> put_u8 (if f.(request_peer_update) then 1 else 0).

Definition encode (f : t) : Result FrameError (list u8) :=
  (put_varint FrameType.KEY_UPDATE >>> put f) [].

Definition body : Dec t :=
  seq ← read_varint;
  flags ← read_u8;
  fail_if (has flags 0xFE) InvalidPadding;;
  mret (mk seq (has flags 0x01)).

Definition decode (b : list u8) : Result FrameError (t * usize) := body b 0.

Lemma key_update_framed f bs :
  encode f = Ok bs -> framed FrameType.KEY_UPDATE body bs f.
Proof.
  intros H. eapply framed_intro; [exact H|]. unfold put, body.
  codec_step. codec_step. cbv beta.
  destruct f as [s []]; (apply reads_fail_if; [done|]); apply reads_ret.
Qed.

Lemma key_update_in_bounds : in_bounds body.
Proof. unfold body. bounds_solve. Qed.

End KeyUpdateFrame.

Module NewConnectionIdFrame.

Record t := mk {
  sequence : u64;
  retire_prior_to : u64;
  connection_id : list u8;
  reset_token : list u8
}.

(** [(1..=20).contains(&n)]. *)
Definition cid_len_ok (n : usize) : bool := (1 <=? n) && (n <=? 20).

Definition put (f : t) : Enc :=
  put_varint f.(sequence)
  >>> put_varint f.(retire_prior_to)
  >>> put_u8 (as_u8 (len f.(connection_id)))
  >>> put_slice f.(connection_id)
  >>> put_slice f.(reset_token).

Definition encode (f : t) : Result FrameError (list u8) :=
  (refuse (negb (cid_len_ok (len f.(connection_id)))) LengthExceedsLimit
   >>> refuse (f.(sequence) <? f.(retire_prior_to)) InvalidPadding
   >>> put_varint FrameType.NEW_CONNECTION_ID >>> put f) [].

Definition body : Dec t :=
  seq ← read_varint;
  retire ← read_varint;
  cid_len ← read_u8;
  fail_if (negb (cid_len_ok cid_len)) LengthExceedsLimit;;
  cid ← read_slice cid_len;
  reset_token ← read_slice RESET_TOKEN_LEN;
  fail_if (seq <? retire) InvalidPadding;;
  mret (mk seq retire cid reset_token).

Definition decode (b : list u8) : Result FrameError (t * usize) := body b 0.

Lemma new_connection_id_framed f bs :
  len f.(reset_token) = RESET_TOKEN_LEN ->
  encode f = Ok bs -> framed FrameType.NEW_CONNECTION_ID body bs f.
Proof.
  intros Ht [Hc [Hs H]%refuse_Ok]%refuse_Ok. eapply framed_intro; [exact H|].
  unfold put, body. do 3 codec_step. cbv beta.
  assert (as_u8 (len (connection_id f)) = len (connection_id f)) as ->.
  { unfold as_u8, cid_len_ok in *. apply N.mod_small. lia. }
  codec_step. codec_step.
  eapply codec_final; [by apply codec_slice|]. codec_step. codec_done f.
Qed.

Lemma new_connection_id_in_bounds : in_bounds body.
Proof. unfold body. bounds_solve. Qed.

Lemma new_connection_id_decoded :
  yields body (fun f =>
    1 <= len f.(connection_id) <= 20 /\ len f.(reset_token) = RESET_TOKEN_LEN
    /\ f.(retire_prior_to) <= f.(sequence)).
Proof. unfold body. repeat yields_step. unfold cid_len_ok in *. simpl. lia. Qed.

End NewConnectionIdFrame.

Module RetireConnectionIdFrame.

Record t := mk { sequence : u64 }.

Definition put (f : t) : Enc := put_varint f.(sequence).

Definition encode (f : t) : Result FrameError (list u8) :=
  (put_varint FrameType.RETIRE_CONNECTION_ID >>> put f) [].

Definition body : Dec t := seq ← read_varint; mret (mk seq).

Definition decode (b : list u8) : Result FrameError (t * usize) := body b 0.

Lemma retire_connection_id_framed f bs :
  encode f = Ok bs -> framed FrameType.RETIRE_CONNECTION_ID body bs f.
Proof.
  intros H. eapply framed_intro; [exact H|]. unfold put, body.
  repeat codec_step. codec_done f.
Qed.

Lemma retire_connection_id_in_bounds : in_bounds body.
Proof. unfold body. bounds_solve. Qed.

End RetireConnectionIdFrame.
