(* ===== verification/FramesHandshake.v ===== *)
(** * Handshake-phase frames (crates/umc-wire/src/frames/handshake.rs) *)

From S2P Require Import Prelude FrameTypes Varint WireBytes Codec.

Definition MAX_HANDSHAKE_MESSAGE : usize := 16384.
Definition MAX_CAPABILITIES : usize := 128.
Definition MAX_CAPABILITY_VALUE : usize := 4096.

Module AuthFrame.

Record t := mk { method : u64; data : list u8 }.

Definition put (f : t) : Enc :=
  put_varint f.(method) >>> put_bytes f.(data) MAX_HANDSHAKE_MESSAGE.

Definition encode (f : t) : Result FrameError (list u8) :=
  (refuse (MAX_HANDSHAKE_MESSAGE <? len f.(data)) LengthExceedsLimit
   >>> put_varint FrameType.AUTH >>> put f) [].

Definition body : Dec t :=
  method ← read_varint;
  data ← read_bytes MAX_HANDSHAKE_MESSAGE;
  mret (mk method data).

Definition decode (b : list u8) : Result FrameError (t * usize) := body b 0.

Lemma auth_framed f bs : encode f = Ok bs -> framed FrameType.AUTH body bs f.
Proof.
  intros [_ H]%refuse_Ok. eapply framed_intro; [exact H|]. unfold put, body.
  repeat codec_step. codec_done f.
Qed.

Lemma auth_in_bounds : in_bounds body.
Proof. unfold body. bounds_solve. Qed.

Lemma auth_decoded :
  yields body (fun f => len f.(data) <= MAX_HANDSHAKE_MESSAGE).
Proof. unfold body. repeat yields_step. done. Qed.

End AuthFrame.

Module HandshakeDataFrame.

Record t := mk { offset : u64; data : list u8 }.

Definition put (f : t) : Enc :=
  put_varint f.(offset) >>> put_bytes f.(data) MAX_HANDSHAKE_MESSAGE.

Definition encode (f : t) : Result FrameError (list u8) :=
  (refuse (MAX_HANDSHAKE_MESSAGE <? len f.(data)) LengthExceedsLimit
   >>> put_varint FrameType.HANDSHAKE_DATA >>> put f) [].

Definition body : Dec t :=
  offset ← read_varint;
  data ← read_bytes MAX_HANDSHAKE_MESSAGE;
  mret (mk offset data).

Definition decode (b : list u8) : Result FrameError (t * usize) := body b 0.

Lemma handshake_data_framed f bs :
  encode f = Ok bs -> framed FrameType.HANDSHAKE_DATA body bs f.
Proof.
  intros [_ H]%refuse_Ok. eapply framed_intro; [exact H|]. unfold put, body.
  repeat codec_step. codec_done f.
Qed.

Lemma handshake_data_in_bounds : in_bounds body.
Proof. unfold body. bounds_solve. Qed.

Lemma handshake_data_decoded :
  yields body (fun f => len f.(data) <= MAX_HANDSHAKE_MESSAGE).
Proof. unfold body. repeat yields_step. done. Qed.

End HandshakeDataFrame.

Module Capability.

Record t := mk { id : u64; value : list u8 }.

Definition put (e : t) : Enc := put_varint e.(id) >>> put_bytes e.(value) MAX_CAPABILITY_VALUE.

Definition entry : Dec t :=
  id ← read_varint;
  value ← read_bytes MAX_CAPABILITY_VALUE;
  mret (mk id value).

Lemma codec_capability e : codec (put e) entry e.
Proof. unfold put, entry. repeat codec_step. codec_done e. Qed.

Lemma capability_decoded : yields entry (fun e => len e.(value) <= MAX_CAPABILITY_VALUE).
Proof. unfold entry. repeat yields_step. done. Qed.

End Capability.

Module CapabilitiesFrame.

Record t := mk { entries : list Capability.t }.

Definition put (f : t) : Enc :=
  put_varint (len f.(entries)) >>> put_all Capability.put f.(entries).

Definition encode (f : t) : Result FrameError (list u8) :=
  (refuse (MAX_CAPABILITIES <? len f.(entries)) LengthExceedsLimit
   >>> put_varint FrameType.CAPABILITIES >>> put f) [].

Definition body : Dec t :=
  count ← read_varint;
  fail_if (MAX_CAPABILITIES <? count) LengthExceedsLimit;;
  entries ← read_n (N.to_nat count) Capability.entry;
  mret (mk entries).

Definition decode (b : list u8) : Result FrameError (t * usize) := body b 0.

Lemma capabilities_framed f bs :
  encode f = Ok bs -> framed FrameType.CAPABILITIES body bs f.
Proof.
  intros [Hl H]%refuse_Ok. eapply framed_intro; [exact H|]. unfold put, body.
  codec_step. codec_step. rewrite <- length_len.
  eapply codec_final; [|cbv beta].
  { apply codec_all, Forall_true, Capability.codec_capability. }
  codec_done f.
Qed.

Lemma capabilities_in_bounds : in_bounds body.
Proof. unfold body, Capability.entry. bounds_solve. Qed.

Lemma capabilities_decoded :
  yields body (fun f =>
    len f.(entries) <= MAX_CAPABILITIES
    /\ Forall (fun e => len e.(Capability.value) <= MAX_CAPABILITY_VALUE) f.(entries)).
Proof.
  unfold body. repeat first [yields_step
    | eapply yields_bind; [apply yields_n, Capability.capability_decoded|]; intros ? [Hl HF]].
  simpl. rewrite length_len in Hl. split; [lia|done].
Qed.

End CapabilitiesFrame.

Module SessionTicketFrame.

Record t := mk { lifetime : u64; age_add : u64; nonce : list u8; ticket : list u8 }.

Definition MAX_TICKET : usize := 16384.

Definition put (f : t) : Enc :=
  put_varint f.(lifetime)
  >>> put_varint f.(age_add)
  >>> put_bytes f.(nonce) 256
  >>> put_bytes f.(ticket) MAX_TICKET.

Definition encode (f : t) : Result FrameError (list u8) :=
  (put_varint FrameType.SESSION_TICKET >>> put f) [].

Definition body : Dec t :=
  lifetime ← read_varint;
  age_add ← read_varint;
  nonce ← read_bytes 256;
  ticket ← read_bytes MAX_TICKET;
  mret (mk lifetime age_add nonce ticket).

Definition decode (b : list u8) : Result FrameError (t * usize) := body b 0.

Lemma session_ticket_framed f bs :
  encode f = Ok bs -> framed FrameType.SESSION_TICKET body bs f.
Proof.
  intros H. eapply framed_intro; [exact H|]. unfold put, body.
  repeat codec_step. codec_done f.
Qed.

Lemma session_ticket_in_bounds : in_bounds body.
Proof. unfold body. bounds_solve. Qed.

Lemma session_ticket_decoded :
  yields body (fun f => len f.(nonce) <= 256 /\ len f.(ticket) <= MAX_TICKET).
Proof. unfold body. repeat yields_step. done. Qed.

End SessionTicketFrame.
