(* ===== verification/FramesRouting.v ===== *)
(** * Route discovery frames (crates/umc-wire/src/frames/routing.rs) *)

From S2P Require Import Prelude FrameTypes Varint WireBytes Codec.

Definition MAX_HOP_LIMIT : u64 := 32.
Definition MAX_DESTINATION_HINT : usize := 512.
Definition MAX_PATH_EXCLUSIONS : usize := 32.
Definition MAX_ROUTE_AUTH : usize := 1024.
Definition MAX_EXCLUSION_ENTRY : usize := 64.

Module RouteRequestFrame.

Record t := mk {
  request_id : u64;
  allow_relay : bool;
  allow_store_forward : bool;
  require_private_response : bool;
  local_scope_only : bool;
  gateway_query : bool;
  hop_limit : u64;
  expiration_delta : u64;
  destination_hint : list u8;
  path_exclusions : list (list u8);
  requester_auth : list u8
}.

Definition flags (f : t) : u8 :=
  flag f.(gateway_query) 0x10
    (flag f.(local_scope_only) 0x08
      (flag f.(require_private_response) 0x04
        (flag f.(allow_store_forward) 0x02
          (flag f.(allow_relay) 0x01 0)))).

(** [hop_limit == 0 || hop_limit > MAX_HOP_LIMIT]. *)
Definition bad_hop_limit (h : u64) : bool := (h =? 0) || (MAX_HOP_LIMIT <? h).

Definition put (f : t) : Enc :=
  put_varint f.(request_id)
  >>> put_u8 (flags f)
  >>> put_varint f.(hop_limit)
  >>> put_varint f.(expiration_delta)
  >>> put_bytes f.(destination_hint) MAX_DESTINATION_HINT
  >>> put_varint (len f.(path_exclusions))
  >>> put_all (fun e => put_bytes e MAX_EXCLUSION_ENTRY) f.(path_exclusions)
  >>> put_bytes f.(requester_auth) MAX_ROUTE_AUTH.

Definition encode (f : t) : Result FrameError (list u8) :=
  (refuse (bad_hop_limit f.(hop_limit)) InvalidPadding
   >>> refuse (MAX_PATH_EXCLUSIONS <? len f.(path_exclusions)) LengthExceedsLimit
   >>> put_varint FrameType.ROUTE_REQUEST >>> put f) [].

Definition body : Dec t :=
  request_id ← read_varint;
  flags ← read_u8;
  fail_if (has flags 0xE0) InvalidPadding;;
  hop_limit ← read_varint;
  fail_if (bad_hop_limit hop_limit) InvalidPadding;;
  expiration ← read_varint;
  hint ← read_bytes MAX_DESTINATION_HINT;
  ex_count ← read_varint;
  fail_if (MAX_PATH_EXCLUSIONS <? ex_count) LengthExceedsLimit;;
  exclusions ← read_n (N.to_nat ex_count) (read_bytes MAX_EXCLUSION_ENTRY);
  auth ← read_bytes MAX_ROUTE_AUTH;
  mret (mk request_id (has flags 0x01) (has flags 0x02) (has flags 0x04) (has flags 0x08)
           (has flags 0x10) hop_limit expiration hint exclusions auth).

Definition decode (b : list u8) : Result FrameError (t * usize) := body b 0.

Lemma route_request_framed f bs :
  encode f = Ok bs -> framed FrameType.ROUTE_REQUEST body bs f.
Proof.
  intros [Hh [He H]%refuse_Ok]%refuse_Ok. eapply framed_intro; [exact H|].
  unfold put, body, flags. do 4 codec_step. codec_step. do 4 codec_step.
  rewrite <- length_len. eapply codec_bind.
  { apply codec_all, Forall_true. auto with umc. }
  codec_step. codec_done f.
Qed.

Lemma route_request_in_bounds : in_bounds body.
Proof. unfold body. bounds_solve. Qed.

(** A decoded request obeys the hop limit and the size limits. *)
Lemma route_request_decoded :
  yields body (fun f =>
    1 <= f.(hop_limit) <= MAX_HOP_LIMIT
    /\ len f.(path_exclusions) <= MAX_PATH_EXCLUSIONS
    /\ Forall (fun e => len e <= MAX_EXCLUSION_ENTRY) f.(path_exclusions)
    /\ len f.(destination_hint) <= MAX_DESTINATION_HINT
    /\ len f.(requester_auth) <= MAX_ROUTE_AUTH).
Proof.
  unfold body. repeat first [yields_step | eapply yields_bind; [apply yields_n; eauto with umc|]; intros ? [Hl HF]].
  unfold bad_hop_limit in *. simpl. rewrite length_len in Hl.
  repeat split; try done; lia.
Qed.

End RouteRequestFrame.

Module RouteResponseFrame.

Record t := mk {
  request_id : u64;
  response_sequence : u64;
  direct : bool;
  relay_required : bool;
  store_forward_available : bool;
  local_path : bool;
  gateway_path : bool;
  route_lifetime : u64;
  next_hop_hint : list u8;
  route_metadata : list u8;
  authentication : list u8
}.

Definition MAX_NEXT_HOP_HINT : usize := 1024.
Definition MAX_ROUTE_METADATA : usize := 4096.

Definition flags (f : t) : u8 :=
  flag f.(gateway_path) 0x10
    (flag f.(local_path) 0x08
      (flag f.(store_forward_available) 0x04
        (flag f.(relay_required) 0x02
          (flag f.(direct) 0x01 0)))).

Definition put (f : t) : Enc :=
  put_varint f.(request_id)
  >>> put_varint f.(response_sequence)
  >>> put_u8 (flags f)
  >>> put_varint f.(route_lifetime)
  >>> put_bytes f.(next_hop_hint) MAX_NEXT_HOP_HINT
  >>> put_bytes f.(route_metadata) MAX_ROUTE_METADATA
  >>> put_bytes f.(authentication) MAX_ROUTE_AUTH.

Definition encode (f : t) : Result FrameError (list u8) :=
  (refuse (f.(direct) && f.(relay_required)) InvalidPadding
   >>> put_varint FrameType.ROUTE_RESPONSE >>> put f) [].

Definition body : Dec t :=
  request_id ← read_varint;
  sequence ← read_varint;
  flags ← read_u8;
  fail_if (has flags 0xE0) InvalidPadding;;
  lifetime ← read_varint;
  nh ← read_bytes MAX_NEXT_HOP_HINT;
  meta ← read_bytes MAX_ROUTE_METADATA;
  auth ← read_bytes MAX_ROUTE_AUTH;
  mret (mk request_id sequence (has flags 0x01) (has flags 0x02) (has flags 0x04)
           (has flags 0x08) (has flags 0x10) lifetime nh meta auth).

Definition decode (b : list u8) : Result FrameError (t * usize) := body b 0.

Lemma route_response_framed f bs :
  encode f = Ok bs -> framed FrameType.ROUTE_RESPONSE body bs f.
Proof.
  intros [_ H]%refuse_Ok. eapply framed_intro; [exact H|]. unfold put, body, flags.
  repeat codec_step. codec_done f.
Qed.

Lemma route_response_in_bounds : in_bounds body.
Proof. unfold body. bounds_solve. Qed.

Lemma route_response_decoded :
  yields body (fun f => 
    len f.(next_hop_hint) <= MAX_NEXT_HOP_HINT /\ len f.(route_metadata) <= MAX_ROUTE_METADATA
    /\ len f.(authentication) <= MAX_ROUTE_AUTH).
Proof. unfold body. repeat yields_step. done. Qed.

End RouteResponseFrame.

Module RouteErrorFrame.

Record t := mk {
  request_id : u64;
  error_code : u64;
  failed_hop_index : u64;
  diagnostic : list u8
}.

Definition UNKNOWN_HOP : u64 := MAX_VARINT.
Definition MAX_DIAGNOSTIC : usize := 256.

Definition put (f : t) : Enc :=
  put_varint f.(request_id)
  >>> put_varint f.(error_code)
  >>> put_varint f.(failed_hop_index)
  >>> put_bytes f.(diagnostic) MAX_DIAGNOSTIC.

Definition encode (f : t) : Result FrameError (list u8) :=
  (put_varint FrameType.ROUTE_ERROR >>> put f) [].

Definition body : Dec t :=
  request_id ← read_varint;
  code ← read_varint;
  hop ← read_varint;
  diag ← read_bytes MAX_DIAGNOSTIC;
  mret (mk request_id code hop diag).

Definition decode (b : list u8) : Result FrameError (t * usize) := body b 0.

Lemma route_error_framed f bs :
  encode f = Ok bs -> framed FrameType.ROUTE_ERROR body bs f.
Proof.
  intros H. eapply framed_intro; [exact H|]. unfold put, body.
  repeat codec_step. codec_done f.
Qed.

Lemma route_error_in_bounds : in_bounds body.
Proof. unfold body. bounds_solve. Qed.

Lemma route_error_decoded :
  yields body (fun f => len f.(diagnostic) <= MAX_DIAGNOSTIC).
Proof. unfold body. repeat yields_step. done. Qed.

End RouteErrorFrame.
