(* ===== verification/FramesRelay.v ===== *)
(** * Relay frames (crates/umc-wire/src/frames/relay.rs) *)

From S2P Require Import Prelude FrameTypes Varint WireBytes Codec.

Definition MAX_RELAY_PAYLOAD : usize := 64 * 1024.
Definition MAX_RELAY_DIAGNOSTIC : usize := 256.
Definition MAX_RELAY_AUTH : usize := 1024.
Definition MAX_REQUESTED_LIFETIME_MS : u64 := 24 * 60 * 60 * 1000.

Module RelayOpenFrame.

Record t := mk {
  circuit_id : u64;
  bidirectional : bool;
  store_forward_allowed : bool;
  private_circuit : bool;
  multipath_allowed : bool;
  requested_lifetime : u64;
  requested_byte_quota : u64;
  next_hop_hint : list u8;
  authorization : list u8
}.

Definition MAX_NEXT_HOP_HINT : usize := 1024.

Definition flags (f : t) : u8 :=
  flag f.(multipath_allowed) 0x08
    (flag f.(private_circuit) 0x04
      (flag f.(store_forward_allowed) 0x02
        (flag f.(bidirectional) 0x01 0))).

(** [l != 0 && !(1_000..=MAX_REQUESTED_LIFETIME_MS).contains(&l)]. *)
Definition bad_lifetime (l : u64) : bool :=
  negb (l =? 0) && negb ((1000 <=? l) && (l <=? MAX_REQUESTED_LIFETIME_MS)).

Definition put (f : t) : Enc :=
  put_varint f.(circuit_id)
  >>> put_u8 (flags f)
  >>> put_varint f.(requested_lifetime)
  >>> put_varint f.(requested_byte_quota)
  >>> put_bytes f.(next_hop_hint) MAX_NEXT_HOP_HINT
  >>> put_bytes f.(authorization) MAX_RELAY_AUTH.

Definition encode (f : t) : Result FrameError (list u8) :=
  (refuse (bad_lifetime f.(requested_lifetime)) InvalidPadding
   >>> put_varint FrameType.RELAY_OPEN >>> put f) [].

Definition body : Dec t :=
  circuit_id ← read_varint;
  flags ← read_u8;
  fail_if (has flags 0xF0) InvalidPadding;;
  lifetime ← read_varint;
  fail_if (bad_lifetime lifetime) InvalidPadding;;
  quota ← read_varint;
  nh ← read_bytes MAX_NEXT_HOP_HINT;
  auth ← read_bytes MAX_RELAY_AUTH;
  mret (mk circuit_id (has flags 0x01) (has flags 0x02) (has flags 0x04) (has flags 0x08)
           lifetime quota nh auth).

Definition decode (b : list u8) : Result FrameError (t * usize) := body b 0.

Lemma relay_open_framed f bs :
  encode f = Ok bs -> framed FrameType.RELAY_OPEN body bs f.
Proof.
  intros [Hl H]%refuse_Ok. eapply framed_intro; [exact H|]. unfold put, body, flags.
  repeat codec_step. codec_done f.
Qed.

Lemma relay_open_in_bounds : in_bounds body.
Proof. unfold body. bounds_solve. Qed.

Lemma relay_open_decoded :
  yields body (fun f =>
    (f.(requested_lifetime) = 0 \/ 1000 <= f.(requested_lifetime) <= MAX_REQUESTED_LIFETIME_MS)
    /\ len f.(next_hop_hint) <= MAX_NEXT_HOP_HINT
    /\ len f.(authorization) <= MAX_RELAY_AUTH).
Proof. unfold body. repeat yields_step. unfold bad_lifetime in *. simpl. lia. Qed.

End RelayOpenFrame.

Module RelayStatusFrame.

Record t := mk {
  circuit_id : u64;
  status_sequence : u64;
  status_code : u64;
  bidirectional_granted : bool;
  private_handling_granted : bool;
  multipath_granted : bool;
  downstream_authenticated : bool;
  retryable : bool;
  granted_lifetime : u64;
  granted_byte_quota : u64;
  maximum_relay_payload : u64;
  diagnostic : list u8;
  authentication : list u8
}.

Definition flags (f : t) : u8 :=
  flag f.(retryable) 0x10
    (flag f.(downstream_authenticated) 0x08
      (flag f.(multipath_granted) 0x04
        (flag f.(private_handling_granted) 0x02
          (flag f.(bidirectional_granted) 0x01 0)))).

Definition put (f : t) : Enc :=
  put_varint f.(circuit_id)
  >>> put_varint f.(status_sequence)
  >>> put_varint f.(status_code)
  >>> put_u8 (flags f)
  >>> put_varint f.(granted_lifetime)
  >>> put_varint f.(granted_byte_quota)
  >>> put_varint f.(maximum_relay_payload)
  >>> put_bytes f.(diagnostic) MAX_RELAY_DIAGNOSTIC
  >>> put_bytes f.(authentication) MAX_RELAY_AUTH.

(** Type, length and body: the body is built first. *)
Definition encode (f : t) : Result FrameError (list u8) :=
  body ← put f [];
  (put_varint FrameType.RELAY_STATUS >>> put_varint (len body) >>> put_slice body) [].

Definition body : Dec t :=
  circuit_id ← read_varint;
  seq ← read_varint;
  code ← read_varint;
  flags ← read_u8;
  fail_if (has flags 0xE0) InvalidPadding;;
  lifetime ← read_varint;
  quota ← read_varint;
  max_payload ← read_varint;
  diag ← read_bytes MAX_RELAY_DIAGNOSTIC;
  auth ← read_bytes MAX_RELAY_AUTH;
  mret (mk circuit_id seq code (has flags 0x01) (has flags 0x02) (has flags 0x04)
           (has flags 0x08) (has flags 0x10) lifetime quota max_payload diag auth).

Definition decode (b : list u8) : Result FrameError (t * usize) := body b 0.

(** The declared length delimits the body; bytes of it past the last field are
    skipped. *)
Definition decode_length_delimited (payload : list u8) : Result FrameError (t * usize) :=
  '(l, used) ← map_err VarintErr (Varint.decode payload);
  hi ← ok_or LengthExceedsLimit (checked_add used l);
  body ← ok_or Truncated (get_range payload used hi);
  '(frame, _) ← decode body;
  Ok (frame, hi).

Lemma codec_relay_status f : codec (put f) body f.
Proof. unfold put, body, flags. repeat codec_step. codec_done f. Qed.

Lemma relay_status_in_bounds : in_bounds body.
Proof. unfold body. bounds_solve. Qed.

(** After the type, the delimited decoder reads the frame and consumes it all. *)
Lemma relay_status_delimited f bs :
  encode f = Ok bs ->
  exists tb rest, bs = tb ++ rest
    /\ (forall post, Varint.decode (tb ++ post) = Ok (FrameType.RELAY_STATUS, len tb))
    /\ forall post, len (rest ++ post) <= usize_max ->
         decode_length_delimited (rest ++ post) = Ok (f, len rest).
Proof.
  unfold encode. intros (bd & Hput & H)%bind_Ok.
  destruct (codec_relay_status f _ _ Hput) as (bd' & Hbd & Hr). simpl in Hbd. subst bd'.
  apply bind_Ok in H as (tb & H1%map_err_Ok & H). apply bind_Ok in H as (o2 & H2%map_err_Ok & [= <-]).
  destruct (Varint.encode_into_decode _ _ _ H1) as (tb' & -> & Hd1).
  destruct (Varint.encode_into_decode _ _ _ H2) as (lb & -> & Hd2). simpl in *.
  exists tb', (lb ++ bd). rewrite app_assoc. split; [done|]. split; [done|].
  intros post Hl. unfold decode_length_delimited.
  rewrite <- app_assoc in *. rewrite Hd2. cbn.
  unfold checked_add, usize_max in *. autorewrite with umc in Hl.
  destruct (N.leb_spec (len lb + len bd) u64_max); [|lia]. cbn.
  rewrite get_range_app by done. cbn.
  pose proof (reads_start _ _ [] _ Hr) as Hs. rewrite app_nil_r in Hs.
  unfold decode. rewrite Hs by (unfold usize_max; lia). cbn. by rewrite len_app.
Qed.

Lemma relay_status_delimited_bounds payload f n :
  decode_length_delimited payload = Ok (f, n) -> 0 < n <= len payload.
Proof.
  unfold decode_length_delimited. intros ([l u] & Hd%map_err_Ok & H)%bind_Ok.
  apply bind_Ok in H as (hi & Hc%ok_or_Ok & H). apply bind_Ok in H as (bd & Hg%ok_or_Ok & H).
  apply bind_Ok in H as ([f' m] & _ & [= <- <-]).
  apply Varint.decode_bounds in Hd. apply get_range_Some in Hg. lia.
Qed.

Lemma relay_status_decoded :
  yields body (fun f =>
    len f.(diagnostic) <= MAX_RELAY_DIAGNOSTIC /\ len f.(authentication) <= MAX_RELAY_AUTH).
Proof. unfold body. repeat yields_step. done. Qed.

Lemma relay_status_delimited_decoded payload f n :
  decode_length_delimited payload = Ok (f, n) ->
  len f.(diagnostic) <= MAX_RELAY_DIAGNOSTIC /\ len f.(authentication) <= MAX_RELAY_AUTH.
Proof.
  unfold decode_length_delimited. intros ([l u] & _ & H)%bind_Ok.
  apply bind_Ok in H as (hi & _ & H). apply bind_Ok in H as (bd & _ & H).
  apply bind_Ok in H as ([f' m] & Hd & [= <- <-]). by eapply relay_status_decoded.
Qed.

End RelayStatusFrame.

Module RelayDataFrame.

Record t := mk {
  circuit_id : u64;
  relay_sequence : u64;
  fin : bool;
  ack_requested : bool;
  high_priority : bool;
  data : list u8
}.

Definition is_empty (l : list u8) : bool := len l =? 0.

Definition flags (f : t) : u8 :=
  flag f.(high_priority) 0x04 (flag f.(ack_requested) 0x02 (flag f.(fin) 0x01 0)).

Definition put (f : t) : Enc :=
  put_varint f.(circuit_id)
  >>> put_varint f.(relay_sequence)
  >>> put_u8 (flags f)
  >>> put_bytes f.(data) MAX_RELAY_PAYLOAD.

Definition encode (f : t) : Result FrameError (list u8) :=
  (refuse (MAX_RELAY_PAYLOAD <? len f.(data)) LengthExceedsLimit
   >>> refuse (is_empty f.(data) && negb f.(fin)) InvalidPadding
   >>> put_varint FrameType.RELAY_DATA >>> put f) [].

Definition body : Dec t :=
  circuit_id ← read_varint;
  seq ← read_varint;
  flags ← read_u8;
  fail_if (has flags 0xF8) InvalidPadding;;
  data ← read_bytes MAX_RELAY_PAYLOAD;
  fail_if (is_empty data && negb (has flags 0x01)) InvalidPadding;;
  mret (mk circuit_id seq (has flags 0x01) (has flags 0x02) (has flags 0x04) data).

Definition decode (b : list u8) : Result FrameError (t * usize) := body b 0.

Lemma relay_data_framed f bs :
  encode f = Ok bs -> framed FrameType.RELAY_DATA body bs f.
Proof.
  intros [_ [He H]%refuse_Ok]%refuse_Ok. eapply framed_intro; [exact H|].
  unfold put, body, flags. repeat codec_step. codec_done f.
Qed.

Lemma relay_data_in_bounds : in_bounds body.
Proof. unfold body. bounds_solve. Qed.

Lemma relay_data_decoded :
  yields body (fun f =>
    len f.(data) <= MAX_RELAY_PAYLOAD /\ (len f.(data) = 0 -> f.(fin) = true)).
Proof.
  unfold body. repeat yields_step. unfold is_empty in *. simpl. split; [done|lia].
Qed.

End RelayDataFrame.

Module RelayCloseFrame.

Record t := mk { circuit_id : u64; reason_code : u64; final_relay_sequence : u64 }.

(** "No sequence": [u64::MAX]. *)
Definition NO_SEQUENCE : u64 := u64_max.

Definition put (f : t) : Enc :=
  put_varint f.(circuit_id)
  >>> put_varint f.(reason_code)
  >>> put_varint f.(final_relay_sequence).

Definition encode (f : t) : Result FrameError (list u8) :=
  (put_varint FrameType.RELAY_CLOSE >>> put f) [].

Definition body : Dec t :=
  circuit_id ← read_varint;
  reason ← read_varint;
  final_seq ← read_varint;
  mret (mk circuit_id reason final_seq).

Definition decode (b : list u8) : Result FrameError (t * usize) := body b 0.

Lemma relay_close_framed f bs :
  encode f = Ok bs -> framed FrameType.RELAY_CLOSE body bs f.
Proof.
  intros H. eapply framed_intro; [exact H|]. unfold put, body.
  repeat codec_step. codec_done f.
Qed.

Lemma relay_close_in_bounds : in_bounds body.
Proof. unfold body. bounds_solve. Qed.

End RelayCloseFrame.
