(* ===== verification/FramesBundle.v ===== *)
(** * Store-and-forward bundle frames (crates/umc-wire/src/frames/bundle.rs) *)

From S2P Require Import Prelude FrameTypes Varint WireBytes Codec.

Definition MAX_BUNDLE_ID : usize := 64.
Definition MAX_BUNDLE_DESTINATION_HINT : usize := 512.
Definition MAX_BUNDLE_AUTH : usize := 1024.
Definition MAX_BUNDLE_PAYLOAD : usize := 65535 - 128.
Definition FLAG_CHUNKED : u8 := 0x20.
Definition FLAG_CHUNK_FINAL : u8 := 0x40.

Module BundleFrame.

Record t := mk {
  bundle_id : list u8;
  custody_requested : bool;
  delivery_ack_requested : bool;
  do_not_replicate : bool;
  local_scope_only : bool;
  high_sensitivity : bool;
  priority : u64;
  creation_time : u64;
  expiration_time : u64;
  replication_limit : u64;
  destination_hint : list u8;
  payload : list u8;
  bundle_auth : list u8;
  chunk_index : u64;
  chunk_final : bool
}.

Definition chunked (f : t) : bool := negb (f.(chunk_index) =? 0) || negb f.(chunk_final).

Definition flags (f : t) : u8 :=
  let fl :=
    flag f.(high_sensitivity) 0x10
      (flag f.(local_scope_only) 0x08
        (flag f.(do_not_replicate) 0x04
          (flag f.(delivery_ack_requested) 0x02
            (flag f.(custody_requested) 0x01 0)))) in
  if chunked f then flag f.(chunk_final) FLAG_CHUNK_FINAL (N.lor fl FLAG_CHUNKED) else fl.

Definition put (f : t) : Enc :=
  put_bytes f.(bundle_id) MAX_BUNDLE_ID
  >>> put_u8 (flags f)
  >>> put_when (chunked f) (put_varint f.(chunk_index))
  >>> put_varint f.(priority)
  >>> put_varint f.(creation_time)
  >>> put_varint f.(expiration_time)
  >>> put_varint f.(replication_limit)
  >>> put_bytes f.(destination_hint) MAX_BUNDLE_DESTINATION_HINT
  >>> put_bytes f.(payload) MAX_BUNDLE_PAYLOAD
  >>> put_bytes f.(bundle_auth) MAX_BUNDLE_AUTH.

Definition encode (f : t) : Result FrameError (list u8) :=
  (refuse (MAX_BUNDLE_PAYLOAD <? len f.(payload)) LengthExceedsLimit
   >>> put_varint FrameType.BUNDLE >>> put f) [].

Definition body : Dec t :=
  id ← read_bytes MAX_BUNDLE_ID;
  flags ← read_u8;
  fail_if (has flags 0x80 || (has flags FLAG_CHUNK_FINAL && negb (has flags FLAG_CHUNKED)))
    InvalidPadding;;
  let chunked := has flags FLAG_CHUNKED in
  chunk_index ← read_when chunked read_varint 0;
  priority ← read_varint;
  created ← read_varint;
  expires ← read_varint;
  replication ← read_varint;
  dh ← read_bytes MAX_BUNDLE_DESTINATION_HINT;
  payload ← read_bytes MAX_BUNDLE_PAYLOAD;
  auth ← read_bytes MAX_BUNDLE_AUTH;
  mret (mk id (has flags 0x01) (has flags 0x02) (has flags 0x04) (has flags 0x08)
           (has flags 0x10) priority created expires replication dh payload auth
           chunk_index (negb chunked || has flags FLAG_CHUNK_FINAL)).

Definition decode (b : list u8) : Result FrameError (t * usize) := body b 0.

(** The flags byte, read back: the five plain flags and the chunk flags. *)
Lemma bundle_flags_read f :
  has (flags f) 0x80 = false
  /\ has (flags f) FLAG_CHUNKED = chunked f
  /\ has (flags f) FLAG_CHUNK_FINAL = (chunked f && chunk_final f)
  /\ has (flags f) 0x01 = custody_requested f
  /\ has (flags f) 0x02 = delivery_ack_requested f
  /\ has (flags f) 0x04 = do_not_replicate f
  /\ has (flags f) 0x08 = local_scope_only f
  /\ has (flags f) 0x10 = high_sensitivity f.
Proof.
  unfold flags. destruct (chunked f); cbv zeta.
  - change (N.lor ?x FLAG_CHUNKED) with (flag true FLAG_CHUNKED x). flags_simp. cbn.
    rewrite ?andb_true_r. done.
  - flags_simp. done.
Qed.

Lemma bundle_framed f bs :
  encode f = Ok bs -> framed FrameType.BUNDLE body bs f.
Proof.
  intros [_ H]%refuse_Ok. eapply framed_intro; [exact H|]. unfold put, body.
  destruct (bundle_flags_read f) as (F0 & F1 & F2 & F3 & F4 & F5 & F6 & F7).
  codec_step. codec_step. cbv beta zeta. rewrite F0, F1, F2, F3, F4, F5, F6, F7.
  apply codec_fail_if; [by destruct (chunked f), (chunk_final f)|].
  assert (Hc : chunked f = false -> chunk_index f = 0 /\ chunk_final f = true).
  { unfold chunked. destruct (N.eqb_spec (chunk_index f) 0), (chunk_final f); naive_solver. }
  eapply codec_bind. { apply codec_when; [auto with umc|]. intros E. by apply Hc. }
  repeat codec_step.
  match goal with |- reads (mret ?r) _ _ => replace r with f; [apply reads_ret|] end.
  assert (negb (chunked f) || (chunked f && chunk_final f) = chunk_final f) as ->.
  { destruct (chunked f); cbn; [done|]. symmetry. by apply Hc. }
  by destruct f.
Qed.

Lemma bundle_in_bounds : in_bounds body.
Proof. unfold body. bounds_solve. Qed.

Lemma bundle_decoded :
  yields body (fun f =>
    len f.(bundle_id) <= MAX_BUNDLE_ID /\ len f.(payload) <= MAX_BUNDLE_PAYLOAD
    /\ len f.(destination_hint) <= MAX_BUNDLE_DESTINATION_HINT
    /\ len f.(bundle_auth) <= MAX_BUNDLE_AUTH).
Proof.
  unfold body. do 3 yields_step. cbv zeta.
  eapply yields_bind; [apply yields_true|]. intros ? _. repeat yields_step. done.
Qed.

End BundleFrame.

Module BundleAckFrame.

Record t := mk {
  bundle_id : list u8;
  status : u64;
  stored_until : u64;
  authentication : list u8
}.

Definition put (f : t) : Enc :=
  put_bytes f.(bundle_id) MAX_BUNDLE_ID
  >>> put_varint f.(status)
  >>> put_varint f.(stored_until)
  >>> put_bytes f.(authentication) MAX_BUNDLE_AUTH.

Definition encode (f : t) : Result FrameError (list u8) :=
  (put_varint FrameType.BUNDLE_ACK >>> put f) [].

Definition body : Dec t :=
  id ← read_bytes MAX_BUNDLE_ID;
  status ← read_varint;
  stored_until ← read_varint;
  auth ← read_bytes MAX_BUNDLE_AUTH;
  mret (mk id status stored_until auth).

Definition decode (b : list u8) : Result FrameError (t * usize) := body b 0.

Lemma bundle_ack_framed f bs :
  encode f = Ok bs -> framed FrameType.BUNDLE_ACK body bs f.
Proof.
  intros H. eapply framed_intro; [exact H|]. unfold put, body.
  repeat codec_step. codec_done f.
Qed.

Lemma bundle_ack_in_bounds : in_bounds body.
Proof. unfold body. bounds_solve. Qed.

Lemma bundle_ack_decoded :
  yields body (fun f => len f.(bundle_id) <= MAX_BUNDLE_ID /\ len f.(authentication) <= MAX_BUNDLE_AUTH).
Proof. unfold body. repeat yields_step. done. Qed.

End BundleAckFrame.
