(* ===== verification/FramesMisc.v ===== *)
(** * Peer, service, lookup and revocation frames
      (crates/umc-wire/src/frames/misc.rs) *)

From S2P Require Import Prelude FrameTypes Varint WireBytes Codec.

Definition MAX_HINTS : usize := 32.
Definition MAX_PEER_ID : usize := 64.
Definition MAX_CARRIER_TYPE : usize := 64.
Definition MAX_CONNECTION_HINT : usize := 1024.
Definition MAX_AUTHENTICATOR : usize := 1024.
Definition MAX_PROTOCOL_ID : usize := 255.
Definition MAX_ENDPOINT_HINT : usize := 512.
Definition MAX_SERVICE_METADATA : usize := 4096.
Definition MAX_SIGNATURE : usize := 1024.
Definition MAX_DHT_RECORDS : usize := 16.
Definition MAX_DHT_CARRIER : usize := 64.
Definition MAX_DHT_HINT : usize := 1024.
Definition MAX_REVOCATION_BATCH : usize := 16 * 1024.

Module PeerHintEntry.

Record t := mk {
  temporary_peer_id : list u8;
  carrier_type : list u8;
  connection_hint : list u8;
  expiration_time : u64;
  public : bool;
  introduced : bool;
  local : bool;
  ephemeral : bool;
  do_not_reshare : bool;
  authenticator : list u8
}.

Definition flags (e : t) : u8 :=
  flag e.(do_not_reshare) 0x10
    (flag e.(ephemeral) 0x08
      (flag e.(local) 0x04
        (flag e.(introduced) 0x02
          (flag e.(public) 0x01 0)))).

Definition put (e : t) : Enc :=
  put_bytes e.(temporary_peer_id) MAX_PEER_ID
  >>> put_bytes e.(carrier_type) MAX_CARRIER_TYPE
  >>> put_bytes e.(connection_hint) MAX_CONNECTION_HINT
  >>> put_varint e.(expiration_time)
  >>> put_u8 (flags e)
  >>> put_bytes e.(authenticator) MAX_AUTHENTICATOR.

Definition entry : Dec t :=
  temp_peer_id ← read_bytes MAX_PEER_ID;
  carrier_type ← read_bytes MAX_CARRIER_TYPE;
  connection_hint ← read_bytes MAX_CONNECTION_HINT;
  expiration ← read_varint;
  flags ← read_u8;
  fail_if (has flags 0xE0) InvalidPadding;;
  auth ← read_bytes MAX_AUTHENTICATOR;
  mret (mk temp_peer_id carrier_type connection_hint expiration (has flags 0x01)
           (has flags 0x02) (has flags 0x04) (has flags 0x08) (has flags 0x10) auth).

Lemma codec_peer_hint_entry e : codec (put e) entry e.
Proof. unfold put, entry, flags. repeat codec_step. codec_done e. Qed.

Definition sized (e : t) : Prop :=
  len e.(temporary_peer_id) <= MAX_PEER_ID /\ len e.(carrier_type) <= MAX_CARRIER_TYPE
  /\ len e.(connection_hint) <= MAX_CONNECTION_HINT /\ len e.(authenticator) <= MAX_AUTHENTICATOR.

Lemma peer_hint_entry_decoded : yields entry sized.
Proof. unfold entry. repeat yields_step. done. Qed.

End PeerHintEntry.

Module PeerHintFrame.

Record t := mk { entries : list PeerHintEntry.t }.

Definition put (f : t) : Enc :=
  put_varint (len f.(entries)) >>> put_all PeerHintEntry.put f.(entries).

Definition encode (f : t) : Result FrameError (list u8) :=
  (refuse (MAX_HINTS <? len f.(entries)) LengthExceedsLimit
   >>> put_varint FrameType.PEER_HINT >>> put f) [].

Definition body : Dec t :=
  count ← read_varint;
  fail_if (MAX_HINTS <? count) LengthExceedsLimit;;
  entries ← read_n (N.to_nat count) PeerHintEntry.entry;
  mret (mk entries).

Definition decode (b : list u8) : Result FrameError (t * usize) := body b 0.

Lemma peer_hint_framed f bs :
  encode f = Ok bs -> framed FrameType.PEER_HINT body bs f.
Proof.
  intros [Hl H]%refuse_Ok. eapply framed_intro; [exact H|]. unfold put, body.
  codec_step. codec_step. rewrite <- length_len.
  eapply codec_final; [|cbv beta].
  { apply codec_all, Forall_true, PeerHintEntry.codec_peer_hint_entry. }
  codec_done f.
Qed.

Lemma peer_hint_in_bounds : in_bounds body.
Proof. unfold body, PeerHintEntry.entry. bounds_solve. Qed.

Lemma peer_hint_decoded :
  yields body (fun f => len f.(entries) <= MAX_HINTS /\ Forall PeerHintEntry.sized f.(entries)).
Proof.
  unfold body. repeat first [yields_step
    | eapply yields_bind; [apply yields_n, PeerHintEntry.peer_hint_entry_decoded|]; intros ? [Hl HF]].
  simpl. rewrite length_len in Hl. split; [lia|done].
Qed.

End PeerHintFrame.

Module ServiceHintFrame.

Record t := mk {
  protocol_id : list u8;
  endpoint_hint : list u8;
  metadata : list u8;
  expiration_time : u64;
  signature : list u8
}.

Definition put (f : t) : Enc :=
  put_bytes f.(protocol_id) MAX_PROTOCOL_ID
  >>> put_bytes f.(endpoint_hint) MAX_ENDPOINT_HINT
  >>> put_bytes f.(metadata) MAX_SERVICE_METADATA
  >>> put_varint f.(expiration_time)
  >>> put_bytes f.(signature) MAX_SIGNATURE.

Definition encode (f : t) : Result FrameError (list u8) :=
  (put_varint FrameType.SERVICE_HINT >>> put f) [].

Definition body : Dec t :=
  protocol_id ← read_bytes MAX_PROTOCOL_ID;
  endpoint_hint ← read_bytes MAX_ENDPOINT_HINT;
  metadata ← read_bytes MAX_SERVICE_METADATA;
  expiration_time ← read_varint;
  signature ← read_bytes MAX_SIGNATURE;
  mret (mk protocol_id endpoint_hint metadata expiration_time signature).

Definition decode (b : list u8) : Result FrameError (t * usize) := body b 0.

Lemma service_hint_framed f bs :
  encode f = Ok bs -> framed FrameType.SERVICE_HINT body bs f.
Proof.
  intros H. eapply framed_intro; [exact H|]. unfold put, body.
  repeat codec_step. codec_done f.
Qed.

Lemma service_hint_in_bounds : in_bounds body.
Proof. unfold body. bounds_solve. Qed.

Lemma service_hint_decoded :
  yields body (fun f => 
    len f.(protocol_id) <= MAX_PROTOCOL_ID /\ len f.(endpoint_hint) <= MAX_ENDPOINT_HINT
    /\ len f.(metadata) <= MAX_SERVICE_METADATA /\ len f.(signature) <= MAX_SIGNATURE).
Proof. unfold body. repeat yields_step. done. Qed.

End ServiceHintFrame.

Module DhtRecordWire.

Record t := mk {
  endpoint_id : list u8;
  identity_public_key : list u8;
  carrier_type : list u8;
  connection_hint : list u8;
  expiration_time : u64;
  sequence : u64;
  signature : list u8
}.

Definition put (r : t) : Enc :=
  put_bytes r.(endpoint_id) 32
  >>> put_bytes r.(identity_public_key) 32
  >>> put_bytes r.(carrier_type) MAX_DHT_CARRIER
  >>> put_bytes r.(connection_hint) MAX_DHT_HINT
  >>> put_varint r.(expiration_time)
  >>> put_varint r.(sequence)
  >>> put_bytes r.(signature) MAX_SIGNATURE.

(** The closure [read]: every byte string is read with the limit 1024, the
    field's own limit is tested afterwards. *)
Definition read : Dec (list u8) := read_bytes 1024.

Definition record : Dec t :=
  endpoint_id ← read;
  identity_public_key ← read;
  carrier_type ← read;
  connection_hint ← read;
  fail_if (negb (len endpoint_id =? 32) || negb (len identity_public_key =? 32)
           || (MAX_DHT_CARRIER <? len carrier_type) || (MAX_DHT_HINT <? len connection_hint))
    LengthExceedsLimit;;
  expiration_time ← read_varint;
  sequence ← read_varint;
  signature ← read;
  fail_if (negb (len signature =? 64)) LengthExceedsLimit;;
  mret (mk endpoint_id identity_public_key carrier_type connection_hint expiration_time
           sequence signature).

(** A record of the sizes the decoder insists on. *)
Definition sized (r : t) : Prop :=
  len r.(endpoint_id) = 32 /\ len r.(identity_public_key) = 32 /\ len r.(signature) = 64.

(** What is written under a limit of at most 1024 is read under the limit 1024. *)
Lemma codec_read v limit : limit <= 1024 -> codec (put_bytes v limit) read v.
Proof.
  intros Hl out out' H. apply (codec_bytes v 1024 out out').
  unfold put_bytes, put_bytes_or, WireBytes.encode in *.
  destruct (N.ltb_spec limit (len v)); [done|]. destruct (N.ltb_spec 1024 (len v)); [lia|done].
Qed.

Lemma put_bytes_Ok v limit out out' : put_bytes v limit out = Ok out' -> len v <= limit.
Proof.
  unfold put_bytes, put_bytes_or, WireBytes.encode. destruct (N.ltb_spec limit (len v)); [done|lia].
Qed.

Lemma codec_dht_record r : sized r -> codec (put r) record r.
Proof.
  intros (H1 & H2 & H3) out out' E.
  assert (Hc : len r.(carrier_type) <= MAX_DHT_CARRIER /\ len r.(connection_hint) <= MAX_DHT_HINT).
  { unfold put in E. apply bind_Ok in E as (o1 & _ & E). apply bind_Ok in E as (o2 & _ & E).
    apply bind_Ok in E as (o3 & E3 & E). apply bind_Ok in E as (o4 & E4 & E).
    by apply put_bytes_Ok in E3, E4. }
  revert out out' E. change (codec (put r) record r). unfold put, record.
  do 4 (eapply codec_bind; [by apply codec_read|]).
  codec_step; [lia|]. codec_step. codec_step.
  eapply codec_final; [by apply codec_read|]. codec_step; [lia|]. codec_done r.
Qed.

Lemma dht_record_in_bounds : in_bounds record.
Proof. unfold record, read. bounds_solve. Qed.

Lemma dht_record_decoded : yields record sized.
Proof. unfold record, read. repeat yields_step. unfold sized; simpl. lia. Qed.

End DhtRecordWire.

Module DhtLookupFrame.

Record t := mk {
  request_id : u64;
  response : bool;
  target_endpoint_id : list u8;
  records : list DhtRecordWire.t
}.

Definition put (f : t) : Enc :=
  put_varint f.(request_id)
  >>> put_bytes f.(target_endpoint_id) 32
  >>> put_u8 (if f.(response) then 1 else 0)
  >>> put_varint (len f.(records))
  >>> put_all DhtRecordWire.put f.(records).

Definition encode (f : t) : Result FrameError (list u8) :=
  if negb (len f.(target_endpoint_id) =? 32) || (MAX_DHT_RECORDS <? len f.(records))
  then Err LengthExceedsLimit
  else
    body ← put f [];
    (put_varint FrameType.DHT_LOOKUP >>> put_varint (len body) >>> put_slice body) [].

Definition body : Dec t :=
  request_id ← read_varint;
  target_endpoint_id ← DhtRecordWire.read;
  fail_if (negb (len target_endpoint_id =? 32)) LengthExceedsLimit;;
  response ← read_u8;
  count ← read_varint;
  fail_if (MAX_DHT_RECORDS <? count) LengthExceedsLimit;;
  records ← read_n (N.to_nat count) DhtRecordWire.record;
  mret (mk request_id (negb (response =? 0)) target_endpoint_id records).

Definition decode (b : list u8) : Result FrameError (t * usize) := body b 0.

Lemma codec_dht_lookup f :
  Forall DhtRecordWire.sized f.(records) ->
  len f.(target_endpoint_id) = 32 -> len f.(records) <= MAX_DHT_RECORDS ->
  codec (put f) body f.
Proof.
  intros Hs Ht Hr. unfold put, body. codec_step.
  eapply codec_bind; [by apply DhtRecordWire.codec_read|].
  codec_step; [lia|]. codec_step. codec_step. codec_step; [lia|].
  rewrite <- length_len. eapply codec_final; [|cbv beta].
  { apply codec_all. eapply Forall_impl; [apply DhtRecordWire.codec_dht_record|exact Hs]. }
  destruct f as [i [] g r]; apply reads_ret.
Qed.

Lemma dht_lookup_in_bounds : in_bounds body.
Proof.
  unfold body, DhtRecordWire.record, DhtRecordWire.read. bounds_solve.
Qed.

Lemma dht_lookup_decoded :
  yields body (fun f =>
    len f.(target_endpoint_id) = 32 /\ len f.(records) <= MAX_DHT_RECORDS
    /\ Forall DhtRecordWire.sized f.(records)).
Proof.
  unfold body, DhtRecordWire.read.
  repeat first [yields_step
    | eapply yields_bind; [apply yields_n, DhtRecordWire.dht_record_decoded|]; intros ? [Hl HF]].
  simpl. rewrite length_len in Hl. repeat split; try done; lia.
Qed.

End DhtLookupFrame.

Module RevocationBatchFrame.

Record t := mk { payload : list u8 }.

Definition encode (f : t) : Result FrameError (list u8) :=
  (refuse (MAX_REVOCATION_BATCH <? len f.(payload)) LengthExceedsLimit
   >>> put_varint FrameType.REVOCATION_BATCH
   >>> put_varint (len f.(payload))
   >>> put_slice f.(payload)) [].

Definition decode (b : list u8) : Result FrameError (t * usize) :=
  if MAX_REVOCATION_BATCH <? len b then Err LengthExceedsLimit
  else Ok (mk b, len b).

End RevocationBatchFrame.
