(* ===== verification/Frame.v ===== *)
(** * The frame parser (crates/umc-wire/src/frame.rs)

    [decode_frames] walks a decrypted payload: a type varint, then, by the two
    low bits of the type, a body of fixed shape or a length-delimited one. *)

From S2P Require Import Prelude FrameTypes Varint WireBytes Codec FramesAck FramesStream FramesFlow FramesDatagram FramesPath FramesHandshake FramesRouting FramesRelay FramesBundle FramesMisc.

Module Frame.

Inductive t :=
| Padding
| Ping
| Ack (f : AckFrame.t)
| ConnectionClose (f : ConnectionCloseFrame.t)
| Stream (f : StreamFrame.t)
| ResetStream (f : ResetStreamFrame.t)
| StopSending (f : StopSendingFrame.t)
| MaxData (f : MaxDataFrame.t)
| MaxStreamData (f : MaxStreamDataFrame.t)
| MaxStreams (f : MaxStreamsFrame.t)
| Datagram (f : DatagramFrame.t)
| NewConnectionId (f : NewConnectionIdFrame.t)
| RetireConnectionId (f : RetireConnectionIdFrame.t)
| PathChallenge (f : PathChallengeFrame.t)
| PathResponse (f : PathResponseFrame.t)
| PathStatus (f : PathStatusFrame.t)
| Migrate (f : MigrateFrame.t)
| KeyUpdate (f : KeyUpdateFrame.t)
| Auth (f : AuthFrame.t)
| HandshakeData (f : HandshakeDataFrame.t)
| Capabilities (f : CapabilitiesFrame.t)
| SessionTicket (f : SessionTicketFrame.t)
| RouteRequest (f : RouteRequestFrame.t)
| RouteResponse (f : RouteResponseFrame.t)
| RouteError (f : RouteErrorFrame.t)
| RelayOpen (f : RelayOpenFrame.t)
| RelayStatus (f : RelayStatusFrame.t)
| RelayData (f : RelayDataFrame.t)
| RelayClose (f : RelayCloseFrame.t)
| Bundle (f : BundleFrame.t)
| BundleAck (f : BundleAckFrame.t)
| PeerHint (f : PeerHintFrame.t)
| ServiceHint (f : ServiceHintFrame.t)
| DhtLookup (f : DhtLookupFrame.t)
| RevocationBatch (f : RevocationBatchFrame.t).

End Frame.

(** [let (f, used) = X::decode(rest)?; pos += used; out.push(C(f))]. *)
Definition as_frame {A} (C : A -> Frame.t) (r : Result FrameError (A * usize))
    : Result FrameError (Frame.t * usize) :=
  '(f, used) ← r;
  Ok (C f, used).

(** The arms of the two fixed-shape behaviours, on the bytes after the type. *)
Definition decode_fixed (ty : FrameType.t) (rest : list u8)
    : Result FrameError (Frame.t * usize) :=
  if ty =? FrameType.PADDING then Ok (Frame.Padding, 0)
  else if ty =? FrameType.PING then Ok (Frame.Ping, 0)
  else if ty =? FrameType.ACK then as_frame Frame.Ack (AckFrame.decode rest)
  else if ty =? FrameType.CONNECTION_CLOSE then
    as_frame Frame.ConnectionClose (ConnectionCloseFrame.decode rest)
  else if ty =? FrameType.STREAM then as_frame Frame.Stream (StreamFrame.decode rest)
  else if ty =? FrameType.RESET_STREAM then
    as_frame Frame.ResetStream (ResetStreamFrame.decode rest)
  else if ty =? FrameType.STOP_SENDING then
    as_frame Frame.StopSending (StopSendingFrame.decode rest)
  else if ty =? FrameType.MAX_DATA then as_frame Frame.MaxData (MaxDataFrame.decode rest)
  else if ty =? FrameType.MAX_STREAM_DATA then
    as_frame Frame.MaxStreamData (MaxStreamDataFrame.decode rest)
  else if ty =? FrameType.MAX_STREAMS then
    as_frame Frame.MaxStreams (MaxStreamsFrame.decode rest)
  else if ty =? FrameType.DATAGRAM then as_frame Frame.Datagram (DatagramFrame.decode rest)
  else if ty =? FrameType.NEW_CONNECTION_ID then
    as_frame Frame.NewConnectionId (NewConnectionIdFrame.decode rest)
  else if ty =? FrameType.RETIRE_CONNECTION_ID then
    as_frame Frame.RetireConnectionId (RetireConnectionIdFrame.decode rest)
  else if ty =? FrameType.PATH_CHALLENGE then
    as_frame Frame.PathChallenge (PathChallengeFrame.decode rest)
  else if ty =? FrameType.PATH_RESPONSE then
    as_frame Frame.PathResponse (PathResponseFrame.decode rest)
  else if ty =? FrameType.PATH_STATUS then
    as_frame Frame.PathStatus (PathStatusFrame.decode rest)
  else if ty =? FrameType.MIGRATE then as_frame Frame.Migrate (MigrateFrame.decode rest)
  else if ty =? FrameType.KEY_UPDATE then
    as_frame Frame.KeyUpdate (KeyUpdateFrame.decode rest)
  else if ty =? FrameType.AUTH then as_frame Frame.Auth (AuthFrame.decode rest)
  else if ty =? FrameType.HANDSHAKE_DATA then
    as_frame Frame.HandshakeData (HandshakeDataFrame.decode rest)
  else if ty =? FrameType.CAPABILITIES then
    as_frame Frame.Capabilities (CapabilitiesFrame.decode rest)
  else if ty =? FrameType.SESSION_TICKET then
    as_frame Frame.SessionTicket (SessionTicketFrame.decode rest)
  else if ty =? FrameType.ROUTE_REQUEST then
    as_frame Frame.RouteRequest (RouteRequestFrame.decode rest)
  else if ty =? FrameType.ROUTE_RESPONSE then
    as_frame Frame.RouteResponse (RouteResponseFrame.decode rest)
  else if ty =? FrameType.ROUTE_ERROR then
    as_frame Frame.RouteError (RouteErrorFrame.decode rest)
  else if ty =? FrameType.RELAY_OPEN then
    as_frame Frame.RelayOpen (RelayOpenFrame.decode rest)
  else if ty =? FrameType.RELAY_STATUS then
    as_frame Frame.RelayStatus (RelayStatusFrame.decode rest)
  else if ty =? FrameType.RELAY_DATA then
    as_frame Frame.RelayData (RelayDataFrame.decode rest)
  else if ty =? FrameType.RELAY_CLOSE then
    as_frame Frame.RelayClose (RelayCloseFrame.decode rest)
  else if ty =? FrameType.BUNDLE then as_frame Frame.Bundle (BundleFrame.decode rest)
  else if ty =? FrameType.BUNDLE_ACK then
    as_frame Frame.BundleAck (BundleAckFrame.decode rest)
  else if ty =? FrameType.PEER_HINT then as_frame Frame.PeerHint (PeerHintFrame.decode rest)
  else if ty =? FrameType.SERVICE_HINT then
    as_frame Frame.ServiceHint (ServiceHintFrame.decode rest)
  else if bool_decide (behavior ty = OptionalFixed) then Err (UnknownOptionalFixedFrame ty)
  else Err (UnknownCriticalFrame ty).

(** The arm of the optional length-delimited behaviour, from the position after
    the type: the frame, if it is a known one, and the position after it. *)
Definition decode_optional_delimited (ty : FrameType.t) (payload : list u8) (pos : usize)
    : Result FrameError (option Frame.t * usize) :=
  '(l, used) ← map_err VarintErr (Varint.decode (from payload pos));
  let pos := pos + used in
  hi ← ok_or LengthExceedsLimit (checked_add pos l);
  if len payload <? hi then Err Truncated
  else
    let slice := take (N.to_nat l) (drop (N.to_nat pos) payload) in
    if ty =? FrameType.DHT_LOOKUP then
      '(f, used) ← DhtLookupFrame.decode slice;
      if negb (used =? l) then Err Truncated else Ok (Some (Frame.DhtLookup f), hi)
    else if ty =? FrameType.REVOCATION_BATCH then
      '(f, used) ← RevocationBatchFrame.decode slice;
      if negb (used =? l) then Err Truncated else Ok (Some (Frame.RevocationBatch f), hi)
    else Ok (None, hi).

(** One turn of the loop: the frame pushed, if any, and the next position. *)
Definition decode_step (payload : list u8) (pos : usize)
    : Result FrameError (option Frame.t * usize) :=
  '(ty, n) ← map_err VarintErr (Varint.decode (from payload pos));
  let pos := pos + n in
  match behavior ty with
  | CriticalFixed | OptionalFixed =>
      '(f, used) ← decode_fixed ty (from payload pos);
      Ok (Some f, pos + used)
  | CriticalLengthDelimited =>
      if ty =? FrameType.RELAY_STATUS then
        '(f, used) ← RelayStatusFrame.decode_length_delimited (from payload pos);
        Ok (Some (Frame.RelayStatus f), pos + used)
      else Err (UnknownCriticalFrame ty)
  | OptionalLengthDelimited => decode_optional_delimited ty payload pos
  end.

(** [while pos < payload.len()].  Each turn consumes at least the type varint,
    so as many turns as there are bytes are enough. *)
Fixpoint decode_loop (fuel : nat) (payload : list u8) (pos : usize) (out : list Frame.t)
    : option (Result FrameError (list Frame.t)) :=
  if pos <? len payload then
    match fuel with
    | O => None
    | S fuel =>
        match decode_step payload pos with
        | Err e => Some (Err e)
        | Ok (f, pos) => decode_loop fuel payload pos (out ++ option_list f)
        end
    end
  else Some (Ok out).

Definition decode_frames (payload : list u8) : Result FrameError (list Frame.t) :=
  match decode_loop (length payload) payload 0 [] with
  | Some r => r
  | None => Err Truncated
  end.
