(* ===== verification/FrameTheory.v ===== *)
(** * Theorems on the frame parser

    Totality and bounds of the loop, round trip of whole payloads, the limits
    every decoded frame obeys, and the treatment of unknown types. *)

From S2P Require Import Prelude FrameTypes Varint WireBytes Codec FramesAck FramesStream FramesFlow FramesDatagram FramesPath FramesHandshake FramesRouting FramesRelay FramesBundle FramesMisc Frame.

(** ** Senders *)

(** The encoder of each frame; PADDING and PING are their type alone. *)
Definition encode_frame (f : Frame.t) : Result FrameError (list u8) :=
  match f with
  | Frame.Padding => put_varint FrameType.PADDING []
  | Frame.Ping => put_varint FrameType.PING []
  | Frame.Ack f => AckFrame.encode f
  | Frame.ConnectionClose f => ConnectionCloseFrame.encode f
  | Frame.Stream f => StreamFrame.encode f
  | Frame.ResetStream f => ResetStreamFrame.encode f
  | Frame.StopSending f => StopSendingFrame.encode f
  | Frame.MaxData f => MaxDataFrame.encode f
  | Frame.MaxStreamData f => MaxStreamDataFrame.encode f
  | Frame.MaxStreams f => MaxStreamsFrame.encode f
  | Frame.Datagram f => DatagramFrame.encode f
  | Frame.NewConnectionId f => NewConnectionIdFrame.encode f
  | Frame.RetireConnectionId f => RetireConnectionIdFrame.encode f
  | Frame.PathChallenge f => PathChallengeFrame.encode f
  | Frame.PathResponse f => PathResponseFrame.encode f
  | Frame.PathStatus f => PathStatusFrame.encode f
  | Frame.Migrate f => MigrateFrame.encode f
  | Frame.KeyUpdate f => KeyUpdateFrame.encode f
  | Frame.Auth f => AuthFrame.encode f
  | Frame.HandshakeData f => HandshakeDataFrame.encode f
  | Frame.Capabilities f => CapabilitiesFrame.encode f
  | Frame.SessionTicket f => SessionTicketFrame.encode f
  | Frame.RouteRequest f => RouteRequestFrame.encode f
  | Frame.RouteResponse f => RouteResponseFrame.encode f
  | Frame.RouteError f => RouteErrorFrame.encode f
  | Frame.RelayOpen f => RelayOpenFrame.encode f
  | Frame.RelayStatus f => RelayStatusFrame.encode f
  | Frame.RelayData f => RelayDataFrame.encode f
  | Frame.RelayClose f => RelayCloseFrame.encode f
  | Frame.Bundle f => BundleFrame.encode f
  | Frame.BundleAck f => BundleAckFrame.encode f
  | Frame.PeerHint f => PeerHintFrame.encode f
  | Frame.ServiceHint f => ServiceHintFrame.encode f
  | Frame.DhtLookup f => DhtLookupFrame.encode f
  | Frame.RevocationBatch f => RevocationBatchFrame.encode f
  end.

(** A payload: the frames one after the other. *)
Fixpoint encode_frames (fs : list Frame.t) : Result FrameError (list u8) :=
  match fs with
  | [] => Ok []
  | f :: fs =>
      bs ← encode_frame f;
      rest ← encode_frames fs;
      Ok (bs ++ rest)
  end.

(** What the source's types or the decoders ask of a frame beyond what its
    encoder tests: array sizes, non-empty ACK ranges, a STREAM that carries its
    own length and whose absent fields are zero, 32- and 64-byte DHT fields. *)
Definition self_delimited (f : Frame.t) : Prop :=
  match f with
  | Frame.Ack f => AckFrame.nonempty f
  | Frame.Stream f => StreamFrame.delimited f
  | Frame.PathChallenge f => len f.(PathChallengeFrame.data) = CHALLENGE_LEN
  | Frame.PathResponse f => len f.(PathResponseFrame.data) = CHALLENGE_LEN
  | Frame.NewConnectionId f => len f.(NewConnectionIdFrame.reset_token) = RESET_TOKEN_LEN
  | Frame.DhtLookup f => Forall DhtRecordWire.sized f.(DhtLookupFrame.records)
  | _ => True
  end.

(** ** One step *)

(** The decoder of a known fixed-shape type. *)
Lemma step_fixed {A} ty (d : Dec A) (C : A -> Frame.t) bs x pre post :
  framed ty d bs x ->
  (forall rest, decode_fixed ty rest = as_frame C (d rest 0)) ->
  behavior ty = CriticalFixed ->
  len (pre ++ bs ++ post) <= usize_max ->
  decode_step (pre ++ bs ++ post) (len pre) = Ok (Some (C x), len (pre ++ bs)).
Proof.
  intros (tb & body & -> & Ht & Hr) Hd Hb Hl. unfold decode_step.
  rewrite from_app_len, <- app_assoc, Ht. cbn [map_err]. unfold mbind, Result_bind.
  rewrite Hb, from_app_add, from_app_len, Hd. autorewrite with umc in Hl.
  rewrite (reads_start _ _ _ _ Hr) by (autorewrite with umc; lia).
  unfold as_frame. cbn. do 2 f_equal. autorewrite with umc. lia.
Qed.

Lemma framed_unit ty bs :
  put_varint ty [] = Ok bs -> framed ty (mret ()) bs ().
Proof.
  intros H%map_err_Ok. destruct (Varint.encode_into_decode _ _ _ H) as (tb & -> & Hd).
  exists tb, []. rewrite app_nil_r. split; [done|]. split; [done|]. apply reads_ret.
Qed.

(** A delimited body of the optional behaviour. *)
Lemma delimited_split ty bd bs :
  (put_varint ty >>> put_varint (len bd) >>> put_slice bd) [] = Ok bs ->
  exists tb lb, bs = tb ++ lb ++ bd
    /\ (forall rest, Varint.decode (tb ++ rest) = Ok (ty, len tb))
    /\ (forall rest, Varint.decode (lb ++ rest) = Ok (len bd, len lb)).
Proof.
  intros (o1 & H1%map_err_Ok & H)%bind_Ok. apply bind_Ok in H as (o2 & H2%map_err_Ok & [= <-]).
  destruct (Varint.encode_into_decode _ _ _ H1) as (tb & -> & Hd1).
  destruct (Varint.encode_into_decode _ _ _ H2) as (lb & -> & Hd2).
  exists tb, lb. cbn [app]. by rewrite <- app_assoc.
Qed.

Lemma step_optional ty bd bs pre post :
  (put_varint ty >>> put_varint (len bd) >>> put_slice bd) [] = Ok bs ->
  behavior ty = OptionalLengthDelimited ->
  len (pre ++ bs ++ post) <= usize_max ->
  decode_step (pre ++ bs ++ post) (len pre) =
    if ty =? FrameType.DHT_LOOKUP then
      '(f, used) ← DhtLookupFrame.decode bd;
      if negb (used =? len bd) then Err Truncated
      else Ok (Some (Frame.DhtLookup f), len (pre ++ bs))
    else if ty =? FrameType.REVOCATION_BATCH then
      '(f, used) ← RevocationBatchFrame.decode bd;
      if negb (used =? len bd) then Err Truncated
      else Ok (Some (Frame.RevocationBatch f), len (pre ++ bs))
    else Ok (None, len (pre ++ bs)).
Proof.
  intros H Hb Hl. destruct (delimited_split _ _ _ H) as (tb & lb & -> & Ht & Hlb).
  unfold decode_step. rewrite from_app_len, <- app_assoc, Ht. cbn [map_err].
  unfold mbind at 1, Result_bind at 1. rewrite Hb. unfold decode_optional_delimited.
  rewrite from_app_add, from_app_len, <- app_assoc, Hlb. cbn [map_err].
  unfold mbind at 1, Result_bind at 1. cbv beta iota zeta. unfold checked_add.
  autorewrite with umc in *. unfold usize_max in *.
  destruct (N.leb_spec (len pre + len tb + len lb + len bd) u64_max); [|lia].
  cbn [ok_or]. unfold mbind at 1, Result_bind at 1.
  destruct (N.ltb_spec (len pre + (len tb + (len lb + (len bd + len post))))
              (len pre + len tb + len lb + len bd)); [lia|].
  replace (len pre + len tb + len lb) with (len (pre ++ tb ++ lb))
    by (autorewrite with umc; lia).
  rewrite !app_assoc, <- (app_assoc _ bd post), <- !length_len, drop_app_length, take_app_length.
  replace (len pre + (len tb + (len lb + len bd))) with (len ((pre ++ tb) ++ lb) + len bd)
    by (autorewrite with umc; lia). done.
Qed.

Lemma step_frame f bs pre post :
  self_delimited f -> encode_frame f = Ok bs ->
  len (pre ++ bs ++ post) <= usize_max ->
  decode_step (pre ++ bs ++ post) (len pre) = Ok (Some f, len (pre ++ bs)).
Proof.
  intros Hs He Hl. destruct f; simpl in *.
  1: apply (step_fixed FrameType.PADDING (mret ()) (fun _ => Frame.Padding) bs ());
    [by apply framed_unit|done..].
  1: apply (step_fixed FrameType.PING (mret ()) (fun _ => Frame.Ping) bs ());
    [by apply framed_unit|done..].
  - eapply step_fixed; [by apply AckFrame.ack_framed|done..].
  - eapply step_fixed; [by apply ConnectionCloseFrame.connection_close_framed|done..].
  - eapply step_fixed; [by apply StreamFrame.stream_framed|done..].
  - eapply step_fixed; [by apply ResetStreamFrame.reset_stream_framed|done..].
  - eapply step_fixed; [by apply StopSendingFrame.stop_sending_framed|done..].
  - eapply step_fixed; [by apply MaxDataFrame.max_data_framed|done..].
  - eapply step_fixed; [by apply MaxStreamDataFrame.max_stream_data_framed|done..].
  - eapply step_fixed; [by apply MaxStreamsFrame.max_streams_framed|done..].
  - eapply step_fixed; [by apply DatagramFrame.datagram_framed|done..].
  - eapply step_fixed; [by apply NewConnectionIdFrame.new_connection_id_framed|done..].
  - eapply step_fixed; [by apply RetireConnectionIdFrame.retire_connection_id_framed|done..].
  - eapply step_fixed; [by apply PathChallengeFrame.path_challenge_framed|done..].
  - eapply step_fixed; [by apply PathResponseFrame.path_response_framed|done..].
  - eapply step_fixed; [by apply PathStatusFrame.path_status_framed|done..].
  - eapply step_fixed; [by apply MigrateFrame.migrate_framed|done..].
  - eapply step_fixed; [by apply KeyUpdateFrame.key_update_framed|done..].
  - eapply step_fixed; [by apply AuthFrame.auth_framed|done..].
  - eapply step_fixed; [by apply HandshakeDataFrame.handshake_data_framed|done..].
  - eapply step_fixed; [by apply CapabilitiesFrame.capabilities_framed|done..].
  - eapply step_fixed; [by apply SessionTicketFrame.session_ticket_framed|done..].
  - eapply step_fixed; [by apply RouteRequestFrame.route_request_framed|done..].
  - eapply step_fixed; [by apply RouteResponseFrame.route_response_framed|done..].
  - eapply step_fixed; [by apply RouteErrorFrame.route_error_framed|done..].
  - eapply step_fixed; [by apply RelayOpenFrame.relay_open_framed|done..].
  - destruct (RelayStatusFrame.relay_status_delimited _ _ He) as (tb & rest & -> & Ht & Hd).
    unfold decode_step. rewrite from_app_len, <- app_assoc, Ht.
    cbn [map_err]. unfold mbind, Result_bind. change (behavior FrameType.RELAY_STATUS)
      with CriticalLengthDelimited. cbv iota beta zeta.
    rewrite from_app_add, from_app_len. autorewrite with umc in Hl.
    rewrite Hd by (autorewrite with umc; lia). cbn. do 2 f_equal. autorewrite with umc. lia.
  - eapply step_fixed; [by apply RelayDataFrame.relay_data_framed|done..].
  - eapply step_fixed; [by apply RelayCloseFrame.relay_close_framed|done..].
  - eapply step_fixed; [by apply BundleFrame.bundle_framed|done..].
  - eapply step_fixed; [by apply BundleAckFrame.bundle_ack_framed|done..].
  - eapply step_fixed; [by apply PeerHintFrame.peer_hint_framed|done..].
  - eapply step_fixed; [by apply ServiceHintFrame.service_hint_framed|done..].
  - unfold DhtLookupFrame.encode in He. destruct (_ || _) eqn:Hg; [done|].
    apply bind_Ok in He as (bd & Hp & He).
    destruct (DhtLookupFrame.codec_dht_lookup f Hs ltac:(lia) ltac:(lia) _ _ Hp)
      as (bd' & Hbd & Hr). cbn in Hbd. subst bd'.
    rewrite (step_optional _ _ _ _ _ He) by done. change (_ =? FrameType.DHT_LOOKUP) with true.
    cbv iota. unfold DhtLookupFrame.decode.
    pose proof (reads_start _ _ [] _ Hr) as Hd. rewrite app_nil_r in Hd.
    rewrite Hd; [|destruct (delimited_split _ _ _ He) as (tb & lb & -> & _); autorewrite with umc in Hl; lia].
    cbn. by rewrite N.eqb_refl.
  - apply refuse_Ok in He as [Hg He].
    rewrite (step_optional _ _ _ _ _ He) by done. cbn.
    unfold RevocationBatchFrame.decode. rewrite Hg. cbn. rewrite N.eqb_refl. by destruct f.
Qed.

(** ** Bounds *)

Lemma as_frame_bounds {A} (d : Dec A) C rest f used :
  in_bounds d -> as_frame C (d rest 0) = Ok (f, used) -> used <= len rest.
Proof.
  intros Hd ([x n] & H & [= <- <-])%bind_Ok.
  apply Hd in H; [lia|]. lia.
Qed.

#[local] Hint Resolve AckFrame.ack_in_bounds ConnectionCloseFrame.connection_close_in_bounds
  StreamFrame.stream_in_bounds ResetStreamFrame.reset_stream_in_bounds
  StopSendingFrame.stop_sending_in_bounds MaxDataFrame.max_data_in_bounds
  MaxStreamDataFrame.max_stream_data_in_bounds MaxStreamsFrame.max_streams_in_bounds
  DatagramFrame.datagram_in_bounds NewConnectionIdFrame.new_connection_id_in_bounds
  RetireConnectionIdFrame.retire_connection_id_in_bounds
  PathChallengeFrame.path_challenge_in_bounds PathResponseFrame.path_response_in_bounds
  PathStatusFrame.path_status_in_bounds MigrateFrame.migrate_in_bounds
  KeyUpdateFrame.key_update_in_bounds AuthFrame.auth_in_bounds
  HandshakeDataFrame.handshake_data_in_bounds CapabilitiesFrame.capabilities_in_bounds
  SessionTicketFrame.session_ticket_in_bounds RouteRequestFrame.route_request_in_bounds
  RouteResponseFrame.route_response_in_bounds RouteErrorFrame.route_error_in_bounds
  RelayOpenFrame.relay_open_in_bounds RelayStatusFrame.relay_status_in_bounds
  RelayDataFrame.relay_data_in_bounds RelayCloseFrame.relay_close_in_bounds
  BundleFrame.bundle_in_bounds BundleAckFrame.bundle_ack_in_bounds
  PeerHintFrame.peer_hint_in_bounds ServiceHintFrame.service_hint_in_bounds : umc.

Lemma decode_fixed_bounds ty rest f used :
  decode_fixed ty rest = Ok (f, used) -> used <= len rest.
Proof.
  unfold decode_fixed. intros H.
  repeat match type of H with
    | (if ?b then _ else _) = _ =>
        destruct b;
        [first [ injection H as <- <-; lia
               | discriminate H
               | eapply as_frame_bounds; [|exact H]; auto with umc ]|]
    end.
  discriminate H.
Qed.

Lemma decode_step_bounds payload pos f pos' :
  pos < len payload -> decode_step payload pos = Ok (f, pos') -> pos < pos' <= len payload.
Proof.
  intros Hp ([ty n] & Hv%map_err_Ok & H)%bind_Ok.
  apply Varint.decode_bounds in Hv as [[Hn1 Hn2] _]. rewrite len_from in Hn2.
  destruct (behavior ty).
  1, 2: apply bind_Ok in H as ([g used] & Hd & [= <- <-]);
    apply decode_fixed_bounds in Hd; rewrite len_from in Hd; lia.
  - case_match; [|done]. apply bind_Ok in H as ([g used] & Hd & [= <- <-]).
    apply RelayStatusFrame.relay_status_delimited_bounds in Hd. rewrite len_from in Hd. lia.
  - unfold decode_optional_delimited in H.
    apply bind_Ok in H as ([l u] & Hl & H). cbv beta iota zeta in H.
    apply bind_Ok in H as (hi & Hc%ok_or_Ok & H). cbv beta in H.
    destruct (N.ltb_spec (len payload) hi); [done|].
    apply checked_add_Some in Hc as [-> _].
    assert (pos' = pos + n + u + l) as ->; [|lia].
    repeat first [ case_match | apply bind_Ok in H as ([? ?] & _ & H) ]; naive_solver.
Qed.

(** With as many turns as there are bytes left the loop ends by itself. *)
Lemma decode_loop_total fuel payload pos out :
  (N.to_nat (len payload - pos) <= fuel)%nat ->
  exists r, decode_loop fuel payload pos out = Some r.
Proof.
  revert pos out. induction fuel as [|fuel IH]; intros pos out Hf; simpl.
  - destruct (N.ltb_spec pos (len payload)); [lia|]. eauto.
  - destruct (N.ltb_spec pos (len payload)) as [Hlt|]; [|eauto].
    destruct (decode_step payload pos) as [[f pos']|e] eqn:E; [|eauto].
    apply decode_step_bounds in E; [|done]. apply IH. lia.
Qed.

(** ** Round trip *)

Lemma encode_frame_nonempty f bs :
  self_delimited f -> encode_frame f = Ok bs -> 0 < len bs.
Proof.
  intros Hs He. destruct (decide (len bs = 0)) as [H0|]; [|lia].
  apply len_0_nil in H0 as ->.
  pose proof (step_frame f [] [] [] Hs He) as H. cbn in H.
  assert (Hl : 0 <= usize_max) by done. apply H in Hl. discriminate Hl.
Qed.

Lemma loop_done fuel payload out :
  decode_loop fuel payload (len payload) out = Some (Ok out).
Proof. destruct fuel; simpl; by rewrite N.ltb_irrefl. Qed.

Lemma loop_step fuel pre bs post out f r :
  0 < len bs ->
  decode_step (pre ++ bs ++ post) (len pre) = Ok (f, len (pre ++ bs)) ->
  (length (bs ++ post) <= fuel)%nat ->
  (forall fuel, (length post <= fuel)%nat ->
     decode_loop fuel (pre ++ bs ++ post) (len (pre ++ bs)) (out ++ option_list f) = r) ->
  decode_loop fuel (pre ++ bs ++ post) (len pre) out = r.
Proof.
  intros Hne Hs Hf Hr. rewrite length_app in Hf.
  destruct fuel as [|fuel]; [unfold len in *; lia|]. simpl.
  destruct (N.ltb_spec (len pre) (len (pre ++ bs ++ post))) as [_|Hge];
    [|autorewrite with umc in Hge; lia].
  rewrite Hs. apply Hr. unfold len in *; lia.
Qed.

(** The loop over encoded frames followed by anything goes on after them with
    those frames pushed. *)
Lemma loop_frames fs bs pre post out r :
  Forall self_delimited fs -> encode_frames fs = Ok bs ->
  len (pre ++ bs ++ post) <= usize_max ->
  (forall fuel, (length post <= fuel)%nat ->
     decode_loop fuel (pre ++ bs ++ post) (len (pre ++ bs)) (out ++ fs) = r) ->
  forall fuel, (length (bs ++ post) <= fuel)%nat ->
  decode_loop fuel (pre ++ bs ++ post) (len pre) out = r.
Proof.
  intros Hs. revert bs pre out. induction Hs as [|f fs Hf Hs IH]; intros bs pre out He Hl Hr.
  - injection He as <-. intros fuel Hfuel. specialize (Hr fuel Hfuel).
    by rewrite !app_nil_r in Hr.
  - apply bind_Ok in He as (b & Hb & He). apply bind_Ok in He as (q & Hq & [= <-]).
    intros fuel Hfuel. rewrite <- app_assoc in *. eapply loop_step.
    + by eapply encode_frame_nonempty.
    + by apply step_frame.
    + done.
    + cbn [option_list]. rewrite (app_assoc pre b) in *. apply IH; [done..|].
      rewrite <- (app_assoc out), <- (app_assoc pre b q). exact Hr.
Qed.

(** ** Limits *)

(** What every frame the parser returns satisfies: the wire limits of its fields. *)
Definition within_limits (f : Frame.t) : Prop :=
  match f with
  | Frame.Ack f =>
      AckFrame.nonempty f /\ len f.(AckFrame.additional_ranges) <= MAX_ACK_RANGES
  | Frame.ConnectionClose f => len f.(ConnectionCloseFrame.reason) <= MAX_REASON_LEN
  | Frame.Stream f =>
      len f.(StreamFrame.protocol_id) <= MAX_PROTOCOL_ID_LEN
      /\ len f.(StreamFrame.metadata) <= MAX_STREAM_METADATA_LEN
      /\ (f.(StreamFrame.open) = false ->
          f.(StreamFrame.protocol_id) = [] /\ f.(StreamFrame.metadata) = [])
      /\ (f.(StreamFrame.offset_present) = false -> f.(StreamFrame.offset) = 0)
  | Frame.Datagram f => len f.(DatagramFrame.data) <= MAX_DATAGRAM_PAYLOAD
  | Frame.NewConnectionId f =>
      1 <= len f.(NewConnectionIdFrame.connection_id) <= 20
      /\ len f.(NewConnectionIdFrame.reset_token) = RESET_TOKEN_LEN
      /\ f.(NewConnectionIdFrame.retire_prior_to) <= f.(NewConnectionIdFrame.sequence)
  | Frame.PathChallenge f => len f.(PathChallengeFrame.data) = CHALLENGE_LEN
  | Frame.PathResponse f => len f.(PathResponseFrame.data) = CHALLENGE_LEN
  | Frame.Auth f => len f.(AuthFrame.data) <= MAX_HANDSHAKE_MESSAGE
  | Frame.HandshakeData f => len f.(HandshakeDataFrame.data) <= MAX_HANDSHAKE_MESSAGE
  | Frame.Capabilities f =>
      len f.(CapabilitiesFrame.entries) <= MAX_CAPABILITIES
      /\ Forall (fun e => len e.(Capability.value) <= MAX_CAPABILITY_VALUE)
           f.(CapabilitiesFrame.entries)
  | Frame.SessionTicket f =>
      len f.(SessionTicketFrame.nonce) <= 256
      /\ len f.(SessionTicketFrame.ticket) <= SessionTicketFrame.MAX_TICKET
  | Frame.RouteRequest f =>
      1 <= f.(RouteRequestFrame.hop_limit) <= MAX_HOP_LIMIT
      /\ len f.(RouteRequestFrame.path_exclusions) <= MAX_PATH_EXCLUSIONS
      /\ Forall (fun e => len e <= MAX_EXCLUSION_ENTRY) f.(RouteRequestFrame.path_exclusions)
      /\ len f.(RouteRequestFrame.destination_hint) <= MAX_DESTINATION_HINT
      /\ len f.(RouteRequestFrame.requester_auth) <= MAX_ROUTE_AUTH
  | Frame.RouteResponse f =>
      len f.(RouteResponseFrame.next_hop_hint) <= RouteResponseFrame.MAX_NEXT_HOP_HINT
      /\ len f.(RouteResponseFrame.route_metadata) <= RouteResponseFrame.MAX_ROUTE_METADATA
      /\ len f.(RouteResponseFrame.authentication) <= MAX_ROUTE_AUTH
  | Frame.RouteError f =>
      len f.(RouteErrorFrame.diagnostic) <= RouteErrorFrame.MAX_DIAGNOSTIC
  | Frame.RelayOpen f =>
      (f.(RelayOpenFrame.requested_lifetime) = 0
       \/ 1000 <= f.(RelayOpenFrame.requested_lifetime) <= MAX_REQUESTED_LIFETIME_MS)
      /\ len f.(RelayOpenFrame.next_hop_hint) <= RelayOpenFrame.MAX_NEXT_HOP_HINT
      /\ len f.(RelayOpenFrame.authorization) <= MAX_RELAY_AUTH
  | Frame.RelayStatus f =>
      len f.(RelayStatusFrame.diagnostic) <= MAX_RELAY_DIAGNOSTIC
      /\ len f.(RelayStatusFrame.authentication) <= MAX_RELAY_AUTH
  | Frame.RelayData f =>
      len f.(RelayDataFrame.data) <= MAX_RELAY_PAYLOAD
      /\ (len f.(RelayDataFrame.data) = 0 -> f.(RelayDataFrame.fin) = true)
  | Frame.Bundle f =>
      len f.(BundleFrame.bundle_id) <= MAX_BUNDLE_ID
      /\ len f.(BundleFrame.payload) <= MAX_BUNDLE_PAYLOAD
      /\ len f.(BundleFrame.destination_hint) <= MAX_BUNDLE_DESTINATION_HINT
      /\ len f.(BundleFrame.bundle_auth) <= MAX_BUNDLE_AUTH
  | Frame.BundleAck f =>
      len f.(BundleAckFrame.bundle_id) <= MAX_BUNDLE_ID
      /\ len f.(BundleAckFrame.authentication) <= MAX_BUNDLE_AUTH
  | Frame.PeerHint f =>
      len f.(PeerHintFrame.entries) <= MAX_HINTS
      /\ Forall PeerHintEntry.sized f.(PeerHintFrame.entries)
  | Frame.ServiceHint f =>
      len f.(ServiceHintFrame.protocol_id) <= MAX_PROTOCOL_ID
      /\ len f.(ServiceHintFrame.endpoint_hint) <= MAX_ENDPOINT_HINT
      /\ len f.(ServiceHintFrame.metadata) <= MAX_SERVICE_METADATA
      /\ len f.(ServiceHintFrame.signature) <= MAX_SIGNATURE
  | Frame.DhtLookup f =>
      len f.(DhtLookupFrame.target_endpoint_id) = 32
      /\ len f.(DhtLookupFrame.records) <= MAX_DHT_RECORDS
      /\ Forall DhtRecordWire.sized f.(DhtLookupFrame.records)
  | Frame.RevocationBatch f => len f.(RevocationBatchFrame.payload) <= MAX_REVOCATION_BATCH
  | _ => True
  end.

Lemma as_frame_limits {A} (d : Dec A) C P rest f used :
  yields d P -> (forall x, P x -> within_limits (C x)) ->
  as_frame C (d rest 0) = Ok (f, used) -> within_limits f.
Proof. intros Hd HC ([x n] & H & [= <- <-])%bind_Ok. eapply HC, Hd, H. Qed.

#[local] Hint Resolve AckFrame.ack_decoded ConnectionCloseFrame.connection_close_decoded
  StreamFrame.stream_decoded DatagramFrame.datagram_decoded
  NewConnectionIdFrame.new_connection_id_decoded PathChallengeFrame.path_challenge_decoded
  PathResponseFrame.path_response_decoded AuthFrame.auth_decoded
  HandshakeDataFrame.handshake_data_decoded CapabilitiesFrame.capabilities_decoded
  SessionTicketFrame.session_ticket_decoded RouteRequestFrame.route_request_decoded
  RouteResponseFrame.route_response_decoded RouteErrorFrame.route_error_decoded
  RelayOpenFrame.relay_open_decoded RelayStatusFrame.relay_status_decoded
  RelayDataFrame.relay_data_decoded BundleFrame.bundle_decoded
  BundleAckFrame.bundle_ack_decoded PeerHintFrame.peer_hint_decoded
  ServiceHintFrame.service_hint_decoded : umc.

Lemma decode_fixed_limits ty rest f used :
  decode_fixed ty rest = Ok (f, used) -> within_limits f.
Proof.
  unfold decode_fixed. intros H.
  repeat match type of H with
    | (if ?b then _ else _) = _ =>
        destruct b;
        [first [ injection H as <- <-; exact I
               | discriminate H
               | eapply as_frame_limits; [..|exact H]; [solve [eauto with umc]|cbn; tauto]
               | eapply as_frame_limits; [..|exact H]; [apply yields_true|done] ]|]
    end.
  discriminate H.
Qed.

Lemma decode_step_limits payload pos f pos' :
  decode_step payload pos = Ok (Some f, pos') -> within_limits f.
Proof.
  intros ([ty n] & _ & H)%bind_Ok. destruct (behavior ty).
  1, 2: apply bind_Ok in H as ([g used] & Hd & [= <- <-]); by eapply decode_fixed_limits.
  - case_match; [|done]. apply bind_Ok in H as ([g used] & Hd & [= <- <-]).
    by eapply RelayStatusFrame.relay_status_delimited_decoded.
  - apply bind_Ok in H as ([l u] & _ & H). cbv beta iota zeta in H.
    apply bind_Ok in H as (hi & _ & H). do 2 (case_match; try done); [|case_match; [|done]].
    + apply bind_Ok in H as ([g used] & Hd & H). case_match; [done|]. injection H as <- <-.
      by eapply DhtLookupFrame.dht_lookup_decoded.
    + apply bind_Ok in H as ([g used] & Hd & H). case_match; [done|]. injection H as <- <-.
      unfold RevocationBatchFrame.decode in Hd. case_match; [done|].
      injection Hd as <- <-. simpl. lia.
Qed.

Lemma decode_loop_limits fuel payload pos out fs :
  Forall within_limits out -> decode_loop fuel payload pos out = Some (Ok fs) ->
  Forall within_limits fs.
Proof.
  revert pos out. induction fuel as [|fuel IH]; intros pos out Ho H; simpl in H.
  - case_match; naive_solver.
  - case_match; [|naive_solver].
    destruct (decode_step payload pos) as [[f pos']|e] eqn:E; [|done].
    eapply IH; [|exact H]. apply Forall_app. split; [done|].
    destruct f; simpl; [|done]. constructor; [|done]. by eapply decode_step_limits.
Qed.

(** ** Properties *)

(** C37: Decoding terminates: with one turn of the loop per byte of payload the
    parser always reaches its answer, so [decode_frames] never reports the
    out-of-fuel value on any payload. *)
Theorem decode_frames_total payload :
  decode_loop (length payload) payload 0 [] = Some (decode_frames payload).
Proof.
  unfold decode_frames.
  destruct (decode_loop_total (length payload) payload 0 []) as [r ->]; [|done].
  unfold len. lia.
Qed.

Lemma decode_encoded fs bs :
  Forall self_delimited fs -> encode_frames fs = Ok bs -> len bs <= usize_max ->
  decode_frames bs = Ok fs.
Proof.
  intros Hs He Hl. unfold decode_frames.
  pose proof (loop_frames fs bs [] [] [] (Some (Ok fs)) Hs He) as H.
  cbn [app] in H. rewrite app_nil_r in H.
  rewrite (H Hl); [done| |done]. intros fuel _. apply loop_done.
Qed.

(** *** The frame that takes the rest of the payload *)

(** A STREAM frame without a length, which can only be the last one. *)
Definition open_ended (f : Frame.t) : Prop :=
  match f with
  | Frame.Stream f => StreamFrame.open_ended f
  | _ => False
  end.

(** The frames of a payload that can be told apart: each one tells where it ends,
    but for the last, which may be a STREAM frame without a length. *)
Fixpoint well_delimited (fs : list Frame.t) : Prop :=
  match fs with
  | [] => True
  | f :: fs => (self_delimited f /\ well_delimited fs) \/ (open_ended f /\ fs = [])
  end.

Lemma well_delimited_app gs fs : Forall self_delimited gs -> well_delimited fs -> well_delimited (gs ++ fs).
Proof. intros Hg Hf. induction Hg as [|g gs Hg _ IH]; simpl; auto. Qed.

Lemma well_delimited_inv fs :
  well_delimited fs -> Forall self_delimited fs \/ exists gs f, fs = gs ++ [f] /\ Forall self_delimited gs /\ open_ended f.
Proof.
  induction fs as [|f fs IH]; simpl; [auto|]. intros [[Hf [Hfs|(gs & g & -> & Hg & Ho)]%IH]|[Ho ->]].
  - left. by constructor.
  - right. exists (f :: gs), g. split; [done|]. split; [by constructor|done].
  - right. by exists [], f.
Qed.

Lemma step_open_ended f bs pre :
  open_ended f -> encode_frame f = Ok bs -> len (pre ++ bs) <= usize_max ->
  0 < len bs /\ decode_step (pre ++ bs) (len pre) = Ok (Some f, len (pre ++ bs)).
Proof.
  destruct f; try done. intros Ho He Hl. destruct (StreamFrame.stream_open_ended _ _ Ho He) as (tb & rest & -> & Ht & Hr).
  split.
  - pose proof (Ht []) as H. apply Varint.decode_bounds in H as [H _]. rewrite app_nil_r in H. rewrite len_app. lia.
  - unfold decode_step. rewrite from_app_len, Ht. cbn [map_err]. unfold mbind, Result_bind.
    change (behavior FrameType.STREAM) with CriticalFixed. cbv iota beta.
    rewrite from_app_add, from_app_len.
    change (decode_fixed FrameType.STREAM rest) with (as_frame Frame.Stream (StreamFrame.body rest 0)).
    autorewrite with umc in Hl. rewrite Hr by lia. unfold as_frame. cbn. do 2 f_equal. autorewrite with umc. lia.
Qed.

Lemma encode_frames_split fs gs bs :
  encode_frames (fs ++ gs) = Ok bs -> exists a b, bs = a ++ b /\ encode_frames fs = Ok a /\ encode_frames gs = Ok b.
Proof.
  revert bs. induction fs as [|f fs IH]; intros bs H; cbn [app encode_frames] in *; [by exists [], bs|].
  apply bind_Ok in H as (b & Hb & H). apply bind_Ok in H as (rest & Hr & [= <-]).
  destruct (IH _ Hr) as (a & c & -> & Ha & Hc). exists (b ++ a), c. rewrite Hb, Ha. cbn. by rewrite app_assoc.
Qed.

Lemma decode_well_delimited fs bs :
  well_delimited fs -> encode_frames fs = Ok bs -> len bs <= usize_max -> decode_frames bs = Ok fs.
Proof.
  intros [Hs|(gs & f & -> & Hg & Ho)]%well_delimited_inv He Hl; [by apply decode_encoded|].
  apply encode_frames_split in He as (a & b & -> & Ha & Hb). cbn [encode_frames] in Hb.
  apply bind_Ok in Hb as (b' & Hb & [= <-]). rewrite app_nil_r in *. unfold decode_frames.
  destruct (step_open_ended f b' a Ho Hb Hl) as [Hne Hstep].
  pose proof (loop_frames gs a [] b' [] (Some (Ok (gs ++ [f]))) Hg Ha) as H. cbn [app] in H. rewrite (H Hl); [done| |done].
  intros fuel Hf. pose proof (loop_step fuel a b' [] gs (Some f) (Some (Ok (gs ++ [f])))) as Hloop.
  rewrite !app_nil_r in Hloop. apply Hloop; [done|done|done|]. intros fuel' _. cbn [option_list]. apply loop_done.
Qed.

(** What a turn of the parser returns is delimited or took all that was left. *)
Lemma decode_fixed_stream ty rest f used :
  decode_fixed ty rest = Ok (Frame.Stream f, used) -> StreamFrame.body rest 0 = Ok (f, used).
Proof.
  unfold decode_fixed. intros H.
  repeat match type of H with
    | (if ?b then _ else _) = _ =>
        destruct b;
        [first [ discriminate H
               | apply bind_Ok in H as ([x n] & H & E); first [discriminate E | injection E as <- <-; exact H] ]|]
    end.
  discriminate H.
Qed.

Lemma decode_step_shape payload pos f pos' :
  pos < len payload -> decode_step payload pos = Ok (Some f, pos') ->
  self_delimited f \/ (open_ended f /\ pos' = len payload).
Proof.
  intros Hp H. pose proof (decode_step_limits _ _ _ _ H) as Hlim.
  destruct f; try (left; simpl in *; tauto). apply bind_Ok in H as ([ty n] & Hv%map_err_Ok & H).
  apply Varint.decode_bounds in Hv as [[Hn1 Hn2] _]. rewrite len_from in Hn2. destruct (behavior ty).
  1, 2: apply bind_Ok in H as ([g used] & Hd & H); injection H as -> <-; apply decode_fixed_stream in Hd;
    apply StreamFrame.stream_shape in Hd as [Hd|[Hd ->]]; [by left|right; split; [done|]; rewrite len_from; lia|lia].
  - case_match; [|done]. by apply bind_Ok in H as ([g used] & _ & ?).
  - apply bind_Ok in H as ([l u] & _ & H). cbv beta iota zeta in H. apply bind_Ok in H as (hi & _ & H).
    repeat first [ case_match | apply bind_Ok in H as ([? ?] & _ & H) ]; done.
Qed.

Lemma decode_loop_shape fuel payload pos out fs :
  Forall self_delimited out -> decode_loop fuel payload pos out = Some (Ok fs) -> well_delimited fs.
Proof.
  revert pos out. induction fuel as [|fuel IH]; intros pos out Ho H; simpl in H.
  - destruct (_ <? _); [done|]. injection H as <-. rewrite <- (app_nil_r out). by apply well_delimited_app.
  - destruct (N.ltb_spec pos (len payload)) as [Hp|];
      [|injection H as <-; rewrite <- (app_nil_r out); by apply well_delimited_app].
    destruct (decode_step payload pos) as [[[f|] pos']|e] eqn:E; [| |done]; cbn [option_list] in H.
    2: { rewrite app_nil_r in H. by eapply IH. }
    destruct (decode_step_shape _ _ _ _ Hp E) as [Hf|[Hf ->]].
    + eapply IH; [|exact H]. apply Forall_app. split; [done|]. by constructor.
    + rewrite loop_done in H. injection H as <-. apply well_delimited_app; [done|]. simpl. auto.
Qed.


Definition sample_frames : list Frame.t :=
  [ Frame.Ack (AckFrame.mk 700 25 3 [AckRange.mk 1 2]);
    Frame.Stream (StreamFrame.mk 4 true true true true false 16384 [1; 2; 3] [7] [8; 9]);
    Frame.Ping;
    Frame.RelayStatus (RelayStatusFrame.mk 9 1 2 true false true false true 5 7 11 [6] [7; 8]);
    Frame.RevocationBatch (RevocationBatchFrame.mk [1; 2; 3; 4]) ].

Definition sample_bytes : list u8 :=
  match encode_frames sample_frames with Ok bs => bs | Err _ => [] end.

(** The same with a last frame that takes the rest of the payload. *)
Definition sample_open_frames : list Frame.t :=
  sample_frames ++ [Frame.Stream (StreamFrame.mk 8 true true false false false 5 [4; 5; 6] [] [])].

Definition sample_open_bytes : list u8 :=
  match encode_frames sample_open_frames with Ok bs => bs | Err _ => [] end.


(** Whatever bytes arrive, every frame the parser returns is within the wire
    limits of its kind: field sizes, array lengths, hop limits, non-empty ACK
    ranges, lifetimes, and the emptiness of fields its flags declare absent. *)
Theorem decode_frames_limits payload fs :
  decode_frames payload = Ok fs -> Forall within_limits fs.
Proof.
  unfold decode_frames. case_match eqn:E; [|done]. intros ->.
  by eapply decode_loop_limits.
Qed.

Lemma decode_frames_limits_witness : Forall within_limits sample_frames.
Proof. apply (decode_frames_limits sample_bytes). vm_compute. reflexivity. Defined.

(** An extension frame of an unassigned optional length-delimited type is
    skipped by its declared length, wherever it stands in the payload: the
    frames before and after it are returned as if it were absent. *)
Theorem decode_frames_skips_extension fs gs ty bd a ext b :
  Forall self_delimited fs -> Forall self_delimited gs ->
  encode_frames fs = Ok a -> encode_frames gs = Ok b ->
  behavior ty = OptionalLengthDelimited ->
  ty <> FrameType.DHT_LOOKUP -> ty <> FrameType.REVOCATION_BATCH ->
  (put_varint ty >>> put_varint (len bd) >>> put_slice bd) [] = Ok ext ->
  len (a ++ ext ++ b) <= usize_max ->
  decode_frames (a ++ ext ++ b) = Ok (fs ++ gs).
Proof.
  intros Hfs Hgs Ha Hb Ht Hd Hr He Hl. unfold decode_frames.
  rewrite (loop_frames fs a [] (ext ++ b) [] (Some (Ok (fs ++ gs))) Hfs Ha); [done|done| |done].
  intros fuel Hfuel. cbn [app]. eapply (loop_step fuel a ext b fs None).
  - destruct (delimited_split _ _ _ He) as (tb & lb & -> & Hv & _).
    specialize (Hv []). apply Varint.decode_bounds in Hv. autorewrite with umc in *. lia.
  - rewrite (step_optional _ _ _ _ _ He Ht Hl).
    by rewrite (proj2 (N.eqb_neq _ _) Hd), (proj2 (N.eqb_neq _ _) Hr).
  - done.
  - cbn [option_list]. rewrite app_nil_r. intros fuel' Hf.
    pose proof (loop_frames gs b (a ++ ext) [] fs (Some (Ok (fs ++ gs))) Hgs Hb) as H.
    rewrite app_nil_r, <- (app_assoc a ext b) in H. apply H; [done| |done].
    intros fuel'' _. replace (len ((a ++ ext) ++ b)) with (len (a ++ ext ++ b))
      by (autorewrite with umc; lia). apply loop_done.
Qed.

Lemma decode_frames_skips_extension_witness :
  decode_frames ([4] ++ [3; 2; 9; 9] ++ [4]) = Ok [Frame.Ping; Frame.Ping].
Proof.
  apply (decode_frames_skips_extension [Frame.Ping] [Frame.Ping] 3 [9; 9]); try done;
    repeat constructor.
Defined.
