(* ===== verification/Pn.v ===== *)
(** * Packet-number reconstruction (crates/umc-wire/src/pn.rs)

    A packet carries the low bits of its number; the receiver takes the number
    congruent to them that is nearest to the one it expects next. *)

From S2P Require Import Prelude.

Definition MAX_PACKET_NUMBER : u64 := 2 ^ 62 - 1.

Inductive PnError :=
| InvalidBits
| TruncatedTooLarge
| Overflow.

(** The [if]/[else if] that moves the candidate by one window. *)
Definition adjust (candidate window half expected : u64) : u64 :=
  if (saturating_add candidate half <? expected)
     && (saturating_add candidate window <=? MAX_PACKET_NUMBER)
  then saturating_add candidate window
  else if (saturating_add expected half <? candidate) && (window <=? candidate)
  then saturating_sub candidate window
  else candidate.

(** [expected & !mask] is [N.ldiff]; the shifts cannot overflow since
    [bits <= 62]. *)
Definition reconstruct (truncated : u64) (bits : u32) (expected : u64) : Result PnError u64 :=
  if (bits =? 0) || (62 <? bits) then Err InvalidBits
  else if N.shiftl 1 bits <=? truncated then Err TruncatedTooLarge
  else
    let window := N.shiftl 1 bits in
    let half := N.shiftr window 1 in
    if MAX_PACKET_NUMBER - half <? expected then Err Overflow
    else
      let mask := window - 1 in
      let candidate := N.lor (N.ldiff expected mask) truncated in
      let candidate := adjust candidate window half expected in
      if MAX_PACKET_NUMBER <? candidate then Err Overflow else Ok candidate.

(** ** The arithmetic of the window *)

Lemma land_shifted a b n : b < 2 ^ n -> N.land (a * 2 ^ n) b = 0.
Proof.
  intros Hb. apply N.bits_inj_0. intros i. rewrite N.land_spec.
  destruct (N.lt_ge_cases i n) as [Hi|Hi]; [by rewrite N.mul_pow2_bits_low|].
  destruct (N.eq_dec b 0) as [->|]; [by rewrite N.bits_0, andb_false_r|].
  rewrite (N.bits_above_log2 b), andb_false_r; [done|].
  apply N.lt_le_trans with n; [|done]. apply N.log2_lt_pow2; lia.
Qed.

Lemma lor_ldiff_ones e t bits :
  t < 2 ^ bits -> N.lor (N.ldiff e (2 ^ bits - 1)) t = 2 ^ bits * (e / 2 ^ bits) + t.
Proof.
  intros Ht. rewrite N.sub_1_r, <- N.ones_equiv, N.ldiff_ones_r, N.shiftr_div_pow2.
  rewrite N.shiftl_mul_pow2, (N.mul_comm (2 ^ bits)).
  rewrite <- N.lxor_lor, <- N.add_nocarry_lxor; auto using land_shifted.
Qed.

(** The window at its widest fits the packet-number space. *)
Lemma window_bound bits : 1 <= bits -> bits <= 62 ->
  exists h, 2 ^ bits = 2 * h /\ 2 ^ (bits - 1) = h /\ 1 <= h /\ h <= 2 ^ 61.
Proof.
  intros H1 H2. exists (2 ^ (bits - 1)).
  replace bits with (N.succ (bits - 1)) at 1 by lia. rewrite N.pow_succ_r'.
  split; [done|]. split; [done|]. split; [|by apply N.pow_le_mono_r; lia].
  pose proof (N.pow_nonzero 2 (bits - 1)). lia.
Qed.

(** Within the packet-number space no operation saturates, and the window is
    never too far up. *)
Lemma adjust_arith c h e :
  c < e + 2 * h -> e + h <= MAX_PACKET_NUMBER -> 2 * h <= MAX_PACKET_NUMBER + 1 ->
  adjust c (2 * h) h e =
    (if c + h <? e then c + 2 * h
     else if (e + h <? c) && (2 * h <=? c) then c - 2 * h else c).
Proof.
  unfold adjust, saturating_add, saturating_sub, MAX_PACKET_NUMBER, u64_max. intros.
  repeat case_match; lia.
Qed.

Lemma adjust_bound c h e :
  c < e + 2 * h -> e + h <= MAX_PACKET_NUMBER -> 2 * h <= MAX_PACKET_NUMBER + 1 ->
  adjust c (2 * h) h e <= MAX_PACKET_NUMBER.
Proof.
  intros. rewrite adjust_arith by done. unfold MAX_PACKET_NUMBER in *. repeat case_match; lia.
Qed.

Lemma shiftr_double h : N.shiftr (2 * h) 1 = h.
Proof. rewrite <- N.div2_spec. apply N.div2_double. Qed.

(** The block of [e] with another offset stays within a window of [e]. *)
Lemma block_near e t w :
  t < w -> w * (e / w) + t < e + w /\ e < w * (e / w) + t + w.
Proof.
  intros Ht. assert (Hw : w <> 0) by lia.
  pose proof (N.div_mod e w Hw) as He. pose proof (N.mod_lt e w Hw) as Hr.
  revert He Hr. generalize (w * (e / w)) (e mod w). lia.
Qed.

(** The reconstruction with its bit operations replaced by arithmetic. *)
Lemma reconstruct_arith t bits e h :
  1 <= bits -> bits <= 62 -> 2 ^ bits = 2 * h -> h <= 2 ^ 61 -> t < 2 * h ->
  e + h <= MAX_PACKET_NUMBER ->
  reconstruct t bits e = Ok (adjust (2 * h * (e / (2 * h)) + t) (2 * h) h e).
Proof.
  intros H1 H2 Hw Hh Ht He. unfold reconstruct.
  rewrite (proj2 (N.eqb_neq bits 0)) by lia. rewrite (proj2 (N.ltb_ge 62 bits)) by lia.
  rewrite N.shiftl_1_l, Hw, shiftr_double. cbn [orb].
  rewrite (proj2 (N.leb_gt (2 * h) t)) by lia. cbv zeta.
  rewrite (proj2 (N.ltb_ge (MAX_PACKET_NUMBER - h) e)) by lia.
  assert (N.lor (N.ldiff e (2 * h - 1)) t = 2 * h * (e / (2 * h)) + t) as ->.
  { rewrite <- Hw in *. by apply lor_ldiff_ones. }
  destruct (block_near e t (2 * h) Ht) as [Hb _].
  rewrite (proj2 (N.ltb_ge _ _)); [done|]. apply adjust_bound; [done..|].
  unfold MAX_PACKET_NUMBER. lia.
Qed.

(** The distance between two values congruent modulo the window is a multiple
    of it. *)
Lemma congruent_apart w a b : w <> 0 -> a mod w = b mod w -> a < b -> a + w <= b.
Proof.
  intros Hw Hm Hlt. pose proof (N.div_mod a w Hw) as Ha. pose proof (N.div_mod b w Hw) as Hb.
  rewrite <- Hm in Hb. revert Ha Hb. clear Hm. generalize (a / w) (b / w) (a mod w).
  intros q1 q2 r -> ->. assert (w * q1 < w * q2) as H by lia.
  apply N.mul_lt_mono_pos_l in H; [|lia].
  assert (w * N.succ q1 <= w * q2) by (apply N.mul_le_mono_l; lia). lia.
Qed.

Lemma mod_add_self a w : (a + w) mod w = a mod w.
Proof. rewrite <- (N.mul_1_l w) at 1. apply N.Div0.mod_add. Qed.

Lemma block_mod w q t : (w * q + t) mod w = t mod w.
Proof. rewrite N.add_comm, (N.mul_comm w). apply N.Div0.mod_add. Qed.

(** The adjusted candidate is congruent to the old one and no other congruent
    value is nearer to [e]. *)
Lemma adjusted_nearest c e h c' :
  h <> 0 -> c < e + 2 * h -> e < c + 2 * h -> c' mod (2 * h) = c mod (2 * h) ->
  let r := if c + h <? e then c + 2 * h
           else if (e + h <? c) && (2 * h <=? c) then c - 2 * h else c in
  r mod (2 * h) = c mod (2 * h) /\ abs_diff r e <= abs_diff c' e.
Proof.
  intros Hh Hc1 Hc2 Hc. assert (Hw : 2 * h <> 0) by lia. cbv zeta. split.
  - destruct (N.ltb_spec (c + h) e); [apply mod_add_self|].
    destruct (N.leb_spec (2 * h) c) as [Hle|]; [|by rewrite andb_false_r].
    case_match; [|done]. rewrite <- (mod_add_self (c - 2 * h)). f_equal. lia.
  - pose proof (congruent_apart (2 * h) c c' Hw (eq_sym Hc)) as H1.
    pose proof (congruent_apart (2 * h) c' c Hw Hc) as H2.
    pose proof (congruent_apart (2 * h) (c + 2 * h) c' Hw) as H3.
    pose proof (congruent_apart (2 * h) c (c' + 2 * h) Hw) as H4.
    pose proof (congruent_apart (2 * h) (c' + 2 * h) c Hw) as H5.
    rewrite mod_add_self in *. specialize (H3 (eq_sym Hc)). specialize (H4 (eq_sym Hc)).
    specialize (H5 Hc). clear Hc. unfold abs_diff. repeat case_match; lia.
Qed.

Lemma nearest_unique c pn e h :
  h <> 0 -> c mod (2 * h) = pn mod (2 * h) -> c < e + 2 * h -> e < c + 2 * h ->
  2 * abs_diff pn e < 2 * h ->
  (if c + h <? e then c + 2 * h
   else if (e + h <? c) && (2 * h <=? c) then c - 2 * h else c) = pn.
Proof.
  intros Hh Hc Hc1 Hc2 Hd. assert (Hw : 2 * h <> 0) by lia.
  pose proof (congruent_apart (2 * h) c pn Hw Hc) as H1.
  pose proof (congruent_apart (2 * h) pn c Hw (eq_sym Hc)) as H2.
  pose proof (congruent_apart (2 * h) (c + 2 * h) pn Hw) as H3.
  pose proof (congruent_apart (2 * h) pn (c + 2 * h) Hw) as H4.
  pose proof (congruent_apart (2 * h) c (pn + 2 * h) Hw) as H5.
  pose proof (congruent_apart (2 * h) (pn + 2 * h) c Hw) as H6.
  rewrite mod_add_self in *. specialize (H3 Hc). specialize (H4 (eq_sym Hc)).
  specialize (H5 Hc). specialize (H6 (eq_sym Hc)). clear Hc. unfold abs_diff in Hd.
  repeat case_match; lia.
Qed.

Lemma reconstruct_within pn bits e :
  1 <= bits -> bits <= 62 ->
  e <= MAX_PACKET_NUMBER - 2 ^ (bits - 1) -> 2 * abs_diff pn e < 2 ^ bits ->
  reconstruct (pn mod 2 ^ bits) bits e = Ok pn.
Proof.
  intros H1 H2 He Hd. destruct (window_bound bits H1 H2) as (h & Hw & Hb & Hh1 & Hh2).
  rewrite Hb in He. rewrite Hw in *. assert (Hr : pn mod (2 * h) < 2 * h) by (apply N.mod_lt; lia).
  assert (He' : e + h <= MAX_PACKET_NUMBER) by (unfold MAX_PACKET_NUMBER in *; lia).
  rewrite (reconstruct_arith _ bits e h) by done.
  destruct (block_near e _ _ Hr) as [Hc1 Hc2].
  rewrite adjust_arith by first [done | unfold MAX_PACKET_NUMBER; lia]. f_equal.
  assert (Hc : (2 * h * (e / (2 * h)) + pn mod (2 * h)) mod (2 * h) = pn mod (2 * h)).
  { rewrite block_mod. apply N.Div0.mod_mod. }
  revert Hc Hc1 Hc2. clear Hr Hw. generalize (2 * h * (e / (2 * h)) + pn mod (2 * h)).
  intros c Hc Hc1 Hc2. apply nearest_unique; [lia|done..].
Qed.

(** ** Properties *)

(** Reconstruction is exact: a packet number strictly within half a window of
    the expected one is recovered from its truncation, for every width the
    decoder accepts. *)
Theorem reconstruct_exact pn bits e :
  1 <= bits -> bits <= 62 ->
  e <= MAX_PACKET_NUMBER - 2 ^ (bits - 1) -> 2 * abs_diff pn e < 2 ^ bits ->
  reconstruct (pn mod 2 ^ bits) bits e = Ok pn.
Proof. apply reconstruct_within. Qed.

Lemma reconstruct_exact_witness : reconstruct 1 8 255 = Ok 257.
Proof. apply (reconstruct_exact 257 8 255); vm_compute; intuition discriminate. Defined.

(** Whenever reconstruction answers, it answers with the packet number that
    has the given low bits and is nearest to the expected one among all numbers
    with those low bits; and it answers for every truncation that fits the
    width, unless the expected number is within half a window of the ceiling. *)
Theorem reconstruct_nearest t bits e :
  1 <= bits -> bits <= 62 -> t < 2 ^ bits -> e <= MAX_PACKET_NUMBER - 2 ^ (bits - 1) ->
  exists pn, reconstruct t bits e = Ok pn /\ pn <= MAX_PACKET_NUMBER
    /\ pn mod 2 ^ bits = t
    /\ forall pn', pn' mod 2 ^ bits = t -> abs_diff pn e <= abs_diff pn' e.
Proof.
  intros H1 H2 Ht He. destruct (window_bound bits H1 H2) as (h & Hw & Hb & Hh1 & Hh2).
  rewrite Hb in He. rewrite Hw in *.
  assert (He' : e + h <= MAX_PACKET_NUMBER) by (unfold MAX_PACKET_NUMBER in *; lia).
  assert (Hm : 2 * h <= MAX_PACKET_NUMBER + 1) by (unfold MAX_PACKET_NUMBER; lia).
  destruct (block_near e _ _ Ht) as [Hc1 Hc2].
  exists (adjust (2 * h * (e / (2 * h)) + t) (2 * h) h e). split_and!.
  - by apply reconstruct_arith.
  - by apply adjust_bound.
  - rewrite adjust_arith by done.
    destruct (adjusted_nearest _ e h _ ltac:(lia) Hc1 Hc2 eq_refl) as [-> _].
    rewrite block_mod. by apply N.mod_small.
  - intros pn' Hp. rewrite adjust_arith by done.
    apply adjusted_nearest; [lia|done..|]. rewrite Hp, block_mod. symmetry. by apply N.mod_small.
Qed.

Lemma reconstruct_nearest_witness :
  exists pn, reconstruct 250 8 300 = Ok pn /\ pn <= MAX_PACKET_NUMBER
    /\ pn mod 2 ^ 8 = 250
    /\ forall pn', pn' mod 2 ^ 8 = 250 -> abs_diff pn 300 <= abs_diff pn' 300.
Proof. apply reconstruct_nearest; vm_compute; intuition discriminate. Defined.
