(* ===== verification/Header.v ===== *)
(** * Packet headers (crates/umc-wire/src/header.rs) *)

From S2P Require Import Prelude FrameTypes Varint.

Inductive LongPacketType :=
| Initial
| Retry
| Handshake
| VersionNegotiation.

Inductive ShortPacketSpace :=
| SessionData
| PathControl
| RelayData.

#[global] Instance ShortPacketSpace_eq_dec : EqDecision ShortPacketSpace.
Proof. solve_decision. Defined.

Inductive HeaderError :=
| ReservedBits
| InvalidType
| InvalidSpace
| ConnectionIdTooLong
| TokenTooLong
| HeaderTruncated.

Module HeaderByte.

Record t := mk { long : bool; kind : u8; key_phase : bool; pn_bits : u32 }.

Definition LONG_INITIAL : t := mk true 0 false 8.
Definition LONG_RETRY : t := mk true 1 false 8.
Definition LONG_HANDSHAKE : t := mk true 2 false 8.
Definition LONG_VERSION_NEGOTIATION : t := mk true 3 false 8.
Definition SHORT_SESSION : t := mk false 0 false 8.
Definition SHORT_PATH : t := mk false 1 false 8.
Definition SHORT_RELAY : t := mk false 2 false 8.

Definition pn_field (pn_bits : u32) : u8 :=
  match pn_bits with
  | 8 => 0
  | 16 => 1
  | 32 => 2
  | 64 => 3
  | _ => N.land pn_bits 0x03
  end.

Definition encode (h : t) : u8 :=
  let b := if h.(long) then 0x80 else 0 in
  let b := N.lor b (N.shiftl (N.land h.(kind) 0x03) 5) in
  let b := if h.(key_phase) then N.lor b 0x10 else b in
  N.lor b (N.shiftl (pn_field h.(pn_bits)) 2).

Definition decode (b : u8) : Result HeaderError t :=
  if negb (N.land b 0x03 =? 0) then Err ReservedBits
  else
    let pn_bits :=
      match N.land (N.shiftr b 2) 0x03 with
      | 0 => 8
      | 1 => 16
      | 2 => 32
      | _ => 64
      end in
    Ok (mk (negb (N.land b 0x80 =? 0)) (N.land (N.shiftr b 5) 0x03)
           (negb (N.land b 0x10 =? 0)) pn_bits).

Definition long_type (h : t) : option LongPacketType :=
  if negb h.(long) then None
  else
    match h.(kind) with
    | 0 => Some Initial
    | 1 => Some Retry
    | 2 => Some Handshake
    | _ => Some VersionNegotiation
    end.

Definition short_space (h : t) : option ShortPacketSpace :=
  if h.(long) then None
  else
    match h.(kind) with
    | 0 => Some SessionData
    | 1 => Some PathControl
    | 2 => Some RelayData
    | _ => None
    end.

(** The header bytes of the wire format: a two-bit kind and one of the four
    packet-number widths. *)
Definition valid (h : t) : Prop :=
  h.(kind) < 4 /\ h.(pn_bits) ∈ [8; 16; 32; 64].

End HeaderByte.

(** The header byte of each packet space. *)
Definition space_header (space : ShortPacketSpace) : HeaderByte.t :=
  match space with
  | SessionData => HeaderByte.SHORT_SESSION
  | PathControl => HeaderByte.SHORT_PATH
  | RelayData => HeaderByte.SHORT_RELAY
  end.

(** [packet_number.to_be_bytes()[8 - pn_bytes..]]: [None] is the panic of the
    index subtraction when more than eight bytes are asked for. *)
Definition pn_suffix (packet_number : u64) (pn_bytes : usize) : option (list u8) :=
  if 8 <? pn_bytes then None
  else Some (drop (N.to_nat (8 - pn_bytes)) (to_be_bytes 8 packet_number)).

Module LongHeader.

Record t := mk {
  ptype : LongPacketType;
  version : u32;
  dcid : list u8;
  scid : list u8;
  token : list u8;
  payload_len : u64;
  packet_number : u64;
  pn_bits : u32
}.

Definition header_byte (p : LongPacketType) : HeaderByte.t :=
  match p with
  | Initial => HeaderByte.LONG_INITIAL
  | Retry => HeaderByte.LONG_RETRY
  | Handshake => HeaderByte.LONG_HANDSHAKE
  | VersionNegotiation => HeaderByte.LONG_VERSION_NEGOTIATION
  end.

(** [None]: the code panics. *)
Definition encode (h : t) : option (Result HeaderError (list u8)) :=
  if (MAX_CONNECTION_ID_LEN <? len h.(dcid)) || (MAX_CONNECTION_ID_LEN <? len h.(scid))
  then Some (Err ConnectionIdTooLong)
  else if MAX_TOKEN_LEN <? len h.(token) then Some (Err TokenTooLong)
  else
    let out :=
      [HeaderByte.encode (header_byte h.(ptype))] ++ to_be_bytes 4 h.(version)
      ++ [as_u8 (len h.(dcid))] ++ h.(dcid) ++ [as_u8 (len h.(scid))] ++ h.(scid) in
    match Varint.encode_into out (len h.(token)) with
    | Err _ => Some (Err HeaderTruncated)
    | Ok out =>
        match Varint.encode_into (out ++ h.(token)) h.(payload_len) with
        | Err _ => Some (Err HeaderTruncated)
        | Ok out =>
            pn ← pn_suffix h.(packet_number) (h.(pn_bits) / 8);
            Some (Ok (out ++ pn))
        end
    end.

End LongHeader.

Module ShortHeader.

Record t := mk {
  space : ShortPacketSpace;
  dcid : list u8;
  path_id : u64;
  packet_number : u64;
  pn_bits : u32;
  key_phase : bool
}.

Definition header_byte (h : t) : HeaderByte.t :=
  let hb := space_header h.(space) in
  HeaderByte.mk hb.(HeaderByte.long) hb.(HeaderByte.kind) h.(key_phase) h.(pn_bits).

(** [None]: the code panics. *)
Definition encode (h : t) : option (Result HeaderError (list u8)) :=
  if MAX_CONNECTION_ID_LEN <? len h.(dcid) then Some (Err ConnectionIdTooLong)
  else
    match Varint.encode_into ([HeaderByte.encode (header_byte h)] ++ h.(dcid)) h.(path_id) with
    | Err _ => Some (Err HeaderTruncated)
    | Ok out =>
        pn ← pn_suffix h.(packet_number) (h.(pn_bits) / 8);
        Some (Ok (out ++ pn))
    end.

End ShortHeader.

(** ** Lemmas *)

Lemma header_byte_cases (h : HeaderByte.t) (P : HeaderByte.t -> Prop) :
  HeaderByte.valid h ->
  (forall l k p b, k ∈ [0; 1; 2; 3] -> b ∈ [8; 16; 32; 64] -> P (HeaderByte.mk l k p b)) -> P h.
Proof.
  destruct h as [l k p b]. intros [Hk Hb] H. simpl in *. apply H; [|done].
  assert (k = 0 \/ k = 1 \/ k = 2 \/ k = 3) as [-> | [-> | [-> | ->]]] by lia;
    rewrite !elem_of_cons; tauto.
Qed.

Lemma header_byte_decoded h :
  HeaderByte.valid h -> HeaderByte.decode (HeaderByte.encode h) = Ok h.
Proof.
  intros H. apply (header_byte_cases h); [done|]. intros l k p b Hk Hb.
  rewrite !elem_of_cons in Hk, Hb.
  destruct Hk as [-> | [-> | [-> | [-> | []%not_elem_of_nil]]]],
    Hb as [-> | [-> | [-> | [-> | []%not_elem_of_nil]]]], l, p; reflexivity.
Qed.

Lemma pn_suffix_len pn k bs : pn_suffix pn k = Some bs -> len bs = k.
Proof.
  unfold pn_suffix. destruct (N.ltb_spec 8 k); [done|]. intros <-%(inj Some).
  unfold len. rewrite length_drop. pose proof (len_to_be_bytes 8 pn) as Hl. unfold len in Hl. lia.
Qed.

Lemma pn_suffix_bytes pn k :
  k <= 8 -> pn_suffix pn k = Some (to_be_bytes (N.to_nat k) pn).
Proof.
  intros Hk. unfold pn_suffix. rewrite (proj2 (N.ltb_ge 8 k)) by done.
  replace (N.to_nat (8 - k)) with (8 - N.to_nat k)%nat by lia.
  by rewrite drop_to_be_bytes by lia.
Qed.

(** ** Properties *)

(** The header byte round-trips: every header byte of a two-bit kind and a
    wire packet-number width is decoded back from its encoding. *)
Theorem header_byte_roundtrip h :
  HeaderByte.valid h -> HeaderByte.decode (HeaderByte.encode h) = Ok h.
Proof. apply header_byte_decoded. Qed.

Lemma header_byte_roundtrip_witness :
  HeaderByte.decode (HeaderByte.encode (HeaderByte.mk false 2 true 32))
  = Ok (HeaderByte.mk false 2 true 32).
Proof.
  apply header_byte_roundtrip. split; [reflexivity|]. simpl. rewrite !elem_of_cons. tauto.
Defined.

Definition canonical_byte (b : u8) : bool :=
  match HeaderByte.decode b with
  | Ok h => (HeaderByte.encode h =? b) && (HeaderByte.kind h <? 4)
  | Err _ => negb (N.land b 3 =? 0)
  end.

(** The header byte is canonical: a byte decodes exactly when its two
    reserved bits are clear, and the decoded value encodes to that byte again,
    so no two bytes stand for one header. *)
Theorem header_byte_canonical b :
  b < 256 ->
  match HeaderByte.decode b with
  | Ok h => HeaderByte.encode h = b /\ HeaderByte.kind h < 4
  | Err e => e = ReservedBits /\ N.land b 3 <> 0
  end.
Proof.
  intros Hb. assert (H : canonical_byte b = true).
  { by apply (all_below_spec 256 canonical_byte). }
  unfold canonical_byte in H. destruct (HeaderByte.decode b) as [h|e] eqn:E; [lia|].
  split; [|lia]. unfold HeaderByte.decode in E. by case_match; simplify_eq.
Qed.

Lemma header_byte_canonical_witness :
  match HeaderByte.decode 0xB4 with
  | Ok h => HeaderByte.encode h = 0xB4 /\ HeaderByte.kind h < 4
  | Err e => e = ReservedBits /\ N.land 0xB4 3 <> 0
  end.
Proof. apply header_byte_canonical. reflexivity. Defined.

(** The layout of a short header with a wire packet-number width: the first
    byte decodes to the space, key phase and width of the header; then come the
    connection id, the canonical varint of the path id, and exactly the low
    [pn_bits] bits of the packet number, which is what reconstruction needs. *)
Theorem short_header_layout h bs :
  h.(ShortHeader.pn_bits) ∈ [8; 16; 32; 64] ->
  ShortHeader.encode h = Some (Ok bs) ->
  exists b pid pn, bs = b :: h.(ShortHeader.dcid) ++ pid ++ pn
    /\ HeaderByte.decode b = Ok (ShortHeader.header_byte h)
    /\ HeaderByte.short_space (ShortHeader.header_byte h) = Some h.(ShortHeader.space)
    /\ (forall rest, Varint.decode (pid ++ rest) = Ok (h.(ShortHeader.path_id), len pid))
    /\ 8 * len pn = h.(ShortHeader.pn_bits)
    /\ from_be_bytes pn = h.(ShortHeader.packet_number) mod 2 ^ h.(ShortHeader.pn_bits).
Proof.
  intros Hb. unfold ShortHeader.encode. case_match; [done|].
  destruct (Varint.encode_into _ _) as [out|] eqn:E; [|done].
  destruct (Varint.encode_into_decode _ _ _ E) as (pid & -> & Hd).
  assert (Hk : exists k, h.(ShortHeader.pn_bits) = 8 * N.of_nat k /\ (k <= 8)%nat).
  { rewrite !elem_of_cons in Hb.
    destruct Hb as [-> | [-> | [-> | [-> | []%not_elem_of_nil]]]];
      [exists 1%nat|exists 2%nat|exists 4%nat|exists 8%nat]; split; [done|lia..|done|lia|done|lia]. }
  destruct Hk as (k & Hk & Hk8).
  rewrite pn_suffix_bytes by lia. intros <-%(inj Some)%(inj Ok).
  exists (HeaderByte.encode (ShortHeader.header_byte h)), pid.
  exists (to_be_bytes k h.(ShortHeader.packet_number)). split_and!.
  - cbn [app]. rewrite <- app_assoc. do 4 f_equal. lia.
  - apply header_byte_decoded. split; [|done]. by destruct h as [[] ? ? ? ? ?].
  - by destruct h as [[] ? ? ? ? ?].
  - done.
  - rewrite len_to_be_bytes, Hk. done.
  - rewrite from_to_be_bytes_mod, Hk, N.pow_mul_r. done.
Qed.

Lemma short_header_layout_witness :
  exists b pid pn, [52; 1; 2; 3; 4; 5; 6; 7; 8; 9; 1; 44] = b :: [1; 2; 3; 4; 5; 6; 7; 8] ++ pid ++ pn
    /\ HeaderByte.decode b = Ok (HeaderByte.mk false 1 true 16)
    /\ HeaderByte.short_space (HeaderByte.mk false 1 true 16) = Some PathControl
    /\ (forall rest, Varint.decode (pid ++ rest) = Ok (9, len pid))
    /\ 8 * len pn = 16
    /\ from_be_bytes pn = 300 mod 2 ^ 16.
Proof.
  apply (short_header_layout
           (ShortHeader.mk PathControl [1; 2; 3; 4; 5; 6; 7; 8] 9 300 16 true));
    [|vm_compute; reflexivity].
  simpl. rewrite !elem_of_cons. tauto.
Defined.

(** The long header announces an 8-bit packet number whatever width it then
    writes: its first byte always decodes to [pn_bits = 8], while the packet
    number takes [pn_bits / 8] bytes. *)
Theorem long_header_announces_8_bits h bs :
  LongHeader.encode h = Some (Ok bs) ->
  exists b mid pn hb, bs = b :: mid ++ pn
    /\ HeaderByte.decode b = Ok hb /\ hb.(HeaderByte.pn_bits) = 8
    /\ HeaderByte.long_type hb = Some h.(LongHeader.ptype)
    /\ len pn = h.(LongHeader.pn_bits) / 8.
Proof.
  unfold LongHeader.encode. do 2 (case_match; [done|]).
  destruct (Varint.encode_into _ _) as [out|] eqn:E; [|done].
  destruct (Varint.encode_into_decode _ _ _ E) as (tl & -> & _). clear E.
  destruct (Varint.encode_into _ _) as [out|] eqn:E; [|done].
  destruct (Varint.encode_into_decode _ _ _ E) as (pl & -> & _). clear E.
  destruct (pn_suffix _ _) as [pn|] eqn:Hp; [|done]. apply pn_suffix_len in Hp.
  intros <-%(inj Some)%(inj Ok).
  eexists (HeaderByte.encode (LongHeader.header_byte h.(LongHeader.ptype))),
    ((_ ++ tl) ++ h.(LongHeader.token) ++ pl), pn,
    (LongHeader.header_byte h.(LongHeader.ptype)).
  split; [cbn [app]; rewrite !app_assoc; reflexivity|].
  by destruct h as [[] ? ? ? ? ? ? ?].
Qed.

Lemma long_header_announces_8_bits_witness :
  exists b mid pn hb,
    [192; 0; 0; 0; 1; 1; 7; 1; 8; 0; 5; 0; 0; 1; 44] = b :: mid ++ pn
    /\ HeaderByte.decode b = Ok hb /\ hb.(HeaderByte.pn_bits) = 8
    /\ HeaderByte.long_type hb = Some Handshake
    /\ len pn = 32 / 8.
Proof.
  apply (long_header_announces_8_bits (LongHeader.mk Handshake 1 [7] [8] [] 5 300 32)).
  vm_compute. reflexivity.
Defined.
