(* ===== verification/Packet.v ===== *)
(** * Packet contexts (crates/umc-wire/src/packet.rs)

    Which frames may appear in which kind of packet, and the entry point that
    parses a decrypted payload. *)

From S2P Require Import Prelude FrameTypes Varint Codec Frame FrameTheory Header.

Module PacketContext.

Inductive t :=
| Initial
| Handshake
| Protected (space : ShortPacketSpace).

End PacketContext.

Inductive PacketError :=
| TooLarge
| FrameErr (e : FrameError)
| ContextViolation (ty : FrameType.t).

Record ParsedPacket := { context : PacketContext.t; frames : list Frame.t }.

Definition is_protected (c : PacketContext.t) : bool :=
  match c with PacketContext.Protected _ => true | _ => false end.

Definition one_of (ty : FrameType.t) (l : list FrameType.t) : bool := existsb (N.eqb ty) l.

(** The arms of the match, in order. *)
Definition context_allows (context : PacketContext.t) (ty : FrameType.t) : bool :=
  one_of ty [FrameType.PADDING; FrameType.PING; FrameType.ACK; FrameType.CAPABILITIES]
  || negb (is_protected context) && one_of ty [FrameType.AUTH; FrameType.HANDSHAKE_DATA]
  || is_protected context
     && (one_of ty [FrameType.STREAM; FrameType.DATAGRAM]
         || one_of ty [FrameType.ROUTE_REQUEST; FrameType.ROUTE_RESPONSE; FrameType.ROUTE_ERROR]
         || one_of ty [FrameType.RELAY_OPEN; FrameType.RELAY_STATUS; FrameType.RELAY_DATA;
                       FrameType.RELAY_CLOSE]
         || one_of ty [FrameType.BUNDLE; FrameType.BUNDLE_ACK]
         || one_of ty [FrameType.PATH_CHALLENGE; FrameType.PATH_RESPONSE;
                       FrameType.PATH_STATUS; FrameType.MIGRATE]
         || one_of ty [FrameType.KEY_UPDATE]
         || one_of ty [FrameType.NEW_CONNECTION_ID; FrameType.RETIRE_CONNECTION_ID]
         || one_of ty [FrameType.PEER_HINT; FrameType.SERVICE_HINT; FrameType.DHT_LOOKUP;
                       FrameType.REVOCATION_BATCH]
         || one_of ty [FrameType.MAX_DATA; FrameType.MAX_STREAM_DATA; FrameType.MAX_STREAMS]
         || one_of ty [FrameType.RESET_STREAM; FrameType.STOP_SENDING]
         || one_of ty [FrameType.CONNECTION_CLOSE]
         || one_of ty [FrameType.SESSION_TICKET]).

Definition frame_type_of (frame : Frame.t) : FrameType.t :=
  match frame with
  | Frame.Padding => FrameType.PADDING
  | Frame.Ping => FrameType.PING
  | Frame.Ack _ => FrameType.ACK
  | Frame.ConnectionClose _ => FrameType.CONNECTION_CLOSE
  | Frame.Stream _ => FrameType.STREAM
  | Frame.ResetStream _ => FrameType.RESET_STREAM
  | Frame.StopSending _ => FrameType.STOP_SENDING
  | Frame.MaxData _ => FrameType.MAX_DATA
  | Frame.MaxStreamData _ => FrameType.MAX_STREAM_DATA
  | Frame.MaxStreams _ => FrameType.MAX_STREAMS
  | Frame.Datagram _ => FrameType.DATAGRAM
  | Frame.NewConnectionId _ => FrameType.NEW_CONNECTION_ID
  | Frame.RetireConnectionId _ => FrameType.RETIRE_CONNECTION_ID
  | Frame.PathChallenge _ => FrameType.PATH_CHALLENGE
  | Frame.PathResponse _ => FrameType.PATH_RESPONSE
  | Frame.PathStatus _ => FrameType.PATH_STATUS
  | Frame.Migrate _ => FrameType.MIGRATE
  | Frame.KeyUpdate _ => FrameType.KEY_UPDATE
  | Frame.RouteRequest _ => FrameType.ROUTE_REQUEST
  | Frame.RouteResponse _ => FrameType.ROUTE_RESPONSE
  | Frame.RouteError _ => FrameType.ROUTE_ERROR
  | Frame.RelayOpen _ => FrameType.RELAY_OPEN
  | Frame.RelayStatus _ => FrameType.RELAY_STATUS
  | Frame.RelayData _ => FrameType.RELAY_DATA
  | Frame.RelayClose _ => FrameType.RELAY_CLOSE
  | Frame.Bundle _ => FrameType.BUNDLE
  | Frame.BundleAck _ => FrameType.BUNDLE_ACK
  | Frame.PeerHint _ => FrameType.PEER_HINT
  | Frame.Capabilities _ => FrameType.CAPABILITIES
  | Frame.Auth _ => FrameType.AUTH
  | Frame.HandshakeData _ => FrameType.HANDSHAKE_DATA
  | Frame.SessionTicket _ => FrameType.SESSION_TICKET
  | Frame.ServiceHint _ => FrameType.SERVICE_HINT
  | Frame.DhtLookup _ => FrameType.DHT_LOOKUP
  | Frame.RevocationBatch _ => FrameType.REVOCATION_BATCH
  end.

Definition check_context (context : PacketContext.t) (frame : Frame.t) : Result PacketError unit :=
  let ty := frame_type_of frame in
  if context_allows context ty then Ok () else Err (ContextViolation ty).

(** [for f in &frames { check_context(context, f)?; }] *)
Fixpoint check_all (context : PacketContext.t) (fs : list Frame.t) : Result PacketError unit :=
  match fs with
  | [] => Ok ()
  | f :: fs => check_context context f;; check_all context fs
  end.

Definition parse_payload (context : PacketContext.t) (payload : list u8)
    : Result PacketError ParsedPacket :=
  if MAX_PACKET_SIZE <? len payload then Err TooLarge
  else
    frames ← map_err FrameErr (decode_frames payload);
    check_all context frames;;
    Ok {| context := context; frames := frames |}.

(** ** Lemmas *)

Lemma check_all_Ok c fs :
  check_all c fs = Ok () <-> Forall (fun f => context_allows c (frame_type_of f) = true) fs.
Proof.
  induction fs as [|f fs IH]; [done|]. rewrite Forall_cons_iff, <- IH. simpl. unfold check_context.
  destruct (context_allows c (frame_type_of f)); naive_solver.
Qed.

Lemma check_all_Err c fs e :
  check_all c fs = Err e ->
  exists pre f post, fs = pre ++ f :: post /\ e = ContextViolation (frame_type_of f)
    /\ context_allows c (frame_type_of f) = false
    /\ Forall (fun g => context_allows c (frame_type_of g) = true) pre.
Proof.
  induction fs as [|f fs IH]; [done|]. simpl. unfold check_context.
  destruct (context_allows c (frame_type_of f)) eqn:Hc.
  - intros (pre & g & post & -> & -> & Hg & Hpre)%IH. exists (f :: pre), g, post.
    split_and!; [done..|by constructor].
  - intros [= <-]. by exists [], f, fs.
Qed.

(** ** Properties *)

(** A payload is accepted exactly when it fits a packet, parses, and each of
    its frames is allowed in the packet's context; the frames returned are the
    parsed ones, in order. *)
Theorem parse_payload_accepts c payload pk :
  parse_payload c payload = Ok pk <->
  len payload <= MAX_PACKET_SIZE /\ pk.(context) = c /\ decode_frames payload = Ok pk.(frames)
  /\ Forall (fun f => context_allows c (frame_type_of f) = true) pk.(frames).
Proof.
  unfold parse_payload. destruct (N.ltb_spec MAX_PACKET_SIZE (len payload)); [split; [done|lia]|].
  destruct (decode_frames payload) as [fs|e]; cbn; [|naive_solver].
  destruct pk as [c' fs']. simpl. split.
  - intros ([] & Hc & [= -> ->])%bind_Ok. by apply check_all_Ok in Hc.
  - intros (_ & -> & [= ->] & Hc%check_all_Ok). by rewrite Hc.
Qed.

(** The refusals of [parse_payload]: an oversized payload, the frame error of
    the parser, or a violation naming the type of the first frame that the
    context does not allow. *)
Theorem parse_payload_refuses c payload e :
  parse_payload c payload = Err e ->
  match e with
  | TooLarge => MAX_PACKET_SIZE < len payload
  | FrameErr e => decode_frames payload = Err e
  | ContextViolation ty =>
      exists pre f post, decode_frames payload = Ok (pre ++ f :: post) /\ frame_type_of f = ty
        /\ context_allows c ty = false
        /\ Forall (fun g => context_allows c (frame_type_of g) = true) pre
  end.
Proof.
  unfold parse_payload. destruct (N.ltb_spec MAX_PACKET_SIZE (len payload)); [by intros [= <-]|].
  destruct (decode_frames payload) as [fs|e']; cbn; [|by intros [= <-]].
  destruct (check_all c fs) as [[]|e'] eqn:E; cbn; [done|]. intros [= <-].
  apply check_all_Err in E as (pre & f & post & -> & -> & ? & ?). by exists pre, f, post.
Qed.

Lemma parse_payload_refuses_witness :
  exists pre f post, decode_frames [4; 28; 9] = Ok (pre ++ f :: post) /\ frame_type_of f = 28
    /\ context_allows PacketContext.Initial 28 = false
    /\ Forall (fun g => context_allows PacketContext.Initial (frame_type_of g) = true) pre.
Proof. apply (parse_payload_refuses PacketContext.Initial [4; 28; 9] (ContextViolation 28)). reflexivity. Defined.

(** Before the handshake completes no packet carries application, routing,
    relay, path or connection-management traffic: an accepted Initial or
    Handshake payload holds only PADDING, PING, ACK, CAPABILITIES, AUTH and
    HANDSHAKE_DATA frames, and conversely no protected packet carries the two
    handshake kinds. *)
Theorem handshake_frames_separated c payload pk f :
  parse_payload c payload = Ok pk -> f ∈ pk.(frames) ->
  match f with
  | Frame.Padding | Frame.Ping | Frame.Ack _ | Frame.Capabilities _ => True
  | Frame.Auth _ | Frame.HandshakeData _ => is_protected c = false
  | _ => is_protected c = true
  end.
Proof.
  intros H Hf. unfold parse_payload in H. case_match; [done|].
  apply bind_Ok in H as (fs & _ & H). apply bind_Ok in H as ([] & Hc%check_all_Ok & [= <-]).
  rewrite list.Forall_forall in Hc. apply Hc in Hf. destruct c, f; done.
Qed.

Lemma handshake_frames_separated_witness : is_protected (PacketContext.Protected RelayData) = true.
Proof.
  refine (handshake_frames_separated (PacketContext.Protected RelayData) [28; 9]
    {| context := PacketContext.Protected RelayData; frames := [Frame.MaxData (FramesFlow.MaxDataFrame.mk 9)] |}
    (Frame.MaxData (FramesFlow.MaxDataFrame.mk 9)) _ _); [reflexivity|apply list_elem_of_here].
Defined.
