(* ===== verification/Crypto.v ===== *)
(** * Key derivation and packet protection (crates/umc-crypto)

    HMAC and HKDF over BLAKE2s (hkdf.rs, label.rs), packet keys and nonces
    (aead.rs), header protection (header_protection.rs), the key-update secret
    (key_update.rs) and the discard schedule (keys.rs).  The hash, the stream
    cipher and the AEAD come from other crates: they are the class [Primitives],
    and what the code relies on is the class [PrimitiveLaws]. *)

From Stdlib Require Import Strings.String Strings.Ascii.
From S2P Require Import Prelude.

Class Primitives := {
  (** [Blake2s256::digest] *)
  blake2s : list u8 -> list u8;
  (** [ChaCha20]: key, nonce, position to seek to, number of bytes *)
  keystream : list u8 -> list u8 -> u64 -> nat -> list u8;
  (** [ChaCha20Poly1305]: key, nonce, associated data, message *)
  aead_encrypt : list u8 -> list u8 -> list u8 -> list u8 -> option (list u8);
  aead_decrypt : list u8 -> list u8 -> list u8 -> list u8 -> option (list u8)
}.

Definition TAG_LEN : usize := 16.
Definition IV_LEN : usize := 12.
Definition MASK_LEN : usize := 5.
Definition SAMPLE_LEN : usize := 16.
Definition BLOCK_SIZE : usize := 64.

Class PrimitiveLaws `{Primitives} : Prop := {
  blake2s_len m : len (blake2s m) = 32;
  keystream_length k n pos c : length (keystream k n pos c) = c;
  aead_correct k n a m c : aead_encrypt k n a m = Some c -> aead_decrypt k n a c = Some m;
  aead_overhead k n a m c : aead_encrypt k n a m = Some c -> len c = len m + TAG_LEN
}.

(** [b"..."] *)
Definition bstr (s : string) : list u8 := map (fun c => N_of_ascii c) (list_ascii_of_string s).

Definition zeros (n : nat) : list u8 := replicate n 0.

(** XOR of a buffer with a mask, as far as the mask goes. *)
Fixpoint xor_zip (bs ms : list u8) : list u8 :=
  match bs, ms with
  | b :: bs, m :: ms => N.lxor b m :: xor_zip bs ms
  | bs, _ => bs
  end.

Inductive HkdfError :=
| LengthOutOfRange
| ContextTooLong.

Inductive AeadError :=
| InvalidKeyLength
| DecryptFailed.

Section Kdf.
Context `{Primitives}.

Definition hmac_blake2s (key data : list u8) : list u8 :=
  let key_block :=
    if BLOCK_SIZE <? len key then blake2s key ++ zeros 32
    else key ++ zeros (N.to_nat (BLOCK_SIZE - len key)) in
  let ipad := map (fun b => N.lxor b 0x36) key_block in
  let opad := map (fun b => N.lxor b 0x5c) key_block in
  blake2s (opad ++ blake2s (ipad ++ data)).

Definition extract (salt ikm : list u8) : list u8 := hmac_blake2s salt ikm.

(** [for counter in 1u8..=255], [turns] of which are left. *)
Fixpoint expand_loop (turns : nat) (counter : u8) (prk info : list u8) (length : usize)
    (t out : list u8) : list u8 :=
  match turns with
  | O => out
  | S turns =>
      let h := hmac_blake2s prk (t ++ info ++ [counter]) in
      let need := N.min (length - len out) 32 in
      let out := out ++ take (N.to_nat need) h in
      if len out =? length then out
      else expand_loop turns (counter + 1) prk info length h out
  end.

Definition expand (prk info : list u8) (length : usize) : Result HkdfError (list u8) :=
  if 255 * 32 <? length then Err LengthOutOfRange
  else Ok (expand_loop 255 1 prk info length [] []).

Definition LABEL_PREFIX : list u8 := bstr "ump v1 ".

(** The [info] of a label. *)
Definition label_info (label context : list u8) (length : usize) : list u8 :=
  to_be_bytes 2 length ++ LABEL_PREFIX ++ label ++ to_be_bytes 2 (len context) ++ context.

Definition expand_label (secret label context : list u8) (length : usize)
    : Result HkdfError (list u8) :=
  if 65535 <? length then Err LengthOutOfRange
  else if 65535 <? len context then Err ContextTooLong
  else expand secret (label_info label context length) length.

(** [None]: the [expect] panics. *)
Definition next_traffic_secret (current : list u8) : option (list u8) :=
  match expand_label current (bstr "traffic update") [] 32 with
  | Ok out => Some out
  | Err _ => None
  end.

Definition header_protection_key (traffic_secret : list u8) : list u8 :=
  match expand_label traffic_secret (bstr "header protection") [] 32 with
  | Ok expanded => expanded
  | Err _ => zeros 32
  end.

End Kdf.

Module PacketKeys.

Record t := mk { key : list u8; iv : list u8; hp_key : list u8 }.

Section Keys.
Context `{Primitives}.

Definition from_traffic_secret (secret : list u8) : Result AeadError t :=
  key ← map_err (fun _ => InvalidKeyLength) (expand_label secret (bstr "packet key") [] 32);
  iv ← map_err (fun _ => InvalidKeyLength) (expand_label secret (bstr "packet iv") [] IV_LEN);
  Ok (mk key iv (header_protection_key secret)).

(** The packet number is XORed into the last eight of the twelve bytes. *)
Definition nonce_for (keys : t) (packet_number : u64) : list u8 :=
  take 4 keys.(iv) ++ xor_zip (drop 4 keys.(iv)) (to_be_bytes 8 packet_number).

Definition seal (keys : t) (packet_number : u64) (aad plaintext : list u8)
    : Result AeadError (list u8) :=
  ok_or DecryptFailed (aead_encrypt keys.(key) (nonce_for keys packet_number) aad plaintext).

Definition open (keys : t) (packet_number : u64) (aad ciphertext : list u8)
    : Result AeadError (list u8) :=
  ok_or DecryptFailed (aead_decrypt keys.(key) (nonce_for keys packet_number) aad ciphertext).

End Keys.
End PacketKeys.

Section HeaderProtection.
Context `{Primitives}.

(** The sample, zero-padded: four bytes of little-endian block counter, twelve
    bytes of nonce. *)
Definition mask (header_protection_key packet_number_sample : list u8) : list u8 :=
  let sample := take 16 (packet_number_sample ++ zeros 16) in
  let counter := from_be_bytes (rev (take 4 sample)) in
  keystream header_protection_key (drop 4 sample) (counter * 64) (N.to_nat MASK_LEN).

Definition phase_mask (m : list u8) : u8 := N.land (default 0 (m !! 4%nat)) 0x10.

(** The packet number is masked in place: the model returns the protected first
    byte and the masked packet number.  The reserved [_key_phase_bit] and the
    mask handed back are not used by the callers. *)
Definition protect (header_protection_key : list u8) (first_byte : u8)
    (packet_number_sample packet_number : list u8) : u8 * list u8 :=
  let m := mask header_protection_key packet_number_sample in
  (N.lxor first_byte (phase_mask m), xor_zip packet_number m).

Definition unprotect (header_protection_key : list u8) (protected_first : u8)
    (packet_number_sample protected_pn : list u8) : u8 * bool * list u8 :=
  let m := mask header_protection_key packet_number_sample in
  let pn := xor_zip protected_pn m in
  let first := N.lxor protected_first (phase_mask m) in
  (first, negb (N.land first 0x10 =? 0), pn).

End HeaderProtection.

(** The discard schedule of Initial and Handshake keys (keys.rs). *)
Module KeyDiscardSchedule.

Record t := mk { initial_discarded : bool; handshake_discarded : bool }.

Definition default : t := mk false false.

Definition should_discard_initial (s : t) : bool := s.(initial_discarded).
Definition should_discard_handshake (s : t) : bool := s.(handshake_discarded).

Definition on_handshake_packet (s : t) : t := mk true s.(handshake_discarded).
Definition on_confirmation (s : t) : t := mk true true.

(** The states a node can be in, by the calls made so far. *)
Inductive reachable : t -> Prop :=
| reach_default : reachable default
| reach_handshake_packet s : reachable s -> reachable (on_handshake_packet s)
| reach_confirmation s : reachable s -> reachable (on_confirmation s).

End KeyDiscardSchedule.

(** ** Lemmas *)

Lemma xor_zip_length bs ms : length (xor_zip bs ms) = length bs.
Proof. revert ms. induction bs as [|b bs IH]; intros [|m ms]; simpl; [done..|]. by rewrite IH. Qed.

Lemma len_xor_zip bs ms : len (xor_zip bs ms) = len bs.
Proof. unfold len. by rewrite xor_zip_length. Qed.

Lemma xor_zip_involutive bs ms : xor_zip (xor_zip bs ms) ms = bs.
Proof.
  revert ms. induction bs as [|b bs IH]; intros [|m ms]; simpl; [done..|].
  by rewrite IH, N.lxor_assoc, N.lxor_nilpotent, N.lxor_0_r.
Qed.

Lemma xor_zip_inj_r bs ms ms' :
  length ms = length bs -> length ms' = length bs -> xor_zip bs ms = xor_zip bs ms' -> ms = ms'.
Proof.
  revert ms ms'. induction bs as [|b bs IH]; intros [|m ms] [|m' ms']; simpl; try done.
  intros [= H1] [= H2] [= Hx Hr]. f_equal; [|by apply IH].
  apply (f_equal (N.lxor b)) in Hx. by rewrite <- !N.lxor_assoc, N.lxor_nilpotent, !N.lxor_0_l in Hx.
Qed.

Lemma lxor_cancel a m : N.lxor (N.lxor a m) m = a.
Proof. by rewrite N.lxor_assoc, N.lxor_nilpotent, N.lxor_0_r. Qed.

Lemma to_be_bytes_inj n v w :
  v < 256 ^ N.of_nat n -> w < 256 ^ N.of_nat n -> to_be_bytes n v = to_be_bytes n w -> v = w.
Proof. intros Hv Hw E. rewrite <- (from_to_be_bytes n v), <- (from_to_be_bytes n w), E; done. Qed.

Section KdfLemmas.
Context `{Primitives, !PrimitiveLaws}.

Lemma hmac_len key data : len (hmac_blake2s key data) = 32.
Proof. apply blake2s_len. Qed.

(** What one turn appends. *)
Definition expand_block (prk input : list u8) (length : usize) (out : list u8) : list u8 :=
  out ++ take (N.to_nat (N.min (length - len out) 32)) (hmac_blake2s prk input).

Lemma expand_block_len prk input length out :
  len (expand_block prk input length out) = len out + N.min (length - len out) 32.
Proof.
  unfold expand_block. rewrite len_app. f_equal. pose proof (hmac_len prk input) as Hh.
  unfold len in *. rewrite length_take. lia.
Qed.

Lemma expand_loop_break turns counter prk info length t out :
  length = len out + N.min (length - len out) 32 ->
  len (expand_loop (S turns) counter prk info length t out) = length.
Proof.
  intros He. pose proof (expand_block_len prk (t ++ info ++ [counter]) length out) as Ho.
  cbn [expand_loop]. cbv zeta. fold (expand_block prk (t ++ info ++ [counter]) length out).
  rewrite (proj2 (N.eqb_eq _ _)) by lia. lia.
Qed.

Lemma expand_loop_next turns counter prk info length t out :
  length <> len out + N.min (length - len out) 32 ->
  expand_loop (S turns) counter prk info length t out =
  expand_loop turns (counter + 1) prk info length (hmac_blake2s prk (t ++ info ++ [counter]))
    (expand_block prk (t ++ info ++ [counter]) length out).
Proof.
  intros He. pose proof (expand_block_len prk (t ++ info ++ [counter]) length out) as Ho.
  cbn [expand_loop]. cbv zeta. fold (expand_block prk (t ++ info ++ [counter]) length out).
  by rewrite (proj2 (N.eqb_neq _ _)) by lia.
Qed.

Lemma expand_loop_len turns counter prk info length t out :
  len out < length \/ length = 0 /\ out = [] ->
  length <= len out + 32 * N.of_nat (S turns) ->
  len (expand_loop (S turns) counter prk info length t out) = length.
Proof.
  revert counter t out. induction turns as [|turns IH]; intros counter t out Hl Hb;
    destruct (decide (length = len out + N.min (length - len out) 32)) as [He|He].
  - by rewrite expand_loop_break.
  - exfalso. destruct Hl as [?|[-> ->]]; change (@len u8 []) with 0 in *; lia.
  - by rewrite expand_loop_break.
  - rewrite expand_loop_next by done.
    pose proof (expand_block_len prk (t ++ info ++ [counter]) length out) as Ho.
    apply IH; rewrite Ho; destruct Hl as [?|[-> ->]]; change (@len u8 []) with 0 in *; lia.
Qed.

Lemma expand_Ok prk info length :
  length <= 255 * 32 -> exists out, expand prk info length = Ok out /\ len out = length.
Proof.
  intros Hl. unfold expand. rewrite (proj2 (N.ltb_ge _ _)) by done. eexists. split; [done|].
  apply expand_loop_len; [|rewrite len_nil; lia].
  rewrite len_nil. destruct (decide (length = 0)); [by right|left; lia].
Qed.

Lemma expand_label_Ok secret label length :
  length <= 255 * 32 ->
  exists out, expand_label secret label [] length = Ok out /\ len out = length.
Proof.
  intros Hl. unfold expand_label. rewrite (proj2 (N.ltb_ge 65535 length)) by lia.
  change (65535 <? len []) with false. by apply expand_Ok.
Qed.

End KdfLemmas.

(** ** A concrete instance

    A stand-in for the primitives with the documented laws: a constant digest, a
    constant keystream, and an AEAD that appends a tag holding the nonce. *)
Definition toy_tag (nonce : list u8) : list u8 := take 16 (nonce ++ zeros 16).

#[global] Instance toy_primitives : Primitives := {|
  blake2s m := take 32 (m ++ zeros 32);
  keystream k n pos c := replicate c 0x9A;
  aead_encrypt k n a m := Some (m ++ toy_tag n);
  aead_decrypt k n a c :=
    let split := (length c - 16)%nat in
    if decide (drop split c = toy_tag n) then Some (take split c) else None
|}.

Lemma toy_tag_length n : length (toy_tag n) = 16%nat.
Proof. unfold toy_tag, zeros. rewrite length_take, length_app, length_replicate. lia. Qed.

#[global] Instance toy_laws : PrimitiveLaws.
Proof.
  split; simpl.
  - intros m. unfold len, zeros. rewrite length_take, length_app, length_replicate. lia.
  - intros. apply length_replicate.
  - intros _ n _ m c [= <-].
    replace (length (m ++ toy_tag n) - 16)%nat with (length m)
      by (rewrite length_app, toy_tag_length; lia).
    rewrite drop_app_length, take_app_length. by rewrite decide_True.
  - intros _ n _ m c [= <-]. rewrite len_app. unfold len at 2. by rewrite toy_tag_length.
Qed.

(** ** Properties *)

(** HKDF-Expand returns exactly as many bytes as asked for, for every length
    it accepts, and refuses a length over 255 blocks: the counter byte never
    runs out. *)
Theorem expand_length `{Primitives, !PrimitiveLaws} prk info length :
  match expand prk info length with
  | Ok out => length <= 255 * 32 /\ len out = length
  | Err e => e = LengthOutOfRange /\ 255 * 32 < length
  end.
Proof.
  destruct (N.le_gt_cases length (255 * 32)) as [Hl|Hl].
  - by destruct (expand_Ok prk info length Hl) as (out & -> & ?).
  - unfold expand. by rewrite (proj2 (N.ltb_lt _ _)).
Qed.

Lemma expand_length_witness :
  match expand (zeros 32) [1; 2] 42 with
  | Ok out => 42 <= 255 * 32 /\ len out = 42
  | Err e => e = LengthOutOfRange /\ 255 * 32 < 42
  end.
Proof. apply (@expand_length toy_primitives toy_laws). Defined.

(** Packet keys are always derived, with the sizes the ciphers take: a 32-byte
    key, a 12-byte IV and a 32-byte header-protection key; and the next traffic
    secret of a key update is always defined (its [expect] cannot panic). *)
Theorem keys_derived `{Primitives, !PrimitiveLaws} secret :
  (exists keys, PacketKeys.from_traffic_secret secret = Ok keys
     /\ len keys.(PacketKeys.key) = 32 /\ len keys.(PacketKeys.iv) = IV_LEN
     /\ len keys.(PacketKeys.hp_key) = 32)
  /\ exists next, next_traffic_secret secret = Some next /\ len next = 32.
Proof.
  unfold PacketKeys.from_traffic_secret, next_traffic_secret, header_protection_key.
  destruct (expand_label_Ok secret (bstr "packet key") 32) as (k & -> & Hk); [done|].
  destruct (expand_label_Ok secret (bstr "packet iv") IV_LEN) as (iv & -> & Hiv); [done|].
  destruct (expand_label_Ok secret (bstr "header protection") 32) as (hp & -> & Hhp); [done|].
  destruct (expand_label_Ok secret (bstr "traffic update") 32) as (n & -> & Hn); [done|].
  split; eauto.
Qed.

Lemma keys_derived_witness :
  (exists keys, PacketKeys.from_traffic_secret (zeros 32) = Ok keys
     /\ len keys.(PacketKeys.key) = 32 /\ len keys.(PacketKeys.iv) = IV_LEN
     /\ len keys.(PacketKeys.hp_key) = 32)
  /\ exists next, next_traffic_secret (zeros 32) = Some next /\ len next = 32.
Proof. apply (@keys_derived toy_primitives toy_laws). Defined.

Lemma nonce_for_inj keys pn pn' :
  len keys.(PacketKeys.iv) = IV_LEN -> pn <= u64_max -> pn' <= u64_max ->
  PacketKeys.nonce_for keys pn = PacketKeys.nonce_for keys pn' -> pn = pn'.
Proof.
  intros Hiv Hp Hp' E. unfold PacketKeys.nonce_for in E. apply app_inv_head in E.
  assert (Hl : length (drop 4 keys.(PacketKeys.iv)) = 8%nat).
  { rewrite length_drop. unfold len, IV_LEN in Hiv. lia. }
  assert (Hb : forall v, length (to_be_bytes 8 v) = 8%nat) by done.
  apply xor_zip_inj_r in E; [|by rewrite Hb, Hl..].
  unfold u64_max in *. apply (to_be_bytes_inj 8); [..|done]; change (256 ^ N.of_nat 8) with (2 ^ 64); lia.
Qed.

(** No nonce is used twice under one key: distinct 64-bit packet numbers give
    distinct nonces, for every 12-byte IV. *)
Theorem nonce_injective keys pn pn' :
  len keys.(PacketKeys.iv) = IV_LEN -> pn <= u64_max -> pn' <= u64_max ->
  PacketKeys.nonce_for keys pn = PacketKeys.nonce_for keys pn' -> pn = pn'.
Proof. apply nonce_for_inj. Qed.

Lemma nonce_injective_witness : 7 = 6 + 1.
Proof.
  apply (nonce_injective (PacketKeys.mk (zeros 32) (zeros 12) (zeros 32))); [done|discriminate|discriminate|].
  vm_compute. reflexivity.
Defined.

(** Removing header protection restores what was protected: the first byte,
    its key-phase bit and the packet-number bytes come back, with the same key
    and sample. *)
Theorem unprotect_protect `{Primitives} hp first sample pn :
  let '(pf, ppn) := protect hp first sample pn in
  unprotect hp pf sample ppn = (first, negb (N.land first 0x10 =? 0), pn)
  /\ len ppn = len pn.
Proof.
  unfold protect, unprotect. cbv zeta.
  by rewrite lxor_cancel, xor_zip_involutive, len_xor_zip.
Qed.

(** Labels are separated: with an empty context, two derivations of the same
    length hash the same [info] only if their labels are the same. *)
Theorem label_info_injective label label' length :
  label_info label [] length = label_info label' [] length -> label = label'.
Proof.
  unfold label_info. intros E. apply app_inv_head, app_inv_head in E. by apply app_inv_tail in E.
Qed.

Lemma label_info_injective_witness :
  label_info (bstr "packet key") [] 32 = label_info (bstr "packet key") [] 32 ->
  bstr "packet key" = bstr "packet key".
Proof. apply label_info_injective. Defined.

(** The discard schedule is ordered: in every reachable state the Handshake
    keys are discardable only if the Initial keys are, and no call clears a
    flag. *)
Theorem discard_ordered s :
  KeyDiscardSchedule.reachable s ->
  (KeyDiscardSchedule.should_discard_handshake s = true ->
   KeyDiscardSchedule.should_discard_initial s = true)
  /\ (KeyDiscardSchedule.should_discard_initial s = true ->
      KeyDiscardSchedule.should_discard_initial (KeyDiscardSchedule.on_handshake_packet s) = true
      /\ KeyDiscardSchedule.should_discard_initial (KeyDiscardSchedule.on_confirmation s) = true)
  /\ (KeyDiscardSchedule.should_discard_handshake s = true ->
      KeyDiscardSchedule.should_discard_handshake (KeyDiscardSchedule.on_handshake_packet s) = true).
Proof. intros H. split; [|done]. by induction H. Qed.

Lemma discard_ordered_witness :
  (KeyDiscardSchedule.should_discard_handshake (KeyDiscardSchedule.on_confirmation KeyDiscardSchedule.default) = true ->
   KeyDiscardSchedule.should_discard_initial (KeyDiscardSchedule.on_confirmation KeyDiscardSchedule.default) = true).
Proof. apply discard_ordered. repeat constructor. Defined.
