(* ===== verification/ProtectedPacket.v ===== *)
(** * Protected short-header packets (crates/umc-session/src/packet.rs)

    Sealing a payload under a short header with a 16-bit packet number, header
    protection over the result, and the inverse on the receiving side. *)

From S2P Require Import Prelude FrameTypes Varint Pn Header Crypto.

Definition DEFAULT_PATH_ID : u64 := 0.

Inductive PacketBuildError :=
| BuildHeader (e : HeaderError)
| BuildPn (e : PnError)
| BuildAead (e : AeadError)
| BuildTooLarge.

Definition peek_protected_header (bytes : list u8)
    : Result PacketBuildError (ShortPacketSpace * list u8 * u64) :=
  first ← ok_or BuildTooLarge (head bytes);
  hb ← map_err BuildHeader (HeaderByte.decode first);
  if hb.(HeaderByte.long) then Err (BuildHeader InvalidType)
  else
    space ← ok_or (BuildHeader InvalidSpace) (HeaderByte.short_space hb);
    dcid ← ok_or BuildTooLarge (get_range bytes 1 (1 + 8));
    rest ← ok_or BuildTooLarge (get_range bytes (1 + 8) (len bytes));
    '(path_id, _) ← map_err (fun _ => BuildTooLarge) (Varint.decode rest);
    Ok (space, dcid, path_id).

(** The unprotected header byte the builder writes: a 16-bit packet number. *)
Definition build_header_byte (space : ShortPacketSpace) (key_phase : bool) : HeaderByte.t :=
  let hb := space_header space in
  HeaderByte.mk hb.(HeaderByte.long) hb.(HeaderByte.kind) key_phase 16.

Section Protected.
Context `{Primitives}.

Definition build_protected_packet (keys : PacketKeys.t) (hp_key : list u8)
    (space : ShortPacketSpace) (dcid : list u8) (path_id packet_number : u64)
    (key_phase : bool) (payload : list u8) : Result PacketBuildError (list u8) :=
  if MAX_PACKET_SIZE <? len payload + 16 + 32 then Err BuildTooLarge
  else
    let hb := build_header_byte space key_phase in
    header ← map_err (fun _ => BuildTooLarge)
               (Varint.encode_into (HeaderByte.encode hb :: dcid) path_id);
    let pn_bytes := drop 6 (to_be_bytes 8 packet_number) in
    let aad := header ++ pn_bytes in
    ciphertext ← map_err BuildAead (PacketKeys.seal keys packet_number aad payload);
    sample ← ok_or BuildTooLarge (get_range ciphertext 0 SAMPLE_LEN);
    let '(protected_first, pn_bytes) :=
      protect hp_key (HeaderByte.encode hb) sample pn_bytes in
    let out := <[0%nat := protected_first]> header in
    Ok (out ++ pn_bytes ++ ciphertext).

(** [pn_full[8 - pn_len..].copy_from_slice(&unprotected_pn)]: the width field
    gives at most eight bytes, so the slice is in range. *)
Definition parse_protected_packet (keys : PacketKeys.t) (hp_key : list u8)
    (expected_pn : u64) (bytes : list u8)
    : Result PacketBuildError (ShortPacketSpace * list u8 * u64 * u64 * list u8) :=
  protected_first ← ok_or BuildTooLarge (head bytes);
  hb0 ← map_err BuildHeader (HeaderByte.decode protected_first);
  let pn_len := hb0.(HeaderByte.pn_bits) / 8 in
  dcid ← ok_or BuildTooLarge (get_range bytes 1 (1 + 8));
  '(path_id, n) ← map_err (fun _ => BuildTooLarge) (Varint.decode (from bytes (1 + 8)));
  let pos := 1 + 8 + n in
  pn_bytes ← ok_or BuildTooLarge (get_range bytes pos (pos + pn_len));
  sample ← ok_or BuildTooLarge
             (get_range bytes (pos + pn_len) (pos + pn_len + SAMPLE_LEN));
  let '(first, _, unprotected_pn) := unprotect hp_key protected_first sample pn_bytes in
  hb ← map_err BuildHeader (HeaderByte.decode first);
  if hb.(HeaderByte.long) then Err (BuildHeader InvalidType)
  else
    space ← ok_or (BuildHeader InvalidSpace) (HeaderByte.short_space hb);
    let truncated_pn := from_be_bytes unprotected_pn in
    pn ← map_err BuildPn (reconstruct truncated_pn hb.(HeaderByte.pn_bits) expected_pn);
    let aad := <[0%nat := first]> (take (N.to_nat pos) bytes) ++ unprotected_pn in
    payload ← map_err BuildAead (PacketKeys.open keys pn aad (from bytes (pos + pn_len)));
    Ok (space, dcid, path_id, pn, payload).

End Protected.

(** ** Lemmas *)

(** The mask touches the key-phase bit alone: form, space and packet-number width
    survive it. *)
Lemma phase_masked space ph m :
  exists ph', HeaderByte.decode
    (N.lxor (HeaderByte.encode (build_header_byte space ph)) (phase_mask m))
  = Ok (build_header_byte space ph').
Proof.
  unfold phase_mask. generalize (default 0 (m !! 4%nat)). intros x.
  assert (N.land x 16 = 0 \/ N.land x 16 = 16) as [-> | ->].
  { change 16 with (2 ^ 4). rewrite N.land_comm. destruct (N.testbit x 4) eqn:E; [right|left].
    - apply N.bits_inj. intros i. rewrite N.land_spec, N.pow2_bits_eqb.
      destruct (N.eqb_spec 4 i) as [<-|]; [by rewrite E|done].
    - apply N.bits_inj_0. intros i. rewrite N.land_spec, N.pow2_bits_eqb.
      destruct (N.eqb_spec 4 i) as [<-|]; [by rewrite E|done]. }
  - exists ph. by destruct space, ph.
  - exists (negb ph). by destruct space, ph.
Qed.

Section Roundtrip.
Context `{Primitives, !PrimitiveLaws}.

(** What a built packet consists of. *)
Lemma build_layout keys hp space dcid path_id pn ph payload bs :
  build_protected_packet keys hp space dcid path_id pn ph payload = Ok bs ->
  let first := HeaderByte.encode (build_header_byte space ph) in
  exists pid ct pf ppn,
    bs = [pf] ++ dcid ++ pid ++ ppn ++ ct
    /\ (forall rest, Varint.decode (pid ++ rest) = Ok (path_id, len pid))
    /\ PacketKeys.seal keys pn ((first :: dcid ++ pid) ++ to_be_bytes 2 pn) payload = Ok ct
    /\ protect hp first (take 16 ct) (to_be_bytes 2 pn) = (pf, ppn)
    /\ 16 <= len ct.
Proof.
  unfold build_protected_packet. case_match; [done|].
  intros (hd & Hh%map_err_Ok & Hb)%bind_Ok. cbv zeta in Hb.
  apply bind_Ok in Hb as (ct & Hs%map_err_Ok & Hb).
  apply bind_Ok in Hb as (sample & Hg%ok_or_Ok & Hb). cbv zeta.
  destruct (Varint.encode_into_decode _ _ _ Hh) as (pid & -> & Hd).
  apply get_range_Some in Hg as (_ & Hlen & _ & ->).
  change (drop 6 (to_be_bytes 8 pn)) with (to_be_bytes 2 pn) in *.
  destruct (protect _ _ _ _) as [pf ppn] eqn:Hp. injection Hb as <-.
  exists pid, ct, pf, ppn. split; [by rewrite <- (app_assoc dcid)|]. done.
Qed.

Lemma len_ppn hp first sample pn pf ppn :
  protect hp first sample (to_be_bytes 2 pn) = (pf, ppn) -> len ppn = 2.
Proof. unfold protect. intros E%(f_equal snd). cbn [snd] in E. by rewrite <- E, len_xor_zip. Qed.

Lemma get_range_at {A} (l k m : list A) lo hi :
  lo = len l -> hi = len l + len k -> get_range (l ++ k ++ m) lo hi = Some k.
Proof. intros -> ->. by apply get_range_app. Qed.

Lemma from_at {A} (l m : list A) lo : lo = len l -> from (l ++ m) lo = m.
Proof. intros ->. apply from_app_len. Qed.

Lemma get_range_sample (l ct : list u8) lo :
  lo = len l -> 16 <= len ct -> get_range (l ++ ct) lo (lo + SAMPLE_LEN) = Some (take 16 ct).
Proof.
  intros -> Hc. rewrite <- (take_drop 16 ct) at 1. apply get_range_at; [done|].
  unfold SAMPLE_LEN. f_equal. unfold len in *. rewrite length_take. lia.
Qed.

(** The parser on such a packet, up to the reconstruction of the number. *)
Lemma parse_layout keys hp space ph dcid path_id pn pid ct pf ppn e :
  let first := HeaderByte.encode (build_header_byte space ph) in
  len dcid = 8 ->
  (forall rest, Varint.decode (pid ++ rest) = Ok (path_id, len pid)) ->
  protect hp first (take 16 ct) (to_be_bytes 2 pn) = (pf, ppn) ->
  16 <= len ct ->
  parse_protected_packet keys hp e ([pf] ++ dcid ++ pid ++ ppn ++ ct) =
  (n ← map_err BuildPn (reconstruct (pn mod 2 ^ 16) 16 e);
   payload ← map_err BuildAead
     (PacketKeys.open keys n ((first :: dcid ++ pid) ++ to_be_bytes 2 pn) ct);
   Ok (space, dcid, path_id, n, payload)).
Proof.
  intros first Hd Hv Hp Hc. pose proof (len_ppn _ _ _ _ _ _ Hp) as Hl.
  apply pair_equal_spec in Hp as [Hpf Hppn]. unfold parse_protected_packet.
  cbn [app head ok_or]. unfold mbind at 1, Result_bind at 1.
  destruct (phase_masked space ph (mask hp (take 16 ct))) as [ph' Hph].
  fold first in Hph. rewrite <- Hpf in *. rewrite Hph. cbn [map_err].
  unfold mbind at 1, Result_bind at 1. cbv zeta.
  replace (HeaderByte.pn_bits (build_header_byte space ph') / 8) with 2 by done.
  set (pf0 := N.lxor first _) in *.
  change (pf0 :: dcid ++ pid ++ ppn ++ ct) with ([pf0] ++ dcid ++ pid ++ ppn ++ ct).
  rewrite get_range_at by (autorewrite with umc; lia). cbn [ok_or].
  unfold mbind at 1, Result_bind at 1.
  rewrite (app_assoc [pf0]), from_at by (autorewrite with umc; lia). rewrite Hv. cbn [map_err].
  unfold mbind at 1, Result_bind at 1. cbv beta iota zeta.
  rewrite (app_assoc _ pid), (get_range_at _ _ _ _ (1 + 8 + len pid + 2)) by (autorewrite with umc; lia). cbn [ok_or].
  unfold mbind at 1, Result_bind at 1.
  rewrite (app_assoc _ ppn), get_range_sample by (autorewrite with umc; lia). cbn [ok_or].
  unfold mbind at 1, Result_bind at 1. unfold unprotect. cbv zeta.
  assert (xor_zip ppn (mask hp (take 16 ct)) = to_be_bytes 2 pn) as ->
    by (rewrite <- Hppn; apply xor_zip_involutive).
  unfold pf0. rewrite lxor_cancel. unfold first. rewrite header_byte_decoded; last first.
  { split; [by destruct space|]. simpl. rewrite !elem_of_cons. tauto. }
  cbn [map_err]. unfold mbind at 1, Result_bind at 1.
  replace (HeaderByte.long (build_header_byte space ph)) with false by (by destruct space).
  replace (HeaderByte.short_space (build_header_byte space ph)) with (Some space)
    by (by destruct space).
  cbn [ok_or]. unfold mbind at 1, Result_bind at 1.
  rewrite from_to_be_bytes_mod. change (256 ^ N.of_nat 2) with (2 ^ 16).
  rewrite (from_at _ ct) by (autorewrite with umc; lia).
  rewrite <- (app_assoc _ ppn), take_app_length'; [done|].
  rewrite length_len. autorewrite with umc. lia.
Qed.

Lemma parse_built keys hp space dcid path_id pn ph payload e bs :
  len dcid = 8 -> e <= MAX_PACKET_NUMBER - 2 ^ 15 -> abs_diff pn e < 2 ^ 15 ->
  build_protected_packet keys hp space dcid path_id pn ph payload = Ok bs ->
  parse_protected_packet keys hp e bs = Ok (space, dcid, path_id, pn, payload).
Proof.
  intros Hd He Hn (pid & ct & pf & ppn & -> & Hv & Hs & Hp & Hc)%build_layout.
  rewrite (parse_layout _ _ space ph _ path_id pn) by done.
  rewrite reconstruct_within by first [done | lia]. cbn [map_err].
  unfold mbind, Result_bind. unfold PacketKeys.open, PacketKeys.seal in *.
  apply ok_or_Ok, aead_correct in Hs. by rewrite Hs.
Qed.

(** A packet built under some keys is read back by the holder of the same
    keys: space, connection id, path id, full packet number and payload all come
    back, for every packet number strictly within 2^15 of the one the receiver
    expects, although only its 16 low bits travel. *)
Theorem parse_build keys hp space dcid path_id pn ph payload e bs :
  len dcid = 8 -> e <= MAX_PACKET_NUMBER - 2 ^ 15 -> abs_diff pn e < 2 ^ 15 ->
  build_protected_packet keys hp space dcid path_id pn ph payload = Ok bs ->
  parse_protected_packet keys hp e bs = Ok (space, dcid, path_id, pn, payload).
Proof. apply parse_built. Qed.

(** A daemon that only peeks at a protected packet reads the space, connection
    id and path id its sender wrote, whatever the keys. *)
Theorem peek_build keys hp space dcid path_id pn ph payload bs :
  len dcid = 8 ->
  build_protected_packet keys hp space dcid path_id pn ph payload = Ok bs ->
  peek_protected_header bs = Ok (space, dcid, path_id).
Proof.
  intros Hd (pid & ct & pf & ppn & -> & Hv & _ & Hp & _)%build_layout.
  apply pair_equal_spec in Hp as [<- _]. unfold peek_protected_header. cbn [app head ok_or].
  unfold mbind at 1, Result_bind at 1.
  destruct (phase_masked space ph (mask hp (take 16 ct))) as [ph' ->].
  cbn [map_err]. unfold mbind at 1, Result_bind at 1.
  set (pf := N.lxor _ _). change (pf :: dcid ++ pid ++ ppn ++ ct) with ([pf] ++ dcid ++ pid ++ ppn ++ ct).
  replace (HeaderByte.long (build_header_byte space ph')) with false by (by destruct space).
  replace (HeaderByte.short_space (build_header_byte space ph')) with (Some space)
    by (by destruct space).
  rewrite (get_range_at _ _ _ _ (1 + 8)) by (autorewrite with umc; lia). cbn [ok_or].
  unfold mbind at 1 2, Result_bind at 1 2.
  rewrite (app_assoc [pf]), <- (app_nil_r (pid ++ ppn ++ ct)).
  rewrite get_range_at by (autorewrite with umc; lia). cbn [ok_or].
  unfold mbind at 1, Result_bind at 1. by rewrite Hv.
Qed.

End Roundtrip.

Definition sample_keys : PacketKeys.t := PacketKeys.mk (zeros 32) (zeros 12) (zeros 32).

Definition sample_packet : list u8 :=
  match build_protected_packet sample_keys (zeros 32) RelayData [1; 2; 3; 4; 5; 6; 7; 8] 0
          70000 true [42] with
  | Ok bs => bs
  | Err _ => []
  end.

Lemma parse_build_witness :
  parse_protected_packet sample_keys (zeros 32) 70001 sample_packet
  = Ok (RelayData, [1; 2; 3; 4; 5; 6; 7; 8], 0, 70000, [42]).
Proof.
  apply (parse_build _ _ RelayData [1; 2; 3; 4; 5; 6; 7; 8] 0 70000 true [42]);
    [reflexivity|vm_compute; discriminate|reflexivity|vm_compute; reflexivity].
Defined.

Lemma peek_build_witness :
  peek_protected_header sample_packet = Ok (RelayData, [1; 2; 3; 4; 5; 6; 7; 8], 0).
Proof.
  apply (peek_build sample_keys (zeros 32) RelayData [1; 2; 3; 4; 5; 6; 7; 8] 0 70000 true [42]);
    [reflexivity|vm_compute; reflexivity].
Defined.
