(* ===== verification/Spaces.v ===== *)
(** * Packet-number spaces and the replay window (crates/umc-session/src/spaces.rs)

    The window is a ring of bits indexed by the packet number modulo its size,
    with the largest number seen.  State changes are explicit: an operation
    returns its answer with the new state. *)

From S2P Require Import Prelude Pn.

Module PacketSpace.

Inductive t :=
| Initial
| Handshake
| SessionData
| PathControl
| RelayData.

End PacketSpace.

Definition DEFAULT_REPLAY_WINDOW : u64 := 4096.

Inductive SpaceError :=
| PacketNumberExhausted
| SpacePn (e : PnError)
| DuplicateOrStale.

Module ReplayWindow.

Record t := mk { size : u64; bits : list u8; largest : u64 }.

Definition new (size : u64) : t :=
  mk size (replicate (N.to_nat ((size + 7) / 8)) 0) 0.

Definition bit_get (w : t) (pn : u64) : bool :=
  let pos := pn mod w.(size) in
  N.land (N.shiftr (default 0 (w.(bits) !! N.to_nat (pos / 8))) (pos mod 8)) 1 =? 1.

Definition bit_set (w : t) (pn : u64) : t :=
  let pos := pn mod w.(size) in
  mk w.(size)
     (alter (fun b => N.lor b (N.shiftl 1 (pos mod 8))) (N.to_nat (pos / 8)) w.(bits))
     w.(largest).

Definition check_and_mark (w : t) (pn : u64) : bool * t :=
  if saturating_add pn w.(size) <=? w.(largest) then (false, w)
  else if (pn <=? w.(largest)) && bit_get w pn then (false, w)
  else
    let w :=
      if w.(largest) <? pn then mk w.(size) w.(bits) pn else w in
    (true, bit_set w pn).

(** The numbers a run of packets gets accepted, in order. *)
Fixpoint run (w : t) (pns : list u64) : list u64 * t :=
  match pns with
  | [] => ([], w)
  | pn :: pns =>
      let '(ok, w) := check_and_mark w pn in
      let '(acc, w) := run w pns in
      ((if ok then [pn] else []) ++ acc, w)
  end.

(** The ring has a bit for every residue. *)
Definition wf (w : t) : Prop := 0 < w.(size) /\ w.(size) <= 8 * len w.(bits).

End ReplayWindow.

Module PacketSpaceState.

Record t := mk {
  space : PacketSpace.t;
  next_packet_number : u64;
  largest_received : u64;
  replay : ReplayWindow.t
}.

Definition new (space : PacketSpace.t) : t :=
  mk space 0 0 (ReplayWindow.new DEFAULT_REPLAY_WINDOW).

Definition allocate_packet_number (s : t) : Result SpaceError (u64 * t) :=
  if MAX_PACKET_NUMBER <? s.(next_packet_number) then Err PacketNumberExhausted
  else Ok (s.(next_packet_number),
           mk s.(space) (s.(next_packet_number) + 1) s.(largest_received) s.(replay)).

(** A refused packet leaves the state as it is. *)
Definition admit_reconstructed (s : t) (pn : u64) : Result SpaceError (u64 * t) :=
  let '(ok, w) := ReplayWindow.check_and_mark s.(replay) pn in
  if negb ok then Err DuplicateOrStale
  else
    let largest := if s.(largest_received) <? pn then pn else s.(largest_received) in
    Ok (pn, mk s.(space) s.(next_packet_number) largest w).

Definition admit_received (s : t) (truncated : u64) (bits : u32) : Result SpaceError (u64 * t) :=
  let expected := saturating_add s.(largest_received) 1 in
  pn ← map_err SpacePn (reconstruct truncated bits expected);
  admit_reconstructed s pn.

(** The calls a session makes on a space, and what they hand out. *)
Inductive call :=
| Allocate
| Admit (truncated : u64) (bits : u32)
| AdmitFull (pn : u64).

Definition step (s : t) (c : call) : Result SpaceError (u64 * t) :=
  match c with
  | Allocate => allocate_packet_number s
  | Admit truncated bits => admit_received s truncated bits
  | AdmitFull pn => admit_reconstructed s pn
  end.

(** A run of calls: the numbers allocated and the numbers admitted. *)
Fixpoint run (s : t) (cs : list call) : list u64 * list u64 * t :=
  match cs with
  | [] => ([], [], s)
  | c :: cs =>
      match step s c with
      | Err _ => run s cs
      | Ok (pn, s) =>
          let '(sent, got, s) := run s cs in
          match c with
          | Allocate => (pn :: sent, got, s)
          | _ => (sent, pn :: got, s)
          end
      end
  end.

End PacketSpaceState.

(** ** Bits of the ring *)

Lemma land_shiftr_testbit b k : (N.land (N.shiftr b k) 1 =? 1) = N.testbit b k.
Proof.
  change 1 with (N.ones 1) at 1. rewrite N.land_ones, N.testbit_eqb.
  rewrite N.shiftr_div_pow2. done.
Qed.

Lemma bit_set_get w pn pn' :
  ReplayWindow.wf w ->
  ReplayWindow.bit_get (ReplayWindow.bit_set w pn) pn' =
  (pn mod w.(ReplayWindow.size) =? pn' mod w.(ReplayWindow.size)) || ReplayWindow.bit_get w pn'.
Proof.
  intros [Hs Hb]. unfold ReplayWindow.bit_get, ReplayWindow.bit_set. simpl.
  rewrite !land_shiftr_testbit.
  set (p := pn mod _). set (q := pn' mod _).
  assert (Hq : q < w.(ReplayWindow.size)) by (apply N.mod_lt; lia).
  assert (Hp : p < w.(ReplayWindow.size)) by (apply N.mod_lt; lia). clearbody p q.
  destruct (decide (p / 8 = q / 8)) as [He|He].
  - rewrite He, list_lookup_alter.
    destruct (lookup_lt_is_Some_2 w.(ReplayWindow.bits) (N.to_nat (q / 8))) as [b Hl];
      [unfold len in Hb; lia|].
    rewrite decide_True by done. rewrite Hl. cbn -[N.testbit N.lor N.shiftl]. rewrite N.lor_spec, N.shiftl_1_l, N.pow2_bits_eqb, orb_comm.
    f_equal. destruct (N.eqb_spec (p mod 8) (q mod 8)), (N.eqb_spec p q); lia.
  - rewrite list_lookup_alter, decide_False by lia.
    destruct (N.eqb_spec p q) as [->|]; [lia|done].
Qed.

Lemma wf_new size : 0 < size -> ReplayWindow.wf (ReplayWindow.new size).
Proof.
  intros Hs. split; [done|]. simpl. unfold len. rewrite length_replicate. lia.
Qed.

Lemma wf_bit_set w pn : ReplayWindow.wf w -> ReplayWindow.wf (ReplayWindow.bit_set w pn).
Proof. intros [H1 H2]. split; [done|]. simpl. unfold len in *. by rewrite length_alter. Qed.

Lemma new_get size pn : ReplayWindow.bit_get (ReplayWindow.new size) pn = false.
Proof.
  unfold ReplayWindow.bit_get. rewrite land_shiftr_testbit. simpl.
  destruct (replicate _ _ !! _) eqn:E; [|done]. apply lookup_replicate in E as [-> _]. done.
Qed.

Definition advance (w : ReplayWindow.t) (pn : u64) : ReplayWindow.t :=
  ReplayWindow.mk w.(ReplayWindow.size) w.(ReplayWindow.bits) (N.max w.(ReplayWindow.largest) pn).

(** The verdict, and the state after an acceptance. *)
Lemma check_and_mark_spec w pn :
  ReplayWindow.check_and_mark w pn =
  if (saturating_add pn w.(ReplayWindow.size) <=? w.(ReplayWindow.largest))
     || ((pn <=? w.(ReplayWindow.largest)) && ReplayWindow.bit_get w pn)
  then (false, w)
  else (true, ReplayWindow.bit_set (advance w pn) pn).
Proof.
  unfold ReplayWindow.check_and_mark, advance. repeat case_match; simpl in *; try done; try lia.
  - do 3 f_equal. lia.
  - destruct w. simpl in *. do 3 f_equal. lia.
Qed.

Lemma bit_get_advance w pn : ReplayWindow.bit_get (advance w pn) = ReplayWindow.bit_get w.
Proof. done. Qed.

Lemma wf_advance w pn : ReplayWindow.wf w -> ReplayWindow.wf (advance w pn).
Proof. done. Qed.

(** What an accepting call leaves behind. *)
Lemma check_and_mark_true w pn w' :
  ReplayWindow.wf w -> ReplayWindow.check_and_mark w pn = (true, w') ->
  ReplayWindow.wf w' /\ w'.(ReplayWindow.size) = w.(ReplayWindow.size)
  /\ w'.(ReplayWindow.largest) = N.max w.(ReplayWindow.largest) pn
  /\ forall x, ReplayWindow.bit_get w' x =
       (pn mod w.(ReplayWindow.size) =? x mod w.(ReplayWindow.size)) || ReplayWindow.bit_get w x.
Proof.
  intros Hw. rewrite check_and_mark_spec. case_match; [done|]. intros [= <-].
  split_and!; [by apply wf_bit_set, wf_advance|done..|].
  intros x. rewrite bit_set_get by (by apply wf_advance). by rewrite bit_get_advance.
Qed.

Lemma check_and_mark_false w pn w' :
  ReplayWindow.check_and_mark w pn = (false, w') -> w' = w.
Proof. rewrite check_and_mark_spec. by case_match; intros [= ->]. Qed.

(** [seen w acc]: every number of [acc] has been accepted by [w]. *)
Definition seen (w : ReplayWindow.t) (acc : list u64) : Prop :=
  ReplayWindow.wf w /\
  Forall (fun pn => pn <= w.(ReplayWindow.largest) /\ ReplayWindow.bit_get w pn = true) acc.

Lemma seen_refused w acc pn :
  seen w acc -> pn ∈ acc -> ReplayWindow.check_and_mark w pn = (false, w).
Proof.
  intros [_ Hs] Hp. rewrite list.Forall_forall in Hs. destruct (Hs _ Hp) as [Hl Hg].
  rewrite check_and_mark_spec, Hg, andb_true_r, (proj2 (N.leb_le _ _) Hl). by rewrite orb_true_r.
Qed.

Lemma seen_mark w acc pn ok w' :
  seen w acc -> ReplayWindow.check_and_mark w pn = (ok, w') ->
  seen w' ((if ok then [pn] else []) ++ acc).
Proof.
  intros [Hw Hs] E. destruct ok; [|by apply check_and_mark_false in E as ->].
  destruct (check_and_mark_true _ _ _ Hw E) as (Hw' & _ & Hl & Hg). split; [done|].
  constructor; [rewrite Hg, N.eqb_refl; split; [lia|done]|].
  eapply Forall_impl; [|exact Hs]. intros x [Hx Hgx]. rewrite Hg, Hgx, orb_true_r. split; [lia|done].
Qed.

Lemma run_accepted w acc pns out w' :
  seen w acc -> NoDup acc -> ReplayWindow.run w pns = (out, w') ->
  NoDup (out ++ acc) /\ seen w' (out ++ acc).
Proof.
  revert w acc out w'. induction pns as [|pn pns IH]; intros w acc out w' Hs Hn E; simpl in E.
  - by injection E as <- <-.
  - destruct (ReplayWindow.check_and_mark w pn) as [ok w1] eqn:E1.
    destruct (ReplayWindow.run w1 pns) as [out1 w2] eqn:E2. injection E as <- <-.
    pose proof (seen_mark _ _ _ _ _ Hs E1) as Hs1.
    destruct ok; [|by eapply IH].
    assert (Hn1 : NoDup (pn :: acc)).
    { apply list.NoDup_cons. split; [|done]. intros Hp. by rewrite (seen_refused _ _ _ Hs Hp) in E1. }
    destruct (IH _ _ _ _ Hs1 Hn1 E2) as [H1 H2]. simpl.
    assert (Hp : Permutation (out1 ++ pn :: acc) (pn :: out1 ++ acc)) by (symmetry; apply Permutation_middle).
    split; [by rewrite <- Hp|]. destruct H2 as [Hw H2]. split; [done|]. by rewrite <- Hp.
Qed.

(** ** Runs of a packet-number space *)

Definition space_ok (s : PacketSpaceState.t) (sent got : list u64) : Prop :=
  seen s.(PacketSpaceState.replay) got
  /\ Forall (fun pn => pn < s.(PacketSpaceState.next_packet_number)) sent
  /\ s.(PacketSpaceState.next_packet_number) <= MAX_PACKET_NUMBER + 1.

Lemma admit_reconstructed_ok s sent got pn q s' :
  space_ok s sent got -> PacketSpaceState.admit_reconstructed s pn = Ok (q, s') ->
  q = pn /\ q ∉ got /\ space_ok s' sent (q :: got).
Proof.
  intros (Hs & Ha & Hn). unfold PacketSpaceState.admit_reconstructed.
  destruct (ReplayWindow.check_and_mark _ pn) as [ok w] eqn:E.
  destruct ok; simpl; [|done]. intros [= <- <-]. split; [done|]. split.
  - intros Hp. by rewrite (seen_refused _ _ _ Hs Hp) in E.
  - split; [|done]. by apply (seen_mark _ _ _ _ _ Hs E).
Qed.

Lemma step_admits s sent got c q s' :
  space_ok s sent got -> PacketSpaceState.step s c = Ok (q, s') ->
  match c with
  | PacketSpaceState.Allocate => Forall (fun pn => pn < q) sent /\ space_ok s' (q :: sent) got
  | _ => q ∉ got /\ space_ok s' sent (q :: got)
  end.
Proof.
  intros Hk. destruct c as [|t b|pn]; simpl.
  - destruct Hk as (Hs & Ha & Hn). unfold PacketSpaceState.allocate_packet_number.
    destruct (N.ltb_spec MAX_PACKET_NUMBER s.(PacketSpaceState.next_packet_number)); [done|].
    intros [= <- <-]. split; [done|]. split_and!; simpl; [done| |lia].
    constructor; [lia|]. eapply Forall_impl; [|exact Ha]. simpl. lia.
  - unfold PacketSpaceState.admit_received. intros (pn & _ & E)%bind_Ok.
    by apply (admit_reconstructed_ok _ _ _ _ _ _ Hk) in E as (-> & ? & ?).
  - intros E. by apply (admit_reconstructed_ok _ _ _ _ _ _ Hk) in E as (-> & ? & ?).
Qed.

Lemma space_run_ok s sent got cs a b s' :
  space_ok s sent got -> NoDup sent -> NoDup got -> PacketSpaceState.run s cs = (a, b, s') ->
  NoDup (a ++ sent) /\ NoDup (b ++ got).
Proof.
  revert s sent got a b s'. induction cs as [|c cs IH]; intros s sent got a b s' Hk Hs Hg E; simpl in E.
  - by injection E as <- <- <-.
  - destruct (PacketSpaceState.step s c) as [[q s1]|e] eqn:Es; [|by eapply IH].
    pose proof (step_admits _ _ _ _ _ _ Hk Es) as Hq.
    destruct (PacketSpaceState.run s1 cs) as [[a1 b1] s2] eqn:Er.
    destruct c; injection E as <- <- <-; destruct Hq as [Hq Hk1].
    + assert (Hn : NoDup (q :: sent)).
      { apply list.NoDup_cons. split; [|done]. intros Hin. rewrite list.Forall_forall in Hq.
        apply Hq in Hin. lia. }
      destruct (IH _ _ _ _ _ _ Hk1 Hn Hg Er) as [H1 H2]. split; [|done].
      simpl. by rewrite Permutation_middle.
    + assert (Hn : NoDup (q :: got)) by (by apply list.NoDup_cons).
      destruct (IH _ _ _ _ _ _ Hk1 Hs Hn Er) as [H1 H2]. split; [done|].
      simpl. by rewrite Permutation_middle.
    + assert (Hn : NoDup (q :: got)) by (by apply list.NoDup_cons).
      destruct (IH _ _ _ _ _ _ Hk1 Hs Hn Er) as [H1 H2]. split; [done|].
      simpl. by rewrite Permutation_middle.
Qed.

(** ** The first turn of the ring

    Until a number reaches the size, slots and numbers correspond one to one. *)
Definition first_turn (size : u64) (w : ReplayWindow.t) (acc : list u64) : Prop :=
  ReplayWindow.wf w /\ w.(ReplayWindow.size) = size /\ w.(ReplayWindow.largest) < size
  /\ Forall (fun x => x <= w.(ReplayWindow.largest)) acc
  /\ forall x, x < size -> ReplayWindow.bit_get w x = bool_decide (x ∈ acc).

Lemma first_turn_verdict size w acc pn :
  size <= u64_max -> pn < size -> first_turn size w acc ->
  (ReplayWindow.check_and_mark w pn).1 = bool_decide (pn ∉ acc).
Proof.
  intros Hm Hp (Hw & Hz & Hl & Hacc & Hg). rewrite check_and_mark_spec, Hg, Hz by done.
  unfold saturating_add. rewrite (proj2 (N.leb_gt (N.min _ _) _)) by lia. cbn [orb].
  destruct (decide (pn ∈ acc)) as [Hin|Hin].
  - rewrite (bool_decide_eq_true_2 _ Hin). rewrite list.Forall_forall in Hacc.
    rewrite (proj2 (N.leb_le pn _)) by auto. simpl. symmetry. by apply bool_decide_eq_false_2; intros [].
  - rewrite (bool_decide_eq_false_2 _ Hin), andb_false_r. simpl. symmetry. by apply bool_decide_eq_true.
Qed.

Lemma first_turn_mark size w acc pn :
  size <= u64_max -> pn < size -> first_turn size w acc ->
  first_turn size (ReplayWindow.check_and_mark w pn).2 (pn :: acc).
Proof.
  intros Hm Hp Ht. pose proof (first_turn_verdict _ _ _ _ Hm Hp Ht) as Hv.
  destruct (ReplayWindow.check_and_mark w pn) as [ok w'] eqn:E. simpl in *. subst ok.
  destruct Ht as (Hw & Hz & Hl & Hacc & Hg). destruct (decide (pn ∈ acc)) as [Hin|Hin].
  - rewrite bool_decide_eq_false_2 in E by tauto. apply check_and_mark_false in E as ->.
    split_and!; [done..| |].
    + constructor; [|done]. rewrite list.Forall_forall in Hacc. by apply Hacc.
    + intros x Hx. rewrite Hg by done. apply bool_decide_ext. rewrite elem_of_cons. naive_solver.
  - rewrite bool_decide_eq_true_2 in E by done.
    destruct (check_and_mark_true _ _ _ Hw E) as (Hw' & Hz' & Hl' & Hg').
    split_and!; [done|congruence|lia| |].
    + constructor; [lia|]. eapply Forall_impl; [|exact Hacc]. simpl. lia.
    + intros x Hx. rewrite Hg', Hg, Hz, !N.mod_small by done.
      rewrite (bool_decide_ext _ _ (elem_of_cons acc x pn)).
      destruct (N.eqb_spec pn x); repeat case_bool_decide; naive_solver.
Qed.

Lemma first_turn_run size pns acc w out w' :
  size <= u64_max -> Forall (fun x => x < size) pns -> first_turn size w acc ->
  ReplayWindow.run w pns = (out, w') -> first_turn size w' (reverse pns ++ acc).
Proof.
  intros Hm Hall. revert acc w out w'. induction Hall as [|pn pns Hp Hall IH]; intros acc w out w' Ht E.
  - by injection E as <- <-.
  - simpl in E. pose proof (first_turn_mark _ _ _ _ Hm Hp Ht) as Ht'.
    destruct (ReplayWindow.check_and_mark w pn) as [ok w1].
    destruct (ReplayWindow.run w1 pns) as [out1 w2] eqn:E2. injection E as <- <-.
    rewrite reverse_cons, <- app_assoc. by eapply IH.
Qed.

(** ** Properties *)

(** Replay protection: whatever calls a session makes on a packet-number
    space, in any order and with any truncations, no packet number is admitted
    twice, and no packet number is allocated twice. *)
Theorem packet_space_no_replay space cs sent got s :
  PacketSpaceState.run (PacketSpaceState.new space) cs = (sent, got, s) ->
  NoDup sent /\ NoDup got.
Proof.
  intros E. rewrite <- (app_nil_r sent), <- (app_nil_r got).
  eapply space_run_ok; [|constructor..|exact E].
  split; [|split; [constructor|done]]. split; [|constructor]. by apply wf_new.
Qed.

Lemma packet_space_no_replay_witness : NoDup [0; 1] /\ NoDup [1; 9; 3].
Proof.
  eapply (packet_space_no_replay PacketSpace.SessionData
    [PacketSpaceState.Allocate; PacketSpaceState.AdmitFull 1; PacketSpaceState.Admit 1 8;
     PacketSpaceState.Admit 9 8; PacketSpaceState.Allocate; PacketSpaceState.AdmitFull 3;
     PacketSpaceState.AdmitFull 9]).
  vm_compute. reflexivity.
Defined.

(** The window slides: a number above everything seen is always admitted, and
    one that is a whole window or more below the largest seen never is. *)
Theorem replay_window_slides w pn :
  ReplayWindow.wf w -> w.(ReplayWindow.largest) < u64_max ->
  (w.(ReplayWindow.largest) < pn -> (ReplayWindow.check_and_mark w pn).1 = true)
  /\ (pn + w.(ReplayWindow.size) <= w.(ReplayWindow.largest) ->
      ReplayWindow.check_and_mark w pn = (false, w)).
Proof.
  intros [Hs _] Hl. rewrite check_and_mark_spec. unfold saturating_add. split; intros Hp.
  - rewrite (proj2 (N.leb_gt (N.min _ _) _)), (proj2 (N.leb_gt pn _)) by lia. done.
  - by rewrite (proj2 (N.leb_le (N.min _ _) _)) by lia.
Qed.

Lemma replay_window_slides_witness :
  (ReplayWindow.check_and_mark (ReplayWindow.mk 8 [255] 20) 21).1 = true.
Proof. apply replay_window_slides; [split; vm_compute; intuition discriminate|reflexivity..]. Defined.

(** While no number reaches the window size the window is exact: after any
    run from a new window, a number is admitted exactly when it has not occurred
    before. *)
Theorem replay_exact_first_turn size pns out w pn :
  0 < size -> size <= u64_max -> pn < size -> Forall (fun x => x < size) pns ->
  ReplayWindow.run (ReplayWindow.new size) pns = (out, w) ->
  ((ReplayWindow.check_and_mark w pn).1 = true <-> pn ∉ pns).
Proof.
  intros Hs Hm Hpn Hall E.
  assert (H0 : first_turn size (ReplayWindow.new size) []).
  { split_and!; [by apply wf_new|done..|]. intros x _. by rewrite new_get. }
  pose proof (first_turn_run size pns [] _ _ _ Hm Hall H0 E) as Ht.
  rewrite (first_turn_verdict size w _ pn Hm Hpn Ht).
  by rewrite app_nil_r, bool_decide_eq_true, elem_of_reverse.
Qed.

Lemma replay_exact_first_turn_witness :
  (ReplayWindow.check_and_mark (ReplayWindow.run (ReplayWindow.new 16) [9; 2; 9; 4]).2 3).1 = true
  <-> 3 ∉ [9; 2; 9; 4].
Proof.
  eapply (replay_exact_first_turn 16 [9; 2; 9; 4] _ _ 3);
    [reflexivity|discriminate|reflexivity| |apply surjective_pairing].
  repeat constructor.
Defined.

(** Beyond the first turn the window is not exact: bits are never cleared when
    it advances, so once [a] and then some [b] more than a window above [a] have
    been admitted, [a + size] is refused although it was never received and lies
    within the window. *)
Theorem replay_stale_bit w a b w' :
  ReplayWindow.wf w -> ReplayWindow.bit_get w a = true -> a <= w.(ReplayWindow.largest) ->
  a + w.(ReplayWindow.size) < b -> b < a + 2 * w.(ReplayWindow.size) ->
  ReplayWindow.check_and_mark w b = (true, w') ->
  b < a + w.(ReplayWindow.size) + w'.(ReplayWindow.size)
  /\ ReplayWindow.check_and_mark w' (a + w.(ReplayWindow.size)) = (false, w').
Proof.
  intros Hw Hg Ha Hab Hb E. destruct (check_and_mark_true _ _ _ Hw E) as (Hw' & Hz & Hl & Hx).
  split; [lia|]. rewrite check_and_mark_spec, Hx.
  assert (ReplayWindow.bit_get w (a + w.(ReplayWindow.size)) = true) as ->.
  { unfold ReplayWindow.bit_get in *. by rewrite mod_add_self. }
  rewrite orb_true_r, andb_true_r, (proj2 (N.leb_le (a + _) w'.(ReplayWindow.largest))) by lia.
  by rewrite orb_true_r.
Qed.

Lemma replay_stale_bit_witness :
  let w := (ReplayWindow.run (ReplayWindow.new 16) [0; 1; 2]).2 in
  let w' := (ReplayWindow.check_and_mark w 19).2 in
  19 < 2 + 16 + 16 /\ ReplayWindow.check_and_mark w' 18 = (false, w').
Proof.
  intros w w'. apply (replay_stale_bit w 2 19 w'); try reflexivity;
    vm_compute; intuition discriminate.
Defined.
