(* ===== verification/SentPackets.v ===== *)
(** * Instants and sent packets (crates/umc-types/src/runtime.rs,
      crates/umc-session/src/sent_packet.rs) *)

From S2P Require Import Prelude Spaces.

(** [Instant] and [Duration] count milliseconds on [u64]. *)
Abbreviation Instant := u64 (only parsing).
Abbreviation Duration := u64 (only parsing).

Definition instant_add (i : Instant) (d : Duration) : Instant := saturating_add i d.
Definition duration_since (i earlier : Instant) : Duration := saturating_sub i earlier.

Module SentPacket.

Record t := mk {
  packet_number : u64;
  space : PacketSpace.t;
  sent_at : Instant;
  size : usize;
  ack_eliciting : bool;
  in_flight : bool;
  key_phase : u8
}.

Definition new (packet_number : u64) (space : PacketSpace.t) (sent_at : Instant) (size : usize)
    (ack_eliciting : bool) (key_phase : u8) : t :=
  mk packet_number space sent_at size ack_eliciting ack_eliciting key_phase.

Definition mark_acked (p : t) : t :=
  mk p.(packet_number) p.(space) p.(sent_at) p.(size) p.(ack_eliciting) false p.(key_phase).

End SentPacket.
