(* ===== verification/Ack.v ===== *)
(** * Acknowledgements (crates/umc-session/src/ack.rs)

    The receiver keeps the packet numbers it saw as ascending ranges and writes
    them into ACK frames; the sender checks an ACK against what it sent. *)

From S2P Require Import Prelude Spaces SentPackets.

Definition MAX_STORED_RANGES : usize := 256.
Definition DEFAULT_MAX_ACK_DELAY_MS : u64 := 25.
Definition MAX_OUTSTANDING_PACKETS : usize := 16384.

(** [(low, high)], inclusive. *)
Abbreviation range := (u64 * u64)%type (only parsing).

(** [self.ranges[i]], every use of which is guarded by a test of [i]. *)
Definition range_at (ranges : list range) (i : nat) : range := default (0, 0) (ranges !! i).

Module AckReceiveState.

Record t := mk { ranges : list range; largest : option u64; needs_ack : bool }.

Definition new : t := mk [] None false.

(** [while i < self.ranges.len() && self.ranges[i].1 < packet_number { i += 1 }] *)
Fixpoint scan (ranges : list range) (packet_number : u64) : nat :=
  match ranges with
  | (_, high) :: ranges => if high <? packet_number then S (scan ranges packet_number) else O
  | [] => O
  end.

Definition merge_left (ranges : list range) (i : nat) : list range :=
  if bool_decide (0 < i)%nat
     && ((range_at ranges i).1 <=? (range_at ranges (i - 1)).2 + 1)
  then
    let lo := (range_at ranges (i - 1)).1 in
    let hi := N.max (range_at ranges i).2 (range_at ranges (i - 1)).2 in
    <[(i - 1)%nat := (lo, hi)]> (delete i ranges)
  else ranges.

Definition merge_right (ranges : list range) (i : nat) : list range :=
  if bool_decide (i + 1 < length ranges)%nat
     && ((range_at ranges (i + 1)).1 <=? (range_at ranges i).2 + 1)
  then
    let lo := (range_at ranges i).1 in
    let hi := (range_at ranges (i + 1)).2 in
    <[i := (lo, hi)]> (delete i ranges)
  else ranges.

(** [while self.ranges.len() > MAX_STORED_RANGES { self.ranges.pop_front(); }] *)
Fixpoint prune (ranges : list range) : list range :=
  match ranges with
  | [] => []
  | _ :: rest => if MAX_STORED_RANGES <? len ranges then prune rest else ranges
  end.

Definition is_duplicate (ranges : list range) (i : nat) (packet_number : u64) : bool :=
  bool_decide (i < length ranges)%nat
  && ((range_at ranges i).1 <=? packet_number) && (packet_number <=? (range_at ranges i).2).

(** Insertion of a number at its place, and the two merges. *)
Definition insert_number (ranges : list range) (i : nat) (packet_number : u64) : list range :=
  let ranges := take i ranges ++ (packet_number, packet_number) :: drop i ranges in
  merge_right (merge_left ranges i) i.

Definition record (s : t) (packet_number : u64) : t :=
  let largest :=
    if match s.(largest) with Some largest => largest <? packet_number | None => true end
    then Some packet_number else s.(largest) in
  let i := scan s.(ranges) packet_number in
  if is_duplicate s.(ranges) i packet_number then mk s.(ranges) largest true
  else mk (prune (insert_number s.(ranges) i packet_number)) largest true.

Definition take_needs_ack (s : t) : bool * t :=
  (s.(needs_ack), mk s.(ranges) s.(largest) false).

(** [for &(low, high) in self.ranges.iter().rev().skip(1)] *)
Fixpoint gaps (prev_low : u64) (rest : list range) : list (u64 * u64) :=
  match rest with
  | [] => []
  | (low, high) :: rest =>
      (saturating_sub prev_low (high + 1), high - low + 1) :: gaps low rest
  end.

(** [(largest, ack_delay, first_range_len, [(gap, len)...])] *)
Definition build_ack (s : t) (ack_delay_ms : u64)
    : option (u64 * u64 * u64 * list (u64 * u64)) :=
  largest ← s.(largest);
  match rev s.(ranges) with
  | [] => None
  | highest :: rest =>
      Some (largest, ack_delay_ms, largest - highest.1 + 1, gaps highest.1 rest)
  end.

End AckReceiveState.

Inductive AckError :=
| AcknowledgesUnsent
| EmptyRange.

Module AckSendState.

Record t := mk { sent : list SentPacket.t }.

Definition new : t := mk [].

Definition record_sent (s : t) (p : SentPacket.t) : option (u64 * usize) * t :=
  if MAX_OUTSTANDING_PACKETS <=? len s.(sent) then
    match s.(sent) with
    | oldest :: rest =>
        ((if oldest.(SentPacket.ack_eliciting)
          then Some (oldest.(SentPacket.packet_number), oldest.(SentPacket.size)) else None),
         mk (rest ++ [p]))
    | [] => (None, mk [p])
    end
  else (None, mk (s.(sent) ++ [p])).

(** The walk down the additional ranges. *)
Fixpoint in_extra (cursor pn : u64) (ranges : list (u64 * u64)) : bool :=
  match ranges with
  | [] => false
  | (gap, length) :: ranges =>
      if cursor =? 0 then false
      else
        let cursor := saturating_sub cursor gap in
        if (saturating_sub cursor (length - 1) <=? pn) && (pn <=? cursor) then true
        else in_extra (saturating_sub cursor length) pn ranges
  end.

Definition in_range (largest pn first_len : u64) (ranges : list (u64 * u64)) : bool :=
  if (saturating_sub largest (first_len - 1) <=? pn) && (pn <=? largest) then true
  else in_extra (saturating_sub largest first_len) pn ranges.

(** [for mut p in self.sent.drain(..)]: acknowledged numbers and kept packets. *)
Fixpoint partition_acked (acked : u64 -> bool) (sent : list SentPacket.t)
    : list u64 * list SentPacket.t :=
  match sent with
  | [] => ([], [])
  | p :: sent =>
      let '(out, keep) := partition_acked acked sent in
      if acked p.(SentPacket.packet_number)
      then (p.(SentPacket.packet_number) :: out, keep)
      else (out, p :: keep)
  end.

(** The first entry of [ranges] carries the first length in its first field; the
    others are gaps and lengths. *)
Definition apply_ack (s : t) (largest : u64) (ranges : list (u64 * u64))
    : Result AckError (list u64 * t) :=
  let first_len := match ranges with [] => 0 | r :: _ => r.1 end in
  if first_len =? 0 then Err EmptyRange
  else if existsb (fun r => r.2 =? 0) (drop 1 ranges) then Err EmptyRange
  else
    let max_sent :=
      match list.last s.(sent) with None => 0 | Some p => p.(SentPacket.packet_number) end in
    if max_sent <? largest then Err AcknowledgesUnsent
    else
      let extra := drop 1 ranges in
      let '(acked, keep) :=
        partition_acked (fun pn => in_range largest pn first_len extra) s.(sent) in
      Ok (acked, mk keep).

End AckSendState.

(** ** The ranges as a set of numbers *)

Definition high (r : range) : u64 := r.2.

Definition covers (ranges : list range) (x : u64) : Prop :=
  Exists (fun r => r.1 <= x <= r.2) ranges.

#[global] Instance covers_dec ranges x : Decision (covers ranges x).
Proof. unfold covers. apply _. Defined.

(** Consecutive ranges are disjoint and ascending.  They may touch, but then the
    lower one holds at least two numbers. *)
Definition link (p q : range) : Prop := p.2 + 1 < q.1 \/ (p.2 + 1 = q.1 /\ p.1 < p.2).

Fixpoint chain (l : list range) : Prop :=
  match l with
  | [] => True
  | p :: rest =>
      p.1 <= p.2 /\ match rest with [] => True | q :: _ => link p q end /\ chain rest
  end.

Lemma chain_app l p r : chain (l ++ p :: r) <-> chain (l ++ [p]) /\ chain (p :: r).
Proof.
  induction l as [|q l IH]; [simpl; tauto|]. rewrite <- !app_comm_cons. cbn [chain].
  rewrite IH. destruct l as [|q' l]; simpl; tauto.
Qed.

Lemma chain_snoc2 l p q : chain ((l ++ [p]) ++ [q]) <-> chain (l ++ [p]) /\ link p q /\ q.1 <= q.2.
Proof.
  rewrite <- app_assoc. simpl. rewrite chain_app. simpl.
  pose proof (proj1 (chain_app l p [])) as H. simpl in H. tauto.
Qed.

(** A link only looks at the low end of the upper range. *)
Lemma chain_snoc_low l p q : p.1 = q.1 -> q.1 <= q.2 -> chain (l ++ [p]) -> chain (l ++ [q]).
Proof.
  intros E Hq. destruct l as [|x l _] using rev_ind; [simpl; tauto|].
  rewrite !chain_snoc2. unfold link. rewrite E. tauto.
Qed.

Lemma covers_app l r x : covers (l ++ r) x <-> covers l x \/ covers r x.
Proof. apply Exists_app. Qed.

Lemma covers_cons p r x : covers (p :: r) x <-> p.1 <= x <= p.2 \/ covers r x.
Proof. apply Exists_cons. Qed.

Lemma covers_nil x : covers [] x <-> False.
Proof. apply Exists_nil. Qed.

(** *** What the index operations do *)

Lemma range_at_middle l p r : range_at (l ++ p :: r) (length l) = p.
Proof. unfold range_at. by rewrite list_lookup_middle. Qed.

Lemma range_at_next l p q r : range_at (l ++ p :: q :: r) (length l + 1) = q.
Proof.
  unfold range_at. replace (length l + 1)%nat with (length (l ++ [p])) by (rewrite length_app; simpl; lia).
  change (p :: q :: r) with ([p] ++ q :: r). by rewrite app_assoc, list_lookup_middle.
Qed.

Lemma merge_left_snoc l p q r :
  AckReceiveState.merge_left (l ++ p :: q :: r) (length l + 1) =
  if q.1 <=? p.2 + 1 then l ++ (p.1, N.max q.2 p.2) :: r else l ++ p :: q :: r.
Proof.
  unfold AckReceiveState.merge_left. rewrite bool_decide_eq_true_2 by lia.
  rewrite Nat.add_sub, range_at_next, range_at_middle. cbn [andb].
  case_match; [|done]. cbv zeta.
  replace (length l + 1)%nat with (length (l ++ [p])) by (rewrite length_app; simpl; lia).
  change (p :: q :: r) with ([p] ++ q :: r). rewrite app_assoc, delete_middle, <- app_assoc.
  by rewrite insert_app_r_alt, Nat.sub_diag.
Qed.

Lemma merge_right_last l p r :
  (length r = 0 \/ r = [p])%nat -> AckReceiveState.merge_right (l ++ r) (length l) = l ++ r.
Proof.
  intros Hr. unfold AckReceiveState.merge_right.
  rewrite bool_decide_eq_false_2; [done|]. rewrite length_app. destruct Hr as [-> | ->]; simpl; lia.
Qed.

Lemma merge_right_cons l p q r :
  AckReceiveState.merge_right (l ++ p :: q :: r) (length l) =
  if q.1 <=? p.2 + 1 then l ++ (p.1, q.2) :: r else l ++ p :: q :: r.
Proof.
  unfold AckReceiveState.merge_right. rewrite bool_decide_eq_true_2 by (rewrite length_app; simpl; lia).
  rewrite range_at_next, range_at_middle. cbn [andb]. case_match; [|done]. cbv zeta.
  by rewrite delete_middle, insert_app_r_alt, Nat.sub_diag.
Qed.

(** The scan splits the ranges at the number. *)
Lemma scan_split ranges pn :
  exists l r, ranges = l ++ r /\ AckReceiveState.scan ranges pn = length l
    /\ Forall (fun p => p.2 < pn) l /\ match r with [] => True | q :: _ => pn <= q.2 end.
Proof.
  induction ranges as [|[a b] ranges (l & r & -> & Hs & Hl & Hr)]; [by exists [], []|]. simpl.
  destruct (N.ltb_spec b pn).
  - exists ((a, b) :: l), r. rewrite Hs. split_and!; [done..|by constructor|done].
  - exists [], ((a, b) :: l ++ r). by split_and!.
Qed.

Lemma duplicate_split l r pn :
  match r with [] => True | q :: _ => pn <= q.2 end ->
  AckReceiveState.is_duplicate (l ++ r) (length l) pn =
  match r with [] => false | q :: _ => q.1 <=? pn end.
Proof.
  intros Hr. unfold AckReceiveState.is_duplicate. destruct r as [|q r].
  - rewrite bool_decide_eq_false_2; [done|]. rewrite app_nil_r. lia.
  - rewrite bool_decide_eq_true_2 by (rewrite length_app; simpl; lia).
    rewrite range_at_middle, (proj2 (N.leb_le pn q.2)) by done. by rewrite andb_true_r.
Qed.

(** *** Recording keeps the chain and adds the number *)

Definition right_of (r : list range) (pn : u64) : Prop :=
  match r with [] => True | q :: _ => pn < q.1 end.

(** Insertion after a range that ends just below the number. *)
Lemma insert_adjacent l a b r pn :
  b + 1 = pn -> chain ((l ++ [(a, b)]) ++ r) -> right_of r pn ->
  let out := AckReceiveState.insert_number ((l ++ [(a, b)]) ++ r) (length (l ++ [(a, b)])) pn in
  chain out /\ (forall x, covers out x <-> covers ((l ++ [(a, b)]) ++ r) x \/ x = pn)
  /\ (len out <= len ((l ++ [(a, b)]) ++ r)).
Proof.
  intros Hb Hc Hr. cbv zeta. unfold AckReceiveState.insert_number. cbv zeta.
  rewrite take_app_length, drop_app_length. rewrite <- app_assoc. cbn [app].
  replace (length (l ++ [(a, b)])) with (length l + 1)%nat by (rewrite length_app; simpl; lia).
  rewrite merge_left_snoc. cbn [fst snd]. rewrite (proj2 (N.leb_le _ _)) by lia.
  rewrite N.max_l by lia. rewrite <- app_assoc in Hc. cbn [app] in Hc.
  apply chain_app in Hc as [Hl Hr'].
  assert (Hm : chain ((l ++ [(a, pn)]) ++ r)).
  { rewrite <- app_assoc. apply chain_app. destruct Hr' as (Hab & Hlk & Hrr). split.
    - eapply chain_snoc_low; [..|exact Hl]; [done|]. simpl in *. lia.
    - destruct r as [|[c d] r]; simpl in *; unfold link in *; simpl in *; repeat split; try tauto; lia. }
  assert (Hcov : forall x, covers ((l ++ [(a, pn)]) ++ r) x
                           <-> covers ((l ++ [(a, b)]) ++ r) x \/ x = pn).
  { intros x. rewrite !covers_app, !covers_cons, covers_nil. simpl in *.
    assert (a <= x <= pn <-> a <= x <= b \/ x = pn) by lia. tauto. }
  replace (length l + 1)%nat with (length (l ++ [(a, pn)])) by (rewrite length_app; simpl; lia).
  change (l ++ (a, pn) :: r) with (l ++ [(a, pn)] ++ r). rewrite (app_assoc l).
  destruct r as [|[c d] [|[e f] r]].
  - rewrite (merge_right_last _ (0, 0)) by tauto. split_and!; [done..|autorewrite with umc; lia].
  - rewrite (merge_right_last _ (c, d)) by tauto. split_and!; [done..|autorewrite with umc; lia].
  - rewrite merge_right_cons. cbn [fst snd]. destruct (N.leb_spec e (d + 1)) as [He|He].
    + apply chain_app in Hm as [Hm1 Hm2]. simpl in Hm2. unfold link in Hm2. simpl in Hm2.
      split_and!.
      * apply chain_app. split; [eapply chain_snoc_low; [..|exact Hm1]; [done|simpl; lia]|].
        destruct r as [|[g h] r]; simpl in *; unfold link in *; simpl in *; repeat split; try tauto; lia.
      * intros x. rewrite <- (Hcov x), !covers_app, !covers_cons. simpl.
        assert (c <= x <= f <-> c <= x <= d \/ e <= x <= f) as -> by lia. tauto.
      * autorewrite with umc. lia.
    + split_and!; [done..|]. autorewrite with umc. lia.
Qed.

(** Insertion where no range ends just below the number. *)
Lemma insert_apart l r pn :
  chain (l ++ [(pn, pn)]) -> (forall p, list.last l = Some p -> p.2 + 1 < pn) ->
  chain (l ++ r) -> right_of r pn ->
  let out := AckReceiveState.insert_number (l ++ r) (length l) pn in
  chain out /\ (forall x, covers out x <-> covers (l ++ r) x \/ x = pn)
  /\ (len out <= len (l ++ r) + 1).
Proof.
  intros Hl Hlast Hc Hr. cbv zeta. unfold AckReceiveState.insert_number. cbv zeta.
  rewrite take_app_length, drop_app_length.
  assert (AckReceiveState.merge_left (l ++ (pn, pn) :: r) (length l) = l ++ (pn, pn) :: r) as ->.
  { destruct l as [|p l _] using rev_ind; [done|]. rewrite last_snoc in Hlast.
    specialize (Hlast p eq_refl). rewrite <- app_assoc, length_app. cbn [app length].
    rewrite merge_left_snoc. cbn [fst snd]. by rewrite (proj2 (N.leb_gt _ _)). }
  destruct r as [|[c d] r].
  - rewrite (merge_right_last _ (pn, pn)) by tauto. rewrite app_nil_r in *. split_and!; [done| |autorewrite with umc; lia].
    intros x. rewrite covers_app, covers_cons, covers_nil. simpl.
    assert (pn <= x <= pn <-> x = pn) as -> by lia. tauto.
  - rewrite merge_right_cons. cbn [fst snd]. simpl in Hr. apply chain_app in Hc as [_ Hc].
    simpl in Hc. destruct (N.leb_spec c (pn + 1)) as [He|He]; split_and!.
    + apply chain_app. split; [eapply chain_snoc_low; [..|exact Hl]; [done|simpl; lia]|].
      destruct r as [|[e f] r]; simpl in *; unfold link in *; simpl in *; repeat split; try tauto; lia.
    + intros x. rewrite !covers_app, !covers_cons. simpl.
      assert (pn <= x <= d <-> c <= x <= d \/ x = pn) as -> by lia. tauto.
    + autorewrite with umc. lia.
    + apply chain_app. split; [done|]. simpl. unfold link. simpl. repeat split; try tauto; lia.
    + intros x. rewrite !covers_app, !covers_cons. simpl.
      assert (pn <= x <= pn <-> x = pn) as -> by lia. tauto.
    + autorewrite with umc. lia.
Qed.

Lemma last_below l pn :
  Forall (fun p : range => p.2 < pn) l -> forall p : range, list.last l = Some p -> p.2 < pn.
Proof.
  intros Hl p Hp. apply last_Some in Hp as [l' ->]. apply Forall_app in Hl as [_ Hl].
  by apply Forall_cons_iff in Hl as [? _].
Qed.

(** Recording a number that no range holds. *)
Lemma insert_spec (l r : list range) pn :
  chain (l ++ r) -> Forall (fun p => p.2 < pn) l -> right_of r pn ->
  let out := AckReceiveState.insert_number (l ++ r) (length l) pn in
  chain out /\ (forall x, covers out x <-> covers (l ++ r) x \/ x = pn)
  /\ (len out <= len (l ++ r) + 1).
Proof.
  intros Hc Hl Hr. pose proof (last_below _ _ Hl) as Hb.
  destruct l as [|[a b] l _] using rev_ind; [by apply (insert_apart []); simpl|].
  specialize (Hb (a, b)). rewrite last_snoc in Hb. specialize (Hb eq_refl). simpl in Hb.
  destruct (decide (b + 1 = pn)) as [He|He].
  - destruct (insert_adjacent l a b r pn He Hc Hr) as (H1 & H2 & H3). split_and!; [done..|lia].
  - apply insert_apart; [|intros p; rewrite last_snoc; intros [= <-]; simpl; lia|done..].
    apply chain_snoc2. split; [|split; [left; simpl; lia|done]].
    destruct r as [|q r]; [by rewrite app_nil_r in Hc|]. rewrite chain_app, chain_snoc2 in Hc. tauto.
Qed.

(** Pruning drops the lowest ranges beyond the limit. *)
Lemma prune_drop l : AckReceiveState.prune l = drop (length l - N.to_nat MAX_STORED_RANGES) l.
Proof.
  induction l as [|p l IH]; [done|]. cbn [AckReceiveState.prune].
  destruct (N.ltb_spec MAX_STORED_RANGES (len (p :: l))) as [H|H]; unfold len in H; cbn [length] in *.
  - rewrite IH. by replace (S (length l) - N.to_nat MAX_STORED_RANGES)%nat
      with (S (length l - N.to_nat MAX_STORED_RANGES)) by lia.
  - by replace (S (length l) - N.to_nat MAX_STORED_RANGES)%nat with 0%nat by lia.
Qed.

Lemma chain_drop n l : chain l -> chain (drop n l).
Proof.
  revert l. induction n as [|n IH]; intros [|p l]; simpl; [done..|]. intros (_ & _ & H). by apply IH.
Qed.

Lemma covers_drop n l x : covers (drop n l) x -> covers l x.
Proof. intros H. rewrite <- (take_drop n l), covers_app. by right. Qed.

(** ** The receiver's invariant *)

Record ack_ok (s : AckReceiveState.t) : Prop := {
  ok_chain : chain s.(AckReceiveState.ranges);
  ok_bound : len s.(AckReceiveState.ranges) <= MAX_STORED_RANGES;
  ok_largest : high <$> list.last s.(AckReceiveState.ranges) = s.(AckReceiveState.largest)
}.

(** The high end of the last range is the largest number covered. *)
Lemma chain_last_max l p x :
  chain l -> list.last l = Some p -> covers l x -> x <= p.2.
Proof.
  revert p. induction l as [|q l IH] using rev_ind; intros p Hc Hl Hx; [done|].
  rewrite last_snoc in Hl. injection Hl as <-.
  rewrite covers_app, covers_cons, covers_nil in Hx. destruct Hx as [Hx|Hx]; [|tauto || lia].
  destruct l as [|q' l _] using rev_ind; [by apply covers_nil in Hx|].
  apply chain_snoc2 in Hc as (Hc & Hk & Hq). specialize (IH _ Hc (last_snoc _ _) Hx).
  unfold link in Hk. lia.
Qed.

Lemma chain_last_covered l p : chain l -> list.last l = Some p -> covers l p.2.
Proof.
  intros Hc Hl. apply last_Some in Hl as [l' ->]. rewrite covers_app, covers_cons. right. left.
  pose proof (proj1 (chain_app l' p [])) as H. simpl in H. split; [tauto|done].
Qed.

(** Two chains with the same greatest number end alike. *)
Lemma last_high l m :
  chain l -> covers l m -> (forall x, covers l x -> x <= m) -> high <$> list.last l = Some m.
Proof.
  intros Hc Hm Hx. destruct (list.last l) as [p|] eqn:E.
  - simpl. f_equal. apply N.le_antisymm.
    + apply Hx. by eapply chain_last_covered.
    + by eapply chain_last_max.
  - apply last_None in E as ->. by apply covers_nil in Hm.
Qed.

Lemma last_drop {A} n (l : list A) : (n < length l)%nat -> list.last (drop n l) = list.last l.
Proof.
  intros Hn. rewrite <- (take_drop n l) at 2. rewrite last_app.
  destruct (list.last (drop n l)) eqn:E; [done|]. apply last_None in E.
  apply (f_equal length) in E. rewrite length_drop in E. simpl in E. lia.
Qed.

(** What [record] does to the ranges, before and after pruning. *)
Lemma record_ranges s pn :
  chain s.(AckReceiveState.ranges) ->
  exists l, chain l
    /\ (forall x, covers l x <-> covers s.(AckReceiveState.ranges) x \/ x = pn)
    /\ len l <= len s.(AckReceiveState.ranges) + 1
    /\ ((AckReceiveState.record s pn).(AckReceiveState.ranges) = l
          /\ len l = len s.(AckReceiveState.ranges)
        \/ (AckReceiveState.record s pn).(AckReceiveState.ranges) = AckReceiveState.prune l).
Proof.
  intros Hc. unfold AckReceiveState.record.
  destruct (scan_split s.(AckReceiveState.ranges) pn) as (l & r & Hlr & Hs & Hl & Hr).
  rewrite Hs, Hlr in *. rewrite duplicate_split by done.
  assert (Hdup : match r with [] => false | q :: _ => q.1 <=? pn end = true \/ right_of r pn
                 /\ match r with [] => false | q :: _ => q.1 <=? pn end = false).
  { destruct r as [|q r]; [by right|]. simpl. destruct (N.leb_spec q.1 pn); [by left|by right]. }
  destruct Hdup as [Hd|[Hro ->]].
  - rewrite Hd. exists (l ++ r). simpl. split_and!; [done| |lia|by left].
    intros x. split; [tauto|]. intros [?| ->]; [done|]. destruct r as [|q r]; [done|].
    rewrite covers_app, covers_cons. right. left. lia.
  - destruct (insert_spec l r pn Hc Hl Hro) as (H1 & H2 & H3).
    eexists. split_and!; [exact H1|exact H2|exact H3|by right].
Qed.

Definition raise (largest : option u64) (pn : u64) : option u64 :=
  Some (match largest with Some l => N.max l pn | None => pn end).

Lemma record_largest s pn :
  (AckReceiveState.record s pn).(AckReceiveState.largest) = raise s.(AckReceiveState.largest) pn.
Proof.
  unfold AckReceiveState.record, raise.
  destruct (AckReceiveState.is_duplicate _ _ _), s.(AckReceiveState.largest) as [l|]; simpl;
    try done; destruct (N.ltb_spec l pn); f_equal; lia.
Qed.

Lemma record_ok s pn : ack_ok s -> ack_ok (AckReceiveState.record s pn).
Proof.
  intros [Hc Hb Hl]. destruct (record_ranges s pn Hc) as (l & Hlc & Hcov & Hlen & Hr).
  assert (Hlast : high <$> list.last l = raise s.(AckReceiveState.largest) pn).
  { apply last_high; [done|..].
    - apply Hcov. destruct s.(AckReceiveState.largest) as [m|] eqn:Em; [|by right].
      destruct (N.le_ge_cases m pn); [right; lia|left]. rewrite N.max_l by done.
      destruct (list.last s.(AckReceiveState.ranges)) as [p|] eqn:E; [|done].
      injection Hl as <-. by eapply chain_last_covered.
    - intros x [Hx| ->]%Hcov; [|destruct s.(AckReceiveState.largest); lia].
      destruct (list.last s.(AckReceiveState.ranges)) as [p|] eqn:E.
      + rewrite <- Hl. simpl. pose proof (chain_last_max _ _ _ Hc E Hx). unfold high. lia.
      + apply last_None in E. rewrite E in Hx. by apply covers_nil in Hx. }
  split; rewrite ?record_largest; destruct Hr as [[-> He]|Hr]; rewrite ?Hr, ?prune_drop; try done.
  - by apply chain_drop.
  - lia.
  - unfold len in *. rewrite length_drop. lia.
  - rewrite last_drop; [done|]. destruct (list.last l) as [p|] eqn:E; [|done].
    assert (l <> []) by (by intros ->). destruct l; [done|]. unfold MAX_STORED_RANGES. simpl length. lia.
Qed.

Lemma new_ok : ack_ok AckReceiveState.new.
Proof. split; simpl; [done|unfold len; simpl; lia|done]. Qed.

(** ** The frame built from the ranges *)

Lemma in_extra_gaps rest prev x :
  chain (rev rest ++ [prev]) ->
  AckSendState.in_extra (prev.1 - 1) x (AckReceiveState.gaps prev.1 rest) = true <-> covers rest x.
Proof.
  revert prev. induction rest as [|[lo hi] rest IH]; intros prev Hc.
  - rewrite covers_nil. done.
  - cbn [rev] in Hc. apply chain_snoc2 in Hc as (Hc & Hk & Hp).
    assert (Hle : lo <= hi) by (pose proof (proj1 (chain_app (rev rest) (lo, hi) []) Hc); simpl in *; tauto).
    rewrite covers_cons, <- (IH _ Hc). unfold link in Hk. cbn [fst snd] in *.
    cbn [AckReceiveState.gaps AckSendState.in_extra]. unfold saturating_sub.
    rewrite (proj2 (N.eqb_neq _ _)) by lia.
    replace (prev.1 - 1 - (prev.1 - (hi + 1))) with hi by lia.
    replace (hi - (hi - lo + 1 - 1)) with lo by lia.
    replace (hi - (hi - lo + 1)) with (lo - 1) by lia.
    destruct ((lo <=? x) && (x <=? hi)) eqn:E; [split; [left; lia|done]|].
    split; [tauto|]. intros [?|?]; [lia|done].
Qed.

Lemma build_ack_Some s delay largest d first extra :
  ack_ok s -> AckReceiveState.build_ack s delay = Some (largest, d, first, extra) ->
  exists highest rest, rev s.(AckReceiveState.ranges) = highest :: rest
    /\ chain (rev rest ++ [highest]) /\ largest = highest.2 /\ d = delay
    /\ first = highest.2 - highest.1 + 1 /\ extra = AckReceiveState.gaps highest.1 rest.
Proof.
  intros [Hc Hb Hl]. unfold AckReceiveState.build_ack.
  destruct (rev s.(AckReceiveState.ranges)) as [|p rest] eqn:E.
  - destruct s.(AckReceiveState.largest); done.
  - assert (Er : s.(AckReceiveState.ranges) = rev rest ++ [p]).
    { rewrite <- (rev_involutive s.(AckReceiveState.ranges)), E. done. }
    rewrite Er, last_snoc in Hl. cbn [fmap option_fmap option_map] in Hl. rewrite <- Hl. intros [= <- <- <- <-].
    exists p, rest. rewrite Er in Hc. by split_and!.
Qed.

Lemma gaps_nonempty rest prev : Forall (fun r => (r.2 =? 0) = false) (AckReceiveState.gaps prev rest).
Proof.
  revert prev. induction rest as [|[lo hi] rest IH]; intros prev; simpl; constructor; [simpl; lia|done].
Qed.

Lemma partition_acked_filter f sent :
  AckSendState.partition_acked f sent =
  (SentPacket.packet_number <$> filter (fun p => f p.(SentPacket.packet_number) = true) sent,
   filter (fun p => f p.(SentPacket.packet_number) = false) sent).
Proof.
  induction sent as [|p sent IH]; [done|]. simpl. rewrite IH, !filter_cons.
  destruct (f p.(SentPacket.packet_number)) eqn:E; simpl; by rewrite ?decide_True, ?decide_False.
Qed.

Lemma gaps_length prev rest : length (AckReceiveState.gaps prev rest) = length rest.
Proof. revert prev. induction rest as [|[? ?] rest IH]; intros prev; simpl; [done|]. by rewrite IH. Qed.

(** A frame is built as soon as there is a range. *)
Lemma build_ack_last s delay p :
  ack_ok s -> list.last s.(AckReceiveState.ranges) = Some p ->
  exists d first extra, AckReceiveState.build_ack s delay = Some (p.2, d, first, extra)
    /\ len extra + 1 = len s.(AckReceiveState.ranges)
    /\ Forall (fun r => (r.2 =? 0) = false) extra.
Proof.
  intros [Hc Hb Hl] Hp. rewrite Hp in Hl. apply last_Some in Hp as [l Hr].
  unfold AckReceiveState.build_ack. rewrite <- Hl, Hr, rev_unit.
  exists delay, (p.2 - p.1 + 1), (AckReceiveState.gaps p.1 (rev l)). split_and!; [done| |].
  - unfold len. rewrite gaps_length, length_rev, length_app. simpl. lia.
  - apply gaps_nonempty.
Qed.

Lemma filter_true_false {A} (f : A -> bool) (l : list A) :
  filter (fun x => f x = true) l ++ filter (fun x => f x = false) l ≡ₚ l.
Proof.
  induction l as [|x l IH]; [done|]. rewrite !filter_cons.
  destruct (f x); rewrite ?decide_True, ?decide_False by done; simpl; [by rewrite IH|].
  by rewrite <- Permutation_middle, IH.
Qed.

(** The numbers an ACK built from well-formed ranges acknowledges. *)
Lemma in_range_built s delay largest d first extra x :
  ack_ok s -> AckReceiveState.build_ack s delay = Some (largest, d, first, extra) ->
  AckSendState.in_range largest x first extra = true <-> covers s.(AckReceiveState.ranges) x.
Proof.
  intros Hk Hb. destruct (build_ack_Some _ _ _ _ _ _ Hk Hb) as (p & rest & Hr & Hc & -> & -> & -> & ->).
  assert (Hp : p.1 <= p.2) by (pose proof (proj1 (chain_app (rev rest) p []) Hc); simpl in *; tauto).
  assert (covers s.(AckReceiveState.ranges) x <-> p.1 <= x <= p.2 \/ covers rest x) as ->.
  { rewrite <- covers_cons, <- Hr. unfold covers. rewrite !Exists_exists.
    by setoid_rewrite <- in_rev. }
  rewrite <- (in_extra_gaps _ _ x Hc). unfold AckSendState.in_range, saturating_sub.
  replace (p.2 - (p.2 - p.1 + 1 - 1)) with p.1 by lia.
  replace (p.2 - (p.2 - p.1 + 1)) with (p.1 - 1) by lia.
  destruct ((p.1 <=? x) && (x <=? p.2)) eqn:E; [split; [left; lia|done]|].
  split; [tauto|]. intros [?|?]; [lia|done].
Qed.

Lemma apply_ack_built s delay largest d first extra sent :
  ack_ok s -> AckReceiveState.build_ack s delay = Some (largest, d, first, extra) ->
  largest <= match list.last sent with None => 0 | Some p => p.(SentPacket.packet_number) end ->
  AckSendState.apply_ack (AckSendState.mk sent) largest ((first, 0) :: extra)
  = Ok (SentPacket.packet_number
          <$> filter (fun p => AckSendState.in_range largest p.(SentPacket.packet_number) first extra = true) sent,
        AckSendState.mk
          (filter (fun p => AckSendState.in_range largest p.(SentPacket.packet_number) first extra = false) sent)).
Proof.
  intros Hk Hb Hl. destruct (build_ack_Some _ _ _ _ _ _ Hk Hb) as (p & rest & _ & _ & _ & _ & -> & ->).
  unfold AckSendState.apply_ack. cbn [fst].
  change (drop 1 (_ :: AckReceiveState.gaps p.1 rest)) with (AckReceiveState.gaps p.1 rest).
  rewrite (proj2 (N.eqb_neq _ _)) by lia.
  assert (existsb (fun r : u64 * u64 => r.2 =? 0) (AckReceiveState.gaps p.1 rest) = false) as ->.
  { apply not_true_iff_false. intros (r & Hin & Hr)%List.existsb_exists.
    pose proof (gaps_nonempty rest p.1) as Hg. rewrite List.Forall_forall in Hg.
    apply Hg in Hin. congruence. }
  cbn [AckSendState.sent]. rewrite (proj2 (N.ltb_ge _ _)) by done.
  rewrite partition_acked_filter. done.
Qed.

Lemma apply_ack_received s delay largest d first extra sent :
  ack_ok s -> AckReceiveState.build_ack s delay = Some (largest, d, first, extra) ->
  largest <= match list.last sent with None => 0 | Some p => p.(SentPacket.packet_number) end ->
  let received := covers s.(AckReceiveState.ranges) in
  AckSendState.apply_ack (AckSendState.mk sent) largest ((first, 0) :: extra)
  = Ok (SentPacket.packet_number <$> filter (fun p => received p.(SentPacket.packet_number)) sent,
        AckSendState.mk (filter (fun p => ~ received p.(SentPacket.packet_number)) sent)).
Proof.
  intros Hk Hb Hl received. rewrite (apply_ack_built _ _ _ _ _ _ _ Hk Hb Hl).
  f_equal. f_equal; [f_equal|f_equal]; apply list_filter_iff; intros p; unfold received.
  - apply (in_range_built _ _ _ _ _ _ _ Hk Hb).
  - rewrite <- (in_range_built _ _ _ _ _ _ _ Hk Hb). by destruct (AckSendState.in_range _ _ _ _).
Qed.

(** The receiver after a run of packets. *)
Definition receive_all (pns : list u64) : AckReceiveState.t :=
  fold_left AckReceiveState.record pns AckReceiveState.new.

Lemma record_covers s pn x :
  ack_ok s ->
  (covers (AckReceiveState.record s pn).(AckReceiveState.ranges) x ->
   covers s.(AckReceiveState.ranges) x \/ x = pn)
  /\ (len s.(AckReceiveState.ranges) < MAX_STORED_RANGES ->
      covers s.(AckReceiveState.ranges) x \/ x = pn ->
      covers (AckReceiveState.record s pn).(AckReceiveState.ranges) x).
Proof.
  intros Hk. destruct (record_ranges s pn (ok_chain _ Hk)) as (l & _ & Hcov & Hlen & Hr).
  rewrite <- (Hcov x). destruct Hr as [[-> _]|Hr]; [done|]. rewrite Hr, prune_drop. split.
  - apply covers_drop.
  - intros Hlt. unfold len in *.
    by replace (length l - N.to_nat MAX_STORED_RANGES)%nat with 0%nat by lia.
Qed.

Lemma record_len s pn :
  ack_ok s -> len (AckReceiveState.record s pn).(AckReceiveState.ranges)
              <= len s.(AckReceiveState.ranges) + 1.
Proof.
  intros Hk. destruct (record_ranges s pn (ok_chain _ Hk)) as (l & _ & _ & Hlen & Hr).
  destruct Hr as [[-> _]|Hr]; [done|]. rewrite Hr, prune_drop. unfold len in *. rewrite length_drop. lia.
Qed.

Lemma receive_all_spec pns :
  ack_ok (receive_all pns)
  /\ (forall x, covers (receive_all pns).(AckReceiveState.ranges) x -> x ∈ pns)
  /\ (len (receive_all pns).(AckReceiveState.ranges) <= len pns)
  /\ (len pns <= MAX_STORED_RANGES ->
      forall x, x ∈ pns -> covers (receive_all pns).(AckReceiveState.ranges) x).
Proof.
  unfold receive_all. induction pns as [|pn pns IH] using rev_ind.
  - split_and!; [apply new_ok|by intros x ?%covers_nil|done|]. intros _ x Hx. by apply elem_of_nil in Hx.
  - rewrite fold_left_app. cbn [fold_left]. destruct IH as (Hk & Hsub & Hlen & Hsup).
    set (s := fold_left _ _ _) in *. split_and!.
    + by apply record_ok.
    + intros x [Hx| ->]%record_covers; [|by apply elem_of_app; right; constructor|done].
      apply elem_of_app. left. by apply Hsub.
    + rewrite len_app, len_cons, len_nil. pose proof (record_len s pn Hk). lia.
    + rewrite len_app, len_cons, len_nil. intros Hl x Hx. apply record_covers; [done|lia|].
      apply elem_of_app in Hx as [Hx|Hx%list_elem_of_singleton]; [left; apply Hsup; [lia|done]|by right].
Qed.

Lemma receive_all_needs_ack pns p :
  list.last (receive_all pns).(AckReceiveState.ranges) = Some p ->
  (receive_all pns).(AckReceiveState.needs_ack) = true.
Proof.
  unfold receive_all. destruct pns as [|pn pns _] using rev_ind; [done|]. intros _.
  rewrite fold_left_app. simpl. unfold AckReceiveState.record. by case_match.
Qed.

(** ** Properties *)

(** The receiver's ranges stay well formed and truthful: after any sequence
    of packets they are ascending and disjoint, at most 256, end in the largest
    number received, and every number they cover was received; while no more
    than 256 packets have arrived they cover exactly the numbers received. *)
Theorem receive_all_exact pns x :
  ack_ok (receive_all pns)
  /\ (covers (receive_all pns).(AckReceiveState.ranges) x -> x ∈ pns)
  /\ (len pns <= MAX_STORED_RANGES ->
      covers (receive_all pns).(AckReceiveState.ranges) x <-> x ∈ pns).
Proof. destruct (receive_all_spec pns) as (H1 & H2 & _ & H3). naive_solver. Qed.

(** Acknowledgement round trip: the ACK fields a receiver builds from its
    ranges make the sender acknowledge exactly the sent packets whose numbers
    the ranges cover, in the order sent, and keep exactly the others, provided
    the sender did send up to the largest number. *)
Theorem ack_roundtrip pns delay largest d first extra sent :
  AckReceiveState.build_ack (receive_all pns) delay = Some (largest, d, first, extra) ->
  largest <= match list.last sent with None => 0 | Some p => p.(SentPacket.packet_number) end ->
  AckSendState.apply_ack (AckSendState.mk sent) largest ((first, 0) :: extra)
  = Ok (SentPacket.packet_number
          <$> filter (fun p => covers (receive_all pns).(AckReceiveState.ranges)
                                 p.(SentPacket.packet_number)) sent,
        AckSendState.mk
          (filter (fun p => ~ covers (receive_all pns).(AckReceiveState.ranges)
                                p.(SentPacket.packet_number)) sent)).
Proof.
  intros Hb Hl. destruct (receive_all_spec pns) as (Hk & _).
  by apply (apply_ack_received _ _ _ _ _ _ _ Hk Hb).
Qed.

Definition sample_sent (pn : u64) : SentPacket.t :=
  SentPacket.new pn PacketSpace.SessionData 100 1200 true 0.

Lemma ack_roundtrip_witness :
  AckSendState.apply_ack (AckSendState.mk (sample_sent <$> [1; 2; 3; 4; 5; 6])) 5 ((1, 0) :: [(1, 2)])
  = Ok (SentPacket.packet_number
          <$> filter (fun p => covers (receive_all [2; 5; 3]).(AckReceiveState.ranges)
                                 p.(SentPacket.packet_number)) (sample_sent <$> [1; 2; 3; 4; 5; 6]),
        AckSendState.mk
          (filter (fun p => ~ covers (receive_all [2; 5; 3]).(AckReceiveState.ranges)
                                p.(SentPacket.packet_number)) (sample_sent <$> [1; 2; 3; 4; 5; 6]))).
Proof.
  apply (ack_roundtrip [2; 5; 3] 0 5 0 1 [(1, 2)]); vm_compute; [reflexivity|discriminate].
Defined.

(** An ACK is refused, and nothing changes, exactly when its first range or an
    additional range is empty or it acknowledges a number above the last one
    sent; every number an accepted ACK reports was outstanding, and acknowledged
    and kept packets together are the packets that were outstanding. *)
Theorem apply_ack_accounts s largest ranges :
  match AckSendState.apply_ack s largest ranges with
  | Err EmptyRange =>
      match ranges with [] => True | r :: _ => r.1 = 0 end
      \/ Exists (fun r => r.2 = 0) (drop 1 ranges)
  | Err AcknowledgesUnsent =>
      match list.last s.(AckSendState.sent) with
      | None => 0 < largest
      | Some p => p.(SentPacket.packet_number) < largest
      end
  | Ok (acked, s') =>
      exists gone, acked = SentPacket.packet_number <$> gone
        /\ gone ++ s'.(AckSendState.sent) ≡ₚ s.(AckSendState.sent)
        /\ sublist s'.(AckSendState.sent) s.(AckSendState.sent)
  end.
Proof.
  unfold AckSendState.apply_ack.
  destruct (N.eqb_spec match ranges with [] => 0 | r :: _ => r.1 end 0) as [H0|H0];
    [left; by destruct ranges|].
  destruct (existsb _ _) eqn:He.
  { right. apply List.existsb_exists in He as (r & Hin & Hr). apply Exists_exists.
    exists r. split; [done|lia]. }
  cbv zeta. match goal with |- context [?m <? largest] => destruct (N.ltb_spec m largest) end.
  { by destruct (list.last _). }
  rewrite partition_acked_filter. cbv beta iota. eexists. split_and!; [done| |apply sublist_filter].
  apply (filter_true_false (fun p => AckSendState.in_range _ p.(SentPacket.packet_number) _ _)).
Qed.
