(* ===== verification/AckWire.v ===== *)
(** * ACK frames between two sessions (crates/umc-session/src/session.rs)

    The end of [on_inbound], which appends an ACK frame to the answer, and
    the part of [apply_peer_ack] that hands a received one to the sender's
    state.  The theorems close the loop from one session's received packets to
    the other's acknowledged ones, through the bytes on the wire. *)

From S2P Require Import Prelude FrameTypes Varint WireBytes Codec FramesAck Frame FrameTheory Spaces SentPackets Ack.

Inductive EmitError := Encode.

Definition put_pair (r : u64 * u64) : Enc := put_varint r.1 >>> put_varint r.2.

(** The frame is written field by field, not through [AckFrame::encode]. *)
Definition emit_ack (s : AckReceiveState.t) (ack_payload : list u8)
    : Result EmitError (list u8 * AckReceiveState.t) :=
  let '(needed, s) := AckReceiveState.take_needs_ack s in
  if needed then
    match AckReceiveState.build_ack s 0 with
    | Some (largest, delay, first_len, extra) =>
        out ← map_err (fun _ => Encode)
                ((put_varint FrameType.ACK
                  >>> put_varint largest
                  >>> put_varint delay
                  >>> put_varint (len extra + 1)
                  >>> put_varint first_len
                  >>> put_all put_pair extra) ack_payload);
        Ok (out, s)
    | None => Ok (ack_payload, s)
    end
  else Ok (ack_payload, s).

(** The ranges [apply_peer_ack] passes on. *)
Definition flatten_ack (ack : AckFrame.t) : list (u64 * u64) :=
  (ack.(AckFrame.first_ack_range), 0)
  :: map (fun r => (r.(AckRange.gap), r.(AckRange.length))) ack.(AckFrame.additional_ranges).

(** ** The emitted bytes *)

Definition ack_frame (largest delay first : u64) (extra : list (u64 * u64)) : AckFrame.t :=
  AckFrame.mk largest delay first (map (fun r => AckRange.mk r.1 r.2) extra).

Lemma flatten_ack_frame largest delay first extra :
  flatten_ack (ack_frame largest delay first extra) = (first, 0) :: extra.
Proof.
  unfold flatten_ack, ack_frame. simpl. f_equal. rewrite map_map. simpl.
  induction extra as [|[g l] extra IH]; simpl; by f_equal.
Qed.

Lemma put_all_pairs extra :
  put_all put_pair extra = put_all AckRange.put (map (fun r => AckRange.mk r.1 r.2) extra).
Proof. induction extra as [|r extra IH]; simpl; [done|]. by rewrite IH. Qed.

(** The fields, written one by one, are the frame's. *)
Lemma put_ack_fields largest delay first extra :
  (put_varint FrameType.ACK >>> put_varint largest >>> put_varint delay
   >>> put_varint (len extra + 1) >>> put_varint first >>> put_all put_pair extra)
  = (put_varint FrameType.ACK >>> AckFrame.put (ack_frame largest delay first extra)).
Proof.
  unfold AckFrame.put, ack_frame. simpl. rewrite put_all_pairs. unfold len. by rewrite length_map.
Qed.

(** [total k e]: the encoder appends some fixed bytes, at most [k] of them. *)
Definition total (k : N) (e : Enc) : Prop :=
  exists bs, len bs <= k /\ forall out, e out = Ok (out ++ bs).

Lemma total_varint v : v <= MAX_VARINT -> total 8 (put_varint v).
Proof.
  intros [bs Hb]%Varint.encode_Ok_iff. exists bs. split.
  - assert (Hb' : Varint.encode_into [] v = Ok bs) by (by rewrite Varint.encode_into_app, Hb).
    destruct (Varint.encode_into_decode _ _ _ Hb') as (cs & Hcs & Hd). simpl in Hcs. subst cs.
    specialize (Hd []). rewrite app_nil_r in Hd. destruct bs as [|b bs]; [rewrite len_nil; lia|].
    apply Varint.decode_width in Hd. destruct (Varint.width_of_cases b); lia.
  - intros out. unfold put_varint, put_varint_or. by rewrite Varint.encode_into_app, Hb.
Qed.

Lemma total_seq k1 k2 e1 e2 : total k1 e1 -> total k2 e2 -> total (k1 + k2) (e1 >>> e2).
Proof.
  intros (b1 & L1 & H1) (b2 & L2 & H2). exists (b1 ++ b2). split; [rewrite len_app; lia|].
  intros out. unfold enc_seq. rewrite H1. cbn. by rewrite H2, app_assoc.
Qed.

Lemma total_all {A} k (f : A -> Enc) l :
  Forall (fun x => total k (f x)) l -> total (k * len l) (put_all f l).
Proof.
  induction 1 as [|x l Hx Hl IH]; simpl.
  - exists []. split; [rewrite len_nil; lia|]. intros out. by rewrite app_nil_r.
  - rewrite len_cons. replace (k * (1 + len l)) with (k + k * len l) by lia. by apply total_seq.
Qed.

Lemma total_le k k' e : total k e -> k <= k' -> total k' e.
Proof. intros (bs & Hl & H) Hk. exists bs. split; [lia|done]. Qed.

Lemma len_map {A B} (f : A -> B) l : len (map f l) = len l.
Proof. unfold len. by rewrite length_map. Qed.

Lemma gaps_bounds (rest : list range) prev m :
  prev <= m -> Forall (fun r => r.1 <= r.2 /\ r.2 <= m) rest ->
  Forall (fun r => r.1 <= m /\ r.2 <= m + 1) (AckReceiveState.gaps prev rest).
Proof.
  intros Hp Hr. revert prev Hp.
  induction Hr as [|[lo hi] rest [Hl Hh] Hr IH]; intros prev Hp; simpl in *; [constructor|].
  unfold saturating_sub. constructor; [simpl; lia|]. apply IH. lia.
Qed.

Lemma chain_ordered (l : list range) : chain l -> Forall (fun r => r.1 <= r.2) l.
Proof. induction l as [|p l IH]; simpl; [constructor|]. intros (Hp & _ & Hl). by constructor; auto. Qed.

Lemma chain_bounded (l : list range) p :
  chain l -> list.last l = Some p -> Forall (fun r => r.1 <= r.2 /\ r.2 <= p.2) l.
Proof.
  intros Hc Hl. pose proof (chain_ordered l Hc) as Ho. rewrite list.Forall_forall in *.
  intros r Hr. specialize (Ho r Hr). split; [done|].
  apply (chain_last_max l p r.2 Hc Hl). unfold covers. apply list.Exists_exists. exists r. split; [done|lia].
Qed.

(** The encoder of an ACK built from well-formed ranges cannot fail. *)
Lemma ack_total s delay largest d first extra :
  ack_ok s -> AckReceiveState.build_ack s delay = Some (largest, d, first, extra) ->
  delay <= MAX_VARINT -> largest < MAX_VARINT ->
  total (40 + 16 * len extra)
    (put_varint FrameType.ACK >>> AckFrame.put (ack_frame largest d first extra)).
Proof.
  intros Hk Hb Hd Hl. destruct (build_ack_Some _ _ _ _ _ _ Hk Hb) as (p & rest & Hr & Hc & -> & -> & -> & ->).
  assert (Hbd : Forall (fun r => r.1 <= r.2 /\ r.2 <= p.2) (rev rest ++ [p]))
    by (apply chain_bounded; [done|apply last_snoc]).
  apply Forall_app in Hbd as [Hrest [Hp _]%Forall_cons_iff]. apply Forall_rev in Hrest.
  rewrite rev_involutive in Hrest.
  assert (Hlen : len (AckReceiveState.gaps p.1 rest) < MAX_STORED_RANGES).
  { pose proof (ok_bound _ Hk) as Hb'. pose proof (gaps_length p.1 rest) as Hg.
    apply (f_equal (@length _)) in Hr. rewrite length_rev in Hr. simpl in Hr. unfold len in *. lia. }
  eapply (total_le (8 + (8 + (8 + (8 + (8 + 16 * len _)))))).
  { unfold AckFrame.put, ack_frame. cbn [AckFrame.largest_acknowledged AckFrame.ack_delay
      AckFrame.first_ack_range AckFrame.additional_ranges].
    unfold MAX_STORED_RANGES, MAX_VARINT in *.
    repeat apply total_seq; try (apply total_varint; unfold MAX_VARINT, FrameType.ACK; try rewrite len_map; lia).
    apply total_all, Forall_map.
    eapply Forall_impl; [|apply (gaps_bounds rest p.1 p.2); [lia|done]].
    intros [g l] [Hg Hl']. unfold AckRange.put. simpl in *.
    apply (total_seq 8 8); apply total_varint; unfold MAX_VARINT; lia. }
  rewrite len_map. lia.
Qed.

Lemma emit_ack_bytes s payload largest d first extra :
  ack_ok s -> s.(AckReceiveState.needs_ack) = true ->
  AckReceiveState.build_ack s 0 = Some (largest, d, first, extra) -> largest < MAX_VARINT ->
  exists bs, emit_ack s payload
      = Ok (payload ++ bs, AckReceiveState.mk s.(AckReceiveState.ranges) s.(AckReceiveState.largest) false)
    /\ (put_varint FrameType.ACK >>> AckFrame.put (ack_frame largest d first extra)) [] = Ok bs.
Proof.
  intros Hk Hn Hb Hl. destruct (ack_total _ _ _ _ _ _ Hk Hb) as (bs & _ & Hbs); [done..|].
  exists bs. split; [|apply Hbs]. unfold emit_ack, AckReceiveState.take_needs_ack. rewrite Hn.
  change (AckReceiveState.build_ack (AckReceiveState.mk _ _ false) 0) with (AckReceiveState.build_ack s 0).
  rewrite Hb, put_ack_fields, Hbs. done.
Qed.

(** A decoder that stops with an error on some bytes, wherever they stand. *)
Definition fails {A} (d : Dec A) (bs : list u8) (e : FrameError) : Prop :=
  forall pre post, len (pre ++ bs ++ post) <= usize_max -> d (pre ++ bs ++ post) (len pre) = Err e.

Lemma fails_bind {A B} (d : Dec A) (k : A -> Dec B) bs cs a e :
  reads d bs a -> fails (k a) cs e -> fails (d ≫= k) (bs ++ cs) e.
Proof.
  intros H1 H2 pre post Hl. unfold mbind, Dec_bind. rewrite <- app_assoc in *. rewrite H1 by done.
  specialize (H2 (pre ++ bs) post). rewrite <- app_assoc, (len_app pre bs) in H2. by apply H2.
Qed.

Lemma put_varint_shift v out out' :
  put_varint v out = Ok out' -> exists bs, out' = out ++ bs /\ forall q, put_varint v q = Ok (q ++ bs).
Proof.
  unfold put_varint, put_varint_or. intros H%map_err_Ok. rewrite Varint.encode_into_app in H.
  destruct (Varint.encode v) as [bs|e] eqn:E; [|done]. injection H as <-. exists bs. split; [done|].
  intros q. by rewrite Varint.encode_into_app, E.
Qed.

Lemma put_varint_reads v out out' :
  put_varint v out = Ok out' -> exists bs, out' = out ++ bs /\ reads read_varint bs v.
Proof. apply codec_varint. Qed.

Lemma put_ranges_app l out out' :
  put_all AckRange.put l out = Ok out' -> exists bs, out' = out ++ bs.
Proof.
  revert out. induction l as [|r l IH]; intros o H; simpl in H.
  - injection H as <-. exists []. by rewrite app_nil_r.
  - apply bind_Ok in H as (o' & H1 & H2).
    apply bind_Ok in H1 as (o1 & (c1 & -> & _)%put_varint_reads & H1).
    apply put_varint_reads in H1 as (c2 & -> & _). destruct (IH _ H2) as [b5 ->].
    exists (c1 ++ c2 ++ b5). by rewrite <- !app_assoc.
Qed.

Lemma ack_too_many f bs :
  MAX_ACK_RANGES < len f.(AckFrame.additional_ranges) ->
  AckFrame.put f [] = Ok bs -> fails AckFrame.body bs TooManyAckRanges.
Proof.
  intros Hn H. unfold AckFrame.put in H.
  apply bind_Ok in H as (o1 & (b1 & -> & R1)%put_varint_reads & H).
  apply bind_Ok in H as (o2 & (b2 & -> & R2)%put_varint_reads & H).
  apply bind_Ok in H as (o3 & (b3 & -> & R3)%put_varint_reads & H).
  assert (exists rest, bs = b1 ++ b2 ++ b3 ++ rest) as [rest ->].
  { apply bind_Ok in H as (o4 & (b4 & -> & _)%put_varint_reads & H).
    apply put_ranges_app in H as [b5 ->].
    exists (b4 ++ b5). by rewrite <- !app_assoc. }
  unfold AckFrame.body. do 3 (eapply fails_bind; [eassumption|]).
  intros pre post Hl. unfold mbind, Dec_bind, fail_if. unfold MAX_ACK_RANGES in *.
  match goal with |- context [?a <? ?b] => assert ((a <? b) = true) as -> by lia end.
  by rewrite orb_true_r.
Qed.

Lemma ack_frame_nonempty largest d first extra :
  first <> 0 -> Forall (fun r => (r.2 =? 0) = false) extra ->
  AckFrame.nonempty (ack_frame largest d first extra).
Proof.
  intros Hf He. split; [done|]. simpl. apply Forall_map.
  eapply Forall_impl; [|exact He]. intros [g l] Hr. simpl in *. lia.
Qed.

(** What the frame's encoder appends does not depend on what is there. *)
Lemma ack_put_split f out out' :
  AckFrame.put f out = Ok out' -> exists bs, out' = out ++ bs /\ AckFrame.put f [] = Ok bs.
Proof.
  intros H. unfold AckFrame.put in *. set (l := f.(AckFrame.additional_ranges)) in *.
  assert (Hall : forall o o', put_all AckRange.put l o = Ok o' ->
    exists bs, o' = o ++ bs /\ forall q, put_all AckRange.put l q = Ok (q ++ bs)).
  { clear H. induction l as [|r l IH]; intros o o' H; simpl in H.
    - injection H as <-. exists []. rewrite app_nil_r. split; [done|]. intros q. by rewrite app_nil_r.
    - apply bind_Ok in H as (o1 & H1 & H2). apply bind_Ok in H1 as (o2 & (c1 & -> & E1)%put_varint_shift & H1).
      apply put_varint_shift in H1 as (c2 & -> & E2). destruct (IH _ _ H2) as (b & -> & E3).
      exists (c1 ++ c2 ++ b). rewrite <- !app_assoc. split; [done|]. intros q. simpl.
      unfold enc_seq, AckRange.put, enc_seq. rewrite E1. cbn. rewrite E2. cbn. rewrite E3.
      by rewrite <- !app_assoc. }
  apply bind_Ok in H as (o1 & (b1 & -> & E1)%put_varint_shift & H).
  apply bind_Ok in H as (o2 & (b2 & -> & E2)%put_varint_shift & H).
  apply bind_Ok in H as (o3 & (b3 & -> & E3)%put_varint_shift & H).
  apply bind_Ok in H as (o4 & (b4 & -> & E4)%put_varint_shift & H).
  destruct (Hall _ _ H) as (b5 & -> & E5). exists (b1 ++ b2 ++ b3 ++ b4 ++ b5).
  rewrite <- !app_assoc. split; [done|]. unfold enc_seq.
  rewrite E1. cbn. rewrite E2. cbn. rewrite E3. cbn. rewrite E4. cbn. rewrite E5.
  by rewrite <- !app_assoc.
Qed.

(** The receiver never held as many ranges as it stores, so none was dropped. *)
Definition never_full (pns : list u64) : Prop :=
  forall k, len (receive_all (take k pns)).(AckReceiveState.ranges) < MAX_STORED_RANGES.

Lemma received_exactly pns x :
  never_full pns -> covers (receive_all pns).(AckReceiveState.ranges) x <-> x ∈ pns.
Proof.
  intros Hf. split; [apply receive_all_spec|]. induction pns as [|pn pns IH] using rev_ind; [by intros ?%elem_of_nil|].
  assert (Hf' : never_full pns).
  { intros k. destruct (decide (k <= length pns)%nat).
    - specialize (Hf k). by rewrite take_app_le in Hf.
    - specialize (Hf (length pns)). rewrite take_app_length in Hf. by rewrite take_ge by lia. }
  specialize (Hf (length pns)). rewrite take_app_length in Hf. unfold receive_all in *. rewrite fold_left_app. cbn [fold_left].
  intros Hx. apply record_covers; [apply receive_all_spec|done|].
  apply elem_of_app in Hx as [Hx|Hx%list_elem_of_singleton]; [left; by apply IH|by right].
Qed.

(** The last range ends in a number that was received. *)
Lemma received_last pns :
  pns <> [] -> never_full pns ->
  exists p, list.last (receive_all pns).(AckReceiveState.ranges) = Some p /\ p.2 ∈ pns.
Proof.
  intros Hne Hf. destruct pns as [|pn pns]; [done|].
  assert (Hc : covers (receive_all (pn :: pns)).(AckReceiveState.ranges) pn) by (apply received_exactly; [done|left]).
  destruct (list.last (receive_all (pn :: pns)).(AckReceiveState.ranges)) as [p|] eqn:E.
  - exists p. split; [done|]. apply received_exactly; [done|]. by apply (chain_last_covered _ _ (ok_chain _ (proj1 (receive_all_spec _)))).
  - apply list.last_None in E. rewrite E in Hc. by apply covers_nil in Hc.
Qed.

Lemma ack_loop_ranges pns payload sent p :
  list.last (receive_all pns).(AckReceiveState.ranges) = Some p ->
  len (receive_all pns).(AckReceiveState.ranges) <= MAX_ACK_RANGES + 1 ->
  p.2 < MAX_VARINT ->
  p.2 <= match list.last sent with None => 0 | Some q => q.(SentPacket.packet_number) end ->
  let received := covers (receive_all pns).(AckReceiveState.ranges) in
  exists bs f s',
    emit_ack (receive_all pns) payload = Ok (payload ++ bs, s')
    /\ decode_frames bs = Ok [Frame.Ack f]
    /\ AckSendState.apply_ack (AckSendState.mk sent) f.(AckFrame.largest_acknowledged) (flatten_ack f)
       = Ok (SentPacket.packet_number <$> filter (fun q => received q.(SentPacket.packet_number)) sent,
             AckSendState.mk (filter (fun q => ~ received q.(SentPacket.packet_number)) sent)).
Proof.
  intros Hp Hlen Hv Hsent received. destruct (receive_all_spec pns) as (Hk & _).
  destruct (build_ack_last _ 0 _ Hk Hp) as (d & first & extra & Hb & He & Hx).
  destruct (emit_ack_bytes _ payload _ _ _ _ Hk (receive_all_needs_ack _ _ Hp) Hb Hv) as (bs & Hemit & Hbs).
  exists bs, (ack_frame p.2 d first extra). eexists. split; [exact Hemit|]. split.
  - apply decode_encoded.
    + constructor; [|constructor]. apply ack_frame_nonempty; [|done].
      destruct (build_ack_Some _ _ _ _ _ _ Hk Hb) as (? & ? & _ & _ & _ & _ & -> & _). lia.
    + assert (Henc : encode_frame (Frame.Ack (ack_frame p.2 d first extra)) = Ok bs).
      { apply refuse_Ok. split; [|exact Hbs]. simpl. rewrite len_map. lia. }
      cbn [encode_frames]. rewrite Henc. cbn. by rewrite app_nil_r.
    + destruct (ack_total _ _ _ _ _ _ Hk Hb ltac:(done) Hv) as (bs' & Hl & Hbs').
      rewrite Hbs' in Hbs. injection Hbs as <-. eapply N.le_trans; [exact Hl|].
      unfold MAX_ACK_RANGES, usize_max, u64_max in *. lia.
  - simpl. rewrite flatten_ack_frame. by apply (apply_ack_received _ _ _ _ _ _ _ Hk Hb).
Qed.

(** ** Properties *)



(** Beyond 65 ranges the loop is broken: the session still answers, but with
    an ACK frame of more ranges than the frame format allows, which its peer
    refuses, and with it the whole payload. *)
Theorem ack_loop_too_many pns payload p :
  list.last (receive_all pns).(AckReceiveState.ranges) = Some p ->
  MAX_ACK_RANGES + 1 < len (receive_all pns).(AckReceiveState.ranges) ->
  p.2 < MAX_VARINT ->
  exists bs s', emit_ack (receive_all pns) payload = Ok (payload ++ bs, s')
    /\ decode_frames bs = Err TooManyAckRanges.
Proof.
  intros Hp Hlen Hv. destruct (receive_all_spec pns) as (Hk & _).
  destruct (build_ack_last _ 0 _ Hk Hp) as (d & first & extra & Hb & He & Hx).
  destruct (emit_ack_bytes _ payload _ _ _ _ Hk (receive_all_needs_ack _ _ Hp) Hb Hv) as (bs & Hemit & Hbs).
  exists bs. eexists. split; [exact Hemit|].
  destruct (ack_total _ _ _ _ _ _ Hk Hb ltac:(done) Hv) as (bs' & Hl & Hbs').
  assert (bs' = bs) as -> by (rewrite Hbs' in Hbs; by injection Hbs).
  assert (Hs : len bs <= usize_max).
  { pose proof (ok_bound _ Hk). unfold MAX_STORED_RANGES, usize_max, u64_max in *. lia. }
  clear Hbs'. apply bind_Ok in Hbs as (tb & Ht%map_err_Ok & Hbs).
  destruct (Varint.encode_into_decode _ _ _ Ht) as (tb' & -> & Hd). simpl in Hbs.
  destruct (ack_put_split _ _ _ Hbs) as (body & -> & Hbody).
  assert (Hf : fails AckFrame.body body TooManyAckRanges).
  { eapply ack_too_many; [|exact Hbody]. simpl. rewrite len_map. lia. }
  unfold decode_frames. specialize (Hf [] []). rewrite app_nil_r, len_nil in Hf. cbn [app] in Hf.
  assert (Hstep : decode_step (tb' ++ body) 0 = Err TooManyAckRanges).
  { unfold decode_step. rewrite from_0, Hd. cbn [map_err]. unfold mbind, Result_bind.
    change (behavior FrameType.ACK) with CriticalFixed. cbv iota beta zeta.
    rewrite N.add_0_l, from_app_len. change (decode_fixed FrameType.ACK body)
      with (as_frame Frame.Ack (AckFrame.body body 0)).
    rewrite Hf; [done|]. rewrite len_app in Hs. lia. }
  assert (Hne : 0 < len (tb' ++ body)).
  { specialize (Hd body). apply Varint.decode_bounds in Hd. rewrite len_app. lia. }
  destruct (tb' ++ body) as [|b l] eqn:El; [done|]. cbn [length decode_loop].
  rewrite (proj2 (N.ltb_lt _ _) Hne), Hstep. done.
Qed.

Lemma ack_loop_too_many_witness :
  exists bs s', emit_ack (receive_all (map (fun i => 2 * N.of_nat i) (seq 0 70))) [] = Ok ([] ++ bs, s')
    /\ decode_frames bs = Err TooManyAckRanges.
Proof.
  apply (ack_loop_too_many (map (fun i => 2 * N.of_nat i) (seq 0 70)) [] (138, 138));
    [vm_compute; reflexivity|vm_compute; reflexivity|reflexivity].
Defined.
