(* ===== verification/Stream.v ===== *)
(** * Streams (crates/umc-session/src/stream.rs)

    Reassembly of one stream's segments and the credit-bounded send side.  The
    [BTreeMap] of buffered segments is its list of entries in key order. *)

From S2P Require Import Prelude.

Definition MAX_OUT_OF_ORDER_BYTES : usize := 1048576.
Definition MAX_OUT_OF_ORDER_RANGES : usize := 256.

Inductive SendState :=
| Ready
| Send
| DataSent
| ResetSent
| DataAcked
| ResetAcked.

Inductive RecvState :=
| Recv
| SizeKnown
| DataRecvd
| ResetRecvd
| DataRead
| ResetRead.

#[global] Instance SendState_eq_dec : EqDecision SendState.
Proof. solve_decision. Defined.
#[global] Instance RecvState_eq_dec : EqDecision RecvState.
Proof. solve_decision. Defined.

Inductive StreamError :=
| AlreadyClosed
| ResetByPeer
| FinalSizeConflict
| DataBeyondFinalSize
| OverlappingDataConflict
| OutOfOrderBudgetExceeded
| OffsetsOutOfOrder.

(** ** [BTreeMap<u64, Vec<u8>>] *)

Abbreviation entry := (u64 * list u8)%type (only parsing).

(** [insert]: the value under an equal key is replaced. *)
Fixpoint map_insert (key : u64) (value : list u8) (m : list entry) : list entry :=
  match m with
  | [] => [(key, value)]
  | (k, v) :: rest =>
      if key <? k then (key, value) :: m
      else if key =? k then (key, value) :: rest
      else (k, v) :: map_insert key value rest
  end.

(** [range(..=key).next_back()] and [range(..key).next_back()]. *)
Definition last_at_most (key : u64) (m : list entry) : option entry :=
  list.last (filter (fun e => e.1 <= key) m).
Definition last_below (key : u64) (m : list entry) : option entry :=
  list.last (filter (fun e => e.1 < key) m).

Definition entry_end (e : entry) : u64 := saturating_add e.1 (len e.2).

Module Stream.

Record t := mk {
  stream_id : u64;
  protocol_id : list u8;
  metadata : list u8;
  recv_opened : bool;
  unidirectional : bool;
  send_state : SendState;
  recv_state : RecvState;
  next_send_offset : u64;
  final_size : option u64;
  reset_error_code : option u64;
  buffered : list entry;
  buffered_bytes : usize;
  next_deliver_offset : u64;
  max_stream_data_local : u64;
  max_stream_data_remote : u64
}.

Definition new (stream_id : u64) (protocol_id : list u8) (max_stream_data : u64) : t :=
  mk stream_id protocol_id [] false false Ready Recv 0 None None [] 0 0
     max_stream_data max_stream_data.

(** The fields the receive side assigns. *)
Definition set_recv (s : t) (recv_state : RecvState) (final_size : option u64)
    (buffered : list entry) (buffered_bytes : usize) (next_deliver_offset : u64) : t :=
  mk s.(stream_id) s.(protocol_id) s.(metadata) s.(recv_opened) s.(unidirectional)
     s.(send_state) recv_state s.(next_send_offset) final_size s.(reset_error_code)
     buffered buffered_bytes next_deliver_offset
     s.(max_stream_data_local) s.(max_stream_data_remote).

Definition set_final_size (s : t) (fs : option u64) : t :=
  set_recv s s.(recv_state) fs s.(buffered) s.(buffered_bytes) s.(next_deliver_offset).

(** The part of [receive] after the final-size bookkeeping, on a state whose
    final size is already recorded. *)
Definition buffer_segment (s : t) (offset : u64) (data : list u8) (end_ : u64)
    : Result StreamError usize * t :=
  if match s.(final_size) with Some fs => fs <? end_ | None => false end
  then (Err DataBeyondFinalSize, s)
  else if s.(max_stream_data_local) <? offset then (Err OffsetsOutOfOrder, s)
  else if end_ <=? s.(next_deliver_offset) then (Ok 0, s)
  else if match last_at_most offset s.(buffered) with
          | Some e => (e.1 <=? offset) && (end_ <=? entry_end e)
          | None => false
          end
  then (Ok 0, s)
  else if offset <? s.(next_deliver_offset) then (Err OffsetsOutOfOrder, s)
  else if match last_below offset s.(buffered) with
          | Some e => offset <? entry_end e
          | None => false
          end
  then (Err OverlappingDataConflict, s)
  else
    let buffered_bytes := saturating_add s.(buffered_bytes) (len data) in
    if (MAX_OUT_OF_ORDER_BYTES <? buffered_bytes)
       || (MAX_OUT_OF_ORDER_RANGES <=? len s.(buffered))
    then
      (Err OutOfOrderBudgetExceeded,
       set_recv s s.(recv_state) s.(final_size) s.(buffered)
         (saturating_sub buffered_bytes (len data)) s.(next_deliver_offset))
    else
      (Ok (len data),
       set_recv s s.(recv_state) s.(final_size) (map_insert offset data s.(buffered))
         buffered_bytes s.(next_deliver_offset)).

(** The state is returned on errors too: [receive] mutates before it fails. *)
Definition receive (s : t) (offset : u64) (data : list u8) (fin : bool)
    : Result StreamError usize * t :=
  match checked_add offset (len data) with
  | None => (Err DataBeyondFinalSize, s)
  | Some end_ =>
      if fin then
        match s.(final_size) with
        | Some fs =>
            if negb (fs =? end_) then (Err FinalSizeConflict, s)
            else buffer_segment s offset data end_
        | None => buffer_segment (set_final_size s (Some end_)) offset data end_
        end
      else buffer_segment s offset data end_
  end.

(** [while let Some((&offset, data)) = self.buffered.first_key_value()] *)
Fixpoint deliver (buffered : list entry) (buffered_bytes : usize) (next : u64)
    : list u8 * list entry * usize * u64 :=
  match buffered with
  | (offset, data) :: rest =>
      if negb (offset =? next) then ([], buffered, buffered_bytes, next)
      else
        let '(out, remaining, bytes, next) :=
          deliver rest (saturating_sub buffered_bytes (len data))
            (saturating_add offset (len data)) in
        (data ++ out, remaining, bytes, next)
  | [] => ([], [], buffered_bytes, next)
  end.

Definition read_available (s : t) : (list u8 * bool) * t :=
  let '(out, remaining, bytes, next) :=
    deliver s.(buffered) s.(buffered_bytes) s.(next_deliver_offset) in
  let eof := match s.(final_size) with Some fs => next =? fs | None => false end in
  ((out, eof),
   set_recv s (if eof then DataRead else s.(recv_state)) s.(final_size) remaining bytes next).

Definition max_received_offset (s : t) : u64 :=
  match list.last s.(buffered) with
  | Some e => entry_end e
  | None => s.(next_deliver_offset)
  end.

Definition send_ready (s : t) (data : list u8) : Result StreamError ((u64 * list u8) * t) :=
  if bool_decide (s.(send_state) = DataAcked) || bool_decide (s.(send_state) = ResetAcked)
     || bool_decide (s.(send_state) = ResetSent)
  then Err AlreadyClosed
  else
    let offset := s.(next_send_offset) in
    let allowed := saturating_sub s.(max_stream_data_remote) offset in
    let taken := N.min (len data) allowed in
    let send_state := if bool_decide (s.(send_state) = Ready) then Send else s.(send_state) in
    Ok ((offset, take (N.to_nat taken) data),
        mk s.(stream_id) s.(protocol_id) s.(metadata) s.(recv_opened) s.(unidirectional)
           send_state s.(recv_state) (s.(next_send_offset) + taken) s.(final_size)
           s.(reset_error_code) s.(buffered) s.(buffered_bytes) s.(next_deliver_offset)
           s.(max_stream_data_local) s.(max_stream_data_remote)).

(** ** Runs of the receive side *)

Inductive event :=
| Segment (offset : u64) (data : list u8) (fin : bool)
| Read.

(** The bytes handed to the reader. *)
Definition step (s : t) (e : event) : list u8 * t :=
  match e with
  | Segment offset data fin => ([], (receive s offset data fin).2)
  | Read => let '((out, _), s) := read_available s in (out, s)
  end.

Fixpoint run (s : t) (es : list event) : list u8 * t :=
  match es with
  | [] => ([], s)
  | e :: es =>
      let '(out, s) := step s e in
      let '(rest, s) := run s es in
      (out ++ rest, s)
  end.

End Stream.

(** ** The bytes delivered *)

(** [piece D e]: the entry holds the bytes of [D] at its offset. *)
Definition piece (D : list u8) (e : entry) : Prop :=
  e.1 + len e.2 <= len D /\ e.2 = take (length e.2) (drop (N.to_nat e.1) D).

Definition segments_of (D : list u8) (es : list Stream.event) : Prop :=
  Forall (fun e => match e with
                   | Stream.Segment offset data _ => piece D (offset, data)
                   | Stream.Read => True
                   end) es.

Lemma map_insert_Forall (P : entry -> Prop) k v m :
  P (k, v) -> Forall P m -> Forall P (map_insert k v m).
Proof.
  intros Hk. induction 1 as [|[k' v'] m Hx Hm IH]; simpl; [by constructor|].
  repeat case_match; repeat constructor; done.
Qed.

Lemma take_drop_app (D : list u8) n m :
  take n D ++ take m (drop n D) = take (n + m) D.
Proof. by rewrite take_take_drop. Qed.

Lemma deliver_pieces D m bytes next out rem bytes' next' :
  len D <= u64_max -> Forall (piece D) m -> next <= len D ->
  Stream.deliver m bytes next = (out, rem, bytes', next') ->
  next' = next + len out /\ next' <= len D /\ Forall (piece D) rem
  /\ take (N.to_nat next) D ++ out = take (N.to_nat next') D.
Proof.
  intros HD Hm. revert bytes next out rem bytes' next'.
  induction Hm as [|[o d] m Hp Hm IH]; intros bytes next out rem bytes' next' Hn E; simpl in E.
  - injection E as <- <- <- <-. rewrite app_nil_r, len_nil, N.add_0_r. by split_and!.
  - destruct (N.eqb_spec o next) as [->|]; simpl in E.
    + destruct (Stream.deliver m _ _) as [[[out1 rem1] bytes1] next1] eqn:E1.
      injection E as <- <- <- <-. destruct Hp as [Hl Hd]. simpl in Hl, Hd.
      unfold saturating_add in E1. rewrite N.min_l in E1 by lia.
      destruct (IH _ _ _ _ _ _ Hl E1) as (-> & Hle & Hr & Ht).
      split_and!; [rewrite len_app; lia|done|done|].
      rewrite <- Ht, app_assoc. f_equal. rewrite Hd at 1. rewrite take_drop_app. f_equal.
      unfold len. lia.
    + injection E as <- <- <- <-. rewrite app_nil_r, len_nil, N.add_0_r. split_and!; [done..| |done].
      by constructor.
Qed.

(** A segment of [D] leaves the delivered prefix alone and the buffer truthful. *)
Lemma receive_pieces D s offset data fin r s' :
  piece D (offset, data) -> Forall (piece D) s.(Stream.buffered) ->
  Stream.receive s offset data fin = (r, s') ->
  Forall (piece D) s'.(Stream.buffered)
  /\ s'.(Stream.next_deliver_offset) = s.(Stream.next_deliver_offset).
Proof.
  intros Hp Hb. unfold Stream.receive, Stream.buffer_segment.
  repeat (case_match; try (intros [= <- <-]; simpl; done));
    intros [= <- <-]; simpl; (split; [|done]); by apply map_insert_Forall.
Qed.

Definition stream_ok (D : list u8) (s : Stream.t) : Prop :=
  Forall (piece D) s.(Stream.buffered) /\ s.(Stream.next_deliver_offset) <= len D.

Lemma step_pieces D s e out s' :
  len D <= u64_max -> segments_of D [e] -> stream_ok D s -> Stream.step s e = (out, s') ->
  stream_ok D s' /\
  take (N.to_nat s.(Stream.next_deliver_offset)) D ++ out
  = take (N.to_nat s'.(Stream.next_deliver_offset)) D.
Proof.
  intros HD [He _]%Forall_cons_iff [Hb Hn] E. destruct e as [offset data fin|]; simpl in E.
  - injection E as <- <-. destruct (Stream.receive s offset data fin) as [r s1] eqn:Er. simpl.
    destruct (receive_pieces D s _ _ _ _ _ He Hb Er) as [Hb' Hn'].
    unfold stream_ok. by rewrite Hn', app_nil_r.
  - unfold Stream.read_available in E.
    destruct (Stream.deliver _ _ _) as [[[out1 rem] bytes] next] eqn:Ed. injection E as <- <-.
    destruct (deliver_pieces D _ _ _ _ _ _ _ HD Hb Hn Ed) as (_ & Hle & Hr & Ht). by split.
Qed.

Lemma run_pieces D s es out s' :
  len D <= u64_max -> segments_of D es -> stream_ok D s -> Stream.run s es = (out, s') ->
  stream_ok D s' /\
  take (N.to_nat s.(Stream.next_deliver_offset)) D ++ out
  = take (N.to_nat s'.(Stream.next_deliver_offset)) D.
Proof.
  intros HD Hes. revert s out s'. induction Hes as [|e es He Hes IH]; intros s out s' Hs E; simpl in E.
  - injection E as <- <-. by rewrite app_nil_r.
  - destruct (Stream.step s e) as [o1 s1] eqn:E1. destruct (Stream.run s1 es) as [o2 s2] eqn:E2.
    injection E as <- <-.
    destruct (step_pieces D s e o1 s1 HD) as [H1 H2]; [by constructor|done..|].
    destruct (IH _ _ _ H1 E2) as [H3 H4]. split; [done|]. by rewrite app_assoc, H2.
Qed.

(** ** A stalled stream *)

(** The first buffered segment begins before the next byte to deliver. *)
Definition stuck (s : Stream.t) : Prop :=
  match s.(Stream.buffered) with
  | e :: _ => e.1 < s.(Stream.next_deliver_offset)
  | [] => False
  end.

Lemma map_insert_head k v m e rest :
  m = e :: rest -> e.1 < k -> exists rest', map_insert k v m = e :: rest'.
Proof.
  intros -> H. destruct e as [k' v']. simpl in *.
  rewrite (proj2 (N.ltb_ge k k')), (proj2 (N.eqb_neq k k')) by lia. eauto.
Qed.

Lemma stuck_receive s offset data fin : stuck s -> stuck (Stream.receive s offset data fin).2.
Proof.
  intros Hs. unfold Stream.receive, Stream.buffer_segment.
  repeat (case_match; try (simpl; done)); simpl; unfold stuck in *; simpl in *;
    destruct (Stream.buffered s) as [|e rest] eqn:Eb; try done;
    destruct (map_insert_head offset data (e :: rest) e rest eq_refl) as [rest' ->]; lia || done.
Qed.

Lemma stuck_step s e : stuck s -> (Stream.step s e).1 = [] /\ stuck (Stream.step s e).2.
Proof.
  intros Hs. destruct e as [offset data fin|]; simpl; [split; [done|by apply stuck_receive]|].
  unfold Stream.read_available, stuck in *. destruct (Stream.buffered s) as [|[k v] rest]; [done|].
  simpl in *. rewrite (proj2 (N.eqb_neq _ _)) by lia. simpl. by split.
Qed.

Lemma stuck_run s es : stuck s -> (Stream.run s es).1 = [] /\ stuck (Stream.run s es).2.
Proof.
  revert s. induction es as [|e es IH]; intros s Hs; simpl; [done|].
  destruct (stuck_step s e Hs) as [H1 H2]. destruct (Stream.step s e) as [o s1]. simpl in *. subst o.
  destruct (IH s1 H2) as [H3 H4]. by destruct (Stream.run s1 es).
Qed.

(** ** A sender that keeps its segment boundaries *)

(** Where the chunks of a stream lie. *)
Fixpoint layout (o : u64) (chunks : list (list u8)) : list entry :=
  match chunks with
  | [] => []
  | c :: chunks => (o, c) :: layout (o + len c) chunks
  end.

(** No segment of the run is refused. *)
Fixpoint accepted (s : Stream.t) (es : list Stream.event) : Prop :=
  match es with
  | [] => True
  | e :: es =>
      match e with
      | Stream.Segment offset data fin => is_ok (Stream.receive s offset data fin).1 = true
      | Stream.Read => True
      end /\ accepted (Stream.step s e).2 es
  end.

Definition from_layout (L : list entry) (es : list Stream.event) : Prop :=
  Forall (fun e => match e with
                   | Stream.Segment offset data _ => (offset, data) ∈ L
                   | Stream.Read => True
                   end) es.

Definition stop (e : entry) : u64 := e.1 + len e.2.

Section Chunks.
Context (L : list entry) (total : u64).
Hypothesis nonempty : forall e, e ∈ L -> 0 < len e.2.
Hypothesis apart : forall e f, e ∈ L -> f ∈ L -> e = f \/ stop e <= f.1 \/ stop f <= e.1.
Hypothesis next_chunk : forall e, e ∈ L -> stop e = total \/ exists d, (stop e, d) ∈ L.
Hypothesis total_bound : forall e, e ∈ L -> stop e <= total.
Hypothesis total_u64 : total <= u64_max.

Fixpoint ascending (lo : u64) (m : list entry) : Prop :=
  match m with
  | [] => True
  | e :: m => lo <= e.1 /\ ascending (e.1 + 1) m
  end.

Definition boundary (x : u64) : Prop := x = total \/ exists d, (x, d) ∈ L.

Definition chunked (s : Stream.t) (seen : list entry) : Prop :=
  ascending s.(Stream.next_deliver_offset) s.(Stream.buffered)
  /\ Forall (fun e => e ∈ L) s.(Stream.buffered)
  /\ boundary s.(Stream.next_deliver_offset)
  /\ Forall (fun e => stop e <= s.(Stream.next_deliver_offset) \/ e ∈ s.(Stream.buffered)) seen.

Lemma ascending_weaken lo lo' m : lo' <= lo -> ascending lo m -> ascending lo' m.
Proof. destruct m as [|e m]; simpl; [done|]. intros Hl [H1 H2]. split; [lia|done]. Qed.

Lemma ascending_ge lo m e : ascending lo m -> e ∈ m -> lo <= e.1.
Proof.
  revert lo. induction m as [|f m IH]; intros lo Hm He; [by apply elem_of_nil in He|].
  apply elem_of_cons in He as [-> | He]; [apply Hm|].
  destruct Hm as [H1 H2]. specialize (IH _ H2 He). lia.
Qed.

Lemma ascending_insert lo k v m :
  lo <= k -> ascending lo m -> ascending lo (map_insert k v m).
Proof.
  revert lo. induction m as [|[k' v'] m IH]; intros lo Hk Hm; simpl; [done|].
  destruct Hm as [H1 H2]. simpl in *. destruct (N.ltb_spec k k'); [simpl; split_and!; try lia; done|].
  destruct (N.eqb_spec k k') as [->|]; [done|]. simpl. split; [done|]. apply IH; [lia|done].
Qed.

Lemma map_insert_elem k v m e :
  e ∈ map_insert k v m -> e = (k, v) \/ e ∈ m.
Proof.
  induction m as [|[k' v'] m IH]; simpl; [rewrite list_elem_of_singleton; tauto|].
  repeat case_match; rewrite !elem_of_cons; naive_solver.
Qed.

Lemma map_insert_new k v m : (k, v) ∈ map_insert k v m.
Proof.
  induction m as [|[k' v'] m IH]; simpl; [by apply list_elem_of_singleton|].
  repeat case_match; rewrite !elem_of_cons; naive_solver.
Qed.

Lemma map_insert_keep k v m e : e ∈ m -> e.1 <> k -> e ∈ map_insert k v m.
Proof.
  intros He Hk. induction m as [|[k' v'] m IH]; [by apply elem_of_nil in He|].
  apply elem_of_cons in He. simpl. destruct (N.ltb_spec k k'), (N.eqb_spec k k');
    rewrite !elem_of_cons; naive_solver.
Qed.

(** Two chunks that share a byte are one. *)
Lemma chunk_eq e f : e ∈ L -> f ∈ L -> f.1 <= e.1 -> e.1 < stop f -> e = f.
Proof.
  intros He Hf H1 H2. destruct (apart e f He Hf) as [?|[Hs|Hs]]; [done| |lia].
  specialize (nonempty e He). unfold stop in Hs. lia.
Qed.

Lemma last_filter_elem (P : entry -> Prop) `{!forall e, Decision (P e)} m e :
  list.last (filter P m) = Some e -> e ∈ m /\ P e.
Proof.
  intros Hla. apply last_Some in Hla as [l Hl].
  assert (He : e ∈ filter P m) by (rewrite Hl; apply elem_of_app; right; by apply list_elem_of_singleton).
  apply list_elem_of_filter in He. tauto.
Qed.

Lemma chunked_receive s seen o d fin r s' :
  (o, d) ∈ L -> chunked s seen -> Stream.receive s o d fin = (Ok r, s') ->
  chunked s' ((o, d) :: seen).
Proof.
  intros Hin (Ha & Hb & Hn & Hs) E.
  assert (Hcase : exists s0, s0.(Stream.buffered) = s.(Stream.buffered)
      /\ s0.(Stream.next_deliver_offset) = s.(Stream.next_deliver_offset)
      /\ Stream.buffer_segment s0 o d (stop (o, d)) = (Ok r, s')).
  { unfold Stream.receive in E. destruct (checked_add o (len d)) as [end_|] eqn:Ec; [|done].
    apply checked_add_Some in Ec as [-> _].
    destruct fin; [destruct (Stream.final_size s) eqn:Ef; [destruct (negb _); [done|]|]|];
      eexists; (split; [|split; [|exact E]]); done. }
  clear E. destruct Hcase as (s0 & Eb & En & E). unfold chunked. rewrite <- Eb, <- En in *. clear Eb En s.
  unfold Stream.buffer_segment in E.
  do 2 (case_match; [done|]). case_match eqn:Hend.
  { injection E as <- <-. split_and!; [done..|]. constructor; [left; lia|done]. }
  destruct (match last_at_most o s0.(Stream.buffered) with
            | Some e => _ | None => _ end) eqn:Hdup.
  { injection E as <- <-. split_and!; [done..|]. constructor; [right|done].
    destruct (last_at_most o _) as [f|] eqn:El; [|done].
    apply last_filter_elem in El as [Hf Hle]. rewrite list.Forall_forall in Hb.
    assert (Hst : o < stop f).
    { pose proof (total_bound f (Hb f Hf)). pose proof (nonempty _ Hin). simpl in *.
      unfold entry_end, saturating_add, stop in *. simpl in *. lia. }
    by rewrite (chunk_eq (o, d) f Hin (Hb f Hf) Hle Hst). }
  destruct (N.ltb_spec o s0.(Stream.next_deliver_offset)); [done|].
  case_match; [done|]. case_match; [done|]. injection E as <- <-. simpl. split_and!; [|..|done|].
  - by apply ascending_insert.
  - by apply map_insert_Forall.
  - constructor; [right; apply map_insert_new|].
    eapply Forall_impl; [|exact Hs]. intros f [Hf|Hf]; [by left|right].
    destruct (decide (f.1 = o)) as [Hfo|Hfo]; [|by apply map_insert_keep].
    rewrite list.Forall_forall in Hb. pose proof (nonempty f (Hb f Hf)).
    assert ((o, d) = f) as <-; [|apply map_insert_new].
    apply chunk_eq; [done|by apply Hb|simpl; lia|simpl; unfold stop; lia].
Qed.

(** What lies above a chunk begins at its end or later. *)
Lemma ascending_after o d m :
  (o, d) ∈ L -> Forall (fun e => e ∈ L) m -> ascending (o + 1) m -> ascending (o + len d) m.
Proof.
  intros Hin Hb. destruct m as [|e m]; [done|]. intros [H1 H2]. split; [|done].
  apply Forall_cons_iff in Hb as [He _].
  destruct (apart (o, d) e Hin He) as [<-|[Hs|Hs]]; unfold stop in *; simpl in *; lia.
Qed.

Lemma chunked_deliver m bytes next out rem bytes' next' :
  ascending next m -> Forall (fun e => e ∈ L) m -> boundary next ->
  Stream.deliver m bytes next = (out, rem, bytes', next') ->
  ascending next' rem /\ Forall (fun e => e ∈ L) rem /\ boundary next' /\ next <= next'
  /\ (forall e, e ∈ m -> stop e <= next' \/ e ∈ rem)
  /\ match rem with e :: _ => e.1 <> next' | [] => True end.
Proof.
  revert bytes next out rem bytes' next'.
  induction m as [|[o d] m IH]; intros bytes next out rem bytes' next' Ha Hb Hn E; simpl in E.
  - injection E as <- <- <- <-. split_and!; [done..|lia| |done]. intros e He. by apply elem_of_nil in He.
  - destruct (N.eqb_spec o next) as [->|Hne]; simpl in E.
    + destruct (Stream.deliver m _ _) as [[[out1 rem1] bytes1] next1] eqn:E1. injection E as <- <- <- <-.
      apply Forall_cons_iff in Hb as [Hin Hb]. destruct Ha as [_ Ha]. simpl in Ha.
      pose proof (total_bound _ Hin) as Ht. unfold stop in Ht. simpl in Ht.
      unfold saturating_add in E1. rewrite N.min_l in E1 by lia.
      destruct (IH _ _ _ _ _ _ (ascending_after _ _ _ Hin Hb Ha) Hb (next_chunk _ Hin) E1)
        as (H1 & H2 & H3 & H4 & H5 & H6).
      split_and!; [done..|lia| |done]. intros e [-> | He]%elem_of_cons; [|by apply H5].
      left. unfold stop. simpl. lia.
    + injection E as <- <- <- <-. split_and!; [done..|lia| |done]. intros e He. by right.
Qed.

Lemma chunked_step s seen e :
  match e with Stream.Segment o d _ => (o, d) ∈ L | Stream.Read => True end ->
  match e with
  | Stream.Segment o d fin => is_ok (Stream.receive s o d fin).1 = true
  | Stream.Read => True
  end ->
  chunked s seen ->
  chunked (Stream.step s e).2
    (match e with Stream.Segment o d _ => [(o, d)] | Stream.Read => [] end ++ seen).
Proof.
  intros Hin Hok Hc. destruct e as [o d fin|]; simpl.
  - destruct (Stream.receive s o d fin) as [[r|] s1] eqn:E; [|done]. by eapply chunked_receive.
  - destruct Hc as (Ha & Hb & Hn & Hs). unfold Stream.read_available.
    destruct (Stream.deliver _ _ _) as [[[out rem] bytes] next] eqn:E.
    destruct (chunked_deliver _ _ _ _ _ _ _ Ha Hb Hn E) as (H1 & H2 & H3 & H4 & H5 & _).
    split_and!; [done..|]. simpl. eapply Forall_impl; [|exact Hs].
    intros f [Hf|Hf]; [left; lia|by apply H5].
Qed.

Definition chunks_of (es : list Stream.event) : list entry :=
  omap (fun e => match e with
                 | Stream.Segment o d _ => Some (o, d)
                 | Stream.Read => None
                 end) es.

Lemma chunked_run s seen es :
  from_layout L es -> accepted s es -> chunked s seen ->
  chunked (Stream.run s es).2 (rev (chunks_of es) ++ seen).
Proof.
  intros Hes. revert s seen. induction Hes as [|e es He Hes IH]; intros s seen Hok Hc; [done|].
  destruct Hok as [Hok1 Hok2]. pose proof (chunked_step s seen e He Hok1 Hc) as Hc1.
  simpl. destruct (Stream.step s e) as [o1 s1]. simpl in *.
  specialize (IH s1 _ Hok2 Hc1). destruct (Stream.run s1 es) as [o2 s2]. simpl in *.
  destruct e as [o d fin|]; simpl in *; [|done]. by rewrite <- app_assoc.
Qed.

(** After a read nothing but missing chunks holds delivery up. *)
Lemma chunked_complete s seen :
  chunked s seen -> (forall e, e ∈ L -> e ∈ seen) ->
  (Stream.read_available s).2.(Stream.next_deliver_offset) = total.
Proof.
  intros (Ha & Hb & Hn & Hs) Hall. unfold Stream.read_available.
  destruct (Stream.deliver _ _ _) as [[[out rem] bytes] next] eqn:E. simpl.
  destruct (chunked_deliver _ _ _ _ _ _ _ Ha Hb Hn E) as (H1 & H2 & H3 & H4 & H5 & H6).
  destruct H3 as [?|[d Hd]]; [done|]. exfalso. rewrite list.Forall_forall in Hs.
  pose proof (nonempty _ Hd) as Hne. simpl in Hne.
  assert (Hrem : (next, d) ∈ rem).
  { destruct (Hs _ (Hall _ Hd)) as [Hf|Hf]; [unfold stop in Hf; simpl in Hf; lia|].
    destruct (H5 _ Hf) as [Hf'|]; [unfold stop in Hf'; simpl in Hf'; lia|done]. }
  destruct rem as [|f rem]; [by apply elem_of_nil in Hrem|].
  apply elem_of_cons in Hrem as [<-|Hrem]; [done|]. destruct H1 as [Hf Hr].
  pose proof (ascending_ge _ _ _ Hr Hrem) as Hge. simpl in Hge. lia.
Qed.

End Chunks.

(** The layout of a list of chunks is such a family. *)
Lemma layout_ge o cs e : e ∈ layout o cs -> o <= e.1 /\ stop e <= o + len (concat cs).
Proof.
  revert o. induction cs as [|c cs IH]; intros o He; [by apply elem_of_nil in He|].
  simpl in *. rewrite len_app. unfold stop in *.
  apply elem_of_cons in He as [-> | He]; simpl; [lia|]. destruct (IH _ He). lia.
Qed.

Lemma layout_nonempty o cs e : Forall (fun c => c <> []) cs -> e ∈ layout o cs -> 0 < len e.2.
Proof.
  intros Hc. revert o. induction Hc as [|c cs Hc Hcs IH]; intros o He; [by apply elem_of_nil in He|].
  apply elem_of_cons in He as [-> | He]; [|by eapply IH]. simpl. destruct c; [done|]. rewrite len_cons. lia.
Qed.

Lemma layout_apart o cs e f :
  e ∈ layout o cs -> f ∈ layout o cs -> e = f \/ stop e <= f.1 \/ stop f <= e.1.
Proof.
  revert o. induction cs as [|c cs IH]; intros o He Hf; [by apply elem_of_nil in He|].
  simpl in *. apply elem_of_cons in He as [-> | He], Hf as [-> | Hf]; [by left| | |by eapply IH].
  - right. left. apply layout_ge in Hf. unfold stop. simpl. lia.
  - right. right. apply layout_ge in He. unfold stop. simpl. lia.
Qed.

Lemma layout_next o cs e :
  e ∈ layout o cs ->
  stop e = o + len (concat cs) \/ exists d, (stop e, d) ∈ layout o cs.
Proof.
  revert o. induction cs as [|c cs IH]; intros o He; [by apply elem_of_nil in He|].
  simpl in *. rewrite len_app. apply elem_of_cons in He as [-> | He].
  - unfold stop. simpl. destruct cs as [|c' cs]; [left; change (len (concat [])) with 0; lia|right].
    exists c'. simpl. rewrite !elem_of_cons. auto.
  - destruct (IH _ He) as [-> | [d Hd]]; [left; lia|right]. exists d. by apply elem_of_cons; right.
Qed.

Lemma layout_piece o pre cs e :
  len pre = o -> e ∈ layout o cs -> piece (pre ++ concat cs) e.
Proof.
  revert o pre. induction cs as [|c cs IH]; intros o pre Ho He; [by apply elem_of_nil in He|].
  simpl in *. apply elem_of_cons in He as [-> | He].
  - unfold piece. simpl. rewrite !len_app. split; [lia|]. rewrite <- Ho, <- length_len.
    by rewrite drop_app_length, take_app_length.
  - rewrite app_assoc. apply (IH (o + len c)); [rewrite len_app; lia|done].
Qed.

Lemma run_snoc s es e :
  Stream.run s (es ++ [e]) =
  let '(out, s) := Stream.run s es in
  let '(o, s) := Stream.step s e in (out ++ o, s).
Proof.
  revert s. induction es as [|f es IH]; intros s; simpl.
  - destruct (Stream.step s e). by rewrite app_nil_r.
  - destruct (Stream.step s f) as [o1 s1]. rewrite IH. destruct (Stream.run s1 es) as [o2 s2].
    destruct (Stream.step s2 e). by rewrite app_assoc.
Qed.

(** *** The final size *)

Definition has_fin (e : Stream.event) : bool := match e with Stream.Segment _ _ fin => fin | Stream.Read => false end.

(** The FIN flag is set on segments that end at [total] only. *)
Definition fin_at (total : u64) (es : list Stream.event) : Prop :=
  Forall (fun e => match e with Stream.Segment o d true => o + len d = total | _ => True end) es.

Lemma buffer_segment_final s o d end_ : (Stream.buffer_segment s o d end_).2.(Stream.final_size) = s.(Stream.final_size).
Proof. unfold Stream.buffer_segment. by repeat case_match. Qed.

Lemma step_final total s e :
  total <= u64_max -> match e with Stream.Segment o d true => o + len d = total | _ => True end ->
  s.(Stream.final_size) = None \/ s.(Stream.final_size) = Some total ->
  (Stream.step s e).2.(Stream.final_size) = if has_fin e then Some total else s.(Stream.final_size).
Proof.
  intros Hmax He Hs. destruct e as [o d fin|]; simpl.
  - unfold Stream.receive. destruct (checked_add o (len d)) as [end_|] eqn:Ec.
    + apply checked_add_Some in Ec as [-> _]. destruct fin; [|by rewrite buffer_segment_final].
      rewrite He. destruct Hs as [Hs|Hs]; rewrite Hs; [by rewrite buffer_segment_final|].
      rewrite N.eqb_refl. cbn [negb]. by rewrite buffer_segment_final.
    + destruct fin; [|done]. unfold checked_add in Ec. by rewrite He, (proj2 (N.leb_le _ _) Hmax) in Ec.
  - unfold Stream.read_available. by destruct (Stream.deliver _ _ _) as [[[? ?] ?] ?].
Qed.

Lemma run_final total s es :
  total <= u64_max -> fin_at total es -> s.(Stream.final_size) = None ->
  (Stream.run s es).2.(Stream.final_size) = if existsb has_fin es then Some total else None.
Proof.
  intros Hmax Hes Hs. induction es as [|e es IH] using rev_ind; [done|]. apply Forall_app in Hes as [Hes [He _]%Forall_cons_iff].
  specialize (IH Hes). rewrite run_snoc. destruct (Stream.run s es) as [out s1]. cbn [snd] in IH.
  pose proof (step_final total s1 e Hmax He) as Hstep. destruct (Stream.step s1 e) as [o s2]. cbn [snd] in *.
  rewrite existsb_app. cbn [existsb]. rewrite orb_false_r, Hstep, IH; [|rewrite IH; destruct (existsb _ es); auto].
  by destruct (existsb has_fin es), (has_fin e).
Qed.

Lemma read_eof s :
  (Stream.read_available s).1.2 =
  match s.(Stream.final_size) with
  | Some fs => (Stream.read_available s).2.(Stream.next_deliver_offset) =? fs
  | None => false
  end.
Proof. unfold Stream.read_available. by destruct (Stream.deliver _ _ _) as [[[? ?] ?] ?]. Qed.

(** ** Budgets *)

Definition within_budget (s : Stream.t) : Prop :=
  s.(Stream.buffered_bytes) <= MAX_OUT_OF_ORDER_BYTES
  /\ len s.(Stream.buffered) <= MAX_OUT_OF_ORDER_RANGES.

Lemma map_insert_len k v m : len (map_insert k v m) <= len m + 1.
Proof.
  induction m as [|[k' v'] m IH]; simpl; [done|]. repeat case_match; rewrite ?len_cons in *; lia.
Qed.

Lemma deliver_budget m bytes next out rem bytes' next' :
  Stream.deliver m bytes next = (out, rem, bytes', next') -> bytes' <= bytes /\ len rem <= len m.
Proof.
  revert bytes next out rem bytes' next'. induction m as [|[o d] m IH]; intros bytes next out rem bytes' next' E; simpl in E.
  - injection E as <- <- <- <-. lia.
  - destruct (negb _); [injection E as <- <- <- <-; lia|].
    destruct (Stream.deliver m _ _) as [[[out1 rem1] bytes1] next1] eqn:E1. injection E as <- <- <- <-.
    apply IH in E1. rewrite len_cons. unfold saturating_sub in *. lia.
Qed.

Lemma step_budget s e : within_budget s -> within_budget (Stream.step s e).2.
Proof.
  intros [H1 H2]. destruct e as [o d fin|]; simpl.
  - unfold Stream.receive, Stream.buffer_segment. pose proof (map_insert_len o d s.(Stream.buffered)).
    repeat (case_match; try done); unfold within_budget; simpl in *;
      unfold saturating_add, saturating_sub in *; lia.
  - unfold Stream.read_available. destruct (Stream.deliver _ _ _) as [[[out rem] bytes] next] eqn:E.
    apply deliver_budget in E. unfold within_budget. simpl. lia.
Qed.

(** ** Properties *)

(** C28: A stream delivers exactly the sender's bytes, in order: whatever segments
    of the byte string [D] arrive, in any order, overlapping or repeated, with
    reads in between, the bytes handed to the reader are the first
    [next_deliver_offset] bytes of [D]. *)
Theorem stream_in_order D id proto max es out s :
  len D <= u64_max -> segments_of D es -> Stream.run (Stream.new id proto max) es = (out, s) ->
  out = take (N.to_nat s.(Stream.next_deliver_offset)) D.
Proof.
  intros HD Hes E.
  destruct (run_pieces D (Stream.new id proto max) es out s HD Hes) as [_ H]; [|done|done].
  split; [constructor|]. simpl. lia.
Qed.

Lemma stream_in_order_witness :
  [1; 2; 3; 4; 5]
  = take (N.to_nat (Stream.run (Stream.new 0 [] 100)
      [Stream.Segment 3 [4; 5] false; Stream.Read; Stream.Segment 0 [1; 2; 3] false; Stream.Read]).2
        .(Stream.next_deliver_offset)) [1; 2; 3; 4; 5; 6].
Proof.
  apply (stream_in_order [1; 2; 3; 4; 5; 6] 0 [] 100
    [Stream.Segment 3 [4; 5] false; Stream.Read; Stream.Segment 0 [1; 2; 3] false; Stream.Read]);
    [discriminate| |reflexivity].
  repeat constructor; discriminate.
Defined.

(** C29: With a sender that keeps its segment boundaries nothing is lost: once
    every chunk of the stream has been accepted at least once, in any order and
    with any repetitions, a read completes the delivery of the whole stream; and
    that read reports the end exactly when a segment with the FIN flag has been
    among them, which a sender sets at the end of the stream only. *)
Theorem stream_complete chunks id proto max es :
  Forall (fun c => c <> []) chunks -> len (concat chunks) <= u64_max ->
  from_layout (layout 0 chunks) es -> fin_at (len (concat chunks)) es -> accepted (Stream.new id proto max) es ->
  (forall e, e ∈ layout 0 chunks -> e ∈ chunks_of es) ->
  let '(out, s) := Stream.run (Stream.new id proto max) es in
  let '((rest, eof), _) := Stream.read_available s in
  out ++ rest = concat chunks /\ eof = existsb has_fin es.
Proof.
  intros Hne Hmax Hes Hfins Hok Hall. set (L := layout 0 chunks) in *. set (D := concat chunks) in *.
  set (s0 := Stream.new id proto max) in *.
  assert (H0 : chunked L (len D) s0 []).
  { split_and!; [done|constructor| |constructor]. simpl. unfold boundary.
    subst L D. destruct chunks as [|c cs]; [by left|right]. exists c. simpl. by apply elem_of_cons; left. }
  pose proof (chunked_run L (len D) (fun e => layout_nonempty 0 chunks e Hne)
    (layout_apart 0 chunks) (layout_next 0 chunks) (fun e He => proj2 (layout_ge 0 chunks e He))
    Hmax s0 [] es Hes Hok H0) as Hc.
  pose proof (run_final (len D) s0 es Hmax Hfins eq_refl) as Hf.
  destruct (run_pieces D s0 (es ++ [Stream.Read]) (Stream.run s0 (es ++ [Stream.Read])).1
    (Stream.run s0 (es ++ [Stream.Read])).2 Hmax) as [_ H].
  { apply Forall_app. split; [|by repeat constructor].
    eapply Forall_impl; [|exact Hes]. intros [o d fin|] He; [|done]. by apply (layout_piece 0 [] chunks). }
  { split; [constructor|]. simpl. lia. }
  { apply surjective_pairing. }
  rewrite run_snoc in H. destruct (Stream.run s0 es) as [out s] eqn:E. cbn [snd] in Hc, Hf.
  pose proof (chunked_complete L (len D) (fun e => layout_nonempty 0 chunks e Hne)
    (layout_apart 0 chunks) (layout_next 0 chunks) (fun e He => proj2 (layout_ge 0 chunks e He))
    Hmax s _ Hc) as Hfin.
  rewrite app_nil_r in Hfin. setoid_rewrite list_elem_of_In in Hfin. setoid_rewrite <- in_rev in Hfin.
  setoid_rewrite <- list_elem_of_In in Hfin. specialize (Hfin Hall). pose proof (read_eof s) as He. cbn [Stream.step] in H.
  destruct (Stream.read_available s) as [[rest eof] s']. cbn [fst snd] in *. split.
  - simpl in H. rewrite H, Hfin. by rewrite <- length_len, firstn_all.
  - rewrite He, Hf, Hfin. by destruct (existsb has_fin es); rewrite ?N.eqb_refl.
Qed.

Lemma stream_complete_witness :
  let es := [Stream.Segment 2 [3] true; Stream.Segment 0 [1; 2] false; Stream.Read; Stream.Segment 0 [1; 2] false] in
  let '(out, s) := Stream.run (Stream.new 0 [] 100) es in
  let '((rest, eof), _) := Stream.read_available s in
  out ++ rest = concat [[1; 2]; [3]] /\ eof = true.
Proof.
  apply (stream_complete [[1; 2]; [3]] 0 [] 100
    [Stream.Segment 2 [3] true; Stream.Segment 0 [1; 2] false; Stream.Read; Stream.Segment 0 [1; 2] false]).
  - repeat constructor; discriminate.
  - discriminate.
  - repeat constructor; rewrite ?elem_of_cons; tauto.
  - by repeat constructor.
  - repeat split.
  - intros e He. simpl in He. rewrite !elem_of_cons in He. simpl. rewrite !elem_of_cons. tauto.
Defined.

(** A stream can stall for ever: once the first buffered segment begins below
    the next byte to deliver, no later segments and reads ever deliver a byte
    again. *)
Theorem stream_stall s es : stuck s -> (Stream.run s es).1 = [].
Proof. intros H. by apply stuck_run. Qed.

(** The stall is reached by two accepted segments of one stream: bytes 10 to 19,
    then bytes 0 to 14. *)
Lemma stream_stall_witness :
  (Stream.run
     (Stream.run (Stream.new 0 [] 100)
        [Stream.Segment 10 (replicate 10 7) false; Stream.Segment 0 (replicate 15 7) false;
         Stream.Read]).2
     [Stream.Segment 15 (replicate 5 7) false; Stream.Segment 10 (replicate 10 7) false;
      Stream.Segment 15 (replicate 30 7) true; Stream.Read]).1 = [].
Proof. apply stream_stall. reflexivity. Defined.

(** Out-of-order data is bounded: after any run of segments and reads a stream
    buffers at most 1 MiB in at most 256 ranges. *)
Theorem stream_budget id proto max es :
  within_budget (Stream.run (Stream.new id proto max) es).2.
Proof.
  assert (H : within_budget (Stream.new id proto max)) by (split; discriminate).
  revert H. generalize (Stream.new id proto max). induction es as [|e es IH]; intros s H; [done|].
  simpl. pose proof (step_budget s e H) as H1. destruct (Stream.step s e) as [o s1].
  specialize (IH s1 H1). by destruct (Stream.run s1 es).
Qed.

(** A refused segment changes nothing but, possibly, the final size: every
    error leaves buffer, byte count and delivery offset as they were, and the
    final size was set by the refused segment itself or is unchanged. *)
Theorem stream_refusal s offset data fin e s' :
  s.(Stream.buffered_bytes) + len data <= u64_max ->
  Stream.receive s offset data fin = (Err e, s') ->
  s' = s \/ (fin = true /\ s.(Stream.final_size) = None
             /\ s' = Stream.set_final_size s (Some (offset + len data))).
Proof.
  intros Hb. unfold Stream.receive. destruct (checked_add offset (len data)) as [end_|] eqn:Ec;
    [|by intros [= <- <-]; left].
  apply checked_add_Some in Ec as [-> _].
  assert (Hkeep : forall s0 r, s0.(Stream.buffered_bytes) = s.(Stream.buffered_bytes) ->
    Stream.buffer_segment s0 offset data (offset + len data) = (Err e, r) -> r = s0).
  { intros s0 r E0. unfold Stream.buffer_segment. repeat (case_match; try (by intros [= <- <-]));
      intros [= <- <-]; destruct s0; simpl in *; subst;
      unfold Stream.set_recv, saturating_add, saturating_sub; simpl; f_equal; lia. }
  destruct fin; [|by intros ->%Hkeep; [left|]].
  destruct (Stream.final_size s) as [fs|] eqn:Ef.
  - case_match; [by intros [= <- <-]; left|]. by intros ->%Hkeep; [left|].
  - intros ->%Hkeep; [by right|done].
Qed.

Lemma stream_refusal_witness :
  let s := Stream.new 0 [] 5 in
  (Stream.receive s 9 [1] true).2 = s \/
  (true = true /\ s.(Stream.final_size) = None
   /\ (Stream.receive s 9 [1] true).2 = Stream.set_final_size s (Some (9 + len [1]))).
Proof.
  intros s. apply (stream_refusal s 9 [1] true OffsetsOutOfOrder); [discriminate|reflexivity].
Defined.

(** The send side respects the peer's credit: what [send_ready] hands out is a
    prefix of the data at the current offset, the offsets it hands out are
    contiguous, and the end of what is sent never passes the peer's limit. *)
Theorem send_ready_credit s data offset chunk s' :
  s.(Stream.next_send_offset) <= s.(Stream.max_stream_data_remote) ->
  Stream.send_ready s data = Ok ((offset, chunk), s') ->
  offset = s.(Stream.next_send_offset)
  /\ s'.(Stream.next_send_offset) = offset + len chunk
  /\ s'.(Stream.next_send_offset) <= s.(Stream.max_stream_data_remote)
  /\ (exists rest, data = chunk ++ rest
      /\ (rest <> [] -> s'.(Stream.next_send_offset) = s.(Stream.max_stream_data_remote)))
  /\ s'.(Stream.send_state) <> Ready.
Proof.
  intros Hn. unfold Stream.send_ready. case_match eqn:Hc; [done|]. intros [= <- <- <-]. simpl.
  unfold saturating_sub. set (allowed := s.(Stream.max_stream_data_remote) - s.(Stream.next_send_offset)).
  set (n := N.min (len data) allowed).
  assert (Hl : len (take (N.to_nat n) data) = n) by (unfold len in *; rewrite length_take; lia).
  rewrite Hl. split_and!; [done|done|lia| |by destruct s.(Stream.send_state)].
  exists (drop (N.to_nat n) data). rewrite take_drop. split; [done|]. intros Hr.
  assert (n < len data); [|lia]. destruct (N.lt_ge_cases n (len data)) as [|Hge]; [done|].
  exfalso. apply Hr. apply drop_ge. unfold len in *. lia.
Qed.

Lemma send_ready_credit_witness :
  let s := Stream.new 4 [] 3 in
  let s' := match Stream.send_ready s [1; 2; 3; 4; 5] with Ok (_, s') => s' | Err _ => s end in
  0 = s.(Stream.next_send_offset)
  /\ s'.(Stream.next_send_offset) = 0 + len [1; 2; 3]
  /\ s'.(Stream.next_send_offset) <= s.(Stream.max_stream_data_remote)
  /\ (exists rest, [1; 2; 3; 4; 5] = [1; 2; 3] ++ rest
      /\ (rest <> [] -> s'.(Stream.next_send_offset) = s.(Stream.max_stream_data_remote)))
  /\ s'.(Stream.send_state) <> Ready.
Proof.
  intros s s'. apply (send_ready_credit s [1; 2; 3; 4; 5] 0 [1; 2; 3] s'); [discriminate|reflexivity].
Defined.
