(* ===== verification/Loss.v ===== *)
(** * Round-trip estimation and loss detection
      (crates/umc-session/src/rtt.rs, loss.rs)

    The estimator and the detector add and multiply millisecond counts and
    packet numbers without a checked form; the model computes them exactly,
    which is what the machine does for values below 2^60
    ([rtt_within_samples] gives the bound of the estimator). *)

From S2P Require Import Prelude Spaces SentPackets Ack.

Definition TIMER_GRANULARITY_MS : u64 := 1.
Definition DEFAULT_PTO_MS : u64 := 1000.
Definition PACKET_THRESHOLD : u64 := 3.
Definition MAX_PTO_BACKOFF_EXPONENT : u32 := 6.

Module RttEstimator.

Record t := mk {
  latest_rtt : u64;
  min_rtt : u64;
  smoothed_rtt : u64;
  rtt_variance : u64;
  initialized : bool
}.

Definition new : t := mk 0 0 0 0 false.

Definition sample (r : t) (sample_ms : u64) : t :=
  if negb r.(initialized) then mk sample_ms sample_ms sample_ms (sample_ms / 2) true
  else
    let abs_diff := abs_diff r.(smoothed_rtt) sample_ms in
    mk sample_ms (N.min r.(min_rtt) sample_ms)
       ((7 * r.(smoothed_rtt) + sample_ms) / 8)
       ((3 * r.(rtt_variance) + abs_diff) / 4) true.

End RttEstimator.

Module PtoState.

Record t := mk { consecutive : u32 }.

Definition default : t := mk 0.

Definition multiplier (p : t) : u32 := N.shiftl 1 p.(consecutive).

Definition next_deadline (p : t) (pto : Duration) (now : Instant) : Instant :=
  instant_add now (saturating_mul pto (multiplier p)).

Definition on_expiry (p : t) : t := mk (N.min (p.(consecutive) + 1) MAX_PTO_BACKOFF_EXPONENT).

Definition on_ack (p : t) : t := mk 0.

End PtoState.

Module LossDetector.

Record t := mk { max_ack_delay_ms : u64 }.

Definition new (max_ack_delay_ms : u64) : t := mk max_ack_delay_ms.

Definition pto (d : t) (rtt : RttEstimator.t) : Duration :=
  if negb rtt.(RttEstimator.initialized) then DEFAULT_PTO_MS
  else
    let variance_term := N.max (4 * rtt.(RttEstimator.rtt_variance)) TIMER_GRANULARITY_MS in
    rtt.(RttEstimator.smoothed_rtt) + variance_term + d.(max_ack_delay_ms).

Definition packet_threshold_lost (d : t) (sent_pn largest_acked : u64) : bool :=
  sent_pn + PACKET_THRESHOLD <=? largest_acked.

Definition time_threshold_lost (d : t) (rtt : RttEstimator.t) (sent_at now : Instant)
    (higher_acked : bool) : bool :=
  if negb higher_acked || negb rtt.(RttEstimator.initialized) then false
  else
    let threshold :=
      (9 * N.max rtt.(RttEstimator.latest_rtt) rtt.(RttEstimator.smoothed_rtt)) / 8 in
    threshold <=? duration_since now sent_at.

Definition persistent_congestion (d : t) (pto : Duration) (oldest_lost_at newest_lost_at : Instant)
    : bool :=
  3 * pto <=? duration_since newest_lost_at oldest_lost_at.

End LossDetector.

(** The test of one packet. *)
Definition packet_lost (rtt : RttEstimator.t) (now : Instant) (largest_acked : u64)
    (d : LossDetector.t) (p : SentPacket.t) : bool :=
  let pn := p.(SentPacket.packet_number) in
  LossDetector.packet_threshold_lost d pn largest_acked
  || LossDetector.time_threshold_lost d rtt p.(SentPacket.sent_at) now (pn <? largest_acked).

(** [for p in sent_state.sent().iter().cloned()] *)
Fixpoint split_lost (lost : SentPacket.t -> bool) (sent : list SentPacket.t)
    : list u64 * list SentPacket.t :=
  match sent with
  | [] => ([], [])
  | p :: sent =>
      let '(out, keep) := split_lost lost sent in
      if lost p then (p.(SentPacket.packet_number) :: out, keep) else (out, p :: keep)
  end.

(** The kept packets are recorded again one by one. *)
Definition detect_lost_packets (s : AckSendState.t) (rtt : RttEstimator.t) (now : Instant)
    (largest_acked : u64) (d : LossDetector.t) : list u64 * AckSendState.t :=
  let '(lost, keep) := split_lost (packet_lost rtt now largest_acked d) s.(AckSendState.sent) in
  (lost, fold_left (fun s p => (AckSendState.record_sent s p).2) keep AckSendState.new).

(** ** Lemmas *)

Lemma split_lost_filter f sent :
  split_lost f sent =
  (SentPacket.packet_number <$> filter (fun p => f p = true) sent, filter (fun p => f p = false) sent).
Proof.
  induction sent as [|p sent IH]; [done|]. simpl. rewrite IH, !filter_cons.
  destruct (f p) eqn:E; simpl; by rewrite ?decide_True, ?decide_False.
Qed.

(** Recording below the cap appends. *)
Lemma record_below_cap s ps :
  len s.(AckSendState.sent) + len ps <= MAX_OUTSTANDING_PACKETS ->
  fold_left (fun s p => (AckSendState.record_sent s p).2) ps s
  = AckSendState.mk (s.(AckSendState.sent) ++ ps).
Proof.
  revert s. induction ps as [|p ps IH]; intros s H; simpl.
  - destruct s. by rewrite app_nil_r.
  - rewrite len_cons in H. unfold AckSendState.record_sent at 2.
    rewrite (proj2 (N.leb_gt _ _)) by lia. cbn [snd]. rewrite IH.
    + simpl. by rewrite <- app_assoc.
    + simpl. rewrite len_app, len_cons, len_nil. lia.
Qed.

Lemma record_sent_bound s p :
  len s.(AckSendState.sent) <= MAX_OUTSTANDING_PACKETS ->
  len (AckSendState.record_sent s p).2.(AckSendState.sent) <= MAX_OUTSTANDING_PACKETS.
Proof.
  intros H. unfold AckSendState.record_sent.
  destruct (N.leb_spec MAX_OUTSTANDING_PACKETS (len s.(AckSendState.sent))) as [Hc|Hc].
  - destruct s.(AckSendState.sent) as [|q rest]; simpl; rewrite ?len_app, ?len_cons, ?len_nil in *;
      unfold MAX_OUTSTANDING_PACKETS in *; lia.
  - simpl. rewrite len_app, len_cons, len_nil. lia.
Qed.

Lemma len_filter {A} (P : A -> Prop) `{!forall x, Decision (P x)} (l : list A) :
  len (filter P l) <= len l.
Proof. unfold len. pose proof (length_filter P l). lia. Qed.

Definition rtt_within (a b : u64) (r : RttEstimator.t) : Prop :=
  r.(RttEstimator.initialized) = true
  /\ a <= r.(RttEstimator.min_rtt) /\ r.(RttEstimator.min_rtt) <= r.(RttEstimator.latest_rtt) <= b
  /\ r.(RttEstimator.min_rtt) <= r.(RttEstimator.smoothed_rtt) <= b
  /\ r.(RttEstimator.rtt_variance) <= b.

Lemma sample_within a b r x :
  a <= x <= b -> r = RttEstimator.new \/ rtt_within a b r -> rtt_within a b (RttEstimator.sample r x).
Proof.
  intros Hx [-> | (Hi & H)]; unfold rtt_within, RttEstimator.sample; simpl.
  - split_and!; [done|lia..].
  - rewrite Hi. simpl. unfold abs_diff. split_and!; [done|lia..].
Qed.

(** ** Properties *)

(** The round-trip estimate stays within the samples: after any non-empty
    sequence of samples between [a] and [b], the minimum, latest and smoothed
    values all lie between the smallest and [b], the smoothed value is never
    below the minimum, and the variance never exceeds [b]; and if [b] is below
    2^61 no intermediate product overflows a 64-bit word. *)
Theorem rtt_within_samples a b x xs :
  Forall (fun s => a <= s <= b) (x :: xs) ->
  rtt_within a b (fold_left RttEstimator.sample (x :: xs) RttEstimator.new)
  /\ (b < 2 ^ 61 -> forall r s, rtt_within a b r -> a <= s <= b ->
      7 * r.(RttEstimator.smoothed_rtt) + s <= u64_max
      /\ 3 * r.(RttEstimator.rtt_variance) + abs_diff r.(RttEstimator.smoothed_rtt) s <= u64_max).
Proof.
  intros [Hx Hxs]%Forall_cons_iff. split.
  - simpl. assert (H : rtt_within a b (RttEstimator.sample RttEstimator.new x))
      by (apply sample_within; auto).
    revert H. generalize (RttEstimator.sample RttEstimator.new x).
    induction Hxs as [|y xs Hy Hxs IH]; intros r H; simpl; [done|]. apply IH, sample_within; auto.
  - intros Hb r s (_ & H) Hs. unfold abs_diff, u64_max. lia.
Qed.

Lemma rtt_within_samples_witness :
  rtt_within 20 90 (fold_left RttEstimator.sample [50; 20; 90] RttEstimator.new).
Proof. apply (rtt_within_samples 20 90 50 [20; 90]). repeat constructor; discriminate. Defined.

(** Loss detection partitions the outstanding packets: a packet leaves the
    queue exactly when it is reported lost, the others keep their order, nothing
    is evicted by re-recording them, and no packet is declared lost unless a
    higher number was acknowledged. *)
Theorem detect_lost_partition s rtt now largest d lost s' :
  len s.(AckSendState.sent) <= MAX_OUTSTANDING_PACKETS ->
  detect_lost_packets s rtt now largest d = (lost, s') ->
  lost = SentPacket.packet_number <$> filter (fun p => packet_lost rtt now largest d p = true) s.(AckSendState.sent)
  /\ s'.(AckSendState.sent) = filter (fun p => packet_lost rtt now largest d p = false) s.(AckSendState.sent)
  /\ Forall (fun pn => pn < largest) lost
  /\ Forall (fun p => largest < p.(SentPacket.packet_number) + PACKET_THRESHOLD) s'.(AckSendState.sent).
Proof.
  intros Hl. unfold detect_lost_packets. rewrite split_lost_filter, record_below_cap.
  - intros [= <- <-]. simpl. split_and!; [done..| |].
    + apply Forall_fmap, List.Forall_forall. intros p Hp. apply list_elem_of_In, list_elem_of_filter in Hp as [Hp _].
      simpl. unfold packet_lost, LossDetector.packet_threshold_lost, LossDetector.time_threshold_lost, PACKET_THRESHOLD in Hp.
      repeat case_match; lia.
    + apply List.Forall_forall. intros p Hp. apply list_elem_of_In, list_elem_of_filter in Hp as [Hp _].
      unfold packet_lost, LossDetector.packet_threshold_lost in Hp. lia.
  - simpl. rewrite len_nil. etransitivity; [|exact Hl]. apply len_filter.
Qed.

Lemma detect_lost_partition_witness :
  let s := AckSendState.mk (sample_sent <$> [1; 2; 7; 9]) in
  let r := detect_lost_packets s RttEstimator.new 100 5 (LossDetector.new 25) in
  r.1 = SentPacket.packet_number <$> filter (fun p => packet_lost RttEstimator.new 100 5 (LossDetector.new 25) p = true) s.(AckSendState.sent)
  /\ r.2.(AckSendState.sent) = filter (fun p => packet_lost RttEstimator.new 100 5 (LossDetector.new 25) p = false) s.(AckSendState.sent)
  /\ Forall (fun pn => pn < 5) r.1
  /\ Forall (fun p => 5 < p.(SentPacket.packet_number) + PACKET_THRESHOLD) r.2.(AckSendState.sent).
Proof. intros s r. apply detect_lost_partition; [discriminate|apply surjective_pairing]. Defined.

(** The probe timeout backs off by powers of two up to 64: after [n]
    consecutive expiries since the last acknowledgement the deadline is
    [2^min(n,6)] probe timeouts away (as far as 64-bit milliseconds reach), and
    an acknowledgement brings it back to one. *)
Theorem pto_backoff n p pto now :
  let p' := Nat.iter n PtoState.on_expiry (PtoState.on_ack p) in
  PtoState.multiplier p' = 2 ^ N.min (N.of_nat n) 6
  /\ PtoState.next_deadline p' pto now = N.min (now + N.min (pto * 2 ^ N.min (N.of_nat n) 6) u64_max) u64_max
  /\ PtoState.multiplier (PtoState.on_ack p') = 1.
Proof.
  cbv zeta. assert (H : PtoState.consecutive (Nat.iter n PtoState.on_expiry (PtoState.on_ack p)) = N.min (N.of_nat n) 6).
  { induction n as [|n IH]; [done|]. cbn [Nat.iter nat_rect] in *. simpl. unfold Nat.iter in *. rewrite IH.
    unfold MAX_PTO_BACKOFF_EXPONENT. lia. }
  unfold PtoState.next_deadline, PtoState.multiplier, instant_add, saturating_add, saturating_mul.
  rewrite H, N.shiftl_1_l. done.
Qed.
