(* ===== verification/Congestion.v ===== *)
(** * Congestion control and pacing (crates/umc-session/src/congestion.rs)

    The token bucket of the pacer counts milli-bytes on a signed 64-bit
    integer, modelled on [Z] with its saturating operations written out. *)

From S2P Require Import Prelude Spaces SentPackets.

(** ** Signed 64-bit integers *)

Definition i64_max : Z := 9223372036854775807.
Definition i64_min : Z := -9223372036854775808.

Definition i64_clamp (z : Z) : i64 := Z.max i64_min (Z.min z i64_max).

Definition i64_saturating_add (a b : i64) : i64 := i64_clamp (a + b).
Definition i64_saturating_sub (a b : i64) : i64 := i64_clamp (a - b).
Definition i64_saturating_mul (a b : i64) : i64 := i64_clamp (a * b).

(** [i64::try_from(x).unwrap_or(i64::MAX)] *)
Definition i64_of (x : u64) : i64 := Z.min (Z.of_N x) i64_max.

(** [u64::try_from(z).unwrap_or(u64::MAX)] *)
Definition u64_of (z : i64) : u64 := if (0 <=? z)%Z then Z.to_N z else u64_max.

(** ** The controller interface

    The trait's default methods keep pacing off. *)

Class CongestionController (C : Type) := {
  on_ack : C -> usize -> C;
  on_loss : C -> usize -> C;
  on_packet_sent : C -> usize -> C;
  on_packet_acknowledged : C -> usize -> C;
  on_packet_lost : C -> usize -> C;
  send_allowance : C -> usize;
  cwnd : C -> usize;
  in_flight : C -> usize;
  reset : C -> C;
  set_smoothed_rtt : C -> u64 -> Instant -> C;
  next_send_time : C -> Instant -> usize -> option Instant;
  pacing_rate_bps : C -> u64;
  consume_pacing : C -> usize -> Instant -> C
}.

Definition SMSS : u64 := 1200.
Definition INITIAL_CWND : u64 := 10 * SMSS.
Definition MIN_CWND : u64 := 2 * SMSS.
Definition LOSS_THRESHOLD : u32 := 3.

Module PacingState.

Record t := mk {
  rate_bps : u64;
  burst_bytes : u64;
  tokens_milli : i64;
  last_send : option Instant
}.

Definition new : t := mk 0 0 0 None.

Definition burst_milli (s : t) : i64 := i64_saturating_mul (i64_of s.(burst_bytes)) 1000.

(** [checked_div] by zero is [None], whose default is zero. *)
Definition set_rate (s : t) (cwnd smoothed_rtt_ms smss : u64) : t :=
  let was_unlimited := s.(rate_bps) =? 0 in
  let rate :=
    if smoothed_rtt_ms =? 0 then 0
    else saturating_mul (saturating_mul cwnd 8) 1000 / smoothed_rtt_ms in
  let burst := if smoothed_rtt_ms =? 0 then 0 else N.min (cwnd / 2) (saturating_mul smss 10) in
  let burst_milli := i64_saturating_mul (i64_of burst) 1000 in
  let tokens :=
    if rate =? 0 then 0%Z
    else if was_unlimited then burst_milli
    else Z.min s.(tokens_milli) burst_milli in
  mk rate burst tokens s.(last_send).

Definition tokens_at_milli (s : t) (now : Instant) : i64 :=
  match s.(last_send) with
  | None => s.(tokens_milli)
  | Some last =>
      let elapsed := duration_since now last in
      let refilled := i64_of (saturating_mul s.(rate_bps) elapsed / 8) in
      Z.min (i64_saturating_add s.(tokens_milli) refilled) (burst_milli s)
  end.

Definition materialize (s : t) (now : Instant) : t :=
  let tokens :=
    match s.(last_send) with
    | Some _ => tokens_at_milli s now
    | None => s.(tokens_milli)
    end in
  mk s.(rate_bps) s.(burst_bytes) tokens (Some now).

(** The division of signed integers truncates. *)
Definition next_send_time (s : t) (now : Instant) (needed : usize) : option Instant :=
  if s.(rate_bps) =? 0 then None
  else
    let needed_milli := i64_saturating_mul (i64_of needed) 1000 in
    let tokens := tokens_at_milli s now in
    if (needed_milli <=? tokens)%Z then None
    else
      let rate := i64_of s.(rate_bps) in
      let delay_ms := u64_of (Z.quot (i64_saturating_mul (needed_milli - tokens) 8) rate) in
      Some (instant_add now delay_ms).

Definition consume (s : t) (bytes : usize) (now : Instant) : t :=
  let consumed := i64_saturating_mul (i64_of bytes) 1000 in
  mk s.(rate_bps) s.(burst_bytes) (i64_saturating_sub (tokens_at_milli s now) consumed) (Some now).

Definition tokens (s : t) : u64 := u64_of (Z.quot (Z.max s.(tokens_milli) 0) 1000).

End PacingState.

Module RenoCongestionController.

Record t := mk {
  cwnd : u64;
  ssthresh : u64;
  in_flight : u64;
  smss : u64;
  consecutive_losses : u32;
  smoothed_rtt_ms : u64;
  pacing : PacingState.t
}.

Definition new : t := mk INITIAL_CWND u64_max 0 SMSS 0 0 PacingState.new.

Definition update_pacing (c : t) : t :=
  mk c.(cwnd) c.(ssthresh) c.(in_flight) c.(smss) c.(consecutive_losses) c.(smoothed_rtt_ms)
     (PacingState.set_rate c.(pacing) c.(cwnd) c.(smoothed_rtt_ms) c.(smss)).

Definition pacing_burst_bytes (c : t) : u64 := c.(pacing).(PacingState.burst_bytes).

Definition pacing_tokens (c : t) : u64 := PacingState.tokens c.(pacing).

Definition reduce_window (c : t) : t :=
  let ssthresh := N.max (c.(cwnd) / 2) MIN_CWND in
  update_pacing
    (mk ssthresh ssthresh c.(in_flight) c.(smss) c.(consecutive_losses) c.(smoothed_rtt_ms)
        c.(pacing)).

Definition on_ack (c : t) (newly_acked_bytes : usize) : t :=
  let acked := newly_acked_bytes in
  let cwnd' :=
    if c.(cwnd) <? c.(ssthresh) then saturating_add c.(cwnd) acked
    else saturating_add c.(cwnd) (saturating_mul c.(smss) acked / c.(cwnd)) in
  update_pacing
    (mk cwnd' c.(ssthresh) c.(in_flight) c.(smss) 0 c.(smoothed_rtt_ms) c.(pacing)).

Definition on_loss (c : t) (lost_bytes : usize) : t :=
  reduce_window
    (mk c.(cwnd) c.(ssthresh) (saturating_sub c.(in_flight) lost_bytes) c.(smss) 0
        c.(smoothed_rtt_ms) c.(pacing)).

Definition set_in_flight (c : t) (in_flight : u64) : t :=
  mk c.(cwnd) c.(ssthresh) in_flight c.(smss) c.(consecutive_losses) c.(smoothed_rtt_ms)
     c.(pacing).

Definition on_packet_sent (c : t) (bytes : usize) : t :=
  set_in_flight c (saturating_add c.(in_flight) bytes).

Definition on_packet_acknowledged (c : t) (bytes : usize) : t :=
  set_in_flight c (saturating_sub c.(in_flight) bytes).

Definition on_packet_lost (c : t) (bytes : usize) : t :=
  let in_flight := saturating_sub c.(in_flight) bytes in
  let losses := c.(consecutive_losses) + 1 in
  if LOSS_THRESHOLD <=? losses then
    reduce_window (mk c.(cwnd) c.(ssthresh) in_flight c.(smss) 0 c.(smoothed_rtt_ms) c.(pacing))
  else mk c.(cwnd) c.(ssthresh) in_flight c.(smss) losses c.(smoothed_rtt_ms) c.(pacing).

Definition send_allowance (c : t) : usize := saturating_sub c.(cwnd) c.(in_flight).

Definition reset (c : t) : t := mk INITIAL_CWND u64_max 0 c.(smss) 0 0 PacingState.new.

Definition set_smoothed_rtt (c : t) (ms : u64) (now : Instant) : t :=
  if c.(smoothed_rtt_ms) =? ms then c
  else
    update_pacing
      (mk c.(cwnd) c.(ssthresh) c.(in_flight) c.(smss) c.(consecutive_losses) ms
          (PacingState.materialize c.(pacing) now)).

Definition next_send_time (c : t) (now : Instant) (bytes : usize) : option Instant :=
  PacingState.next_send_time c.(pacing) now bytes.

Definition pacing_rate_bps (c : t) : u64 := c.(pacing).(PacingState.rate_bps).

Definition consume_pacing (c : t) (bytes : usize) (now : Instant) : t :=
  mk c.(cwnd) c.(ssthresh) c.(in_flight) c.(smss) c.(consecutive_losses) c.(smoothed_rtt_ms)
     (PacingState.consume c.(pacing) bytes now).

(** The events a session feeds its controller. *)
Inductive event :=
| Acked (bytes : usize)
| Loss (bytes : usize)
| PacketSent (bytes : usize)
| PacketAcknowledged (bytes : usize)
| PacketLost (bytes : usize)
| Reset
| Rtt (ms : u64) (now : Instant)
| Paced (bytes : usize) (now : Instant).

End RenoCongestionController.

#[global] Instance reno_controller : CongestionController RenoCongestionController.t := {
  on_ack := RenoCongestionController.on_ack;
  on_loss := RenoCongestionController.on_loss;
  on_packet_sent := RenoCongestionController.on_packet_sent;
  on_packet_acknowledged := RenoCongestionController.on_packet_acknowledged;
  on_packet_lost := RenoCongestionController.on_packet_lost;
  send_allowance := RenoCongestionController.send_allowance;
  cwnd := RenoCongestionController.cwnd;
  in_flight := RenoCongestionController.in_flight;
  reset := RenoCongestionController.reset;
  set_smoothed_rtt := RenoCongestionController.set_smoothed_rtt;
  next_send_time := RenoCongestionController.next_send_time;
  pacing_rate_bps := RenoCongestionController.pacing_rate_bps;
  consume_pacing := RenoCongestionController.consume_pacing
}.

(** A session drives any controller through the interface. *)
Definition controller_step `{CongestionController C} (c : C) (e : RenoCongestionController.event) : C :=
  match e with
  | RenoCongestionController.Acked b => on_ack c b
  | RenoCongestionController.Loss b => on_loss c b
  | RenoCongestionController.PacketSent b => on_packet_sent c b
  | RenoCongestionController.PacketAcknowledged b => on_packet_acknowledged c b
  | RenoCongestionController.PacketLost b => on_packet_lost c b
  | RenoCongestionController.Reset => reset c
  | RenoCongestionController.Rtt ms now => set_smoothed_rtt c ms now
  | RenoCongestionController.Paced b now => consume_pacing c b now
  end.

Definition controller_run `{CongestionController C} (c : C) (es : list RenoCongestionController.event) : C :=
  fold_left controller_step es c.

(** ** The window *)

Module Reno := RenoCongestionController.

(** The pacer is always rated from the current window and round-trip time. *)
Definition rate_of (cwnd rtt : u64) : u64 :=
  if rtt =? 0 then 0 else saturating_mul (saturating_mul cwnd 8) 1000 / rtt.

Definition burst_of (cwnd rtt : u64) : u64 :=
  if rtt =? 0 then 0 else N.min (cwnd / 2) (10 * SMSS).

Definition rated (c : Reno.t) : Prop :=
  let p := c.(Reno.pacing) in
  p.(PacingState.rate_bps) = rate_of c.(Reno.cwnd) c.(Reno.smoothed_rtt_ms)
  /\ p.(PacingState.burst_bytes) = burst_of c.(Reno.cwnd) c.(Reno.smoothed_rtt_ms)
  /\ (p.(PacingState.tokens_milli) <= Z.of_N (1000 * p.(PacingState.burst_bytes)))%Z.

Definition reno_wf (c : Reno.t) : Prop :=
  MIN_CWND <= c.(Reno.cwnd) <= u64_max
  /\ MIN_CWND <= c.(Reno.ssthresh) <= u64_max
  /\ c.(Reno.in_flight) <= u64_max
  /\ c.(Reno.smss) = SMSS
  /\ c.(Reno.consecutive_losses) < LOSS_THRESHOLD
  /\ rated c.

Lemma burst_small cwnd rtt : burst_of cwnd rtt <= 12000.
Proof. unfold burst_of, SMSS. case_match; lia. Qed.

Lemma burst_milli_exact b :
  b <= 12000 -> i64_saturating_mul (i64_of b) 1000 = Z.of_N (1000 * b).
Proof. intros H. unfold i64_saturating_mul, i64_clamp, i64_of, i64_min, i64_max. lia. Qed.

Lemma set_rate_rated c :
  c.(Reno.smss) = SMSS -> rated (Reno.update_pacing c).
Proof.
  intros Hs. unfold rated, Reno.update_pacing, PacingState.set_rate. cbn -[N.mul N.div saturating_mul].
  rewrite Hs. change (saturating_mul SMSS 10) with (10 * SMSS).
  fold (rate_of c.(Reno.cwnd) c.(Reno.smoothed_rtt_ms)) (burst_of c.(Reno.cwnd) c.(Reno.smoothed_rtt_ms)).
  split_and!; [done..|]. rewrite burst_milli_exact by apply burst_small.
  repeat case_match; lia.
Qed.

Lemma tokens_at_capped s now :
  (s.(PacingState.burst_bytes) <= 12000) ->
  (s.(PacingState.tokens_milli) <= Z.of_N (1000 * s.(PacingState.burst_bytes)))%Z ->
  (PacingState.tokens_at_milli s now <= Z.of_N (1000 * s.(PacingState.burst_bytes)))%Z.
Proof.
  intros Hb Ht. unfold PacingState.tokens_at_milli, PacingState.burst_milli.
  destruct s.(PacingState.last_send); [|done]. rewrite burst_milli_exact by done. lia.
Qed.

Lemma reduce_wf c :
  c.(Reno.in_flight) <= u64_max -> c.(Reno.cwnd) <= u64_max -> c.(Reno.smss) = SMSS ->
  c.(Reno.consecutive_losses) < LOSS_THRESHOLD -> reno_wf (Reno.reduce_window c).
Proof.
  intros Hf Hc Hs Hl. unfold reno_wf. split_and!; try done; try apply set_rate_rated; try done;
    unfold Reno.reduce_window; simpl; unfold MIN_CWND, SMSS, u64_max in *; lia.
Qed.

Lemma reno_step_wf c e : reno_wf c -> reno_wf (controller_step c e).
Proof.
  intros (Hc & Hss & Hf & Hs & Hl & Hr). destruct e; simpl.
  - split_and!; try done; try (by apply set_rate_rated);
      unfold Reno.on_ack, saturating_add; simpl; repeat case_match; lia.
  - apply reduce_wf; simpl; try done; [unfold saturating_sub|]; lia.
  - split_and!; try done; simpl; unfold saturating_add; lia.
  - split_and!; try done; simpl; unfold saturating_sub; lia.
  - unfold Reno.on_packet_lost. destruct (N.leb_spec LOSS_THRESHOLD (c.(Reno.consecutive_losses) + 1)).
    + apply reduce_wf; simpl; try done; [unfold saturating_sub|]; lia.
    + split_and!; try done; simpl; unfold saturating_sub; lia.
  - split_and!; try done.
  - unfold Reno.set_smoothed_rtt. case_match; split_and!; first [done | simpl; lia | by apply set_rate_rated].
  - split_and!; try done; try (simpl; lia). destruct Hr as (H1 & H2 & H3). unfold rated. split_and!; try done.
    simpl. pose proof (burst_small c.(Reno.cwnd) c.(Reno.smoothed_rtt_ms)).
    pose proof (tokens_at_capped c.(Reno.pacing) now ltac:(lia) H3).
    unfold i64_saturating_sub, i64_saturating_mul, i64_clamp, i64_of, i64_min, i64_max. lia.
Qed.

Lemma reno_run_wf es : reno_wf (controller_run Reno.new es).
Proof. apply (fold_left_inv reno_wf); [apply reno_step_wf|split_and!; done]. Qed.

(** The congestion window never leaves its bounds: whatever events the
    session feeds, the window and the threshold stay at two segments or more,
    the loss streak stays below three, and the pacer is always rated from the
    current window and round-trip time with its bucket at most full. *)
Theorem reno_invariant es : reno_wf (controller_run Reno.new es).
Proof. apply reno_run_wf. Qed.

(** The loss response of the per-packet feed: of three losses in a row
    after an acknowledgement the first two leave the window alone and the third
    halves it, with the floor of two segments, and the new threshold equals the
    new window. *)
Theorem reno_three_strikes es a b1 b2 b3 :
  let c := controller_run Reno.new (es ++ [Reno.Acked a]) in
  let c2 := controller_run c [Reno.PacketLost b1; Reno.PacketLost b2] in
  let c3 := controller_run c2 [Reno.PacketLost b3] in
  cwnd c2 = cwnd c
  /\ cwnd c3 = N.max (cwnd c / 2) MIN_CWND /\ c3.(Reno.ssthresh) = cwnd c3
  /\ c3.(Reno.consecutive_losses) = 0.
Proof.
  cbv zeta. unfold controller_run. rewrite fold_left_app. done.
Qed.

(** The send gate: a packet no larger than the allowance is charged in
    full and keeps the bytes in flight within the window. *)
Theorem reno_gate es b :
  let c := controller_run Reno.new es in
  0 < b <= send_allowance c ->
  in_flight (on_packet_sent c b) = in_flight c + b
  /\ in_flight (on_packet_sent c b) <= cwnd (on_packet_sent c b)
  /\ send_allowance (on_packet_sent c b) = send_allowance c - b.
Proof.
  intros c. pose proof (reno_run_wf es : reno_wf c) as H.
  clearbody c. destruct H as (Hc & _). simpl. unfold Reno.send_allowance, saturating_sub, saturating_add.
  simpl. unfold saturating_add. lia.
Qed.

Lemma reno_gate_witness :
  let c := controller_run Reno.new [Reno.PacketSent 1200; Reno.Acked 1200] in
  in_flight (on_packet_sent c 1200) = in_flight c + 1200
  /\ in_flight (on_packet_sent c 1200) <= cwnd (on_packet_sent c 1200)
  /\ send_allowance (on_packet_sent c 1200) = send_allowance c - 1200.
Proof. intros c. apply (reno_gate [Reno.PacketSent 1200; Reno.Acked 1200]). split; [done|discriminate]. Defined.

(** ** The pacer

    A sender at a fixed rate: each send asks at [query] when it may go, waits
    until the answer, goes at [at], and is charged.  [until] bounds the times. *)

Fixpoint paced (s : PacingState.t) (start until : Instant) (sends : list (Instant * usize * Instant))
    : bool :=
  match sends with
  | [] => true
  | (query, bytes, at_) :: sends =>
      (start <=? query)
      && (match PacingState.next_send_time s query bytes with None => query | Some w => w end <=? at_)
      && (at_ <=? until) && (bytes <=? s.(PacingState.burst_bytes))
      && paced (PacingState.consume s bytes at_) at_ until sends
  end.

Definition sent_bytes (sends : list (Instant * usize * Instant)) : N :=
  foldr (fun x total => x.1.2 + total) 0 sends.

Lemma i64_of_exact x : x <= 4611686018427387904 -> i64_of x = Z.of_N x.
Proof. unfold i64_of, i64_max. lia. Qed.

Lemma i64_mul_exact x : (0 <= x <= 1152921504606846975)%Z -> i64_saturating_mul x 8 = (x * 8)%Z.
Proof. unfold i64_saturating_mul, i64_clamp, i64_min, i64_max. lia. Qed.

Section Pacing.

Context (r B T : u64) (Hr : 0 < r) (HB : B <= 12000) (HT : r * (T + 1) <= 4611686018427387904).

(** A bucket at the fixed rate, last touched at [l], in debt by at most one
    millisecond of refill. *)
Definition bucket (l : Instant) (s : PacingState.t) : Prop :=
  s.(PacingState.rate_bps) = r /\ s.(PacingState.burst_bytes) = B
  /\ s.(PacingState.last_send) = Some l
  /\ (- Z.of_N (r / 8 + 1) <= s.(PacingState.tokens_milli) <= Z.of_N (1000 * B))%Z.

Lemma elapsed_product now l : now <= T -> r * (now - l) <= 4611686018427387904.
Proof. intros H. etransitivity; [|exact HT]. apply N.mul_le_mono_l. lia. Qed.

Lemma rate_bound : r <= 4611686018427387904.
Proof. etransitivity; [|exact HT]. rewrite <- (N.mul_1_r r) at 1. apply N.mul_le_mono_l. lia. Qed.

Lemma tokens_at_exact s l now :
  bucket l s -> now <= T ->
  PacingState.tokens_at_milli s now
  = Z.min (s.(PacingState.tokens_milli) + Z.of_N (r * (now - l) / 8)) (Z.of_N (1000 * B)).
Proof.
  intros (H1 & H2 & H3 & H4) Hn. unfold PacingState.tokens_at_milli, PacingState.burst_milli.
  rewrite H1, H2, H3, burst_milli_exact by done. unfold duration_since, saturating_sub, saturating_mul.
  pose proof (elapsed_product now l Hn) as He. pose proof rate_bound as Hrb. revert He.
  generalize (r * (now - l)). intros e He.
  unfold i64_saturating_add, i64_clamp, i64_of, i64_min, i64_max, u64_max. lia.
Qed.

(** Refills of consecutive spans, each rounded down, add up to no more than
    the refill of the whole. *)
Lemma refill_split x y : r * x / 8 + r * y / 8 <= r * (x + y) / 8.
Proof. rewrite N.mul_add_distr_l. generalize (r * x), (r * y). lia. Qed.

Lemma refill_covers d y X :
  d <= y -> (8 * X < Z.of_N (r * (d + 1)))%Z -> (X - Z.of_N (r / 8 + 1) <= Z.of_N (r * y / 8))%Z.
Proof.
  intros Hy HX. assert (H : r * d <= r * y) by (apply N.mul_le_mono_l; lia). revert H HX.
  rewrite N.mul_add_distr_l, N.mul_1_r. generalize (r * d), (r * y). lia.
Qed.

Lemma delay_covers X :
  (0 <= X)%Z ->
  exists d, u64_of (Z.quot (X * 8) (Z.of_N r)) = d /\ (8 * X < Z.of_N (r * (d + 1)))%Z.
Proof.
  intros HX. eexists. split; [done|]. rewrite Z.quot_div_nonneg by lia.
  pose proof (Z.div_pos (X * 8) (Z.of_N r) ltac:(lia) ltac:(lia)) as Hp.
  pose proof (Z.mul_succ_div_gt (X * 8) (Z.of_N r) ltac:(lia)) as Hg.
  unfold u64_of. rewrite (proj2 (Z.leb_le _ _) Hp).
  rewrite N2Z.inj_mul, N2Z.inj_add, Z2N.id by done. unfold Z.succ in Hg. simpl. lia.
Qed.

Lemma until_bound : T < 4611686018427387904.
Proof.
  pose proof (N.mul_le_mono_r 1 r (T + 1) ltac:(lia)) as H. rewrite N.mul_1_l in H. lia.
Qed.

Lemma wait_after x query at_ : at_ <= T -> instant_add query x <= at_ -> query + x <= at_.
Proof. pose proof until_bound. unfold instant_add, saturating_add, u64_max. lia. Qed.

Lemma wait_covers X query at_ :
  (0 < X <= Z.of_N (12000001 + r / 8))%Z -> at_ <= T ->
  instant_add query (u64_of (Z.quot (i64_saturating_mul X 8) (i64_of r))) <= at_ ->
  exists d, query + d <= at_ /\ (8 * X < Z.of_N (r * (d + 1)))%Z.
Proof.
  intros HX Ha. rewrite (i64_of_exact r) by apply rate_bound.
  pose proof rate_bound as Hrb. rewrite i64_mul_exact by lia.
  destruct (delay_covers X ltac:(lia)) as (d & -> & Hd). intros Hw. exists d.
  split; [|done]. by apply wait_after.
Qed.

(** A sender that waited as told finds the bucket short by less than one
    millisecond of refill. *)
Lemma paced_tokens s l query bytes at_ :
  bucket l s -> l <= query -> at_ <= T -> bytes <= B ->
  match PacingState.next_send_time s query bytes with None => query | Some w => w end <= at_ ->
  query <= at_
  /\ (Z.of_N (1000 * bytes) - Z.of_N (r / 8 + 1) <= PacingState.tokens_at_milli s at_)%Z.
Proof.
  intros Hb Hl Ha Hbytes. pose proof Hb as (H1 & H2 & H3 & H4). unfold PacingState.next_send_time.
  rewrite H1. destruct (N.eqb_spec r 0); [lia|].
  rewrite (burst_milli_exact bytes) by lia. pose proof rate_bound as Hrb.
  pose proof (refill_split (query - l) (at_ - query)) as Hm.
  destruct (Z.leb_spec (Z.of_N (1000 * bytes)) (PacingState.tokens_at_milli s query)) as [Ht|Ht].
  - intros Hq. split; [done|]. rewrite (tokens_at_exact s l at_) by done.
    rewrite (tokens_at_exact s l query) in Ht by (done || lia).
    replace (query - l + (at_ - query)) with (at_ - l) in Hm by lia. lia.
  - intros Hw. assert (Hqa : query <= at_) by (apply wait_after in Hw; lia).
    split; [done|]. rewrite (tokens_at_exact s l at_) by done.
    revert Ht Hw. rewrite (tokens_at_exact s l query) by (done || lia). intros Ht Hw.
    apply wait_covers in Hw as (d & Hd & HX); [|lia|done].
    apply (refill_covers d (at_ - query)) in HX; [|lia]. clear HT Hd.
    replace (query - l + (at_ - query)) with (at_ - l) in Hm by lia. lia.
Qed.

Lemma consume_bucket s l query bytes at_ :
  bucket l s -> l <= query -> at_ <= T -> bytes <= B ->
  match PacingState.next_send_time s query bytes with None => query | Some w => w end <= at_ ->
  let s' := PacingState.consume s bytes at_ in
  bucket at_ s'
  /\ (Z.of_N (1000 * bytes) + s'.(PacingState.tokens_milli)
      <= s.(PacingState.tokens_milli) + Z.of_N (r * (at_ - l) / 8))%Z.
Proof.
  intros Hb Hl Ha Hbytes Hw. destruct (paced_tokens s l query bytes at_ Hb Hl Ha Hbytes Hw) as [Hq Ht].
  pose proof (tokens_at_exact s l at_ Hb Ha) as He. pose proof rate_bound.
  assert (Hc : PacingState.tokens_milli (PacingState.consume s bytes at_)
               = (PacingState.tokens_at_milli s at_ - Z.of_N (1000 * bytes))%Z).
  { simpl. rewrite burst_milli_exact by lia.
    unfold i64_saturating_sub, i64_clamp, i64_min, i64_max. lia. }
  cbv zeta. rewrite Hc. destruct Hb as (H1 & H2 & H3 & H4). split; [|lia].
  split_and!; try done; rewrite Hc; lia.
Qed.

Lemma paced_total sends s l :
  bucket l s -> l <= T -> paced s l T sends = true ->
  (Z.of_N (1000 * sent_bytes sends) <= s.(PacingState.tokens_milli) + Z.of_N (r / 8 + 1)
                                       + Z.of_N (r * (T - l) / 8))%Z.
Proof.
  revert s l. induction sends as [|[[query bytes] at_] sends IH]; intros s l Hb HlT; simpl.
  - intros _. destruct Hb as (_ & _ & _ & H4). lia.
  - pose proof Hb as (_ & H2 & _). rewrite H2, !andb_true_iff. intros [[[[Hl Hw] Ha] Hbytes] Hs].
    apply N.leb_le in Hl, Hw, Ha, Hbytes.
    destruct (consume_bucket s l query bytes at_ Hb Hl Ha Hbytes Hw) as [Hb' Hc].
    specialize (IH _ _ Hb' Ha Hs).
    destruct (paced_tokens s l query bytes at_ Hb Hl Ha Hbytes Hw) as [Hq _].
    pose proof (refill_split (at_ - l) (T - at_)) as Hm.
    replace (at_ - l + (T - at_)) with (T - l) in Hm by lia. lia.
Qed.

End Pacing.

(** The pacer holds its rate: a sender that asks before each packet and
    waits as told puts on the wire, over any interval, at most the burst
    allowance plus what the rate gives for the interval and one millisecond
    more (8000 bits per byte-millisecond; the last term is rounding).  Packets
    are no larger than the burst allowance, and the clock is such that the
    product of rate and time fits 62 bits. *)
Theorem paced_rate s l until sends :
  0 < s.(PacingState.rate_bps) -> s.(PacingState.burst_bytes) <= 12000 ->
  s.(PacingState.rate_bps) * (until + 1) <= 4611686018427387904 -> l <= until ->
  s.(PacingState.last_send) = Some l ->
  (0 <= s.(PacingState.tokens_milli) <= Z.of_N (1000 * s.(PacingState.burst_bytes)))%Z ->
  paced s l until sends = true ->
  8000 * sent_bytes sends
  <= 8000 * s.(PacingState.burst_bytes) + s.(PacingState.rate_bps) * (until - l + 1) + 8.
Proof.
  intros Hr HB HT Hl Hs Ht Hp. rewrite N.mul_add_distr_l, N.mul_1_r.
  pose proof (paced_total _ _ until Hr HB HT sends s l) as H. revert H.
  generalize (s.(PacingState.rate_bps) * (until - l)). intros e H.
  assert (Hb : bucket s.(PacingState.rate_bps) s.(PacingState.burst_bytes) l s)
    by (split_and!; [done..|lia|lia]).
  specialize (H Hb Hl Hp). lia.
Qed.

Definition sample_pacing : PacingState.t :=
  PacingState.consume (PacingState.materialize (PacingState.set_rate PacingState.new 12000 100 SMSS) 0) 0 0.

Lemma paced_rate_witness :
  8000 * sent_bytes [(0, 1200, 0); (0, 1200, 0); (0, 1200, 0); (0, 1200, 0); (0, 1200, 0); (1, 1200, 10); (11, 1200, 20)]
  <= 8000 * 6000 + 960000 * (20 - 0 + 1) + 8.
Proof.
  apply (paced_rate sample_pacing 0 20); [done|discriminate|discriminate|discriminate|done|split; discriminate|].
  vm_compute. reflexivity.
Defined.
