(* ===== verification/Flow.v ===== *)
(** * Connection flow control (crates/umc-session/src/flow.rs) *)

From S2P Require Import Prelude.

Inductive FlowError :=
| ExceedsCredit
| Overflow.

Module FlowControl.

Record t := mk {
  max_data_local : u64;
  max_data_remote : u64;
  consumed : u64;
  max_bidirectional_streams_local : u64;
  max_unidirectional_streams_local : u64
}.

Definition new (initial_max_data max_bidi max_uni : u64) : t :=
  mk initial_max_data initial_max_data 0 max_bidi max_uni.

Definition consume (f : t) (bytes : u64) : Result FlowError t :=
  new_total ← ok_or Overflow (checked_add f.(consumed) bytes);
  if f.(max_data_local) <? new_total then Err ExceedsCredit
  else Ok (mk f.(max_data_local) f.(max_data_remote) new_total
              f.(max_bidirectional_streams_local) f.(max_unidirectional_streams_local)).

Definition credit_remaining_local (f : t) : u64 := saturating_sub f.(max_data_local) f.(consumed).

Definition grant_more (f : t) (new_max : u64) : t :=
  if f.(max_data_local) <? new_max then
    mk new_max f.(max_data_remote) f.(consumed)
       f.(max_bidirectional_streams_local) f.(max_unidirectional_streams_local)
  else f.

(** What the session does to it: received bytes and grants.  A refused
    [consume] leaves the account as it was. *)
Inductive event :=
| Consume (bytes : u64)
| Grant (new_max : u64).

Definition step (f : t) (e : event) : t :=
  match e with
  | Consume b => match consume f b with Ok f' => f' | Err _ => f end
  | Grant m => grant_more f m
  end.

Definition run (f : t) (es : list event) : t := fold_left step es f.

End FlowControl.

Import FlowControl.

(** The largest limit the peer was ever told, and the bytes admitted. *)
Definition granted (initial : u64) (es : list event) : u64 :=
  fold_left (fun m e => match e with Grant m' => N.max m m' | Consume _ => m end) es initial.

Lemma consume_Ok f b f' :
  consume f b = Ok f' <->
  f.(consumed) + b <= N.min f.(max_data_local) u64_max
  /\ f' = mk f.(max_data_local) f.(max_data_remote) (f.(consumed) + b)
             f.(max_bidirectional_streams_local) f.(max_unidirectional_streams_local).
Proof.
  unfold consume. rewrite bind_Ok. setoid_rewrite ok_or_Ok. setoid_rewrite checked_add_Some.
  split.
  - intros (x & [-> Hx] & H). destruct (N.ltb_spec f.(max_data_local) (f.(consumed) + b)); [done|].
    injection H as <-. split; [lia|done].
  - intros [H ->]. eexists. split; [split; [done|lia]|].
    destruct (N.ltb_spec f.(max_data_local) (f.(consumed) + b)); [lia|done].
Qed.

Lemma flow_run_bounds f es :
  f.(consumed) <= f.(max_data_local) ->
  (run f es).(consumed) <= (run f es).(max_data_local)
  /\ (run f es).(max_data_local) = granted f.(max_data_local) es
  /\ f.(consumed) <= (run f es).(consumed).
Proof.
  unfold run, granted. revert f. induction es as [|e es IH]; intros f H; simpl; [lia|].
  destruct (IH (step f e)) as (H1 & H2 & H3).
  - destruct e as [b|m]; simpl.
    + destruct (consume f b) eqn:E; [|done]. apply consume_Ok in E as [E ->]. simpl. lia.
    + unfold grant_more. destruct (N.ltb_spec f.(max_data_local) m); simpl; lia.
  - split_and!; [done| |].
    + rewrite H2. f_equal. destruct e as [b|m]; simpl.
      * destruct (consume f b) eqn:E; [|done]. by apply consume_Ok in E as [E ->].
      * unfold grant_more. destruct (N.ltb_spec f.(max_data_local) m); simpl; lia.
    + etransitivity; [|exact H3]. destruct e as [b|m]; simpl.
      * destruct (consume f b) eqn:E; [|done]. apply consume_Ok in E as [E ->]. simpl. lia.
      * unfold grant_more. destruct (N.ltb_spec f.(max_data_local) m); simpl; lia.
Qed.

(** A peer never makes the receiver admit more connection data than it
    was granted: over any sequence of received bytes and grants the admitted
    total stays within the largest limit announced, the limit never goes down,
    and bytes are refused exactly when they would pass it (or the 64-bit
    counter). *)
Theorem flow_within_grant initial bidi uni es b :
  let f := run (new initial bidi uni) es in
  f.(consumed) <= f.(max_data_local)
  /\ f.(max_data_local) = granted initial es
  /\ (is_ok (consume f b) = true <-> b <= credit_remaining_local f /\ f.(consumed) + b <= u64_max).
Proof.
  intros f. destruct (flow_run_bounds (new initial bidi uni) es) as (H1 & H2 & _); [simpl; lia|].
  fold f in H1, H2. split_and!; [done..|]. unfold credit_remaining_local, saturating_sub.
  destruct (consume f b) as [f'|e] eqn:E; simpl.
  - apply consume_Ok in E as [E _]. lia.
  - split; [done|]. intros [Hb Hm]. assert (Hf : exists f', consume f b = Ok f').
    { eexists. apply consume_Ok. split; [lia|done]. }
    destruct Hf as [f' Hf]. congruence.
Qed.
