(* ===== verification/Datagrams.v ===== *)
(** * Datagram queues (crates/umc-session/src/datagram.rs) *)

From S2P Require Import Prelude.

Definition MAX_QUEUED_DATAGRAMS : usize := 256.
Definition MAX_QUEUED_DATAGRAM_BYTES : usize := 2 * 1024 * 1024.

Module Datagram.

Record t := mk {
  context_id : u64;
  data : list u8;
  expires_at_ms : option u64;
  ack_requested : bool
}.

End Datagram.

Inductive DatagramError :=
| QueueFull
| BytesFull
| Oversize.

Module DatagramQueue.

Record t := mk {
  outbound : list Datagram.t;
  inbound : list Datagram.t;
  outbound_bytes : usize;
  inbound_bytes : usize
}.

Definition new : t := mk [] [] 0 0.

Definition enqueue_outbound (q : t) (d : Datagram.t) (max_size : usize) : Result DatagramError t :=
  if max_size <? len d.(Datagram.data) then Err Oversize
  else if MAX_QUEUED_DATAGRAMS <=? len q.(outbound) then Err QueueFull
  else if MAX_QUEUED_DATAGRAM_BYTES <? q.(outbound_bytes) + len d.(Datagram.data) then Err BytesFull
  else Ok (mk (q.(outbound) ++ [d]) q.(inbound) (q.(outbound_bytes) + len d.(Datagram.data))
              q.(inbound_bytes)).

Definition expired (now_ms : u64) (d : Datagram.t) : bool :=
  match d.(Datagram.expires_at_ms) with
  | Some exp => exp <=? now_ms
  | None => false
  end.

(** The loop that drops expired datagrams from the front. *)
Fixpoint drop_expired (now_ms : u64) (outbound : list Datagram.t) (bytes : usize)
    : list Datagram.t * usize :=
  match outbound with
  | d :: rest =>
      if expired now_ms d then drop_expired now_ms rest (saturating_sub bytes (len d.(Datagram.data)))
      else (outbound, bytes)
  | [] => ([], bytes)
  end.

Definition pop_outbound (q : t) (now_ms : u64) : option Datagram.t * t :=
  let '(rest, bytes) := drop_expired now_ms q.(outbound) q.(outbound_bytes) in
  match rest with
  | [] => (None, mk [] q.(inbound) bytes q.(inbound_bytes))
  | d :: rest =>
      (Some d, mk rest q.(inbound) (saturating_sub bytes (len d.(Datagram.data))) q.(inbound_bytes))
  end.

Definition enqueue_inbound (q : t) (d : Datagram.t) : Result DatagramError t :=
  if MAX_QUEUED_DATAGRAMS <=? len q.(inbound) then Err QueueFull
  else if MAX_QUEUED_DATAGRAM_BYTES <? q.(inbound_bytes) + len d.(Datagram.data) then Err BytesFull
  else Ok (mk q.(outbound) (q.(inbound) ++ [d]) q.(outbound_bytes)
              (q.(inbound_bytes) + len d.(Datagram.data))).

Definition pop_inbound (q : t) : option Datagram.t * t :=
  match q.(inbound) with
  | [] => (None, q)
  | d :: rest =>
      (Some d, mk q.(outbound) rest q.(outbound_bytes)
                  (saturating_sub q.(inbound_bytes) (len d.(Datagram.data))))
  end.

Inductive event :=
| EnqueueOutbound (d : Datagram.t) (max_size : usize)
| PopOutbound (now_ms : u64)
| EnqueueInbound (d : Datagram.t)
| PopInbound.

Definition step (q : t) (e : event) : t :=
  match e with
  | EnqueueOutbound d m => match enqueue_outbound q d m with Ok q' => q' | Err _ => q end
  | PopOutbound now => (pop_outbound q now).2
  | EnqueueInbound d => match enqueue_inbound q d with Ok q' => q' | Err _ => q end
  | PopInbound => (pop_inbound q).2
  end.

Definition run (q : t) (es : list event) : t := fold_left step es q.

End DatagramQueue.

Import DatagramQueue.

(** ** Invariant *)

Definition data_bytes (ds : list Datagram.t) : N := foldr (fun d n => len d.(Datagram.data) + n) 0 ds.

Lemma data_bytes_app l k : data_bytes (l ++ k) = data_bytes l + data_bytes k.
Proof. induction l; simpl; lia. Qed.

(** One direction: the byte count is that of the contents, within both limits. *)
Definition queue_ok (ds : list Datagram.t) (bytes : usize) : Prop :=
  bytes = data_bytes ds /\ len ds <= MAX_QUEUED_DATAGRAMS /\ bytes <= MAX_QUEUED_DATAGRAM_BYTES.

Definition queues_ok (q : t) : Prop :=
  queue_ok q.(outbound) q.(outbound_bytes) /\ queue_ok q.(inbound) q.(inbound_bytes).

Lemma queue_ok_push ds bytes d :
  queue_ok ds bytes -> len ds < MAX_QUEUED_DATAGRAMS ->
  bytes + len d.(Datagram.data) <= MAX_QUEUED_DATAGRAM_BYTES ->
  queue_ok (ds ++ [d]) (bytes + len d.(Datagram.data)).
Proof.
  intros (-> & Hl & Hb). unfold queue_ok. rewrite data_bytes_app, len_app, len_cons, len_nil. simpl. lia.
Qed.

Lemma queue_ok_pop d ds bytes :
  queue_ok (d :: ds) bytes -> queue_ok ds (saturating_sub bytes (len d.(Datagram.data))).
Proof. unfold queue_ok, saturating_sub. rewrite len_cons. simpl. lia. Qed.

(** The front is dropped up to the first datagram that has not expired. *)
Lemma drop_expired_spec now ds bytes :
  queue_ok ds bytes ->
  exists dropped rest, ds = dropped ++ rest
    /\ Forall (fun d => expired now d = true) dropped
    /\ (forall d, head rest = Some d -> expired now d = false)
    /\ (drop_expired now ds bytes).1 = rest /\ queue_ok rest (drop_expired now ds bytes).2.
Proof.
  revert bytes. induction ds as [|d ds IH]; intros bytes H; simpl.
  - exists [], []. split_and!; try done; apply H.
  - destruct (expired now d) eqn:E.
    + destruct (IH _ (queue_ok_pop _ _ _ H)) as (dropped & rest & -> & Hd & Hr & H1 & H2).
      exists (d :: dropped), rest. split_and!; auto.
    + exists [], (d :: ds). split_and!; try done; try apply H. by intros d' [= <-].
Qed.

Lemma datagram_step_ok q e : queues_ok q -> queues_ok (step q e).
Proof.
  intros [Ho Hi]. destruct e as [d m|now|d|]; simpl.
  - unfold enqueue_outbound. repeat case_match; try done. simplify_eq.
    split; simpl; [apply queue_ok_push; [done|lia..]|done].
  - unfold pop_outbound.
    destruct (drop_expired_spec now _ _ Ho) as (dr & rest & _ & _ & _ & H1 & H2).
    destruct (drop_expired now q.(outbound) q.(outbound_bytes)) as [r b]. simpl in *. subst r.
    destruct rest as [|d rest]; split; simpl; try done. by apply queue_ok_pop.
  - unfold enqueue_inbound. repeat case_match; try done. simplify_eq.
    split; simpl; [done|apply queue_ok_push; [done|lia..]].
  - unfold pop_inbound. destruct q.(inbound) as [|d rest] eqn:E; split; simpl; rewrite ?E; try done.
    by apply queue_ok_pop.
Qed.

Lemma datagram_run_ok es : queues_ok (run new es).
Proof. apply (fold_left_inv queues_ok); [apply datagram_step_ok|split; split_and!; done]. Qed.

(** The datagram queues are bounded and their accounts exact: after any
    sequence of operations each direction holds at most 256 datagrams and
    2 MiB, and its byte counter is the sum of the lengths of what it holds. *)
Theorem datagram_bounds es : queues_ok (run new es).
Proof. apply datagram_run_ok. Qed.

(** Datagrams leave in order and never after their deadline: popping
    yields the first queued datagram that has not expired, everything before
    it had, and what stays queued is what followed it. *)
Theorem datagram_fifo es now :
  let q := run new es in
  exists dropped, Forall (fun d => expired now d = true) dropped
    /\ match pop_outbound q now with
       | (Some d, q') => expired now d = false /\ q.(outbound) = dropped ++ d :: q'.(outbound)
       | (None, q') => q.(outbound) = dropped /\ q'.(outbound) = []
       end.
Proof.
  intros q. pose proof (datagram_run_ok es : queues_ok q) as Hq.
  clearbody q. destruct Hq as [Ho _].
  destruct (drop_expired_spec now _ _ Ho) as (dr & rest & Hq & Hd & Hr & H1 & H2).
  exists dr. split; [done|]. unfold pop_outbound.
  destruct (drop_expired now q.(outbound) q.(outbound_bytes)) as [r b]. simpl in *. subst r.
  destruct rest as [|d rest]; simpl; [by rewrite Hq, app_nil_r|]. split; [by apply Hr|done].
Qed.
