(* ===== verification/Cids.v ===== *)
(** * Connection identifiers (crates/umc-session/src/cid.rs) *)

From S2P Require Import Prelude SentPackets.

Definition MIN_CID_LEN : usize := 1.
Definition MAX_CID_LEN : usize := 20.
Definition DEFAULT_ACTIVE_LIMIT : u64 := 4.
Definition RESET_TOKEN_LEN : usize := 16.
Definition PRUNE_RETIRED_ALLOWANCE : usize := 8.
Definition EXPIRY_BUDGET_MS : u64 := 3000.

(** The runtime's randomness: [fill] overwrites a buffer of the given length.
    The source is a state, since each call draws afresh. *)
Class EntropySource (E : Type) := {
  fill : E -> nat -> list u8 * E
}.

Class EntropyLaws (E : Type) `{EntropySource E} : Prop := {
  fill_length e n : length (fill e n).1 = n
}.

Module ConnectionId.

Record t := mk {
  sequence : u64;
  bytes : list u8;
  reset_token : list u8;
  retired : bool
}.

Definition retire (c : t) : t := mk c.(sequence) c.(bytes) c.(reset_token) true.

End ConnectionId.

Module ConnectionIdManager.

Record t := mk {
  active_limit : u64;
  issued : list ConnectionId.t;
  next_sequence : u64
}.

Definition new (active_limit : u64) : t := mk (N.max active_limit 2) [] 0.

Definition is_active (c : ConnectionId.t) : Prop := c.(ConnectionId.retired) = false.

Definition is_retired (c : ConnectionId.t) : Prop := c.(ConnectionId.retired) = true.

#[global] Instance is_active_dec c : Decision (is_active c).
Proof. unfold is_active. apply _. Defined.

#[global] Instance is_retired_dec c : Decision (is_retired c).
Proof. unfold is_retired. apply _. Defined.

Definition active (m : t) : list ConnectionId.t := filter is_active m.(issued).

Definition active_count (m : t) : usize := len (active m).

Definition issue `{EntropySource E} (m : t) (length : usize) (entropy : E)
    : option ConnectionId.t * t * E :=
  if negb ((MIN_CID_LEN <=? length) && (length <=? MAX_CID_LEN)) then (None, m, entropy)
  else if m.(active_limit) <=? active_count m then (None, m, entropy)
  else
    let '(bytes, entropy) := fill entropy (N.to_nat length) in
    let '(reset_token, entropy) := fill entropy (N.to_nat RESET_TOKEN_LEN) in
    let cid := ConnectionId.mk m.(next_sequence) bytes reset_token false in
    (Some cid, mk m.(active_limit) (m.(issued) ++ [cid]) (m.(next_sequence) + 1), entropy).

(** [iter_mut().find(..)]: the first entry with the sequence number is marked. *)
Fixpoint mark_retired (cs : list ConnectionId.t) (sequence : u64) : option (list ConnectionId.t) :=
  match cs with
  | [] => None
  | c :: cs =>
      if c.(ConnectionId.sequence) =? sequence then Some (ConnectionId.retire c :: cs)
      else cons c <$> mark_retired cs sequence
  end.

Definition retire (m : t) (sequence : u64) : bool * t :=
  match mark_retired m.(issued) sequence with
  | None => (false, m)
  | Some issued => (true, mk m.(active_limit) issued m.(next_sequence))
  end.

Fixpoint retire_below (cs : list ConnectionId.t) (bound : u64) : usize * list ConnectionId.t :=
  match cs with
  | [] => (0, [])
  | c :: cs =>
      let '(count, cs) := retire_below cs bound in
      if negb c.(ConnectionId.retired) && (c.(ConnectionId.sequence) <? bound)
      then (count + 1, ConnectionId.retire c :: cs)
      else (count, c :: cs)
  end.

Definition retire_prior_to (m : t) (retire_prior_to : u64) : usize * t :=
  let '(count, issued) := retire_below m.(issued) retire_prior_to in
  (count, mk m.(active_limit) issued m.(next_sequence)).

Definition reset_token_for (m : t) (sequence : u64) : option (list u8) :=
  ConnectionId.reset_token <$> head (filter (fun c => c.(ConnectionId.sequence) = sequence) m.(issued)).

Definition retained_count (m : t) : usize := len m.(issued).

Definition keep_retired (cs : list ConnectionId.t) : list u64 :=
  ConnectionId.sequence <$> take (N.to_nat PRUNE_RETIRED_ALLOWANCE) (rev (filter is_retired cs)).

Definition prune (m : t) : t :=
  mk m.(active_limit)
     (filter (fun c => is_active c \/ c.(ConnectionId.sequence) ∈ keep_retired m.(issued)) m.(issued))
     m.(next_sequence).

Definition record_expiry_budget (m : t) : Duration := EXPIRY_BUDGET_MS.

Inductive event :=
| Issue (length : usize)
| Retire (sequence : u64)
| RetirePriorTo (bound : u64)
| Prune.

Definition step `{EntropySource E} (s : t * E) (e : event) : t * E :=
  let '(m, entropy) := s in
  match e with
  | Issue n => let '(_, m, entropy) := issue m n entropy in (m, entropy)
  | Retire n => ((retire m n).2, entropy)
  | RetirePriorTo n => ((retire_prior_to m n).2, entropy)
  | Prune => (prune m, entropy)
  end.

Definition run `{EntropySource E} (s : t * E) (es : list event) : t * E := fold_left step es s.

End ConnectionIdManager.

Import ConnectionIdManager.

(** ** Invariant *)

(** Sequence numbers increase along the list and stay below the next one. *)
Fixpoint ascending_from (lo : u64) (cs : list ConnectionId.t) (hi : u64) : Prop :=
  match cs with
  | [] => lo <= hi
  | c :: cs => lo <= c.(ConnectionId.sequence) /\ ascending_from (c.(ConnectionId.sequence) + 1) cs hi
  end.

Definition cid_shape (c : ConnectionId.t) : Prop :=
  MIN_CID_LEN <= len c.(ConnectionId.bytes) <= MAX_CID_LEN
  /\ len c.(ConnectionId.reset_token) = RESET_TOKEN_LEN.

Definition cids_ok (m : t) : Prop :=
  ascending_from 0 m.(issued) m.(next_sequence)
  /\ active_count m <= m.(active_limit)
  /\ Forall cid_shape m.(issued).

Lemma ascending_le lo cs hi : ascending_from lo cs hi -> lo <= hi.
Proof. revert lo. induction cs as [|c cs IH]; intros lo; simpl; [done|]. intros [H ?%IH]. lia. Qed.

Lemma sequence_weaken lo lo' cs hi : lo' <= lo -> ascending_from lo cs hi -> ascending_from lo' cs hi.
Proof. destruct cs; simpl; [lia|]. intros ? [? ?]. split; [lia|done]. Qed.

Lemma ascending_snoc lo cs hi b t :
  ascending_from lo cs hi -> ascending_from lo (cs ++ [ConnectionId.mk hi b t false]) (hi + 1).
Proof.
  revert lo. induction cs as [|c cs IH]; intros lo H; simpl in *; [lia|].
  destruct H as [H1 H2]. split; [done|]. by apply IH.
Qed.

Lemma ascending_bounds lo cs hi c :
  ascending_from lo cs hi -> c ∈ cs -> lo <= c.(ConnectionId.sequence) < hi.
Proof.
  revert lo. induction cs as [|x cs IH]; intros lo H Hc; [by apply elem_of_nil in Hc|].
  destruct H as [H1 H2]. apply elem_of_cons in Hc as [->|Hc].
  - pose proof (ascending_le _ _ _ H2). lia.
  - specialize (IH _ H2 Hc). lia.
Qed.

Lemma ascending_filter P {HP : forall c, Decision (P c)} lo cs hi :
  ascending_from lo cs hi -> ascending_from lo (filter P cs) hi.
Proof.
  revert lo. induction cs as [|c cs IH]; intros lo H; [done|]. destruct H as [H1 H2].
  rewrite filter_cons. case_decide; simpl.
  - split; [done|by apply IH].
  - apply (sequence_weaken (c.(ConnectionId.sequence) + 1)); [lia|by apply IH].
Qed.

(** Two lists that differ only in retirement. *)
Definition same_but_retired (c c' : ConnectionId.t) : Prop :=
  c' = c \/ c' = ConnectionId.retire c.

Lemma retired_step_ok m cs' :
  cids_ok m -> Forall2 same_but_retired m.(issued) cs' ->
  cids_ok (mk m.(active_limit) cs' m.(next_sequence)).
Proof.
  intros (H1 & H2 & H3) HR. unfold cids_ok, active_count, active in *. simpl in *.
  assert (len (filter is_active cs') <= len (filter is_active m.(issued))).
  { clear -HR. induction HR as [|c c' cs cs' [->| ->] HR IH]; [done|..]; rewrite !filter_cons;
      repeat case_decide; rewrite ?len_cons; try done; lia. }
  split_and!; [|lia|].
  - revert H1. generalize 0. clear -HR. induction HR as [|c c' cs cs' [->| ->] HR IH]; intros lo; simpl;
      [done|..]; intros [? ?]; split; auto.
  - clear -HR H3. induction HR as [|c c' cs cs' Hc HR IH]; [constructor|].
    apply Forall_cons_iff in H3 as [Hs H3]. constructor; [|auto]. destruct Hc as [->| ->]; done.
Qed.

Lemma same_but_retired_refl cs : Forall2 same_but_retired cs cs.
Proof. induction cs; constructor; auto. by left. Qed.

Lemma mark_retired_same cs n cs' : mark_retired cs n = Some cs' -> Forall2 same_but_retired cs cs'.
Proof.
  revert cs'. induction cs as [|c cs IH]; intros cs'; simpl; [done|]. case_match.
  - intros [= <-]. constructor; [by right|apply same_but_retired_refl].
  - destruct (mark_retired cs n) as [k|] eqn:E; simpl; [|done]. intros [= <-].
    constructor; [by left|auto].
Qed.

Lemma retire_below_same cs n : Forall2 same_but_retired cs (retire_below cs n).2.
Proof.
  induction cs as [|c cs IH]; simpl; [constructor|].
  destruct (retire_below cs n) as [k cs']. simpl in IH. case_match; simpl; constructor; auto;
    [by right|by left].
Qed.

Lemma filter_active_le P {HP : forall c, Decision (P c)} cs :
  len (filter is_active (filter P cs)) <= len (filter is_active cs).
Proof.
  induction cs as [|c cs IH]; [done|]. rewrite (filter_cons P), (filter_cons is_active).
  case_decide; [rewrite filter_cons|]; repeat case_decide; rewrite ?len_cons; lia.
Qed.

Section Entropy.

Context `{EntropyLaws E}.

Lemma issue_ok m n e : cids_ok m -> cids_ok (issue m n e).1.2.
Proof.
  intros (H1 & H2 & H3). unfold issue. case_match; [done|].
  destruct (N.leb_spec m.(active_limit) (active_count m)); [done|].
  destruct (fill e (N.to_nat n)) as [bs e1] eqn:E1.
  destruct (fill e1 (N.to_nat RESET_TOKEN_LEN)) as [tk e2] eqn:E2.
  pose proof (fill_length e (N.to_nat n)) as L1. pose proof (fill_length e1 (N.to_nat RESET_TOKEN_LEN)) as L2.
  rewrite E1 in L1. rewrite E2 in L2. simpl in *.
  unfold cids_ok, active_count, active in *. simpl. split_and!.
  - by apply ascending_snoc.
  - rewrite list.filter_app, filter_cons, decide_True by done. rewrite len_app, len_cons, filter_nil, len_nil. lia.
  - apply Forall_app. split; [done|]. constructor; [|constructor]. unfold cid_shape, len; simpl.
    rewrite L1, L2. lia.
Qed.

Lemma cids_step_ok (s : t * E) ev : cids_ok s.1 -> cids_ok (step s ev).1.
Proof.
  destruct s as [m e]. intros Hm. simpl in Hm. destruct ev as [n|n|n|]; simpl.
  - pose proof (issue_ok m n e Hm) as Hi. by destruct (issue m n e) as [[? m'] e'].
  - unfold retire. destruct (mark_retired m.(issued) n) eqn:Em; [|done]. simpl.
    apply retired_step_ok; [done|]. by eapply mark_retired_same.
  - unfold retire_prior_to. pose proof (retire_below_same m.(issued) n) as HR.
    destruct (retire_below m.(issued) n) as [k cs]. simpl in *. by apply retired_step_ok.
  - destruct Hm as (H1 & H2 & H3). split_and!; simpl.
    + by apply ascending_filter.
    + etransitivity; [apply filter_active_le|done].
    + apply list.Forall_forall. intros c [_ Hc]%list_elem_of_filter. rewrite list.Forall_forall in H3. auto.
Qed.

Lemma cids_run_ok limit (e : E) es : cids_ok (run (new limit, e) es).1.
Proof.
  apply (fold_left_inv (fun s => cids_ok s.1)); [apply cids_step_ok|].
  split_and!; simpl; [lia|apply N.le_0_l|constructor].
Qed.

End Entropy.

Lemma run_limit `{EntropySource E} (s : t * E) es : (run s es).1.(active_limit) = s.1.(active_limit).
Proof.
  apply (fold_left_inv (fun s' => s'.1.(active_limit) = s.1.(active_limit))); [|done].
  intros [m e] [n|n|n|] <-; simpl.
  - unfold issue. repeat case_match; by simplify_eq/=.
  - unfold retire. by destruct (mark_retired m.(issued) n).
  - unfold retire_prior_to. by destruct (retire_below m.(issued) n).
  - done.
Qed.

Lemma ascending_NoDup lo cs hi : ascending_from lo cs hi -> NoDup (ConnectionId.sequence <$> cs).
Proof.
  revert lo. induction cs as [|c cs IH]; intros lo; simpl; [constructor|]. intros [_ H].
  apply list.NoDup_cons. split; [|by eapply IH]. intros (c' & Hc' & Hin)%list_elem_of_fmap.
  pose proof (ascending_bounds _ _ _ _ H Hin). lia.
Qed.

(** What [retire_prior_to] leaves active, and its count. *)
Lemma retire_below_active cs n :
  filter is_active (retire_below cs n).2
  = filter (fun c => n <= c.(ConnectionId.sequence)) (filter is_active cs)
  /\ (retire_below cs n).1 + len (filter is_active (retire_below cs n).2) = len (filter is_active cs).
Proof.
  induction cs as [|c cs [IH1 IH2]]; [done|]. simpl.
  destruct (retire_below cs n) as [k cs']. simpl in *. rewrite (filter_cons is_active c cs).
  destruct (decide (is_active c)) as [Er|Er]; unfold is_active in Er.
  2:{ apply not_false_is_true in Er. rewrite Er. simpl. rewrite filter_cons, decide_False; [done|].
      unfold is_active. by rewrite Er. }
  - rewrite Er. simpl. rewrite (filter_cons (fun c => n <= _)), len_cons.
    destruct (N.ltb_spec c.(ConnectionId.sequence) n); simpl; rewrite filter_cons.
    + rewrite decide_False by done. rewrite decide_False by lia. split; [done|lia].
    + rewrite decide_True by done. rewrite decide_True by done. rewrite len_cons. split; [congruence|lia].
Qed.

Lemma filter_all {A} (P : A -> Prop) {HP : forall x, Decision (P x)} (l : list A) :
  (forall x, x ∈ l -> P x) -> filter P l = l.
Proof.
  induction l as [|x l IH]; intros H; [done|]. rewrite filter_cons, decide_True by (apply H; left).
  f_equal. apply IH. intros y Hy. apply H. by right.
Qed.

Lemma filter_none {A} (P : A -> Prop) {HP : forall x, Decision (P x)} (l : list A) :
  (forall x, x ∈ l -> ~ P x) -> filter P l = [].
Proof.
  induction l as [|x l IH]; intros H; [done|]. rewrite filter_cons, decide_False by (apply H; left).
  apply IH. intros y Hy. apply H. by right.
Qed.

(** Keeping the members of a suffix by their sequence numbers keeps the suffix. *)
Lemma filter_suffix lo hi pre suf :
  ascending_from lo (pre ++ suf) hi ->
  filter (fun c => c.(ConnectionId.sequence) ∈ (ConnectionId.sequence <$> suf)) (pre ++ suf) = suf.
Proof.
  intros H%ascending_NoDup. rewrite fmap_app in H. apply list.NoDup_app in H as (_ & Hd & _).
  rewrite list.filter_app, filter_none, filter_all; [done| |].
  - intros c Hc. by apply list_elem_of_fmap_2.
  - intros c Hc Hin. by apply (Hd c.(ConnectionId.sequence)); [apply list_elem_of_fmap_2|].
Qed.

Lemma len_split_retired cs : len cs = len (filter is_active cs) + len (filter is_retired cs).
Proof.
  induction cs as [|c cs IH]; [done|]. rewrite !filter_cons, len_cons, IH.
  repeat case_decide; rewrite ?len_cons; unfold is_active, is_retired in *; try congruence; [lia..|].
  by destruct c.(ConnectionId.retired).
Qed.

(** [prune] keeps the last eight of the retired entries. *)
Lemma prune_retired lo hi cs :
  ascending_from lo cs hi ->
  filter is_retired (filter (fun c => is_active c \/ c.(ConnectionId.sequence) ∈ keep_retired cs) cs)
  = drop (length (filter is_retired cs) - 8) (filter is_retired cs).
Proof.
  intros H. set (r := filter is_retired cs). set (k := (length r - 8)%nat).
  assert (Hr : ascending_from lo r hi) by by apply ascending_filter.
  rewrite <- (take_drop k r) in Hr. pose proof (filter_suffix _ _ _ _ Hr) as Hf.
  rewrite take_drop in Hf. 
  trans (filter (fun c => c.(ConnectionId.sequence) ∈ (ConnectionId.sequence <$> drop k r))
                (filter is_retired cs)); [|exact Hf]. rewrite !list_filter_filter.
  apply list_filter_iff. intros c. unfold keep_retired. rewrite firstn_rev. fold r.
  change (N.to_nat PRUNE_RETIRED_ALLOWANCE) with 8%nat. fold k. unfold is_active, is_retired.
  assert (Hm : forall x, x ∈ ConnectionId.sequence <$> rev (drop k r)
                         <-> x ∈ ConnectionId.sequence <$> drop k r).
  { intros x. rewrite !list_elem_of_fmap. setoid_rewrite list_elem_of_In. by setoid_rewrite <- in_rev. }
  rewrite Hm. destruct c.(ConnectionId.retired); naive_solver.
Qed.

(** ** Properties *)

(** Connection identifiers are bounded and never reused: whatever the
    session issues, retires and prunes, at most the active limit (at least
    two) is active, no two records share a sequence number, every number is
    below the next one to be issued, identifiers are 1 to 20 bytes and reset
    tokens 16. *)
Theorem cids_bounded `{EntropyLaws E} limit (e : E) es :
  let m := (run (new limit, e) es).1 in
  active_count m <= N.max limit 2
  /\ NoDup (ConnectionId.sequence <$> m.(issued))
  /\ Forall (fun c => c.(ConnectionId.sequence) < m.(next_sequence) /\ cid_shape c) m.(issued).
Proof.
  intros m. destruct (cids_run_ok limit e es) as (H1 & H2 & H3). fold m in H1, H2, H3.
  split_and!.
  - by rewrite (run_limit (new limit, e) es : m.(active_limit) = _) in H2.
  - by eapply ascending_NoDup.
  - apply list.Forall_forall. intros c Hc. rewrite list.Forall_forall in H3. split; [|auto].
    apply (ascending_bounds _ _ _ _ H1 Hc).
Qed.

(** Pruning forgets only old retired identifiers: the active ones all
    stay, of the retired ones exactly the newest eight stay, and at most the
    active limit plus eight records remain. *)
Theorem cids_prune `{EntropyLaws E} limit (e : E) es :
  let m := (run (new limit, e) es).1 in
  active (prune m) = active m
  /\ filter is_retired (prune m).(issued)
     = drop (length (filter is_retired m.(issued)) - 8) (filter is_retired m.(issued))
  /\ retained_count (prune m) <= N.max limit 2 + 8.
Proof.
  intros m. destruct (cids_run_ok limit e es) as (H1 & H2 & H3). fold m in H1, H2, H3.
  rewrite (run_limit (new limit, e) es : m.(active_limit) = _) in H2. simpl in H2.
  assert (Ha : active (prune m) = active m).
  { unfold active, prune. simpl. apply list_filter_filter_l. auto. }
  assert (Hr := prune_retired _ _ _ H1). split_and!; [done..|].
  unfold retained_count. rewrite (len_split_retired (prune m).(issued)).
  unfold active_count in H2. rewrite <- Ha in H2. unfold active in H2. simpl in *. rewrite Hr.
  unfold len at 2. rewrite length_drop. lia.
Qed.

(** Retiring up to a bound leaves active exactly the identifiers at or
    above it, in order, and reports how many it retired. *)
Theorem cids_retire_prior_to m bound :
  let '(count, m') := retire_prior_to m bound in
  active m' = filter (fun c => bound <= c.(ConnectionId.sequence)) (active m)
  /\ count + active_count m' = active_count m.
Proof.
  unfold retire_prior_to. pose proof (retire_below_active m.(issued) bound) as [H1 H2].
  destruct (retire_below m.(issued) bound) as [k cs]. done.
Qed.

(** A counter as a source of randomness, to run the manager. *)
#[global] Instance counter_entropy : EntropySource N := {
  fill e n := (replicate n (e mod 256), e + 1)
}.

#[global] Instance counter_laws : EntropyLaws N.
Proof. constructor. intros e n. apply length_replicate. Qed.

Definition sample_cid_events : list event :=
  [Issue 8; Issue 8; Issue 20; Issue 0; RetirePriorTo 2; Issue 4; Prune].

Lemma cids_bounded_witness :
  let m := (run (new 3, 7) sample_cid_events).1 in
  active_count m <= N.max 3 2
  /\ NoDup (ConnectionId.sequence <$> m.(issued))
  /\ Forall (fun c => c.(ConnectionId.sequence) < m.(next_sequence) /\ cid_shape c) m.(issued).
Proof. apply (cids_bounded 3 7 sample_cid_events). Defined.

Lemma cids_prune_witness :
  let m := (run (new 3, 7) sample_cid_events).1 in
  active (prune m) = active m
  /\ filter is_retired (prune m).(issued)
     = drop (length (filter is_retired m.(issued)) - 8) (filter is_retired m.(issued))
  /\ retained_count (prune m) <= N.max 3 2 + 8.
Proof. apply (cids_prune 3 7 sample_cid_events). Defined.
