(* ===== verification/Paths.v ===== *)
(** * Paths and their validation (crates/umc-session/src/path.rs) *)

From Stdlib Require Import Strings.String.
From S2P Require Import Prelude SentPackets.

#[local] Open Scope N_scope.

Inductive PathState :=
| PathNew
| Validating
| Validated
| Degraded
| Failed
| Retired.

Definition MAX_CANDIDATE_PATHS : usize := 2.
Definition MAX_OUTSTANDING_CHALLENGES : usize := 3.
Definition MAX_CHALLENGE_RETRIES : u32 := 3.
Definition CHALLENGE_RETRY_PTO_MULTIPLIER : u64 := 3.

Module PathChallenge.

Record t := mk {
  data : list u8;
  sent_at : Instant;
  expires_at : Instant;
  retries : u32
}.

End PathChallenge.

Inductive PathError :=
| TooManyChallenges
| UnknownChallenge
| ValidationFailed.

Module Path.

Record t := mk {
  path_id : u64;
  state : PathState;
  carrier_type : string;
  local_context : list u8;
  remote_context : list u8;
  validated : bool;
  rtt_ms : u64;
  mtu : usize;
  last_activity : Instant;
  received_bytes_unvalidated : u64;
  sent_bytes_unvalidated : u64;
  challenges : list PathChallenge.t
}.

Definition new (path_id : u64) (carrier_type : string) (local remote : list u8) (now : Instant) : t :=
  mk path_id PathNew carrier_type local remote false 0 1200 now 0 0 [].

(** Field updates. *)
Definition set_challenges (p : t) (cs : list PathChallenge.t) : t :=
  mk p.(path_id) p.(state) p.(carrier_type) p.(local_context) p.(remote_context) p.(validated)
     p.(rtt_ms) p.(mtu) p.(last_activity) p.(received_bytes_unvalidated) p.(sent_bytes_unvalidated) cs.

Definition set_state (p : t) (s : PathState) (v : bool) : t :=
  mk p.(path_id) s p.(carrier_type) p.(local_context) p.(remote_context) v
     p.(rtt_ms) p.(mtu) p.(last_activity) p.(received_bytes_unvalidated) p.(sent_bytes_unvalidated)
     p.(challenges).

Definition set_counts (p : t) (received sent : u64) (now : Instant) : t :=
  mk p.(path_id) p.(state) p.(carrier_type) p.(local_context) p.(remote_context) p.(validated)
     p.(rtt_ms) p.(mtu) now received sent p.(challenges).

Definition send_allowance (p : t) : u64 :=
  saturating_sub (saturating_mul p.(received_bytes_unvalidated) 3) p.(sent_bytes_unvalidated).

Definition record_received (p : t) (bytes : u64) (now : Instant) : t :=
  set_counts p (p.(received_bytes_unvalidated) + bytes) p.(sent_bytes_unvalidated) now.

Definition record_sent (p : t) (bytes : u64) : t :=
  set_counts p p.(received_bytes_unvalidated) (p.(sent_bytes_unvalidated) + bytes) p.(last_activity).

Definition start_validation (p : t) (challenge : list u8) (now : Instant) (pto_ms : u64)
    : Result PathError t :=
  if MAX_OUTSTANDING_CHALLENGES <=? len p.(challenges) then Err TooManyChallenges
  else
    let pto := N.max pto_ms 1000 in
    let c :=
      PathChallenge.mk challenge now (instant_add now (CHALLENGE_RETRY_PTO_MULTIPLIER * pto)) 0 in
    Ok (set_state (set_challenges p (p.(challenges) ++ [c])) Validating p.(validated)).

(** [position] and [remove]: the first match is taken out. *)
Fixpoint remove_challenge (cs : list PathChallenge.t) (response : list u8)
    : option (list PathChallenge.t) :=
  match cs with
  | [] => None
  | c :: cs =>
      if bool_decide (c.(PathChallenge.data) = response) then Some cs
      else cons c <$> remove_challenge cs response
  end.

Definition confirm (p : t) (response : list u8) : Result PathError t :=
  cs ← ok_or UnknownChallenge (remove_challenge p.(challenges) response);
  Ok (set_counts (set_state (set_challenges p cs) Validated true) 0 0 p.(last_activity)).

(** The loop over the challenges; an error leaves those already visited
    re-armed and the failing one counted. *)
Fixpoint retry_loop (now : Instant) (cs : list PathChallenge.t) (retried : bool)
    : Result PathError bool * list PathChallenge.t :=
  match cs with
  | [] => (Ok retried, [])
  | c :: cs =>
      if c.(PathChallenge.expires_at) <=? now then
        let n := c.(PathChallenge.retries) + 1 in
        if MAX_CHALLENGE_RETRIES <? n then
          (Err ValidationFailed,
           PathChallenge.mk c.(PathChallenge.data) c.(PathChallenge.sent_at) c.(PathChallenge.expires_at) n
           :: cs)
        else
          let '(r, rest) := retry_loop now cs true in
          (r, PathChallenge.mk c.(PathChallenge.data) c.(PathChallenge.sent_at) (instant_add now 1000) n
              :: rest)
      else
        let '(r, rest) := retry_loop now cs retried in (r, c :: rest)
  end.

Definition retry_expired_challenges (p : t) (now : Instant) : Result PathError bool * t :=
  let '(r, cs) := retry_loop now p.(challenges) false in (r, set_challenges p cs).

Definition mark_failed (p : t) : t := set_state p Failed false.

(** What happens to a path.  [Send] is a packet of a sender that keeps to the
    allowance: an unvalidated path takes it only within the allowance and is
    charged; a validated one is not charged. *)
Inductive event :=
| Receive (bytes : u64) (now : Instant)
| Send (bytes : u64)
| Challenge (data : list u8) (now : Instant) (pto_ms : u64)
| Response (data : list u8)
| Retry (now : Instant)
| Fail_.

Definition step (p : t) (e : event) : t :=
  match e with
  | Receive b now => record_received p b now
  | Send b => if negb p.(validated) && (b <=? send_allowance p) then record_sent p b else p
  | Challenge d now pto => match start_validation p d now pto with Ok p' => p' | Err _ => p end
  | Response d => match confirm p d with Ok p' => p' | Err _ => p end
  | Retry now => (retry_expired_challenges p now).2
  | Fail_ => mark_failed p
  end.

Definition run (p : t) (es : list event) : t := fold_left step es p.

End Path.

Import Path.

(** ** Lemmas *)

Lemma remove_challenge_spec cs d cs' :
  remove_challenge cs d = Some cs' ->
  exists pre c post, cs = pre ++ c :: post /\ cs' = pre ++ post /\ c.(PathChallenge.data) = d
    /\ Forall (fun c => c.(PathChallenge.data) <> d) pre.
Proof.
  revert cs'. induction cs as [|c cs IH]; intros cs'; simpl; [done|]. case_bool_decide as E.
  - intros [= <-]. by exists [], c, cs.
  - destruct (remove_challenge cs d) as [k|]; simpl; [|done]. intros [= <-].
    destruct (IH _ eq_refl) as (pre & c' & post & -> & -> & Hd & Hp).
    exists (c :: pre), c', post. split_and!; auto.
Qed.

Lemma retry_loop_data now cs b :
  PathChallenge.data <$> (retry_loop now cs b).2 = PathChallenge.data <$> cs.
Proof.
  revert b. induction cs as [|c cs IH]; intros b; simpl; [done|]. case_match.
  - case_match; [done|]. specialize (IH true). destruct (retry_loop now cs true). cbn [snd] in *. by rewrite !fmap_cons, IH.
  - specialize (IH b). destruct (retry_loop now cs b). cbn [snd] in *. by rewrite !fmap_cons, IH.
Qed.

(** A pass over the challenges fails exactly when an expired one has used up
    its retries; otherwise it re-arms the expired ones and nothing else. *)
Lemma retry_loop_spec now cs b :
  match retry_loop now cs b with
  | (Ok r, cs') =>
      cs' = map (fun c => if c.(PathChallenge.expires_at) <=? now
                          then PathChallenge.mk c.(PathChallenge.data) c.(PathChallenge.sent_at)
                                 (instant_add now 1000) (c.(PathChallenge.retries) + 1)
                          else c) cs
      /\ r = b || existsb (fun c => c.(PathChallenge.expires_at) <=? now) cs
      /\ Forall (fun c => c.(PathChallenge.expires_at) <= now ->
                          c.(PathChallenge.retries) < MAX_CHALLENGE_RETRIES) cs
  | (Err e, _) =>
      e = ValidationFailed
      /\ Exists (fun c => c.(PathChallenge.expires_at) <= now
                          /\ MAX_CHALLENGE_RETRIES <= c.(PathChallenge.retries)) cs
  end.
Proof.
  revert b. induction cs as [|c cs IH]; intros b; simpl.
  { split_and!; [done| |constructor]. by rewrite orb_false_r. }
  destruct (N.leb_spec c.(PathChallenge.expires_at) now) as [He|He].
  - destruct (N.ltb_spec MAX_CHALLENGE_RETRIES (c.(PathChallenge.retries) + 1)) as [Hr|Hr].
    + split; [done|]. left. split; [done|lia].
    + specialize (IH true). destruct (retry_loop now cs true) as [[r|e] cs'].
      * destruct IH as (-> & -> & H). split_and!; [done|by rewrite orb_true_r|]. constructor; [lia|done].
      * destruct IH as [-> H]. split; [done|]. by right.
  - specialize (IH b). destruct (retry_loop now cs b) as [[r|e] cs'].
    + destruct IH as (-> & -> & H). split_and!; [done|done|]. constructor; [lia|done].
    + destruct IH as [-> H]. split; [done|]. by right.
Qed.

Definition path_ok (p : t) : Prop :=
  p.(sent_bytes_unvalidated) <= 3 * p.(received_bytes_unvalidated)
  /\ len p.(challenges) <= MAX_OUTSTANDING_CHALLENGES
  /\ (p.(validated) = true -> p.(state) = Validated \/ p.(state) = Validating).

Lemma confirm_Ok p d p' :
  confirm p d = Ok p' ->
  exists cs, remove_challenge p.(challenges) d = Some cs
    /\ p' = set_counts (set_state (set_challenges p cs) Validated true) 0 0 p.(last_activity).
Proof.
  unfold confirm. intros (cs & H & E)%bind_Ok. apply ok_or_Ok in H. injection E as <-. eauto.
Qed.

Lemma start_validation_Ok p d now pto p' :
  start_validation p d now pto = Ok p' ->
  len p.(challenges) < MAX_OUTSTANDING_CHALLENGES
  /\ exists c, c.(PathChallenge.data) = d
     /\ p' = set_state (set_challenges p (p.(challenges) ++ [c])) Validating p.(validated).
Proof.
  unfold start_validation. destruct (N.leb_spec MAX_OUTSTANDING_CHALLENGES (len p.(challenges))); [done|].
  intros <-%(inj Ok). split; [done|]. eexists. split; [|reflexivity]. done.
Qed.

Lemma path_step_ok p e : path_ok p -> path_ok (step p e).
Proof.
  intros H. pose proof H as (H1 & H2 & H3). destruct e as [b now|b|d now pto|d|now|]; simpl.
  - split_and!; simpl; [lia|done|done].
  - case_match eqn:E; [|done]. apply andb_true_iff in E as [_ E].
    unfold send_allowance, saturating_sub, saturating_mul in E.
    split_and!; simpl; [lia|done|done].
  - destruct (start_validation p d now pto) eqn:E; [|done].
    apply start_validation_Ok in E as (Hl & c & _ & ->).
    split_and!; simpl; [done| |by right]. rewrite len_app, len_cons, len_nil. lia.
  - destruct (confirm p d) eqn:E; [|done]. apply confirm_Ok in E as (cs & E & ->).
    apply remove_challenge_spec in E as (pre & c & post & E & -> & _).
    split_and!; simpl; [lia| |by left]. rewrite E in H2. rewrite len_app, len_cons in *. lia.
  - unfold retry_expired_challenges. pose proof (retry_loop_data now p.(challenges) false) as Hd.
    destruct (retry_loop now p.(challenges) false) as [r cs]. simpl in *.
    split_and!; simpl; [done| |done]. apply (f_equal (@length _)) in Hd. rewrite !length_fmap in Hd.
    unfold len in *. lia.
  - split_and!; simpl; done.
Qed.

(** The challenges still open were issued on this path, and a validated path
    was answered with one. *)
Definition issued_in (es : list event) (d : list u8) : Prop :=
  exists es1 now pto es2, es = es1 ++ Challenge d now pto :: es2.

Definition answered_in (es : list event) : Prop :=
  exists es1 d es2, es = es1 ++ Response d :: es2 /\ issued_in es1 d.

Definition path_authentic (es : list event) (p : t) : Prop :=
  Forall (issued_in es) (PathChallenge.data <$> p.(challenges))
  /\ (p.(validated) = true -> answered_in es).

Lemma issued_in_snoc es e d : issued_in es d -> issued_in (es ++ [e]) d.
Proof. intros (es1 & now & pto & es2 & ->). exists es1, now, pto, (es2 ++ [e]). by rewrite <- app_assoc. Qed.

Lemma answered_in_snoc es e : answered_in es -> answered_in (es ++ [e]).
Proof. intros (es1 & d & es2 & -> & H). exists es1, d, (es2 ++ [e]). by rewrite <- app_assoc. Qed.

Lemma authentic_snoc es e p : path_authentic es p -> path_authentic (es ++ [e]) p.
Proof.
  intros [H1 H2]. split; [|by intros ?%H2%(answered_in_snoc _ e)].
  eapply Forall_impl; [|exact H1]. intros d. apply issued_in_snoc.
Qed.

Lemma authentic_step es e p : path_authentic es p -> path_authentic (es ++ [e]) (step p e).
Proof.
  intros H. pose proof (authentic_snoc es e p H) as [H1 H2]. destruct H as [H0 _].
  destruct e as [b now|b|d now pto|d|now|]; simpl; [done|by case_match|..].
  - destruct (start_validation p d now pto) eqn:E; [|done].
    apply start_validation_Ok in E as (_ & c & <- & ->). split; [|done]. simpl. rewrite fmap_app.
    apply Forall_app. split; [done|]. constructor; [|constructor]. by exists es, now, pto, [].
  - destruct (confirm p d) eqn:E; [|done]. apply confirm_Ok in E as (cs & E & ->).
    apply remove_challenge_spec in E as (pre & c & post & E & -> & <- & _). rewrite E in H0, H1.
    rewrite fmap_app, fmap_cons in H0, H1. apply Forall_app in H1 as [Ha [_ Hb]%Forall_cons_iff].
    apply Forall_app in H0 as [_ [Hc _]%Forall_cons_iff].
    split; simpl; [rewrite fmap_app; apply Forall_app; auto|]. intros _. by exists es, c.(PathChallenge.data), [].
  - unfold retry_expired_challenges. pose proof (retry_loop_data now p.(challenges) false) as Hd.
    destruct (retry_loop now p.(challenges) false) as [r cs]. simpl in *. split; simpl; [by rewrite Hd|done].
  - split; [done|discriminate].
Qed.

(** ** Properties *)

(** The amplification limit: on a path whose sender keeps to the
    allowance, the bytes sent while it is unvalidated never exceed three times
    the bytes received, through challenges, retries, failure and
    revalidation; and at most three challenges are ever outstanding. *)
Theorem path_amplification id carrier local remote now es :
  let p := run (new id carrier local remote now) es in
  p.(sent_bytes_unvalidated) <= 3 * p.(received_bytes_unvalidated)
  /\ len p.(challenges) <= MAX_OUTSTANDING_CHALLENGES.
Proof.
  assert (H : path_ok (run (new id carrier local remote now) es)).
  { apply (fold_left_inv path_ok); [apply path_step_ok|]. by split_and!. }
  by destruct H as (H1 & H2 & _).
Qed.

(** A path is validated only by answering a challenge: whenever a path is
    validated, a response was received whose eight bytes had been issued as a
    challenge on this path before. *)
Theorem path_validation_authentic id carrier local remote now es :
  (run (new id carrier local remote now) es).(validated) = true -> answered_in es.
Proof.
  assert (H : path_authentic es (run (new id carrier local remote now) es)); [|apply H].
  induction es as [|e es IH] using rev_ind; [split; [constructor|discriminate]|].
  unfold run in *. rewrite fold_left_app. by apply authentic_step.
Qed.

Lemma path_validation_authentic_witness :
  answered_in [Receive 100 5; Challenge [1; 2; 3; 4; 5; 6; 7; 8] 5 20; Retry 9; Response [1; 2; 3; 4; 5; 6; 7; 8]].
Proof. by apply (path_validation_authentic 1 "udp" [] [] 0). Defined.

(** A retry pass fails exactly when some expired challenge has been
    retried three times already; otherwise it re-arms every expired challenge
    for a second, counts the retry, and leaves the rest of the path alone. *)
Theorem path_retry p now :
  match retry_expired_challenges p now with
  | (Ok retried, p') =>
      p' = set_challenges p
             (map (fun c => if c.(PathChallenge.expires_at) <=? now
                            then PathChallenge.mk c.(PathChallenge.data) c.(PathChallenge.sent_at)
                                   (instant_add now 1000) (c.(PathChallenge.retries) + 1)
                            else c) p.(challenges))
      /\ retried = existsb (fun c => c.(PathChallenge.expires_at) <=? now) p.(challenges)
      /\ Forall (fun c => c.(PathChallenge.expires_at) <= now ->
                          c.(PathChallenge.retries) < MAX_CHALLENGE_RETRIES) p.(challenges)
  | (Err e, _) =>
      e = ValidationFailed
      /\ Exists (fun c => c.(PathChallenge.expires_at) <= now
                          /\ MAX_CHALLENGE_RETRIES <= c.(PathChallenge.retries)) p.(challenges)
  end.
Proof.
  unfold retry_expired_challenges. pose proof (retry_loop_spec now p.(challenges) false) as H.
  destruct (retry_loop now p.(challenges) false) as [[r|e] cs]; [|done].
  by destruct H as (-> & -> & H).
Qed.
