(* ===== verification/KeyPhase.v ===== *)
(** * Key phases and resumption secrets
      (crates/umc-session/src/key_update.rs, ticket.rs and
      [Session::on_key_update] of session.rs)

    The state of the key updates of one endpoint, the step of the endpoint that
    initiates one and of the endpoint that is told of one.  A [None] is the
    panic of an [expect]; [next_secret_total] shows that none is reached. *)

From Stdlib Require Import Strings.String.
From S2P Require Import Prelude SentPackets Crypto.

#[local] Open Scope N_scope.

#[local] Opaque expand_loop next_traffic_secret.

Definition MAX_RETAINED_KEY_PHASES : usize := 2.

Inductive KeyUpdateError :=
| AlreadyPending.

Module KeyUpdateState.

Record t := mk {
  local_secret : list u8;
  remote_secret : list u8;
  local_phase : u8;
  remote_phase : u8;
  update_sequence : u64;
  awaiting_confirmation : bool
}.

Definition new (local_secret remote_secret : list u8) : t :=
  mk local_secret remote_secret 0 0 0 false.

Definition confirm_remote_phase (k : t) (new_remote_secret : list u8) : t :=
  mk k.(local_secret) new_remote_secret k.(local_phase) (N.lxor k.(remote_phase) 1)
     k.(update_sequence) k.(awaiting_confirmation).

Definition mark_confirmed (k : t) : t :=
  mk k.(local_secret) k.(remote_secret) k.(local_phase) k.(remote_phase) k.(update_sequence) false.

Definition retention_period (k : t) (pto_ms : u64) : Duration := N.max (3 * pto_ms) 1000.

Section Keys.
Context `{Primitives}.

Definition local_keys (k : t) : option PacketKeys.t :=
  match PacketKeys.from_traffic_secret k.(local_secret) with Ok keys => Some keys | Err _ => None end.

Definition remote_keys (k : t) : option PacketKeys.t :=
  match PacketKeys.from_traffic_secret k.(remote_secret) with Ok keys => Some keys | Err _ => None end.

Definition initiate (k : t) : option (Result KeyUpdateError (u64 * t)) :=
  if k.(awaiting_confirmation) then Some (Err AlreadyPending)
  else
    next ← next_traffic_secret k.(local_secret);
    let sequence := k.(update_sequence) + 1 in
    Some (Ok (sequence, mk next k.(remote_secret) (N.lxor k.(local_phase) 1) k.(remote_phase)
                           sequence true)).

End Keys.
End KeyUpdateState.

Import KeyUpdateState.

Inductive KeyUpdateRefused :=
| KeyUpdateOutOfOrder.

Section Session.
Context `{Primitives}.

(** [Session::on_key_update]: the state after a frame with this sequence. *)
Definition on_key_update (k : t) (sequence : u64) : option (Result KeyUpdateRefused t) :=
  if negb (sequence =? k.(update_sequence) + 1) && negb (sequence =? k.(update_sequence))
  then Some (Err KeyUpdateOutOfOrder)
  else if k.(update_sequence) <? sequence then
    next ← next_traffic_secret k.(remote_secret);
    let k := confirm_remote_phase k next in
    let k := mk k.(local_secret) k.(remote_secret) k.(local_phase) k.(remote_phase) sequence
                k.(awaiting_confirmation) in
    Some (Ok (mark_confirmed k))
  else Some (Ok (mark_confirmed k)).

(** [resumption_psk]. *)
Definition resumption_psk (resumption_master_secret ticket_nonce : list u8) : option (list u8) :=
  match expand_label resumption_master_secret (bstr "resumption") ticket_nonce 32 with
  | Ok out => Some out
  | Err _ => None
  end.

(** ** Two endpoints

    One endpoint attempts an update and its frame, if there is one, is
    delivered before anything else happens. *)

Definition update_round (first : t) (second : t) : option (t * t) :=
  r ← initiate first;
  match r with
  | Err _ => Some (first, second)
  | Ok (sequence, first') =>
      r ← on_key_update second sequence;
      match r with
      | Ok second' => Some (first', second')
      | Err _ => None
      end
  end.

(** [true]: the first endpoint attempts. *)
Fixpoint update_rounds (turns : list bool) (a b : t) : option (t * t) :=
  match turns with
  | [] => Some (a, b)
  | true :: turns => '(a, b) ← update_round a b; update_rounds turns a b
  | false :: turns => '(b, a) ← update_round b a; update_rounds turns a b
  end.

(** Each endpoint's receiving half is the other's sending half. *)
Definition in_step (a b : t) : Prop :=
  a.(local_secret) = b.(remote_secret) /\ b.(local_secret) = a.(remote_secret)
  /\ a.(local_phase) = b.(remote_phase) /\ b.(local_phase) = a.(remote_phase)
  /\ a.(update_sequence) = b.(update_sequence).

Context `{!PrimitiveLaws}.

Lemma next_secret_total s : exists n, next_traffic_secret s = Some n /\ len n = 32.
Proof.
  Transparent next_traffic_secret. unfold next_traffic_secret. Opaque next_traffic_secret.
  destruct (expand_label_Ok s (bstr "traffic update") 32) as (n & -> & Hn); [done|]. eauto.
Qed.

Lemma update_round_in_step a b :
  in_step a b ->
  exists a' b', update_round a b = Some (a', b') /\ in_step a' b'
    /\ a'.(update_sequence) = a.(update_sequence) + (if a.(awaiting_confirmation) then 0 else 1)
    /\ b'.(awaiting_confirmation) = (a.(awaiting_confirmation) && b.(awaiting_confirmation)).
Proof.
  intros (H1 & H2 & H3 & H4 & H5). unfold update_round, initiate.
  destruct a.(awaiting_confirmation) eqn:Ea; simpl.
  { exists a, b. split_and!; try done. lia. }
  destruct (next_secret_total a.(local_secret)) as (n & Hn & _). rewrite Hn. simpl.
  unfold on_key_update. rewrite (proj2 (N.eqb_eq _ _)) by lia. simpl.
  rewrite (proj2 (N.ltb_lt _ _)) by lia. rewrite <- H1, Hn. simpl.
  eexists _, _. split; [done|]. split_and!; simpl; try done. split_and!; simpl; congruence.
Qed.

(** Updates that do not cross keep the endpoints in step: from matching
    secrets, whatever the endpoints attempt in turn, every update the one makes
    is followed by the other, no attempt is refused by the peer, and each
    endpoint's receiving secret and phase stay the other's sending ones. *)
Theorem key_updates_in_step a b turns :
  in_step a b -> exists a' b', update_rounds turns a b = Some (a', b') /\ in_step a' b'.
Proof.
  revert a b. induction turns as [|[] turns IH]; intros a b Hs; simpl; [eauto|..].
  - destruct (update_round_in_step a b Hs) as (a' & b' & -> & Hs' & _). by apply IH.
  - assert (Hr : in_step b a) by (destruct Hs as (? & ? & ? & ? & ?); by split_and!).
    destruct (update_round_in_step b a Hr) as (b' & a' & -> & Hs' & _). apply IH.
    destruct Hs' as (? & ? & ? & ? & ?). by split_and!.
Qed.

(** Updates that cross put the endpoints out of step for good: when both
    initiate before hearing of the other, each takes the other's frame for the
    confirmation of its own, keeps the old receiving secret and phase, and
    neither notices. *)
Theorem key_updates_cross a b :
  in_step a b -> a.(awaiting_confirmation) = false -> b.(awaiting_confirmation) = false ->
  exists n a1 b1 a2 b2,
    initiate a = Some (Ok (n, a1)) /\ initiate b = Some (Ok (n, b1))
    /\ on_key_update a1 n = Some (Ok a2) /\ on_key_update b1 n = Some (Ok b2)
    /\ a2.(remote_phase) = N.lxor b2.(local_phase) 1
    /\ a2.(remote_secret) = b.(local_secret)
    /\ Some b2.(local_secret) = next_traffic_secret b.(local_secret).
Proof.
  intros (H1 & H2 & H3 & H4 & H5) Ha Hb. unfold initiate. rewrite Ha, Hb.
  destruct (next_secret_total a.(local_secret)) as (na & Hna & _).
  destruct (next_secret_total b.(local_secret)) as (nb & Hnb & _).
  rewrite Hna, Hnb, H5. simpl. eexists _, _, _, _, _. split; [done|]. split; [done|].
  unfold on_key_update. simpl. rewrite N.eqb_refl, N.ltb_irrefl, andb_false_r.
  split_and!; try done. simpl. by rewrite <- H4, N.lxor_assoc, N.lxor_nilpotent, N.lxor_0_r.
Qed.

(** The resumption secret always exists: for a nonce of at most 65535
    bytes the derivation yields 32 bytes, so its [expect] is never reached. *)
Theorem resumption_psk_total secret nonce :
  len nonce <= 65535 -> exists psk, resumption_psk secret nonce = Some psk /\ len psk = 32.
Proof.
  intros Hn. unfold resumption_psk, expand_label. simpl.
  rewrite (proj2 (N.ltb_ge _ _)) by done.
  destruct (expand_Ok secret (label_info (bstr "resumption") nonce 32) 32) as (out & -> & Ho); [done|].
  eauto.
Qed.

End Session.

Lemma key_updates_in_step_witness :
  exists a' b', update_rounds [true; true; false; true] (new (zeros 32) (replicate 32 7)) (new (replicate 32 7) (zeros 32))
                = Some (a', b') /\ in_step a' b'.
Proof.
  apply (@key_updates_in_step toy_primitives toy_laws). by split_and!.
Defined.

Lemma key_updates_cross_witness :
  exists n a1 b1 a2 b2,
    initiate (new (zeros 32) (replicate 32 7)) = Some (Ok (n, a1))
    /\ initiate (new (replicate 32 7) (zeros 32)) = Some (Ok (n, b1))
    /\ on_key_update a1 n = Some (Ok a2) /\ on_key_update b1 n = Some (Ok b2)
    /\ a2.(remote_phase) = N.lxor b2.(local_phase) 1
    /\ a2.(remote_secret) = (new (replicate 32 7) (zeros 32)).(local_secret)
    /\ Some b2.(local_secret) = next_traffic_secret (new (replicate 32 7) (zeros 32)).(local_secret).
Proof. apply (@key_updates_cross toy_primitives toy_laws); [by split_and!|done|done]. Defined.

Lemma resumption_psk_total_witness :
  exists psk, resumption_psk (zeros 32) [1; 2; 3] = Some psk /\ len psk = 32.
Proof. by apply (@resumption_psk_total toy_primitives toy_laws). Defined.
