(* ===== verification/Reset.v ===== *)
(** * Stateless resets (crates/umc-session/src/reset.rs) *)

From S2P Require Import Prelude Header Cids.

(** [Cids.RESET_TOKEN_LEN] is the same constant in cid.rs. *)
Definition MIN_RESET_LEN : usize := 25.
Definition RANDOM_TAIL_LEN : usize := 16.

Definition reset_token (stateless_reset_secret : list u8) : list u8 :=
  take (N.to_nat RESET_TOKEN_LEN) stateless_reset_secret.

Definition build_stateless_reset `{EntropySource E} (token : list u8) (random : E) : list u8 * E :=
  let '(tail, random) := fill random (N.to_nat RANDOM_TAIL_LEN) in
  ([0] ++ replicate 8 0 ++ token ++ tail, random).

(** The fixed-length XOR fold. *)
Definition fold_differs (slot token : list u8) : u8 :=
  fold_left (fun acc ab => N.lor acc (N.lxor ab.1 ab.2)) (zip slot token) 0.

Definition token_matches (bytes token : list u8) : bool :=
  match get_range bytes 9 (9 + RESET_TOKEN_LEN) with
  | None => false
  | Some slot =>
      match HeaderByte.decode (default 0 (get bytes 0)) with
      | Err _ => false
      | Ok header => if header.(HeaderByte.long) then false else fold_differs slot token =? 0
      end
  end.

(** ** Lemmas *)

Lemma fold_lor_zero (l : list (u8 * u8)) acc :
  fold_left (fun acc ab => N.lor acc (N.lxor ab.1 ab.2)) l acc = 0
  <-> acc = 0 /\ Forall (fun ab => ab.1 = ab.2) l.
Proof.
  revert acc. induction l as [|[a b] l IH]; intros acc; simpl.
  - split; [by split|by intros [? _]].
  - rewrite IH, Forall_cons_iff, N.lor_eq_0_iff, N.lxor_eq_0_iff. simpl. tauto.
Qed.

Lemma Forall_zip_eq (l k : list u8) :
  length l = length k -> Forall (fun ab => ab.1 = ab.2) (zip l k) <-> l = k.
Proof.
  revert k. induction l as [|x l IH]; intros [|y k]; simpl; try done.
  intros [= Hl]. rewrite Forall_cons_iff, IH by done. simpl. naive_solver.
Qed.

(** The fold is an equality test of equal-length strings. *)
Lemma fold_differs_eq slot token :
  length slot = length token -> fold_differs slot token = 0 <-> slot = token.
Proof.
  intros Hl. unfold fold_differs. rewrite fold_lor_zero, Forall_zip_eq by done. naive_solver.
Qed.

Definition reset_slot (bytes : list u8) : list u8 := take 16 (drop 9 bytes).

Lemma token_matches_iff bytes token :
  len token = RESET_TOKEN_LEN ->
  token_matches bytes token = true <->
  MIN_RESET_LEN <= len bytes /\ reset_slot bytes = token
  /\ exists h, HeaderByte.decode (default 0 (get bytes 0)) = Ok h /\ h.(HeaderByte.long) = false.
Proof.
  intros Ht. unfold token_matches, MIN_RESET_LEN.
  destruct (get_range bytes 9 (9 + RESET_TOKEN_LEN)) as [slot|] eqn:E.
  - apply get_range_Some in E as (_ & Hb & Hl & Es).
    change (slot = reset_slot bytes) in Es. rewrite <- Es.
    assert (Hs : length slot = length token) by (unfold len, RESET_TOKEN_LEN in *; lia).
    pose proof (fold_differs_eq _ _ Hs) as Hf. unfold RESET_TOKEN_LEN in Hb.
    destruct (HeaderByte.decode _) as [h|e]; [|naive_solver].
    destruct h.(HeaderByte.long) eqn:Eh; [naive_solver congruence|].
    rewrite N.eqb_eq, Hf. split; [|naive_solver]. intros ->. split_and!; [lia|done|eauto].
  - split; [done|]. intros (Hb & _). exfalso. unfold get_range in E.
    destruct ((9 <=? 9 + RESET_TOKEN_LEN) && (9 + RESET_TOKEN_LEN <=? len bytes)) eqn:E'; [done|].
    unfold RESET_TOKEN_LEN in E'. lia.
Qed.

(** ** Properties *)

(** A stateless reset is recognised by its token and nothing else is: the
    packet built for a token is 41 bytes and matches it, and any packet that
    matches is at least 25 bytes, has a valid short header and carries exactly
    the token in bytes 9 to 24 (the XOR fold is the equality test). *)
Theorem reset_recognised `{EntropyLaws E} secret (random : E) :
  len secret = 32 ->
  let token := reset_token secret in
  len (build_stateless_reset token random).1 = 41
  /\ token_matches (build_stateless_reset token random).1 token = true
  /\ forall bytes, token_matches bytes token = true <->
       MIN_RESET_LEN <= len bytes /\ reset_slot bytes = token
       /\ exists h, HeaderByte.decode (default 0 (get bytes 0)) = Ok h /\ h.(HeaderByte.long) = false.
Proof.
  intros Hs token. assert (Ht : len token = RESET_TOKEN_LEN).
  { unfold token, reset_token, len, RESET_TOKEN_LEN in *. rewrite length_take. lia. }
  unfold build_stateless_reset. pose proof (fill_length random (N.to_nat RANDOM_TAIL_LEN)) as Hf.
  destruct (fill random (N.to_nat RANDOM_TAIL_LEN)) as [tail r]. cbn [fst] in *.
  assert (Hl : len ([0] ++ replicate 8 0 ++ token ++ tail) = 41).
  { rewrite !len_app, Ht. unfold len. rewrite Hf. done. }
  split_and!; [done| |intros bytes; by apply token_matches_iff].
  apply token_matches_iff; [done|]. split_and!; [rewrite Hl; done| |].
  - unfold reset_slot. change (drop 9 ([0] ++ replicate 8 0 ++ token ++ tail)) with (token ++ tail).
    apply take_app_length'. unfold len, RESET_TOKEN_LEN in Ht. lia.
  - by exists (HeaderByte.mk false 0 false 8).
Qed.

Lemma reset_recognised_witness :
  let token := reset_token (replicate 32 9) in
  len (build_stateless_reset token 5).1 = 41
  /\ token_matches (build_stateless_reset token 5).1 token = true
  /\ forall bytes, token_matches bytes token = true <->
       MIN_RESET_LEN <= len bytes /\ reset_slot bytes = token
       /\ exists h, HeaderByte.decode (default 0 (get bytes 0)) = Ok h /\ h.(HeaderByte.long) = false.
Proof. by apply (reset_recognised (replicate 32 9) 5). Defined.
