(* ===== verification/Records.v ===== *)
(** * Record update

    [r <| field := v |>] is the record [r] with one field replaced, for any
    record; the components whose state has many fields use it. *)

From coqutil Require Export Datatypes.RecordSettersUsingExistingGetters.

#[global] Arguments const {_} _ / _.
#[global] Arguments set {_ _} _ {_} _ _ /.
