(* ===== verification/SessionState.v ===== *)
(** * The session object: state and effects
      (crates/umc-session/src/session.rs)

    The state of a session is one record over the congestion controller it was
    given, a type of the class of controllers.  Its operations run in a monad of
    the state with errors: an error leaves the state as it was mutated up to it,
    as an early return does. *)

From Stdlib Require Import Strings.String.
From stdpp Require Export gmap.
From S2P Require Import Prelude Records FrameTypes Varint FramesAck Frame Header Packet Crypto ProtectedPacket Spaces SentPackets Ack AckWire Stream Loss Congestion Flow Datagrams Cids Paths KeyPhase Reset.

#[local] Open Scope N_scope.

Definition DEFAULT_DCID_LEN : usize := 8.
Definition INITIAL_STREAMS : u64 := 16.
Definition DEFAULT_INITIAL_MAX_DATA : u64 := 4 * 1024 * 1024.
Definition DEFAULT_INITIAL_MAX_STREAM_DATA : u64 := 256 * 1024.
Definition MAX_CLOSED_STREAM_IDS : usize := 1024.
Definition MAX_STREAMS_PER_SESSION : usize := 1024.
Definition IDLE_TIMEOUT_MS : u64 := 30000.
Definition CLOSE_REASON_IDLE_TIMEOUT : u64 := 0x16.
Definition MIN_DRAIN_MS : u64 := 1000.
Definition STATELESS_RESET_INTERVAL_MS : u64 := 60000.
Definition TRAFFIC_PADDING_TARGET : usize := 1024.
Definition PROTECTED_OVERHEAD_ESTIMATE : usize := 64.

#[global] Instance PacketSpace_eq_dec : EqDecision PacketSpace.t.
Proof. solve_decision. Defined.

Definition space_index (s : PacketSpace.t) : nat :=
  match s with
  | PacketSpace.Initial => 0
  | PacketSpace.Handshake => 1
  | PacketSpace.SessionData => 2
  | PacketSpace.PathControl => 3
  | PacketSpace.RelayData => 4
  end.

Definition index_space (n : nat) : PacketSpace.t :=
  match n with
  | 0%nat => PacketSpace.Initial
  | 1%nat => PacketSpace.Handshake
  | 2%nat => PacketSpace.SessionData
  | 3%nat => PacketSpace.PathControl
  | _ => PacketSpace.RelayData
  end.

#[global] Instance PacketSpace_countable : Countable PacketSpace.t.
Proof. apply (inj_countable' space_index index_space). by intros []. Defined.

Module ClosedStreamRegistry.

Record t := mk { ids : gset u64; order : list u64 }.

Definition default : t := mk ∅ [].

Definition contains (r : t) (stream_id : u64) : bool := bool_decide (stream_id ∈ r.(ids)).

Definition insert (r : t) (stream_id : u64) : t :=
  if contains r stream_id then r
  else
    let ids := {[stream_id]} ∪ r.(ids) in
    let order := r.(order) ++ [stream_id] in
    if MAX_CLOSED_STREAM_IDS <? len order then
      match order with
      | oldest :: order => mk (ids ∖ {[oldest]}) order
      | [] => mk ids order
      end
    else mk ids order.

End ClosedStreamRegistry.

Inductive Role :=
| Client
| Server.

Inductive SessionState :=
| Active
| Draining
| Closed.

#[global] Instance SessionState_eq_dec : EqDecision SessionState.
Proof. solve_decision. Defined.

Inductive SessionError :=
| BadConnectionId
| BadKeys
| NoSpace
| SpaceErr (e : SpaceError)
| PacketErr (e : PacketBuildError)
| WirePacket (e : PacketError)
| StreamErr (e : StreamError)
| FlowErr (e : FlowError)
| DatagramErr (e : DatagramError)
| EncodeErr
| StreamNotFound
| StreamClosed
| InvalidStreamId
| ProtocolViolation
| StreamLimit
| AckErr (e : AckError)
| KeyUpdateErr
| PathBudget
| PathNotFound
| PathNotValidated
| PathMigration
| PathValidation
| AmplificationLimit
| CongestionLimited
| DirectPathForbidden
| ConnectionIdLimit
| StatelessReset.

Module SessionConfig.

Record t := mk {
  role : Role;
  dcid : list u8;
  local_traffic_secret : list u8;
  remote_traffic_secret : list u8;
  initial_max_data : u64;
  initial_max_stream_data : u64;
  max_ack_delay_ms : u64
}.

End SessionConfig.

Module Session.

Record t {C : Type} := mk {
  role : Role;
  state : SessionState;
  created_at : Instant;
  local_keys : PacketKeys.t;
  remote_keys : PacketKeys.t;
  local_hp_key : list u8;
  remote_hp_key : list u8;
  spaces : gmap PacketSpace.t PacketSpaceState.t;
  sent : AckSendState.t;
  congestion : C;
  retransmit_payloads : gmap u64 (list u8);
  recv_acks : gmap PacketSpace.t AckReceiveState.t;
  rtt : RttEstimator.t;
  loss : LossDetector.t;
  streams : gmap u64 Stream.t;
  next_outgoing_stream : u64;
  next_outgoing_unidirectional : u64;
  closed_streams : ClosedStreamRegistry.t;
  flow : FlowControl.t;
  stream_consumed : gmap u64 u64;
  stream_app_consumed : gmap u64 u64;
  reset_final_sizes : gset u64;
  peer_initiated_streams : usize;
  default_max_stream_data : u64;
  max_streams_sent : u64;
  datagrams : DatagramQueue.t;
  dcid : list u8;
  key_update : KeyUpdateState.t;
  paths : gmap u64 Path.t;
  last_migration_sequence : u64;
  last_path_migration : option (u64 * u64 * bool);
  last_path_validation : option u64;
  primary_path_id : u64;
  next_migration_sequence : u64;
  cids : ConnectionIdManager.t;
  direct_path_allowed : bool;
  last_activity : option Instant;
  draining_deadline : option Instant;
  stateless_reset_secret : option (list u8);
  last_reset_ms : option u64;
  traffic_padding : bool;
  timing_jitter_ms : u64;
  privacy_profile : u8
}.

#[global] Arguments t : clear implicits.

End Session.

(** ** Effects *)

(** How an operation stops early: with an error of the session, or with the
    panic of an [expect] (shown unreachable where it occurs). *)
Inductive Stop :=
| Throw (e : SessionError)
| Panic.

Definition M (C A : Type) : Type := Session.t C -> Result Stop A * Session.t C.

#[global] Instance M_ret C : MRet (M C) := fun A a s => (Ok a, s).
#[global] Instance M_bind C : MBind (M C) := fun A B f m s =>
  match m s with
  | (Ok a, s) => f a s
  | (Err e, s) => (Err e, s)
  end.

Definition gets {C A} (f : Session.t C -> A) : M C A := fun s => (Ok (f s), s).
Definition modify {C} (f : Session.t C -> Session.t C) : M C unit := fun s => (Ok tt, f s).
Definition throw {C A} (e : SessionError) : M C A := fun s => (Err (Throw e), s).
Definition panic {C A} : M C A := fun s => (Err Panic, s).

(** [r.map_err(f)?] and [o.ok_or(e)?]. *)
Definition lift {C E A} (f : E -> SessionError) (r : Result E A) : M C A :=
  match r with
  | Ok a => mret a
  | Err e => throw (f e)
  end.

Definition need {C A} (e : SessionError) (o : option A) : M C A :=
  match o with
  | Some a => mret a
  | None => throw e
  end.

(** [if b { return Err(e) }] *)
Definition stop_if {C} (b : bool) (e : SessionError) : M C unit :=
  if b then throw e else mret tt.

(** [if b { m }] *)
Definition when {C} (b : bool) (m : M C unit) : M C unit := if b then m else mret tt.

(** Lay a program of the monad open at a state. *)
Ltac unfold_m :=
  unfold stop_if, when, lift, need; unfold gets, modify, throw, panic, mbind, M_bind, mret, M_ret, id;
  cbv beta zeta.

Section New.
Context `{Primitives}.

(** [Session::new], at the clock's time. *)
Definition session_new (config : SessionConfig.t) (now : Instant)
    : Result SessionError (Session.t RenoCongestionController.t) :=
  if negb (len config.(SessionConfig.dcid) =? DEFAULT_DCID_LEN) then Err BadConnectionId
  else
    local_keys ← map_err (fun _ => BadKeys)
                   (PacketKeys.from_traffic_secret config.(SessionConfig.local_traffic_secret));
    remote_keys ← map_err (fun _ => BadKeys)
                    (PacketKeys.from_traffic_secret config.(SessionConfig.remote_traffic_secret));
    Ok {|
      Session.role := config.(SessionConfig.role);
      Session.state := Active;
      Session.created_at := now;
      Session.local_keys := local_keys;
      Session.remote_keys := remote_keys;
      Session.local_hp_key := header_protection_key config.(SessionConfig.local_traffic_secret);
      Session.remote_hp_key := header_protection_key config.(SessionConfig.remote_traffic_secret);
      Session.spaces :=
        {[ PacketSpace.SessionData := PacketSpaceState.new PacketSpace.SessionData;
           PacketSpace.PathControl := PacketSpaceState.new PacketSpace.PathControl;
           PacketSpace.RelayData := PacketSpaceState.new PacketSpace.RelayData ]};
      Session.sent := AckSendState.new;
      Session.congestion := RenoCongestionController.new;
      Session.retransmit_payloads := ∅;
      Session.recv_acks := ∅;
      Session.rtt := RttEstimator.new;
      Session.loss := LossDetector.new config.(SessionConfig.max_ack_delay_ms);
      Session.streams := ∅;
      Session.next_outgoing_stream := 0;
      Session.next_outgoing_unidirectional := 0;
      Session.closed_streams := ClosedStreamRegistry.default;
      Session.flow :=
        FlowControl.new config.(SessionConfig.initial_max_data) INITIAL_STREAMS INITIAL_STREAMS;
      Session.stream_consumed := ∅;
      Session.stream_app_consumed := ∅;
      Session.reset_final_sizes := ∅;
      Session.peer_initiated_streams := 0;
      Session.default_max_stream_data := config.(SessionConfig.initial_max_stream_data);
      Session.max_streams_sent := INITIAL_STREAMS;
      Session.datagrams := DatagramQueue.new;
      Session.dcid := config.(SessionConfig.dcid);
      Session.key_update :=
        KeyUpdateState.new config.(SessionConfig.local_traffic_secret)
          config.(SessionConfig.remote_traffic_secret);
      Session.paths := ∅;
      Session.last_migration_sequence := 0;
      Session.last_path_migration := None;
      Session.last_path_validation := None;
      Session.primary_path_id := DEFAULT_PATH_ID;
      Session.next_migration_sequence := 0;
      Session.cids := ConnectionIdManager.new DEFAULT_ACTIVE_LIMIT;
      Session.direct_path_allowed := true;
      Session.last_activity := None;
      Session.draining_deadline := None;
      Session.stateless_reset_secret := None;
      Session.last_reset_ms := None;
      Session.traffic_padding := false;
      Session.timing_jitter_ms := 0;
      Session.privacy_profile := 0
    |}.

End New.
