(* ===== verification/SessionOps.v ===== *)
(** * The session object: application, path, key and closing operations
      (crates/umc-session/src/session.rs)

    Everything a session does on behalf of its owner, up to building a
    protected packet.  What it does with a packet received is in
    SessionInbound.v. *)

From Stdlib Require Import Strings.String.
From S2P Require Import Prelude Records FrameTypes Varint Codec FramesAck FramesFlow FramesStream FramesDatagram FramesPath Frame Header Packet Crypto ProtectedPacket Spaces SentPackets Ack AckWire Stream Loss Congestion Flow Datagrams Cids Paths KeyPhase Reset SessionState.

#[local] Open Scope N_scope.

#[global] Instance PathState_eq_dec : EqDecision PathState.
Proof. solve_decision. Defined.

Definition is_path_state (state : PathState) (p : Path.t) : bool :=
  bool_decide (p.(Path.state) = state).

Section Session.

Context {C : Type} {CC : CongestionController C} {PR : Primitives}.
Implicit Types s : Session.t C.

(** ** Configuration *)

Definition set_stateless_reset_secret s (secret : list u8) : Session.t C :=
  s <| Session.stateless_reset_secret := Some secret |>.

Definition set_direct_path_allowed s (allowed : bool) : Session.t C :=
  s <| Session.direct_path_allowed := allowed |>.

Definition set_privacy_profile s (profile : u8) : Session.t C :=
  let profile := N.min profile 3 in
  let s := s <| Session.privacy_profile := profile |> in
  if 3 <=? profile then s <| Session.traffic_padding := true |> else s.

Definition set_traffic_padding s (enabled : bool) : Session.t C :=
  s <| Session.traffic_padding := enabled |>.

Definition set_timing_jitter_ms s (jitter_ms : u64) : Session.t C :=
  s <| Session.timing_jitter_ms := N.min jitter_ms 10000 |>.

(** ** Streams *)

(** The sequence is advanced before the identifier is formed, so an overflow
    of the identifier leaves it advanced. *)
Definition open_stream_kind (unidirectional : bool) : M C u64 :=
  s ← gets id;
  stop_if (MAX_STREAMS_PER_SESSION <=? N.of_nat (size s.(Session.streams))) StreamLimit;;
  sequence ←
    (if unidirectional then
       let sequence := s.(Session.next_outgoing_unidirectional) in
       next ← need StreamLimit (checked_add sequence 1);
       modify (fun s => s <| Session.next_outgoing_unidirectional := next |>);;
       mret sequence
     else
       let sequence := s.(Session.next_outgoing_stream) in
       next ← need StreamLimit (checked_add sequence 1);
       modify (fun s => s <| Session.next_outgoing_stream := next |>);;
       mret sequence);
  let initiator := match s.(Session.role) with Client => 0 | Server => 1 end in
  let direction := if unidirectional then 2 else 0 in
  id ← need StreamLimit
         (v ← checked_mul sequence 4; checked_add v (N.lor initiator direction));
  let stream := Stream.new id [] s.(Session.default_max_stream_data) in
  modify (fun s => s <| Session.streams :=
                     <[id := stream <| Stream.unidirectional := unidirectional |>]> s.(Session.streams) |>);;
  mret id.

Definition open_stream : M C u64 := open_stream_kind false.

Definition open_stream_with_protocol (protocol_id : list u8) (unidirectional : bool) : M C u64 :=
  stop_if (MAX_PROTOCOL_ID_LEN <? len protocol_id) EncodeErr;;
  stream_id ← open_stream_kind unidirectional;
  modify (fun s => s <| Session.streams :=
    alter (fun st => st <| Stream.protocol_id := protocol_id |>
                        <| Stream.unidirectional := unidirectional |>)
          stream_id s.(Session.streams) |>);;
  mret stream_id.

Definition validate_stream_id (stream_id initiator_bit : u64) (unidirectional : bool) : bool :=
  let direction_bit := if unidirectional then 2 else 0 in
  (initiator_bit <=? 1) && (N.land stream_id 3 =? N.lor initiator_bit direction_bit).

(** The frame is re-prefixed with its type: its own encoding starts with the
    one byte of the type. *)
Definition send_stream_data (stream_id : u64) (data : list u8) (fin : bool) : M C (list u8) :=
  s ← gets id;
  stream ← need StreamNotFound (s.(Session.streams) !! stream_id);
  '((offset, chunk), stream) ← lift StreamErr (Stream.send_ready stream data);
  modify (fun s => s <| Session.streams := <[stream_id := stream]> s.(Session.streams) |>);;
  let fin := fin && (len chunk =? len data) in
  let frame :=
    StreamFrame.mk stream_id fin (negb (offset =? 0)) true (offset =? 0)
      stream.(Stream.unidirectional) offset chunk stream.(Stream.protocol_id) [] in
  payload ← lift (fun _ => EncodeErr) (Varint.encode_into [] FrameType.STREAM);
  enc ← lift (fun _ => EncodeErr) (StreamFrame.encode frame);
  mret (payload ++ drop 1 enc).

Definition close_stream_send_payload (stream_id : u64) : M C (list u8) :=
  s ← gets id;
  stream ← need StreamNotFound (s.(Session.streams) !! stream_id);
  stop_if (match stream.(Stream.send_state) with
           | DataAcked | ResetAcked | ResetSent => true
           | _ => false
           end) (StreamErr AlreadyClosed);;
  let offset := stream.(Stream.next_send_offset) in
  let frame :=
    StreamFrame.mk stream_id true (negb (offset =? 0)) true (offset =? 0)
      stream.(Stream.unidirectional) offset []
      (if offset =? 0 then stream.(Stream.protocol_id) else []) [] in
  modify (fun s => s <| Session.streams :=
                     <[stream_id := stream <| Stream.send_state := DataSent |>]> s.(Session.streams) |>);;
  lift (fun _ => EncodeErr) (StreamFrame.encode frame).

Definition reset_stream_payload (stream_id application_error_code : u64) : M C (list u8) :=
  s ← gets id;
  stream ← need StreamNotFound (s.(Session.streams) !! stream_id);
  modify (fun s => s <| Session.streams :=
                     <[stream_id := stream <| Stream.send_state := ResetSent |>]> s.(Session.streams) |>);;
  lift (fun _ => EncodeErr)
    (ResetStreamFrame.encode
       (ResetStreamFrame.mk stream_id application_error_code stream.(Stream.next_send_offset))).

Definition stop_stream_payload (stream_id application_error_code : u64) : M C (list u8) :=
  s ← gets id;
  stop_if (negb (bool_decide (is_Some (s.(Session.streams) !! stream_id)))) StreamNotFound;;
  lift (fun _ => EncodeErr)
    (StopSendingFrame.encode (StopSendingFrame.mk stream_id application_error_code)).

(** A read of a reset stream reports the reset once. *)
Definition read_stream (stream_id : u64) : M C (list u8 * bool) :=
  s ← gets id;
  stream ← need StreamNotFound (s.(Session.streams) !! stream_id);
  match stream.(Stream.recv_state) with
  | ResetRecvd =>
      modify (fun s => s <| Session.streams :=
                         <[stream_id := stream <| Stream.recv_state := ResetRead |>]> s.(Session.streams) |>);;
      throw (StreamErr ResetByPeer)
  | ResetRead => throw (StreamErr AlreadyClosed)
  | _ =>
      let '((data, eof), stream) := Stream.read_available stream in
      modify (fun s => s <| Session.streams := <[stream_id := stream]> s.(Session.streams) |>);;
      when (negb (len data =? 0))
        (modify (fun s =>
           s <| Session.stream_consumed :=
               alter (fun consumed => saturating_sub consumed (len data)) stream_id
                     s.(Session.stream_consumed) |>
             <| Session.stream_app_consumed :=
               <[stream_id :=
                   saturating_add (default 0 (s.(Session.stream_app_consumed) !! stream_id)) (len data)]>
               s.(Session.stream_app_consumed) |>));;
      when eof
        (modify (fun s =>
           s <| Session.closed_streams := ClosedStreamRegistry.insert s.(Session.closed_streams) stream_id |>
             <| Session.stream_consumed := delete stream_id s.(Session.stream_consumed) |>
             <| Session.stream_app_consumed := delete stream_id s.(Session.stream_app_consumed) |>
             <| Session.reset_final_sizes := s.(Session.reset_final_sizes) ∖ {[stream_id]} |>));;
      mret (data, eof)
  end.

Definition stream_reset_error s (stream_id : u64) : option u64 :=
  stream ← s.(Session.streams) !! stream_id;
  stream.(Stream.reset_error_code).

(** ** Datagrams *)

Definition send_datagram (d : Datagram.t) (max_size : usize) : M C unit :=
  s ← gets id;
  q ← lift DatagramErr (DatagramQueue.enqueue_outbound s.(Session.datagrams) d max_size);
  modify (fun s => s <| Session.datagrams := q |>).

Definition pop_outbound_datagram_payload (now_ms : u64) s : option (list u8) * Session.t C :=
  let '(d, q) := DatagramQueue.pop_outbound s.(Session.datagrams) now_ms in
  let s := s <| Session.datagrams := q |> in
  match d with
  | None => (None, s)
  | Some d =>
      let frame :=
        DatagramFrame.mk d.(Datagram.context_id) d.(Datagram.ack_requested) false
          ((fun expires_at => saturating_sub expires_at now_ms) <$> d.(Datagram.expires_at_ms))
          d.(Datagram.data) in
      (match DatagramFrame.encode frame with Ok enc => Some enc | Err _ => None end, s)
  end.

Definition recv_datagram s : option Datagram.t * Session.t C :=
  let '(d, q) := DatagramQueue.pop_inbound s.(Session.datagrams) in
  (d, s <| Session.datagrams := q |>).

(** ** Flow control frames *)

Definition pushed (r : Result FrameError (list u8)) : list (list u8) :=
  match r with
  | Ok enc => [enc]
  | Err _ => []
  end.

Definition grant_connection s : list (list u8) * Session.t C :=
  let flow := s.(Session.flow) in
  if FlowControl.credit_remaining_local flow <? flow.(FlowControl.max_data_local) / 2 then
    let new_max := saturating_mul flow.(FlowControl.max_data_local) 2 in
    if flow.(FlowControl.max_data_local) <? new_max then
      (pushed (MaxDataFrame.encode (MaxDataFrame.mk new_max)),
       s <| Session.flow := FlowControl.grant_more flow new_max |>)
    else ([], s)
  else ([], s).

Definition grant_stream s (stream_id : u64) : list (list u8) * Session.t C :=
  match s.(Session.streams) !! stream_id with
  | None => ([], s)
  | Some stream =>
      let unread := default 0 (s.(Session.stream_consumed) !! stream_id) in
      let app_consumed := default 0 (s.(Session.stream_app_consumed) !! stream_id) in
      let limit := stream.(Stream.max_stream_data_local) in
      if (saturating_sub limit unread <? limit / 2) || (saturating_sub limit app_consumed <? limit / 2)
      then
        let new_max := saturating_mul limit 2 in
        if limit <? new_max then
          (pushed (MaxStreamDataFrame.encode (MaxStreamDataFrame.mk stream_id new_max)),
           s <| Session.streams :=
               <[stream_id := stream <| Stream.max_stream_data_local := new_max |>]> s.(Session.streams) |>)
        else ([], s)
      else ([], s)
  end.

Fixpoint grant_streams (stream_ids : list u64) s : list (list u8) * Session.t C :=
  match stream_ids with
  | [] => ([], s)
  | stream_id :: stream_ids =>
      let '(frames, s) := grant_stream s stream_id in
      let '(more, s) := grant_streams stream_ids s in
      (frames ++ more, s)
  end.

Definition grant_stream_count s : list (list u8) * Session.t C :=
  let opened := s.(Session.peer_initiated_streams) in
  if (INITIAL_STREAMS <? opened) && (s.(Session.max_streams_sent) <? saturating_mul opened 2) then
    let new_count := saturating_mul opened 2 in
    (pushed (MaxStreamsFrame.encode (MaxStreamsFrame.mk true new_count)),
     s <| Session.max_streams_sent := new_count |>
       <| Session.flow :=
           s.(Session.flow) <| FlowControl.max_bidirectional_streams_local := new_count |> |>)
  else ([], s).

(** The streams with an account, in some order: the code walks a hash set, so
    the order is the enumeration's. *)
Definition accounted_streams s : gset u64 :=
  dom s.(Session.stream_consumed) ∪ dom s.(Session.stream_app_consumed).

Definition flow_control_frames (enumeration : gset u64 -> list u64) s
    : list (list u8) * Session.t C :=
  let '(a, s) := grant_connection s in
  let '(b, s) := grant_streams (enumeration (accounted_streams s)) s in
  let '(c, s) := grant_stream_count s in
  (a ++ b ++ c, s).

(** ** Building packets *)

Definition payload_is_exempt (payload : list u8) : bool :=
  match Varint.decode payload with
  | Ok (frame_type, _) =>
      (frame_type =? FrameType.ACK) || (frame_type =? FrameType.PING)
      || (frame_type =? FrameType.PATH_CHALLENGE) || (frame_type =? FrameType.PATH_RESPONSE)
      || (frame_type =? FrameType.MIGRATE)
  | Err _ => false
  end.

Definition outbound_payload s (payload : list u8) : list u8 :=
  if negb s.(Session.traffic_padding) || payload_is_exempt payload
     || (TRAFFIC_PADDING_TARGET <=? len payload)
  then payload
  else payload ++ replicate (N.to_nat (TRAFFIC_PADDING_TARGET - len payload)) 0.

(** The two gates of a send: the amplification limit of an unvalidated path,
    and the congestion window. *)
Definition amplification_limited s (path_id : u64) (payload : list u8) : bool :=
  match s.(Session.paths) !! path_id with
  | Some path =>
      negb path.(Path.validated) && negb (payload_is_exempt payload)
      && (Path.send_allowance path <? len payload)
  | None => false
  end.

Definition congestion_limited s (payload : list u8) : bool :=
  negb (payload_is_exempt payload)
  && (send_allowance s.(Session.congestion) <? len payload + PROTECTED_OVERHEAD_ESTIMATE).

(** What is remembered of a packet just built. *)
Definition record_built (path_id : u64) (now : Instant) (pn : u64) (payload pkt : list u8) s
    : Session.t C :=
  let packet := SentPacket.new pn PacketSpace.SessionData now (len pkt) true 0 in
  let s := s <| Session.retransmit_payloads := <[pn := payload]> s.(Session.retransmit_payloads) |> in
  let '(evicted, sent) := AckSendState.record_sent s.(Session.sent) packet in
  let s := s <| Session.sent := sent |> in
  let s :=
    match evicted with
    | Some (lost_pn, lost_size) =>
        s <| Session.retransmit_payloads := delete lost_pn s.(Session.retransmit_payloads) |>
          <| Session.congestion := on_packet_acknowledged s.(Session.congestion) lost_size |>
    | None => s
    end in
  let s :=
    s <| Session.paths :=
        alter (fun path => if path.(Path.validated) then path else Path.record_sent path (len pkt))
              path_id s.(Session.paths) |> in
  s <| Session.congestion := on_packet_sent s.(Session.congestion) (len pkt) |>.

Definition build_outbound_inner (path_id : u64) (now : Instant) (payload : list u8)
    : M C (option (list u8)) :=
  s ← gets id;
  if negb (bool_decide (s.(Session.state) = Active)) then mret None
  else
    let payload := outbound_payload s payload in
    stop_if (amplification_limited s path_id payload) AmplificationLimit;;
    stop_if (congestion_limited s payload) CongestionLimited;;
    space ← need NoSpace (s.(Session.spaces) !! PacketSpace.SessionData);
    '(pn, space) ← lift SpaceErr (PacketSpaceState.allocate_packet_number space);
    modify (fun s => s <| Session.spaces := <[PacketSpace.SessionData := space]> s.(Session.spaces) |>);;
    pkt ← lift PacketErr
            (build_protected_packet s.(Session.local_keys) s.(Session.local_hp_key) SessionData
               s.(Session.dcid) path_id pn false payload);
    modify (record_built path_id now pn payload pkt);;
    mret (Some pkt).

(** [build_outbound] and its variants: the primary path, or one named. *)
Definition build_outbound (now : Instant) (payload : list u8) : M C (option (list u8)) :=
  s ← gets id;
  build_outbound_inner s.(Session.primary_path_id) now payload.

Definition build_outbound_on_path (path_id : u64) (now : Instant) (payload : list u8)
    : M C (option (list u8)) := build_outbound_inner path_id now payload.

Definition retransmit (pn : u64) (now : Instant) : M C (option (list u8)) :=
  s ← gets id;
  match s.(Session.retransmit_payloads) !! pn with
  | None => mret None
  | Some payload =>
      bytes ← build_outbound_inner s.(Session.primary_path_id) now payload;
      modify (fun s => s <| Session.retransmit_payloads := delete pn s.(Session.retransmit_payloads) |>);;
      mret bytes
  end.

Definition prune_retransmit_payload (pn : u64) s : Session.t C :=
  s <| Session.retransmit_payloads := delete pn s.(Session.retransmit_payloads) |>.

(** ** Timers and closing *)

Definition touch (now : Instant) s : Session.t C := s <| Session.last_activity := Some now |>.

Definition idle_expired s (now : Instant) : bool :=
  match s.(Session.last_activity) with
  | Some activity => IDLE_TIMEOUT_MS <=? duration_since now activity
  | None => false
  end.

Definition ok {E A} (r : Result E A) : option A :=
  match r with
  | Ok a => Some a
  | Err _ => None
  end.

Definition build_idle_close s (now : Instant) : option (list u8) :=
  if negb (idle_expired s now) then None
  else
    enc ← ok (ConnectionCloseFrame.encode
                (ConnectionCloseFrame.mk CLOSE_REASON_IDLE_TIMEOUT 0 (bstr "idle timeout")));
    payload ← ok (Varint.encode_into [] FrameType.CONNECTION_CLOSE);
    Some (payload ++ drop 1 enc).

Definition close (now : Instant) s : Session.t C :=
  if negb (bool_decide (s.(Session.state) = Active)) then s
  else
    let pto_ms := LossDetector.pto s.(Session.loss) s.(Session.rtt) in
    let drain_ms := N.max (3 * pto_ms) MIN_DRAIN_MS in
    s <| Session.state := Draining |>
      <| Session.draining_deadline := Some (instant_add now drain_ms) |>.

Definition draining_expired s (now : Instant) : bool :=
  match s.(Session.draining_deadline) with
  | Some deadline => deadline <=? now
  | None => false
  end.

Definition finalize_close s : Session.t C := s <| Session.state := Closed |>.

Definition maybe_emit_stateless_reset `{EntropySource E} (now : Instant) (entropy : E)
    (trigger_len : usize) s : option (list u8) * Session.t C * E :=
  match s.(Session.stateless_reset_secret) with
  | None => (None, s, entropy)
  | Some secret =>
      if match s.(Session.last_reset_ms) with
         | Some last => saturating_sub now last <? STATELESS_RESET_INTERVAL_MS
         | None => false
         end
      then (None, s, entropy)
      else
        let s := s <| Session.last_reset_ms := Some now |> in
        let '(reset, entropy) := build_stateless_reset (reset_token secret) entropy in
        let max_len := N.min (N.max trigger_len MIN_RESET_LEN) (len reset) in
        (Some (take (N.to_nat max_len) reset), s, entropy)
  end.

Definition replay_bytes s (space : PacketSpace.t) : option usize :=
  (fun st => len st.(PacketSpaceState.replay).(ReplayWindow.bits)) <$> s.(Session.spaces) !! space.

(** ** Key updates *)

(** The frame's encoding without its type, after the type. *)
Definition retyped (ty : FrameType.t) (enc : list u8) : M C (list u8) :=
  type_bytes ← lift (fun _ => EncodeErr) (Varint.encode ty);
  payload ← lift (fun _ => EncodeErr) (Varint.encode_into [] ty);
  mret (payload ++ from enc (len type_bytes)).

Definition initiate_key_update : M C (list u8) :=
  s ← gets id;
  match KeyUpdateState.initiate s.(Session.key_update) with
  | None => panic
  | Some (Err _) => throw KeyUpdateErr
  | Some (Ok (sequence, k)) =>
      modify (fun s => s <| Session.key_update := k |>);;
      enc ← lift (fun _ => EncodeErr) (KeyUpdateFrame.encode (KeyUpdateFrame.mk sequence false));
      retyped FrameType.KEY_UPDATE enc
  end.

Definition session_on_key_update (sequence : u64) : M C unit :=
  s ← gets id;
  match on_key_update s.(Session.key_update) sequence with
  | None => panic
  | Some (Err _) => throw KeyUpdateErr
  | Some (Ok k) => modify (fun s => s <| Session.key_update := k |>)
  end.

(** ** Paths *)

Definition str_contains (s pattern : string) : bool :=
  match String.index 0 pattern s with
  | Some _ => true
  | None => false
  end.

Definition is_direct_carrier (carrier_type : string) : bool :=
  negb (str_contains carrier_type "relay") && negb (str_contains carrier_type "route").

Definition count_paths s (P : Path.t -> bool) : N :=
  N.of_nat (size (filter (fun kv => P kv.2 = true) s.(Session.paths))).

Definition is_established (p : Path.t) : bool :=
  is_path_state Validated p || is_path_state Degraded p.

Definition add_path_with_challenge_bytes (path_id : u64) (carrier_type : string)
    (local remote : list u8) (now : Instant) (challenge : list u8) : M C (list u8) :=
  s ← gets id;
  stop_if (bool_decide (is_Some (s.(Session.paths) !! path_id))) PathBudget;;
  stop_if (negb s.(Session.direct_path_allowed) && is_direct_carrier carrier_type) DirectPathForbidden;;
  stop_if (MAX_CANDIDATE_PATHS <? count_paths s is_established + count_paths s (is_path_state Validating)) PathBudget;;
  let path := Path.new path_id carrier_type local remote now in
  let pto := LossDetector.pto s.(Session.loss) s.(Session.rtt) in
  path ← lift (fun _ => PathBudget) (Path.start_validation path challenge now pto);
  modify (fun s => s <| Session.paths := <[path_id := path]> s.(Session.paths) |>);;
  mret challenge.

(** The session's own filler writes a constant. *)
Definition add_path_with_challenge (path_id : u64) (carrier_type : string)
    (local remote : list u8) (now : Instant) : M C (list u8) :=
  add_path_with_challenge_bytes path_id carrier_type local remote now (replicate 8 0xAB).

Definition add_path (path_id : u64) (carrier_type : string) (local remote : list u8)
    (now : Instant) : M C unit :=
  add_path_with_challenge path_id carrier_type local remote now;;
  mret tt.

Definition add_path_with_entropy `{EntropySource E} (path_id : u64) (carrier_type : string)
    (local remote : list u8) (now : Instant) (entropy : E) : M C (list u8) :=
  add_path_with_challenge_bytes path_id carrier_type local remote now (fill entropy 8).1.

Definition on_path_challenge (challenge : list u8) : list u8 :=
  let payload := default [] (ok (Varint.encode_into [] FrameType.PATH_RESPONSE)) in
  match PathResponseFrame.encode (PathResponseFrame.mk challenge) with
  | Ok enc =>
      let type_len := match Varint.encode FrameType.PATH_RESPONSE with Ok e => len e | Err _ => 0 end in
      if type_len <=? len enc then payload ++ from enc type_len else payload
  | Err _ => payload
  end.

Definition on_path_response (path_id : u64) (response : list u8) : M C unit :=
  s ← gets id;
  path ← need PathNotFound (s.(Session.paths) !! path_id);
  path ← lift (fun _ => PathValidation) (Path.confirm path response);
  modify (fun s => s <| Session.paths := <[path_id := path]> s.(Session.paths) |>
                     <| Session.last_path_validation := Some path_id |>).

Definition migrate_to (new_path_id : u64) (keep_old : bool) : M C unit :=
  s ← gets id;
  path ← need PathNotFound (s.(Session.paths) !! new_path_id);
  stop_if (negb s.(Session.direct_path_allowed) && is_direct_carrier path.(Path.carrier_type))
    DirectPathForbidden;;
  stop_if (negb (is_path_state Validated path)) PathNotValidated;;
  when (negb keep_old)
    (modify (fun s => s <| Session.paths :=
       map_imap (fun id p => Some (if id =? new_path_id then p else Path.mark_failed p))
                s.(Session.paths) |>));;
  modify (fun s => s <| Session.last_path_migration :=
                       Some (s.(Session.primary_path_id), new_path_id, keep_old) |>
                     <| Session.primary_path_id := new_path_id |>).

Definition build_migrate_payload (new_path_id : u64) (keep_old_path duplicate_critical_frames : bool)
    : M C (list u8) :=
  s ← gets id;
  path ← need PathNotFound (s.(Session.paths) !! new_path_id);
  stop_if (negb (is_path_state Validated path)) PathNotValidated;;
  let sequence := saturating_add s.(Session.next_migration_sequence) 1 in
  modify (fun s => s <| Session.next_migration_sequence := sequence |>);;
  lift (fun _ => EncodeErr)
    (MigrateFrame.encode
       (MigrateFrame.mk s.(Session.primary_path_id) new_path_id sequence true keep_old_path
          duplicate_critical_frames)).

Definition take_path_migration s : option (u64 * u64 * bool) * Session.t C :=
  (s.(Session.last_path_migration), s <| Session.last_path_migration := None |>).

Definition take_path_validation s : option u64 * Session.t C :=
  (s.(Session.last_path_validation), s <| Session.last_path_validation := None |>).

Definition mark_path_degraded (path_id : u64) s : bool * Session.t C :=
  match s.(Session.paths) !! path_id with
  | None => (false, s)
  | Some path =>
      if is_path_state Degraded path then (false, s)
      else
        (true, s <| Session.paths :=
                   <[path_id := path <| Path.state := Degraded |> <| Path.rtt_ms := 0 |>]>
                   s.(Session.paths) |>)
  end.

Definition is_path_degraded s (path_id : u64) : bool :=
  match s.(Session.paths) !! path_id with
  | Some p => is_path_state Degraded p
  | None => false
  end.

Definition force_validate (path_id : u64) s : Session.t C :=
  s <| Session.paths :=
      alter (fun path => path <| Path.validated := true |> <| Path.state := Validated |>
                              <| Path.sent_bytes_unvalidated := 0 |>
                              <| Path.received_bytes_unvalidated := 0 |>)
            path_id s.(Session.paths) |>.

(** ** Connection identifiers *)

Definition issue_connection_id `{EntropySource E} (entropy : E) s
    : Result Stop (list u8) * Session.t C * E :=
  let '(cid, cids, entropy) := ConnectionIdManager.issue s.(Session.cids) DEFAULT_DCID_LEN entropy in
  match cid with
  | None => (Err (Throw ConnectionIdLimit), s <| Session.cids := cids |>, entropy)
  | Some cid =>
      let retire_prior_to := saturating_sub cid.(ConnectionId.sequence) 1 in
      let cids :=
        if 0 <? retire_prior_to then (ConnectionIdManager.retire_prior_to cids retire_prior_to).2
        else cids in
      let s := s <| Session.cids := cids |> in
      match NewConnectionIdFrame.encode
              (NewConnectionIdFrame.mk cid.(ConnectionId.sequence) retire_prior_to
                 cid.(ConnectionId.bytes) cid.(ConnectionId.reset_token)) with
      | Ok enc => (Ok enc, s, entropy)
      | Err _ => (Err (Throw EncodeErr), s, entropy)
      end
  end.

End Session.
