(* ===== verification/SessionInbound.v ===== *)
(** * The session object: inbound packets
      (crates/umc-session/src/session.rs: on_inbound, apply_stream_frame,
      apply_peer_ack) *)

From S2P Require Import Prelude Records FrameTypes Varint Codec FramesAck FramesFlow FramesStream FramesDatagram FramesPath Frame Header Packet Crypto ProtectedPacket Spaces SentPackets Ack AckWire Stream Loss Congestion Flow Datagrams Cids Paths KeyPhase Reset SessionState SessionOps.

#[local] Open Scope N_scope.

(** The packet space of a short header. *)
Definition space_of (kind : ShortPacketSpace) : PacketSpace.t :=
  match kind with
  | SessionData => PacketSpace.SessionData
  | PathControl => PacketSpace.PathControl
  | RelayData => PacketSpace.RelayData
  end.

Definition is_padding (f : Frame.t) : bool :=
  match f with
  | Frame.Padding => true
  | _ => false
  end.

Section Session.

Context {C : Type} {CC : CongestionController C} {PR : Primitives}.
Implicit Types s : Session.t C.

Definition set_stream (stream_id : u64) (stream : Stream.t) : M C unit :=
  modify (fun s => s <| Session.streams := <[stream_id := stream]> s.(Session.streams) |>).

(** ** Stream frames *)

Definition is_open s (stream_id : u64) : bool :=
  bool_decide (is_Some (s.(Session.streams) !! stream_id)).

(** Who may send on the stream, and which way. *)
Definition check_stream_id (f : StreamFrame.t) : M C unit :=
  s ← gets id;
  let peer_initiator := match s.(Session.role) with Client => 1 | Server => 0 end in
  let local_initiator := 1 - peer_initiator in
  let initiator := N.land f.(StreamFrame.stream_id) 1 in
  stop_if (negb (validate_stream_id f.(StreamFrame.stream_id) initiator f.(StreamFrame.unidirectional)))
    InvalidStreamId;;
  match s.(Session.streams) !! f.(StreamFrame.stream_id) with
  | Some stream =>
      stop_if ((initiator =? local_initiator) && stream.(Stream.unidirectional)) InvalidStreamId;;
      stop_if (negb (Bool.eqb stream.(Stream.unidirectional) f.(StreamFrame.unidirectional)))
        InvalidStreamId
  | None => stop_if (negb (initiator =? peer_initiator)) InvalidStreamId
  end.

(** The stream the frame belongs to, opened by the frame if it is new. *)
Definition enter_stream (f : StreamFrame.t) : M C Stream.t :=
  s ← gets id;
  let id := f.(StreamFrame.stream_id) in
  stop_if (ClosedStreamRegistry.contains s.(Session.closed_streams) id) StreamClosed;;
  let is_new := negb (is_open s id) in
  stop_if (is_new && (MAX_STREAMS_PER_SESSION <=? N.of_nat (size s.(Session.streams)))) StreamLimit;;
  stop_if (is_new && negb f.(StreamFrame.open)) ProtocolViolation;;
  match s.(Session.streams) !! id with
  | None =>
      let stream :=
        (Stream.new id f.(StreamFrame.protocol_id) s.(Session.default_max_stream_data))
          <| Stream.unidirectional := f.(StreamFrame.unidirectional) |>
          <| Stream.metadata := f.(StreamFrame.metadata) |>
          <| Stream.recv_opened := true |> in
      set_stream id stream;;
      modify (fun s => s <| Session.peer_initiated_streams := s.(Session.peer_initiated_streams) + 1 |>);;
      mret stream
  | Some stream =>
      stop_if (negb (Bool.eqb stream.(Stream.unidirectional) f.(StreamFrame.unidirectional)))
        InvalidStreamId;;
      if f.(StreamFrame.open) then
        stop_if (negb (bool_decide (stream.(Stream.protocol_id) = f.(StreamFrame.protocol_id)))
                 || negb (bool_decide (stream.(Stream.metadata) = f.(StreamFrame.metadata))))
          ProtocolViolation;;
        let stream := stream <| Stream.recv_opened := true |> in
        set_stream id stream;;
        mret stream
      else
        stop_if (negb stream.(Stream.recv_opened)
                 || negb (bool_decide (f.(StreamFrame.protocol_id) = []))
                 || negb (bool_decide (f.(StreamFrame.metadata) = [])))
          ProtocolViolation;;
        mret stream
  end.

Definition apply_stream_frame (f : StreamFrame.t) : M C unit :=
  check_stream_id f;;
  stream ← enter_stream f;
  stop_if (match stream.(Stream.recv_state) with
           | DataRead | ResetRead | ResetRecvd => true
           | _ => false
           end) StreamClosed;;
  let '(received, stream) :=
    Stream.receive stream f.(StreamFrame.offset) f.(StreamFrame.data) f.(StreamFrame.fin) in
  set_stream f.(StreamFrame.stream_id) stream;;
  new_bytes ← lift StreamErr received;
  s ← gets id;
  flow ← lift FlowErr (FlowControl.consume s.(Session.flow) new_bytes);
  modify (fun s => s <| Session.flow := flow |>
                     <| Session.stream_consumed :=
                         <[f.(StreamFrame.stream_id) :=
                             default 0 (s.(Session.stream_consumed) !! f.(StreamFrame.stream_id)) + new_bytes]>
                         s.(Session.stream_consumed) |>).

(** ** Acknowledgements *)

(** The send time and size of the outstanding packets, by number. *)
Definition by_number {A} (g : SentPacket.t -> A) (sent : list SentPacket.t) : gmap u64 A :=
  list_to_map (rev ((fun p => (p.(SentPacket.packet_number), g p)) <$> sent)).

Definition sample_of (now sent_at : Instant) (ack_delay : u64) : u64 :=
  saturating_sub (duration_since now sent_at) ack_delay.

(** Each acknowledged packet leaves the flight. *)
Definition release_acked (sizes : gmap u64 usize) (acked : list u64) (c : C) : C * usize :=
  fold_left (fun '(c, total) pn =>
               match sizes !! pn with
               | Some size => (on_packet_acknowledged c size, total + size)
               | None => (c, total)
               end) acked (c, 0).

Definition sample_acked (sent_at : gmap u64 Instant) (now : Instant) (ack_delay : u64)
    (acked : list u64) (rtt : RttEstimator.t) : RttEstimator.t :=
  let rtt :=
    fold_left (fun rtt pn =>
                 match sent_at !! pn with
                 | Some at_ =>
                     let sample := sample_of now at_ ack_delay in
                     if 0 <? sample then RttEstimator.sample rtt sample else rtt
                 | None => rtt
                 end) acked rtt in
  match (pn ← list.last acked; at_ ← sent_at !! pn; Some (sample_of now at_ ack_delay)) with
  | Some sample => if 0 <? sample then rtt <| RttEstimator.latest_rtt := sample |> else rtt
  | None => rtt
  end.

Definition apply_peer_ack (ack : AckFrame.t) (now : Instant) : M C (list u64) :=
  s ← gets id;
  let outstanding := s.(Session.sent).(AckSendState.sent) in
  let sent_at := by_number SentPacket.sent_at outstanding in
  let sizes := by_number SentPacket.size outstanding in
  '(acked, sent) ← lift AckErr
                     (AckSendState.apply_ack s.(Session.sent) ack.(AckFrame.largest_acknowledged)
                        (flatten_ack ack));
  modify (fun s =>
    s <| Session.sent := sent |>
      <| Session.retransmit_payloads :=
          fold_left (fun m pn => delete pn m) acked s.(Session.retransmit_payloads) |>);;
  modify (fun s =>
    let '(c, acked_bytes) := release_acked sizes acked s.(Session.congestion) in
    s <| Session.congestion := if 0 <? acked_bytes then on_ack c acked_bytes else c |>);;
  modify (fun s => s <| Session.rtt := sample_acked sent_at now ack.(AckFrame.ack_delay) acked s.(Session.rtt) |>);;
  mret acked.

(** ** The other frames *)

Definition apply_reset_stream (f : ResetStreamFrame.t) : M C unit :=
  s ← gets id;
  let id := f.(ResetStreamFrame.stream_id) in
  stop_if (ClosedStreamRegistry.contains s.(Session.closed_streams) id) StreamClosed;;
  match s.(Session.streams) !! id with
  | None => mret tt
  | Some stream =>
      stop_if (f.(ResetStreamFrame.final_size) <? Stream.max_received_offset stream)
        (FlowErr ExceedsCredit);;
      stop_if (match stream.(Stream.final_size) with
               | Some known => negb (known =? f.(ResetStreamFrame.final_size))
               | None => false
               end) (FlowErr ExceedsCredit);;
      when (negb (bool_decide (id ∈ s.(Session.reset_final_sizes))))
        (modify (fun s => s <| Session.reset_final_sizes := {[id]} ∪ s.(Session.reset_final_sizes) |>);;
         flow ← lift FlowErr (FlowControl.consume s.(Session.flow) f.(ResetStreamFrame.final_size));
         modify (fun s => s <| Session.flow := flow |>));;
      set_stream id (stream <| Stream.recv_state := ResetRecvd |>
                            <| Stream.reset_error_code := Some f.(ResetStreamFrame.app_error_code) |>);;
      modify (fun s => s <| Session.stream_consumed := delete id s.(Session.stream_consumed) |>
                         <| Session.stream_app_consumed := delete id s.(Session.stream_app_consumed) |>)
  end.

Definition apply_max_data (f : MaxDataFrame.t) s : Session.t C :=
  let flow := s.(Session.flow) in
  if flow.(FlowControl.max_data_remote) <? f.(MaxDataFrame.maximum_data) then
    s <| Session.flow := flow <| FlowControl.max_data_remote := f.(MaxDataFrame.maximum_data) |> |>
  else s.

Definition apply_max_stream_data (f : MaxStreamDataFrame.t) s : Session.t C :=
  s <| Session.streams :=
      alter (fun st => st <| Stream.max_stream_data_remote :=
                            N.max st.(Stream.max_stream_data_remote) f.(MaxStreamDataFrame.maximum_stream_data) |>)
            f.(MaxStreamDataFrame.stream_id) s.(Session.streams) |>.

Definition apply_max_streams (f : MaxStreamsFrame.t) s : Session.t C :=
  let flow := s.(Session.flow) in
  let n := f.(MaxStreamsFrame.maximum_streams) in
  s <| Session.flow :=
      if f.(MaxStreamsFrame.bidirectional)
      then flow <| FlowControl.max_bidirectional_streams_local :=
                    N.max flow.(FlowControl.max_bidirectional_streams_local) n |>
      else flow <| FlowControl.max_unidirectional_streams_local :=
                    N.max flow.(FlowControl.max_unidirectional_streams_local) n |> |>.

Definition apply_migrate (f : MigrateFrame.t) : M C unit :=
  s ← gets id;
  if s.(Session.last_migration_sequence) <? f.(MigrateFrame.migration_sequence) then
    stop_if (negb (f.(MigrateFrame.old_path_id) =? s.(Session.primary_path_id))) PathMigration;;
    modify (fun s => s <| Session.last_migration_sequence := f.(MigrateFrame.migration_sequence) |>);;
    when f.(MigrateFrame.make_primary) (migrate_to f.(MigrateFrame.new_path_id) f.(MigrateFrame.keep_old_path))
  else mret tt.

(** One frame of a packet received on a path: the bytes it adds to the answer. *)
Definition apply_frame (path_id : u64) (now : Instant) (frame : Frame.t) : M C (list u8) :=
  match frame with
  | Frame.Stream f => apply_stream_frame f;; mret []
  | Frame.Datagram d =>
      s ← gets id;
      q ← lift DatagramErr
            (DatagramQueue.enqueue_inbound s.(Session.datagrams)
               (Datagram.mk d.(DatagramFrame.context_id) d.(DatagramFrame.data) None
                  d.(DatagramFrame.ack_requested)));
      modify (fun s => s <| Session.datagrams := q |>);;
      mret []
  | Frame.ResetStream f => apply_reset_stream f;; mret []
  | Frame.StopSending f =>
      modify (fun s => s <| Session.streams :=
        alter (fun st => st <| Stream.send_state := ResetSent |>) f.(StopSendingFrame.stream_id)
              s.(Session.streams) |>);;
      mret []
  | Frame.MaxData f => modify (apply_max_data f);; mret []
  | Frame.MaxStreamData f => modify (apply_max_stream_data f);; mret []
  | Frame.MaxStreams f => modify (apply_max_streams f);; mret []
  | Frame.ConnectionClose _ => modify (fun s => s <| Session.state := Closed |>);; mret []
  | Frame.NewConnectionId f =>
      stop_if (negb (len f.(NewConnectionIdFrame.connection_id) =? DEFAULT_DCID_LEN)) BadConnectionId;;
      modify (fun s => s <| Session.dcid := f.(NewConnectionIdFrame.connection_id) |>);;
      mret []
  | Frame.RetireConnectionId f =>
      modify (fun s => s <| Session.cids :=
        (ConnectionIdManager.retire s.(Session.cids) f.(RetireConnectionIdFrame.sequence)).2 |>);;
      mret []
  | Frame.Ack ack => apply_peer_ack ack now;; mret []
  | Frame.KeyUpdate f => session_on_key_update f.(KeyUpdateFrame.update_sequence);; mret []
  | Frame.PathChallenge f => mret (on_path_challenge f.(PathChallengeFrame.data))
  | Frame.PathResponse f => on_path_response path_id f.(PathResponseFrame.data);; mret []
  | Frame.Migrate f => apply_migrate f;; mret []
  | _ => mret []
  end.

Fixpoint apply_frames (path_id : u64) (now : Instant) (frames : list Frame.t) : M C (list u8) :=
  match frames with
  | [] => mret []
  | f :: frames =>
      out ← apply_frame path_id now f;
      more ← apply_frames path_id now frames;
      mret (out ++ more)
  end.

(** ** A packet *)

Definition expected_pn s (space : PacketSpace.t) : u64 :=
  match s.(Session.spaces) !! space with
  | Some st => saturating_add st.(PacketSpaceState.largest_received) 1
  | None => 0
  end.

(** What is done with bytes that are not a packet of this session: they may be
    a stateless reset. *)
Definition refuse_packet (bytes : list u8) (e : PacketBuildError) {A} : M C A :=
  s ← gets id;
  match s.(Session.stateless_reset_secret) with
  | Some secret =>
      if token_matches bytes (reset_token secret) then
        modify (fun s => s <| Session.state := Closed |>);;
        throw StatelessReset
      else throw (PacketErr e)
  | None => throw (PacketErr e)
  end.

(** The packet number is admitted and noted for acknowledgement; the bytes
    count towards the allowance of the path they came on. *)
Definition admit_packet (space : PacketSpace.t) (path_id pn : u64) (now : Instant) (bytes : list u8)
    : M C unit :=
  s ← gets id;
  state ← need NoSpace (s.(Session.spaces) !! space);
  '(pn, state) ← lift SpaceErr (PacketSpaceState.admit_reconstructed state pn);
  let budget_path := if bool_decide (is_Some (s.(Session.paths) !! path_id)) then path_id else DEFAULT_PATH_ID in
  modify (fun s =>
    s <| Session.spaces := <[space := state]> s.(Session.spaces) |>
      <| Session.recv_acks :=
          <[space := AckReceiveState.record (default AckReceiveState.new (s.(Session.recv_acks) !! space)) pn]>
          s.(Session.recv_acks) |>
      <| Session.paths := alter (fun p => Path.record_received p (len bytes) now) budget_path s.(Session.paths) |>).

(** The ACK frame appended to the answer.  The request for one is taken back
    even if the frame cannot be written. *)
Definition acknowledge (space : PacketSpace.t) (payload : list u8) : M C (list u8) :=
  s ← gets id;
  match s.(Session.recv_acks) !! space with
  | None => mret payload
  | Some st =>
      modify (fun s => s <| Session.recv_acks :=
                         <[space := (AckReceiveState.take_needs_ack st).2]> s.(Session.recv_acks) |>);;
      '(out, _) ← lift (fun _ => EncodeErr) (emit_ack st payload);
      mret out
  end.

Definition on_inbound (now : Instant) (bytes : list u8) : M C (list u8) :=
  s ← gets id;
  match parse_protected_packet s.(Session.remote_keys) s.(Session.remote_hp_key)
          (expected_pn s PacketSpace.SessionData) bytes with
  | Err e => refuse_packet bytes e
  | Ok (space_kind, _, path_id, pn, payload) =>
      let space := space_of space_kind in
      admit_packet space path_id pn now bytes;;
      parsed ← lift WirePacket (parse_payload (PacketContext.Protected space_kind) payload);
      when (existsb (fun f => negb (is_padding f)) parsed.(frames))
        (modify (touch now));;
      response ← apply_frames path_id now parsed.(frames);
      acknowledge space response
  end.

End Session.
