(* ===== verification/SessionRules.v ===== *)
(** * The session object: rules for relations between states

    A reflexive and transitive relation that every elementary step of an
    operation respects is respected by the operation: one rule per construct of
    the session monad, and a tactic that walks over a program. *)

From S2P Require Import Prelude SessionState.

Section Rules.

Context {C : Type} (R : Session.t C -> Session.t C -> Prop) {HR : PreOrder R}.

(** The operation takes every state to a state related to it, whether it
    succeeds or stops. *)
Definition respects {A} (m : M C A) : Prop := forall s, R s (m s).2.

Lemma respects_at {A} (m : M C A) s : respects m -> R s (m s).2.
Proof. intros Hm. apply Hm. Qed.

Lemma respects_ret {A} (a : A) : respects (mret a).
Proof. intros s. simpl. reflexivity. Qed.

Lemma respects_throw {A} e : respects (throw e : M C A).
Proof. intros s. simpl. reflexivity. Qed.

Lemma respects_panic {A} : respects (panic : M C A).
Proof. intros s. simpl. reflexivity. Qed.

Lemma respects_gets {A} (f : Session.t C -> A) : respects (gets f).
Proof. intros s. simpl. reflexivity. Qed.

Lemma respects_lift {X A} (f : X -> SessionError) (r : Result X A) : respects (lift f r : M C A).
Proof. destruct r; [apply respects_ret|apply respects_throw]. Qed.

Lemma respects_need {A} e (o : option A) : respects (need e o : M C A).
Proof. destruct o; [apply respects_ret|apply respects_throw]. Qed.

Lemma respects_stop_if b e : respects (stop_if b e : M C unit).
Proof. destruct b; [apply respects_throw|apply respects_ret]. Qed.

Lemma respects_when b (m : M C unit) : respects m -> respects (when b m).
Proof. destruct b; [done|intros _; apply respects_ret]. Qed.

Lemma respects_modify f : (forall s, R s (f s)) -> respects (modify f : M C unit).
Proof. intros Hf s. apply Hf. Qed.

Lemma respects_bind {A B} (m : M C A) (f : A -> M C B) :
  respects m -> (forall a, respects (f a)) -> respects (m ≫= f).
Proof.
  intros Hm Hf s. specialize (Hm s). unfold mbind, M_bind. destruct (m s) as [[a|e] s']; simpl in *.
  - etransitivity; [exact Hm|apply Hf].
  - done.
Qed.

(** Reading the state: the continuation starts from the state read. *)
Lemma respects_read {B} (f : Session.t C -> M C B) :
  (forall s, R s (f s s).2) -> respects (s ← gets id; f s).
Proof. intros Hf s. apply Hf. Qed.

(** The same at a given state, keeping what each step found there. *)

Lemma at_gets {A B} s (g : Session.t C -> A) (f : A -> M C B) :
  R s (f (g s) s).2 -> R s ((gets g ≫= f) s).2.
Proof. done. Qed.

Lemma at_need {A B} s e (o : option A) (f : A -> M C B) :
  (forall a, o = Some a -> R s (f a s).2) -> R s ((need e o ≫= f) s).2.
Proof. intros H. destruct o; [by apply H|]. apply respects_throw. Qed.

Lemma at_lift {X A B} s e (r : Result X A) (f : A -> M C B) :
  (forall a, r = Ok a -> R s (f a s).2) -> R s ((lift e r ≫= f) s).2.
Proof. intros H. destruct r; [by apply H|]. apply respects_throw. Qed.

Lemma at_stop_if {B} s b e (f : unit -> M C B) :
  (b = false -> R s (f tt s).2) -> R s ((stop_if b e ≫= f) s).2.
Proof. intros H. destruct b; [apply respects_throw|by apply H]. Qed.

Lemma at_modify {B} s g (f : unit -> M C B) :
  R s (g s) -> R (g s) (f tt (g s)).2 -> R s ((modify g ≫= f) s).2.
Proof. intros H1 H2. etransitivity; [exact H1|exact H2]. Qed.

End Rules.

Ltac respect_bind := apply respects_bind; try typeclasses eauto.

(** One construct of the program; [leaf] is tried on the state changes. *)
Ltac respect_step leaf :=
  lazymatch goal with
  | |- respects _ (mret _) => apply respects_ret
  | |- respects _ (throw _) => apply respects_throw
  | |- respects _ panic => apply respects_panic
  | |- respects _ (gets _) => apply respects_gets
  | |- respects _ (lift _ _) => apply respects_lift
  | |- respects _ (need _ _) => apply respects_need
  | |- respects _ (stop_if _ _) => apply respects_stop_if
  | |- respects _ (when _ _) => apply respects_when
  | |- respects _ (modify _) => apply respects_modify; intros ?; try solve [leaf]
  | |- respects _ (mbind _ _) => respect_bind; [|intros ?]
  | |- respects _ (match _ with _ => _ end) => case_match
  | |- respects _ (let _ := _ in _) => cbv zeta
  end; try typeclasses eauto.

Ltac respect leaf := repeat respect_step leaf.

(** One step at a given state. *)
Ltac at_step :=
  lazymatch goal with
  | |- _ _ (snd (mbind _ (gets _) _)) => apply at_gets; unfold Datatypes.id
  | |- _ _ (snd (mbind _ (need _ _) _)) => apply at_need; [try typeclasses eauto..|intros ? ?]
  | |- _ _ (snd (mbind _ (lift _ _) _)) => apply at_lift; [try typeclasses eauto..|intros ? ?]
  | |- _ _ (snd (mbind _ (stop_if _ _) _)) => apply at_stop_if; [try typeclasses eauto..|intros ?]
  | |- _ _ (snd (mbind _ (modify _) _)) => apply at_modify; [try typeclasses eauto..| |]
  | |- _ _ (snd (mret _ _)) => reflexivity
  | |- _ _ (snd (throw _ _)) => reflexivity
  | |- _ _ (snd (panic _)) => reflexivity
  | |- _ _ (snd ((let _ := _ in _) _)) => cbv zeta
  | |- _ _ (snd ((match ?x with _ => _ end) _)) => destruct x eqn:?
  end.
