(* ===== verification/SessionRun.v ===== *)
(** * The session object: runs and what only grows
      (crates/umc-session/src/session.rs)

    The calls an owner makes on a session, one step per call, and the relation
    between a session and any later state of it. *)

From Stdlib Require Import Strings.String.
From S2P Require Import Prelude Records FrameTypes Varint Codec FramesAck FramesFlow FramesStream FramesDatagram FramesPath Frame Pn Header Packet Crypto ProtectedPacket Spaces SentPackets Ack AckWire Stream Loss Congestion Flow Datagrams Cids Paths KeyPhase Reset SessionState SessionOps SessionInbound SessionRules.

#[local] Open Scope N_scope.

(** The calls that change a session.  Randomness is the source's state at the
    call; a fresh challenge is its bytes; the order in which a hash set is
    walked is an enumeration. *)
Inductive op {E : Type} :=
| OpenStream (unidirectional : bool)
| OpenStreamWithProtocol (protocol_id : list u8) (unidirectional : bool)
| SendStreamData (stream_id : u64) (data : list u8) (fin : bool)
| CloseStreamSend (stream_id : u64)
| ResetStreamSend (stream_id code : u64)
| StopStream (stream_id code : u64)
| ReadStream (stream_id : u64)
| SendDatagram (d : Datagram.t) (max_size : usize)
| PopDatagram (now_ms : u64)
| RecvDatagram
| FlowFrames (enumeration : gset u64 -> list u64)
| BuildOutbound (path_id : u64) (now : Instant) (payload : list u8)
| Retransmit (pn : u64) (now : Instant)
| PruneRetransmit (pn : u64)
| Touch (now : Instant)
| CloseSession (now : Instant)
| FinalizeClose
| EmitReset (now : Instant) (entropy : E) (trigger_len : usize)
| InitiateKeyUpdate
| ReceiveKeyUpdate (sequence : u64)
| AddPath (path_id : u64) (carrier_type : string) (local remote : list u8) (now : Instant)
    (challenge : list u8)
| ConfirmPath (path_id : u64) (response : list u8)
| MigrateTo (new_path_id : u64) (keep_old : bool)
| BuildMigrate (new_path_id : u64) (keep_old duplicate : bool)
| TakeMigration
| TakeValidation
| MarkDegraded (path_id : u64)
| ForceValidate (path_id : u64)
| IssueConnectionId (entropy : E)
| SetResetSecret (secret : list u8)
| SetDirectPathAllowed (allowed : bool)
| SetPrivacyProfile (profile : u8)
| SetTrafficPadding (enabled : bool)
| SetTimingJitter (jitter_ms : u64)
| PeerAck (ack : AckFrame.t) (now : Instant)
| Inbound (now : Instant) (bytes : list u8)
| DetectLost (now : Instant) (largest_acked : u64)
| FeedController (e : RenoCongestionController.event).

#[global] Arguments op : clear implicits.

Create HintDb evolves.

Lemma insert_keeps {A} (m : gmap u64 A) i j x : is_Some (m !! j) -> is_Some (<[i := x]> m !! j).
Proof. rewrite lookup_insert_is_Some'. auto. Qed.

Lemma alter_keeps {A} (m : gmap u64 A) (f : A -> A) i j : is_Some (m !! j) -> is_Some (alter f i m !! j).
Proof. by rewrite lookup_alter_is_Some. Qed.

Ltac ev_fields :=
  constructor; simpl; try done; try lia; eauto using insert_keeps, alter_keeps.

Ltac evolve := respect ltac:(ev_fields).

Section Run.

Context {C : Type} {CC : CongestionController C} {PR : Primitives} {E : Type} {ES : EntropySource E}.
Implicit Types s : Session.t C.

Definition session_step s (o : op E) : Session.t C :=
  match o with
  | OpenStream u => (open_stream_kind u s).2
  | OpenStreamWithProtocol p u => (open_stream_with_protocol p u s).2
  | SendStreamData id d fin => (send_stream_data id d fin s).2
  | CloseStreamSend id => (close_stream_send_payload id s).2
  | ResetStreamSend id code => (reset_stream_payload id code s).2
  | StopStream id code => (stop_stream_payload id code s).2
  | ReadStream id => (read_stream id s).2
  | SendDatagram d m => (send_datagram d m s).2
  | PopDatagram now => (pop_outbound_datagram_payload now s).2
  | RecvDatagram => (recv_datagram s).2
  | FlowFrames enumeration => (flow_control_frames enumeration s).2
  | BuildOutbound path now payload => (build_outbound_inner path now payload s).2
  | Retransmit pn now => (retransmit pn now s).2
  | PruneRetransmit pn => prune_retransmit_payload pn s
  | Touch now => touch now s
  | CloseSession now => close now s
  | FinalizeClose => finalize_close s
  | EmitReset now e n => (maybe_emit_stateless_reset now e n s).1.2
  | InitiateKeyUpdate => (initiate_key_update s).2
  | ReceiveKeyUpdate n => (session_on_key_update n s).2
  | AddPath id carrier local remote now challenge =>
      (add_path_with_challenge_bytes id carrier local remote now challenge s).2
  | ConfirmPath id r => (on_path_response id r s).2
  | MigrateTo id keep => (migrate_to id keep s).2
  | BuildMigrate id keep dup => (build_migrate_payload id keep dup s).2
  | TakeMigration => (take_path_migration s).2
  | TakeValidation => (take_path_validation s).2
  | MarkDegraded id => (mark_path_degraded id s).2
  | ForceValidate id => force_validate id s
  | IssueConnectionId e => (issue_connection_id e s).1.2
  | SetResetSecret secret => set_stateless_reset_secret s secret
  | SetDirectPathAllowed b => set_direct_path_allowed s b
  | SetPrivacyProfile p => set_privacy_profile s p
  | SetTrafficPadding b => set_traffic_padding s b
  | SetTimingJitter n => set_timing_jitter_ms s n
  | PeerAck ack now => (apply_peer_ack ack now s).2
  | Inbound now bytes => (on_inbound now bytes s).2
  | DetectLost now largest =>
      s <| Session.sent := (detect_lost_packets s.(Session.sent) s.(Session.rtt) now largest s.(Session.loss)).2 |>
  | FeedController e => s <| Session.congestion := controller_step s.(Session.congestion) e |>
  end.

Definition session_run s (os : list (op E)) : Session.t C := fold_left session_step os s.

(** ** What only grows *)

Definition rank (st : SessionState) : N :=
  match st with
  | Active => 0
  | Draining => 1
  | Closed => 2
  end.

Definition next_pn s : u64 :=
  match s.(Session.spaces) !! PacketSpace.SessionData with
  | Some st => st.(PacketSpaceState.next_packet_number)
  | None => 0
  end.

(** The replay window of the space has all these numbers marked. *)
Definition remembers s (space : PacketSpace.t) (got : list u64) : Prop :=
  match s.(Session.spaces) !! space with
  | Some st => seen st.(PacketSpaceState.replay) got
  | None => False
  end.

Record evolves s s' : Prop := {
  ev_role : s'.(Session.role) = s.(Session.role);
  ev_local_keys : s'.(Session.local_keys) = s.(Session.local_keys);
  ev_remote_keys : s'.(Session.remote_keys) = s.(Session.remote_keys);
  ev_local_hp : s'.(Session.local_hp_key) = s.(Session.local_hp_key);
  ev_remote_hp : s'.(Session.remote_hp_key) = s.(Session.remote_hp_key);
  ev_state : rank s.(Session.state) <= rank s'.(Session.state);
  ev_deadline : s.(Session.state) <> Active -> s'.(Session.draining_deadline) = s.(Session.draining_deadline);
  ev_streams : forall id, is_Some (s.(Session.streams) !! id) -> is_Some (s'.(Session.streams) !! id);
  ev_next_pn : next_pn s <= next_pn s';
  ev_seen : forall space got, remembers s space got -> remembers s' space got;
  ev_consumed : s.(Session.flow).(FlowControl.consumed) <= s'.(Session.flow).(FlowControl.consumed);
  ev_granted : s.(Session.flow).(FlowControl.max_data_local) <= s'.(Session.flow).(FlowControl.max_data_local);
  ev_credit : s.(Session.flow).(FlowControl.max_data_remote) <= s'.(Session.flow).(FlowControl.max_data_remote);
  ev_migration : s.(Session.last_migration_sequence) <= s'.(Session.last_migration_sequence)
}.

#[global] Instance evolves_preorder : PreOrder evolves.
Proof.
  split.
  - intros s. by constructor.
  - intros s1 s2 s3 [] []. constructor; try congruence; try lia; auto.
    intros Ha. rewrite ev_deadline1; [auto|]. intros Hc. rewrite Hc in ev_state0.
    destruct s1.(Session.state); simpl in ev_state0; try lia. done.
Qed.

Abbreviation evolving := (respects evolves).

(** ** Every call evolves the session *)

Lemma open_stream_kind_evolves u : evolving (open_stream_kind u : M C u64).
Proof. unfold open_stream_kind. evolve. Qed.

Lemma open_stream_with_protocol_evolves p u : evolving (open_stream_with_protocol p u : M C u64).
Proof. unfold open_stream_with_protocol. evolve. apply open_stream_kind_evolves. Qed.

Lemma send_stream_data_evolves id d fin : evolving (send_stream_data id d fin : M C (list u8)).
Proof. unfold send_stream_data. evolve. Qed.

Lemma close_stream_send_evolves id : evolving (close_stream_send_payload id : M C (list u8)).
Proof. unfold close_stream_send_payload. evolve. Qed.

Lemma reset_stream_evolves id code : evolving (reset_stream_payload id code : M C (list u8)).
Proof. unfold reset_stream_payload. evolve. Qed.

Lemma stop_stream_evolves id code : evolving (stop_stream_payload id code : M C (list u8)).
Proof. unfold stop_stream_payload. evolve. Qed.

Lemma read_stream_evolves id : evolving (read_stream id : M C (list u8 * bool)).
Proof. unfold read_stream. evolve. Qed.

Lemma send_datagram_evolves d m : evolving (send_datagram d m : M C unit).
Proof. unfold send_datagram. evolve. Qed.

Lemma pop_datagram_evolves now s : evolves s (pop_outbound_datagram_payload now s).2.
Proof. unfold pop_outbound_datagram_payload. repeat case_match; ev_fields. Qed.

Lemma recv_datagram_evolves s : evolves s (recv_datagram s).2.
Proof. unfold recv_datagram. repeat case_match; ev_fields. Qed.

Lemma grant_more_max f n :
  (FlowControl.grant_more f n).(FlowControl.max_data_local) = N.max f.(FlowControl.max_data_local) n
  /\ (FlowControl.grant_more f n).(FlowControl.consumed) = f.(FlowControl.consumed)
  /\ (FlowControl.grant_more f n).(FlowControl.max_data_remote) = f.(FlowControl.max_data_remote).
Proof.
  unfold FlowControl.grant_more. destruct (N.ltb_spec f.(FlowControl.max_data_local) n); simpl; split_and!; lia.
Qed.

Lemma grant_connection_evolves s : evolves s (grant_connection s).2.
Proof.
  unfold grant_connection. pose proof (grant_more_max s.(Session.flow)) as Hg.
  repeat case_match; simplify_eq/=; try reflexivity. match goal with |- context [FlowControl.grant_more _ ?n] => destruct (Hg n) as (E1 & E2 & E3) end.
  constructor; simpl; try done; lia.
Qed.

Lemma grant_stream_evolves id s : evolves s (grant_stream s id).2.
Proof. unfold grant_stream. repeat case_match; simplify_eq/=; try reflexivity; ev_fields. Qed.

Lemma grant_streams_evolves ids s : evolves s (grant_streams ids s).2.
Proof.
  revert s. induction ids as [|id ids IH]; intros s; simpl; [reflexivity|].
  pose proof (grant_stream_evolves id s) as Hs. destruct (grant_stream s id) as [f s1].
  specialize (IH s1). destruct (grant_streams ids s1) as [g s2]. simpl in *. by etransitivity.
Qed.

Lemma grant_stream_count_evolves s : evolves s (grant_stream_count s).2.
Proof. unfold grant_stream_count. case_match; simpl; [|reflexivity]. ev_fields. Qed.

Lemma flow_control_frames_evolves en s : evolves s (flow_control_frames en s).2.
Proof.
  unfold flow_control_frames. pose proof (grant_connection_evolves s) as H1.
  destruct (grant_connection s) as [a s1].
  pose proof (grant_streams_evolves (en (accounted_streams s1)) s1) as H2.
  destruct (grant_streams (en (accounted_streams s1)) s1) as [b s2].
  pose proof (grant_stream_count_evolves s2) as H3. destruct (grant_stream_count s2) as [c s3].
  simpl in *. etransitivity; [exact H1|]. by etransitivity.
Qed.

(** ** Packet number spaces *)

(** Replacing the state of a space by one that has allocated no fewer numbers. *)
Lemma spaces_evolve s space st st' :
  s.(Session.spaces) !! space = Some st ->
  st.(PacketSpaceState.next_packet_number) <= st'.(PacketSpaceState.next_packet_number) ->
  (forall got, seen st.(PacketSpaceState.replay) got -> seen st'.(PacketSpaceState.replay) got) ->
  evolves s (s <| Session.spaces := <[space := st']> s.(Session.spaces) |>).
Proof.
  intros Hs Hn Hg. constructor; simpl; try done.
  - unfold next_pn. simpl. destruct (decide (space = PacketSpace.SessionData)) as [->|Hne].
    + by rewrite lookup_insert_eq, Hs.
    + by rewrite lookup_insert_ne.
  - intros sp got. unfold remembers. simpl. destruct (decide (space = sp)) as [<-|Hne].
    + rewrite lookup_insert_eq, Hs. apply Hg.
    + by rewrite lookup_insert_ne.
Qed.

Lemma allocate_Ok st pn st' :
  PacketSpaceState.allocate_packet_number st = Ok (pn, st') ->
  pn = st.(PacketSpaceState.next_packet_number) /\ pn <= MAX_PACKET_NUMBER
  /\ st'.(PacketSpaceState.next_packet_number) = pn + 1
  /\ st'.(PacketSpaceState.largest_received) = st.(PacketSpaceState.largest_received)
  /\ st'.(PacketSpaceState.replay) = st.(PacketSpaceState.replay).
Proof.
  unfold PacketSpaceState.allocate_packet_number.
  destruct (N.ltb_spec MAX_PACKET_NUMBER st.(PacketSpaceState.next_packet_number)); [done|].
  intros [= <- <-]. done.
Qed.

Lemma admit_Ok st pn pn' st' :
  PacketSpaceState.admit_reconstructed st pn = Ok (pn', st') ->
  pn' = pn /\ st'.(PacketSpaceState.next_packet_number) = st.(PacketSpaceState.next_packet_number)
  /\ forall got, seen st.(PacketSpaceState.replay) got ->
      pn ∉ got /\ seen st'.(PacketSpaceState.replay) (pn :: got).
Proof.
  unfold PacketSpaceState.admit_reconstructed.
  destruct (ReplayWindow.check_and_mark _ pn) as [ok w] eqn:Em. destruct ok; simpl; [|done].
  intros [= <- <-]. split_and!; [done..|]. intros got Hg. split.
  - intros Hin. by rewrite (seen_refused _ _ _ Hg Hin) in Em.
  - apply (seen_mark _ _ _ _ _ Hg Em).
Qed.

Lemma seen_tail w pn got : seen w (pn :: got) -> seen w got.
Proof. intros [Hw [_ Hg]%Forall_cons_iff]. by split. Qed.

Lemma record_built_evolves path now pn payload pkt s : evolves s (record_built path now pn payload pkt s).
Proof.
  unfold record_built. cbv zeta. destruct (AckSendState.record_sent _ _) as [[[lpn lsize]|] sent]; ev_fields.
Qed.

(** [build_outbound_inner] at a state, laid open. *)
Lemma build_outbound_run path now payload s :
  build_outbound_inner path now payload s =
  if negb (bool_decide (s.(Session.state) = Active)) then (Ok None, s)
  else
    let p := outbound_payload s payload in
    if amplification_limited s path p then (Err (Throw AmplificationLimit), s)
    else if congestion_limited s p then (Err (Throw CongestionLimited), s)
    else
      match s.(Session.spaces) !! PacketSpace.SessionData with
      | None => (Err (Throw NoSpace), s)
      | Some st =>
          match PacketSpaceState.allocate_packet_number st with
          | Err e => (Err (Throw (SpaceErr e)), s)
          | Ok (pn, st') =>
              let s1 := s <| Session.spaces := <[PacketSpace.SessionData := st']> s.(Session.spaces) |> in
              match build_protected_packet s.(Session.local_keys) s.(Session.local_hp_key) SessionData
                      s.(Session.dcid) path pn false p with
              | Err e => (Err (Throw (PacketErr e)), s1)
              | Ok pkt => (Ok (Some pkt), record_built path now pn p pkt s1)
              end
          end
      end.
Proof.
  unfold build_outbound_inner. unfold_m. destruct (negb (bool_decide (s.(Session.state) = Active))); [done|].
  destruct (amplification_limited s path _); [done|]. destruct (congestion_limited s _); [done|].
  destruct (s.(Session.spaces) !! PacketSpace.SessionData) as [st|]; [|done].
  destruct (PacketSpaceState.allocate_packet_number st) as [[pn st']|e]; [|done].
  by destruct (build_protected_packet _ _ _ _ _ _ _ _).
Qed.

Lemma build_outbound_evolves path now payload :
  evolving (build_outbound_inner path now payload : M C (option (list u8))).
Proof.
  intros s. rewrite build_outbound_run. cbv zeta.
  case_match; [reflexivity|]. case_match; [reflexivity|]. case_match; [reflexivity|].
  destruct (s.(Session.spaces) !! PacketSpace.SessionData) as [st|] eqn:Es; [|reflexivity].
  destruct (PacketSpaceState.allocate_packet_number st) as [[pn st']|e] eqn:Ea; [|reflexivity].
  apply allocate_Ok in Ea as (-> & _ & Hn & _ & Hr).
  assert (Hev := spaces_evolve s _ st st' Es ltac:(lia) ltac:(by rewrite Hr)).
  destruct (build_protected_packet _ _ _ _ _ _ _ _); [|exact Hev].
  etransitivity; [exact Hev|]. apply record_built_evolves.
Qed.

Lemma retransmit_evolves pn now : evolving (retransmit pn now : M C (option (list u8))).
Proof. unfold retransmit. evolve. apply build_outbound_evolves. Qed.

(** ** Closing, keys, paths, identifiers *)

Lemma close_evolves now s : evolves s (close now s).
Proof.
  unfold close. case_bool_decide as Hs; simpl; [|reflexivity]. constructor; simpl; try done.
  rewrite Hs. simpl. lia.
Qed.

Lemma closed_evolves s : evolves s (s <| Session.state := Closed |>).
Proof. constructor; simpl; try done. destruct s.(Session.state); simpl; lia. Qed.

Lemma emit_reset_evolves now (e : E) n s : evolves s (maybe_emit_stateless_reset now e n s).1.2.
Proof.
  unfold maybe_emit_stateless_reset. destruct s.(Session.stateless_reset_secret); [|reflexivity].
  case_match; [reflexivity|]. cbv zeta. destruct (build_stateless_reset _ e). ev_fields.
Qed.

Lemma initiate_key_update_evolves : evolving (initiate_key_update : M C (list u8)).
Proof. unfold initiate_key_update, retyped. evolve. Qed.

Lemma on_key_update_evolves n : evolving (session_on_key_update n : M C unit).
Proof. unfold session_on_key_update. evolve. Qed.

Lemma add_path_evolves id c l r now ch :
  evolving (add_path_with_challenge_bytes id c l r now ch : M C (list u8)).
Proof. unfold add_path_with_challenge_bytes. evolve. Qed.

Lemma on_path_response_evolves id r : evolving (on_path_response id r : M C unit).
Proof. unfold on_path_response. evolve. Qed.

Lemma migrate_to_evolves id k : evolving (migrate_to id k : M C unit).
Proof. unfold migrate_to. evolve. Qed.

Lemma build_migrate_evolves id k d : evolving (build_migrate_payload id k d : M C (list u8)).
Proof. unfold build_migrate_payload. evolve. Qed.

Lemma mark_path_degraded_evolves id s : evolves s (mark_path_degraded id s).2.
Proof. unfold mark_path_degraded. repeat case_match; try reflexivity; ev_fields. Qed.

Lemma issue_connection_id_evolves (e : E) s : evolves s (issue_connection_id e s).1.2.
Proof.
  unfold issue_connection_id. destruct (ConnectionIdManager.issue _ _ _) as [[[cid|] cids] e']; [|ev_fields].
  cbv zeta. destruct (NewConnectionIdFrame.encode _); ev_fields.
Qed.

Lemma set_privacy_profile_evolves s p : evolves s (set_privacy_profile s p).
Proof. unfold set_privacy_profile. cbv zeta. case_match; ev_fields. Qed.

(** ** Inbound *)

Lemma consume_evolves s n flow :
  FlowControl.consume s.(Session.flow) n = Ok flow -> evolves s (s <| Session.flow := flow |>).
Proof. intros [Hn ->]%consume_Ok. constructor; simpl; try done. lia. Qed.

Lemma check_stream_id_evolves f : evolving (check_stream_id f : M C unit).
Proof. unfold check_stream_id. evolve. Qed.

Lemma enter_stream_evolves f : evolving (enter_stream f : M C Stream.t).
Proof. unfold enter_stream, set_stream. evolve. Qed.

Lemma apply_stream_frame_evolves f : evolving (apply_stream_frame f : M C unit).
Proof.
  unfold apply_stream_frame, set_stream.
  respect_bind; [apply check_stream_id_evolves|intros _].
  respect_bind; [apply enter_stream_evolves|intros stream].
  respect_bind; [evolve|intros _]. case_match.
  respect_bind; [evolve|intros _]. respect_bind; [evolve|intros new_bytes].
  apply respects_read. intros s. unfold_m.
  destruct (FlowControl.consume s.(Session.flow) new_bytes) as [flow|e] eqn:Ef; [|reflexivity].
  etransitivity; [by eapply consume_evolves|]. ev_fields.
Qed.

Lemma apply_peer_ack_evolves ack now : evolving (apply_peer_ack ack now : M C (list u64)).
Proof.
  unfold apply_peer_ack. evolve. destruct (release_acked _ _ _) as [c n]. ev_fields.
Qed.

Lemma apply_reset_stream_evolves f : evolving (apply_reset_stream f : M C unit).
Proof.
  unfold apply_reset_stream, set_stream. apply respects_read. intros s. unfold_m.
  destruct (ClosedStreamRegistry.contains _ _); [reflexivity|].
  destruct (s.(Session.streams) !! _) as [stream|]; [|reflexivity].
  destruct (_ <? Stream.max_received_offset stream); [reflexivity|].
  destruct (match Stream.final_size _ with Some _ => _ | None => _ end); [reflexivity|].
  destruct (bool_decide (_ ∈ s.(Session.reset_final_sizes))); simpl; [ev_fields|].
  destruct (FlowControl.consume s.(Session.flow) _) as [flow|e] eqn:Ef; [|ev_fields].
  etransitivity; [by eapply consume_evolves|]. ev_fields.
Qed.

Lemma apply_max_data_evolves f s : evolves s (apply_max_data f s).
Proof. unfold apply_max_data. cbv zeta. destruct (N.ltb_spec s.(Session.flow).(FlowControl.max_data_remote) f.(MaxDataFrame.maximum_data)); [|reflexivity]. ev_fields. Qed.

Lemma apply_max_streams_evolves f s : evolves s (apply_max_streams f s).
Proof. unfold apply_max_streams. cbv zeta. case_match; ev_fields. Qed.

Lemma apply_migrate_evolves f : evolving (apply_migrate f : M C unit).
Proof.
  apply respects_read. intros s.
  destruct (N.ltb_spec s.(Session.last_migration_sequence) f.(MigrateFrame.migration_sequence)); [|reflexivity].
  unfold stop_if. case_match; [reflexivity|].
  assert (evolves s (s <| Session.last_migration_sequence := f.(MigrateFrame.migration_sequence) |>)) as Hs
    by (constructor; simpl; try done; lia).
  etransitivity; [exact Hs|]. apply (respects_when evolves f.(MigrateFrame.make_primary)). apply migrate_to_evolves.
Qed.

Lemma apply_frame_evolves path now f : evolving (apply_frame path now f : M C (list u8)).
Proof.
  destruct f; simpl; evolve;
    eauto using apply_stream_frame_evolves, apply_reset_stream_evolves, apply_peer_ack_evolves,
      on_key_update_evolves, on_path_response_evolves, apply_migrate_evolves, closed_evolves,
      apply_max_data_evolves, apply_max_streams_evolves.
Qed.

Lemma apply_frames_evolves path now fs : evolving (apply_frames path now fs : M C (list u8)).
Proof. induction fs as [|f fs IH]; simpl; evolve; [apply apply_frame_evolves|apply IH]. Qed.

Lemma refuse_packet_evolves bytes e {A} : evolving (refuse_packet bytes e : M C A).
Proof. unfold refuse_packet. evolve. apply closed_evolves. Qed.

Lemma admit_packet_evolves space path pn now bytes : evolving (admit_packet space path pn now bytes : M C unit).
Proof.
  unfold admit_packet. apply respects_read. intros s. unfold_m.
  destruct (s.(Session.spaces) !! space) as [st|] eqn:Es; [|reflexivity].
  destruct (PacketSpaceState.admit_reconstructed st pn) as [[pn' st']|e] eqn:Ea; [|reflexivity].
  apply admit_Ok in Ea as (-> & Hn & Hg).
  etransitivity; [apply (spaces_evolve s space st st'); [done|lia|]|ev_fields].
  intros got Hw. by eapply seen_tail, Hg.
Qed.

Lemma acknowledge_evolves space p : evolving (acknowledge space p : M C (list u8)).
Proof. unfold acknowledge. evolve. Qed.

Lemma on_inbound_evolves now bytes : evolving (on_inbound now bytes : M C (list u8)).
Proof.
  unfold on_inbound. evolve;
    eauto using refuse_packet_evolves, admit_packet_evolves, apply_frames_evolves, acknowledge_evolves.
Qed.

(** ** Runs *)

#[local] Hint Extern 1 (evolves _ (snd (_ _))) => apply (respects_at evolves) : evolves.
#[local] Hint Resolve open_stream_kind_evolves open_stream_with_protocol_evolves send_stream_data_evolves
  close_stream_send_evolves reset_stream_evolves stop_stream_evolves read_stream_evolves
  send_datagram_evolves pop_datagram_evolves recv_datagram_evolves flow_control_frames_evolves
  build_outbound_evolves retransmit_evolves close_evolves closed_evolves emit_reset_evolves
  initiate_key_update_evolves on_key_update_evolves add_path_evolves on_path_response_evolves
  migrate_to_evolves build_migrate_evolves mark_path_degraded_evolves issue_connection_id_evolves
  set_privacy_profile_evolves apply_peer_ack_evolves on_inbound_evolves : evolves.

Lemma session_step_evolves s o : evolves s (session_step s o).
Proof.
  destruct o; simpl; try solve [ev_fields]; auto with evolves.
Qed.

Lemma session_run_evolves s os : evolves s (session_run s os).
Proof.
  unfold session_run. revert s. induction os as [|o os IH]; intros s; simpl; [reflexivity|].
  etransitivity; [apply session_step_evolves|apply IH].
Qed.

End Run.
