(* ===== verification/SessionTrace.v ===== *)
(** * The session object: what a run sends and admits
      (crates/umc-session/src/session.rs)

    The packets a run of calls hands out with the numbers they were sealed
    under, and the packet numbers it admits: no nonce is used twice, no packet
    is admitted twice. *)

From S2P Require Import Prelude Records Header Crypto ProtectedPacket Pn Spaces Congestion SessionState SessionOps SessionInbound SessionRules SessionRun Cids Ack.

#[local] Open Scope N_scope.

#[global] Instance ShortPacketSpace_eq_dec : EqDecision ShortPacketSpace.
Proof. solve_decision. Defined.

Section Trace.

Context {C : Type} {CC : CongestionController C} {PR : Primitives} {E : Type} {ES : EntropySource E}.
Implicit Types s : Session.t C.

Definition sent_packet (r : Result Stop (option (list u8))) : option (list u8) :=
  match r with
  | Ok p => p
  | Err _ => None
  end.

(** The packet a call hands out, with its packet number. *)
Definition emitted s (o : op E) : option (u64 * list u8) :=
  (fun pkt => (next_pn s, pkt)) <$>
  match o with
  | BuildOutbound path now payload => sent_packet (build_outbound_inner path now payload s).1
  | Retransmit pn now => sent_packet (retransmit pn now s).1
  | _ => None
  end.

(** The packet number a call admits, with its space. *)
Definition admitted s (o : op E) : option (ShortPacketSpace * u64) :=
  match o with
  | Inbound now bytes =>
      match parse_protected_packet s.(Session.remote_keys) s.(Session.remote_hp_key)
              (expected_pn s PacketSpace.SessionData) bytes with
      | Ok (kind, _, path, pn, _) =>
          match (admit_packet (space_of kind) path pn now bytes s).1 with
          | Ok _ => Some (kind, pn)
          | Err _ => None
          end
      | Err _ => None
      end
  | _ => None
  end.

Fixpoint packets s (os : list (op E)) : list (u64 * list u8) :=
  match os with
  | [] => []
  | o :: os => option_list (emitted s o) ++ packets (session_step s o) os
  end.

Fixpoint admissions s (os : list (op E)) : list (ShortPacketSpace * u64) :=
  match os with
  | [] => []
  | o :: os => option_list (admitted s o) ++ admissions (session_step s o) os
  end.

(** ** Packets sent *)

(** The packet is sealed under the session's keys with this number. *)
Definition sealed s (p : u64 * list u8) : Prop :=
  p.1 <= MAX_PACKET_NUMBER
  /\ exists dcid path payload,
      build_protected_packet s.(Session.local_keys) s.(Session.local_hp_key) SessionData dcid path p.1
        false payload = Ok p.2.

Lemma next_pn_record_built path now pn payload pkt s :
  next_pn (record_built path now pn payload pkt s) = next_pn s.
Proof.
  unfold record_built, next_pn. cbv zeta. by destruct (AckSendState.record_sent _ _) as [[[]|] ?].
Qed.

Lemma build_outbound_sent path now payload s pkt s' :
  build_outbound_inner path now payload s = (Ok (Some pkt), s') ->
  sealed s (next_pn s, pkt) /\ next_pn s' = next_pn s + 1.
Proof.
  rewrite build_outbound_run. cbv zeta. do 3 (case_match; [done|]).
  destruct (s.(Session.spaces) !! PacketSpace.SessionData) as [st|] eqn:Es; [|done].
  destruct (PacketSpaceState.allocate_packet_number st) as [[pn st']|e] eqn:Ea; [|done].
  apply allocate_Ok in Ea as (-> & Hm & Hn & _).
  destruct (build_protected_packet _ _ _ _ _ _ _ _) as [p|] eqn:Eb; [|done]. intros [= <- <-].
  rewrite next_pn_record_built. unfold sealed, next_pn. simpl. rewrite lookup_insert_eq, Es.
  split; [|done]. split; [done|]. eauto.
Qed.

Lemma emitted_spec s o p :
  emitted s o = Some p ->
  p.1 = next_pn s /\ sealed s p /\ next_pn (session_step s o) = next_pn s + 1.
Proof.
  unfold emitted. intros (pkt & Hp & ->)%fmap_Some. destruct o; try done; simpl in *.
  - destruct (build_outbound_inner path_id now payload s) as [[[q|]|] s'] eqn:Eb; try done.
    injection Hp as <-. apply build_outbound_sent in Eb as []. done.
  - unfold retransmit in *. revert Hp. unfold_m.
    destruct (s.(Session.retransmit_payloads) !! pn) as [payload|]; [|done].
    destruct (build_outbound_inner _ now payload s) as [[[q|]|] s'] eqn:Eb; try done.
    intros [= <-]. apply build_outbound_sent in Eb as []. done.
Qed.

Lemma packets_spec s os :
  Forall (fun p => next_pn s <= p.1 /\ sealed s p) (packets s os)
  /\ NoDup (packets s os).*1.
Proof.
  revert s. induction os as [|o os IH]; intros s; simpl; [by split; constructor|].
  destruct (IH (session_step s o)) as [Hf Hd]. pose proof (session_step_evolves s o) as Hev.
  assert (Forall (fun p => next_pn s <= p.1 /\ sealed s p) (packets (session_step s o) os)) as Hf'.
  { eapply list.Forall_impl; [exact Hf|]. intros p [Hn Hs]. split.
    - pose proof (ev_next_pn _ _ Hev). lia.
    - revert Hs. unfold sealed. by rewrite (ev_local_keys _ _ Hev), (ev_local_hp _ _ Hev). }
  destruct (emitted s o) as [p|] eqn:Ee; simpl; [|done].
  destruct (emitted_spec _ _ _ Ee) as (Hp & Hs & Hn). split.
  - constructor; [split; [lia|done]|done].
  - apply list.NoDup_cons. split; [|done]. intros (q & Hq & Hin)%list_elem_of_fmap.
    rewrite list.Forall_forall in Hf. destruct (Hf q Hin). lia.
Qed.

(** ** Packets admitted *)

Lemma admit_packet_Ok space path pn now bytes s u s' :
  admit_packet space path pn now bytes s = (Ok u, s') ->
  forall got, remembers s space got -> pn ∉ got /\ remembers s' space (pn :: got).
Proof.
  unfold admit_packet. unfold_m. destruct (s.(Session.spaces) !! space) as [st|] eqn:Es; [|done].
  destruct (PacketSpaceState.admit_reconstructed st pn) as [[pn' st']|e] eqn:Ea; [|done].
  apply admit_Ok in Ea as (-> & _ & Hg). intros [= <- <-] got. unfold remembers. simpl.
  rewrite lookup_insert_eq, Es. apply Hg.
Qed.

Lemma admit_packet_seen space path pn now bytes s got :
  remembers s space got -> pn ∈ got ->
  admit_packet space path pn now bytes s = (Err (Throw (SpaceErr DuplicateOrStale)), s).
Proof.
  unfold remembers, admit_packet. unfold_m. destruct (s.(Session.spaces) !! space) as [st|]; [|done].
  intros Hg Hin. unfold PacketSpaceState.admit_reconstructed. by rewrite (seen_refused _ _ _ Hg Hin).
Qed.

(** The state after a packet was admitted goes on from the admission. *)
Lemma on_inbound_after s now bytes kind dcid path pn payload :
  parse_protected_packet s.(Session.remote_keys) s.(Session.remote_hp_key)
    (expected_pn s PacketSpace.SessionData) bytes = Ok (kind, dcid, path, pn, payload) ->
  evolves (admit_packet (space_of kind) path pn now bytes s).2 (on_inbound now bytes s).2.
Proof.
  intros Hp. unfold on_inbound. unfold mbind at 1, M_bind at 1, gets. cbv beta iota zeta.
  unfold id at 1 2 3. rewrite Hp. unfold mbind at 1, M_bind at 1.
  destruct (admit_packet _ _ _ _ _ s) as [[u|e] s1]; simpl; [|reflexivity].
  apply (respects_at evolves). evolve;
    eauto using apply_frames_evolves, acknowledge_evolves.
Qed.

Lemma admitted_spec s o kind pn :
  admitted s o = Some (kind, pn) ->
  forall got, remembers s (space_of kind) got ->
  pn ∉ got /\ remembers (session_step s o) (space_of kind) (pn :: got).
Proof.
  destruct o; try done. simpl.
  destruct (parse_protected_packet _ _ _ _) as [[[[[kind' dcid] path] pn'] payload]|] eqn:Ep; [|done].
  pose proof (on_inbound_after _ now _ _ _ _ _ _ Ep) as Hev.
  destruct (admit_packet _ _ _ _ _ s) as [[u|e] s1] eqn:Ea; [|done]. intros [= <- <-] got Hg.
  destruct (admit_packet_Ok _ _ _ _ _ _ _ _ Ea got Hg) as [Hn Hr]. split; [done|].
  by apply (ev_seen _ _ Hev).
Qed.

(** The numbers of one space. *)
Definition in_space (kind : ShortPacketSpace) (l : list (ShortPacketSpace * u64)) : list u64 :=
  (filter (fun x => x.1 = kind) l).*2.

Lemma elem_of_in_space kind l pn : pn ∈ in_space kind l <-> (kind, pn) ∈ l.
Proof.
  unfold in_space. rewrite list_elem_of_fmap. setoid_rewrite list_elem_of_filter. split.
  - intros ([sp n] & -> & <- & Hin). done.
  - intros Hin. by exists (kind, pn).
Qed.

Lemma admissions_spec s os acc :
  (forall kind, remembers s (space_of kind) (in_space kind acc)) -> NoDup acc ->
  exists acc', NoDup acc' /\ acc' ≡ₚ admissions s os ++ acc
    /\ forall kind, remembers (session_run s os) (space_of kind) (in_space kind acc').
Proof.
  revert s acc. induction os as [|o os IH]; intros s acc Hr Hd; simpl; [eauto|].
  destruct (admitted s o) as [[sp pn]|] eqn:Ea; simpl.
  - destruct (IH (session_step s o) ((sp, pn) :: acc)) as (acc' & H1 & H2 & H3).
    + intros kind. unfold in_space. rewrite filter_cons. simpl. case_decide as Hsp; simpl.
      * subst kind. by apply (admitted_spec _ _ _ _ Ea).
      * apply (ev_seen _ _ (session_step_evolves s o)), Hr.
    + apply list.NoDup_cons. split; [|done]. rewrite <- elem_of_in_space.
      apply (admitted_spec _ _ _ _ Ea _ (Hr sp)).
    + exists acc'. split_and!; [done| |done]. rewrite H2. by rewrite Permutation_middle.
  - apply IH; [|done]. intros kind. apply (ev_seen _ _ (session_step_evolves s o)), Hr.
Qed.

End Trace.

(** ** Properties *)

Section New.

Context {PR : Primitives} {PL : PrimitiveLaws} {E : Type} {ES : EntropySource E}.

(** What a new session starts with. *)
Lemma session_new_Ok config now s :
  session_new config now = Ok s ->
  len config.(SessionConfig.dcid) = DEFAULT_DCID_LEN
  /\ PacketKeys.from_traffic_secret config.(SessionConfig.local_traffic_secret) = Ok s.(Session.local_keys)
  /\ PacketKeys.from_traffic_secret config.(SessionConfig.remote_traffic_secret) = Ok s.(Session.remote_keys).
Proof.
  unfold session_new. destruct (N.eqb_spec (len config.(SessionConfig.dcid)) DEFAULT_DCID_LEN); [|done].
  intros (lk & Hl%map_err_Ok & (rk & Hr%map_err_Ok & Hs)%bind_Ok)%bind_Ok. by injection Hs as <-.
Qed.

Lemma derived_iv secret keys :
  PacketKeys.from_traffic_secret secret = Ok keys -> len keys.(PacketKeys.iv) = IV_LEN.
Proof. destruct (keys_derived secret) as [(k & -> & _ & Hiv & _) _]. by intros [= <-]. Qed.

Lemma new_remembers config now s kind :
  session_new config now = Ok s -> remembers s (space_of kind) [].
Proof.
  unfold session_new. case_match; [done|].
  intros (lk & _ & (rk & _ & Hs)%bind_Ok)%bind_Ok. injection Hs as <-.
  assert (Hw : forall sp, seen (PacketSpaceState.new sp).(PacketSpaceState.replay) []).
  { intros sp. split; [by apply wf_new|constructor]. }
  unfold remembers. by destruct kind; cbn -[PacketSpaceState.new]; apply Hw.
Qed.

(** C8: No two packets of a session are sealed under the same nonce: whatever calls
    are made on a new session, every packet it hands out is sealed under the keys
    derived at the start, and the nonces of all of them are distinct. *)
Theorem session_nonces_fresh config now s (os : list (op E)) :
  session_new config now = Ok s ->
  Forall (sealed s) (packets s os)
  /\ NoDup (PacketKeys.nonce_for s.(Session.local_keys) <$> (packets s os).*1).
Proof.
  intros (_ & Hk & _)%session_new_Ok. destruct (packets_spec s os) as [Hf Hd].
  rewrite list.Forall_forall in Hf. split.
  - apply list.Forall_forall. intros p Hp. by apply Hf.
  - apply NoDup_fmap_2_strong; [|done]. intros x y Hx Hy.
    apply list_elem_of_fmap in Hx as (p & -> & [_ [Hp _]]%Hf), Hy as (q & -> & [_ [Hq _]]%Hf).
    unfold MAX_PACKET_NUMBER in *. apply nonce_for_inj; [by eapply derived_iv|unfold u64_max; lia..].
Qed.

(** C9: No packet is admitted twice: over any calls on a new session the packet
    numbers admitted in each space are distinct, and a packet that carries one of
    them again is refused as a duplicate and changes nothing. *)
Theorem session_no_replay config now s0 (os : list (op E)) :
  session_new config now = Ok s0 ->
  NoDup (admissions s0 os)
  /\ forall at_ bytes kind dcid path pn payload,
      let s := session_run s0 os in
      parse_protected_packet s.(Session.remote_keys) s.(Session.remote_hp_key)
        (expected_pn s PacketSpace.SessionData) bytes = Ok (kind, dcid, path, pn, payload) ->
      (kind, pn) ∈ admissions s0 os ->
      on_inbound at_ bytes s = (Err (Throw (SpaceErr DuplicateOrStale)), s).
Proof.
  intros Hs. destruct (admissions_spec s0 os []) as (acc & Hd & Hp & Hr).
  { intros kind. by eapply new_remembers. }
  { constructor. }
  rewrite app_nil_r in Hp. split; [by rewrite <- Hp|]. intros at_ bytes kind dcid path pn payload s E1 E2.
  rewrite <- Hp, <- elem_of_in_space in E2. fold s in Hr.
  unfold on_inbound. unfold mbind at 1, M_bind at 1, gets. cbv beta iota zeta. unfold id at 1 2 3.
  rewrite E1. unfold mbind at 1, M_bind at 1.
  by rewrite (admit_packet_seen _ _ _ _ _ _ _ (Hr kind) E2).
Qed.

End New.

(** ** Two endpoints *)

Definition sample_config (role : Role) (local remote : list u8) : SessionConfig.t :=
  SessionConfig.mk role [1; 2; 3; 4; 5; 6; 7; 8] local remote 65536 4096 25.

Definition sample_client : SessionConfig.t := sample_config Client (zeros 32) (replicate 32 1).

Definition sample_server : SessionConfig.t := sample_config Server (replicate 32 1) (zeros 32).

(** What the client hands out first: a ping. *)
Definition sample_ping : list u8 :=
  match session_new sample_client 0 with
  | Ok s =>
      match packets s [BuildOutbound (E := N) 0 5 [4]] with
      | (_, pkt) :: _ => pkt
      | [] => []
      end
  | Err _ => []
  end.

Lemma session_nonces_fresh_witness :
  exists s, session_new sample_client 0 = Ok s
  /\ let os := [BuildOutbound (E := N) 0 5 [4]; InitiateKeyUpdate; Retransmit 0 9; BuildOutbound 0 9 [4]] in
     len (packets s os) = 3
     /\ NoDup (PacketKeys.nonce_for s.(Session.local_keys) <$> (packets s os).*1).
Proof.
  destruct (session_new sample_client 0) as [s|e] eqn:Es; [|by vm_compute in Es].
  exists s. split; [done|]. intros os. split; [|by apply (session_nonces_fresh sample_client 0)].
  revert Es. intros [= <-]. vm_compute. reflexivity.
Defined.

Lemma session_no_replay_witness :
  exists s0, session_new sample_server 0 = Ok s0
  /\ let s := session_run (E := N) s0 [Inbound 7 sample_ping] in
     on_inbound 8 sample_ping s = (Err (Throw (SpaceErr DuplicateOrStale)), s).
Proof.
  destruct (session_new sample_server 0) as [s0|e] eqn:Es; [|by vm_compute in Es].
  exists s0. split; [done|]. intros s.
  apply (proj2 (session_no_replay sample_server 0 s0 [Inbound 7 sample_ping] Es)
           8 sample_ping SessionData [1; 2; 3; 4; 5; 6; 7; 8] 0 0 [4]);
    revert Es; intros [= <-]; vm_compute; [reflexivity|left].
Defined.
