(* ===== verification/SessionInvariant.v ===== *)
(** * The session object: its invariant
      (crates/umc-session/src/session.rs)

    What holds of a session after any calls: the stream table is bounded and
    every stream sits under its own well-formed identifier, the identifiers of
    locally opened streams are below the next ones, the accounts stay within
    their limits, the packets outstanding are in order and numbered below the
    next number, queues, ranges, identifiers and challenges keep their bounds. *)

From Stdlib Require Import Sorting.Sorted.
From S2P Require Import Prelude Records FrameTypes Codec FramesAck FramesFlow FramesStream FramesPath Frame Header Packet Crypto ProtectedPacket Pn Spaces SentPackets Ack AckWire Stream Loss Congestion Flow Datagrams Cids Paths KeyPhase Reset SessionState SessionOps SessionInbound SessionRules SessionRun.

#[local] Open Scope N_scope.

(** ** The parts *)

Definition local_initiator (r : Role) : u64 :=
  match r with
  | Client => 0
  | Server => 1
  end.

(** A stream under its identifier: its two low bits spell initiator and
    direction, its buffer is within its budget, and if it was opened locally its
    sequence number has been passed. *)
Record stream_entry_ok (r : Role) (next next_uni : u64) (id : u64) (st : Stream.t) : Prop := {
  se_id : st.(Stream.stream_id) = id;
  se_valid : validate_stream_id id (N.land id 1) st.(Stream.unidirectional) = true;
  se_budget : within_budget st;
  se_passed : N.land id 1 = local_initiator r ->
    id / 4 < if st.(Stream.unidirectional) then next_uni else next
}.

Definition streams_ok (r : Role) (next next_uni : u64) (streams : gmap u64 Stream.t) : Prop :=
  N.of_nat (size streams) <= MAX_STREAMS_PER_SESSION
  /\ map_Forall (stream_entry_ok r next next_uni) streams.

Definition registry_ok (reg : ClosedStreamRegistry.t) : Prop :=
  NoDup reg.(ClosedStreamRegistry.order)
  /\ len reg.(ClosedStreamRegistry.order) <= MAX_CLOSED_STREAM_IDS
  /\ forall id, id ∈ reg.(ClosedStreamRegistry.ids) <-> id ∈ reg.(ClosedStreamRegistry.order).

Definition sent_ok (next : u64) (sent : list SentPacket.t) : Prop :=
  len sent <= MAX_OUTSTANDING_PACKETS
  /\ StronglySorted N.lt (SentPacket.packet_number <$> sent)
  /\ Forall (fun p => p.(SentPacket.packet_number) < next) sent.

Definition path_entry_ok (id : u64) (p : Path.t) : Prop :=
  p.(Path.path_id) = id /\ len p.(Path.challenges) <= MAX_OUTSTANDING_CHALLENGES.

Definition spaces_ok (spaces : gmap PacketSpace.t PacketSpaceState.t) : Prop :=
  forall kind, exists st, spaces !! space_of kind = Some st /\ ReplayWindow.wf st.(PacketSpaceState.replay).

Section Invariant.

Context {C : Type} {CC : CongestionController C} {PR : Primitives} {E : Type} {ES : EntropySource E}.
Implicit Types s : Session.t C.

Record session_ok s : Prop := {
  ok_streams : streams_ok s.(Session.role) s.(Session.next_outgoing_stream)
                 s.(Session.next_outgoing_unidirectional) s.(Session.streams);
  ok_closed : registry_ok s.(Session.closed_streams);
  ok_flow : s.(Session.flow).(FlowControl.consumed) <= s.(Session.flow).(FlowControl.max_data_local);
  ok_sent : sent_ok (next_pn s) s.(Session.sent).(AckSendState.sent);
  ok_retained : map_Forall (fun pn _ => pn < next_pn s) s.(Session.retransmit_payloads);
  ok_acks : map_Forall (fun _ => ack_ok) s.(Session.recv_acks);
  ok_datagrams : queues_ok s.(Session.datagrams);
  ok_cids : cids_ok s.(Session.cids);
  ok_paths : map_Forall path_entry_ok s.(Session.paths);
  ok_spaces : spaces_ok s.(Session.spaces);
  ok_dcid : len s.(Session.dcid) = DEFAULT_DCID_LEN;
  ok_draining : s.(Session.state) = Draining -> is_Some s.(Session.draining_deadline);
  ok_privacy : s.(Session.privacy_profile) <= 3 /\ s.(Session.timing_jitter_ms) <= 10000
}.

Definition keeps_ok s s' : Prop := session_ok s -> session_ok s'.

#[global] Instance keeps_ok_preorder : PreOrder keeps_ok.
Proof. split; unfold keeps_ok; [by intros s|by intros s1 s2 s3 H1 H2 H; auto]. Qed.

End Invariant.

(** ** Streams *)

Lemma streams_insert r n u streams id st :
  streams_ok r n u streams -> stream_entry_ok r n u id st ->
  (streams !! id = None -> N.of_nat (size streams) < MAX_STREAMS_PER_SESSION) ->
  streams_ok r n u (<[id := st]> streams).
Proof.
  intros [Hs Ha] Hst Hn. split; [|by apply map_Forall_insert_2].
  destruct (streams !! id) eqn:Eid.
  - by rewrite map_size_insert_Some by eauto.
  - rewrite map_size_insert_None by done. specialize (Hn eq_refl). lia.
Qed.

(** [st'] differs from [st] in nothing the table depends on. *)
Definition same_stream (st st' : Stream.t) : Prop :=
  st'.(Stream.stream_id) = st.(Stream.stream_id)
  /\ st'.(Stream.unidirectional) = st.(Stream.unidirectional)
  /\ (within_budget st -> within_budget st').

Lemma entry_same r n u id st st' :
  same_stream st st' -> stream_entry_ok r n u id st -> stream_entry_ok r n u id st'.
Proof. intros (H1 & H2 & H3) []. constructor; rewrite ?H1, ?H2; auto. Qed.

Lemma streams_update r n u streams id st st' :
  streams_ok r n u streams -> streams !! id = Some st -> same_stream st st' ->
  streams_ok r n u (<[id := st']> streams).
Proof.
  intros Hs Hid Hst. apply streams_insert; [done| |by rewrite Hid].
  eapply entry_same; [done|]. by apply Hs.
Qed.

Lemma alter_as_insert {A} (m : gmap u64 A) f i x : m !! i = Some x -> alter f i m = <[i := f x]> m.
Proof.
  intros Hx. apply map_eq. intros j. destruct (decide (i = j)) as [<-|Hj].
  - by rewrite lookup_alter_eq, lookup_insert_eq, Hx.
  - by rewrite lookup_alter_ne, lookup_insert_ne.
Qed.

Lemma streams_alter r n u streams id f :
  streams_ok r n u streams -> (forall st, same_stream st (f st)) -> streams_ok r n u (alter f id streams).
Proof.
  intros Hs Hf. destruct (streams !! id) as [st|] eqn:Eid.
  - rewrite (alter_as_insert streams f id st) by done. by eapply streams_update.
  - by rewrite alter_id by (intros x Hx; congruence).
Qed.

Lemma streams_weaken r n u n' u' streams :
  n <= n' -> u <= u' -> streams_ok r n u streams -> streams_ok r n' u' streams.
Proof.
  intros Hn Hu [Hs Ha]. split; [done|]. eapply map_Forall_impl; [exact Ha|].
  intros id st [H1 H2 H3 H4]. constructor; auto. intros H. specialize (H4 H). destruct st.(Stream.unidirectional); lia.
Qed.

Lemma receive_same st o d fin : same_stream st (Stream.receive st o d fin).2.
Proof.
  split_and!; [..|apply (step_budget st (Stream.Segment o d fin))];
    unfold Stream.receive, Stream.buffer_segment; repeat case_match; done.
Qed.

Lemma read_same st x st' : Stream.read_available st = (x, st') -> same_stream st st'.
Proof.
  intros Hr. pose proof (step_budget st Stream.Read) as Hb. simpl in Hb. rewrite Hr in Hb.
  destruct x as [out eof]. revert Hr. unfold Stream.read_available.
  destruct (Stream.deliver _ _ _) as [[[? ?] ?] ?]. intros [= _ _ <-]. by split_and!.
Qed.

Lemma send_ready_same st d x st' : Stream.send_ready st d = Ok (x, st') -> same_stream st st'.
Proof. unfold Stream.send_ready. case_match; [done|]. intros [= _ <-]. by split_and!. Qed.

(** An identifier formed from a sequence number. *)
Lemma stream_id_valid (r : Role) (seq : u64) (u : bool) (id : u64) :
  id = seq * 4 + N.lor (local_initiator r) (if u then 2 else 0) ->
  validate_stream_id id (N.land id 1) u = true /\ N.land id 1 = local_initiator r /\ id / 4 = seq.
Proof.
  intros Hid. assert (Hm : id mod 4 = N.lor (local_initiator r) (if u then 2 else 0)).
  { subst id. rewrite N.add_comm, N.Div0.mod_add. by destruct r, u. }
  assert (H1 : N.land id 1 = local_initiator r).
  { change 1 with (N.ones 1) at 1. rewrite N.land_ones. change (2 ^ 1) with 2.
    replace (id mod 2) with ((id mod 4) mod 2) by lia. rewrite Hm. by destruct r, u. }
  split_and!; [|done|].
  - unfold validate_stream_id. rewrite H1. change 3 with (N.ones 2). rewrite N.land_ones.
    change (2 ^ 2) with 4. rewrite Hm. by destruct r, u.
  - rewrite (N.div_mod id 4) in Hid by done. rewrite Hm in Hid. lia.
Qed.

(** ** Closed streams *)

Lemma registry_insert reg id : registry_ok reg -> registry_ok (ClosedStreamRegistry.insert reg id).
Proof.
  intros (Hd & Hl & Hi). unfold ClosedStreamRegistry.insert, ClosedStreamRegistry.contains.
  case_bool_decide as Hin; [done|]. cbv zeta.
  assert (Hd' : NoDup (reg.(ClosedStreamRegistry.order) ++ [id])).
  { apply list.NoDup_app. split_and!; [done| |apply NoDup_singleton].
    intros x Hx ->%list_elem_of_singleton. by apply Hin, Hi. }
  assert (Hi' : forall x, x ∈ {[id]} ∪ reg.(ClosedStreamRegistry.ids)
                          <-> x ∈ reg.(ClosedStreamRegistry.order) ++ [id]).
  { intros x. rewrite elem_of_union, elem_of_singleton, elem_of_app, list_elem_of_singleton, Hi. tauto. }
  destruct (N.ltb_spec MAX_CLOSED_STREAM_IDS (len (reg.(ClosedStreamRegistry.order) ++ [id]))) as [Hc|Hc].
  - destruct (reg.(ClosedStreamRegistry.order) ++ [id]) as [|oldest rest] eqn:Eo; [done|].
    apply list.NoDup_cons in Hd' as [Hno Hnd].
    assert (len (oldest :: rest) = len reg.(ClosedStreamRegistry.order) + 1) as Hlen
      by (rewrite <- Eo, len_app, len_cons, len_nil; lia).
    rewrite len_cons in Hlen. split_and!; simpl; [done|lia|].
    intros x. rewrite elem_of_difference, elem_of_singleton, Hi', elem_of_cons.
    split; [naive_solver|]. intros Hx. split; [by right|]. by intros ->.
  - by split_and!.
Qed.

(** ** Outstanding packets *)

Lemma sorted_filter (P : SentPacket.t -> Prop) {HP : forall p, Decision (P p)} l :
  StronglySorted N.lt (SentPacket.packet_number <$> l) ->
  StronglySorted N.lt (SentPacket.packet_number <$> filter P l).
Proof.
  induction l as [|p l IH]; [done|]. simpl. intros [Hs Ha]%StronglySorted_inv. rewrite filter_cons.
  case_decide; [|auto]. simpl. constructor; [auto|]. rewrite list.Forall_forall in *.
  intros x (q & -> & [_ Hq]%list_elem_of_filter)%list_elem_of_fmap. by apply Ha, list_elem_of_fmap_2.
Qed.

Lemma sorted_snoc l x : StronglySorted N.lt l -> Forall (fun y => y < x) l -> StronglySorted N.lt (l ++ [x]).
Proof.
  induction l as [|y l IH]; simpl; [repeat constructor|].
  intros [Hs Ha]%StronglySorted_inv [Hy Hl]%Forall_cons_iff. constructor; [auto|].
  apply Forall_app. split; [done|]. by repeat constructor.
Qed.

Lemma sent_filter n (P : SentPacket.t -> Prop) {HP : forall p, Decision (P p)} l :
  sent_ok n l -> sent_ok n (filter P l).
Proof.
  intros (Hl & Hs & Hf). split_and!.
  - pose proof (len_filter P l). lia.
  - by apply sorted_filter.
  - rewrite list.Forall_forall in *. intros p [_ Hp]%list_elem_of_filter. by apply Hf.
Qed.

Lemma sent_weaken n n' l : n <= n' -> sent_ok n l -> sent_ok n' l.
Proof.
  intros Hn (Hl & Hs & Hf). split_and!; [done..|]. eapply list.Forall_impl; [exact Hf|]. simpl. lia.
Qed.

Lemma sent_record n sent p :
  sent_ok n sent.(AckSendState.sent) -> p.(SentPacket.packet_number) = n ->
  sent_ok (n + 1) (AckSendState.record_sent sent p).2.(AckSendState.sent).
Proof.
  intros (Hl & Hs & Hf) Hp.
  assert (Hsn : forall l, StronglySorted N.lt (SentPacket.packet_number <$> l) ->
            Forall (fun q => q.(SentPacket.packet_number) < n) l ->
            StronglySorted N.lt (SentPacket.packet_number <$> l ++ [p])
            /\ Forall (fun q => q.(SentPacket.packet_number) < n + 1) (l ++ [p])).
  { intros l H1 H2. split.
    - rewrite fmap_app. simpl. apply sorted_snoc; [done|]. rewrite Hp. by apply list.Forall_fmap.
    - apply Forall_app. split; [eapply list.Forall_impl; [exact H2|]; simpl; lia|].
      repeat constructor. lia. }
  split; [by apply record_sent_bound|]. unfold AckSendState.record_sent.
  case_match; [|by apply Hsn]. destruct sent.(AckSendState.sent) as [|q rest]; [by apply (Hsn [])|].
  simpl. apply Hsn; [by apply StronglySorted_inv in Hs as []|by apply Forall_cons_iff in Hf as []].
Qed.
