(* ===== verification/SessionSafety.v ===== *)
(** * The session object: every call keeps the invariant
      (crates/umc-session/src/session.rs) *)

From S2P Require Import Prelude Records FrameTypes Codec FramesAck FramesFlow FramesStream FramesDatagram FramesPath Frame Header Packet Crypto ProtectedPacket Pn Spaces SentPackets Ack AckWire Stream Loss Congestion Flow Datagrams Cids Paths KeyPhase Reset SessionState SessionOps SessionInbound SessionRules SessionRun SessionTrace SessionInvariant.

#[local] Open Scope N_scope.

(** A change of fields that leaves each part of the invariant as it was, or
    proved by a lemma on that part. *)
Ltac ok_fields :=
  let H := fresh "Hok" in
  intros H; destruct H; constructor; simpl in *; try done;
  eauto using streams_alter, registry_insert.

Ltac keep := respect ltac:(ok_fields).

Create HintDb session_ok.

Section Safety.

Context {C : Type} {CC : CongestionController C} {PR : Primitives} {E : Type} {ES : EntropySource E}.
Implicit Types s : Session.t C.

Abbreviation preserving := (respects keeps_ok).

(** ** Streams *)

Lemma stream_update_ok s id st st' :
  s.(Session.streams) !! id = Some st -> same_stream st st' ->
  keeps_ok s (s <| Session.streams := <[id := st']> s.(Session.streams) |>).
Proof. intros Hid Hst []. constructor; simpl; try done. by eapply streams_update. Qed.

(** The state once a sequence number has been taken. *)
Definition take_sequence (u : bool) (n : u64) s : Session.t C :=
  if u then s <| Session.next_outgoing_unidirectional := n |> else s <| Session.next_outgoing_stream := n |>.

Definition sequence (u : bool) s : u64 :=
  if u then s.(Session.next_outgoing_unidirectional) else s.(Session.next_outgoing_stream).

Lemma take_sequence_ok u s : keeps_ok s (take_sequence u (sequence u s + 1) s).
Proof.
  unfold take_sequence, sequence. intros []. destruct u; constructor; simpl; try done;
    (eapply streams_weaken; [..|done]; lia).
Qed.

Lemma opened_ok u s id :
  N.of_nat (size s.(Session.streams)) < MAX_STREAMS_PER_SESSION ->
  id = sequence u s * 4 + N.lor (local_initiator s.(Session.role)) (if u then 2 else 0) ->
  keeps_ok s ((take_sequence u (sequence u s + 1) s)
    <| Session.streams :=
        <[id := (Stream.new id [] s.(Session.default_max_stream_data)) <| Stream.unidirectional := u |>]>
        s.(Session.streams) |>).
Proof.
  intros Hsize Hid Hok. destruct (stream_id_valid _ _ _ _ Hid) as (Hv & Hi & Hd).
  pose proof (take_sequence_ok u s Hok) as Hok1. unfold take_sequence, sequence in *.
  assert (Hb : within_budget ((Stream.new id [] s.(Session.default_max_stream_data)) <| Stream.unidirectional := u |>))
    by (split; discriminate).
  destruct u, Hok1; constructor; simpl in *; try done;
    (apply streams_insert; [done| |done]; constructor; simpl; try done; intros _; rewrite Hd; lia).
Qed.

Lemma open_stream_kind_run u s :
  open_stream_kind u s =
  if MAX_STREAMS_PER_SESSION <=? N.of_nat (size s.(Session.streams)) then (Err (Throw StreamLimit), s)
  else
    match checked_add (sequence u s) 1 with
    | None => (Err (Throw StreamLimit), s)
    | Some next =>
        let s1 := take_sequence u next s in
        match (v ← checked_mul (sequence u s) 4;
               checked_add v (N.lor (local_initiator s.(Session.role)) (if u then 2 else 0))) with
        | None => (Err (Throw StreamLimit), s1)
        | Some id =>
            (Ok id, s1 <| Session.streams :=
              <[id := (Stream.new id [] s.(Session.default_max_stream_data)) <| Stream.unidirectional := u |>]>
              s1.(Session.streams) |>)
        end
    end.
Proof.
  unfold open_stream_kind, sequence, take_sequence. unfold_m.
  destruct (MAX_STREAMS_PER_SESSION <=? _); [done|].
  destruct u; (destruct (checked_add _ 1) as [n|]; [|done]);
    (destruct (checked_mul _ 4) as [v|]; [|done]); simpl; by destruct (checked_add v _).
Qed.

Lemma open_stream_kind_ok u : preserving (open_stream_kind u : M C u64).
Proof.
  intros s. rewrite open_stream_kind_run.
  destruct (N.leb_spec MAX_STREAMS_PER_SESSION (N.of_nat (size s.(Session.streams)))) as [|Hsize]; [by simpl|].
  destruct (checked_add (sequence u s) 1) as [n|] eqn:En; [|by simpl]. apply checked_add_Some in En as [-> _].
  cbv zeta. destruct (checked_mul _ 4 ≫= _) as [id|] eqn:Eid; [|apply take_sequence_ok].
  apply bind_Some in Eid as (v & Hv & [-> _]%checked_add_Some). unfold checked_mul in Hv.
  case_match; [|done]. injection Hv as <-.
  replace (Session.streams (take_sequence u (sequence u s + 1) s)) with s.(Session.streams) by (by destruct u).
  by apply opened_ok.
Qed.

Lemma open_stream_kind_opens u s id s' :
  open_stream_kind u s = (Ok id, s') ->
  s'.(Session.streams)
  = <[id := (Stream.new id [] s.(Session.default_max_stream_data)) <| Stream.unidirectional := u |>]>
    s.(Session.streams).
Proof.
  rewrite open_stream_kind_run. case_match; [done|]. destruct (checked_add _ 1) as [n|]; [|done].
  cbv zeta. destruct (checked_mul _ 4 ≫= _) as [i|]; [|done]. intros [= <- <-]. by destruct u.
Qed.

Lemma open_stream_with_protocol_ok p u : preserving (open_stream_with_protocol p u : M C u64).
Proof.
  intros s. unfold open_stream_with_protocol. at_step. pose proof (open_stream_kind_ok u s) as Hok.
  unfold mbind, M_bind. destruct (open_stream_kind u s) as [[id|e] s1] eqn:Eo; [|done].
  etransitivity; [exact Hok|]. unfold_m. simpl. apply open_stream_kind_opens in Eo.
  erewrite alter_as_insert by (rewrite Eo; apply lookup_insert_eq).
  eapply stream_update_ok; [rewrite Eo; apply lookup_insert_eq|]. by split_and!.
Qed.

Lemma send_stream_data_ok id d fin : preserving (send_stream_data id d fin : M C (list u8)).
Proof.
  intros s. unfold send_stream_data. repeat at_step.
  eapply stream_update_ok; [done|]. by eapply send_ready_same.
Qed.

Lemma close_stream_send_ok id : preserving (close_stream_send_payload id : M C (list u8)).
Proof.
  intros s. unfold close_stream_send_payload. repeat at_step; [by eapply stream_update_ok|apply respects_at; keep].
Qed.

Lemma reset_stream_ok id code : preserving (reset_stream_payload id code : M C (list u8)).
Proof.
  intros s. unfold reset_stream_payload. repeat at_step; [by eapply stream_update_ok|apply respects_at; keep].
Qed.

Lemma stop_stream_ok id code : preserving (stop_stream_payload id code : M C (list u8)).
Proof. unfold stop_stream_payload. keep. Qed.

Lemma read_stream_ok id : preserving (read_stream id : M C (list u8 * bool)).
Proof.
  intros s. unfold read_stream. repeat at_step; try (by eapply stream_update_ok);
    first [eapply stream_update_ok; [done|by eapply read_same] | apply respects_at; keep].
Qed.

(** ** Datagrams and flow control *)

Lemma datagrams_ok s e : keeps_ok s (s <| Session.datagrams := DatagramQueue.step s.(Session.datagrams) e |>).
Proof. intros []. constructor; simpl; try done. by apply datagram_step_ok. Qed.

Lemma send_datagram_ok d m : preserving (send_datagram d m : M C unit).
Proof.
  intros s. unfold send_datagram. repeat at_step. 
  pose proof (datagrams_ok s (DatagramQueue.EnqueueOutbound d m)) as Hd. simpl in Hd. by rewrite H in Hd.
Qed.

Lemma pop_datagram_ok now s : keeps_ok s (pop_outbound_datagram_payload now s).2.
Proof.
  pose proof (datagrams_ok s (DatagramQueue.PopOutbound now)) as Hd. simpl in Hd.
  unfold pop_outbound_datagram_payload. destruct (DatagramQueue.pop_outbound _ now) as [[d|] q]; done.
Qed.

Lemma recv_datagram_ok s : keeps_ok s (recv_datagram s).2.
Proof.
  pose proof (datagrams_ok s DatagramQueue.PopInbound) as Hd. simpl in Hd.
  unfold recv_datagram. by destruct (DatagramQueue.pop_inbound _) as [d q].
Qed.

Lemma grant_connection_ok s : keeps_ok s (grant_connection s).2.
Proof.
  unfold grant_connection. repeat case_match; try done. intros []. constructor; simpl; try done.
  match goal with |- context [FlowControl.grant_more ?f ?n] => destruct (grant_more_max f n) as (-> & -> & _) end.
  lia.
Qed.

Lemma grant_streams_ok ids s : keeps_ok s (grant_streams ids s).2.
Proof.
  revert s. induction ids as [|id ids IH]; intros s; simpl; [done|].
  assert (keeps_ok s (grant_stream s id).2) as Hs.
  { unfold grant_stream. repeat case_match; simpl; try done. by eapply stream_update_ok. }
  destruct (grant_stream s id) as [f s1]. specialize (IH s1).
  destruct (grant_streams ids s1) as [g s2]. simpl in *. by etransitivity.
Qed.

Lemma flow_control_frames_ok en s : keeps_ok s (flow_control_frames en s).2.
Proof.
  unfold flow_control_frames. pose proof (grant_connection_ok s) as H1.
  destruct (grant_connection s) as [a s1].
  pose proof (grant_streams_ok (en (accounted_streams s1)) s1) as H2.
  destruct (grant_streams (en (accounted_streams s1)) s1) as [b s2].
  assert (keeps_ok s2 (grant_stream_count s2).2) as H3.
  { unfold grant_stream_count. case_match; simpl; [|done]. ok_fields. }
  destruct (grant_stream_count s2) as [c s3]. simpl in *. etransitivity; [exact H1|]. by etransitivity.
Qed.

(** ** Building packets *)

Lemma path_alter_ok (paths : gmap u64 Path.t) f i :
  (forall p, Path.path_id (f p) = p.(Path.path_id) /\ Path.challenges (f p) = p.(Path.challenges)) ->
  map_Forall path_entry_ok paths -> map_Forall path_entry_ok (alter f i paths).
Proof.
  intros Hf Hp. destruct (paths !! i) as [p|] eqn:Ei.
  - rewrite (alter_as_insert paths f i p) by done. apply map_Forall_insert_2; [|done].
    destruct (Hp _ _ Ei) as [H1 H2]. destruct (Hf p) as [E1 E2]. split; congruence.
  - by rewrite alter_id by (intros x Hx; congruence).
Qed.

Lemma path_update_ok s id p :
  path_entry_ok id p -> keeps_ok s (s <| Session.paths := <[id := p]> s.(Session.paths) |>).
Proof. intros Hp []. constructor; simpl; try done. by apply map_Forall_insert_2. Qed.

Section Allocated.

Context s (st st' : PacketSpaceState.t) (Hs : s.(Session.spaces) !! PacketSpace.SessionData = Some st).
Context (pn : u64) (Ha : PacketSpaceState.allocate_packet_number st = Ok (pn, st')).

Let s1 := s <| Session.spaces := <[PacketSpace.SessionData := st']> s.(Session.spaces) |>.

Lemma allocated_next : pn = next_pn s /\ next_pn s1 = pn + 1.
Proof.
  apply allocate_Ok in Ha as (-> & _ & Hn & _). unfold next_pn. simpl. by rewrite lookup_insert_eq, Hs.
Qed.

Lemma allocated_ok : keeps_ok s s1.
Proof.
  destruct allocated_next as [Hp Hn]. intros [].
  constructor; simpl; try done.
  - rewrite Hn. eapply sent_weaken; [|done]. lia.
  - rewrite Hn. eapply map_Forall_impl; [exact ok_retained|]. simpl. intros. lia.
  - apply allocate_Ok in Ha as (_ & _ & _ & _ & Hr). intros kind. destruct (ok_spaces kind) as (x & Hx & Hw).
    destruct (decide (PacketSpace.SessionData = space_of kind)) as [Hk|Hk].
    + rewrite <- Hk, lookup_insert_eq. eexists. split; [done|]. rewrite Hr.
      rewrite <- Hk, Hs in Hx. by injection Hx as ->.
    + rewrite lookup_insert_ne by done. eauto.
Qed.

Lemma record_built_ok path now payload pkt :
  session_ok s -> session_ok (record_built path now pn payload pkt s1).
Proof.
  destruct allocated_next as [Hp Hn]. intros Hok. pose proof (allocated_ok Hok) as Hok1.
  destruct Hok as [_ _ _ Hsent _ _ _ _ _ _ _ _ _]. rewrite <- Hp in Hsent.
  pose proof (sent_record pn s.(Session.sent) (SentPacket.new pn PacketSpace.SessionData now (len pkt) true 0)
                Hsent eq_refl) as Hrec. rewrite <- Hn in Hrec.
  assert (Hret : map_Forall (fun q _ => q < next_pn s1) (<[pn := payload]> s1.(Session.retransmit_payloads))).
  { apply map_Forall_insert_2; [lia|]. apply Hok1. }
  destruct Hok1. unfold record_built. cbv zeta. simpl (Session.sent _).
  destruct (AckSendState.record_sent s.(Session.sent) _) as [[[lpn lsize]|] sent]; simpl in Hrec |- *;
    constructor; simpl; try done; try (by apply map_Forall_delete);
    (apply path_alter_ok; [|done]; intros p; by case_match).
Qed.

End Allocated.

Lemma build_outbound_ok path now payload :
  preserving (build_outbound_inner path now payload : M C (option (list u8))).
Proof.
  intros s. rewrite build_outbound_run. cbv zeta. do 3 (case_match; [by simpl|]).
  destruct (s.(Session.spaces) !! PacketSpace.SessionData) as [st|] eqn:Es; [|by simpl].
  destruct (PacketSpaceState.allocate_packet_number st) as [[pn st']|e] eqn:Ea; [|by simpl].
  destruct (build_protected_packet _ _ _ _ _ _ _ _).
  - intros Hok. by eapply record_built_ok.
  - by eapply allocated_ok.
Qed.

Lemma retained_delete_ok pn s :
  keeps_ok s (s <| Session.retransmit_payloads := delete pn s.(Session.retransmit_payloads) |>).
Proof. intros []. constructor; simpl; try done. by apply map_Forall_delete. Qed.

Lemma retransmit_ok pn now : preserving (retransmit pn now : M C (option (list u8))).
Proof. unfold retransmit. keep; [apply build_outbound_ok|apply retained_delete_ok]. Qed.

(** ** Closing, keys, paths, identifiers *)

Lemma close_ok now s : keeps_ok s (close now s).
Proof. unfold close. case_bool_decide; simpl; [|done]. intros []. constructor; simpl; try done. Qed.

Lemma closed_ok s : keeps_ok s (s <| Session.state := Closed |>).
Proof. ok_fields. Qed.

Lemma emit_reset_ok now (e : E) n s : keeps_ok s (maybe_emit_stateless_reset now e n s).1.2.
Proof.
  unfold maybe_emit_stateless_reset. destruct s.(Session.stateless_reset_secret); [|done].
  case_match; [done|]. cbv zeta. destruct (build_stateless_reset _ e). ok_fields.
Qed.

Lemma initiate_key_update_ok : preserving (initiate_key_update : M C (list u8)).
Proof. unfold initiate_key_update, retyped. keep. Qed.

Lemma session_on_key_update_ok n : preserving (session_on_key_update n : M C unit).
Proof. unfold session_on_key_update. keep. Qed.

Lemma add_path_ok id c l r now ch :
  preserving (add_path_with_challenge_bytes id c l r now ch : M C (list u8)).
Proof.
  intros s. unfold add_path_with_challenge_bytes. repeat at_step.
  apply path_update_ok. apply start_validation_Ok in H2 as (Hl & x & _ & ->). by split.
Qed.

Lemma on_path_response_ok id r : preserving (on_path_response id r : M C unit).
Proof.
  intros s. unfold on_path_response. repeat at_step. intros Hok. pose proof (ok_paths _ Hok _ _ H) as [H1 H2].
  apply confirm_Ok in H0 as (cs & Hr & ->).
  apply remove_challenge_spec in Hr as (pre & x & post & Ec & -> & _).
  rewrite Ec in H2. destruct Hok. constructor; simpl; try done. apply map_Forall_insert_2; [|done].
  split; [done|]. simpl. rewrite len_app, len_cons in *. lia.
Qed.

Lemma paths_ok s paths :
  (map_Forall path_entry_ok s.(Session.paths) -> map_Forall path_entry_ok paths) ->
  keeps_ok s (s <| Session.paths := paths |>).
Proof. intros Hp []. constructor; simpl; try done. auto. Qed.

Lemma migrate_to_ok id k : preserving (migrate_to id k : M C unit).
Proof.
  unfold migrate_to. keep. apply paths_ok. intros Hp i p. rewrite map_lookup_imap.
  intros (q & Hq & Hi)%bind_Some. injection Hi as <-. destruct (Hp _ _ Hq). by case_match.
Qed.

Lemma build_migrate_ok id k d : preserving (build_migrate_payload id k d : M C (list u8)).
Proof. unfold build_migrate_payload. keep. Qed.

Lemma mark_path_degraded_ok id s : keeps_ok s (mark_path_degraded id s).2.
Proof.
  unfold mark_path_degraded. destruct (s.(Session.paths) !! id) as [p|] eqn:Ep; [|done].
  case_match; [done|]. cbn [snd]. apply paths_ok. intros Hp. apply map_Forall_insert_2; [|done].
  apply (Hp _ _ Ep).
Qed.

Lemma force_validate_ok id s : keeps_ok s (force_validate id s).
Proof. apply paths_ok. by apply path_alter_ok. Qed.

Lemma set_privacy_profile_ok s p : keeps_ok s (set_privacy_profile s p).
Proof.
  unfold set_privacy_profile. cbv zeta. case_match; intros []; constructor; simpl in *; try done; lia.
Qed.

Lemma set_timing_jitter_ok s n : keeps_ok s (set_timing_jitter_ms s n).
Proof. intros []. constructor; simpl in *; try done. lia. Qed.

Lemma cids_change_ok s m : cids_ok m -> keeps_ok s (s <| Session.cids := m |>).
Proof. intros Hm []. by constructor. Qed.

(** ** Inbound *)

Lemma check_stream_id_Ok f s u s' :
  check_stream_id f s = (Ok u, s') ->
  let id := f.(StreamFrame.stream_id) in
  s' = s /\ validate_stream_id id (N.land id 1) f.(StreamFrame.unidirectional) = true
  /\ (s.(Session.streams) !! id = None -> N.land id 1 <> local_initiator s.(Session.role)).
Proof.
  unfold check_stream_id. unfold_m. destruct (validate_stream_id _ _ _) eqn:Ev; simpl; [|done].
  destruct (s.(Session.streams) !! f.(StreamFrame.stream_id)) as [st|] eqn:Est.
  - destruct (_ && _); [done|]. destruct (negb _); [done|]. by intros [= _ <-].
  - destruct (N.eqb_spec (N.land f.(StreamFrame.stream_id) 1) match s.(Session.role) with Client => 1 | Server => 0 end)
      as [He|He]; [|done].
    intros [= _ <-]. split_and!; [done..|]. intros _. rewrite He. by destruct s.(Session.role).
Qed.

Lemma enter_new_ok f s :
  let id := f.(StreamFrame.stream_id) in
  let st := (Stream.new id f.(StreamFrame.protocol_id) s.(Session.default_max_stream_data))
              <| Stream.unidirectional := f.(StreamFrame.unidirectional) |>
              <| Stream.metadata := f.(StreamFrame.metadata) |> <| Stream.recv_opened := true |> in
  validate_stream_id id (N.land id 1) f.(StreamFrame.unidirectional) = true ->
  N.land id 1 <> local_initiator s.(Session.role) ->
  N.of_nat (size s.(Session.streams)) < MAX_STREAMS_PER_SESSION ->
  keeps_ok s (s <| Session.streams := <[id := st]> s.(Session.streams) |>).
Proof.
  intros id st Hv Hl Hn []. constructor; simpl; try done. apply streams_insert; [done| |done].
  by constructor; simpl; [..|split|].
Qed.

Lemma enter_stream_ok f s r s' :
  let id := f.(StreamFrame.stream_id) in
  validate_stream_id id (N.land id 1) f.(StreamFrame.unidirectional) = true ->
  (s.(Session.streams) !! id = None -> N.land id 1 <> local_initiator s.(Session.role)) ->
  enter_stream f s = (r, s') ->
  keeps_ok s s' /\ forall st, r = Ok st -> s'.(Session.streams) !! id = Some st.
Proof.
  intros id Hv Hl. unfold enter_stream, set_stream, is_open. unfold_m. fold id.
  destruct (ClosedStreamRegistry.contains _ _); [by intros [= <- <-]|].
  destruct (s.(Session.streams) !! id) as [st|] eqn:Est.
  - rewrite bool_decide_eq_true_2 by eauto. simpl.
    destruct (negb (Bool.eqb _ _)); [by intros [= <- <-]|]. destruct f.(StreamFrame.open).
    + destruct (_ || _); intros [= <- <-]; [done|]. split; [by eapply stream_update_ok|].
      intros x [= <-]. simpl. apply lookup_insert_eq.
    + destruct (_ || _); intros [= <- <-]; [done|]. split; [done|]. by intros x [= <-].
  - rewrite bool_decide_eq_false_2 by (by intros [? ?]). simpl.
    destruct (N.leb_spec MAX_STREAMS_PER_SESSION (N.of_nat (size s.(Session.streams)))); [by intros [= <- <-]|].
    destruct f.(StreamFrame.open); simpl; [|by intros [= <- <-]]. intros [= <- <-]. split.
    + etransitivity; [by apply enter_new_ok; [..|apply Hl|]|]. ok_fields.
    + intros x [= <-]. simpl. apply lookup_insert_eq.
Qed.

Lemma consume_ok s n flow :
  FlowControl.consume s.(Session.flow) n = Ok flow -> keeps_ok s (s <| Session.flow := flow |>).
Proof. intros [Hn ->]%consume_Ok []. constructor; simpl; try done. lia. Qed.

Lemma apply_stream_frame_ok f : preserving (apply_stream_frame f : M C unit).
Proof.
  intros s. unfold apply_stream_frame. unfold mbind at 1, M_bind at 1.
  pose proof (check_stream_id_Ok f s) as Hc.
  pose proof (respects_at keeps_ok (check_stream_id f) s) as Hcs.
  destruct (check_stream_id f s) as [[[]|e] s0] eqn:Ec; cycle 1.
  { apply Hcs. unfold check_stream_id. keep. }
  destruct (Hc _ _ eq_refl) as (-> & Hv & Hl). clear Hc Hcs.
  unfold mbind at 1, M_bind at 1. destruct (enter_stream f s) as [[st|e] s1] eqn:Ee;
    destruct (enter_stream_ok _ _ _ _ Hv Hl Ee) as [Hok Hst]; [|done].
  specialize (Hst _ eq_refl). etransitivity; [exact Hok|]. unfold set_stream. repeat at_step.
  - eapply stream_update_ok; [done|].
    match goal with H : Stream.receive _ _ _ _ = _ |- _ => apply (f_equal snd) in H; simpl in H; rewrite <- H end.
    apply receive_same.
  - etransitivity; [by eapply consume_ok|]. simpl. ok_fields.
Qed.

Lemma apply_ack_sent sent largest ranges acked sent' :
  AckSendState.apply_ack sent largest ranges = Ok (acked, sent') ->
  forall n, sent_ok n sent.(AckSendState.sent) -> sent_ok n sent'.(AckSendState.sent).
Proof.
  unfold AckSendState.apply_ack. cbv zeta. destruct (_ =? 0); [done|]. destruct (existsb _ _); [done|].
  destruct (_ <? largest); [done|]. rewrite partition_acked_filter. intros [= _ <-] n. apply sent_filter.
Qed.

Lemma deleted_keeps {A} (P : u64 -> A -> Prop) (m : gmap u64 A) ks :
  map_Forall P m -> map_Forall P (fold_left (fun m i => delete i m) ks m).
Proof. revert m. induction ks as [|i ks IH]; intros m Hm; simpl; [done|]. by apply IH, map_Forall_delete. Qed.

Lemma apply_peer_ack_ok ack now : preserving (apply_peer_ack ack now : M C (list u64)).
Proof.
  intros s. unfold apply_peer_ack. repeat at_step.
  - intros []. constructor; simpl; try done; [by eapply apply_ack_sent|by apply deleted_keeps].
  - cbv beta. destruct (release_acked _ _ _) as [c n]. ok_fields.
  - ok_fields.
Qed.

Lemma apply_reset_stream_ok f : preserving (apply_reset_stream f : M C unit).
Proof.
  unfold apply_reset_stream, set_stream. apply respects_read. intros s. unfold_m.
  destruct (ClosedStreamRegistry.contains _ _); [by simpl|].
  destruct (s.(Session.streams) !! _) as [st|] eqn:Est; [|by simpl].
  destruct (_ <? Stream.max_received_offset st); [by simpl|].
  destruct (match Stream.final_size _ with Some _ => _ | None => _ end); [by simpl|].
  set (st' := st <| Stream.recv_state := ResetRecvd |>
                 <| Stream.reset_error_code := Some f.(ResetStreamFrame.app_error_code) |>).
  assert (Hu := stream_update_ok s _ st st' Est ltac:(by split_and!)).
  destruct (bool_decide (_ ∈ s.(Session.reset_final_sizes))); simpl; [etransitivity; [exact Hu|]; ok_fields|].
  destruct (FlowControl.consume s.(Session.flow) _) as [flow|e] eqn:Ef; [|ok_fields].
  etransitivity; [by eapply consume_ok|].
  etransitivity; [by eapply (stream_update_ok (s <| Session.flow := flow |>) _ st st')|]. ok_fields.
Qed.

Lemma apply_max_data_ok f s : keeps_ok s (apply_max_data f s).
Proof. unfold apply_max_data. cbv zeta. case_match; [ok_fields|done]. Qed.

Lemma apply_max_streams_ok f s : keeps_ok s (apply_max_streams f s).
Proof. unfold apply_max_streams. cbv zeta. case_match; ok_fields. Qed.

Lemma apply_migrate_ok f : preserving (apply_migrate f : M C unit).
Proof. unfold apply_migrate. keep. apply migrate_to_ok. Qed.

Lemma retire_cid_ok s n :
  keeps_ok s (s <| Session.cids := (ConnectionIdManager.retire s.(Session.cids) n).2 |>).
Proof.
  intros Hok. apply cids_change_ok; [|done]. unfold ConnectionIdManager.retire.
  destruct (ConnectionIdManager.mark_retired _ n) eqn:Em; [|apply Hok]. simpl.
  apply retired_step_ok; [apply Hok|]. by eapply mark_retired_same.
Qed.

Lemma new_cid_ok f :
  preserving (stop_if (negb (len f.(NewConnectionIdFrame.connection_id) =? DEFAULT_DCID_LEN)) BadConnectionId;;
              modify (fun s => s <| Session.dcid := f.(NewConnectionIdFrame.connection_id) |>);;
              mret ([] : list u8) : M C (list u8)).
Proof.
  intros s. at_step. at_step; [|reflexivity]. intros []. constructor; simpl; try done.
  apply negb_false_iff in H. lia.
Qed.

Lemma datagram_frame_ok d : preserving (apply_frame 0 0 (Frame.Datagram d) : M C (list u8)).
Proof.
  intros s. simpl. repeat at_step. set (dg := Datagram.mk _ _ _ _) in *.
  pose proof (datagrams_ok s (DatagramQueue.EnqueueInbound dg)) as Hd. simpl in Hd. by rewrite H in Hd.
Qed.

Lemma streams_alter_ok s f id :
  (forall st, same_stream st (f st)) ->
  keeps_ok s (s <| Session.streams := alter f id s.(Session.streams) |>).
Proof. intros Hf []. constructor; simpl; try done. by apply streams_alter. Qed.

Lemma apply_frame_ok path now f : preserving (apply_frame path now f : M C (list u8)).
Proof.
  destruct f; try apply datagram_frame_ok; try apply new_cid_ok; simpl; keep;
    eauto using apply_stream_frame_ok, apply_reset_stream_ok, apply_peer_ack_ok, session_on_key_update_ok,
      on_path_response_ok, apply_migrate_ok, closed_ok, apply_max_data_ok, apply_max_streams_ok, retire_cid_ok;
    by apply streams_alter_ok.
Qed.

Lemma apply_frames_ok path now fs : preserving (apply_frames path now fs : M C (list u8)).
Proof. induction fs as [|f fs IH]; simpl; keep; [apply apply_frame_ok|apply IH]. Qed.

Lemma refuse_packet_ok bytes e {A} : preserving (refuse_packet bytes e : M C A).
Proof. unfold refuse_packet. keep. Qed.

Lemma recv_acks_ok s acks :
  (map_Forall (fun _ => ack_ok) s.(Session.recv_acks) -> map_Forall (fun _ => ack_ok) acks) ->
  keeps_ok s (s <| Session.recv_acks := acks |>).
Proof. intros Ha []. constructor; simpl; try done. auto. Qed.

Lemma admitted_space_ok s space st st' :
  s.(Session.spaces) !! space = Some st ->
  st'.(PacketSpaceState.next_packet_number) = st.(PacketSpaceState.next_packet_number) ->
  (ReplayWindow.wf st.(PacketSpaceState.replay) -> ReplayWindow.wf st'.(PacketSpaceState.replay)) ->
  keeps_ok s (s <| Session.spaces := <[space := st']> s.(Session.spaces) |>).
Proof.
  intros Hs Hn Hw. assert (next_pn (s <| Session.spaces := <[space := st']> s.(Session.spaces) |>) = next_pn s) as He.
  { unfold next_pn. simpl. destruct (decide (space = PacketSpace.SessionData)) as [->|Hne].
    - by rewrite lookup_insert_eq, Hs.
    - by rewrite lookup_insert_ne. }
  intros []. constructor; try (rewrite He); simpl; try done. intros kind.
  destruct (ok_spaces kind) as (x & Hx & Hwx). destruct (decide (space = space_of kind)) as [->|Hne].
  - rewrite lookup_insert_eq. eexists. split; [done|]. rewrite Hs in Hx. injection Hx as ->. auto.
  - rewrite lookup_insert_ne by done. eauto.
Qed.

Lemma admit_packet_ok space path pn now bytes : preserving (admit_packet space path pn now bytes : M C unit).
Proof.
  unfold admit_packet. apply respects_read. intros s. unfold_m.
  destruct (s.(Session.spaces) !! space) as [st|] eqn:Es; [|by simpl].
  destruct (PacketSpaceState.admit_reconstructed st pn) as [[pn' st']|e] eqn:Ea; [|by simpl].
  apply admit_Ok in Ea as (-> & Hn & Hg).
  etransitivity; [apply (admitted_space_ok s space st st'); [done..|]|].
  { intros Hw. by destruct (Hg [] ltac:(split; [done|constructor])) as [_ [Hw' _]]. }
  intros Hok. apply paths_ok; [|apply recv_acks_ok; [|exact Hok]].
  - by apply path_alter_ok.
  - intros Ha. apply (map_Forall_insert_2 _ _ space); [|exact Ha]. apply record_ok.
    destruct (Session.recv_acks _ !! space) as [x|] eqn:Ex; simpl; [by apply (Ha _ _ Ex)|apply new_ok].
Qed.

Lemma acknowledge_ok space p : preserving (acknowledge space p : M C (list u8)).
Proof.
  intros s. unfold acknowledge. repeat at_step. apply recv_acks_ok. intros Ha.
  apply (map_Forall_insert_2 _ _ space); [|done]. destruct (Ha _ _ Heqo). by constructor.
Qed.

Lemma on_inbound_ok now bytes : preserving (on_inbound now bytes : M C (list u8)).
Proof.
  unfold on_inbound. keep; eauto using refuse_packet_ok, admit_packet_ok, apply_frames_ok, acknowledge_ok.
Qed.

(** ** Runs *)

Lemma detect_lost_ok s now largest :
  keeps_ok s (s <| Session.sent :=
    (detect_lost_packets s.(Session.sent) s.(Session.rtt) now largest s.(Session.loss)).2 |>).
Proof.
  intros []. constructor; simpl; try done. unfold detect_lost_packets. rewrite split_lost_filter. simpl.
  assert (Hf := fun P HP => sent_filter (next_pn s) P (HP := HP) _ ok_sent).
  rewrite record_below_cap; [apply Hf|]. simpl. apply (Hf _ _).
Qed.

Lemma retire_prior_ok m n : cids_ok m -> cids_ok (ConnectionIdManager.retire_prior_to m n).2.
Proof.
  intros Hm. unfold ConnectionIdManager.retire_prior_to. pose proof (retire_below_same m.(ConnectionIdManager.issued) n) as HR.
  destruct (ConnectionIdManager.retire_below _ n) as [k cs]. by apply retired_step_ok.
Qed.

Context {EL : EntropyLaws E}.

Lemma issue_connection_id_ok (e : E) s : keeps_ok s (issue_connection_id e s).1.2.
Proof.
  intros Hok. unfold issue_connection_id. pose proof (issue_ok s.(Session.cids) DEFAULT_DCID_LEN e (ok_cids _ Hok)) as Hi.
  destruct (ConnectionIdManager.issue _ _ e) as [[[cid|] cids] e']; simpl in Hi; [|by apply cids_change_ok].
  cbv zeta. destruct (NewConnectionIdFrame.encode _); (apply cids_change_ok; [|done]);
    (case_match; [by apply retire_prior_ok|done]).
Qed.

#[local] Hint Extern 1 (keeps_ok _ (snd (_ _))) => apply (respects_at keeps_ok) : session_ok.
#[local] Hint Resolve open_stream_kind_ok open_stream_with_protocol_ok send_stream_data_ok
  close_stream_send_ok reset_stream_ok stop_stream_ok read_stream_ok send_datagram_ok pop_datagram_ok
  recv_datagram_ok flow_control_frames_ok build_outbound_ok retransmit_ok retained_delete_ok close_ok
  closed_ok emit_reset_ok initiate_key_update_ok session_on_key_update_ok add_path_ok on_path_response_ok
  migrate_to_ok build_migrate_ok mark_path_degraded_ok force_validate_ok issue_connection_id_ok
  set_privacy_profile_ok set_timing_jitter_ok apply_peer_ack_ok on_inbound_ok detect_lost_ok : session_ok.

Lemma session_step_ok s (o : op E) : keeps_ok s (session_step s o).
Proof.
  destruct o; cbn [session_step]; unfold prune_retransmit_payload, finalize_close;
    try solve [ok_fields]; auto with session_ok.
Qed.

Lemma session_run_ok s (os : list (op E)) : session_ok s -> session_ok (session_run s os).
Proof. unfold session_run. apply fold_left_inv. intros x o. apply session_step_ok. Qed.

End Safety.

Section New.

Context {PR : Primitives} {E : Type} {ES : EntropySource E} {EL : EntropyLaws E}.

Lemma session_new_ok config now s : session_new config now = Ok s -> session_ok s.
Proof.
  unfold session_new. destruct (N.eqb_spec (len config.(SessionConfig.dcid)) DEFAULT_DCID_LEN); [|done].
  intros (lk & _ & (rk & _ & Hs)%bind_Ok)%bind_Ok. injection Hs as <-.
  constructor; simpl; try done; try lia.
  - split_and!; [constructor|discriminate|set_solver].
  - split_and!; [discriminate|constructor|constructor].
  - intros kind. exists (PacketSpaceState.new (space_of kind)).
    split; [by destruct kind|]. by apply wf_new.
Qed.

(** C10: A session never outgrows its bounds and never loses its shape: after any
    calls on a new session, at most 1024 streams are in the table, each under its
    own identifier whose low bits spell who opened it and which way it runs, with
    its reassembly buffer within budget; the bytes admitted are within the limit
    granted; at most 16384 packets are outstanding, in increasing order of their
    numbers and all below the next one; queues, ranges, identifiers, closed
    streams and challenges are within their limits. *)
Theorem session_invariant config now s (os : list (op E)) :
  session_new config now = Ok s -> session_ok (session_run s os).
Proof. intros Hs. by eapply session_run_ok, session_new_ok. Qed.

(** Opening a stream never takes an identifier in use: after any calls on a new
    session, an open that succeeds returns an identifier that was not in the
    table, is the caller's kind and direction, and adds exactly that stream. *)
Theorem open_stream_fresh config now s0 (os : list (op E)) u id s' :
  session_new config now = Ok s0 ->
  let s := session_run s0 os in
  open_stream_kind u s = (Ok id, s') ->
  s.(Session.streams) !! id = None
  /\ validate_stream_id id (local_initiator s.(Session.role)) u = true
  /\ s'.(Session.streams)
     = <[id := (Stream.new id [] s.(Session.default_max_stream_data)) <| Stream.unidirectional := u |>]>
       s.(Session.streams).
Proof.
  intros Hs s Ho. assert (Hok : session_ok s) by by eapply session_run_ok, session_new_ok.
  assert (Hid : id = sequence u s * 4 + N.lor (local_initiator s.(Session.role)) (if u then 2 else 0)).
  { revert Ho. rewrite open_stream_kind_run. case_match; [done|]. destruct (checked_add _ 1); [|done].
    cbv zeta. destruct (checked_mul _ 4 ≫= _) as [i|] eqn:Ei; [|done]. intros [= <- _].
    apply bind_Some in Ei as (v & Hv & [-> _]%checked_add_Some). unfold checked_mul in Hv.
    case_match; [|done]. by injection Hv as <-. }
  destruct (stream_id_valid _ _ _ _ Hid) as (Hv & Hl & Hd). split_and!.
  - destruct (s.(Session.streams) !! id) as [st|] eqn:Est; [|done]. exfalso.
    destruct (proj2 (ok_streams _ Hok) _ _ Est) as [_ Hv' _ Hp]. specialize (Hp Hl). rewrite Hd in Hp.
    assert (u = st.(Stream.unidirectional)) as ->.
    { unfold validate_stream_id in *. rewrite !andb_true_iff, !N.eqb_eq in *.
      destruct Hv as [_ Hv], Hv' as [_ Hv']. rewrite Hv in Hv'. revert Hv'. rewrite Hl.
      by destruct s.(Session.role), u, st.(Stream.unidirectional). }
    unfold sequence in Hp. destruct st.(Stream.unidirectional); lia.
  - by rewrite <- Hl.
  - by apply open_stream_kind_opens.
Qed.

End New.

Lemma session_invariant_witness :
  exists s, session_new sample_server 0 = Ok s
  /\ session_ok (session_run (E := N) s
       [OpenStream true; Inbound 7 sample_ping; IssueConnectionId 3; BuildOutbound 0 8 [4]; CloseSession 9]).
Proof.
  destruct (session_new sample_server 0) as [s|e] eqn:Es; [|by vm_compute in Es].
  exists s. split; [done|]. apply (session_invariant sample_server 0 s _ Es).
Defined.

Lemma open_stream_fresh_witness :
  exists s0, session_new sample_server 0 = Ok s0
  /\ let s := session_run (E := N) s0 [OpenStream true; OpenStream false; OpenStream true] in
     s.(Session.streams) !! 11 = None.
Proof.
  destruct (session_new sample_server 0) as [s0|e] eqn:Es; [|by vm_compute in Es].
  exists s0. split; [done|]. intros s.
  eapply (open_stream_fresh sample_server 0 s0 [OpenStream true; OpenStream false; OpenStream true] true 11 _ Es).
  revert Es. intros [= <-]. vm_compute. reflexivity.
Defined.
