(* ===== verification/SessionGates.v ===== *)
(** * The session object: the gates of a send
      (crates/umc-session/src/session.rs: build_outbound_inner,
      outbound_payload)

    The estimate of the protection overhead is an upper bound, so that the
    congestion window is respected in wire bytes; the amplification allowance is
    compared with the payload alone and is therefore overrun by the overhead;
    traffic padding is read back as padding. *)

From Stdlib Require Import Strings.String.
From S2P Require Import Prelude Records FrameTypes Varint Codec Frame FrameTheory Header Crypto ProtectedPacket Pn Spaces SentPackets Ack Congestion Paths SessionState SessionOps SessionInbound SessionRules SessionRun SessionTrace SessionInvariant SessionSafety Cids.

#[local] Open Scope N_scope.

(** ** The overhead of protection *)

(** Between 20 and 27 bytes and the connection id. *)
Lemma built_overhead `{PrimitiveLaws} keys hp space dcid path pn ph payload pkt :
  build_protected_packet keys hp space dcid path pn ph payload = Ok pkt ->
  len payload + 20 + len dcid <= len pkt /\ len pkt <= len payload + 27 + len dcid.
Proof.
  intros (pid & ct & pf & ppn & -> & Hv & Hs & Hp & _)%build_layout.
  pose proof (len_ppn _ _ _ _ _ _ Hp) as Hl. specialize (Hv []). rewrite app_nil_r in Hv.
  assert (1 <= len pid <= 8) as Hd.
  { pose proof (Varint.decode_bounds _ _ _ Hv). destruct pid as [|b tl]; [done|].
    apply Varint.decode_width in Hv. destruct (Varint.width_of_cases b) as [E|[E|[E|E]]]; lia. }
  unfold PacketKeys.seal in Hs. apply ok_or_Ok, aead_overhead in Hs. unfold TAG_LEN in Hs.
  autorewrite with umc. lia.
Qed.

(** ** The congestion window *)

(** What the session relies on of a controller: the allowance is what the window
    leaves, sending adds to the flight and nothing else, an acknowledged packet
    leaves it. *)
Class WindowLaws (C : Type) `{CongestionController C} : Prop := {
  allowance_left (c : C) : send_allowance c = saturating_sub (cwnd c) (in_flight c);
  sent_cwnd (c : C) n : cwnd (on_packet_sent c n) = cwnd c;
  sent_flight (c : C) n : in_flight (on_packet_sent c n) <= in_flight c + n;
  acknowledged_cwnd (c : C) n : cwnd (on_packet_acknowledged c n) = cwnd c;
  acknowledged_flight (c : C) n : in_flight (on_packet_acknowledged c n) <= in_flight c
}.

#[global] Instance reno_window : WindowLaws RenoCongestionController.t.
Proof. by constructor; intros; simpl; unfold saturating_add, saturating_sub; try lia. Qed.

(** What a send leaves behind, from the state [s1] with the number allocated. *)
Lemma record_built_window {C} `{WindowLaws C} path now pn payload pkt (s : Session.t C) :
  cwnd (record_built path now pn payload pkt s).(Session.congestion) = cwnd s.(Session.congestion)
  /\ in_flight (record_built path now pn payload pkt s).(Session.congestion)
     <= in_flight s.(Session.congestion) + len pkt.
Proof.
  unfold record_built. cbv zeta. destruct (AckSendState.record_sent _ _) as [[[lpn lsize]|] sent]; simpl;
    rewrite sent_cwnd, ?acknowledged_cwnd; (split; [done|]); rewrite sent_flight.
  - pose proof (acknowledged_flight s.(Session.congestion) lsize). lia.
  - lia.
Qed.

Lemma record_built_paths {C} `{CongestionController C} path now pn payload pkt (s : Session.t C) :
  (record_built path now pn payload pkt s).(Session.paths)
  = alter (fun p => if p.(Path.validated) then p else Path.record_sent p (len pkt)) path s.(Session.paths).
Proof. unfold record_built. cbv zeta. by destruct (AckSendState.record_sent _ _) as [[[lpn lsize]|] sent]. Qed.

(** A successful build passed both gates. *)
Lemma build_outbound_gates {C} `{CongestionController C, Primitives} path now payload (s : Session.t C) pkt s' :
  build_outbound_inner path now payload s = (Ok (Some pkt), s') ->
  let p := outbound_payload s payload in
  s.(Session.state) = Active /\ amplification_limited s path p = false /\ congestion_limited s p = false
  /\ exists s1, s1.(Session.congestion) = s.(Session.congestion) /\ s1.(Session.paths) = s.(Session.paths)
     /\ build_protected_packet s.(Session.local_keys) s.(Session.local_hp_key) SessionData s.(Session.dcid)
          path (next_pn s) false p = Ok pkt
     /\ s' = record_built path now (next_pn s) p pkt s1.
Proof.
  rewrite build_outbound_run. cbv zeta. destruct (bool_decide_reflect (s.(Session.state) = Active)); [|done].
  simpl. destruct (amplification_limited s path _); [done|]. destruct (congestion_limited s _); [done|].
  destruct (s.(Session.spaces) !! PacketSpace.SessionData) as [st|] eqn:Es; [|done].
  destruct (PacketSpaceState.allocate_packet_number st) as [[pn st']|err] eqn:Ea; [|done].
  apply allocate_Ok in Ea as (-> & _). 
  assert (next_pn s = st.(PacketSpaceState.next_packet_number)) as -> by (unfold next_pn; by rewrite Es).
  destruct (build_protected_packet _ _ _ _ _ _ _ _) as [q|] eqn:Eb; [|done]. intros [= <- <-].
  split_and!; [done..|]. by exists (s <| Session.spaces := <[PacketSpace.SessionData := st']> s.(Session.spaces) |>).
Qed.

Section Gates.

Context {C : Type} {CC : CongestionController C} {WL : WindowLaws C} {PR : Primitives} {PL : PrimitiveLaws}.
Implicit Types s : Session.t C.

(** C39: A packet that is not of the exempt kinds is sent only if all its wire bytes
    fit into the congestion window, for any controller: after the send the bytes
    in flight are within the window, although the gate runs before the packet is
    built, on an estimate of its size. *)
Theorem congestion_respected s path now payload pkt s' :
  session_ok s ->
  build_outbound_inner path now payload s = (Ok (Some pkt), s') ->
  payload_is_exempt (outbound_payload s payload) = false ->
  len pkt <= len (outbound_payload s payload) + PROTECTED_OVERHEAD_ESTIMATE
  /\ in_flight s'.(Session.congestion) <= cwnd s'.(Session.congestion).
Proof.
  intros Hok Hb Hex. apply build_outbound_gates in Hb as (_ & _ & Hc & s1 & E1 & _ & Hp & ->).
  pose proof (built_overhead _ _ _ _ _ _ _ _ _ Hp) as [_ Hl]. rewrite (ok_dcid _ Hok) in Hl.
  unfold DEFAULT_DCID_LEN, PROTECTED_OVERHEAD_ESTIMATE, congestion_limited in *.
  split; [lia|]. rewrite Hex in Hc. simpl in Hc. rewrite allowance_left in Hc.
  destruct (record_built_window path now (next_pn s) (outbound_payload s payload) pkt s1) as [-> Hf].
  rewrite E1 in Hf |- *. unfold saturating_sub, PROTECTED_OVERHEAD_ESTIMATE in Hc. lia.
Qed.

(** What the amplification gate of an unvalidated path does guarantee: a packet
    that is not of the exempt kinds takes the bytes sent over three times the
    bytes received by at most the overhead of protection, 35 bytes, provided the
    path was within its allowance before.  Three times the bytes received is
    overrun whenever the payload takes all of the allowance, because the gate
    compares the allowance with the payload and the path is charged the packet. *)
Theorem amplification_bounded s path now payload pkt s' p :
  session_ok s -> s.(Session.paths) !! path = Some p -> p.(Path.validated) = false ->
  p.(Path.sent_bytes_unvalidated) <= 3 * p.(Path.received_bytes_unvalidated) <= u64_max ->
  build_outbound_inner path now payload s = (Ok (Some pkt), s') ->
  payload_is_exempt (outbound_payload s payload) = false ->
  exists p', s'.(Session.paths) !! path = Some p'
    /\ p'.(Path.received_bytes_unvalidated) = p.(Path.received_bytes_unvalidated)
    /\ p'.(Path.sent_bytes_unvalidated) = p.(Path.sent_bytes_unvalidated) + len pkt
    /\ p'.(Path.sent_bytes_unvalidated) <= 3 * p'.(Path.received_bytes_unvalidated) + 35
    /\ (len (outbound_payload s payload) = Path.send_allowance p ->
        3 * p'.(Path.received_bytes_unvalidated) < p'.(Path.sent_bytes_unvalidated)).
Proof.
  intros Hok Hp Hv Hle Hb Hex. apply build_outbound_gates in Hb as (_ & Ha & _ & s1 & _ & E2 & Hpkt & ->).
  pose proof (built_overhead _ _ _ _ _ _ _ _ _ Hpkt) as Hl. rewrite (ok_dcid _ Hok) in Hl.
  unfold DEFAULT_DCID_LEN, amplification_limited in *. rewrite Hp, Hv, Hex in Ha. simpl in Ha.
  rewrite record_built_paths, E2, lookup_alter_eq, Hp. simpl. rewrite Hv. eexists. split; [done|].
  simpl. unfold Path.send_allowance, saturating_sub, saturating_mul in *. split_and!; [done..|lia|lia].
Qed.

End Gates.

(** ** Traffic padding *)

Lemma encode_frames_app fs gs bs cs :
  encode_frames fs = Ok bs -> encode_frames gs = Ok cs -> encode_frames (fs ++ gs) = Ok (bs ++ cs).
Proof.
  revert bs. induction fs as [|f fs IH]; intros bs; simpl; [by intros [= <-]|].
  intros (b1 & -> & (b2 & H2 & H3)%bind_Ok)%bind_Ok Hc. injection H3 as <-.
  rewrite bind_Ok. eexists. split; [done|]. rewrite bind_Ok. eexists. split; [by apply IH|].
  by rewrite app_assoc.
Qed.

Lemma encode_paddings n : encode_frames (replicate n Frame.Padding) = Ok (replicate n 0).
Proof. induction n as [|n IH]; [done|]. simpl. by rewrite IH. Qed.

Section Padding.

Context {C : Type} {CC : CongestionController C}.

(** The frames of a payload padded for traffic analysis are the frames handed
    over followed by padding alone, and the padded payload has the target length
    unless it was longer; exempt payloads and those of an unpadded session are
    sent as they are. *)
Theorem padding_transparent (s : Session.t C) fs payload :
  Forall self_delimited fs -> encode_frames fs = Ok payload -> len payload <= TRAFFIC_PADDING_TARGET ->
  exists n,
    outbound_payload s payload = payload ++ replicate n 0
    /\ decode_frames (outbound_payload s payload) = Ok (fs ++ replicate n Frame.Padding)
    /\ (s.(Session.traffic_padding) = true -> payload_is_exempt payload = false ->
        len (outbound_payload s payload) = TRAFFIC_PADDING_TARGET)
    /\ (s.(Session.traffic_padding) = false \/ payload_is_exempt payload = true -> n = 0%nat).
Proof.
  intros Hs He Hl.
  assert (Hdec : forall n, N.of_nat n <= TRAFFIC_PADDING_TARGET ->
            decode_frames (payload ++ replicate n 0) = Ok (fs ++ replicate n Frame.Padding)).
  { intros n Hn. apply decode_encoded.
    - apply Forall_app. split; [done|]. by apply Forall_replicate.
    - by apply encode_frames_app; [|apply encode_paddings].
    - rewrite len_app. unfold len at 2. rewrite length_replicate. unfold TRAFFIC_PADDING_TARGET, usize_max, u64_max in *. lia. }
  unfold outbound_payload. destruct s.(Session.traffic_padding), (payload_is_exempt payload); simpl;
    try (exists 0%nat; rewrite app_nil_r; split_and!; [done|by rewrite <- (Hdec 0%nat), app_nil_r|done..]).
  set (n := N.to_nat (TRAFFIC_PADDING_TARGET - len payload)).
  assert (len (payload ++ replicate n 0) = TRAFFIC_PADDING_TARGET) as Hlen.
  { rewrite len_app. unfold len at 2. rewrite length_replicate. unfold n. lia. }
  destruct (N.leb_spec TRAFFIC_PADDING_TARGET (len payload)) as [Hge|Hlt].
  - exists 0%nat. rewrite app_nil_r. split_and!; [done|by rewrite <- (Hdec 0%nat), app_nil_r|lia|done].
  - exists n. split_and!; [done|apply Hdec; lia|done|naive_solver].
Qed.

End Padding.

(** ** Witnesses *)

(** The client's ping on path 1. *)
Definition sample_ping_1 : list u8 :=
  match session_new sample_client 0 with
  | Ok s =>
      match packets s [BuildOutbound (E := N) 1 5 [4]] with
      | (_, pkt) :: _ => pkt
      | [] => []
      end
  | Err _ => []
  end.

(** A server that knows path 1 and has received 29 bytes on it. *)
Definition sample_path_ops : list (op N) :=
  [AddPath 1 "udp" [] [] 1 (replicate 8 7); Inbound 7 sample_ping_1].

Lemma congestion_respected_witness :
  exists s, session_new sample_client 0 = Ok s
  /\ exists pkt s', build_outbound_inner 0 5 (zeros 100) s = (Ok (Some pkt), s')
  /\ in_flight s'.(Session.congestion) <= cwnd s'.(Session.congestion).
Proof.
  destruct (session_new sample_client 0) as [s|e] eqn:Es; [|by vm_compute in Es].
  exists s. split; [done|].
  destruct (build_outbound_inner 0 5 (zeros 100) s) as [[[pkt|]|] s'] eqn:Eb;
    [|revert Es; intros [= <-]; by vm_compute in Eb..].
  exists pkt, s'. split; [done|].
  apply (congestion_respected s 0 5 (zeros 100) pkt s'); [by eapply session_new_ok|done|].
  by revert Es; intros [= <-].
Defined.

Lemma amplification_bounded_witness :
  exists s0, session_new sample_server 0 = Ok s0
  /\ let s := session_run s0 sample_path_ops in
     exists pkt s' p', build_outbound_inner 1 8 (zeros 87) s = (Ok (Some pkt), s')
     /\ s'.(Session.paths) !! 1 = Some p'
     /\ p'.(Path.received_bytes_unvalidated) = 29
     /\ p'.(Path.sent_bytes_unvalidated) <= 3 * p'.(Path.received_bytes_unvalidated) + 35.
Proof.
  destruct (session_new sample_server 0) as [s0|e] eqn:Es; [|by vm_compute in Es].
  exists s0. split; [done|]. intros s.
  assert (Hok : session_ok s) by by apply session_run_ok, (session_new_ok sample_server 0).
  assert (Hb : exists pkt s', build_outbound_inner 1 8 (zeros 87) s = (Ok (Some pkt), s')).
  { clear Hok. revert Es. intros [= <-]. do 2 eexists. vm_compute. reflexivity. }
  assert (Hp : exists p, s.(Session.paths) !! 1 = Some p /\ p.(Path.validated) = false
      /\ p.(Path.sent_bytes_unvalidated) = 0 /\ p.(Path.received_bytes_unvalidated) = 29
      /\ payload_is_exempt (outbound_payload s (zeros 87)) = false).
  { clear Hok Hb. revert Es. intros [= <-]. eexists. vm_compute. by repeat split. }
  clearbody s. destruct Hb as (pkt & s' & Hb), Hp as (p & H1 & H2 & H3 & H4 & H5).
  destruct (amplification_bounded s 1 8 (zeros 87) pkt s' p) as (p' & E1 & E2 & _ & E4 & _); try done.
  { by rewrite H3, H4. }
  exists pkt, s', p'. split_and!; [done|done|congruence|done].
Defined.

Lemma padding_transparent_witness :
  exists s n, session_new sample_client 0 = Ok s
  /\ outbound_payload (set_traffic_padding s true) sample_bytes = sample_bytes ++ replicate n 0
  /\ decode_frames (sample_bytes ++ replicate n 0) = Ok (sample_frames ++ replicate n Frame.Padding).
Proof.
  destruct (session_new sample_client 0) as [s|e] eqn:Es; [|by vm_compute in Es].
  destruct (padding_transparent (set_traffic_padding s true) sample_frames sample_bytes) as (n & H1 & H2 & _).
  - repeat constructor; try done; intros; discriminate.
  - vm_compute. reflexivity.
  - vm_compute. discriminate.
  - exists s, n. rewrite <- H1. split; [reflexivity|]. split; [reflexivity|exact H2].
Defined.
