(* ===== verification/SessionLink.v ===== *)
(** * Two sessions and a link
      (crates/umc-session/src/session.rs, with packet.rs, umc-wire and umc-crypto)

    What one session seals and the other opens: handing a payload of frames to
    [build_outbound_inner] of one and the packet to [on_inbound] of the other is
    applying those frames at the other.  The chain of codecs, packet protection,
    header protection, packet number truncation and padding disappears. *)

From S2P Require Import Prelude Records FrameTypes Varint Codec Frame FrameTheory Header Packet Crypto ProtectedPacket Pn Spaces SentPackets Ack Congestion Paths SessionState SessionOps SessionInbound SessionRules SessionRun SessionTrace SessionInvariant SessionSafety SessionGates.

#[local] Open Scope N_scope.

Section Link.

Context {C D : Type} {CC : CongestionController C} {CD : CongestionController D}.
Context {PR : Primitives} {PL : PrimitiveLaws}.

(** [b] opens with what [a] seals with. *)
Definition linked (a : Session.t C) (b : Session.t D) : Prop :=
  b.(Session.remote_keys) = a.(Session.local_keys)
  /\ b.(Session.remote_hp_key) = a.(Session.local_hp_key).

(** The frames applied as a packet of this number on this path. *)
Definition apply_packet (path pn : u64) (now : Instant) (bytes : list u8) (fs : list Frame.t)
    : M D (list u8) :=
  admit_packet PacketSpace.SessionData path pn now bytes;;
  when (existsb (fun f => negb (is_padding f)) fs) (modify (touch now));;
  response ← apply_frames path now fs;
  acknowledge PacketSpace.SessionData response.

Lemma bind_congr {A B} (m : M D A) (f g : A -> M D B) s :
  (forall a s, f a s = g a s) -> (m ≫= f) s = (m ≫= g) s.
Proof. intros H. unfold mbind, M_bind. destruct (m s) as [[a|e] s']; [apply H|done]. Qed.

Lemma lift_Ok_bind {X A B} (e : X -> SessionError) (a : A) (f : A -> M D B) s :
  (lift e (Ok a) ≫= f) s = f a s.
Proof. done. Qed.

Lemma apply_paddings path now n (s : Session.t D) :
  apply_frames path now (replicate n Frame.Padding) s = (Ok [], s).
Proof. induction n as [|n IH]; [done|]. simpl. unfold_m. by rewrite IH. Qed.

Lemma apply_frames_padded path now fs n (s : Session.t D) :
  apply_frames path now (fs ++ replicate n Frame.Padding) s = apply_frames path now fs s.
Proof.
  revert s. induction fs as [|f fs IH]; intros s; [apply apply_paddings|]. simpl.
  apply bind_congr. intros out s1. unfold mbind at 1, M_bind at 1. rewrite IH. done.
Qed.

Lemma padded (s : Session.t C) payload :
  exists n, outbound_payload s payload = payload ++ replicate n 0.
Proof. unfold outbound_payload. case_match; [exists 0%nat; by rewrite app_nil_r|eauto]. Qed.

Lemma built_size keys hp space dcid path pn ph payload pkt :
  build_protected_packet keys hp space dcid path pn ph payload = Ok pkt ->
  len payload + 48 <= MAX_PACKET_SIZE.
Proof.
  unfold build_protected_packet. destruct (N.ltb_spec MAX_PACKET_SIZE (len payload + 16 + 32)); [done|lia].
Qed.

(** The payload of a padded packet parses to the frames and padding. *)
Lemma parse_padded kind fs payload n :
  Forall self_delimited fs ->
  Forall (fun f => context_allows (PacketContext.Protected kind) (frame_type_of f) = true) fs ->
  encode_frames fs = Ok payload -> len (payload ++ replicate n 0) <= MAX_PACKET_SIZE ->
  parse_payload (PacketContext.Protected kind) (payload ++ replicate n 0)
  = Ok {| context := PacketContext.Protected kind; frames := fs ++ replicate n Frame.Padding |}.
Proof.
  intros Hs Hc He Hl. unfold parse_payload. rewrite (proj2 (N.ltb_ge _ _)) by done.
  rewrite (decode_encoded (fs ++ replicate n Frame.Padding)).
  - unfold mbind, Result_bind, map_err. rewrite (proj2 (check_all_Ok _ _)); [done|].
    apply Forall_app. split; [done|]. by apply Forall_replicate.
  - apply Forall_app. split; [done|]. by apply Forall_replicate.
  - by apply encode_frames_app; [|apply encode_paddings].
  - unfold MAX_PACKET_SIZE, usize_max, u64_max in *. lia.
Qed.

Lemma link_applies a b fs payload path now at_ pkt a' :
  session_ok a -> linked a b ->
  Forall self_delimited fs ->
  Forall (fun f => context_allows (PacketContext.Protected SessionData) (frame_type_of f) = true) fs ->
  encode_frames fs = Ok payload ->
  expected_pn b PacketSpace.SessionData <= MAX_PACKET_NUMBER - 2 ^ 15 ->
  abs_diff (next_pn a) (expected_pn b PacketSpace.SessionData) < 2 ^ 15 ->
  build_outbound_inner path now payload a = (Ok (Some pkt), a') ->
  on_inbound at_ pkt b = apply_packet path (next_pn a) at_ pkt fs b.
Proof.
  intros Hok [Hk Hh] Hs Hc He Hx Hd Hb.
  apply build_outbound_gates in Hb as (_ & _ & _ & _ & _ & _ & Hb & _).
  pose proof (built_size _ _ _ _ _ _ _ _ _ Hb) as Hsize.
  apply (parse_built _ _ _ _ _ _ _ _ _ _ (ok_dcid _ Hok) Hx Hd) in Hb. rewrite <- Hk, <- Hh in Hb.
  destruct (padded a payload) as [n En]. rewrite En in *.
  unfold on_inbound, apply_packet. unfold mbind at 1, M_bind at 1, gets. cbv beta iota zeta.
  unfold id at 1 2 3. rewrite Hb. apply bind_congr. intros [] s1. simpl (space_of _).
  rewrite (parse_padded _ fs) by first [done | lia]. rewrite lift_Ok_bind. cbn [frames]. rewrite existsb_app.
  replace (existsb _ (replicate n Frame.Padding)) with false; cycle 1.
  { clear. induction n; simpl; done. }
  rewrite orb_false_r. apply bind_congr. intros [] s2. unfold mbind at 1, M_bind at 1.
  by rewrite apply_frames_padded.
Qed.

(** C2: Sending frames is applying them at the peer: whatever the states of the two
    sessions, if the packet number is within 2^15 of the one expected, receiving
    the packet built from the encoding of the frames does to the receiver exactly
    what applying those frames under that packet number does, with the same
    result. *)
Theorem session_link a b fs payload path now at_ pkt a' :
  session_ok a -> linked a b ->
  Forall self_delimited fs ->
  Forall (fun f => context_allows (PacketContext.Protected SessionData) (frame_type_of f) = true) fs ->
  encode_frames fs = Ok payload ->
  expected_pn b PacketSpace.SessionData <= MAX_PACKET_NUMBER - 2 ^ 15 ->
  abs_diff (next_pn a) (expected_pn b PacketSpace.SessionData) < 2 ^ 15 ->
  build_outbound_inner path now payload a = (Ok (Some pkt), a') ->
  on_inbound at_ pkt b = apply_packet path (next_pn a) at_ pkt fs b.
Proof. apply link_applies. Qed.

End Link.

Lemma session_link_witness :
  exists b, session_new sample_server 0 = Ok b
  /\ on_inbound 7 sample_ping b = apply_packet 0 0 7 sample_ping [Frame.Ping] b.
Proof.
  destruct (session_new sample_server 0) as [b|e] eqn:Eb; [|by vm_compute in Eb].
  destruct (session_new sample_client 0) as [a|e] eqn:Ea; [|by vm_compute in Ea].
  exists b. split; [done|].
  assert (Hs : exists a', build_outbound_inner 0 5 [4] a = (Ok (Some sample_ping), a')).
  { revert Ea. intros [= <-]. eexists. vm_compute. reflexivity. }
  destruct Hs as [a' Hs]. assert (Hn : next_pn a = 0) by by revert Ea; intros [= <-].
  assert (Hx : expected_pn b PacketSpace.SessionData = 1) by by revert Eb; intros [= <-].
  assert (Hl := session_link a b [Frame.Ping] [4] 0 5 7 sample_ping a'). rewrite Hn, Hx in Hl. apply Hl.
  - by eapply session_new_ok.
  - revert Ea Eb. intros [= <-] [= <-]. split; vm_compute; reflexivity.
  - by repeat constructor.
  - by repeat constructor.
  - reflexivity.
  - discriminate.
  - reflexivity.
  - exact Hs.
Defined.
