(* ===== verification/SessionExchange.v ===== *)
(** * Stream data between two sessions
      (crates/umc-session/src/session.rs, stream.rs)

    Bytes handed to [send_stream_data] of one session come out of [read_stream]
    of the other: across the framing, the packet, the admission, the stream table
    and both accounts. *)

From S2P Require Import Prelude Records FrameTypes Varint Codec FramesStream Frame FrameTheory Header Packet Crypto ProtectedPacket Pn Spaces SentPackets Ack AckWire Stream Congestion Flow Paths SessionState SessionOps SessionInbound SessionRules SessionRun SessionTrace SessionInvariant SessionSafety SessionGates SessionLink.

#[local] Open Scope N_scope.

(** ** The frame of a piece of data *)

(** What the sender encodes and what the receiver decodes: the protocol is named
    in the opening frame alone. *)
Definition data_frame (id : u64) (st : Stream.t) (data : list u8) (fin : bool) : StreamFrame.t :=
  let offset := st.(Stream.next_send_offset) in
  StreamFrame.mk id fin (negb (offset =? 0)) true (offset =? 0) st.(Stream.unidirectional) offset data
    (if offset =? 0 then st.(Stream.protocol_id) else []) [].

Lemma data_frame_delimited id st data fin : len data <= u32_max -> StreamFrame.delimited (data_frame id st data fin).
Proof.
  intros Hl. unfold StreamFrame.delimited, data_frame. simpl.
  destruct (N.eqb_spec st.(Stream.next_send_offset) 0); simpl; by split_and!.
Qed.

Lemma stream_codec_appends f out out' : StreamFrame.put f out = Ok out' -> exists x, out' = out ++ x.
Proof.
  assert (Hv : forall v o o', put_varint v o = Ok o' -> exists x, o' = o ++ x).
  { intros v o o' H%map_err_Ok. apply Varint.encode_into_decode in H as (x & -> & _). eauto. }
  assert (Hb : forall v l o o', put_bytes v l o = Ok o' -> exists x, o' = o ++ x).
  { intros v l o o' H. apply (codec_bytes v l) in H as (x & -> & _). eauto. }
  assert (Hw : forall (b : bool) (e : Enc), (forall o o', e o = Ok o' -> exists x, o' = o ++ x) ->
             forall o o', put_when b e o = Ok o' -> exists x, o' = o ++ x).
  { intros [] e He o o'; [apply He|]. intros [= <-]. exists []. by rewrite app_nil_r. }
  assert (Hq : forall e1 e2 : Enc, (forall o o', e1 o = Ok o' -> exists x, o' = o ++ x) ->
             (forall o o', e2 o = Ok o' -> exists x, o' = o ++ x) ->
             forall o o', (e1 >>> e2) o = Ok o' -> exists x, o' = o ++ x).
  { intros e1 e2 H1 H2 o o' (o1 & (x & ->)%H1 & (y & ->)%H2)%bind_Ok. rewrite <- app_assoc. eauto. }
  assert (Hs : forall l o o', put_slice (Er := FrameError) l o = Ok o' -> exists x, o' = o ++ x) by (intros l o o' [= <-]; eauto).
  unfold StreamFrame.put, put_u8. repeat first [apply Hq | apply Hw | apply Hv | apply Hb | apply Hs].
Qed.

Lemma stream_encode_typed f enc :
  StreamFrame.encode f = Ok enc -> FrameType.STREAM :: drop 1 enc = enc.
Proof.
  intros (tb & Hb & He)%bind_Ok. vm_compute in Hb. injection Hb as <-.
  apply stream_codec_appends in He as [x ->]. done.
Qed.

Lemma data_frame_encode id st data fin :
  let offset := st.(Stream.next_send_offset) in
  StreamFrame.encode
    (StreamFrame.mk id fin (negb (offset =? 0)) true (offset =? 0) st.(Stream.unidirectional) offset data
       st.(Stream.protocol_id) [])
  = StreamFrame.encode (data_frame id st data fin).
Proof. unfold data_frame. by destruct (N.eqb_spec st.(Stream.next_send_offset) 0). Qed.

(** ** The sender *)

(** The stream after sending [data] from [st]. *)
Definition advanced (st st' : Stream.t) (data : list u8) : Prop :=
  st'.(Stream.next_send_offset) = st.(Stream.next_send_offset) + len data
  /\ st'.(Stream.protocol_id) = st.(Stream.protocol_id)
  /\ st'.(Stream.unidirectional) = st.(Stream.unidirectional)
  /\ st'.(Stream.max_stream_data_remote) = st.(Stream.max_stream_data_remote).

Lemma send_ready_all st data x st' :
  st.(Stream.next_send_offset) + len data <= st.(Stream.max_stream_data_remote) ->
  Stream.send_ready st data = Ok (x, st') ->
  x = (st.(Stream.next_send_offset), data) /\ advanced st st' data.
Proof.
  intros Hc. unfold Stream.send_ready. case_match; [done|]. cbv zeta.
  rewrite N.min_l by (unfold saturating_sub; lia). intros [= <- <-]. split; [|by split_and!].
  f_equal. apply take_ge. unfold len. lia.
Qed.

Section Exchange.

Context {C D : Type} {CC : CongestionController C} {CD : CongestionController D}.
Context {PR : Primitives} {PL : PrimitiveLaws}.

Lemma send_stream_data_frame (a : Session.t C) id st data fin payload a1 :
  a.(Session.streams) !! id = Some st ->
  st.(Stream.next_send_offset) + len data <= st.(Stream.max_stream_data_remote) ->
  send_stream_data id data fin a = (Ok payload, a1) ->
  encode_frames [Frame.Stream (data_frame id st data fin)] = Ok payload
  /\ exists st', a1 = a <| Session.streams := <[id := st']> a.(Session.streams) |> /\ advanced st st' data.
Proof.
  intros Hst Hc. unfold send_stream_data. unfold_m. rewrite Hst.
  destruct (Stream.send_ready st data) as [[[offset chunk] st']|] eqn:Er; [|done].
  apply send_ready_all in Er as [Hx Ha]; [|done]. injection Hx as -> ->.
  rewrite N.eqb_refl, andb_true_r. destruct Ha as (H1 & H2 & H3 & H4). rewrite H2, H3, data_frame_encode.
  change (Varint.encode_into [] FrameType.STREAM) with (Ok [FrameType.STREAM] : Result Varint.EncodeError (list u8)).
  cbv iota. destruct (StreamFrame.encode _) as [enc|] eqn:Ee; [|done]. intros [= <- <-]. split.
  - simpl. rewrite Ee. unfold mbind, Result_bind. rewrite app_nil_r. f_equal. symmetry.
    by apply stream_encode_typed in Ee.
  - exists st'. by split_and!.
Qed.

(** ** The receiver *)

(** What a stream that has nothing buffered needs to take the next byte. *)
Record idle (r st : Stream.t) : Prop := {
  idle_buffer : r.(Stream.buffered) = [] /\ r.(Stream.buffered_bytes) = 0;
  idle_offset : r.(Stream.next_deliver_offset) = st.(Stream.next_send_offset);
  idle_open : r.(Stream.final_size) = None /\ r.(Stream.recv_state) = Recv;
  idle_credit : st.(Stream.max_stream_data_remote) <= r.(Stream.max_stream_data_local)
}.

Lemma idle_receive (r st : Stream.t) (data : list u8) (fin : bool) :
  idle r st -> st.(Stream.next_send_offset) + len data <= st.(Stream.max_stream_data_remote) ->
  st.(Stream.max_stream_data_remote) <= u64_max -> len data <= MAX_OUT_OF_ORDER_BYTES ->
  exists r1, Stream.receive r st.(Stream.next_send_offset) data fin = (Ok (len data), r1)
  /\ r1 = Stream.set_recv r Recv (if fin then Some (st.(Stream.next_send_offset) + len data) else None)
            (if decide (data = []) then [] else [(st.(Stream.next_send_offset), data)]) (len data)
            st.(Stream.next_send_offset).
Proof.
  intros [[Hb Hbb] Ho [Hf Hr] Hc] Hcr Hm Hl. set (o := st.(Stream.next_send_offset)) in *.
  unfold Stream.receive. rewrite (proj2 (checked_add_Some o (len data) (o + len data))) by (split; [done|lia]).
  assert (Hseg : forall s, s.(Stream.buffered) = [] -> s.(Stream.buffered_bytes) = 0 ->
    s.(Stream.next_deliver_offset) = o -> s.(Stream.max_stream_data_local) = r.(Stream.max_stream_data_local) ->
    (s.(Stream.final_size) = None \/ s.(Stream.final_size) = Some (o + len data)) ->
    Stream.buffer_segment s o data (o + len data)
    = (Ok (len data), Stream.set_recv s s.(Stream.recv_state) s.(Stream.final_size)
         (if decide (data = []) then [] else [(o, data)]) (len data) o)).
  { intros s E1 E2 E3 E4 E5. unfold Stream.buffer_segment.
    assert (match s.(Stream.final_size) with Some fs => fs <? o + len data | None => false end = false) as ->.
    { destruct E5 as [-> | ->]; [done|apply N.ltb_irrefl]. }
    rewrite E3, E4, E1, (proj2 (N.ltb_ge _ _)) by lia. destruct (decide (data = [])) as [->|Hne].
    - rewrite (proj2 (N.leb_le _ _)) by (rewrite len_nil; lia). f_equal. destruct s; simpl in *. by subst.
    - assert (0 < len data) by (destruct data; [done|rewrite len_cons; lia]).
      rewrite (proj2 (N.leb_gt _ _)) by lia. simpl. rewrite N.ltb_irrefl, E2. unfold saturating_add.
      rewrite N.add_0_l, N.min_l by (unfold MAX_OUT_OF_ORDER_BYTES, u64_max in *; lia).
      by rewrite (proj2 (N.ltb_ge _ _)) by lia. }
  destruct fin; rewrite ?Hf.
  - rewrite Hseg by (simpl; auto). eexists. split; [done|]. simpl. by rewrite Hr.
  - rewrite Hseg by auto. eexists. split; [done|]. by rewrite Hr, Hf.
Qed.

Lemma idle_read (r st : Stream.t) (data : list u8) (fin : bool) :
  idle r st -> st.(Stream.next_send_offset) + len data <= st.(Stream.max_stream_data_remote) ->
  st.(Stream.max_stream_data_remote) <= u64_max ->
  let o := st.(Stream.next_send_offset) in
  Stream.read_available
    (Stream.set_recv r Recv (if fin then Some (o + len data) else None)
       (if decide (data = []) then [] else [(o, data)]) (len data) o)
  = ((data, fin),
     Stream.set_recv r (if fin then DataRead else Recv) (if fin then Some (o + len data) else None) [] 0
       (o + len data)).
Proof.
  intros _ Hc Hm o. unfold Stream.read_available. simpl. destruct (decide (data = [])) as [->|Hne]; simpl.
  - rewrite len_nil, N.add_0_r. destruct fin; by rewrite ?N.eqb_refl.
  - rewrite N.eqb_refl. simpl. rewrite app_nil_r. unfold saturating_sub, saturating_add.
    rewrite N.sub_diag, N.min_l by lia. destruct fin; by rewrite ?N.eqb_refl.
Qed.

(** The receiver's record of the stream, as far as the sender's is concerned. *)
Record matching (r st : Stream.t) : Prop := {
  match_idle : idle r st;
  match_kind : r.(Stream.unidirectional) = st.(Stream.unidirectional);
  match_protocol : r.(Stream.protocol_id) = st.(Stream.protocol_id) /\ r.(Stream.metadata) = []
}.

(** The receiving session is ready for the next byte of the sender's stream:
    it has the stream, or can open it at the first byte. *)
Record receiving (b : Session.t D) (id : u64) (st : Stream.t) : Prop := {
  rc_valid : validate_stream_id id (N.land id 1) st.(Stream.unidirectional) = true;
  rc_closed : ClosedStreamRegistry.contains b.(Session.closed_streams) id = false;
  rc_stream :
    match b.(Session.streams) !! id with
    | Some r =>
        matching r st /\ (st.(Stream.next_send_offset) <> 0 -> r.(Stream.recv_opened) = true)
        /\ (N.land id 1 = local_initiator b.(Session.role) -> r.(Stream.unidirectional) = false)
    | None =>
        st.(Stream.next_send_offset) = 0 /\ N.land id 1 <> local_initiator b.(Session.role)
        /\ N.of_nat (size b.(Session.streams)) < MAX_STREAMS_PER_SESSION
        /\ st.(Stream.max_stream_data_remote) <= b.(Session.default_max_stream_data)
    end
}.

Lemma land_1_bit id : N.land id 1 = 0 \/ N.land id 1 = 1.
Proof.
  assert (N.land id 1 = id mod 2) as -> by (change 1 with (N.ones 1); apply N.land_ones). lia.
Qed.

Lemma check_passes b id st data fin :
  receiving b id st -> check_stream_id (data_frame id st data fin) b = (Ok tt, b).
Proof.
  intros [Hv _ Hs]. unfold check_stream_id. unfold_m. simpl.
  rewrite Hv. simpl. destruct (b.(Session.streams) !! id) as [r|].
  - destruct Hs as (Hm & _ & Hl). rewrite (match_kind _ _ Hm) in *. rewrite eqb_reflx. simpl.
    destruct (N.eqb_spec (N.land id 1) (1 - match b.(Session.role) with Client => 1 | Server => 0 end)) as [He|He];
      [|done].
    rewrite Hl; [done|]. by destruct b.(Session.role).
  - destruct Hs as (_ & Hl & _). destruct (land_1_bit id) as [E|E]; rewrite E in *; by destruct b.(Session.role).
Qed.

Lemma enter_passes b id st data fin :
  receiving b id st ->
  exists r b1, enter_stream (data_frame id st data fin) b = (Ok r, b1)
  /\ matching r st /\ r.(Stream.recv_opened) = true
  /\ (N.land id 1 = local_initiator b.(Session.role) -> r.(Stream.unidirectional) = false)
  /\ b1.(Session.flow) = b.(Session.flow) /\ b1.(Session.closed_streams) = b.(Session.closed_streams)
  /\ b1.(Session.role) = b.(Session.role).
Proof.
  intros [Hv Hc Hs]. unfold enter_stream, set_stream, is_open. unfold_m. simpl. rewrite Hc. simpl.
  destruct (b.(Session.streams) !! id) as [r|] eqn:Er.
  - destruct Hs as (Hm & Ho & Hl). pose proof Hm as [Hi Hk [Hp Hmd]]. rewrite Hk in Hl.
    rewrite Hk, eqb_reflx. simpl.
    destruct (N.eqb_spec st.(Stream.next_send_offset) 0) as [E0|E0].
    + rewrite Hp, Hmd, !bool_decide_eq_true_2 by done. simpl. do 2 eexists. split; [done|]. simpl.
      split_and!; try done. destruct Hi. by constructor; [constructor|..].
    + rewrite (Ho E0). simpl. do 2 eexists. split; [done|]. rewrite Hk. by split_and!; auto.
  - destruct Hs as (H0 & Hl & Hz & Hd). simpl.
    rewrite (proj2 (N.leb_gt _ _)), H0 by done. simpl. do 2 eexists. split; [done|]. simpl.
    split_and!; done.
Qed.

(** The receiver's stream once the frame is applied. *)
Definition holding (r st : Stream.t) (data : list u8) (fin : bool) : Stream.t :=
  let o := st.(Stream.next_send_offset) in
  Stream.set_recv r Recv (if fin then Some (o + len data) else None)
    (if decide (data = []) then [] else [(o, data)]) (len data) o.

Lemma apply_data_frame b id st data fin :
  receiving b id st ->
  st.(Stream.next_send_offset) + len data <= st.(Stream.max_stream_data_remote) <= u64_max ->
  len data <= MAX_OUT_OF_ORDER_BYTES ->
  b.(Session.flow).(FlowControl.consumed) + len data <= b.(Session.flow).(FlowControl.max_data_local) <= u64_max ->
  exists r b', apply_stream_frame (data_frame id st data fin) b = (Ok tt, b')
  /\ matching r st /\ r.(Stream.recv_opened) = true
  /\ (N.land id 1 = local_initiator b.(Session.role) -> r.(Stream.unidirectional) = false)
  /\ b'.(Session.streams) !! id = Some (holding r st data fin)
  /\ b'.(Session.closed_streams) = b.(Session.closed_streams) /\ b'.(Session.role) = b.(Session.role).
Proof.
  intros Hrc Hcr Hl Hfl. destruct (enter_passes b id st data fin Hrc) as (r & b1 & He & Hm & Ho & Hu & Hf & Hcl & Hr).
  destruct (idle_receive r st data fin (match_idle _ _ Hm) (proj1 Hcr) (proj2 Hcr) Hl) as (r1 & Hrec & ->).
  assert (Hcons : exists flow, FlowControl.consume b1.(Session.flow) (len data) = Ok flow).
  { rewrite Hf. eexists. apply consume_Ok. split; [lia|done]. }
  destruct Hcons as [flow Hcons].
  unfold apply_stream_frame, set_stream. unfold_m. rewrite (check_passes b id st data fin Hrc), He.
  destruct (idle_open _ _ (match_idle _ _ Hm)) as [_ Hst]. rewrite Hst. simpl. rewrite Hrec. simpl.
  rewrite Hcons. exists r. eexists. split; [done|]. simpl. rewrite lookup_insert_eq. by split_and!.
Qed.

(** ** The packet *)

(** The parts of a session the streams live in. *)
Definition same_tables (b b' : Session.t D) : Prop :=
  b'.(Session.streams) = b.(Session.streams) /\ b'.(Session.flow) = b.(Session.flow)
  /\ b'.(Session.closed_streams) = b.(Session.closed_streams) /\ b'.(Session.role) = b.(Session.role)
  /\ b'.(Session.default_max_stream_data) = b.(Session.default_max_stream_data).

#[global] Instance same_tables_preorder : PreOrder same_tables.
Proof. split; [by intros b|]. intros x y z (? & ? & ? & ? & ?) (? & ? & ? & ? & ?). split_and!; congruence. Qed.

Lemma same_tables_receiving b b' id st : same_tables b b' -> receiving b id st -> receiving b' id st.
Proof. intros (H1 & H2 & H3 & H4 & H5) [Hv Hc Hs]. constructor; rewrite ?H1, ?H3, ?H4, ?H5; done. Qed.

Lemma admit_packet_tables space path pn now bytes : respects same_tables (admit_packet space path pn now bytes).
Proof. unfold admit_packet. respect ltac:(done). Qed.

Lemma acknowledge_tables space p : respects same_tables (acknowledge space p).
Proof. unfold acknowledge. respect ltac:(done). Qed.

Lemma apply_packet_data b id st data fin path pn now bytes b1 :
  receiving b id st ->
  st.(Stream.next_send_offset) + len data <= st.(Stream.max_stream_data_remote) <= u64_max ->
  len data <= MAX_OUT_OF_ORDER_BYTES ->
  b.(Session.flow).(FlowControl.consumed) + len data <= b.(Session.flow).(FlowControl.max_data_local) <= u64_max ->
  admit_packet PacketSpace.SessionData path pn now bytes b = (Ok tt, b1) ->
  let b' := (apply_packet path pn now bytes [Frame.Stream (data_frame id st data fin)] b).2 in
  exists r, matching r st /\ r.(Stream.recv_opened) = true
  /\ (N.land id 1 = local_initiator b.(Session.role) -> r.(Stream.unidirectional) = false)
  /\ b'.(Session.streams) !! id = Some (holding r st data fin)
  /\ b'.(Session.closed_streams) = b.(Session.closed_streams) /\ b'.(Session.role) = b.(Session.role).
Proof.
  intros Hrc Hcr Hl Hfl Ha. pose proof (admit_packet_tables PacketSpace.SessionData path pn now bytes b) as Ht.
  rewrite Ha in Ht. simpl in Ht. set (b2 := touch now b1).
  assert (Ht2 : same_tables b b2) by (etransitivity; [exact Ht|done]).
  destruct (apply_data_frame b2 id st data fin) as (r & b3 & H1 & H2 & H3 & H4 & H5 & H6 & H7);
    [by eapply same_tables_receiving|done|done|by destruct Ht2 as (_ & -> & _)|].
  destruct Ht2 as (_ & _ & Hc2 & Hr2 & _).
  assert (He : apply_packet path pn now bytes [Frame.Stream (data_frame id st data fin)] b
               = acknowledge PacketSpace.SessionData [] b3).
  { unfold apply_packet. unfold_m. rewrite Ha. cbn [apply_frames apply_frame existsb is_padding negb orb].
    unfold_m. fold b2. by rewrite H1. }
  rewrite He. destruct (acknowledge_tables PacketSpace.SessionData [] b3) as (E1 & _ & E3 & E4 & _).
  exists r. rewrite E1, E3, E4. split_and!; try done; try congruence. by rewrite <- Hr2.
Qed.

Lemma read_stream_holding (b : Session.t D) id r st data fin :
  matching r st -> b.(Session.streams) !! id = Some (holding r st data fin) ->
  st.(Stream.next_send_offset) + len data <= st.(Stream.max_stream_data_remote) <= u64_max ->
  exists b', read_stream id b = (Ok (data, fin), b')
  /\ b'.(Session.streams) !! id
     = Some (Stream.set_recv r (if fin then DataRead else Recv)
               (if fin then Some (st.(Stream.next_send_offset) + len data) else None) [] 0
               (st.(Stream.next_send_offset) + len data))
  /\ (fin = false -> b'.(Session.closed_streams) = b.(Session.closed_streams)) /\ b'.(Session.role) = b.(Session.role).
Proof.
  intros Hm Hs Hc. pose proof (idle_read r st data fin (match_idle _ _ Hm) (proj1 Hc) (proj2 Hc)) as Hr.
  cbv zeta in Hr. fold (holding r st data fin) in Hr. unfold read_stream. unfold_m. rewrite Hs.
  replace (Stream.recv_state (holding r st data fin)) with Recv by done. rewrite Hr. cbv iota beta.
  destruct (len data =? 0), fin; eexists; (split; [reflexivity|]); simpl; rewrite lookup_insert_eq; by split_and!.
Qed.

(** C1: The bytes handed to one session come out of the other: the data passed to
    [send_stream_data], sealed in a packet, received and read at the peer, is
    returned by [read_stream] unchanged with its end-of-stream mark, on a new
    stream or an open one, whenever the stream's and the session's credit cover
    it and the packet number is admitted; afterwards the two ends are in step for
    the next piece. *)
Theorem stream_delivered (a a1 a2 : Session.t C) (b b1 : Session.t D) id st data fin payload path now at_ pkt :
  session_ok a -> linked a b -> a.(Session.streams) !! id = Some st -> receiving b id st ->
  st.(Stream.next_send_offset) + len data <= st.(Stream.max_stream_data_remote) <= u64_max ->
  len data <= MAX_OUT_OF_ORDER_BYTES ->
  b.(Session.flow).(FlowControl.consumed) + len data <= b.(Session.flow).(FlowControl.max_data_local) <= u64_max ->
  expected_pn b PacketSpace.SessionData <= MAX_PACKET_NUMBER - 2 ^ 15 ->
  abs_diff (next_pn a) (expected_pn b PacketSpace.SessionData) < 2 ^ 15 ->
  send_stream_data id data fin a = (Ok payload, a1) ->
  build_outbound_inner path now payload a1 = (Ok (Some pkt), a2) ->
  admit_packet PacketSpace.SessionData path (next_pn a) at_ pkt b = (Ok tt, b1) ->
  exists b3, read_stream id (on_inbound at_ pkt b).2 = (Ok (data, fin), b3)
  /\ (fin = false -> exists st', a1.(Session.streams) !! id = Some st' /\ receiving b3 id st').
Proof.
  intros Hok Hlk Hst Hrc Hcr Hl Hfl Hx Hd Hsend Hbuild Hadm.
  pose proof (send_stream_data_ok id data fin a Hok) as Hok1. rewrite Hsend in Hok1. simpl in Hok1.
  apply (send_stream_data_frame a id st) in Hsend as (Henc & st' & -> & Hadv); [|done|lia].
  assert (Hu32 : len data <= u32_max) by (unfold MAX_OUT_OF_ORDER_BYTES, u32_max in *; lia).
  rewrite (link_applies (a <| Session.streams := <[id := st']> a.(Session.streams) |>) b
             [Frame.Stream (data_frame id st data fin)] payload path now at_ pkt a2); try done; cycle 1.
  { constructor; [|constructor]. by apply data_frame_delimited. }
  { by repeat constructor. }
  destruct (apply_packet_data b id st data fin path (next_pn a) at_ pkt b1)
    as (r & Hm & Ho & Hu & Hs & Hc & Hr); [done..|].
  change (next_pn (a <| Session.streams := <[id := st']> a.(Session.streams) |>)) with (next_pn a).
  destruct (read_stream_holding _ id r st data fin Hm Hs) as (b3 & E1 & E2 & E3 & E4); [done|].
  exists b3. split; [done|]. intros ->. exists st'. split; [apply lookup_insert_eq|].
  destruct Hrc as [Hv Hcl _]. destruct Hadv as (A1 & A2 & A3 & A4). constructor.
  - by rewrite A3.
  - by rewrite E3, Hc.
  - rewrite E2, E4, Hr. destruct Hm as [[_ _ _ Hcred] Hk [Hp Hmd]]. simpl. rewrite Ho. split_and!; try done.
    + constructor; simpl; [|congruence|by rewrite A2]. constructor; simpl; [done|done|done|]. by rewrite A4.
Qed.

End Exchange.

(** The client opens a stream and sends two bytes on it. *)
Definition value {A} (d : A) (r : Result Stop A) : A :=
  match r with
  | Ok x => x
  | Err _ => d
  end.

Lemma stream_delivered_witness :
  exists a b, session_new sample_client 0 = Ok a /\ session_new sample_server 0 = Ok b
  /\ exists payload a1 pkt a2 b3,
     send_stream_data 0 [72; 105] false (open_stream_kind false a).2 = (Ok payload, a1)
     /\ build_outbound_inner 0 5 payload a1 = (Ok (Some pkt), a2)
     /\ read_stream 0 (on_inbound 9 pkt b).2 = (Ok ([72; 105], false), b3).
Proof.
  destruct (session_new sample_server 0) as [b|e] eqn:Eb; [|by vm_compute in Eb].
  destruct (session_new sample_client 0) as [a0|e] eqn:Ea; [|by vm_compute in Ea].
  exists a0, b. split; [done|]. split; [done|]. set (a := (open_stream_kind false a0).2).
  assert (Hok : session_ok a) by by apply (open_stream_kind_ok false), (session_new_ok sample_client 0).
  set (m := send_stream_data 0 [72; 105] false). set (n := build_outbound_inner 0 5 (value [] (m a).1) (m a).2).
  set (pkt := default [] (value None n.1)).
  assert (Hlk : linked a b)
    by (clear Hok; revert Ea Eb; intros [= <-] [= <-]; split; vm_compute; reflexivity).
  assert (H1 : (a.(Session.streams) !! 0 = Some (Stream.new 0 [] 4096))
    /\ m a = (Ok (value [] (m a).1), (m a).2) /\ n = (Ok (Some pkt), n.2)
    /\ admit_packet PacketSpace.SessionData 0 0 9 pkt b
       = (Ok tt, (admit_packet PacketSpace.SessionData 0 0 9 pkt b).2) /\ next_pn a = 0).
  { clear Hok Hlk. revert Ea Eb. intros [= <-] [= <-]. split_and!; vm_compute; reflexivity. }
  assert (Hx : expected_pn b PacketSpace.SessionData = 1 /\ b.(Session.role) = Server
    /\ b.(Session.streams) = ∅ /\ b.(Session.closed_streams) = ClosedStreamRegistry.default
    /\ b.(Session.default_max_stream_data) = 4096 /\ b.(Session.flow).(FlowControl.consumed) = 0
    /\ b.(Session.flow).(FlowControl.max_data_local) = 65536).
  { clear Hok Hlk H1. revert Eb. intros [= <-]. split_and!; vm_compute; reflexivity. }
  destruct H1 as (S1 & S2 & S3 & S4 & S5), Hx as (X1 & X2 & X3 & X4 & X5 & X6 & X7).
  generalize dependent pkt. intros pkt S3 S4. unfold n in S3. clear n. unfold m in *. clear m.
  clearbody a. clear Ea Eb.
  generalize dependent (admit_packet PacketSpace.SessionData 0 0 9 pkt b).2. intros b1 S4.
  destruct (send_stream_data 0 [72; 105] false a) as [r1 a1] eqn:E1. simpl in S2, S3. injection S2 as E2.
  destruct (build_outbound_inner 0 5 (value [] r1) a1) as [r2 a2] eqn:E3. injection S3 as ->.
  rewrite E2 in E1.
  destruct (stream_delivered a a1 a2 b b1 0 (Stream.new 0 [] 4096) [72; 105] false (value [] r1) 0 5 9 pkt)
    as (b3 & H3 & _); try done.
  - constructor; rewrite ?X4; [done|done|]. rewrite X3, lookup_empty, X2, X5.
    by split_and!; [done|done|rewrite map_size_empty|].
  - by rewrite X6, X7.
  - by rewrite X1.
  - by rewrite X1, S5.
  - by rewrite S5.
  - exists (value [] r1), a1, pkt, a2, b3. rewrite E2. split; [done|]. split; [exact E3|exact H3].
Defined.
