(* ===== verification/SessionLimits.v ===== *)
(** * The session object: life cycle, limits and accounting
      (crates/umc-session/src/session.rs)

    What never goes back, what a session that is no longer active does, what
    bytes that are not authentic can do to it, the limit of streams, and the
    account of a reset stream. *)

From S2P Require Import Prelude Records FramesStream Frame Header Packet Crypto ProtectedPacket Pn Spaces Stream Congestion Flow Cids Reset SessionState SessionOps SessionInbound SessionRules SessionRun SessionTrace SessionInvariant SessionSafety SessionGates.

#[local] Open Scope N_scope.

Section Limits.

Context {C : Type} {CC : CongestionController C} {PR : Primitives} {E : Type} {ES : EntropySource E}.
Implicit Types s : Session.t C.

(** What never goes back: over any calls the role and the packet keys of a
    session stay what they were (key updates included), its life cycle only
    advances, the end of draining is fixed once set, streams are never removed,
    and packet numbers, replay windows, credit, consumption and migration
    sequence only grow. *)
Theorem session_evolves s (os : list (op E)) : evolves s (session_run s os).
Proof. apply session_run_evolves. Qed.

(** ** Silence *)

Lemma build_outbound_inactive path now payload s :
  s.(Session.state) <> Active -> build_outbound_inner path now payload s = (Ok None, s).
Proof. intros Hs. rewrite build_outbound_run. by rewrite bool_decide_eq_false_2. Qed.

Lemma emitted_inactive s (o : op E) : s.(Session.state) <> Active -> emitted s o = None.
Proof.
  intros Hs. unfold emitted. destruct o; try done; simpl.
  - by rewrite build_outbound_inactive.
  - unfold retransmit. unfold_m. destruct (s.(Session.retransmit_payloads) !! pn); [|done].
    by rewrite build_outbound_inactive.
Qed.

Lemma inactive_step s (o : op E) : s.(Session.state) <> Active -> (session_step s o).(Session.state) <> Active.
Proof.
  intros Hs Ha. pose proof (ev_state _ _ (session_step_evolves s o)) as Hr. rewrite Ha in Hr.
  destruct s.(Session.state); simpl in Hr; [done|lia..].
Qed.

(** A session that drains or is closed never sends again: whatever calls
    follow, retransmissions included, no packet is handed out. *)
Theorem silent_after_close s (os : list (op E)) : s.(Session.state) <> Active -> packets s os = [].
Proof.
  revert s. induction os as [|o os IH]; intros s Hs; [done|]. simpl. rewrite emitted_inactive by done.
  by apply IH, inactive_step.
Qed.

(** ** Bytes that are not authentic *)

(** A packet that does not open under the session's keys changes nothing, unless
    its last bytes are the token of a stateless reset, which closes the session
    and changes nothing else. *)
Theorem inbound_unauthentic s now bytes e :
  parse_protected_packet s.(Session.remote_keys) s.(Session.remote_hp_key)
    (expected_pn s PacketSpace.SessionData) bytes = Err e ->
  on_inbound now bytes s =
  match s.(Session.stateless_reset_secret) with
  | Some secret =>
      if token_matches bytes (reset_token secret)
      then (Err (Throw StatelessReset), s <| Session.state := Closed |>)
      else (Err (Throw (PacketErr e)), s)
  | None => (Err (Throw (PacketErr e)), s)
  end.
Proof.
  intros Hp. unfold on_inbound. unfold mbind at 1, M_bind at 1, gets. cbv beta iota zeta.
  unfold id at 1 2 3. rewrite Hp. unfold refuse_packet. unfold_m. by repeat case_match.
Qed.

(** ** The limit of streams *)

Lemma streams_grow s s' : evolves s s' -> (size s.(Session.streams) <= size s'.(Session.streams))%nat.
Proof.
  intros Hev. rewrite <- !size_dom. apply subseteq_size. intros id. rewrite !elem_of_dom. apply (ev_streams _ _ Hev).
Qed.

(** The limit of streams is a limit for the life of the session: nothing ever
    leaves the table, so once 1024 streams have been opened by either side every
    later open is refused, whatever was closed, read to its end or reset. *)
Theorem stream_limit_for_life s (os : list (op E)) u :
  MAX_STREAMS_PER_SESSION <= N.of_nat (size s.(Session.streams)) ->
  open_stream_kind u (session_run s os) = (Err (Throw StreamLimit), session_run s os).
Proof.
  intros Hn. pose proof (streams_grow _ _ (session_run_evolves s os)). rewrite open_stream_kind_run.
  by rewrite (proj2 (N.leb_le _ _)) by lia.
Qed.

(** ** The account of a reset stream *)

(** A RESET_STREAM that is consistent with its stream. *)
Definition reset_consistent s (f : ResetStreamFrame.t) (st : Stream.t) : Prop :=
  ClosedStreamRegistry.contains s.(Session.closed_streams) f.(ResetStreamFrame.stream_id) = false
  /\ s.(Session.streams) !! f.(ResetStreamFrame.stream_id) = Some st
  /\ Stream.max_received_offset st <= f.(ResetStreamFrame.final_size)
  /\ (st.(Stream.final_size) = None \/ st.(Stream.final_size) = Some f.(ResetStreamFrame.final_size)).

Lemma apply_reset_run s f st :
  reset_consistent s f st ->
  let id := f.(ResetStreamFrame.stream_id) in
  let done flow s :=
    s <| Session.flow := flow |>
      <| Session.streams :=
          <[id := st <| Stream.recv_state := ResetRecvd |>
                     <| Stream.reset_error_code := Some f.(ResetStreamFrame.app_error_code) |>]>
          s.(Session.streams) |>
      <| Session.stream_consumed := delete id s.(Session.stream_consumed) |>
      <| Session.stream_app_consumed := delete id s.(Session.stream_app_consumed) |> in
  let marked := s <| Session.reset_final_sizes := {[id]} ∪ s.(Session.reset_final_sizes) |> in
  apply_reset_stream f s =
  if bool_decide (id ∈ s.(Session.reset_final_sizes)) then (Ok tt, done s.(Session.flow) s)
  else
    match FlowControl.consume s.(Session.flow) f.(ResetStreamFrame.final_size) with
    | Ok flow => (Ok tt, done flow marked)
    | Err e => (Err (Throw (FlowErr e)), marked)
    end.
Proof.
  intros (H1 & H2 & H3 & H4). cbv zeta. unfold apply_reset_stream, set_stream. unfold_m. rewrite H1, H2.
  rewrite (proj2 (N.ltb_ge _ _)) by done.
  assert (match st.(Stream.final_size) with
          | Some known => negb (known =? f.(ResetStreamFrame.final_size))
          | None => false
          end = false) as -> by (destruct H4 as [-> | ->]; by rewrite ?N.eqb_refl).
  case_bool_decide; simpl; [by destruct s|]. by destruct (FlowControl.consume _ _).
Qed.

(** A first RESET_STREAM adds its whole final size to the bytes consumed,
    whatever of the stream was counted when it was received; one that the credit
    does not cover is refused and leaves the account alone, but its repetition is
    then accepted without being accounted. *)
Theorem reset_accounting s f st :
  reset_consistent s f st ->
  f.(ResetStreamFrame.stream_id) ∉ s.(Session.reset_final_sizes) ->
  let flow := s.(Session.flow) in
  let n := f.(ResetStreamFrame.final_size) in
  let r := apply_reset_stream f s in
  (flow.(FlowControl.consumed) + n <= N.min flow.(FlowControl.max_data_local) u64_max ->
   r.1 = Ok tt /\ r.2.(Session.flow).(FlowControl.consumed) = flow.(FlowControl.consumed) + n)
  /\ (N.min flow.(FlowControl.max_data_local) u64_max < flow.(FlowControl.consumed) + n ->
      (exists e, r.1 = Err (Throw (FlowErr e))) /\ r.2.(Session.flow) = flow
      /\ (apply_reset_stream f r.2).1 = Ok tt /\ (apply_reset_stream f r.2).2.(Session.flow) = flow).
Proof.
  intros Hc Hin flow n r. pose proof (apply_reset_run s f st Hc) as Hr. cbv zeta in Hr.
  rewrite bool_decide_eq_false_2 in Hr by done. fold r n flow in Hr. split; intros Hn.
  - rewrite (proj2 (consume_Ok _ _ _) (conj Hn eq_refl)) in Hr. by rewrite Hr.
  - destruct (FlowControl.consume flow n) as [flow'|e] eqn:Ef; [apply consume_Ok in Ef; lia|].
    set (s1 := s <| Session.reset_final_sizes := _ |>) in Hr.
    assert (H2 := apply_reset_run s1 f st Hc). cbv zeta in H2.
    rewrite bool_decide_eq_true_2 in H2 by (simpl; set_solver). rewrite Hr. cbn [fst snd]. rewrite H2.
    split_and!; eauto.
Qed.

End Limits.

(** ** Witnesses *)

Lemma silent_after_close_witness :
  exists s, session_new sample_client 0 = Ok s
  /\ packets (close 3 s) [BuildOutbound (E := N) 0 5 [4]; FinalizeClose; Retransmit 0 9] = [].
Proof.
  destruct (session_new sample_client 0) as [s|e] eqn:Es; [|by vm_compute in Es].
  exists s. split; [done|]. apply silent_after_close. revert Es. intros [= <-]. vm_compute. discriminate.
Defined.

Lemma inbound_unauthentic_witness :
  exists s, session_new sample_server 0 = Ok s
  /\ on_inbound 7 [1; 2; 3] s = (Err (Throw (PacketErr (BuildHeader ReservedBits))), s).
Proof.
  destruct (session_new sample_server 0) as [s|e] eqn:Es; [|by vm_compute in Es].
  exists s. split; [done|]. rewrite (inbound_unauthentic s 7 [1; 2; 3] (BuildHeader ReservedBits)).
  - by revert Es; intros [= <-].
  - revert Es. intros [= <-]. vm_compute. reflexivity.
Defined.

(** A table of 1024 streams. *)
Definition sample_full : gmap u64 Stream.t :=
  list_to_map ((fun k => (N.of_nat k, Stream.new (N.of_nat k) [] 0)) <$> seq 0 1024).

Lemma stream_limit_for_life_witness :
  exists s, session_new sample_client 0 = Ok s
  /\ let full := s <| Session.streams := sample_full |> in
     open_stream_kind true (session_run (E := N) full [ReadStream 4; FinalizeClose])
     = (Err (Throw StreamLimit), session_run (E := N) full [ReadStream 4; FinalizeClose]).
Proof.
  destruct (session_new sample_client 0) as [s|e] eqn:Es; [|by vm_compute in Es].
  exists s. split; [done|]. intros full. apply stream_limit_for_life. vm_compute. discriminate.
Defined.

Lemma reset_accounting_witness :
  exists s, session_new sample_client 0 = Ok s
  /\ let s1 := (open_stream_kind false s).2 in
     let r := apply_reset_stream (ResetStreamFrame.mk 0 7 65536) s1 in
     r.1 = Ok tt /\ r.2.(Session.flow).(FlowControl.consumed) = 65536.
Proof.
  destruct (session_new sample_client 0) as [s|e] eqn:Es; [|by vm_compute in Es].
  exists s. split; [done|]. revert Es. intros [= <-]. intros s1.
  apply (proj1 (reset_accounting s1 (ResetStreamFrame.mk 0 7 65536) (Stream.new 0 [] 4096)
           ltac:(repeat split; [vm_compute; discriminate|by left]) ltac:(vm_compute; set_solver))).
  vm_compute. discriminate.
Defined.
