(* ===== verification/BTree.v ===== *)
(** * Ordered maps

    Rust's [BTreeMap<u64, V>] as the list of its bindings in the order of their
    keys, which is the order it is visited in. *)

From stdpp Require Import list.
From Stdlib Require Import Sorting.Sorted.
From S2P Require Import Prelude.

#[local] Open Scope N_scope.

Module BTree.
Section BTree.
Context {V : Type}.

#[local] Abbreviation t := (list (u64 * V)).

Fixpoint get (m : t) (k : u64) : option V :=
  match m with
  | [] => None
  | (k', v) :: m => if k =? k' then Some v else get m k
  end.

Fixpoint insert (m : t) (k : u64) (v : V) : t :=
  match m with
  | [] => [(k, v)]
  | (k', v') :: m' =>
      match k ?= k' with
      | Lt => (k, v) :: m
      | Eq => (k, v) :: m'
      | Gt => (k', v') :: insert m' k v
      end
  end.

Definition remove (m : t) (k : u64) : t := filter (fun b => b.1 <> k) m.

(** [get_mut(&k)] and a change of the value. *)
Definition alter (f : V -> V) (m : t) (k : u64) : t :=
  map (fun b => if b.1 =? k then (b.1, f b.2) else b) m.

Definition keys (m : t) : list u64 := map fst m.

Definition ok (m : t) : Prop := StronglySorted N.lt (keys m).

Lemma ok_cons k v m : ok ((k, v) :: m) <-> ok m /\ Forall (N.lt k) (keys m).
Proof.
  unfold ok. simpl. split.
  - by apply StronglySorted_inv.
  - intros [H1 H2]. by constructor.
Qed.

Lemma get_Some_in m k v : get m k = Some v -> (k, v) ∈ m.
Proof.
  induction m as [|[k' v'] m IH]; simpl; [done|]. destruct (N.eqb_spec k k') as [->|].
  - intros [= ->]. apply elem_of_cons. by left.
  - intros H. apply elem_of_cons. right. auto.
Qed.

Lemma get_keys m k : is_Some (get m k) <-> k ∈ keys m.
Proof.
  induction m as [|[k' v'] m IH]; simpl; [split; [intros [? ?]; done|intros H; by apply elem_of_nil in H]|].
  rewrite elem_of_cons. destruct (N.eqb_spec k k') as [->|Hne]; [split; [by left|by intros _; eexists]|].
  rewrite IH. naive_solver.
Qed.

Lemma get_None_keys m k : get m k = None <-> k ∉ keys m.
Proof. rewrite <- get_keys. apply eq_None_not_Some. Qed.

Lemma in_get m k v : ok m -> (k, v) ∈ m -> get m k = Some v.
Proof.
  induction m as [|[k' v'] m IH]; intros Hok Hin; [by apply elem_of_nil in Hin|].
  apply ok_cons in Hok as [Hok Hlt]. simpl. apply elem_of_cons in Hin as [[= <- <-]|Hin].
  - by rewrite N.eqb_refl.
  - rewrite list.Forall_forall in Hlt.
    assert (k' < k) by (apply Hlt; unfold keys; apply (list_elem_of_fmap_2 fst _ _ Hin)).
    destruct (N.eqb_spec k k'); [lia|]. auto.
Qed.

Lemma get_insert m k v k' : get (insert m k v) k' = if k' =? k then Some v else get m k'.
Proof.
  induction m as [|[k1 v1] m IH]; simpl; [done|].
  destruct (N.compare_spec k k1) as [->|Hlt|Hgt]; simpl.
  - by destruct (k' =? k1).
  - done.
  - rewrite IH. destruct (N.eqb_spec k' k1), (N.eqb_spec k' k); try done. lia.
Qed.

Lemma get_remove m k k' : get (remove m k) k' = if k' =? k then None else get m k'.
Proof.
  unfold remove. induction m as [|[k1 v1] m IH]; [by destruct (k' =? k)|].
  destruct (decide (k1 = k)) as [->|Hne].
  - rewrite filter_cons_False by (simpl; tauto). rewrite IH. simpl. by destruct (k' =? k).
  - rewrite filter_cons_True by done. simpl. rewrite IH.
    destruct (N.eqb_spec k' k1), (N.eqb_spec k' k); try done. lia.
Qed.

Lemma keys_insert m k v x : x ∈ keys (insert m k v) <-> x = k \/ x ∈ keys m.
Proof. rewrite <- !get_keys, get_insert. destruct (N.eqb_spec x k); naive_solver. Qed.

Lemma insert_ok m k v : ok m -> ok (insert m k v).
Proof.
  induction m as [|[k' v'] m IH]; intros Hok; simpl; [by repeat constructor|].
  apply ok_cons in Hok as [Hok Hlt]. destruct (N.compare_spec k k') as [->|Hlt'|Hgt].
  - by apply ok_cons.
  - apply ok_cons. split; [by apply ok_cons|]. constructor; [done|].
    eapply list.Forall_impl; [exact Hlt|]. simpl. lia.
  - apply ok_cons. split; [auto|]. apply list.Forall_forall. intros x [->|Hx]%keys_insert; [done|].
    rewrite list.Forall_forall in Hlt. auto.
Qed.

Lemma remove_ok m k : ok m -> ok (remove m k).
Proof.
  unfold remove. induction m as [|[k' v'] m IH]; intros Hok; [done|]. apply ok_cons in Hok as [Hok Hlt].
  destruct (decide (k' = k)) as [->|Hne].
  - rewrite filter_cons_False by (simpl; tauto). auto.
  - rewrite filter_cons_True by done. apply ok_cons. split; [auto|].
    rewrite list.Forall_forall in *. intros x Hx. apply Hlt. unfold keys in *.
    apply list_elem_of_fmap in Hx as (b & -> & [_ Hb]%list_elem_of_filter). by apply list_elem_of_fmap_2.
Qed.

Lemma length_insert m k v : get m k = None -> length (insert m k v) = S (length m).
Proof.
  induction m as [|[k' v'] m IH]; simpl; [done|]. destruct (N.compare_spec k k') as [->|Hlt|Hgt].
  - by rewrite N.eqb_refl.
  - done.
  - destruct (N.eqb_spec k k'); [lia|]. intros H. simpl. by rewrite IH.
Qed.

Lemma length_remove m k v : ok m -> get m k = Some v -> S (length (remove m k)) = length m.
Proof.
  unfold remove. induction m as [|[k' v'] m IH]; intros Hok; simpl; [done|]. apply ok_cons in Hok as [Hok Hlt].
  destruct (N.eqb_spec k k') as [->|Hne].
  - intros _. rewrite filter_cons_False by (simpl; tauto). f_equal.
    assert (filter (fun b : u64 * V => b.1 <> k') m = m) as ->; [|done].
    rewrite list.Forall_forall in Hlt. clear -Hlt. induction m as [|[k v] m IH]; [done|].
    rewrite filter_cons_True.
    + rewrite IH; [done|]. intros x Hx. apply Hlt. simpl. apply elem_of_cons. by right.
    + simpl. assert (k' < k); [|lia]. apply Hlt. simpl. apply elem_of_cons. by left.
  - intros H. rewrite filter_cons_True by (simpl; congruence). simpl. f_equal. auto.
Qed.

Lemma keys_alter f m k : keys (alter f m k) = keys m.
Proof. unfold keys, alter. rewrite map_map. apply map_ext. intros [k' v]. simpl. by destruct (k' =? k). Qed.

Lemma get_alter f m k k' : get (alter f m k) k' = if k' =? k then f <$> get m k' else get m k'.
Proof.
  induction m as [|[k1 v1] m IH]; simpl; [by destruct (k' =? k)|].
  destruct (N.eqb_spec k1 k) as [->|Hne]; simpl.
  - rewrite IH. by destruct (N.eqb_spec k' k).
  - rewrite IH. destruct (N.eqb_spec k' k1), (N.eqb_spec k' k); try done. lia.
Qed.

(** Two ordered maps, one with all bindings of the other. *)
Lemma sub_sublist m m' : ok m -> ok m' -> (forall b, b ∈ m -> b ∈ m') -> m `sublist_of` m'.
Proof.
  revert m. induction m' as [|[k v] m' IH]; intros m Hm Hm' Hsub.
  - destruct m as [|b m]; [done|]. exfalso. eapply not_elem_of_nil, Hsub, elem_of_cons. by left.
  - apply ok_cons in Hm' as [Hm' Hlt]. destruct m as [|[k1 v1] m]; [apply sublist_nil_l|].
    pose proof Hm as [Hm1 Hlt1]%ok_cons. rewrite list.Forall_forall in Hlt, Hlt1.
    assert (forall b, b ∈ m -> k1 < b.1) as Hgt
      by (intros b Hb; apply Hlt1; by apply (list_elem_of_fmap_2 fst)).
    assert (forall b, b ∈ m' -> k < b.1) as Hgt'
      by (intros b Hb; apply Hlt; by apply (list_elem_of_fmap_2 fst)).
    pose proof (Hsub (k1, v1) (list_elem_of_here _ _)) as [[= -> ->]|Hin]%elem_of_cons.
    + apply sublist_skip, IH; [done|done|]. intros b Hb.
      pose proof (Hgt b Hb). pose proof (Hsub b (list_elem_of_further _ _ _ Hb)) as [->|]%elem_of_cons; simpl in *; [lia|done].
    + apply sublist_cons, IH; [done|done|]. intros b Hb. pose proof (Hgt' _ Hin).
      pose proof (Hsub b Hb) as [->|]%elem_of_cons; [|done]. exfalso.
      apply elem_of_cons in Hb as [[= -> ->]|Hb]; simpl in *; [lia|]. pose proof (Hgt _ Hb). simpl in *. lia.
Qed.

Lemma elem_of_insert m k v b :
  ok m -> get m k = None -> b ∈ insert m k v <-> b = (k, v) \/ b ∈ m.
Proof.
  intros Hm Hk. induction m as [|[k' v'] m IH]; simpl; [by rewrite elem_of_cons, elem_of_nil|].
  simpl in Hk. apply ok_cons in Hm as [Hm _]. destruct (N.compare_spec k k') as [->|Hlt|Hgt].
  - by rewrite N.eqb_refl in Hk.
  - by rewrite elem_of_cons.
  - destruct (N.eqb_spec k k'); [lia|]. rewrite !elem_of_cons, IH by done. naive_solver.
Qed.

End BTree.
Abbreviation t V := (list (u64 * V)).

End BTree.
