(* ===== verification/Sorting.v ===== *)
(** * Orders and stable sorting

    Rust's [Ord] as a comparison function with its laws, the lexicographic
    orders that tuples, byte strings and booleans carry, and the stable sort
    that [sort_by_key] is. *)

From S2P Require Import Prelude.
From Stdlib Require Import Sorting.Sorted.

(** ** Orders *)

(** What [Ord] promises: [cmp y x] is the reverse of [cmp x y], and each of the
    three outcomes composes with itself. *)
Class Ordered {A} (cmp : A -> A -> comparison) : Prop := {
  cmp_flip x y : cmp y x = CompOpp (cmp x y);
  cmp_trans r x y z : cmp x y = r -> cmp y z = r -> cmp x z = r
}.

Definition then_with (c d : comparison) : comparison :=
  match c with
  | Eq => d
  | _ => c
  end.

Definition bool_cmp (a b : bool) : comparison :=
  match a, b with
  | false, true => Lt
  | true, false => Gt
  | _, _ => Eq
  end.

Fixpoint bytes_cmp (a b : list u8) : comparison :=
  match a, b with
  | [], [] => Eq
  | [], _ :: _ => Lt
  | _ :: _, [] => Gt
  | x :: a, y :: b => then_with (x ?= y) (bytes_cmp a b)
  end.

(** Two orders one after the other, and an order seen through a key. *)
Definition pair_cmp {A B} (ca : A -> A -> comparison) (cb : B -> B -> comparison) (p q : A * B)
    : comparison :=
  then_with (ca p.1 q.1) (cb p.2 q.2).

Definition key_cmp {A K} (c : K -> K -> comparison) (key : A -> K) (x y : A) : comparison :=
  c (key x) (key y).

Section Ordered.
Context {A : Type} (cmp : A -> A -> comparison) `{!Ordered cmp}.

Lemma cmp_refl x : cmp x x = Eq.
Proof. pose proof (cmp_flip x x) as H. by destruct (cmp x x). Qed.

(** An outcome composes with equality on either side. *)
Lemma cmp_Eq_l x y z : cmp x y = Eq -> cmp x z = cmp y z.
Proof.
  intros E. assert (E' : cmp y x = Eq) by (rewrite cmp_flip, E; done).
  destruct (cmp y z) eqn:F.
  - by eapply cmp_trans.
  - destruct (cmp x z) eqn:G; [|done|].
    + by rewrite (cmp_trans Eq y x z E' G) in F.
    + assert (cmp z x = Lt) as G' by (rewrite cmp_flip, G; done).
      by rewrite (cmp_trans Lt y z x F G') in E'.
  - destruct (cmp x z) eqn:G; [| |done].
    + by rewrite (cmp_trans Eq y x z E' G) in F.
    + assert (cmp z x = Gt) as G' by (rewrite cmp_flip, G; done).
      by rewrite (cmp_trans Gt y z x F G') in E'.
Qed.

Lemma cmp_Eq_r x y z : cmp y z = Eq -> cmp x z = cmp x y.
Proof.
  intros E. assert (cmp z y = Eq) as E' by (rewrite cmp_flip, E; done).
  by rewrite (cmp_flip (cmp:=cmp) z x), (cmp_Eq_l z y x E'), <- cmp_flip.
Qed.

Definition cmp_le (x y : A) : Prop := cmp x y <> Gt.

#[global] Instance cmp_le_preorder : PreOrder cmp_le.
Proof.
  split; unfold cmp_le.
  - intros x. by rewrite cmp_refl.
  - intros x y z Hxy Hyz. destruct (cmp x y) eqn:E; [| |done].
    + by rewrite (cmp_Eq_l x y z E).
    + destruct (cmp y z) eqn:F; [| |done].
      * by rewrite (cmp_Eq_r x y z F), E.
      * by rewrite (cmp_trans Lt x y z E F).
Qed.

Lemma cmp_le_total x y : cmp_le x y \/ cmp_le y x.
Proof. unfold cmp_le. rewrite (cmp_flip (cmp:=cmp) x y). by destruct (cmp x y); [left|left|right]. Qed.

End Ordered.

Lemma then_with_Eq c d : then_with c d = Eq <-> c = Eq /\ d = Eq.
Proof. destruct c, d; simpl; naive_solver. Qed.

Lemma then_with_opp c d : CompOpp (then_with c d) = then_with (CompOpp c) (CompOpp d).
Proof. by destruct c. Qed.

#[global] Instance N_ordered : Ordered N.compare.
Proof.
  split.
  - intros x y. apply N.compare_antisym.
  - intros [] x y z H H'; rewrite ?N.compare_eq_iff, ?N.compare_lt_iff, ?N.compare_gt_iff in *; lia.
Qed.

#[global] Instance bool_ordered : Ordered bool_cmp.
Proof. split; [by intros [] []|]. by intros r [] [] [] H H'; simpl in *; subst. Qed.

#[global] Instance key_ordered {A K} (c : K -> K -> comparison) (key : A -> K) `{!Ordered c} :
  Ordered (key_cmp c key).
Proof.
  split; unfold key_cmp; intros.
  - apply cmp_flip.
  - by eapply cmp_trans.
Qed.

(** The composite step of the two lexicographic orders. *)
Lemma then_with_trans {A B} (ca : A -> A -> comparison) (cb : B -> B -> comparison)
    `{!Ordered ca} r x y z (x' y' z' : B) :
  (cb x' y' = r -> cb y' z' = r -> cb x' z' = r) ->
  then_with (ca x y) (cb x' y') = r -> then_with (ca y z) (cb y' z') = r ->
  then_with (ca x z) (cb x' z') = r.
Proof.
  intros Hb H1 H2. destruct (ca x y) eqn:E.
  - rewrite (cmp_Eq_l ca x y z E). destruct (ca y z); simpl in *; auto.
  - simpl in H1. subst r. destruct (ca y z) eqn:F; simpl in *; [| |done].
    + by rewrite (cmp_Eq_r ca x y z F), E.
    + by rewrite (cmp_trans Lt x y z E F).
  - simpl in H1. subst r. destruct (ca y z) eqn:F; simpl in *; [|done|].
    + by rewrite (cmp_Eq_r ca x y z F), E.
    + by rewrite (cmp_trans Gt x y z E F).
Qed.

#[global] Instance pair_ordered {A B} (ca : A -> A -> comparison) (cb : B -> B -> comparison)
    `{!Ordered ca, !Ordered cb} : Ordered (pair_cmp ca cb).
Proof.
  split; unfold pair_cmp.
  - intros x y. by rewrite then_with_opp, (cmp_flip (cmp:=ca) x.1), (cmp_flip (cmp:=cb) x.2).
  - intros r x y z. apply then_with_trans; [done|]. by apply cmp_trans.
Qed.

#[global] Instance bytes_ordered : Ordered bytes_cmp.
Proof.
  split.
  - induction x as [|x a IH]; intros [|y b]; simpl; try done.
    by rewrite then_with_opp, IH, <- N.compare_antisym.
  - intros r x. induction x as [|x a IH]; intros [|y b] [|z c]; simpl; try congruence.
    apply (then_with_trans N.compare bytes_cmp). apply IH.
Qed.

(** ** The stable sort *)

Section Sort.
Context {A : Type} (cmp : A -> A -> comparison).

(** [x] goes before the first element it does not exceed. *)
Fixpoint insert_sorted (x : A) (l : list A) : list A :=
  match l with
  | [] => [x]
  | y :: l =>
      match cmp x y with
      | Gt => y :: insert_sorted x l
      | _ => x :: y :: l
      end
  end.

(** [l.sort_by(cmp)]; [l.sort_by_key(key)] is [sort_by (key_cmp cmp key) l]. *)
Fixpoint sort_by (l : list A) : list A :=
  match l with
  | [] => []
  | x :: l => insert_sorted x (sort_by l)
  end.

Lemma insert_sorted_perm x l : insert_sorted x l ≡ₚ x :: l.
Proof.
  induction l as [|y l IH]; simpl; [done|].
  destruct (cmp x y); [done|done|]. rewrite IH. apply Permutation_swap.
Qed.

Lemma sort_by_perm l : sort_by l ≡ₚ l.
Proof. induction l as [|x l IH]; simpl; [done|]. by rewrite insert_sorted_perm, IH. Qed.

Context `{!Ordered cmp}.

Lemma insert_sorted_sorted x l :
  StronglySorted (cmp_le cmp) l -> StronglySorted (cmp_le cmp) (insert_sorted x l).
Proof.
  induction 1 as [|y l Hl IH Hy]; simpl; [by repeat constructor|].
  destruct (cmp x y) eqn:E.
  3: { constructor; [done|]. rewrite insert_sorted_perm. constructor; [|done].
       unfold cmp_le. by rewrite cmp_flip, E. }
  all: constructor; [by constructor|]; constructor; [by unfold cmp_le; rewrite E|].
  all: eapply list.Forall_impl; [exact Hy|]; intros z Hz; etransitivity; [|exact Hz].
  all: unfold cmp_le; by rewrite E.
Qed.

Lemma sort_by_sorted l : StronglySorted (cmp_le cmp) (sort_by l).
Proof. induction l as [|x l IH]; simpl; [constructor|]. by apply insert_sorted_sorted. Qed.

(** The head of a sorted list is a least element. *)
Lemma sorted_head_least x l y :
  StronglySorted (cmp_le cmp) (x :: l) -> y ∈ x :: l -> cmp_le cmp x y.
Proof.
  intros Hs Hy. apply elem_of_cons in Hy as [->|Hy]; [done|].
  apply StronglySorted_inv in Hs as [_ Hs]. rewrite list.Forall_forall in Hs. auto.
Qed.

(** What a cut of a sorted list keeps does not exceed what it drops. *)
Lemma sorted_take_drop n l x y :
  StronglySorted (cmp_le cmp) l -> x ∈ take n l -> y ∈ drop n l -> cmp_le cmp x y.
Proof.
  intros Hs. revert n. induction Hs as [|z l Hl IH Hz]; intros [|n]; simpl; try by intros H%elem_of_nil.
  intros [->|Hx]%elem_of_cons Hy; [|by eapply IH].
  rewrite list.Forall_forall in Hz. apply Hz. rewrite <- (take_drop n l). apply elem_of_app. by right.
Qed.

(** Elements that compare equal keep their order: on any class of pairwise
    equal elements sorting does nothing. *)
Lemma sort_by_stable (P : A -> Prop) `{!∀ x, Decision (P x)} l :
  (forall x y, P x -> P y -> cmp x y = Eq) -> filter P (sort_by l) = filter P l.
Proof.
  intros HP. assert (Hi : forall x k, filter P (insert_sorted x k) = filter P (x :: k)).
  { intros x k. induction k as [|y k IH]; simpl; [done|].
    destruct (cmp x y) eqn:E; [done|done|]. rewrite !filter_cons, IH, filter_cons.
    destruct (decide (P x)) as [Hx|Hx], (decide (P y)) as [Hy|Hy]; try done.
    by rewrite (HP x y Hx Hy) in E. }
  induction l as [|x l IH]; simpl; [done|]. rewrite Hi, !filter_cons, IH. done.
Qed.

End Sort.
