(* ===== verification/RouteTypes.v ===== *)
(** * Route records (crates/umc-routing/src/types.rs) and their metadata fields *)

From stdpp Require Import countable.
From S2P Require Import Prelude SentPackets Records.

Definition MAX_HOP_LIMIT : u64 := 32.
Definition DEFAULT_FANOUT : usize := 3.
Definition MAX_FANOUT : usize := 8.
Definition MAX_REQUEST_LIFETIME_MS : u64 := 5 * 60 * 1000.
Definition MAX_RESPONSES_PER_BRANCH : usize := 8.

Module RouteState.

Inductive t := Candidate | Probing | Usable | Degraded | Failed | Expired | Retired.

#[global] Instance eq_dec : EqDecision t.
Proof. solve_decision. Defined.

End RouteState.

Module RouteScope.

Inductive t := LinkLocal | LocalMesh | Introduced | General.

#[global] Instance eq_dec : EqDecision t.
Proof. solve_decision. Defined.

Definition rank (scope : t) : u8 :=
  match scope with
  | LinkLocal => 0
  | LocalMesh => 1
  | Introduced => 2
  | General => 3
  end.

Definition narrows_to (self other : t) : bool := rank other <=? rank self.

#[global] Instance rank_inj : Inj (=) (=) rank.
Proof. by intros [] []. Qed.

#[global] Instance countable : Countable t :=
  inj_countable rank
    (fun n => head (filter (fun s => rank s = n) [LinkLocal; LocalMesh; Introduced; General]))
    (fun s => match s with LinkLocal | LocalMesh | Introduced | General => eq_refl end).

End RouteScope.

Module RouteKey.

Record t := mk {
  destination_profile : u8;
  destination_hash : list u8;
  scope : RouteScope.t;
  policy_class : u8
}.

#[global] Instance eq_dec : EqDecision t.
Proof. solve_decision. Defined.

#[global] Program Instance countable : Countable t :=
  inj_countable'
    (fun k => (k.(destination_profile), k.(destination_hash), k.(scope), k.(policy_class)))
    (fun '(p, h, s, c) => mk p h s c) _.
Next Obligation. by intros []. Qed.

End RouteKey.

(** A [String] is its UTF-8 bytes. *)
Module RouteRecord.

Record t := mk {
  key : RouteKey.t;
  state : RouteState.t;
  next_hop : list u8;
  carrier_type : option (list u8);
  metadata : list u8;
  source_peer : list u8;
  created_at : Instant;
  expires_at : Instant;
  last_success : option Instant;
  last_failure : option Instant;
  failure_count : u64;
  scope : RouteScope.t
}.

#[global] Instance eq_dec : EqDecision t.
Proof. solve_decision. Defined.

Definition is_expired (self : t) (now : Instant) : bool := self.(expires_at) <=? now.

Definition mark (self : t) (st : RouteState.t) (now : Instant) : t :=
  match st with
  | RouteState.Usable => self <| last_success := Some now |> <| failure_count := 0 |> <| state := st |>
  | RouteState.Failed =>
      self <| last_failure := Some now |> <| failure_count := self.(failure_count) + 1 |> <| state := st |>
  | _ => self <| state := st |>
  end.

Definition cap_expiry (self : t) (evidence_expiry : Instant) : t :=
  if evidence_expiry <? self.(expires_at) then self <| expires_at := evidence_expiry |> else self.

Lemma cap_expiry_expires_at self e : (cap_expiry self e).(expires_at) = N.min e self.(expires_at).
Proof. unfold cap_expiry. destruct (N.ltb_spec e self.(expires_at)); simpl; lia. Qed.

Lemma cap_expiry_frame self e :
  let r := cap_expiry self e in
  r.(key) = self.(key) /\ r.(next_hop) = self.(next_hop) /\ r.(state) = self.(state).
Proof. unfold cap_expiry. by destruct (_ <? _). Qed.

Lemma mark_frame self st now :
  let r := mark self st now in
  r.(key) = self.(key) /\ r.(next_hop) = self.(next_hop) /\ r.(expires_at) = self.(expires_at) /\
  r.(state) = st.
Proof. by destruct st. Qed.

End RouteRecord.

(** ** Metadata fields

    NUL-separated [key=value] fields; the first field with the key counts. *)

(** [l.split(|byte| *byte == 0)]. *)
Fixpoint split_nul (l : list u8) : list (list u8) :=
  match l with
  | [] => [[]]
  | b :: l =>
      if b =? 0 then [] :: split_nul l
      else match split_nul l with
           | [] => [[b]]
           | f :: fs => (b :: f) :: fs
           end
  end.

Definition strip_prefix (key field : list u8) : option (list u8) :=
  if decide (take (length key) field = key) then Some (drop (length key) field) else None.

Fixpoint find_map {A B} (f : A -> option B) (l : list A) : option B :=
  match l with
  | [] => None
  | x :: l =>
      match f x with
      | Some y => Some y
      | None => find_map f l
      end
  end.

Definition metadata_value (metadata key : list u8) : option (list u8) :=
  find_map (strip_prefix key) (split_nul metadata).
