(* ===== verification/RouteCache.v ===== *)
(** * The route cache (crates/umc-routing/src/cache.rs)

    Bounded lists of route records per destination, and the selection of
    failover candidates from them. *)

From Stdlib Require Import Strings.String Sorting.Sorted.
From stdpp Require Import gmap.
From S2P Require Import Prelude SentPackets Records Crypto RouteTypes Sorting.

#[local] Open Scope N_scope.

Module RouteCache.

Record t := mk {
  by_key : gmap RouteKey.t (list RouteRecord.t);
  max_per_key : usize;
  max_lifetime : Duration
}.

Definition new (max_per_key : usize) (max_lifetime : Duration) : t := mk ∅ max_per_key max_lifetime.

Definition state_rank (r : RouteRecord.t) : N :=
  match r.(RouteRecord.state) with
  | RouteState.Usable => 0
  | RouteState.Candidate => 1
  | RouteState.Probing => 2
  | RouteState.Degraded => 3
  | RouteState.Failed => 4
  | _ => 5
  end.

Definition live (now : Instant) (r : RouteRecord.t) : Prop := RouteRecord.is_expired r now = false.

#[global] Instance live_dec now r : Decision (live now r).
Proof. unfold live. apply _. Defined.

(** [self.by_key.entry(key).or_default()]. *)
Definition entries (c : t) (k : RouteKey.t) : list RouteRecord.t := default [] (c.(by_key) !! k).

Definition insert (c : t) (record : RouteRecord.t) (now : Instant) : t :=
  let record := RouteRecord.cap_expiry record (instant_add now c.(max_lifetime)) in
  let key := record.(RouteRecord.key) in
  let kept := filter (fun r => live now r /\ r.(RouteRecord.next_hop) <> record.(RouteRecord.next_hop))
                     (entries c key) in
  let sorted := sort_by (key_cmp N.compare state_rank) (kept ++ [record]) in
  c <| by_key := <[key := take (N.to_nat c.(max_per_key)) sorted]> c.(by_key) |>.

Definition candidates (c : t) (key : RouteKey.t) (now : Instant) : list RouteRecord.t :=
  match c.(by_key) !! key with
  | Some es => filter (live now) es
  | None => []
  end.

(** The key [sort_by_key] orders candidates by, compared component by component. *)
Definition usefulness (r : RouteRecord.t) : bool * (u64 * (u64 * list u8)) :=
  (negb (bool_decide (r.(RouteRecord.state) = RouteState.Usable)),
   (r.(RouteRecord.failure_count),
    (default 0 r.(RouteRecord.last_failure), r.(RouteRecord.next_hop)))).

Definition by_usefulness : RouteRecord.t -> RouteRecord.t -> comparison :=
  key_cmp (pair_cmp bool_cmp (pair_cmp N.compare (pair_cmp N.compare bytes_cmp))) usefulness.

#[global] Instance by_usefulness_ordered : Ordered by_usefulness.
Proof. unfold by_usefulness. apply _. Qed.

Definition ranked_candidates (c : t) (key : RouteKey.t) (now : Instant) : list RouteRecord.t :=
  sort_by by_usefulness (candidates c key now).

Definition domain_of (r : RouteRecord.t) : list u8 :=
  default (bstr "unknown"%string) (metadata_value r.(RouteRecord.metadata) (bstr "domain="%string)).

(** The first loop: one candidate per failure domain. *)
Fixpoint pick_domains (maximum : usize) (ranked selected : list RouteRecord.t)
    (domains : list (list u8)) : list RouteRecord.t :=
  match ranked with
  | [] => selected
  | candidate :: ranked =>
      if len selected =? maximum then selected
      else
        let domain := domain_of candidate in
        if decide (domain ∈ domains) then pick_domains maximum ranked selected domains
        else pick_domains maximum ranked (selected ++ [candidate]) (domains ++ [domain])
  end.

(** The second loop: further first hops while there is room. *)
Fixpoint fill_up (maximum : usize) (ranked selected : list RouteRecord.t) : list RouteRecord.t :=
  match ranked with
  | [] => selected
  | candidate :: ranked =>
      if len selected =? maximum then selected
      else if existsb (fun chosen => bool_decide (chosen.(RouteRecord.next_hop) = candidate.(RouteRecord.next_hop)))
                      selected
      then fill_up maximum ranked selected
      else fill_up maximum ranked (selected ++ [candidate])
  end.

Definition diverse_candidates (c : t) (key : RouteKey.t) (now : Instant) (maximum : usize)
    : list RouteRecord.t :=
  let maximum := N.min maximum c.(max_per_key) in
  if maximum =? 0 then []
  else
    let ranked := ranked_candidates c key now in
    let selected := pick_domains maximum ranked [] [] in
    if len selected <? maximum then fill_up maximum ranked selected else selected.

(** [iter_mut().find(..)]: the first record with the hop is marked. *)
Fixpoint mark_first (es : list RouteRecord.t) (next_hop : list u8) (now : Instant)
    : option (list RouteRecord.t) :=
  match es with
  | [] => None
  | r :: es =>
      if decide (r.(RouteRecord.next_hop) = next_hop)
      then Some (RouteRecord.mark r RouteState.Failed now :: es)
      else cons r <$> mark_first es next_hop now
  end.

Definition mark_failure (c : t) (key : RouteKey.t) (next_hop : list u8) (now : Instant) : bool * t :=
  match c.(by_key) !! key with
  | None => (false, c)
  | Some es =>
      match mark_first es next_hop now with
      | None => (false, c)
      | Some es => (true, c <| by_key := <[key := es]> c.(by_key) |>)
      end
  end.

Definition remove (c : t) (key : RouteKey.t) : t := c <| by_key := delete key c.(by_key) |>.

Definition evict_expired (c : t) (now : Instant) : t :=
  c <| by_key := omap (fun es => let es := filter (live now) es in
                                 match es with [] => None | _ => Some es end) c.(by_key) |>.

Definition count (c : t) : usize := map_fold (fun _ es n => len es + n) 0 c.(by_key).

Definition is_empty (c : t) : bool := bool_decide (c.(by_key) = ∅).

(** ** The invariant *)

Definition hops (es : list RouteRecord.t) : list (list u8) := RouteRecord.next_hop <$> es.

(** Per destination: no more records than allowed, all of that destination,
    through distinct first hops, none outliving [horizon]. *)
Record bucket_ok (max : usize) (horizon : Instant) (k : RouteKey.t) (es : list RouteRecord.t) : Prop := {
  bucket_bounded : len es <= max;
  bucket_keyed : Forall (fun r => r.(RouteRecord.key) = k) es;
  bucket_distinct : NoDup (hops es);
  bucket_expiry : Forall (fun r => r.(RouteRecord.expires_at) <= horizon) es
}.

Definition cache_ok (c : t) (horizon : Instant) : Prop :=
  map_Forall (bucket_ok c.(max_per_key) horizon) c.(by_key).

Inductive op :=
| Insert (record : RouteRecord.t) (now : Instant)
| MarkFailure (key : RouteKey.t) (next_hop : list u8) (now : Instant)
| Remove (key : RouteKey.t)
| EvictExpired (now : Instant).

Definition step (c : t) (o : op) : t :=
  match o with
  | Insert record now => insert c record now
  | MarkFailure key next_hop now => (mark_failure c key next_hop now).2
  | Remove key => remove c key
  | EvictExpired now => evict_expired c now
  end.

(** The operation happens no later than [now]. *)
Definition not_after (now : Instant) (o : op) : Prop :=
  match o with
  | Insert _ at_ => at_ <= now
  | _ => True
  end.

Lemma entries_bucket c horizon k :
  cache_ok c horizon -> bucket_ok c.(max_per_key) horizon k (entries c k).
Proof.
  intros Hc. unfold entries. destruct (c.(by_key) !! k) as [es|] eqn:E; simpl.
  - by apply (Hc k es).
  - split; [rewrite len_nil; lia|constructor|constructor|constructor].
Qed.

Lemma hops_filter_NoDup es P `{!∀ r, Decision (P r)} : NoDup (hops es) -> NoDup (hops (filter P es)).
Proof.
  intros Hd. eapply sublist_NoDup; [exact Hd|]. by apply fmap_sublist, sublist_filter.
Qed.

Lemma Forall_filter_keep {A} (Q P : A -> Prop) `{!∀ x, Decision (P x)} (l : list A) :
  Forall Q l -> Forall Q (filter P l).
Proof. rewrite !list.Forall_forall. intros HQ x [_ Hx]%list_elem_of_filter. auto. Qed.

Lemma bucket_filter max h k es (P : RouteRecord.t -> Prop) `{!∀ r, Decision (P r)} :
  bucket_ok max h k es -> bucket_ok max h k (filter P es).
Proof.
  intros [Hb Hk Hd He]. split.
  - unfold len in *. pose proof (length_filter P es). lia.
  - by apply Forall_filter_keep.
  - by apply hops_filter_NoDup.
  - by apply Forall_filter_keep.
Qed.

Lemma bucket_perm max h k es es' :
  es ≡ₚ es' -> bucket_ok max h k es -> bucket_ok max h k es'.
Proof.
  intros Hp [Hb Hk Hd He]. split.
  - unfold len in *. by rewrite <- Hp.
  - by rewrite <- Hp.
  - unfold hops. by rewrite <- Hp.
  - by rewrite <- Hp.
Qed.

Lemma bucket_later max h h' k es : h <= h' -> bucket_ok max h k es -> bucket_ok max h' k es.
Proof.
  intros Hh [Hb Hk Hd He]. split; [done|done|done|].
  eapply list.Forall_impl; [exact He|]. simpl. intros r Hr. lia.
Qed.

(** The list [insert] sorts and cuts. *)
Definition inserted (c : t) (record : RouteRecord.t) (now : Instant) : list RouteRecord.t :=
  let record := RouteRecord.cap_expiry record (instant_add now c.(max_lifetime)) in
  filter (fun r => live now r /\ r.(RouteRecord.next_hop) <> record.(RouteRecord.next_hop))
         (entries c record.(RouteRecord.key)) ++ [record].

Lemma insert_entries c record now :
  entries (insert c record now) record.(RouteRecord.key) =
  take (N.to_nat c.(max_per_key)) (sort_by (key_cmp N.compare state_rank) (inserted c record now)).
Proof.
  unfold insert, inserted, entries. simpl.
  destruct (RouteRecord.cap_expiry_frame record (instant_add now c.(max_lifetime))) as (Hk & _).
  by rewrite Hk, lookup_insert_eq.
Qed.

Lemma insert_other c record now k :
  k <> record.(RouteRecord.key) -> entries (insert c record now) k = entries c k.
Proof.
  intros Hne. unfold insert, entries. simpl.
  destruct (RouteRecord.cap_expiry_frame record (instant_add now c.(max_lifetime))) as (Hk & _).
  by rewrite Hk, lookup_insert_ne.
Qed.

Lemma inserted_shape c record now h :
  cache_ok c h -> instant_add now c.(max_lifetime) <= h ->
  let es := inserted c record now in
  Forall (fun r => r.(RouteRecord.key) = record.(RouteRecord.key)) es /\ NoDup (hops es) /\
  Forall (fun r => r.(RouteRecord.expires_at) <= h) es.
Proof.
  intros Hc Hh. unfold inserted. set (r := RouteRecord.cap_expiry _ _).
  destruct (RouteRecord.cap_expiry_frame record (instant_add now c.(max_lifetime))) as (Hk & Hn & _).
  fold r in Hk, Hn. pose proof (entries_bucket c h (RouteRecord.key r) Hc) as Hes.
  apply (bucket_filter c.(max_per_key) h _ _ (fun r0 => live now r0 /\ RouteRecord.next_hop r0 <> RouteRecord.next_hop r))
    in Hes as [_ Hek Hed Hee].
  rewrite Hk in Hek, Hed, Hee |- *. cbn zeta. rewrite !Forall_app. repeat split; try done.
  - by constructor.
  - unfold hops in *. rewrite fmap_app. apply list.NoDup_app. split; [done|]. split; [|simpl; apply NoDup_singleton].
    intros x [r' [-> Hr']]%list_elem_of_fmap Hx. simpl in Hx. apply list_elem_of_singleton in Hx.
    apply list_elem_of_filter in Hr' as [[_ Hne] _]. done.
  - constructor; [|constructor]. unfold r. rewrite RouteRecord.cap_expiry_expires_at. lia.
Qed.

Lemma cut_bucket max h k es n :
  Forall (fun r => r.(RouteRecord.key) = k) es -> NoDup (hops es) ->
  Forall (fun r => r.(RouteRecord.expires_at) <= h) es -> n = N.to_nat max ->
  bucket_ok max h k (take n es).
Proof.
  intros Hk Hd He ->. split.
  - unfold len. rewrite length_take. lia.
  - by apply Forall_take.
  - eapply sublist_NoDup; [exact Hd|]. apply fmap_sublist, sublist_take.
  - by apply Forall_take.
Qed.

Lemma insert_bucket_ok c record now h :
  cache_ok c h -> instant_add now c.(max_lifetime) <= h -> cache_ok (insert c record now) h.
Proof.
  intros Hc Hh. destruct (inserted_shape c record now h Hc Hh) as (Hk & Hd & He).
  unfold cache_ok. simpl. apply map_Forall_insert_2; [|exact Hc].
  destruct (RouteRecord.cap_expiry_frame record (instant_add now c.(max_lifetime))) as (Hkey & _).
  rewrite Hkey. pose proof (sort_by_perm (key_cmp N.compare state_rank) (inserted c record now)) as Hp.
  unfold inserted in Hp. cbn zeta in Hp. rewrite Hkey in Hp.
  unfold inserted in Hk, Hd, He. cbn zeta in Hk, Hd, He. rewrite Hkey in Hk, Hd, He.
  apply cut_bucket; [by rewrite Hp|unfold hops; by rewrite Hp|by rewrite Hp|done].
Qed.

Lemma mark_first_shape es hop now es' :
  mark_first es hop now = Some es' ->
  Forall2 (fun r r' => r'.(RouteRecord.key) = r.(RouteRecord.key) /\
                       r'.(RouteRecord.next_hop) = r.(RouteRecord.next_hop) /\
                       r'.(RouteRecord.expires_at) = r.(RouteRecord.expires_at)) es es'.
Proof.
  revert es'. induction es as [|r es IH]; intros es'; simpl; [done|].
  case_decide.
  - intros [= <-]. constructor; [by destruct (RouteRecord.mark_frame r RouteState.Failed now) as (?&?&?&_)|].
    clear IH. induction es; constructor; auto.
  - intros (es0 & H0 & ->)%fmap_Some. constructor; auto.
Qed.

Lemma bucket_Forall2 max h k es es' :
  Forall2 (fun r r' => r'.(RouteRecord.key) = r.(RouteRecord.key) /\
                       r'.(RouteRecord.next_hop) = r.(RouteRecord.next_hop) /\
                       r'.(RouteRecord.expires_at) = r.(RouteRecord.expires_at)) es es' ->
  bucket_ok max h k es -> bucket_ok max h k es'.
Proof.
  intros H2 [Hb Hk Hd He].
  assert (hops es' = hops es) as Hh.
  { clear -H2. induction H2 as [|r r' es es' (_ & E & _) _ IH]; simpl; [done|]. by rewrite E, IH. }
  split.
  - unfold len in *. by rewrite <- (Forall2_length H2).
  - clear -H2 Hk. induction H2 as [|r r' es es' (E & _) _ IH]; [constructor|].
    inversion Hk; subst. constructor; [congruence|auto].
  - by rewrite Hh.
  - clear -H2 He. induction H2 as [|r r' es es' (_ & _ & E) _ IH]; [constructor|].
    inversion He; subst. constructor; [by rewrite E|auto].
Qed.

Lemma step_ok c o h now :
  cache_ok c h -> not_after now o -> instant_add now c.(max_lifetime) <= h -> cache_ok (step c o) h.
Proof.
  intros Hc Ho Hh. destruct o as [record at_|key hop at_|key|at_]; simpl in *.
  - apply insert_bucket_ok; [done|]. unfold instant_add, saturating_add in *. lia.
  - unfold mark_failure. destruct (c.(by_key) !! key) as [es|] eqn:E; [|done].
    destruct (mark_first es hop at_) as [es'|] eqn:E'; [|done]. simpl.
    unfold cache_ok. simpl. apply map_Forall_insert_2; [|exact Hc].
    eapply bucket_Forall2; [by eapply mark_first_shape|]. by apply (Hc key es).
  - by apply map_Forall_delete.
  - intros k es Hes. simpl in Hes. rewrite lookup_omap in Hes.
    apply bind_Some in Hes as (es0 & E & Hf). pose proof (Hc k es0 E) as Hb.
    apply (bucket_filter c.(max_per_key) h k es0 (live at_)) in Hb.
    by destruct (filter (live at_) es0); [|injection Hf as <-].
Qed.

Lemma step_static c o : (step c o).(max_per_key) = c.(max_per_key) /\ (step c o).(max_lifetime) = c.(max_lifetime).
Proof.
  destruct o; simpl; try done. unfold mark_failure.
  destruct (c.(by_key) !! key) as [es|]; [|done]. by destruct (mark_first es next_hop now).
Qed.

Lemma run_ok c os h now :
  cache_ok c h -> Forall (not_after now) os -> instant_add now c.(max_lifetime) <= h ->
  cache_ok (fold_left step os c) h.
Proof.
  intros Hc Hos Hh. revert c Hc Hh. induction Hos as [|o os Ho _ IH]; intros c Hc Hh; simpl; [done|].
  apply IH; [by eapply step_ok|]. by destruct (step_static c o) as [_ ->].
Qed.

(** ** Selection *)

Lemma pick_domains_spec max ranked selected domains :
  domains = domain_of <$> selected -> NoDup domains -> len selected <= max ->
  exists extra,
    pick_domains max ranked selected domains = selected ++ extra /\ extra `sublist_of` ranked /\
    NoDup (domain_of <$> selected ++ extra) /\ len (selected ++ extra) <= max /\
    (len (selected ++ extra) = max \/
     forall r, r ∈ ranked -> domain_of r ∈ domain_of <$> selected ++ extra).
Proof.
  revert selected domains. induction ranked as [|r ranked IH]; intros selected domains Hdom Hnd Hlen.
  - exists []. simpl. rewrite app_nil_r. subst domains. repeat split; try done.
    right. by intros r Hr%elem_of_nil.
  - simpl. destruct (N.eqb_spec (len selected) max) as [Hfull|Hroom].
    { exists []. rewrite app_nil_r. subst domains. repeat split; try done; [apply sublist_nil_l|by left]. }
    case_decide as Hin.
    + destruct (IH selected domains) as (extra & E & Hsub & Hnd' & Hl & Hall); [done..|].
      exists extra. repeat split; try done; [by apply sublist_cons|].
      destruct Hall as [Hall|Hall]; [by left|right].
      intros r' [->|Hr']%elem_of_cons; [|auto]. subst domains. rewrite fmap_app. apply elem_of_app. by left.
    + destruct (IH (selected ++ [r]) (domains ++ [domain_of r])) as (extra & E & Hsub & Hnd' & Hl & Hall).
      { subst domains. by rewrite fmap_app. }
      { apply list.NoDup_app. split; [done|]. split; [|apply NoDup_singleton].
        intros x Hx Hx'%list_elem_of_singleton. congruence. }
      { rewrite len_app, len_cons, len_nil. lia. }
      exists (r :: extra). rewrite <- (app_assoc selected [r] extra) in *. simpl in *.
      repeat split; try done; [by apply sublist_skip|].
      destruct Hall as [Hall|Hall]; [by left|right].
      intros r' [->|Hr']%elem_of_cons; [|auto]. rewrite fmap_app, fmap_cons. set_solver.
Qed.

Lemma existsb_hop selected hop :
  existsb (fun chosen => bool_decide (chosen.(RouteRecord.next_hop) = hop)) selected = true <->
  hop ∈ hops selected.
Proof.
  rewrite existsb_exists. unfold hops. rewrite list_elem_of_fmap. setoid_rewrite bool_decide_eq_true.
  setoid_rewrite list_elem_of_In. naive_solver.
Qed.

Lemma fill_up_spec max ranked selected :
  NoDup (hops selected) -> len selected <= max ->
  exists extra,
    fill_up max ranked selected = selected ++ extra /\ extra `sublist_of` ranked /\
    NoDup (hops (selected ++ extra)) /\ len (selected ++ extra) <= max /\
    (len (selected ++ extra) = max \/
     forall r, r ∈ ranked -> r.(RouteRecord.next_hop) ∈ hops (selected ++ extra)).
Proof.
  revert selected. induction ranked as [|r ranked IH]; intros selected Hnd Hlen.
  - exists []. simpl. rewrite app_nil_r. repeat split; try done. right. by intros r Hr%elem_of_nil.
  - simpl. destruct (N.eqb_spec (len selected) max) as [Hfull|Hroom].
    { exists []. rewrite app_nil_r. repeat split; try done; [apply sublist_nil_l|by left]. }
    destruct (existsb _ selected) eqn:Hin.
    + apply existsb_hop in Hin.
      destruct (IH selected) as (extra & E & Hsub & Hnd' & Hl & Hall); [done..|].
      exists extra. repeat split; try done; [by apply sublist_cons|].
      destruct Hall as [Hall|Hall]; [by left|right].
      intros r' [->|Hr']%elem_of_cons; [|auto]. unfold hops in *. rewrite fmap_app. apply elem_of_app. by left.
    + assert (r.(RouteRecord.next_hop) ∉ hops selected) as Hni by (rewrite <- existsb_hop; congruence).
      destruct (IH (selected ++ [r])) as (extra & E & Hsub & Hnd' & Hl & Hall).
      { unfold hops in *. rewrite fmap_app. apply list.NoDup_app. split; [done|]. split; [|apply NoDup_singleton].
        intros x Hx Hx'. simpl in Hx'. apply list_elem_of_singleton in Hx'. congruence. }
      { rewrite len_app, len_cons, len_nil. lia. }
      exists (r :: extra). rewrite <- (app_assoc selected [r] extra) in *. simpl in *.
      repeat split; try done; [by apply sublist_skip|].
      destruct Hall as [Hall|Hall]; [by left|right].
      intros r' [->|Hr']%elem_of_cons; [|auto]. unfold hops. rewrite fmap_app, fmap_cons. set_solver.
Qed.

(** The distinct failure domains among some records. *)
Definition domains_of (es : list RouteRecord.t) : list (list u8) := remove_dups (domain_of <$> es).

Lemma candidates_entries c k now : candidates c k now = filter (live now) (entries c k).
Proof. unfold candidates, entries. by destruct (c.(by_key) !! k). Qed.

Lemma candidates_distinct c k now h : cache_ok c h -> NoDup (hops (candidates c k now)).
Proof.
  intros Hc. rewrite candidates_entries. apply hops_filter_NoDup, (entries_bucket c h k Hc).
Qed.

(** Lists without repetition, one inside the other. *)
Lemma NoDup_le {A} `{EqDecision A} (l k : list A) :
  NoDup l -> (forall x, x ∈ l -> x ∈ k) -> len l <= len k.
Proof.
  intros Hl Hsub. unfold len. pose proof (submseteq_length l k (NoDup_submseteq l k Hl Hsub)). lia.
Qed.

(** What the two loops leave: [picked] has one record per domain, [extra] fills
    up; when room is left every domain and every hop is there. *)
Lemma diverse_shape c k now maximum h :
  cache_ok c h -> 0 < N.min maximum c.(max_per_key) ->
  let m := N.min maximum c.(max_per_key) in
  let cands := candidates c k now in
  exists picked extra,
    diverse_candidates c k now maximum = picked ++ extra /\
    NoDup (domain_of <$> picked) /\ NoDup (hops (picked ++ extra)) /\
    (forall r, r ∈ picked ++ extra -> r ∈ cands) /\ len (picked ++ extra) <= m /\
    (len picked = m /\ extra = [] \/ forall r, r ∈ cands -> domain_of r ∈ domain_of <$> picked) /\
    (len (picked ++ extra) = m \/ forall r, r ∈ cands -> r.(RouteRecord.next_hop) ∈ hops (picked ++ extra)) /\
    picked `sublist_of` ranked_candidates c k now.
Proof.
  intros Hc Hm m cands. unfold diverse_candidates. fold m. destruct (N.eqb_spec m 0) as [|_]; [lia|].
  assert (Hp : ranked_candidates c k now ≡ₚ cands) by apply sort_by_perm.
  assert (Hnd : NoDup (hops (ranked_candidates c k now))).
  { unfold hops. rewrite Hp. by apply (candidates_distinct c k now h). }
  destruct (pick_domains_spec m (ranked_candidates c k now) [] []) as (picked & E & Hsub & Hd & Hl & Hall);
    [done|constructor|rewrite len_nil; lia|]. simpl in *. rewrite E.
  assert (Hpn : NoDup (hops picked)) by (eapply sublist_NoDup; [exact Hnd|]; by apply fmap_sublist).
  assert (Hin : forall r, r ∈ picked -> r ∈ cands) by (intros r Hr; rewrite <- Hp; by eapply sublist_subseteq).
  destruct (N.ltb_spec (len picked) m) as [Hlt|Hge].
  - destruct (fill_up_spec m (ranked_candidates c k now) picked Hpn Hl)
      as (extra & E' & Hsub' & Hnd' & Hl' & Hall').
    exists picked, extra. repeat split; try done.
    + intros r [Hr|Hr]%elem_of_app; [auto|]. rewrite <- Hp. by eapply sublist_subseteq.
    + right. destruct Hall as [Hall|Hall]; [lia|]. intros r. rewrite <- Hp. apply Hall.
    + destruct Hall' as [Hall'|Hall']; [by left|right]. intros r. rewrite <- Hp. apply Hall'.
  - exists picked, []. rewrite app_nil_r. repeat split; try done; left; [split; [lia|done]|lia].
Qed.

Lemma domains_of_le es es' :
  (forall r, r ∈ es -> domain_of r ∈ domain_of <$> es') -> len (domains_of es) <= len (domains_of es').
Proof.
  intros H. apply NoDup_le; [apply NoDup_remove_dups|]. unfold domains_of.
  intros d (r & -> & Hr)%elem_of_remove_dups%list_elem_of_fmap. apply elem_of_remove_dups. auto.
Qed.

Lemma domains_of_distinct es : NoDup (domain_of <$> es) -> len (domains_of es) = len es.
Proof.
  intros H. transitivity (len (domain_of <$> es)); [|unfold len; by rewrite length_fmap].
  unfold domains_of. apply N.le_antisymm; apply NoDup_le; try done.
  - apply NoDup_remove_dups.
  - intros d. by rewrite elem_of_remove_dups.
  - intros d. by rewrite elem_of_remove_dups.
Qed.

(** With room for one, the first record taken is the first ranked. *)
Lemma pick_domains_head m r ranked :
  0 < m -> exists l, pick_domains m (r :: ranked) [] [] = r :: l.
Proof.
  intros Hm. cbn [pick_domains].
  destruct (N.eqb_spec (len (@nil RouteRecord.t)) m) as [E|_]; [rewrite len_nil in E; lia|].
  rewrite decide_False by apply not_elem_of_nil. cbn [app].
  destruct (pick_domains_spec m ranked [r] [domain_of r]) as (extra & -> & _).
  - done.
  - apply NoDup_singleton.
  - rewrite len_cons, len_nil. lia.
  - by exists extra.
Qed.

Lemma fill_up_head m ranked x l : head (fill_up m ranked (x :: l)) = Some x.
Proof.
  revert l. induction ranked as [|r ranked IH]; intros l; [done|]. cbn [fill_up].
  destruct (_ =? m); [done|]. destruct (existsb _ _); [apply IH|]. cbn [app]. apply IH.
Qed.

Lemma diverse_head c k now maximum r :
  head (diverse_candidates c k now maximum) = Some r -> head (ranked_candidates c k now) = Some r.
Proof.
  unfold diverse_candidates. destruct (N.eqb_spec (N.min maximum c.(max_per_key)) 0) as [|Hm]; [done|].
  destruct (ranked_candidates c k now) as [|x ranked]; [by destruct (_ <? _)|].
  destruct (pick_domains_head (N.min maximum c.(max_per_key)) x ranked ltac:(lia)) as (l & ->).
  destruct (_ <? _); [|done]. by rewrite fill_up_head.
Qed.

Lemma hops_le es es' :
  NoDup (hops es) -> (forall r, r ∈ es -> r.(RouteRecord.next_hop) ∈ hops es') -> len es <= len es'.
Proof.
  intros Hd Hs. transitivity (len (hops es)); [unfold len, hops; by rewrite length_fmap|].
  transitivity (len (hops es')); [|unfold len, hops; by rewrite length_fmap].
  apply NoDup_le; [done|]. intros x (r & -> & Hr)%list_elem_of_fmap. auto.
Qed.

Lemma diverse_domains picked extra m cands :
  NoDup (domain_of <$> picked) -> (forall r, r ∈ picked ++ extra -> r ∈ cands) ->
  len (picked ++ extra) <= m ->
  len picked = m /\ extra = [] \/ (forall r, r ∈ cands -> domain_of r ∈ domain_of <$> picked) ->
  len (domains_of (picked ++ extra)) = N.min m (len (domains_of cands)).
Proof.
  intros Hd Hin Hl Hcase. pose proof (domains_of_distinct picked Hd) as Hpk.
  assert (Hsub : forall es es', (forall r, r ∈ es -> r ∈ es') -> len (domains_of es) <= len (domains_of es')).
  { intros es es' H. apply domains_of_le. intros r Hr. apply list_elem_of_fmap_2. auto. }
  pose proof (Hsub (picked ++ extra) cands Hin) as H1.
  pose proof (Hsub picked (picked ++ extra) ltac:(intros r Hr; apply elem_of_app; by left)) as H2.
  destruct Hcase as [[Hm ->]|Hall].
  - rewrite app_nil_r in *. lia.
  - pose proof (domains_of_le cands picked Hall) as H3. rewrite len_app in Hl. lia.
Qed.

End RouteCache.

(** ** Theorems *)

(** Starting from an empty cache, whatever routes are inserted, marked as
    failed, removed or evicted up to a time [now], every destination holds at
    most [max_per_key] records, all of that destination and through pairwise
    different first hops, and no record outlives [now] by more than the longest
    lifetime the cache allows. *)
Theorem route_cache_invariant max lifetime os now :
  Forall (RouteCache.not_after now) os ->
  RouteCache.cache_ok (fold_left RouteCache.step os (RouteCache.new max lifetime))
    (instant_add now lifetime).
Proof.
  intros Hos. eapply RouteCache.run_ok; [|exact Hos|done]. apply map_Forall_empty.
Qed.

(** Inserting a route rearranges only its own destination: of the new record,
    with its expiry capped, and the live ones through other first hops the cache
    keeps as many as it may, and what it keeps is never of a worse state than
    what it drops. *)
Theorem route_insert_best c record now :
  let record' := RouteRecord.cap_expiry record (instant_add now c.(RouteCache.max_lifetime)) in
  let key := record.(RouteRecord.key) in
  let kept := RouteCache.entries (RouteCache.insert c record now) key in
  (exists dropped,
    kept ++ dropped ≡ₚ record' :: filter (fun r => RouteCache.live now r /\
        r.(RouteRecord.next_hop) <> record.(RouteRecord.next_hop)) (RouteCache.entries c key) /\
    (dropped = [] \/ len kept = c.(RouteCache.max_per_key)) /\
    forall x y, x ∈ kept -> y ∈ dropped -> RouteCache.state_rank x <= RouteCache.state_rank y) /\
  forall k, k <> key -> RouteCache.entries (RouteCache.insert c record now) k = RouteCache.entries c k.
Proof.
  intros record' key kept. split; [|intros k; apply RouteCache.insert_other].
  unfold kept, key. rewrite RouteCache.insert_entries.
  set (sorted := sort_by _ _). set (n := N.to_nat _).
  assert (Hs : StronglySorted (cmp_le (key_cmp N.compare RouteCache.state_rank)) sorted)
    by apply sort_by_sorted, _.
  exists (drop n sorted). rewrite take_drop. split; [|split].
  - unfold sorted. rewrite sort_by_perm. unfold RouteCache.inserted.
    destruct (RouteRecord.cap_expiry_frame record (instant_add now c.(RouteCache.max_lifetime))) as (-> & -> & _).
    fold record'. by rewrite Permutation_app_comm.
  - destruct (decide (length sorted <= n)%nat) as [Hle|Hgt]; [left; by apply drop_ge|right].
    unfold len. rewrite length_take. subst n. lia.
  - intros x y Hx Hy. pose proof (sorted_take_drop _ n sorted x y Hs Hx Hy) as H.
    unfold cmp_le, key_cmp in H. by apply N.compare_le_iff in H.
Qed.

(** C34: The failover set for a destination consists of live candidates through
    different first hops, has as many as there are up to the limit, and covers
    as many different failure domains as any choice of that size can; its first
    member is the most useful candidate. *)
Theorem route_diverse_optimal c k now maximum h :
  RouteCache.cache_ok c h ->
  let m := N.min maximum c.(RouteCache.max_per_key) in
  let cands := RouteCache.candidates c k now in
  let selected := RouteCache.diverse_candidates c k now maximum in
  (forall r, r ∈ selected -> r ∈ cands) /\
  NoDup (RouteCache.hops selected) /\
  len selected = N.min m (len cands) /\
  len (RouteCache.domains_of selected) = N.min m (len (RouteCache.domains_of cands)) /\
  forall r r', head selected = Some r -> r' ∈ cands -> cmp_le RouteCache.by_usefulness r r'.
Proof.
  intros Hc m cands selected. destruct (decide (m = 0)) as [Hz|Hz].
  { assert (selected = []) as -> by (unfold selected, RouteCache.diverse_candidates; fold m; by rewrite Hz).
    rewrite Hz, !N.min_0_l. repeat split; try done; [by intros r Hr%elem_of_nil|constructor]. }
  destruct (RouteCache.diverse_shape c k now maximum h Hc ltac:(lia))
    as (picked & extra & E & Hd & Hn & Hin & Hl & Hdom & Hhop & _).
  fold selected m cands in E, Hin, Hl, Hdom, Hhop. rewrite <- E in Hn, Hin, Hl, Hhop.
  repeat split; try done.
  - apply N.le_antisymm.
    + apply N.min_glb; [done|]. apply RouteCache.hops_le; [done|]. intros r Hr. apply list_elem_of_fmap_2. auto.
    + destruct Hhop as [Hhop|Hhop]; [lia|]. transitivity (len cands); [lia|].
      apply RouteCache.hops_le; [by apply (RouteCache.candidates_distinct c k now h)|done].
  - rewrite E in *. by apply RouteCache.diverse_domains.
  - intros r r' Hr Hr'. apply RouteCache.diverse_head in Hr.
    assert (Hp : RouteCache.ranked_candidates c k now ≡ₚ cands) by apply sort_by_perm.
    assert (Hs : StronglySorted (cmp_le RouteCache.by_usefulness) (RouteCache.ranked_candidates c k now))
      by apply sort_by_sorted, _.
    rewrite <- Hp in Hr'. destruct (RouteCache.ranked_candidates c k now) as [|x l]; [done|].
    injection Hr as ->. eapply sorted_head_least; [apply _|exact Hs|exact Hr'].
Qed.

(** Two routes through one failure domain and a third through another. *)
Definition sample_key : RouteKey.t := RouteKey.mk 0 [7] RouteScope.General 0.

Definition sample_route (hop : u8) (domain : list u8) : RouteRecord.t :=
  RouteRecord.mk sample_key RouteState.Usable [hop] None (bstr "domain="%string ++ domain) [] 0 600000
    None None 0 RouteScope.General.

Definition sample_inserts : list RouteCache.op :=
  [RouteCache.Insert (sample_route 1 [65]) 0; RouteCache.Insert (sample_route 2 [65]) 0;
   RouteCache.Insert (sample_route 3 [66]) 0].

Definition sample_cache : RouteCache.t :=
  fold_left RouteCache.step sample_inserts (RouteCache.new 4 1000).

Lemma route_cache_invariant_witness : RouteCache.cache_ok sample_cache 1000.
Proof.
  apply (route_cache_invariant 4 1000 sample_inserts 0). repeat constructor; simpl; lia.
Defined.

Lemma route_diverse_optimal_witness :
  len (RouteCache.domains_of (RouteCache.diverse_candidates sample_cache sample_key 0 2)) = 2 /\
  RouteCache.hops (RouteCache.diverse_candidates sample_cache sample_key 0 2) = [[1]; [3]].
Proof.
  split; [|by vm_compute].
  assert (Hc : RouteCache.cache_ok sample_cache 1000).
  { apply (RouteCache.run_ok _ sample_inserts 1000 0); [apply map_Forall_empty| |vm_compute; congruence].
    repeat constructor; simpl; lia. }
  destruct (route_diverse_optimal sample_cache sample_key 0 2 1000 Hc) as (_ & _ & _ & -> & _).
  by vm_compute.
Defined.
