(* ===== verification/RouteRequests.v ===== *)
(** * Route requests

    Duplicate suppression (crates/umc-routing/src/duplicate.rs) and the
    admission of route requests (crates/umc-routing/src/request.rs). *)

From S2P Require Import Prelude SentPackets Records Cids RouteTypes.

Definition REQUEST_ID_LEN : usize := 16.

Module RequestIdentity.

Record t := mk { request_id : list u8; adjacent_sender : list u8 }.

#[global] Instance eq_dec : EqDecision t.
Proof. solve_decision. Defined.

End RequestIdentity.

Module CachedRequest.

Record t := mk {
  identity : RequestIdentity.t;
  first_seen : Instant;
  best_hop_limit : u64;
  expiry : Instant;
  forwarded_peers : list (list u8)
}.

#[global] Instance eq_dec : EqDecision t.
Proof. solve_decision. Defined.

End CachedRequest.

Module RequestCache.

Record t := mk {
  entries : list CachedRequest.t;
  max_entries : usize;
  retention : Duration
}.

Definition new (max_entries : usize) (retention : Duration) : t := mk [] max_entries retention.

Definition generate_request_id `{EntropySource E} (entropy : E) : list u8 * E :=
  fill entropy (N.to_nat REQUEST_ID_LEN).

Definition prune (c : t) (now : Instant) : t :=
  c <| entries := filter (fun e => now < e.(CachedRequest.expiry)) c.(entries) |>.

(** [entries.iter().find(|e| e.identity == identity)]. *)
Definition find (c : t) (identity : RequestIdentity.t) : option CachedRequest.t :=
  head (filter (fun e => e.(CachedRequest.identity) = identity) c.(entries)).

(** [iter_mut().find(..)]: the first entry of the identity is changed in place. *)
Fixpoint update_first (f : CachedRequest.t -> CachedRequest.t) (identity : RequestIdentity.t)
    (es : list CachedRequest.t) : list CachedRequest.t :=
  match es with
  | [] => []
  | e :: es =>
      if decide (e.(CachedRequest.identity) = identity) then f e :: es
      else e :: update_first f identity es
  end.

Definition admit_ (c : t) (identity : RequestIdentity.t) (hop_limit : u64) (now : Instant)
    (forward_to : list (list u8)) : option CachedRequest.t * t :=
  let c := prune c now in
  match find c identity with
  | Some existing =>
      if hop_limit <=? existing.(CachedRequest.best_hop_limit) then (Some existing, c)
      else if existsb (fun p => bool_decide (p ∈ existing.(CachedRequest.forwarded_peers))) forward_to
      then (Some existing, c)
      else
        (None,
         c <| entries := update_first (fun e => e <| CachedRequest.best_hop_limit := hop_limit |>
                                                  <| CachedRequest.expiry := instant_add now c.(retention) |>)
                           identity c.(entries) |>)
  | None =>
      let e := CachedRequest.mk identity now hop_limit (instant_add now c.(retention)) forward_to in
      let es := c.(entries) ++ [e] in
      (None, c <| entries := if c.(max_entries) <? len es then tail es else es |>)
  end.

Definition record_forward (c : t) (identity : RequestIdentity.t) (peer : list u8) : t :=
  c <| entries := update_first (fun e =>
         if decide (peer ∈ e.(CachedRequest.forwarded_peers)) then e
         else e <| CachedRequest.forwarded_peers := e.(CachedRequest.forwarded_peers) ++ [peer] |>)
       identity c.(entries) |>.

Definition already_forwarded (c : t) (identity : RequestIdentity.t) (peer : list u8) : bool :=
  existsb (fun e => bool_decide (e.(CachedRequest.identity) = identity) &&
                    bool_decide (peer ∈ e.(CachedRequest.forwarded_peers))) c.(entries).

End RequestCache.

(** ** Admission *)

Inductive Admission :=
| Admit (hop_limit remaining_lifetime_ms : u64) (forward_to : list (list u8))
| Suppress
| Drop.

Inductive AdmissionError :=
| HopLimitZero
| HopLimitExceeded
| LifetimeTooLong
| UnknownFlag
| FanoutExceeded
| RateLimited.

Module RequestPolicy.

Record t := mk {
  max_fanout : usize;
  max_hops : u64;
  max_lifetime_ms : u64;
  requests_per_minute : u64
}.

Definition default : t := mk DEFAULT_FANOUT MAX_HOP_LIMIT MAX_REQUEST_LIFETIME_MS 10.

End RequestPolicy.

Definition admit_request (request_id adjacent_sender : list u8) (flags : u8)
    (hop_limit lifetime_ms : u64) (candidates : list (list u8)) (policy : RequestPolicy.t)
    (cache : RequestCache.t) (now : Instant) : Result AdmissionError Admission * RequestCache.t :=
  if hop_limit =? 0 then (Err HopLimitZero, cache)
  else if (policy.(RequestPolicy.max_hops) <? hop_limit) || (MAX_HOP_LIMIT <? hop_limit)
  then (Err HopLimitExceeded, cache)
  else if (policy.(RequestPolicy.max_lifetime_ms) <? lifetime_ms) || (MAX_REQUEST_LIFETIME_MS <? lifetime_ms)
  then (Err LifetimeTooLong, cache)
  else if negb (N.land flags 0xE0 =? 0) then (Err UnknownFlag, cache)
  else
    let identity := RequestIdentity.mk request_id adjacent_sender in
    let fanout := N.min (N.min (len candidates) policy.(RequestPolicy.max_fanout)) MAX_FANOUT in
    if fanout =? 0 then (Ok (Admit (saturating_sub hop_limit 1) lifetime_ms []), cache)
    else
      let forward_to := take (N.to_nat fanout) candidates in
      if RequestCache.already_forwarded cache identity (hd [] forward_to) then (Ok Suppress, cache)
      else
        let '(existing, cache) := RequestCache.admit_ cache identity hop_limit now forward_to in
        let suppress :=
          match existing with
          | Some existing => hop_limit <=? existing.(CachedRequest.best_hop_limit)
          | None => false
          end in
        if suppress then (Ok Suppress, cache)
        else if MAX_FANOUT <? policy.(RequestPolicy.max_fanout) then (Err FanoutExceeded, cache)
        else (Ok (Admit (saturating_sub hop_limit 1) lifetime_ms forward_to), cache).

Definition select_initial_peers (candidates : list (list u8)) (default_fanout : usize)
    : list (list u8) :=
  take (N.to_nat (N.max default_fanout 1)) candidates.

(** ** Runs of requests *)

(** One request as it arrives at a node, with the node's policy and peers. *)
Module Request.

Record t := mk {
  request_id : list u8;
  sender : list u8;
  flags : u8;
  hop_limit : u64;
  lifetime_ms : u64;
  candidates : list (list u8);
  policy : RequestPolicy.t;
  now : Instant
}.

Definition identity (r : t) : RequestIdentity.t := RequestIdentity.mk r.(request_id) r.(sender).

Definition fanout (r : t) : usize :=
  N.min (N.min (len r.(candidates)) r.(policy).(RequestPolicy.max_fanout)) MAX_FANOUT.

Definition forward_to (r : t) : list (list u8) := take (N.to_nat (fanout r)) r.(candidates).

(** The cheap checks pass. *)
Definition acceptable (r : t) : Prop :=
  0 < r.(hop_limit) <= N.min r.(policy).(RequestPolicy.max_hops) MAX_HOP_LIMIT /\
  r.(lifetime_ms) <= N.min r.(policy).(RequestPolicy.max_lifetime_ms) MAX_REQUEST_LIFETIME_MS /\
  N.land r.(flags) 0xE0 = 0.

Definition submit (c : RequestCache.t) (r : t) : Result AdmissionError Admission * RequestCache.t :=
  admit_request r.(request_id) r.(sender) r.(flags) r.(hop_limit) r.(lifetime_ms) r.(candidates)
    r.(policy) c r.(now).

Definition step (c : RequestCache.t) (r : t) : RequestCache.t := (submit c r).2.

End Request.

(** The request that reaches the duplicate cache. *)
Definition reaches_cache (c : RequestCache.t) (r : Request.t) : Prop :=
  Request.acceptable r /\ 0 < Request.fanout r /\
  RequestCache.already_forwarded c (Request.identity r) (hd [] (Request.forward_to r)) = false.

(** Whatever a request does to the cache it does through [RequestCache.admit_]. *)
Lemma submit_cases c r :
  (Request.submit c r).2 = c /\ ~ reaches_cache c r /\
    (forall h l fwd, (Request.submit c r).1 = Ok (Admit h l fwd) ->
       Request.acceptable r /\ h = r.(Request.hop_limit) - 1 /\ l = r.(Request.lifetime_ms) /\ fwd = []) \/
  reaches_cache c r /\
    let '(existing, c') := RequestCache.admit_ c (Request.identity r) r.(Request.hop_limit)
                             r.(Request.now) (Request.forward_to r) in
    (Request.submit c r).2 = c' /\
    (Request.submit c r).1 =
      if match existing with
         | Some e => r.(Request.hop_limit) <=? e.(CachedRequest.best_hop_limit)
         | None => false
         end then Ok Suppress
      else if MAX_FANOUT <? r.(Request.policy).(RequestPolicy.max_fanout) then Err FanoutExceeded
      else Ok (Admit (r.(Request.hop_limit) - 1) r.(Request.lifetime_ms) (Request.forward_to r)).
Proof.
  unfold Request.submit, admit_request, reaches_cache, Request.acceptable.
  fold (Request.identity r) (Request.fanout r) (Request.forward_to r).
  destruct (N.eqb_spec r.(Request.hop_limit) 0) as [|Hh]; [left; split; [done|split; [lia|by intros]]|].
  destruct (_ || _) eqn:E1; [left; split; [done|split; [lia|by intros]]|].
  destruct (_ || _) eqn:E2 in |- *; [left; split; [done|split; [lia|by intros]]|].
  destruct (N.eqb_spec (N.land r.(Request.flags) 0xE0) 0) as [Hf|];
    [|left; split; [done|split; [naive_solver|by intros]]].
  cbn [negb]. destruct (N.eqb_spec (Request.fanout r) 0) as [|Hfan].
  { left. split; [done|]. split; [lia|]. intros h l fwd [= <- <- <-]. unfold saturating_sub.
    repeat split; try done; lia. }
  destruct (RequestCache.already_forwarded _ _ _) eqn:Ea; [left; split; [done|split; [naive_solver|by intros]]|].
  right. split; [repeat split; try done; lia|].
  destruct (RequestCache.admit_ _ _ _ _ _) as [existing c']. unfold saturating_sub.
  destruct (match existing with Some _ => _ | None => _ end); [done|].
  by destruct (MAX_FANOUT <? _).
Qed.

(** ** The duplicate cache *)

Definition identities (es : list CachedRequest.t) : list RequestIdentity.t :=
  CachedRequest.identity <$> es.

Record request_cache_ok (c : RequestCache.t) : Prop := {
  requests_bounded : len c.(RequestCache.entries) <= c.(RequestCache.max_entries);
  requests_distinct : NoDup (identities c.(RequestCache.entries))
}.

Lemma update_first_identities f identity es :
  (forall e, (f e).(CachedRequest.identity) = e.(CachedRequest.identity)) ->
  identities (RequestCache.update_first f identity es) = identities es.
Proof.
  intros Hf. induction es as [|e es IH]; simpl; [done|].
  case_decide; simpl; [by rewrite Hf|by rewrite IH].
Qed.

Lemma len_identities es : len (identities es) = len es.
Proof. unfold identities, len. by rewrite length_fmap. Qed.

(** Same identities, same bounds: the invariant carries over. *)
Lemma request_cache_ok_same c c' :
  request_cache_ok c -> c'.(RequestCache.max_entries) = c.(RequestCache.max_entries) ->
  identities c'.(RequestCache.entries) = identities c.(RequestCache.entries) -> request_cache_ok c'.
Proof.
  intros [Hb Hd] Hm Hi. split; [|by rewrite Hi].
  by rewrite Hm, <- len_identities, Hi, len_identities.
Qed.

Lemma request_cache_ok_sublist c c' :
  request_cache_ok c -> c'.(RequestCache.max_entries) = c.(RequestCache.max_entries) ->
  c'.(RequestCache.entries) `sublist_of` c.(RequestCache.entries) -> request_cache_ok c'.
Proof.
  intros [Hb Hd] Hm Hs. split.
  - rewrite Hm. pose proof (sublist_length _ _ Hs). unfold len in *. lia.
  - eapply sublist_NoDup; [exact Hd|]. by apply fmap_sublist.
Qed.

Lemma prune_ok c now : request_cache_ok c -> request_cache_ok (RequestCache.prune c now).
Proof. intros Hc. eapply request_cache_ok_sublist; [exact Hc|done|]. apply sublist_filter. Qed.

Lemma find_None c identity :
  RequestCache.find c identity = None -> identity ∉ identities c.(RequestCache.entries).
Proof.
  unfold RequestCache.find, identities. intros Hf (e & -> & He)%list_elem_of_fmap.
  destruct (filter _ _) as [|e' l] eqn:E; [|done].
  assert (e ∈ @nil CachedRequest.t) as Hn; [|by apply elem_of_nil in Hn].
  rewrite <- E. by apply list_elem_of_filter.
Qed.

Lemma find_Some c identity e :
  RequestCache.find c identity = Some e ->
  e ∈ c.(RequestCache.entries) /\ e.(CachedRequest.identity) = identity.
Proof.
  unfold RequestCache.find. intros Hf. apply head_Some_elem_of in Hf.
  apply list_elem_of_filter in Hf. tauto.
Qed.

Lemma admit_ok c identity hop now fwd :
  request_cache_ok c -> request_cache_ok (RequestCache.admit_ c identity hop now fwd).2.
Proof.
  intros Hc. unfold RequestCache.admit_. apply (prune_ok c now) in Hc.
  set (c' := RequestCache.prune c now) in *. clearbody c'.
  destruct (RequestCache.find c' identity) as [e|] eqn:Ef.
  - destruct (_ <=? _); [done|]. destruct (existsb _ _); [done|]. simpl.
    eapply request_cache_ok_same; [exact Hc|done|]. simpl. by apply update_first_identities.
  - apply find_None in Ef. destruct Hc as [Hb Hd]. simpl.
    set (e := CachedRequest.mk _ _ _ _ _).
    assert (Hd' : NoDup (identities (c'.(RequestCache.entries) ++ [e]))).
    { unfold identities in *. rewrite fmap_app. apply list.NoDup_app. split; [done|].
      split; [|apply NoDup_singleton].
      intros x Hx Hx'. simpl in Hx'. apply list_elem_of_singleton in Hx'. subst x. done. }
    destruct (N.ltb_spec c'.(RequestCache.max_entries) (len (c'.(RequestCache.entries) ++ [e]))) as [Hlt|Hge];
      [|split; simpl; [exact Hge|exact Hd']].
    rewrite len_app, len_cons, len_nil in Hlt. split; simpl.
    + unfold len in *. rewrite length_tl, length_app. simpl. lia.
    + eapply sublist_NoDup; [exact Hd'|]. apply fmap_sublist.
      destruct (c'.(RequestCache.entries) ++ [e]); simpl; [done|by apply sublist_cons].
Qed.

Lemma step_request_ok c r : request_cache_ok c -> request_cache_ok (Request.step c r).
Proof.
  intros Hc. unfold Request.step. destruct (submit_cases c r) as [(-> & _)|[_ H]]; [done|].
  pose proof (admit_ok c (Request.identity r) r.(Request.hop_limit) r.(Request.now) (Request.forward_to r) Hc) as Ha.
  destruct (RequestCache.admit_ _ _ _ _ _) as [existing c']. by destruct H as [-> _].
Qed.

(** *** Survival of an entry *)

(** [e] is cached with at most [j] younger entries. *)
Definition cached_within (e : CachedRequest.t) (j : N) (c : RequestCache.t) : Prop :=
  exists pre post, c.(RequestCache.entries) = pre ++ e :: post /\ len post <= j.

Lemma cached_within_prune e j c now :
  now < e.(CachedRequest.expiry) -> cached_within e j c -> cached_within e j (RequestCache.prune c now).
Proof.
  intros Hn (pre & post & E & Hl). unfold RequestCache.prune, cached_within. simpl.
  eexists _, _. rewrite E, list.filter_app, filter_cons_True by done. split; [done|].
  pose proof (length_filter (fun e => now < e.(CachedRequest.expiry)) post). unfold len in *. lia.
Qed.

Lemma update_first_other f identity e pre post :
  e.(CachedRequest.identity) <> identity ->
  exists pre' post', RequestCache.update_first f identity (pre ++ e :: post) = pre' ++ e :: post' /\
    len post' = len post.
Proof.
  intros He. induction pre as [|x pre IH]; simpl.
  - rewrite decide_False by done. exists []. eexists. split; [done|].
    clear. induction post as [|x post IH]; simpl; [done|]. case_decide; rewrite !len_cons; lia.
  - destruct IH as (pre' & post' & E & Hl). case_decide; [by exists (f x :: pre), post|].
    exists (x :: pre'), post'. by rewrite E.
Qed.

Lemma admit_survives e j c identity hop now fwd :
  e.(CachedRequest.identity) <> identity -> now < e.(CachedRequest.expiry) ->
  j + 2 <= c.(RequestCache.max_entries) -> cached_within e j c ->
  cached_within e (j + 1) (RequestCache.admit_ c identity hop now fwd).2.
Proof.
  intros He Hn Hj Hc. apply (cached_within_prune _ _ _ now Hn) in Hc. unfold RequestCache.admit_.
  assert (Hm : (RequestCache.prune c now).(RequestCache.max_entries) = c.(RequestCache.max_entries)) by done.
  rewrite <- Hm in Hj. set (c' := RequestCache.prune c now) in *. clearbody c'. clear Hm.
  destruct Hc as (pre & post & E & Hl).
  destruct (RequestCache.find c' identity) as [e'|].
  - destruct (_ <=? _); [exists pre, post; split; [done|lia]|].
    destruct (existsb _ _); [exists pre, post; split; [done|lia]|]. simpl.
    unfold cached_within. simpl. rewrite E.
    match goal with |- context [RequestCache.update_first ?f _ _] =>
      destruct (update_first_other f identity e pre post He) as (pre' & post' & -> & Hl') end.
    exists pre', post'. split; [done|lia].
  - simpl. rewrite E. set (e' := CachedRequest.mk _ _ _ _ _).
    destruct (N.ltb_spec c'.(RequestCache.max_entries) (len ((pre ++ e :: post) ++ [e']))) as [Hlt|Hge].
    + rewrite !len_app, !len_cons, len_nil in Hlt. destruct pre as [|x pre]; [rewrite len_nil in Hlt; lia|].
      exists pre, (post ++ [e']). simpl. rewrite <- app_assoc. split; [done|].
      rewrite len_app, len_cons, len_nil. lia.
    + exists pre, (post ++ [e']). simpl. rewrite <- app_assoc. split; [done|].
      rewrite len_app, len_cons, len_nil. lia.
Qed.

Lemma step_survives e j c r :
  e.(CachedRequest.identity) <> Request.identity r -> r.(Request.now) < e.(CachedRequest.expiry) ->
  j + 2 <= c.(RequestCache.max_entries) -> cached_within e j c ->
  cached_within e (j + 1) (Request.step c r).
Proof.
  intros He Hn Hj Hc. unfold Request.step. destruct (submit_cases c r) as [(-> & _)|[_ H]].
  - destruct Hc as (pre & post & E & Hl). exists pre, post. split; [done|lia].
  - pose proof (admit_survives e j c (Request.identity r) r.(Request.hop_limit) r.(Request.now)
      (Request.forward_to r) He Hn Hj Hc) as Ha.
    destruct (RequestCache.admit_ _ _ _ _ _) as [existing c']. by destruct H as [-> _].
Qed.

Lemma admit_static c identity hop now fwd :
  (RequestCache.admit_ c identity hop now fwd).2.(RequestCache.max_entries) = c.(RequestCache.max_entries).
Proof.
  unfold RequestCache.admit_. destruct (RequestCache.find _ _); [|done].
  destruct (_ <=? _); [done|]. by destruct (existsb _ _).
Qed.

Lemma request_step_static c r : (Request.step c r).(RequestCache.max_entries) = c.(RequestCache.max_entries).
Proof.
  unfold Request.step. destruct (submit_cases c r) as [(-> & _)|[_ H]]; [done|].
  pose proof (admit_static c (Request.identity r) r.(Request.hop_limit) r.(Request.now) (Request.forward_to r)).
  destruct (RequestCache.admit_ _ _ _ _ _) as [existing c']. by destruct H as [-> _].
Qed.

(** Fewer than [max_entries] requests of others do not displace an entry. *)
Lemma run_survives e rs j c :
  Forall (fun r => e.(CachedRequest.identity) <> Request.identity r /\
                   r.(Request.now) < e.(CachedRequest.expiry)) rs ->
  j + len rs < c.(RequestCache.max_entries) -> cached_within e j c ->
  cached_within e (j + len rs) (fold_left Request.step rs c).
Proof.
  intros Hrs. revert j c. induction Hrs as [|r rs [Hi Hn] _ IH]; intros j c Hj Hc; simpl.
  - by rewrite len_nil, N.add_0_r.
  - rewrite len_cons in *. replace (j + (1 + len rs)) with (j + 1 + len rs) by lia.
    apply IH; [rewrite request_step_static; lia|]. apply step_survives; [done|done|lia|done].
Qed.

Lemma find_cached c e identity :
  request_cache_ok c -> e ∈ c.(RequestCache.entries) -> e.(CachedRequest.identity) = identity ->
  RequestCache.find c identity = Some e.
Proof.
  intros [_ Hd] He Hi. unfold RequestCache.find. induction c.(RequestCache.entries) as [|x es IH].
  { by apply elem_of_nil in He. }
  simpl in Hd. apply list.NoDup_cons in Hd as [Hx Hd]. apply elem_of_cons in He as [<-|He].
  - by rewrite filter_cons_True.
  - rewrite filter_cons_False; [by apply IH|]. intros Hxi. apply Hx. rewrite Hxi, <- Hi.
    by apply list_elem_of_fmap_2.
Qed.

(** A cached request with no better hop limit is not forwarded. *)
Lemma cached_suppressed e j c r :
  request_cache_ok c -> cached_within e j c -> e.(CachedRequest.identity) = Request.identity r ->
  r.(Request.now) < e.(CachedRequest.expiry) ->
  r.(Request.hop_limit) <= e.(CachedRequest.best_hop_limit) ->
  forall h l fwd, (Request.submit c r).1 = Ok (Admit h l fwd) -> fwd = [].
Proof.
  intros Hok Hc Hi Hn Hh h l fwd. destruct (submit_cases c r) as [(_ & _ & H)|[_ H]].
  { intros E. by destruct (H h l fwd E) as (_ & _ & _ & ->). }
  apply (cached_within_prune _ _ _ _ Hn) in Hc. apply (prune_ok c r.(Request.now)) in Hok.
  unfold RequestCache.admit_ in H. set (c' := RequestCache.prune c r.(Request.now)) in *. clearbody c'.
  assert (RequestCache.find c' (Request.identity r) = Some e) as Hf.
  { destruct Hc as (pre & post & E & _). apply find_cached; [done| |done].
    rewrite E. apply elem_of_app. right. apply elem_of_cons. by left. }
  rewrite Hf in H. rewrite (proj2 (N.leb_le _ _) Hh) in H.
  destruct H as [_ H]. rewrite (proj2 (N.leb_le _ _) Hh) in H. by rewrite H.
Qed.

Lemma admit_first_cached c identity hop now fwd :
  RequestCache.find (RequestCache.prune c now) identity = None -> 0 < c.(RequestCache.max_entries) ->
  cached_within (CachedRequest.mk identity now hop (instant_add now c.(RequestCache.retention)) fwd) 0
    (RequestCache.admit_ c identity hop now fwd).2.
Proof.
  intros Hf Hm. unfold RequestCache.admit_. rewrite Hf.
  unfold cached_within. simpl. set (e := CachedRequest.mk _ _ _ _ _).
  destruct (filter _ c.(RequestCache.entries)) as [|x es]; simpl.
  - rewrite len_cons, len_nil. destruct (N.ltb_spec c.(RequestCache.max_entries) (1 + 0)); [lia|].
    by exists [], [].
  - destruct (_ <? _); [by exists es, []|by exists (x :: es), []].
Qed.

Lemma submit_Admit c r h l fwd :
  (Request.submit c r).1 = Ok (Admit h l fwd) ->
  Request.acceptable r /\ h = r.(Request.hop_limit) - 1 /\ l = r.(Request.lifetime_ms).
Proof.
  intros E. destruct (submit_cases c r) as [(_ & _ & H)|[[Ha _] H]]; [by destruct (H h l fwd E) as (? & ? & ? & _)|].
  split; [done|]. destruct (RequestCache.admit_ _ _ _ _ _) as [existing c']. destruct H as [_ H].
  rewrite H in E. destruct (match existing with Some _ => _ | None => _ end); [done|].
  destruct (_ <? _); [done|]. by injection E as <- <- _.
Qed.

Lemma prune_prune c now : RequestCache.prune (RequestCache.prune c now) now = RequestCache.prune c now.
Proof.
  unfold RequestCache.prune. simpl. f_equal. rewrite list_filter_filter. apply list_filter_iff. tauto.
Qed.

Lemma already_forwarded_prune c now identity peer :
  RequestCache.already_forwarded c identity peer = false ->
  RequestCache.already_forwarded (RequestCache.prune c now) identity peer = false.
Proof.
  unfold RequestCache.already_forwarded. rewrite <- !not_true_iff_false, !existsb_exists.
  intros H (e & He & E). apply H. exists e. split; [|done].
  apply list_elem_of_In in He. simpl in He. apply list_elem_of_filter in He. apply list_elem_of_In. tauto.
Qed.

(** ** Theorems *)

(** However requests arrive at a node, its duplicate cache never holds more
    entries than it may nor two entries of one request from one neighbour. *)
Theorem request_cache_invariant max retention rs :
  request_cache_ok (fold_left Request.step rs (RequestCache.new max retention)).
Proof.
  apply fold_left_inv; [intros c r; apply step_request_ok|].
  split; simpl; [rewrite len_nil; lia|constructor].
Qed.


(** A copy with a better hop limit is forwarded to peers that already have
    the request: only the first peer of the new fanout is checked by itself, and
    when another one is known the copy is admitted with the whole fanout, while
    the cache does not learn the better limit, so that the very same copy is
    admitted again and again. *)
Theorem improved_request_reforwarded c r e first rest p :
  reaches_cache c r -> r.(Request.policy).(RequestPolicy.max_fanout) <= MAX_FANOUT ->
  RequestCache.find (RequestCache.prune c r.(Request.now)) (Request.identity r) = Some e ->
  e.(CachedRequest.best_hop_limit) < r.(Request.hop_limit) ->
  Request.forward_to r = first :: rest -> p ∈ rest -> p ∈ e.(CachedRequest.forwarded_peers) ->
  let c' := RequestCache.prune c r.(Request.now) in
  let admitted := Ok (Admit (r.(Request.hop_limit) - 1) r.(Request.lifetime_ms) (Request.forward_to r)) in
  Request.submit c r = (admitted, c') /\ Request.submit c' r = (admitted, c').
Proof.
  intros Hr Hfan Hf Hb Hfw Hp Hpe c' admitted.
  assert (Hsub : forall c0, reaches_cache c0 r -> RequestCache.prune c0 r.(Request.now) = c' ->
    Request.submit c0 r = (admitted, c')).
  { intros c0 Hr0 E0. rewrite (surjective_pairing (Request.submit c0 r)).
    destruct (submit_cases c0 r) as [(_ & H & _)|[_ H]]; [by destruct H|].
    unfold RequestCache.admit_ in H. rewrite E0 in H. fold c' in Hf. rewrite Hf in H.
    rewrite (proj2 (N.leb_gt _ _) Hb) in H.
    assert (existsb (fun p => bool_decide (p ∈ e.(CachedRequest.forwarded_peers))) (Request.forward_to r) = true) as Hex.
    { rewrite Hfw, existsb_exists. exists p. rewrite <- list_elem_of_In, bool_decide_eq_true.
      split; [by apply elem_of_cons; right|done]. }
    rewrite Hex in H. destruct H as [-> ->]. rewrite (proj2 (N.leb_gt _ _) Hb).
    by rewrite (proj2 (N.ltb_ge _ _) Hfan). }
  split; [by apply Hsub|]. apply Hsub; [|apply prune_prune].
  destruct Hr as (Ha & Hfo & Haf). repeat split; try apply Ha; [done|]. by apply already_forwarded_prune.
Qed.

(** The forwarding of a request along a line of nodes, each taking over the hop
    limit and lifetime the one before it passed on. *)
Fixpoint forward_along (nodes : list (RequestCache.t * Request.t)) (hop_limit lifetime_ms : u64)
    : option (u64 * u64) :=
  match nodes with
  | [] => Some (hop_limit, lifetime_ms)
  | (c, r) :: nodes =>
      match (Request.submit c (r <| Request.hop_limit := hop_limit |> <| Request.lifetime_ms := lifetime_ms |>)).1 with
      | Ok (Admit hop_limit lifetime_ms _) => forward_along nodes hop_limit lifetime_ms
      | _ => None
      end
  end.

(** Whatever nodes a request passes, each on its own policy and memory, every
    one that admits it takes one from the hop limit, so that no request travels
    further than its hop limit, and none further than 32 hops, even in a loop. *)
Theorem request_hops_bounded nodes hop life hop' life' :
  forward_along nodes hop life = Some (hop', life') ->
  hop = hop' + len nodes /\ life' = life /\ (nodes <> [] -> len nodes <= MAX_HOP_LIMIT).
Proof.
  assert (H : forall nodes hop life, forward_along nodes hop life = Some (hop', life') ->
    hop = hop' + len nodes /\ life' = life /\ (nodes <> [] -> hop <= MAX_HOP_LIMIT)).
  2: { intros E. destruct (H _ _ _ E) as (-> & -> & Hm). split; [done|split; [done|]]. intros Hn. specialize (Hm Hn). lia. }
  clear. induction nodes as [|[c r] nodes IH]; intros hop life.
  - cbn. intros [= -> ->]. repeat split; try done. rewrite len_nil. lia.
  - cbn [forward_along]. set (r' := r <| Request.hop_limit := hop |> <| Request.lifetime_ms := life |>).
    destruct (Request.submit c r').1 as [[h l fwd| |]|] eqn:E; try done. intros Hf.
    assert (Request.acceptable r' /\ h = hop - 1 /\ l = life) as (((Hpos & Hmax) & _) & -> & ->).
    { by apply (submit_Admit c r' h l fwd). }
    simpl in Hpos, Hmax. apply IH in Hf as (Hhop & -> & _). rewrite len_cons.
    split; [lia|]. split; [done|]. lia.
Qed.

(** Witnesses: a node with three peers that has seen one request. *)

Definition sample_request (hop_limit : u64) (candidates : list (list u8)) (now : Instant) : Request.t :=
  Request.mk (repeat 1 16) [9] 0 hop_limit 30000 candidates RequestPolicy.default now.

Definition empty_cache : RequestCache.t := RequestCache.new 4 30000.


Lemma improved_request_reforwarded_witness :
  let c := Request.step empty_cache (sample_request 4 [[1]; [2]] 0) in
  let r := sample_request 8 [[3]; [1]] 5 in
  (Request.submit c r).1 = Ok (Admit 7 30000 [[3]; [1]]) /\
  (Request.submit (Request.step c r) r).1 = Ok (Admit 7 30000 [[3]; [1]]).
Proof.
  intros c r.
  destruct (improved_request_reforwarded c r
    (CachedRequest.mk (Request.identity r) 0 4 30000 [[1]; [2]]) [3] [[1]] [1]) as [E1 E2].
  - repeat split; vm_compute; congruence.
  - vm_compute; congruence.
  - by vm_compute.
  - by vm_compute.
  - by vm_compute.
  - apply elem_of_cons. by left.
  - apply elem_of_cons. by left.
  - unfold Request.step. rewrite E1. cbn [fst snd]. rewrite E2. split; by vm_compute.
Defined.

Lemma request_hops_bounded_witness :
  forward_along [(empty_cache, sample_request 0 [[1]] 0); (empty_cache, sample_request 0 [[2]] 0)] 8 100
    = Some (6, 100) /\ 8 = 6 + 2.
Proof.
  split; [by vm_compute|].
  by apply (request_hops_bounded [(empty_cache, sample_request 0 [[1]] 0); (empty_cache, sample_request 0 [[2]] 0)]
              8 100 6 100).
Defined.
