(* ===== verification/RouteResponses.v ===== *)
(** * Route responses

    Reverse-path state (crates/umc-routing/src/reverse.rs) and the validation of
    route responses (crates/umc-routing/src/response.rs). *)

From stdpp Require Import gmap.
From Stdlib Require Import Sorting.Sorted.
From S2P Require Import Prelude SentPackets Records FramesRouting RouteTypes.

#[local] Open Scope N_scope.

Module ReverseEntry.

Record t := mk {
  request_id : list u8;
  upstream : list u8;
  expiry : Instant;
  response_count : usize;
  last_response_sequence : option u64
}.

End ReverseEntry.

Module ReverseState.

Record t := mk {
  entries : gmap (list u8) ReverseEntry.t;
  retention : Duration
}.

Definition new (retention : Duration) : t := mk ∅ retention.

Definition create (s : t) (request_id upstream : list u8) (now : Instant) : t :=
  s <| entries := <[request_id :=
         ReverseEntry.mk request_id upstream (instant_add now s.(retention)) 0 None]> s.(entries) |>.

Definition remove (s : t) (request_id : list u8) : bool * t :=
  (match s.(entries) !! request_id with Some _ => true | None => false end,
   s <| entries := delete request_id s.(entries) |>).

Definition prune (s : t) (now : Instant) : t :=
  s <| entries := filter (fun kv => now < kv.2.(ReverseEntry.expiry)) s.(entries) |>.

Definition route_response (s : t) (request_id : list u8) (now : Instant) : option (list u8) * t :=
  let s := prune s now in
  match s.(entries) !! request_id with
  | None => (None, s)
  | Some entry =>
      if MAX_RESPONSES_PER_BRANCH <=? entry.(ReverseEntry.response_count) then (None, s)
      else
        (Some entry.(ReverseEntry.upstream),
         s <| entries := <[request_id := entry <| ReverseEntry.response_count :=
                entry.(ReverseEntry.response_count) + 1 |>]> s.(entries) |>)
  end.

Definition remaining_lifetime_ms (s : t) (request_id : list u8) (now : Instant) : option u64 * t :=
  let s := prune s now in
  match s.(entries) !! request_id with
  | None => (None, s)
  | Some entry =>
      if entry.(ReverseEntry.expiry) <=? now then (None, s)
      else (Some (duration_since entry.(ReverseEntry.expiry) now), s)
  end.

Definition route_response_with_sequence (s : t) (request_id : list u8) (sequence : u64) (now : Instant)
    : option (list u8) * t :=
  let s := prune s now in
  match s.(entries) !! request_id with
  | None => (None, s)
  | Some entry =>
      let stale :=
        match entry.(ReverseEntry.last_response_sequence) with
        | Some last => sequence <=? last
        | None => false
        end in
      if (MAX_RESPONSES_PER_BRANCH <=? entry.(ReverseEntry.response_count)) || stale then (None, s)
      else
        (Some entry.(ReverseEntry.upstream),
         s <| entries := <[request_id := entry <| ReverseEntry.last_response_sequence := Some sequence |>
                <| ReverseEntry.response_count := entry.(ReverseEntry.response_count) + 1 |>]> s.(entries) |>)
  end.

Definition upstream_of (s : t) (request_id : list u8) (now : Instant) : option (list u8) :=
  match s.(entries) !! request_id with
  | None => None
  | Some entry => if entry.(ReverseEntry.expiry) <=? now then None else Some entry.(ReverseEntry.upstream)
  end.

End ReverseState.

Inductive ResponseError :=
| ZeroLifetime
| ResponseLifetimeTooLong
| ExceedsRequestLifetime
| ConflictingFlags.

Definition validate_response (response : RouteResponseFrame.t) (remaining_request_lifetime_ms : u64)
    : Result ResponseError unit :=
  if response.(RouteResponseFrame.direct) && response.(RouteResponseFrame.relay_required)
  then Err ConflictingFlags
  else if response.(RouteResponseFrame.route_lifetime) =? 0 then Err ZeroLifetime
  else if MAX_REQUEST_LIFETIME_MS <? response.(RouteResponseFrame.route_lifetime)
  then Err ResponseLifetimeTooLong
  else if remaining_request_lifetime_ms <? response.(RouteResponseFrame.route_lifetime)
  then Err ExceedsRequestLifetime
  else Ok tt.

(** ** Runs *)

Module Reverse.

Inductive op :=
| Create (request_id upstream : list u8) (now : Instant)
| Remove (request_id : list u8)
| Route (request_id : list u8) (now : Instant)
| RouteSequence (request_id : list u8) (sequence : u64) (now : Instant)
| Remaining (request_id : list u8) (now : Instant).

(** A response handed to an upstream peer: for which request, to whom, when, and
    with which sequence number if it has one. *)
Record routed := mk_routed {
  for_request : list u8;
  to : list u8;
  at_ : Instant;
  numbered : option u64
}.

Definition emit (request_id : list u8) (now : Instant) (numbered : option u64) (r : option (list u8))
    : list routed :=
  match r with
  | Some upstream => [mk_routed request_id upstream now numbered]
  | None => []
  end.

Definition step (s : ReverseState.t) (o : op) : list routed * ReverseState.t :=
  match o with
  | Create request_id upstream now => ([], ReverseState.create s request_id upstream now)
  | Remove request_id => ([], (ReverseState.remove s request_id).2)
  | Route request_id now =>
      let '(r, s) := ReverseState.route_response s request_id now in
      (emit request_id now None r, s)
  | RouteSequence request_id sequence now =>
      let '(r, s) := ReverseState.route_response_with_sequence s request_id sequence now in
      (emit request_id now (Some sequence) r, s)
  | Remaining request_id now => ([], (ReverseState.remaining_lifetime_ms s request_id now).2)
  end.

Fixpoint run (s : ReverseState.t) (os : list op) : list routed * ReverseState.t :=
  match os with
  | [] => ([], s)
  | o :: os =>
      let '(out, s) := step s o in
      let '(outs, s) := run s os in
      (out ++ outs, s)
  end.

(** The operation does not open a new branch for [rid]. *)
Definition reopens (rid : list u8) (o : op) : bool :=
  match o with
  | Create request_id _ _ => bool_decide (request_id = rid)
  | _ => false
  end.

Definition branch_of (rid : list u8) (outs : list routed) : list routed :=
  filter (fun r => r.(for_request) = rid) outs.

Definition numbers (outs : list routed) : list u64 := omap numbered outs.

End Reverse.

(** ** One branch *)

Lemma prune_lookup s now rid :
  (ReverseState.prune s now).(ReverseState.entries) !! rid =
  match s.(ReverseState.entries) !! rid with
  | Some e => if decide (now < e.(ReverseEntry.expiry)) then Some e else None
  | None => None
  end.
Proof.
  unfold ReverseState.prune. simpl. destruct (s.(ReverseState.entries) !! rid) as [e|] eqn:E.
  - case_decide as Hn.
    + by apply map_lookup_filter_Some_2.
    + apply map_lookup_filter_None. right. intros e' He' Hl. simplify_eq. done.
  - apply map_lookup_filter_None. by left.
Qed.

(** The entry after a routed response. *)
Definition answered (numbered : option u64) (e : ReverseEntry.t) : ReverseEntry.t :=
  e <| ReverseEntry.last_response_sequence :=
         match numbered with
         | Some _ => numbered
         | None => e.(ReverseEntry.last_response_sequence)
         end |>
    <| ReverseEntry.response_count := e.(ReverseEntry.response_count) + 1 |>.

(** What one operation that does not reopen the branch of [rid] does to it: it
    leaves or drops the entry without an answer, or routes one response. *)
Inductive branch_step (rid : list u8) (before after : option ReverseEntry.t) : list Reverse.routed -> Prop :=
| branch_quiet : after = None \/ after = before -> branch_step rid before after []
| branch_routes e now numbered :
    before = Some e -> now < e.(ReverseEntry.expiry) ->
    e.(ReverseEntry.response_count) < MAX_RESPONSES_PER_BRANCH ->
    (forall n last, numbered = Some n -> e.(ReverseEntry.last_response_sequence) = Some last -> last < n) ->
    after = Some (answered numbered e) ->
    branch_step rid before after [Reverse.mk_routed rid e.(ReverseEntry.upstream) now numbered].

Lemma prune_quiet rid s now :
  branch_step rid (s.(ReverseState.entries) !! rid)
    ((ReverseState.prune s now).(ReverseState.entries) !! rid) [].
Proof.
  constructor. rewrite prune_lookup. destruct (_ !! rid); [|by left]. case_decide; [by right|by left].
Qed.

Lemma branch_of_other rid k now n u :
  k <> rid -> Reverse.branch_of rid (Reverse.emit k now n u) = [].
Proof. intros Hk. destruct u; simpl; [|done]. unfold Reverse.branch_of. by rewrite filter_cons_False. Qed.

Lemma route_branch rid k s now numbered e :
  (ReverseState.prune s now).(ReverseState.entries) !! k = Some e ->
  e.(ReverseEntry.response_count) < MAX_RESPONSES_PER_BRANCH ->
  (forall n last, numbered = Some n -> e.(ReverseEntry.last_response_sequence) = Some last -> last < n) ->
  branch_step rid (s.(ReverseState.entries) !! rid)
    (<[k := answered numbered e]> (ReverseState.prune s now).(ReverseState.entries) !! rid)
    (Reverse.branch_of rid (Reverse.emit k now numbered (Some e.(ReverseEntry.upstream)))).
Proof.
  intros E Hc Hn. destruct (decide (k = rid)) as [->|Hk].
  - rewrite lookup_insert_eq. rewrite prune_lookup in E.
    destruct (s.(ReverseState.entries) !! rid) as [e'|]; [|done].
    case_decide as Hnow; [|done]. injection E as ->. unfold Reverse.branch_of. cbn [Reverse.emit].
    rewrite filter_cons_True by done. rewrite filter_nil. by eapply branch_routes.
  - rewrite branch_of_other, lookup_insert_ne by done. apply prune_quiet.
Qed.

Lemma step_branch rid s o :
  Reverse.reopens rid o = false ->
  let '(out, s') := Reverse.step s o in
  branch_step rid (s.(ReverseState.entries) !! rid) (s'.(ReverseState.entries) !! rid)
    (Reverse.branch_of rid out).
Proof.
  intros Ho. destruct o as [k up now|k|k now|k n now|k now]; simpl in *.
  - apply bool_decide_eq_false in Ho. constructor. right. by rewrite lookup_insert_ne.
  - constructor. destruct (decide (k = rid)) as [->|Hk]; [left; apply lookup_delete_eq|right].
    by rewrite lookup_delete_ne.
  - unfold ReverseState.route_response. pose proof (prune_quiet rid s now) as Hq.
    destruct (_ !! k) as [e|] eqn:E; [|exact Hq].
    destruct (N.leb_spec MAX_RESPONSES_PER_BRANCH e.(ReverseEntry.response_count)) as [|Hc]; [exact Hq|].
    replace (e <| ReverseEntry.response_count := _ |>) with (answered None e) by by destruct e.
    by apply route_branch.
  - unfold ReverseState.route_response_with_sequence. pose proof (prune_quiet rid s now) as Hq.
    destruct (_ !! k) as [e|] eqn:E; [|exact Hq].
    destruct (N.leb_spec MAX_RESPONSES_PER_BRANCH e.(ReverseEntry.response_count)) as [|Hc]; [exact Hq|].
    cbn [orb]. destruct (match _ with Some _ => _ | None => _ end) eqn:Es; [exact Hq|].
    apply (route_branch rid k s now (Some n) e E Hc).
    intros n' last [= <-] Hlast. rewrite Hlast in Es. lia.
  - unfold ReverseState.remaining_lifetime_ms. pose proof (prune_quiet rid s now) as Hq.
    destruct (_ !! k) as [e|]; [|exact Hq]. destruct (_ <=? _); exact Hq.
Qed.

(** All that a branch may still see: responses to its upstream peer before its
    expiry, within its budget, with rising numbers. *)
Record branch_spec (e : ReverseEntry.t) (outs : list Reverse.routed) : Prop := {
  branch_upstream : Forall (fun r => r.(Reverse.to) = e.(ReverseEntry.upstream) /\
                                     r.(Reverse.at_) < e.(ReverseEntry.expiry)) outs;
  branch_budget : outs = [] \/ e.(ReverseEntry.response_count) + len outs <= MAX_RESPONSES_PER_BRANCH;
  branch_rising : StronglySorted N.lt (Reverse.numbers outs);
  branch_above last : e.(ReverseEntry.last_response_sequence) = Some last ->
    Forall (N.lt last) (Reverse.numbers outs)
}.

Lemma branch_spec_nil e : branch_spec e [].
Proof. split; [constructor|by left|constructor|intros last _; constructor]. Qed.

Lemma branch_spec_cons rid e now numbered outs :
  now < e.(ReverseEntry.expiry) -> e.(ReverseEntry.response_count) < MAX_RESPONSES_PER_BRANCH ->
  (forall n last, numbered = Some n -> e.(ReverseEntry.last_response_sequence) = Some last -> last < n) ->
  branch_spec (answered numbered e) outs ->
  branch_spec e (Reverse.mk_routed rid e.(ReverseEntry.upstream) now numbered :: outs).
Proof.
  intros Hnow Hc Hseq [Hu Hb Hr Ha]. unfold answered in *. simpl in Hu, Hb, Ha. split.
  - by constructor.
  - right. rewrite len_cons. destruct Hb as [->|Hb]; [rewrite len_nil|]; lia.
  - destruct numbered as [n|]; simpl; [|done]. constructor; [done|]. by apply Ha.
  - intros last Hlast. destruct numbered as [n|]; simpl; [|by apply Ha].
    specialize (Hseq n last eq_refl Hlast). constructor; [done|].
    eapply list.Forall_impl; [by apply Ha|]. simpl. intros x Hx. lia.
Qed.

Lemma branch_of_app rid l k :
  Reverse.branch_of rid (l ++ k) = Reverse.branch_of rid l ++ Reverse.branch_of rid k.
Proof. apply list.filter_app. Qed.

Lemma run_branch rid os s :
  forallb (fun o => negb (Reverse.reopens rid o)) os = true ->
  let outs := Reverse.branch_of rid (Reverse.run s os).1 in
  match s.(ReverseState.entries) !! rid with
  | Some e => branch_spec e outs
  | None => outs = []
  end.
Proof.
  revert s. induction os as [|o os IH]; intros s Hos; simpl.
  { destruct (_ !! rid); [apply branch_spec_nil|done]. }
  simpl in Hos. apply andb_true_iff in Hos as [Ho Hos]. apply negb_true_iff in Ho.
  pose proof (step_branch rid s o Ho) as Hstep. destruct (Reverse.step s o) as [out s1].
  specialize (IH s1 Hos). destruct (Reverse.run s1 os) as [outs s2]. cbn [fst] in *.
  rewrite branch_of_app. inversion Hstep as [Hq E|e now numbered He Hnow Hc Hseq Haft E].
  - simpl. destruct Hq as [Hq|Hq]; rewrite Hq in IH; [|exact IH]. rewrite IH.
    destruct (_ !! rid); [apply branch_spec_nil|done].
  - rewrite He. rewrite Haft in IH. simpl. by apply branch_spec_cons.
Qed.

(** ** Theorems *)

(** C33: From the moment a request opens its reverse branch until the branch is
    opened anew, whatever else happens: every response routed for the request
    goes to the neighbour that sent it, before the branch expires; at most eight
    are routed; and the numbered ones carry strictly rising numbers, so that no
    response is routed twice. *)
Theorem reverse_branch s rid upstream now os :
  forallb (fun o => negb (Reverse.reopens rid o)) os = true ->
  let outs := Reverse.branch_of rid (Reverse.run (ReverseState.create s rid upstream now) os).1 in
  Forall (fun r => r.(Reverse.to) = upstream /\
                   r.(Reverse.at_) < instant_add now s.(ReverseState.retention)) outs /\
  len outs <= MAX_RESPONSES_PER_BRANCH /\
  StronglySorted N.lt (Reverse.numbers outs).
Proof.
  intros Hos outs. pose proof (run_branch rid os (ReverseState.create s rid upstream now) Hos) as H.
  cbn zeta in H. fold outs in H. clearbody outs. unfold ReverseState.create in H. simpl in H. rewrite lookup_insert_eq in H.
  destruct H as [Hu Hb Hr _]. simpl in *. repeat split; [done| |done].
  destruct Hb as [->|Hb]; [rewrite len_nil; unfold MAX_RESPONSES_PER_BRANCH|]; lia.
Qed.

Lemma reverse_branch_witness :
  let s := ReverseState.new 1000 in
  let os := [Reverse.RouteSequence [7] 4 10; Reverse.RouteSequence [7] 4 11; Reverse.RouteSequence [7] 5 12;
             Reverse.RouteSequence [7] 6 1000] in
  let outs := Reverse.branch_of [7] (Reverse.run (ReverseState.create s [7] [1; 2] 0) os).1 in
  Reverse.numbers outs = [4; 5] /\ len outs <= MAX_RESPONSES_PER_BRANCH.
Proof.
  intros s os outs. split; [by vm_compute|].
  by apply (reverse_branch s [7] [1; 2] 0 os).
Defined.

(** A response accepted for a branch with the lifetime the branch has left
    is not of conflicting kinds, lives at least a millisecond and at most five
    minutes, and its route ends no later than the branch that asked for it. *)
Theorem response_within_branch s rid now remaining response :
  (ReverseState.remaining_lifetime_ms s rid now).1 = Some remaining ->
  validate_response response remaining = Ok tt ->
  let life := response.(RouteResponseFrame.route_lifetime) in
  0 < life <= MAX_REQUEST_LIFETIME_MS /\
  response.(RouteResponseFrame.direct) && response.(RouteResponseFrame.relay_required) = false /\
  exists e, s.(ReverseState.entries) !! rid = Some e /\ now + life <= e.(ReverseEntry.expiry).
Proof.
  intros Hr Hv life. unfold validate_response in Hv. fold life in Hv.
  destruct (_ && _); [done|]. destruct (N.eqb_spec life 0); [done|].
  destruct (N.ltb_spec MAX_REQUEST_LIFETIME_MS life); [done|].
  destruct (N.ltb_spec remaining life) as [|Hle]; [done|]. split; [lia|]. split; [done|].
  unfold ReverseState.remaining_lifetime_ms in Hr. rewrite prune_lookup in Hr.
  destruct (s.(ReverseState.entries) !! rid) as [e|]; [|done]. exists e. split; [done|].
  case_decide; [|done]. destruct (N.leb_spec e.(ReverseEntry.expiry) now); [done|].
  simpl in Hr. injection Hr as <-. unfold duration_since, saturating_sub in Hle. lia.
Qed.

Definition sample_response (lifetime : u64) : RouteResponseFrame.t :=
  RouteResponseFrame.mk 1 0 true false false true false lifetime [] [] [].

Lemma response_within_branch_witness :
  let s := ReverseState.create (ReverseState.new 1000) [7] [1] 0 in
  exists e, s.(ReverseState.entries) !! [7] = Some e /\ 300 + 700 <= e.(ReverseEntry.expiry).
Proof.
  intros s. by apply (response_within_branch s [7] 300 700 (sample_response 700)).
Defined.
