(* ===== verification/RoutePaths.v ===== *)
(** * Route paths (crates/umc-routing/src/paths.rs)

    The path carried in the metadata of a ROUTE_RESPONSE, its encoder and
    decoder, and the builder that checks a path hop by hop. *)

From S2P Require Import Prelude Codec FramesRouting Records RouteTypes.

Definition DEFAULT_MAX_RELAYS : usize := 4.
Definition MAX_PATH_HOPS : usize := 32.
Definition MAX_PATH_EXCLUSIONS : usize := 32.
Definition MAX_PEER_ID : usize := 64.
Definition MAX_FAILURE_DOMAIN : usize := 64.
Definition MAX_PATH_BYTES : usize := 8 * 1024.

(** [b"UMP-PATH"]. *)
Definition PATH_METADATA_MAGIC : list u8 := [0x55; 0x4D; 0x50; 0x2D; 0x50; 0x41; 0x54; 0x48].
Definition PATH_METADATA_VERSION : u8 := 1.

Module PathPolicy.

Record t := mk {
  max_hops : usize;
  max_relays : usize;
  minimum_distinct_failure_domains : usize;
  allow_direct : bool
}.

Definition default : t := mk MAX_PATH_HOPS DEFAULT_MAX_RELAYS 0 true.

End PathPolicy.

Module PathHop.

Record t := mk {
  peer : list u8;
  scope : RouteScope.t;
  failure_domain : list u8;
  relay : bool
}.

#[global] Instance eq_dec : EqDecision t.
Proof. solve_decision. Defined.

End PathHop.

Module RoutePath.

Record t := mk {
  hops : list PathHop.t;
  effective_scope : RouteScope.t;
  relay_count : usize;
  distinct_failure_domains : usize
}.

End RoutePath.

Inductive PathError :=
| TooManyExclusions
| ExclusionTooLong
| InvalidPeer
| FailureDomainTooLong
| ExcludedPeer
| LoopDetected
| ScopeBroadened
| PathHopLimitExceeded
| RelayLimitExceeded
| PathTooLarge
| EmptyPath
| InsufficientDiversity (required actual : usize).

Module PathMetadata.

Inductive error :=
| InvalidMarker
| UnsupportedVersion
| TooManyHops
| Truncated
| InvalidScope
| InvalidFlags
| InvalidPeer
| InvalidFailureDomain
| PathTooLarge
| TrailingBytes.

Definition scope_code (scope : RouteScope.t) : u8 :=
  match scope with
  | RouteScope.LinkLocal => 0
  | RouteScope.LocalMesh => 1
  | RouteScope.Introduced => 2
  | RouteScope.General => 3
  end.

Definition scope_from_code (code : u8) : option RouteScope.t :=
  match code with
  | 0 => Some RouteScope.LinkLocal
  | 1 => Some RouteScope.LocalMesh
  | 2 => Some RouteScope.Introduced
  | 3 => Some RouteScope.General
  | _ => None
  end.

(** [u8::try_from(n).map_err(|_| e)]. *)
Definition u8_try_from (n : usize) (e : error) : Result error u8 :=
  if n <=? u8_max then Ok n else Err e.

Fixpoint encode_hops (out : list u8) (hops : list PathHop.t) : Result error (list u8) :=
  match hops with
  | [] => Ok out
  | hop :: hops =>
      if (len hop.(PathHop.peer) =? 0) || (MAX_PEER_ID <? len hop.(PathHop.peer)) then Err InvalidPeer
      else if MAX_FAILURE_DOMAIN <? len hop.(PathHop.failure_domain) then Err InvalidFailureDomain
      else
        peer_len ← u8_try_from (len hop.(PathHop.peer)) InvalidPeer;
        domain_len ← u8_try_from (len hop.(PathHop.failure_domain)) InvalidFailureDomain;
        let out := out ++ [peer_len] ++ hop.(PathHop.peer)
                       ++ [scope_code hop.(PathHop.scope); if hop.(PathHop.relay) then 1 else 0; domain_len]
                       ++ hop.(PathHop.failure_domain) in
        if MAX_PATH_BYTES <? len out then Err PathTooLarge else encode_hops out hops
  end.

Definition encode_path_metadata (hops : list PathHop.t) : Result error (list u8) :=
  if MAX_PATH_HOPS <? len hops then Err TooManyHops
  else
    count ← u8_try_from (len hops) TooManyHops;
    encode_hops (PATH_METADATA_MAGIC ++ [PATH_METADATA_VERSION; count]) hops.

(** One round of the decoding loop at position [pos]. *)
Definition decode_hop (bytes : list u8) (pos : usize) : Result error (PathHop.t * usize) :=
  peer_len ← ok_or Truncated (get bytes pos);
  let pos := pos + 1 in
  if (peer_len =? 0) || (MAX_PEER_ID <? peer_len) then Err InvalidPeer
  else
    peer_end ← ok_or Truncated (checked_add pos peer_len);
    peer ← ok_or Truncated (get_range bytes pos peer_end);
    let pos := peer_end in
    code ← ok_or Truncated (get bytes pos);
    scope ← ok_or InvalidScope (scope_from_code code);
    let pos := pos + 1 in
    flags ← ok_or Truncated (get bytes pos);
    let pos := pos + 1 in
    if negb (N.land flags 254 =? 0) then Err InvalidFlags
    else
      domain_len ← ok_or Truncated (get bytes pos);
      let pos := pos + 1 in
      if MAX_FAILURE_DOMAIN <? domain_len then Err InvalidFailureDomain
      else
        domain_end ← ok_or Truncated (checked_add pos domain_len);
        failure_domain ← ok_or Truncated (get_range bytes pos domain_end);
        mret (PathHop.mk peer scope failure_domain (negb (N.land flags 1 =? 0)), domain_end).

Fixpoint decode_hops (count : nat) (bytes : list u8) (pos : usize) : Result error (list PathHop.t * usize) :=
  match count with
  | O => mret ([], pos)
  | S count =>
      '(hop, pos) ← decode_hop bytes pos;
      '(hops, pos) ← decode_hops count bytes pos;
      mret (hop :: hops, pos)
  end.

Definition decode_path_metadata (bytes : list u8) : Result error (list PathHop.t) :=
  if len bytes =? 0 then Ok []
  else if MAX_PATH_BYTES <? len bytes then Err PathTooLarge
  else if (len bytes <? len PATH_METADATA_MAGIC + 2) ||
          negb (bool_decide (take (length PATH_METADATA_MAGIC) bytes = PATH_METADATA_MAGIC))
  then Err InvalidMarker
  else
    match get bytes (len PATH_METADATA_MAGIC), get bytes (len PATH_METADATA_MAGIC + 1) with
    | Some version, Some count =>
        if negb (version =? PATH_METADATA_VERSION) then Err UnsupportedVersion
        else if MAX_PATH_HOPS <? count then Err TooManyHops
        else
          '(hops, pos) ← decode_hops (N.to_nat count) bytes (len PATH_METADATA_MAGIC + 2);
          if negb (pos =? len bytes) then Err TrailingBytes else Ok hops
    | _, _ => Err Truncated
    end.

Definition prepend_path_metadata (metadata : list u8) (hop : PathHop.t) : Result error (list u8) :=
  hops ← decode_path_metadata metadata;
  encode_path_metadata (hop :: hops).

End PathMetadata.

Module PathBuilder.

Record t := mk {
  request_scope : RouteScope.t;
  effective_scope : RouteScope.t;
  exclusions : list (list u8);
  policy : PathPolicy.t;
  hops : list PathHop.t;
  relay_count : usize;
  encoded_bytes : usize
}.

Definition new (request_scope : RouteScope.t) (exclusions : list (list u8)) (policy : PathPolicy.t)
    : Result PathError t :=
  if MAX_PATH_EXCLUSIONS <? len exclusions then Err TooManyExclusions
  else if existsb (fun entry => MAX_PEER_ID <? len entry) exclusions then Err ExclusionTooLong
  else
    let max_hops := N.min policy.(PathPolicy.max_hops) MAX_PATH_HOPS in
    let max_relays := N.min policy.(PathPolicy.max_relays) MAX_PATH_HOPS in
    Ok (mk request_scope request_scope exclusions
          (PathPolicy.mk max_hops max_relays policy.(PathPolicy.minimum_distinct_failure_domains)
             policy.(PathPolicy.allow_direct)) [] 0 0).

Definition push (b : t) (hop : PathHop.t) : Result PathError t :=
  if (len hop.(PathHop.peer) =? 0) || (MAX_PEER_ID <? len hop.(PathHop.peer)) then Err InvalidPeer
  else if MAX_FAILURE_DOMAIN <? len hop.(PathHop.failure_domain) then Err FailureDomainTooLong
  else if existsb (fun excluded => bool_decide (excluded = hop.(PathHop.peer))) b.(exclusions)
  then Err ExcludedPeer
  else if existsb (fun existing => bool_decide (existing.(PathHop.peer) = hop.(PathHop.peer))) b.(hops)
  then Err LoopDetected
  else if negb (RouteScope.narrows_to b.(effective_scope) hop.(PathHop.scope)) then Err ScopeBroadened
  else if b.(policy).(PathPolicy.max_hops) <=? len b.(hops) then Err PathHopLimitExceeded
  else if hop.(PathHop.relay) && (b.(policy).(PathPolicy.max_relays) <=? b.(relay_count))
  then Err RelayLimitExceeded
  else
    let hop_bytes := saturating_add (saturating_add 2 (len hop.(PathHop.peer)))
                                    (len hop.(PathHop.failure_domain)) in
    if MAX_PATH_BYTES <? saturating_add b.(encoded_bytes) hop_bytes then Err PathTooLarge
    else
      Ok (mk b.(request_scope) hop.(PathHop.scope) b.(exclusions) b.(policy) (b.(hops) ++ [hop])
            (if hop.(PathHop.relay) then b.(relay_count) + 1 else b.(relay_count))
            (b.(encoded_bytes) + hop_bytes)).

(** The domains [finish] collects. *)
Definition collect_domain (domains : list (list u8)) (hop : PathHop.t) : list (list u8) :=
  if negb (len hop.(PathHop.failure_domain) =? 0) &&
     negb (existsb (fun domain => bool_decide (domain = hop.(PathHop.failure_domain))) domains)
  then domains ++ [hop.(PathHop.failure_domain)]
  else domains.

Definition finish (b : t) : Result PathError RoutePath.t :=
  if (len b.(hops) =? 0) && negb b.(policy).(PathPolicy.allow_direct) then Err EmptyPath
  else
    let distinct_failure_domains := len (fold_left collect_domain b.(hops) []) in
    if distinct_failure_domains <? b.(policy).(PathPolicy.minimum_distinct_failure_domains)
    then Err (InsufficientDiversity b.(policy).(PathPolicy.minimum_distinct_failure_domains)
                distinct_failure_domains)
    else Ok (RoutePath.mk b.(hops) b.(effective_scope) b.(relay_count) distinct_failure_domains).

(** Hops are offered one after the other; a refused one leaves the builder as it was. *)
Definition offer (b : t) (hop : PathHop.t) : t :=
  match push b hop with
  | Ok b => b
  | Err _ => b
  end.

End PathBuilder.

(** ** The encoding *)

Definition hop_ok (h : PathHop.t) : Prop :=
  0 < len h.(PathHop.peer) <= MAX_PEER_ID /\ len h.(PathHop.failure_domain) <= MAX_FAILURE_DOMAIN.

Definition hop_bytes (h : PathHop.t) : list u8 :=
  [len h.(PathHop.peer)] ++ h.(PathHop.peer)
  ++ [PathMetadata.scope_code h.(PathHop.scope); if h.(PathHop.relay) then 1 else 0; len h.(PathHop.failure_domain)]
  ++ h.(PathHop.failure_domain).

Definition path_bytes (hops : list PathHop.t) : list u8 := mjoin (hop_bytes <$> hops).

Definition path_header (hops : list PathHop.t) : list u8 :=
  PATH_METADATA_MAGIC ++ [PATH_METADATA_VERSION; len hops].

Lemma hop_bytes_le h : hop_ok h -> len (hop_bytes h) <= 132.
Proof.
  intros [[_ Hp] Hd]. unfold hop_bytes. autorewrite with umc. unfold MAX_PEER_ID, MAX_FAILURE_DOMAIN in *. lia.
Qed.

Lemma path_bytes_cons h hops : path_bytes (h :: hops) = hop_bytes h ++ path_bytes hops.
Proof. done. Qed.

Lemma path_bytes_le hops : Forall hop_ok hops -> len (path_bytes hops) <= 132 * len hops.
Proof.
  induction 1 as [|h hops Hh _ IH]; [done|]. apply hop_bytes_le in Hh.
  rewrite path_bytes_cons, len_app, len_cons. lia.
Qed.

(** Every well-formed hop is written, whatever came before, while the total
    stays within the bound. *)
Lemma encode_hops_ok hops out :
  Forall hop_ok hops -> len out + 132 * len hops <= MAX_PATH_BYTES ->
  PathMetadata.encode_hops out hops = Ok (out ++ path_bytes hops).
Proof.
  intros Hok. revert out. induction Hok as [|h hops Hh _ IH]; intros out Hl; cbn [PathMetadata.encode_hops].
  { unfold path_bytes. simpl. by rewrite app_nil_r. }
  pose proof (hop_bytes_le h Hh) as Hb. destruct Hh as [[Hp0 Hp] Hd]. rewrite len_cons in Hl.
  destruct (_ || _) eqn:E1; [lia|]. destruct (N.ltb_spec MAX_FAILURE_DOMAIN (len h.(PathHop.failure_domain))); [lia|].
  unfold PathMetadata.u8_try_from. unfold MAX_PEER_ID, MAX_FAILURE_DOMAIN in *.
  rewrite (proj2 (N.leb_le (len h.(PathHop.peer)) u8_max)) by (unfold u8_max; lia).
  rewrite (proj2 (N.leb_le (len h.(PathHop.failure_domain)) u8_max)) by (unfold u8_max; lia).
  cbn [mbind Result_bind]. cbv zeta. fold (hop_bytes h).
  destruct (N.ltb_spec MAX_PATH_BYTES (len (out ++ hop_bytes h))) as [Hlt|_]; [rewrite len_app in Hlt; lia|].
  rewrite IH by (rewrite len_app; lia). by rewrite path_bytes_cons, <- app_assoc.
Qed.

Lemma encode_hops_inv hops out b :
  PathMetadata.encode_hops out hops = Ok b -> Forall hop_ok hops /\ b = out ++ path_bytes hops.
Proof.
  revert out. induction hops as [|h hops IH]; intros out; cbn [PathMetadata.encode_hops].
  { intros [= <-]. unfold path_bytes. simpl. by rewrite app_nil_r. }
  destruct (_ || _) eqn:E1; [done|]. destruct (N.ltb_spec MAX_FAILURE_DOMAIN (len h.(PathHop.failure_domain))); [done|].
  intros (pl & Hpl & (dl & Hdl & Hr)%bind_Ok)%bind_Ok.
  unfold PathMetadata.u8_try_from in *. destruct (_ <=? u8_max); [|done]. injection Hpl as <-.
  destruct (len (PathHop.failure_domain h) <=? u8_max); [|done]. injection Hdl as <-. cbv zeta in Hr.
  fold (hop_bytes h) in Hr. destruct (MAX_PATH_BYTES <? _); [done|].
  destruct (IH _ Hr) as [Hok ->]. split.
  - constructor; [|done]. unfold hop_ok. lia.
  - by rewrite path_bytes_cons, <- app_assoc.
Qed.

Lemma len_path_header hops : len (path_header hops) = 10.
Proof. done. Qed.

(** A path encodes exactly when it has at most 32 hops and each is within its
    limits: the bound on the total is never reached. *)
Lemma encode_path_Ok hops b :
  PathMetadata.encode_path_metadata hops = Ok b <->
  len hops <= MAX_PATH_HOPS /\ Forall hop_ok hops /\ b = path_header hops ++ path_bytes hops.
Proof.
  unfold PathMetadata.encode_path_metadata, PathMetadata.u8_try_from, MAX_PATH_HOPS. split.
  - destruct (N.ltb_spec 32 (len hops)); [done|]. intros (n & Hn & Hr)%bind_Ok.
    destruct (_ <=? u8_max); [|done]. injection Hn as <-.
    by apply encode_hops_inv in Hr.
  - intros (Hl & Hok & ->). destruct (N.ltb_spec 32 (len hops)); [lia|].
    rewrite (proj2 (N.leb_le (len hops) u8_max)) by (unfold u8_max; lia). cbn [mbind Result_bind].
    apply encode_hops_ok; [done|]. fold (path_header hops). rewrite len_path_header.
    unfold MAX_PATH_BYTES. lia.
Qed.

(** ** Decoding *)

Lemma scope_from_scope_code s : PathMetadata.scope_from_code (PathMetadata.scope_code s) = Some s.
Proof. by destruct s. Qed.

Lemma scope_from_code_Some c s : PathMetadata.scope_from_code c = Some s -> c = PathMetadata.scope_code s.
Proof. destruct c as [|[[]|[]|]]; simpl; intros [= <-]; done. Qed.

(** A byte whose upper seven bits are clear is zero or one. *)
Lemma flag_byte f : f <= u8_max -> N.land f 254 = 0 -> f = if negb (N.land f 1 =? 0) then 1 else 0.
Proof.
  intros Hf Hl.
  assert (H : all_below 256 (fun f => negb (N.land f 254 =? 0) || (f =? if negb (N.land f 1 =? 0) then 1 else 0)) = true)
    by (vm_compute; reflexivity).
  pose proof (all_below_spec 256 _ H f ltac:(unfold u8_max in Hf; lia)) as E. cbv beta in E.
  rewrite Hl in E. simpl in E. by apply N.eqb_eq in E.
Qed.

(** What is read at a position is what the rest starts with. *)
Lemma get_from {A} (l : list A) i x : get l i = Some x -> from l i = x :: from l (i + 1).
Proof.
  unfold get, from. destruct (N.ltb_spec i (len l)); [|done]. intros Hx.
  replace (N.to_nat (i + 1)) with (S (N.to_nat i)) by lia. by apply drop_S.
Qed.

Lemma get_range_from {A} (l : list A) lo hi k :
  get_range l lo hi = Some k -> from l lo = k ++ from l hi /\ len k = hi - lo /\ lo <= hi <= len l.
Proof.
  intros (H1 & H2 & H3 & ->)%get_range_Some. repeat split; try done. unfold from.
  replace (N.to_nat hi) with (N.to_nat lo + N.to_nat (hi - lo))%nat by lia.
  by rewrite <- drop_drop, take_drop.
Qed.

Lemma from_get {A} (l : list A) i x r : from l i = x :: r -> get l i = Some x /\ from l (i + 1) = r.
Proof.
  unfold get, from. intros Hd.
  assert (l !! N.to_nat i = Some x) as Hx by (rewrite <- (Nat.add_0_r (N.to_nat i)), <- lookup_drop, Hd; done).
  pose proof (lookup_lt_Some _ _ _ Hx). unfold len. destruct (N.ltb_spec i (N.of_nat (length l))); [|lia].
  split; [done|]. replace (N.to_nat (i + 1)) with (N.to_nat i + 1)%nat by lia. by rewrite <- drop_drop, Hd.
Qed.

Lemma from_get_range {A} (l : list A) lo hi k r :
  from l lo = k ++ r -> hi = lo + len k -> lo <= len l -> get_range l lo hi = Some k /\ from l hi = r.
Proof.
  unfold from. intros Hd -> Hlo.
  assert (len l - lo = len k + len r) as Hl.
  { pose proof (f_equal length Hd) as E. rewrite length_drop, length_app in E. unfold len. lia. }
  unfold get_range. destruct (_ && _) eqn:E; [|lia].
  replace (lo + len k - lo) with (len k) by lia. rewrite Hd, <- length_len, take_app_length. split; [done|].
  replace (N.to_nat (lo + len k)) with (N.to_nat lo + length k)%nat by (rewrite length_len; lia).
  by rewrite <- drop_drop, Hd, drop_app_length.
Qed.

Lemma from_le {A} (l : list A) i : i <= len l -> len (from l i) = len l - i.
Proof. intros Hi. unfold from, len. rewrite length_drop. lia. Qed.

Lemma decode_hop_written b pos h r :
  hop_ok h -> len b <= MAX_PATH_BYTES -> pos <= len b -> from b pos = hop_bytes h ++ r ->
  PathMetadata.decode_hop b pos = Ok (h, pos + len (hop_bytes h)) /\
  from b (pos + len (hop_bytes h)) = r /\ pos + len (hop_bytes h) <= len b.
Proof.
  intros [[Hp0 Hp] Hd] Hmax Hpos Hb. pose proof (f_equal len Hb) as Hlen.
  rewrite from_le, len_app in Hlen by done.
  assert (Hsz : len (hop_bytes h) = 4 + len h.(PathHop.peer) + len h.(PathHop.failure_domain))
    by (unfold hop_bytes; autorewrite with umc; lia).
  unfold hop_bytes in Hb. rewrite <- !app_assoc in Hb. cbn [app] in Hb. rewrite Hsz in Hlen |- *.
  unfold MAX_PEER_ID, MAX_FAILURE_DOMAIN, MAX_PATH_BYTES in *.
  assert (Hck : forall i n, i + n <= len b -> checked_add i n = Some (i + n)).
  { intros i n Hi. apply checked_add_Some. split; [done|]. unfold u64_max. lia. }
  unfold PathMetadata.decode_hop.
  apply from_get in Hb as [-> Hb]. cbn [ok_or mbind Result_bind].
  destruct ((_ =? 0) || _) eqn:E; [unfold MAX_PEER_ID in E; lia|]. rewrite Hck by lia. cbn [ok_or mbind Result_bind].
  apply (from_get_range b (pos + 1) (pos + 1 + len h.(PathHop.peer))) in Hb as [-> Hb]; [|done|lia].
  cbn [ok_or mbind Result_bind].
  apply from_get in Hb as [-> Hb]. cbn [ok_or mbind Result_bind].
  rewrite scope_from_scope_code. cbn [ok_or mbind Result_bind].
  apply from_get in Hb as [-> Hb]. cbn [ok_or mbind Result_bind].
  assert (N.land (if h.(PathHop.relay) then 1 else 0) 254 =? 0 = true) as -> by by destruct h.(PathHop.relay).
  cbn [negb]. apply from_get in Hb as [-> Hb]. cbn [ok_or mbind Result_bind].
  destruct (N.ltb_spec MAX_FAILURE_DOMAIN (len h.(PathHop.failure_domain))) as [Hbig|_];
    [unfold MAX_FAILURE_DOMAIN in Hbig; lia|].
  rewrite Hck by lia. cbn [ok_or mbind Result_bind].
  set (p := pos + 1 + len h.(PathHop.peer) + 1 + 1 + 1) in *.
  apply (from_get_range b p (p + len h.(PathHop.failure_domain))) in Hb as [-> Hb]; [|done|lia].
  cbn [ok_or mbind Result_bind].
  replace (pos + (4 + len h.(PathHop.peer) + len h.(PathHop.failure_domain)))
    with (p + len h.(PathHop.failure_domain)) by (unfold p; lia).
  repeat split; [|done|unfold p; lia]. unfold mret, Result_ret. destruct h as [peer scope domain []]; done.
Qed.

Lemma decode_hops_written hops b pos r :
  Forall hop_ok hops -> len b <= MAX_PATH_BYTES -> pos <= len b -> from b pos = path_bytes hops ++ r ->
  PathMetadata.decode_hops (length hops) b pos = Ok (hops, pos + len (path_bytes hops)).
Proof.
  intros Hok Hmax. revert pos. induction Hok as [|h hops Hh _ IH]; intros pos Hpos Hb.
  { change (path_bytes []) with (@nil u8). rewrite len_nil, N.add_0_r. done. }
  rewrite path_bytes_cons, <- app_assoc in Hb.
  destruct (decode_hop_written b pos h _ Hh Hmax Hpos Hb) as (E & Hb' & Hpos'). cbn [length PathMetadata.decode_hops].
  rewrite E. cbn [mbind Result_bind]. rewrite (IH _ Hpos' Hb'). cbn [mbind Result_bind].
  by rewrite path_bytes_cons, len_app, N.add_assoc.
Qed.

Lemma get_is_bytes b i x : is_bytes b -> get b i = Some x -> x <= u8_max.
Proof.
  intros Hb. unfold get. destruct (_ <? _); [|done]. intros Hx.
  unfold is_bytes in Hb. rewrite Forall_lookup in Hb. by eapply Hb.
Qed.

(** What the decoder accepts was written that way. *)
Lemma decode_hop_read b pos h pos' :
  is_bytes b -> pos <= len b -> PathMetadata.decode_hop b pos = Ok (h, pos') ->
  hop_ok h /\ from b pos = hop_bytes h ++ from b pos' /\ pos' <= len b.
Proof.
  intros Hbytes Hpos. unfold PathMetadata.decode_hop.
  intros (pl & Hpl%ok_or_Ok & H)%bind_Ok. cbv zeta in H.
  destruct (_ || _) eqn:E; [done|].
  apply bind_Ok in H as (pe & (-> & _)%ok_or_Ok%checked_add_Some & H).
  apply bind_Ok in H as (peer & Hpeer%ok_or_Ok & H).
  apply bind_Ok in H as (code & Hcode%ok_or_Ok & H).
  apply bind_Ok in H as (scope & Hscope%ok_or_Ok & H).
  apply bind_Ok in H as (flags & Hflags%ok_or_Ok & H).
  destruct (N.eqb_spec (N.land flags 254) 0) as [Hfl|]; [|done]. cbn [negb] in H.
  apply bind_Ok in H as (dl & Hdl%ok_or_Ok & H).
  destruct (N.ltb_spec MAX_FAILURE_DOMAIN dl); [done|].
  apply bind_Ok in H as (de & (-> & _)%ok_or_Ok%checked_add_Some & H).
  apply bind_Ok in H as (domain & Hdom%ok_or_Ok & H). injection H as <- <-.
  apply scope_from_code_Some in Hscope as ->.
  apply get_from in Hpl, Hcode, Hdl. pose proof (get_from _ _ _ Hflags) as Hflags'.
  apply get_range_from in Hpeer as (Hpeer & Hlp & _). apply get_range_from in Hdom as (Hdom & Hld & Hde).
  assert (Hf : flags <= u8_max) by by eapply get_is_bytes.
  split; [|split; [|lia]].
  - unfold hop_ok. simpl. unfold MAX_FAILURE_DOMAIN in *. lia.
  - rewrite Hpl, Hpeer, Hcode, Hflags', Hdl, Hdom. unfold hop_bytes. simpl.
    replace (len peer) with pl by lia. replace (len domain) with dl by lia.
    rewrite <- (flag_byte flags Hf Hfl), <- !app_assoc. done.
Qed.

Lemma decode_hops_read n b pos hops pos' :
  is_bytes b -> pos <= len b -> PathMetadata.decode_hops n b pos = Ok (hops, pos') ->
  length hops = n /\ Forall hop_ok hops /\ from b pos = path_bytes hops ++ from b pos' /\ pos' <= len b.
Proof.
  intros Hbytes. revert pos hops. induction n as [|n IH]; intros pos hops Hpos; cbn [PathMetadata.decode_hops].
  { intros [= <- <-]. by repeat constructor. }
  intros ([h p] & Hh & ([hs p'] & Hhs & [= <- <-])%bind_Ok)%bind_Ok.
  apply decode_hop_read in Hh as (Hok & Hb & Hp); [|done|done].
  apply IH in Hhs as (Hl & Hoks & Hb' & Hp'); [|done].
  split; [simpl; lia|]. split; [by constructor|]. split; [|done].
  by rewrite path_bytes_cons, <- app_assoc, <- Hb'.
Qed.

Lemma decode_path_written hops :
  len hops <= MAX_PATH_HOPS -> Forall hop_ok hops ->
  PathMetadata.decode_path_metadata (path_header hops ++ path_bytes hops) = Ok hops.
Proof.
  intros Hl Hok. pose proof (path_bytes_le hops Hok) as Hb. unfold MAX_PATH_HOPS in Hl.
  set (b := path_header hops ++ path_bytes hops).
  assert (Hlen : len b = 10 + len (path_bytes hops)) by (unfold b; by rewrite len_app, len_path_header).
  unfold PathMetadata.decode_path_metadata. change (len PATH_METADATA_MAGIC) with 8.
  destruct (N.eqb_spec (len b) 0); [lia|].
  destruct (N.ltb_spec MAX_PATH_BYTES (len b)) as [Hbig|Hmax]; [unfold MAX_PATH_BYTES in Hbig; lia|].
  destruct (N.ltb_spec (len b) (8 + 2)); [lia|]. cbn [orb].
  rewrite bool_decide_eq_true_2 by done. cbn [negb].
  assert (from b 8 = PATH_METADATA_VERSION :: len hops :: path_bytes hops) as Hv by done.
  apply from_get in Hv as [-> Hv]. apply from_get in Hv as [-> Hv]. cbn [negb N.eqb PATH_METADATA_VERSION Pos.eqb].
  destruct (N.ltb_spec MAX_PATH_HOPS (len hops)) as [Hbig|_]; [unfold MAX_PATH_HOPS in Hbig; lia|].
  rewrite <- length_len.
  rewrite (decode_hops_written hops b (8 + 2) [] Hok Hmax); [|lia|by rewrite app_nil_r].
  cbn [mbind Result_bind]. rewrite Hlen. by rewrite N.eqb_refl.
Qed.

Lemma decode_path_read b hops :
  is_bytes b -> b <> [] -> PathMetadata.decode_path_metadata b = Ok hops ->
  len hops <= MAX_PATH_HOPS /\ Forall hop_ok hops /\ b = path_header hops ++ path_bytes hops.
Proof.
  intros Hbytes Hne. unfold PathMetadata.decode_path_metadata. change (len PATH_METADATA_MAGIC) with 8.
  destruct (N.eqb_spec (len b) 0) as [E|_]; [by apply len_0_nil in E|].
  destruct (_ <? len b); [done|]. destruct (N.ltb_spec (len b) (8 + 2)) as [|Hlen]; [done|]. cbn [orb].
  destruct (bool_decide _) eqn:Hm; [|done]. apply bool_decide_eq_true in Hm. cbn [negb].
  destruct (get b 8) as [v|] eqn:Ev; [|done]. destruct (get b (8 + 1)) as [c|] eqn:Ec; [|done].
  destruct (N.eqb_spec v PATH_METADATA_VERSION) as [->|]; [|done]. cbn [negb].
  destruct (N.ltb_spec MAX_PATH_HOPS c) as [|Hc]; [done|].
  intros ([hs pos] & Hhs & H)%bind_Ok. destruct (N.eqb_spec pos (len b)) as [->|]; [|done]. cbn in H.
  injection H as <-. apply decode_hops_read in Hhs as (Hl & Hok & Hb & _); [|done|lia].
  assert (len hs = c) as Hcount by (unfold len; rewrite Hl; lia). rewrite Hcount.
  split; [done|]. split; [done|]. unfold path_header. rewrite Hcount.
  apply get_from in Ev, Ec. rewrite <- (take_drop (length PATH_METADATA_MAGIC) b), Hm.
  change (drop _ b) with (from b 8). rewrite Ev, Ec. change (8 + 1 + 1) with (8 + 2). rewrite Hb.
  assert (from b (len b) = []) as -> by (unfold from; rewrite <- length_len; by apply drop_ge).
  by rewrite app_nil_r.
Qed.

(** ** The builder *)

(** Each hop's scope is within that of the hop before it. *)
Fixpoint narrowing (scope : RouteScope.t) (hops : list PathHop.t) : Prop :=
  match hops with
  | [] => True
  | h :: hops => RouteScope.narrows_to scope h.(PathHop.scope) = true /\ narrowing h.(PathHop.scope) hops
  end.

Definition last_scope (scope : RouteScope.t) (hops : list PathHop.t) : RouteScope.t :=
  fold_left (fun _ h => h.(PathHop.scope)) hops scope.

Lemma narrowing_app scope hops h :
  narrowing scope hops -> RouteScope.narrows_to (last_scope scope hops) h.(PathHop.scope) = true ->
  narrowing scope (hops ++ [h]).
Proof.
  revert scope. induction hops as [|x hops IH]; intros scope; simpl; [done|].
  intros [Hx Hn] Hh. split; [done|]. by apply IH.
Qed.

Definition relays (hops : list PathHop.t) : list PathHop.t :=
  filter (fun h => h.(PathHop.relay) = true) hops.

Record builder_ok (scope : RouteScope.t) (exclusions : list (list u8)) (policy : PathPolicy.t)
    (b : PathBuilder.t) : Prop := {
  built_exclusions : b.(PathBuilder.exclusions) = exclusions;
  built_policy : b.(PathBuilder.policy) = policy;
  built_hops : Forall hop_ok b.(PathBuilder.hops);
  built_distinct : NoDup (PathHop.peer <$> b.(PathBuilder.hops));
  built_excluded : Forall (fun h => h.(PathHop.peer) ∉ exclusions) b.(PathBuilder.hops);
  built_length : len b.(PathBuilder.hops) <= policy.(PathPolicy.max_hops);
  built_relays : b.(PathBuilder.relay_count) = len (relays b.(PathBuilder.hops));
  built_relays_le : b.(PathBuilder.relay_count) <= policy.(PathPolicy.max_relays);
  built_scope : b.(PathBuilder.effective_scope) = last_scope scope b.(PathBuilder.hops);
  built_narrowing : narrowing scope b.(PathBuilder.hops);
  built_bytes : b.(PathBuilder.encoded_bytes) <= 130 * len b.(PathBuilder.hops)
}.

Lemma existsb_false {A} (P : A -> bool) l : existsb P l = false -> forall x, x ∈ l -> P x = false.
Proof.
  intros H x Hx. apply not_true_is_false. intros HP.
  assert (existsb P l = true); [|congruence]. apply existsb_exists. exists x. by rewrite <- list_elem_of_In.
Qed.

Lemma push_builder_ok scope exclusions policy b hop b' :
  builder_ok scope exclusions policy b -> PathBuilder.push b hop = Ok b' ->
  builder_ok scope exclusions policy b'.
Proof.
  intros [He Hp Hh Hd Hx Hl Hr Hrl Hs Hn Hb]. unfold PathBuilder.push.
  destruct (_ || _) eqn:E1; [done|]. destruct (N.ltb_spec MAX_FAILURE_DOMAIN (len hop.(PathHop.failure_domain))) as [|Hdom]; [done|].
  destruct (existsb _ _) eqn:E2; [done|]. destruct (existsb _ b.(PathBuilder.hops)) eqn:E3; [done|].
  destruct (RouteScope.narrows_to _ _) eqn:E4; [|done]. cbn [negb].
  destruct (N.leb_spec b.(PathBuilder.policy).(PathPolicy.max_hops) (len b.(PathBuilder.hops))) as [|Hroom]; [done|].
  destruct (hop.(PathHop.relay) && _) eqn:E5; [done|]. cbv zeta. destruct (MAX_PATH_BYTES <? _); [done|].
  intros [= <-]. assert (Hok : hop_ok hop) by (unfold hop_ok; lia). rewrite He, Hp in *.
  split; simpl; try done.
  - apply Forall_app. split; [done|]. by constructor.
  - rewrite fmap_app. apply list.NoDup_app. split; [done|]. split; [|apply NoDup_singleton].
    intros x (h & -> & Hin)%list_elem_of_fmap Hx'. simpl in Hx'. apply list_elem_of_singleton in Hx'.
    pose proof (existsb_false _ _ E3 h Hin) as Hf. simpl in Hf. by apply bool_decide_eq_false in Hf.
  - apply Forall_app. split; [done|]. constructor; [|constructor]. intros Hin.
    pose proof (existsb_false _ _ E2 _ Hin) as Hf. simpl in Hf. by apply bool_decide_eq_false in Hf.
  - rewrite len_app, len_cons, len_nil. lia.
  - unfold relays in *. rewrite list.filter_app, len_app. destruct hop.(PathHop.relay) eqn:Er.
    + rewrite filter_cons_True by done. rewrite filter_nil, len_cons, len_nil. lia.
    + rewrite filter_cons_False by congruence. rewrite filter_nil, len_nil. lia.
  - destruct hop.(PathHop.relay); simpl in E5; lia.
  - unfold last_scope. by rewrite fold_left_app.
  - apply narrowing_app; [done|]. by rewrite <- Hs.
  - rewrite len_app, len_cons, len_nil. destruct Hok as [[_ Hp1] Hp2]. unfold saturating_add, MAX_PEER_ID, MAX_FAILURE_DOMAIN in *. lia.
Qed.

Lemma offers_builder_ok scope exclusions policy b hops :
  builder_ok scope exclusions policy b ->
  builder_ok scope exclusions policy (fold_left PathBuilder.offer hops b).
Proof.
  apply (fold_left_inv (builder_ok scope exclusions policy)). intros b0 h Hb. unfold PathBuilder.offer.
  destruct (PathBuilder.push b0 h) as [b1|] eqn:E; [|done]. by eapply push_builder_ok.
Qed.

Lemma collect_domains hops ds :
  NoDup ds -> (forall d, d ∈ ds -> d <> []) ->
  let r := fold_left PathBuilder.collect_domain hops ds in
  NoDup r /\ forall d, d ∈ r <-> d ∈ ds \/ d <> [] /\ d ∈ PathHop.failure_domain <$> hops.
Proof.
  revert ds. induction hops as [|h hops IH]; intros ds Hd Hne; simpl.
  { split; [done|]. intros d. rewrite elem_of_nil. tauto. }
  assert (Hc : let ds' := PathBuilder.collect_domain ds h in
    NoDup ds' /\ (forall d, d ∈ ds' <-> d ∈ ds \/ d <> [] /\ d = h.(PathHop.failure_domain))).
  { unfold PathBuilder.collect_domain. destruct (N.eqb_spec (len h.(PathHop.failure_domain)) 0) as [E|E]; cbn [negb andb].
    - apply len_0_nil in E. split; [done|]. intros d. rewrite E. naive_solver.
    - assert (h.(PathHop.failure_domain) <> []) as Hn by (intros E'; by rewrite E' in E).
      destruct (existsb _ ds) eqn:Ex; cbn [negb].
      + split; [done|]. intros d. split; [by left|]. intros [Hin|[_ ->]]; [done|].
        apply existsb_exists in Ex as (x & Hx & ->%bool_decide_eq_true). by apply list_elem_of_In.
      + split.
        * apply list.NoDup_app. split; [done|]. split; [|apply NoDup_singleton]. intros x Hx ->%list_elem_of_singleton.
          pose proof (existsb_false _ _ Ex _ Hx) as Hf. simpl in Hf. by apply bool_decide_eq_false in Hf.
        * intros d. rewrite elem_of_app, list_elem_of_singleton. naive_solver. }
  destruct Hc as [Hd' Hin']. destruct (IH (PathBuilder.collect_domain ds h) Hd') as [Hr Hin].
  { intros d [Hd0|[Hd0 _]]%Hin'; auto. }
  split; [done|]. intros d. rewrite Hin, Hin', elem_of_cons. tauto.
Qed.

(** ** Theorems *)

(** The path metadata is a canonical encoding: some bytes decode to a path
    exactly when that path encodes to those bytes. *)
Theorem path_metadata_bijective b hops :
  is_bytes b -> b <> [] ->
  PathMetadata.decode_path_metadata b = Ok hops <-> PathMetadata.encode_path_metadata hops = Ok b.
Proof.
  intros Hb Hne. rewrite encode_path_Ok. split.
  - by apply decode_path_read.
  - intros (Hl & Hok & ->). by apply decode_path_written.
Qed.

(** C40: Whatever hops are offered to a builder, a finished path visits no peer
    twice and no excluded one, never widens the scope of the request, has no more
    hops than the policy allows nor than [MAX_PATH_HOPS] and no more relays than
    the policy allows, has the number of relays and of distinct failure domains
    it reports and at least the domains the policy asks for, and its metadata
    encodes and decodes back.  The relays are held to the policy alone, see
    [path_exceeds_relay_maximum]. *)
Theorem route_path_sound scope exclusions policy b0 offered path :
  PathBuilder.new scope exclusions policy = Ok b0 ->
  PathBuilder.finish (fold_left PathBuilder.offer offered b0) = Ok path ->
  let hops := path.(RoutePath.hops) in
  NoDup (PathHop.peer <$> hops) /\
  Forall (fun h => h.(PathHop.peer) ∉ exclusions) hops /\
  narrowing scope hops /\ path.(RoutePath.effective_scope) = last_scope scope hops /\
  len hops <= N.min policy.(PathPolicy.max_hops) MAX_PATH_HOPS /\
  path.(RoutePath.relay_count) = len (relays hops) /\
  path.(RoutePath.relay_count) <= policy.(PathPolicy.max_relays) /\
  (exists domains, NoDup domains /\
     (forall d, d ∈ domains <-> d <> [] /\ d ∈ PathHop.failure_domain <$> hops) /\
     path.(RoutePath.distinct_failure_domains) = len domains /\
     policy.(PathPolicy.minimum_distinct_failure_domains) <= len domains) /\
  exists b, PathMetadata.encode_path_metadata hops = Ok b /\
            PathMetadata.decode_path_metadata b = Ok hops.
Proof.
  intros Hnew Hfin. unfold PathBuilder.new in Hnew.
  destruct (_ <? len exclusions); [done|]. destruct (existsb _ _); [done|]. injection Hnew as <-.
  set (pol := PathPolicy.mk _ _ _ _) in Hfin. set (b0 := PathBuilder.mk _ _ _ _ _ _ _) in Hfin.
  assert (Hb0 : builder_ok scope exclusions pol b0).
  { split; simpl; try done; try constructor; rewrite ?len_nil; lia. }
  apply (offers_builder_ok _ _ _ _ offered) in Hb0.
  set (b := fold_left PathBuilder.offer offered b0) in *. clearbody b. clear b0.
  destruct Hb0 as [_ Hp Hh Hd Hx Hl Hr Hrl Hs Hn _]. unfold PathBuilder.finish in Hfin.
  destruct (_ && _); [done|]. destruct (N.ltb_spec (len (fold_left PathBuilder.collect_domain b.(PathBuilder.hops) []))
    b.(PathBuilder.policy).(PathPolicy.minimum_distinct_failure_domains)) as [|Hdiv]; [done|].
  injection Hfin as <-. rewrite Hp in Hdiv. simpl in *.
  destruct (collect_domains b.(PathBuilder.hops) []) as [Hnd Hin]; [constructor|by intros d ?%elem_of_nil|].
  repeat split; try done; try lia.
  - exists (fold_left PathBuilder.collect_domain b.(PathBuilder.hops) []).
    split; [done|]. split; [|done]. intros d. rewrite Hin, elem_of_nil. tauto.
  - exists (path_header b.(PathBuilder.hops) ++ path_bytes b.(PathBuilder.hops)). rewrite encode_path_Ok.
    assert (len b.(PathBuilder.hops) <= MAX_PATH_HOPS) by lia. split; [done|]. by apply decode_path_written.
Qed.

Definition sample_hop (peer : u8) (scope : RouteScope.t) (domain : u8) (relay : bool) : PathHop.t :=
  PathHop.mk [peer] scope [domain] relay.

Definition sample_hops : list PathHop.t :=
  [sample_hop 1 RouteScope.Introduced 10 true; sample_hop 1 RouteScope.Introduced 10 true;
   sample_hop 2 RouteScope.LocalMesh 11 false].

Lemma path_metadata_bijective_witness :
  let b := path_header [sample_hop 1 RouteScope.General 10 true] ++ hop_bytes (sample_hop 1 RouteScope.General 10 true) in
  PathMetadata.encode_path_metadata [sample_hop 1 RouteScope.General 10 true] = Ok b.
Proof.
  intros b. apply (path_metadata_bijective b [sample_hop 1 RouteScope.General 10 true]); [|done|by vm_compute].
  unfold is_bytes. repeat constructor; vm_compute; congruence.
Defined.

Lemma route_path_sound_witness :
  exists b0 path,
    PathBuilder.new RouteScope.General [[9]] PathPolicy.default = Ok b0 /\
    PathBuilder.finish (fold_left PathBuilder.offer sample_hops b0) = Ok path /\
    len path.(RoutePath.hops) = 2 /\ NoDup (PathHop.peer <$> path.(RoutePath.hops)).
Proof.
  set (b0 := PathBuilder.mk RouteScope.General RouteScope.General [[9]] PathPolicy.default [] 0 0).
  set (path := RoutePath.mk [sample_hop 1 RouteScope.Introduced 10 true; sample_hop 2 RouteScope.LocalMesh 11 false]
       RouteScope.LocalMesh 1 2).
  assert (E1 : PathBuilder.new RouteScope.General [[9]] PathPolicy.default = Ok b0) by (vm_compute; reflexivity).
  assert (E2 : PathBuilder.finish (fold_left PathBuilder.offer sample_hops b0) = Ok path) by (vm_compute; reflexivity).
  destruct (route_path_sound RouteScope.General [[9]] PathPolicy.default b0 sample_hops path E1 E2) as [Hd _].
  exists b0, path. split; [exact E1|]. split; [exact E2|]. split; [reflexivity|exact Hd].
Defined.

(** The builder does not keep the protocol's hard maximum of 16 relays: under a
    policy that allows that many, a path with any number of relays up to
    [MAX_PATH_HOPS] is finished. *)
Theorem path_exceeds_relay_maximum :
  let policy := PathPolicy.mk MAX_PATH_HOPS MAX_PATH_HOPS 0 true in
  let relays := fun n => map (fun i => sample_hop (N.of_nat i) RouteScope.General 1 true) (seq 0 n) in
  Forall (fun n =>
    match (b ← PathBuilder.new RouteScope.General [] policy;
           PathBuilder.finish (fold_left PathBuilder.offer (relays n) b)) with
    | Ok path => path.(RoutePath.relay_count) = N.of_nat n
    | Err _ => False
    end) (seq 1 32).
Proof. repeat (apply list.Forall_cons_2; [vm_compute; reflexivity|]). apply list.Forall_nil_2. Qed.

(** A path of 32 hops with the longest peer names and failure domains. *)
Definition wide_hop (i : nat) : PathHop.t :=
  PathHop.mk (repeat (N.of_nat i) 64) RouteScope.General (repeat (N.of_nat i) 64) false.

Definition wide_path : list PathHop.t := map wide_hop (seq 0 32).

(** The builder and the metadata encoder accept paths that no response can
    carry: the metadata of a path of 32 hops reaches 4234 bytes, above the 4096
    that ROUTE_RESPONSE allows, and the frame's encoder refuses it. *)
Theorem path_metadata_exceeds_frame :
  exists b0 path bytes,
    PathBuilder.new RouteScope.General [] PathPolicy.default = Ok b0 /\
    PathBuilder.finish (fold_left PathBuilder.offer wide_path b0) = Ok path /\
    path.(RoutePath.hops) = wide_path /\
    PathMetadata.encode_path_metadata path.(RoutePath.hops) = Ok bytes /\ len bytes = 4234 /\
    RouteResponseFrame.encode (RouteResponseFrame.mk 1 0 false false false false false 1000 [] bytes [])
      = Err LengthExceedsLimit.
Proof.
  exists (PathBuilder.mk RouteScope.General RouteScope.General [] PathPolicy.default [] 0 0),
    (RoutePath.mk wide_path RouteScope.General 0 32), (path_header wide_path ++ path_bytes wide_path).
  split; [vm_compute; reflexivity|]. split; [vm_compute; reflexivity|]. split; [reflexivity|].
  split; [vm_compute; reflexivity|]. split; vm_compute; reflexivity.
Qed.
