(* ===== verification/RoutePolicy.v ===== *)
(** * Route policy

    Hard constraints and scores (crates/umc-routing/src/score.rs, local.rs),
    failure classes and retry delays (failure.rs), and the request budgets of
    groups of requesters (sybil.rs). *)

From Stdlib Require Import Strings.String Sorting.Sorted.
From stdpp Require Import gmap.
From S2P Require Import Prelude SentPackets Records Crypto RouteTypes.

#[local] Open Scope N_scope.

(** ** Hard constraints *)

Inductive HardConstraint :=
| AllowedCarrier (carrier : list u8)
| MaxHops (hops : u64)
| MinTrust (minimum : u8)
| LocalOnly.

Definition is_digit (b : u8) : bool := (48 <=? b) && (b <=? 57).

(** [str::parse::<u64>]: an optional plus sign, then at least one digit, within
    range.  The bytes it accepts are ASCII, so a text that is not UTF-8 is
    refused by it as well. *)
Fixpoint parse_digits (acc : u64) (l : list u8) : option u64 :=
  match l with
  | [] => Some acc
  | b :: l =>
      if is_digit b && (acc * 10 + (b - 48) <=? u64_max) then parse_digits (acc * 10 + (b - 48)) l
      else None
  end.

Definition parse_u64 (l : list u8) : option u64 :=
  match l with
  | [] => None
  | b :: l' =>
      if b =? 43 then match l' with [] => None | _ => parse_digits 0 l' end
      else parse_digits 0 l
  end.

Definition metadata_u64 (metadata key : list u8) : option u64 :=
  value ← metadata_value metadata key;
  parse_u64 value.

Definition meets (record : RouteRecord.t) (c : HardConstraint) : bool :=
  match c with
  | MaxHops hops =>
      match metadata_u64 record.(RouteRecord.metadata) (bstr "hops="%string) with
      | Some route_hops => route_hops <=? hops
      | None => false
      end
  | LocalOnly => negb (bool_decide (record.(RouteRecord.scope) = RouteScope.General))
  | AllowedCarrier carrier =>
      bool_decide (metadata_value record.(RouteRecord.metadata) (bstr "carrier="%string) = Some carrier)
  | MinTrust minimum =>
      match metadata_u64 record.(RouteRecord.metadata) (bstr "trust="%string) with
      | Some trust => minimum <=? trust
      | None => false
      end
  end.

Definition passes_hard_constraints (record : RouteRecord.t) (constraints : list HardConstraint) : bool :=
  forallb (meets record) constraints.

(** ** Scores *)

Definition i64_min : Z := (- 2 ^ 63)%Z.
Definition i64_max : Z := (2 ^ 63 - 1)%Z.

(** [x as i64]. *)
Definition as_i64 (x : u64) : i64 :=
  if x <? 2 ^ 63 then Z.of_N x else (Z.of_N x - 2 ^ 64)%Z.

(** Signed arithmetic whose overflow panics in a checked build; absent on overflow. *)
Definition checked_i64 (z : Z) : option i64 :=
  if ((i64_min <=? z) && (z <=? i64_max))%Z then Some z else None.

Record ScoreInput := { local_success_weight : u64 }.

Definition default_score_input : ScoreInput := {| local_success_weight := 3 |}.

Definition state_score (st : RouteState.t) : i64 :=
  match st with
  | RouteState.Usable => 200
  | RouteState.Candidate => 50
  | RouteState.Probing => 30
  | RouteState.Degraded => -20
  | RouteState.Failed => -200
  | RouteState.Expired | RouteState.Retired => Z.quot i64_min 2
  end%Z.

Definition score_balanced (record : RouteRecord.t) (now : Instant) (input : ScoreInput) : option i64 :=
  let age_ms := as_i64 (duration_since now record.(RouteRecord.created_at)) in
  score ← checked_i64 (0 - Z.quot age_ms 10000)%Z;
  score ←
    match record.(RouteRecord.last_success) with
    | Some _ =>
        bonus ← checked_i64 (100 * as_i64 input.(local_success_weight))%Z;
        checked_i64 (score + bonus)%Z
    | None => Some score
    end;
  score ←
    match record.(RouteRecord.last_failure) with
    | Some _ =>
        malus ← checked_i64 (50 * as_i64 record.(RouteRecord.failure_count))%Z;
        checked_i64 (score - malus)%Z
    | None => Some score
    end;
  checked_i64 (score + state_score record.(RouteRecord.state))%Z.

Definition LOCAL_PREFERENCE_BONUS : i64 := 500%Z.

Definition score_local_first (record : RouteRecord.t) (now : Instant) (input : ScoreInput) : option i64 :=
  base ← score_balanced record now input;
  match record.(RouteRecord.scope) with
  | RouteScope.LinkLocal | RouteScope.LocalMesh => checked_i64 (base + LOCAL_PREFERENCE_BONUS)%Z
  | RouteScope.Introduced => checked_i64 (base + 100)%Z
  | RouteScope.General => Some base
  end.

(** ** Failures *)

Module FailureClass.

Inductive t :=
| NoReachability
| CarrierFailure
| RelayRefused
| AuthenticationFailed
| PolicyRejected
| Timeout
| Loop
| ResourceLimit
| ProtocolError.

Definition initial_retry_delay (c : t) : Duration :=
  match c with
  | CarrierFailure => 1000
  | Timeout | NoReachability | ResourceLimit => 5000
  | RelayRefused | ProtocolError => 30000
  | PolicyRejected | AuthenticationFailed => 30 * 24 * 60 * 60 * 1000
  | Loop => 10000
  end.

End FailureClass.

Definition MAX_BACKOFF : u64 := 5 * 60 * 1000.

Definition backoff_delay (failure_count : u64) (base : Duration) (jitter_ms seed : u64) : Duration :=
  let multiplier := N.shiftl 1 (N.min failure_count 10) in
  let delay := N.min (saturating_mul base multiplier) MAX_BACKOFF in
  let jitter := seed mod (saturating_add jitter_ms 1) in
  N.min (saturating_add delay jitter) MAX_BACKOFF.

Module FailureTracker.

Record t := mk {
  last_failure : option (FailureClass.t * Instant);
  retry_after : option Instant;
  failure_count : u64
}.

Definition new : t := mk None None 0.

Definition record (f : t) (class : FailureClass.t) (now : Instant) (seed : u64) : t :=
  let failure_count := f.(failure_count) + 1 in
  let delay := backoff_delay failure_count (FailureClass.initial_retry_delay class) 100 seed in
  mk (Some (class, now)) (Some (instant_add now delay)) failure_count.

Definition can_retry (f : t) (now : Instant) : bool :=
  match f.(retry_after) with
  | Some deadline => deadline <=? now
  | None => true
  end.

Definition decay (f : t) (now : Instant) (half_life_ms : u64) : t :=
  match f.(last_failure) with
  | Some (_, at_) =>
      if half_life_ms <=? duration_since now at_
      then mk f.(last_failure) None (f.(failure_count) / 2)
      else f
  | None => f
  end.

End FailureTracker.

(** ** Budgets of requester groups *)

Definition REQUESTS_PER_GROUP_PER_MINUTE : usize := 10.
Definition GROUP_RETENTION_MS : u64 := 60000.
Definition MAX_GROUPS : usize := 1024.

Module SybilGroup.

Record t := mk { source_prefix : list u8; capabilities_hash : list u8 }.

#[global] Instance eq_dec : EqDecision t.
Proof. solve_decision. Defined.

#[global] Program Instance countable : Countable t :=
  inj_countable' (fun g => (g.(source_prefix), g.(capabilities_hash))) (fun '(p, c) => mk p c) _.
Next Obligation. by intros []. Qed.

Definition from_requester (requester capabilities_hash : list u8) : t :=
  mk (take 4 requester) capabilities_hash.

End SybilGroup.

Module SybilGuard.

Record t := mk {
  groups : gmap SybilGroup.t (list Instant);
  per_minute : usize;
  retention : Duration
}.

Definition new (per_minute : usize) : t := mk ∅ (N.max per_minute 1) GROUP_RETENTION_MS.

(** [while front <= cutoff { pop_front() }]. *)
Fixpoint drop_until (cutoff : Instant) (l : list Instant) : list Instant :=
  match l with
  | [] => []
  | x :: l => if x <=? cutoff then drop_until cutoff l else x :: l
  end.

Definition prune (g : t) (now : Instant) : t :=
  if now <? g.(retention) then g
  else
    let cutoff := now - g.(retention) in
    g <| groups := omap (fun ts => match drop_until cutoff ts with [] => None | ts => Some ts end) g.(groups) |>.

(** A map is visited in an order of its own: the bindings in that order. *)
Class MapOrder := {
  bindings : gmap SybilGroup.t (list Instant) -> list (SybilGroup.t * list Instant)
}.

(** [min_by_key(|(_, timestamps)| timestamps.front().copied())]: the first of the
    least, and an empty queue is less than any. *)
Definition front_lt (a b : list Instant) : bool :=
  match a, b with
  | [], _ :: _ => true
  | x :: _, y :: _ => x <? y
  | _, [] => false
  end.

Fixpoint oldest (l : list (SybilGroup.t * list Instant)) : option (SybilGroup.t * list Instant) :=
  match l with
  | [] => None
  | b :: l =>
      match oldest l with
      | Some b' => if front_lt b'.2 b.2 then Some b' else Some b
      | None => Some b
      end
  end.

Definition admit_ `{MapOrder} (g : t) (group : SybilGroup.t) (now : Instant) : bool * t :=
  let g := prune g now in
  let g :=
    if bool_decide (g.(groups) !! group = None) && (MAX_GROUPS <=? N.of_nat (size g.(groups)))
    then match oldest (bindings g.(groups)) with
         | Some (old, _) => g <| groups := delete old g.(groups) |>
         | None => g
         end
    else g in
  let timestamps := default [] (g.(groups) !! group) in
  if g.(per_minute) <=? len timestamps
  then (false, g <| groups := <[group := timestamps]> g.(groups) |>)
  else (true, g <| groups := <[group := timestamps ++ [now]]> g.(groups) |>).

End SybilGuard.

(** ** Scores: lemmas *)

(** Figures at which no score leaves its width: instants below 2^62 milliseconds,
    counts and weights below 2^50. *)
Definition scorable (record : RouteRecord.t) (now : Instant) (input : ScoreInput) : Prop :=
  now < 2 ^ 62 /\ record.(RouteRecord.failure_count) < 2 ^ 50 /\ input.(local_success_weight) < 2 ^ 50.

Definition dead (st : RouteState.t) : bool :=
  match st with
  | RouteState.Expired | RouteState.Retired => true
  | _ => false
  end.

Lemma as_i64_small x : x < 2 ^ 63 -> as_i64 x = Z.of_N x.
Proof. unfold as_i64. intros H. by rewrite (proj2 (N.ltb_lt _ _) H). Qed.

Lemma checked_i64_fits z : (- 2 ^ 63 <= z < 2 ^ 63)%Z -> checked_i64 z = Some z.
Proof. intros H. unfold checked_i64, i64_min, i64_max. destruct (_ && _)%Z eqn:E; [done|lia]. Qed.

(** The score without its state's share stays within a fixed range. *)
Lemma score_balanced_value record now input :
  scorable record now input ->
  exists rest, (- 2 ^ 57 <= rest <= 2 ^ 57)%Z /\
    score_balanced record now input = Some (rest + state_score record.(RouteRecord.state))%Z.
Proof.
  intros (Hnow & Hf & Hw). unfold score_balanced, duration_since, saturating_sub.
  rewrite (as_i64_small (now - _)) by lia. set (age := (now - _)%N) in *.
  assert (Ha : (0 <= Z.quot (Z.of_N age) 10000 < 2 ^ 49)%Z).
  { rewrite Z.quot_div_nonneg by lia. split; [lia|]. apply Z.div_lt_upper_bound; lia. }
  set (q := Z.quot _ _) in *. clearbody q. clear age.
  rewrite !as_i64_small by lia. rewrite (checked_i64_fits (0 - q)) by lia. cbn [mbind option_bind].
  assert (Hs : (- 2 ^ 62 <= state_score record.(RouteRecord.state) <= 200)%Z)
    by (destruct record.(RouteRecord.state); vm_compute; split; congruence).
  destruct record.(RouteRecord.last_success), record.(RouteRecord.last_failure); cbn [mbind option_bind];
    repeat (rewrite checked_i64_fits by lia; cbn [mbind option_bind]); eexists; (split; [|done]); lia.
Qed.

Lemma score_local_first_value record now input :
  scorable record now input ->
  exists rest, (- 2 ^ 57 <= rest <= 2 ^ 57 + 500)%Z /\
    score_local_first record now input = Some (rest + state_score record.(RouteRecord.state))%Z.
Proof.
  intros Hs. destruct (score_balanced_value record now input Hs) as (rest & Hr & E).
  unfold score_local_first, LOCAL_PREFERENCE_BONUS. rewrite E. cbn [mbind option_bind].
  assert (Hst : (- 2 ^ 62 <= state_score record.(RouteRecord.state) <= 200)%Z)
    by (destruct record.(RouteRecord.state); vm_compute; split; congruence).
  destruct record.(RouteRecord.scope); rewrite ?checked_i64_fits by lia.
  - exists (rest + 500)%Z. split; [lia|]. f_equal. lia.
  - exists (rest + 500)%Z. split; [lia|]. f_equal. lia.
  - exists (rest + 100)%Z. split; [lia|]. f_equal. lia.
  - exists rest. split; [lia|done].
Qed.

(** ** Budgets: lemmas *)

Module Sybil.
Section Sybil.
Context `{SybilGuard.MapOrder}.

(** The times at which a group's requests are admitted in a run. *)
Fixpoint admitted (g : SybilGuard.t) (group : SybilGroup.t) (es : list (SybilGroup.t * Instant))
    : list Instant :=
  match es with
  | [] => []
  | (k, now) :: es =>
      let '(ok, g) := SybilGuard.admit_ g k now in
      (if ok && bool_decide (k = group) then [now] else []) ++ admitted g group es
  end.

(** The times in the minute after [a]. *)
Definition in_minute (a : Instant) (l : list Instant) : list Instant :=
  filter (fun x => a < x <= a + GROUP_RETENTION_MS) l.

Definition stored (g : SybilGuard.t) (group : SybilGroup.t) : list Instant :=
  default [] (g.(SybilGuard.groups) !! group).

(** [past] has been admitted up to [now]; what is no longer stored is a minute
    old, and no minute has more than the budget. *)
Record guard_ok (g : SybilGuard.t) (group : SybilGroup.t) (past : list Instant) (now : Instant) : Prop := {
  guard_retention : g.(SybilGuard.retention) = GROUP_RETENTION_MS;
  guard_stored : exists dropped, past = dropped ++ stored g group /\
                   Forall (fun x => x + GROUP_RETENTION_MS <= now) dropped;
  guard_minutes : forall a, len (in_minute a past) <= g.(SybilGuard.per_minute)
}.

Lemma drop_until_split cutoff l :
  exists dropped, l = dropped ++ SybilGuard.drop_until cutoff l /\ Forall (fun x => x <= cutoff) dropped.
Proof.
  induction l as [|x l IH]; simpl; [by exists []|].
  destruct (N.leb_spec x cutoff) as [Hx|Hx]; [|by exists []].
  destruct IH as (d & E & Hd). exists (x :: d). split; [by simpl; rewrite <- E|by constructor].
Qed.

Lemma stored_prune g group now :
  SybilGuard.retention g = GROUP_RETENTION_MS ->
  exists dropped, stored g group = dropped ++ stored (SybilGuard.prune g now) group /\
    Forall (fun x => x + GROUP_RETENTION_MS <= now) dropped.
Proof.
  intros Hr. unfold SybilGuard.prune. rewrite Hr. destruct (N.ltb_spec now GROUP_RETENTION_MS) as [|Hn]; [by exists []|].
  unfold stored. simpl. rewrite lookup_omap. destruct (g.(SybilGuard.groups) !! group) as [ts|]; simpl; [|by exists []].
  destruct (drop_until_split (now - GROUP_RETENTION_MS) ts) as (d & E & Hd).
  exists d. destruct (SybilGuard.drop_until _ ts) as [|x l]; simpl.
  - split; [done|]. eapply list.Forall_impl; [exact Hd|]. simpl. intros y Hy. lia.
  - split; [done|]. eapply list.Forall_impl; [exact Hd|]. simpl. intros y Hy. lia.
Qed.

(** Only known groups: the guard never has to drop one. *)
Definition within (gs : gset SybilGroup.t) (g : SybilGuard.t) : Prop :=
  dom g.(SybilGuard.groups) ⊆ gs.

Lemma within_prune gs g now : within gs g -> within gs (SybilGuard.prune g now).
Proof.
  unfold within, SybilGuard.prune. destruct (_ <? _); [done|]. simpl. intros Hd k.
  rewrite !elem_of_dom. intros [ts Hk]. rewrite lookup_omap in Hk.
  apply bind_Some in Hk as (ts' & Hk & _). apply Hd, elem_of_dom. by exists ts'.
Qed.

Lemma within_room gs g k :
  within gs g -> k ∈ gs -> N.of_nat (size gs) <= MAX_GROUPS ->
  bool_decide (g.(SybilGuard.groups) !! k = None) && (MAX_GROUPS <=? N.of_nat (size g.(SybilGuard.groups))) = false.
Proof.
  intros Hd Hk Hs. destruct (bool_decide _) eqn:E; [|done]. apply bool_decide_eq_true in E. simpl.
  apply N.leb_gt. apply not_elem_of_dom in E.
  assert (size (dom g.(SybilGuard.groups)) < size gs)%nat as Hlt by (apply subset_size; set_solver).
  rewrite size_dom in Hlt. lia.
Qed.

(** What one request does when no group has to go. *)
Lemma admit_within gs g k now :
  within gs g -> k ∈ gs -> N.of_nat (size gs) <= MAX_GROUPS ->
  let '(ok, g') := SybilGuard.admit_ g k now in
  let before := stored (SybilGuard.prune g now) in
  within gs g' /\ g'.(SybilGuard.per_minute) = g.(SybilGuard.per_minute) /\
  g'.(SybilGuard.retention) = g.(SybilGuard.retention) /\
  (ok = true -> len (before k) < g.(SybilGuard.per_minute)) /\
  stored g' k = (if ok then before k ++ [now] else before k) /\
  forall k', k' <> k -> stored g' k' = before k'.
Proof.
  intros Hw Hk Hs. apply (within_prune gs g now) in Hw. unfold SybilGuard.admit_.
  assert (Hst : (SybilGuard.prune g now).(SybilGuard.per_minute) = g.(SybilGuard.per_minute) /\
                (SybilGuard.prune g now).(SybilGuard.retention) = g.(SybilGuard.retention))
    by (unfold SybilGuard.prune; by destruct (_ <? _)).
  set (p := SybilGuard.prune g now) in *. clearbody p. destruct Hst as [<- <-].
  rewrite (within_room gs p k Hw Hk Hs).
  destruct (N.leb_spec p.(SybilGuard.per_minute) (len (default [] (p.(SybilGuard.groups) !! k)))) as [Hfull|Hroom];
    unfold stored, within in *; simpl; rewrite lookup_insert_eq, dom_insert_L.
  all: split; [set_solver|]; repeat split; try done.
  all: intros k' Hk'; by rewrite lookup_insert_ne.
Qed.

Lemma in_minute_app a l k : in_minute a (l ++ k) = in_minute a l ++ in_minute a k.
Proof. apply list.filter_app. Qed.

Lemma guard_ok_later g group past now now' :
  guard_ok g group past now -> now <= now' -> guard_ok g group past now'.
Proof.
  intros [Hr (d & E & Hd) Hm] Hn. split; [done| |done]. exists d. split; [done|].
  eapply list.Forall_impl; [exact Hd|]. simpl. intros x Hx. lia.
Qed.

Lemma guard_ok_prune g group past now :
  guard_ok g group past now ->
  exists dropped, past = dropped ++ stored (SybilGuard.prune g now) group /\
    Forall (fun x => x + GROUP_RETENTION_MS <= now) dropped.
Proof.
  intros [Hr (d & E & Hd) _]. destruct (stored_prune g group now Hr) as (d' & E' & Hd').
  exists (d ++ d'). rewrite <- app_assoc, <- E'. split; [done|]. by apply Forall_app.
Qed.

(** Admitting at [now] leaves no minute over budget: those of the minute before
    are still stored. *)
Lemma minutes_after budget past dropped kept now a :
  past = dropped ++ kept -> Forall (fun x => x + GROUP_RETENTION_MS <= now) dropped ->
  len kept < budget -> len (in_minute a past) <= budget ->
  len (in_minute a (past ++ [now])) <= budget.
Proof.
  intros -> Hd Hk Hp. rewrite in_minute_app, len_app. unfold in_minute at 2.
  destruct (decide (a < now <= a + GROUP_RETENTION_MS)) as [Hin|Hout].
  - rewrite filter_cons_True by done. rewrite filter_nil, len_cons, len_nil, in_minute_app, len_app.
    assert (in_minute a dropped = []) as ->.
    { clear -Hd Hin. unfold in_minute. induction Hd as [|x l Hx _ IH]; [done|].
      rewrite filter_cons_False; [done|lia]. }
    unfold in_minute, len in *. simpl.
    pose proof (length_filter (fun x => a < x <= a + GROUP_RETENTION_MS) kept). lia.
  - rewrite filter_cons_False by done. rewrite filter_nil, len_nil. lia.
Qed.

Lemma admitted_minutes gs es g group past now :
  N.of_nat (size gs) <= MAX_GROUPS -> Forall (fun e => e.1 ∈ gs) es -> within gs g ->
  guard_ok g group past now -> StronglySorted N.le (now :: map snd es) ->
  forall a, len (in_minute a (past ++ admitted g group es)) <= g.(SybilGuard.per_minute).
Proof.
  intros Hs Hes. revert g past now. induction Hes as [|[k t] es Hk _ IH]; intros g past now Hw Hg Hsort a.
  { simpl. rewrite app_nil_r. apply Hg. }
  simpl in Hk, Hsort. apply StronglySorted_inv in Hsort as [Hsort Hle].
  assert (Hnt : now <= t) by by inversion Hle.
  apply (guard_ok_later _ _ _ _ t) in Hg; [|done].
  destruct (guard_ok_prune g group past t Hg) as (d & E & Hd).
  cbn [admitted]. pose proof (admit_within gs g k t Hw Hk Hs) as Ha.
  destruct (SybilGuard.admit_ g k t) as [ok g'] eqn:Eadm.
  destruct Ha as (Hw' & Hpm & Hret & Hroom & Hself & Hother). rewrite <- Hpm, app_assoc.
  apply (IH g' _ t); [done| |done]. destruct Hg as [Hr _ Hm].
  destruct (decide (k = group)) as [->|Hne].
  - rewrite bool_decide_eq_true_2, andb_true_r by done. destruct ok.
    + split; [congruence| |].
      * exists d. rewrite Hself, app_assoc, <- E. done.
      * intros a'. rewrite Hpm. by eapply minutes_after; [exact E|exact Hd|apply Hroom|apply Hm].
    + rewrite app_nil_r. split; [congruence| |intros a'; by rewrite Hpm]. exists d. by rewrite Hself.
  - rewrite bool_decide_eq_false_2, andb_false_r, app_nil_r by done.
    split; [congruence| |intros a'; by rewrite Hpm]. exists d. by rewrite Hother by congruence.
Qed.

End Sybil.
End Sybil.

(** ** Theorems *)

(** For clocks, counts and weights in any realistic range no score
    overflows, and an expired or retired route scores below every other one,
    under the balanced and under the local-first strategy. *)
Theorem dead_routes_rank_last r dead_r now input :
  scorable r now input -> scorable dead_r now input ->
  dead r.(RouteRecord.state) = false -> dead dead_r.(RouteRecord.state) = true ->
  (exists s s', score_balanced r now input = Some s /\ score_balanced dead_r now input = Some s' /\ (s' < s)%Z) /\
  (exists s s', score_local_first r now input = Some s /\ score_local_first dead_r now input = Some s' /\ (s' < s)%Z).
Proof.
  intros Hr Hd Hlive Hdead.
  assert (H1 : (-200 <= state_score r.(RouteRecord.state))%Z) by (destruct r.(RouteRecord.state); done).
  assert (H2 : (state_score dead_r.(RouteRecord.state) = - 2 ^ 62)%Z) by (destruct dead_r.(RouteRecord.state); done).
  split.
  - destruct (score_balanced_value r now input Hr) as (x & Hx & ->).
    destruct (score_balanced_value dead_r now input Hd) as (y & Hy & ->). eexists _, _. repeat split. lia.
  - destruct (score_local_first_value r now input Hr) as (x & Hx & ->).
    destruct (score_local_first_value dead_r now input Hd) as (y & Hy & ->). eexists _, _. repeat split. lia.
Qed.

(** Every failure may be retried five minutes later, a policy rejection or
    a failed authentication too: the cap on the backoff cuts their delay of
    thirty days, and the longer delay is never in force. *)
Theorem retry_within_backoff f class now seed :
  let f' := FailureTracker.record f class now seed in
  FailureTracker.can_retry f' (instant_add now MAX_BACKOFF) = true /\
  (class = FailureClass.PolicyRejected \/ class = FailureClass.AuthenticationFailed ->
   f'.(FailureTracker.retry_after) = Some (instant_add now MAX_BACKOFF)).
Proof.
  intros f'. unfold f', FailureTracker.record, FailureTracker.can_retry. simpl. split.
  - apply N.leb_le. unfold instant_add, saturating_add, backoff_delay. lia.
  - intros Hc. do 2 f_equal. unfold backoff_delay.
    assert (FailureClass.initial_retry_delay class = 2592000000) as -> by by destruct Hc as [->| ->].
    assert (1 <= N.shiftl 1 (N.min (FailureTracker.failure_count f + 1) 10)) as Hm.
    { rewrite N.shiftl_1_l. pose proof (N.pow_nonzero 2 (N.min (FailureTracker.failure_count f + 1) 10)). lia. }
    unfold saturating_mul, saturating_add, MAX_BACKOFF, u64_max. nia.
Qed.

(** Of the requests of one group, however they and those of other groups
    arrive over time, no more than the budget are admitted in any minute, as
    long as the requests come from at most 1024 groups. *)
Theorem sybil_budget `{SybilGuard.MapOrder} (gs : gset SybilGroup.t) per_minute group es a :
  N.of_nat (size gs) <= MAX_GROUPS -> Forall (fun e => e.1 ∈ gs) es -> StronglySorted N.le (map snd es) ->
  len (Sybil.in_minute a (Sybil.admitted (SybilGuard.new per_minute) group es)) <= N.max per_minute 1.
Proof.
  intros Hs Hes Hsort.
  apply (Sybil.admitted_minutes gs es (SybilGuard.new per_minute) group [] 0 Hs Hes).
  - unfold Sybil.within. simpl. set_solver.
  - split; [done| |].
    + exists []. split; [|constructor]. unfold Sybil.stored. simpl. by rewrite lookup_empty.
    + intros a'. unfold Sybil.in_minute. rewrite filter_nil, len_nil. lia.
  - constructor; [done|]. apply list.Forall_forall. intros x _. lia.
Qed.

(** Witnesses. *)

Definition sample_record (st : RouteState.t) : RouteRecord.t :=
  RouteRecord.mk (RouteKey.mk 0 [1] RouteScope.General 0) st [1] None [] [] 0 600000 (Some 5) (Some 7) 3
    RouteScope.LocalMesh.

Lemma dead_routes_rank_last_witness :
  exists s s',
    score_local_first (sample_record RouteState.Failed) 100000 default_score_input = Some s /\
    score_local_first (sample_record RouteState.Expired) 100000 default_score_input = Some s' /\ (s' < s)%Z.
Proof.
  apply (dead_routes_rank_last (sample_record RouteState.Failed) (sample_record RouteState.Expired) 100000
           default_score_input); [repeat split|repeat split|done|done].
Defined.

#[global] Instance sample_order : SybilGuard.MapOrder := {| SybilGuard.bindings := map_to_list |}.

Definition sample_group : SybilGroup.t := SybilGroup.from_requester [1; 2; 3; 4; 5] [9].

Definition sample_requests : list (SybilGroup.t * Instant) :=
  [(sample_group, 1); (sample_group, 1); (sample_group, 2); (sample_group, 60001); (sample_group, 60003)].

Lemma sybil_budget_witness :
  Sybil.admitted (SybilGuard.new 2) sample_group sample_requests = [1; 1; 60001; 60003] /\
  len (Sybil.in_minute 0 (Sybil.admitted (SybilGuard.new 2) sample_group sample_requests)) <= 2.
Proof.
  split; [by vm_compute|].
  apply (sybil_budget {[ sample_group ]} 2 sample_group sample_requests 0).
  - rewrite size_singleton. vm_compute. congruence.
  - repeat constructor; apply elem_of_singleton; done.
  - repeat constructor; vm_compute; congruence.
Defined.
