(* ===== verification/RelayCircuits.v ===== *)
(** * Relay circuits

    The circuit (crates/umc-relay/src/circuit.rs), its closing (close.rs), the
    forwarding of data (forward.rs), the admission of circuits (admission.rs),
    the status and reason codes (status.rs), and the way the daemon takes data on
    a circuit (bins/umcd/src/relay_service.rs). *)

From stdpp Require Import gmap.
From Stdlib Require Import Sorting.Sorted.
From S2P Require Import Prelude Varint SentPackets Records.

#[local] Open Scope N_scope.

Definition MAX_LIFETIME_MS : u64 := 24 * 60 * 60 * 1000.
Definition DEFAULT_IDLE_TIMEOUT_MS : u64 := 2 * 60 * 1000.
Definition DRAIN_PERIOD_MS : u64 := 1000.

Module CircuitState.

Inductive t :=
| Opening
| Active
| HalfClosedUpstream
| HalfClosedDownstream
| Closing
| Draining
| Closed.

#[global] Instance eq_dec : EqDecision t.
Proof. solve_decision. Defined.

End CircuitState.

Inductive QuotaError := Exhausted | Overflow.

(** [x.clamp(lo, hi)], which panics when the bounds are crossed. *)
Definition clamp (x lo hi : N) : option N :=
  if lo <=? hi then Some (if x <? lo then lo else if hi <? x then hi else x) else None.

Module Circuit.

Record t := mk {
  circuit_id : u64;
  state : CircuitState.t;
  created_at : Instant;
  expires_at : Instant;
  idle_deadline : Instant;
  granted_byte_quota : u64;
  bytes_forwarded : u64;
  next_relay_sequence : u64;
  peer_next_relay_sequence : u64;
  last_accepted_data : option (list u8);
  downstream : option (list u8);
  private_handling : bool;
  bidirectional : bool;
  last_activity : Instant
}.

Definition new (circuit_id : u64) (now : Instant) (lifetime_ms byte_quota : u64)
    (bidirectional private_handling : bool) : option t :=
  lifetime ← clamp lifetime_ms 1000 MAX_LIFETIME_MS;
  let expires_at := instant_add now lifetime in
  deadline ← clamp (instant_add now DEFAULT_IDLE_TIMEOUT_MS) now expires_at;
  Some (mk circuit_id CircuitState.Opening now expires_at deadline byte_quota 0 0 0 None None
          private_handling bidirectional now).

Definition touch (c : t) (now : Instant) : option t :=
  deadline ← clamp (instant_add now DEFAULT_IDLE_TIMEOUT_MS) now c.(expires_at);
  Some (c <| last_activity := now |> <| idle_deadline := deadline |>).

Definition is_expired (c : t) (now : Instant) : bool := c.(expires_at) <=? now.

Definition is_idle (c : t) (now : Instant) : bool := c.(idle_deadline) <=? now.

Definition charge (c : t) (bytes : u64) : Result QuotaError t :=
  new_total ← ok_or Overflow (checked_add c.(bytes_forwarded) bytes);
  if c.(granted_byte_quota) <? new_total then Err Exhausted
  else Ok (c <| bytes_forwarded := new_total |>).

Definition allocate_sequence (c : t) : u64 * t :=
  (c.(peer_next_relay_sequence),
   c <| peer_next_relay_sequence := wrapping_add c.(peer_next_relay_sequence) 1 |>).

Definition accept (c : t) (now : Instant) : option t := touch (c <| state := CircuitState.Active |>) now.

Definition close (c : t) (now : Instant) : t :=
  c <| state := CircuitState.Closing |> <| idle_deadline := instant_add now 1000 |>.

End Circuit.

(** [wrapping_mul] and [wrapping_add] on 64 bits. *)
Module CircuitIdAllocator.

Record t := mk { next : u64; seed : u64 }.

Definition new (seed : u64) : t := mk 0 seed.

Definition allocate (a : t) : u64 * t :=
  let seed := ((a.(seed) * 6364136223846793005) mod 2 ^ 64 + 1442695040888963407) mod 2 ^ 64 in
  let value := N.land seed (N.shiftl 1 62 - 1) in
  let id := a.(next) in
  (N.lxor value id, mk ((id + 1) mod 2 ^ 64) seed).

Fixpoint allocate_many (n : nat) (a : t) : list u64 :=
  match n with
  | O => []
  | S n => let '(id, a) := allocate a in id :: allocate_many n a
  end.

End CircuitIdAllocator.

(** ** Closing *)

Module RelayReason.

Inductive t :=
| NoError
| Refused
| AuthFailed
| NoRoute
| DownstreamFailed
| UpstreamFailed
| QuotaExhausted
| Expired
| IdleTimeout
| ResourceLimit
| PolicyRevoked
| ProtocolError
| PayloadTooLarge
| EmergencyShutdown.

#[global] Instance eq_dec : EqDecision t.
Proof. solve_decision. Defined.

Definition from_u64 (code : u64) : option t :=
  match code with
  | 0 => Some NoError
  | 1 => Some Refused
  | 2 => Some AuthFailed
  | 3 => Some NoRoute
  | 4 => Some DownstreamFailed
  | 5 => Some UpstreamFailed
  | 6 => Some QuotaExhausted
  | 7 => Some Expired
  | 8 => Some IdleTimeout
  | 9 => Some ResourceLimit
  | 10 => Some PolicyRevoked
  | 11 => Some ProtocolError
  | 12 => Some PayloadTooLarge
  | 13 => Some EmergencyShutdown
  | _ => None
  end.

End RelayReason.

Definition close_circuit (c : Circuit.t) (reason : RelayReason.t) (now : Instant)
    (final_sequence : option u64) : RelayReason.t * Circuit.t :=
  (reason, c <| Circuit.state := CircuitState.Closing |>
             <| Circuit.idle_deadline := instant_add now DRAIN_PERIOD_MS |>).

Definition drain_circuit (c : Circuit.t) (now : Instant) : Circuit.t :=
  if now <? c.(Circuit.idle_deadline) then c
  else
    match c.(Circuit.state) with
    | CircuitState.Closing =>
        c <| Circuit.state := CircuitState.Draining |>
          <| Circuit.idle_deadline := instant_add now DRAIN_PERIOD_MS |>
    | CircuitState.Draining => c <| Circuit.state := CircuitState.Closed |>
    | _ => c
    end.

Definition expiry_reason (c : Circuit.t) (now : Instant) : option RelayReason.t :=
  if Circuit.is_expired c now then Some RelayReason.Expired
  else if Circuit.is_idle c now then Some RelayReason.IdleTimeout
  else None.

(** ** Forwarding *)

Inductive ForwardError :=
| UnknownCircuit
| CircuitClosed
| SequenceConflict
| DuplicateDiscarded
| PayloadTooLarge
| Quota (e : QuotaError)
| EmptyData
| FinalSequenceExceeded.

Module ForwardResult.

Record t := mk {
  circuit_id : u64;
  sequence : u64;
  data : list u8;
  fin : bool;
  downstream : option (list u8)
}.

End ForwardResult.

(** The last step: charge the quota and hand the data on.  A quota that is used
    up leaves the sequence number taken. *)
Definition take_data (c : Circuit.t) (sequence : u64) (fin : bool) (data : list u8)
    : Result ForwardError ForwardResult.t * Circuit.t :=
  match Circuit.charge c (len data) with
  | Err e => (Err (Quota e), c)
  | Ok c =>
      let c := c <| Circuit.last_accepted_data := Some data |> in
      (Ok (ForwardResult.mk c.(Circuit.circuit_id) sequence data fin c.(Circuit.downstream)), c)
  end.

(** The next expected number is computed with the [+] of a release build, which
    wraps around at [u64::MAX]; a build with overflow checks panics there. *)
Definition accept_upstream_data (c : Circuit.t) (sequence : u64) (fin : bool) (data : list u8)
    (max_payload : usize) : Result ForwardError ForwardResult.t * Circuit.t :=
  if max_payload <? len data then (Err PayloadTooLarge, c)
  else if (len data =? 0) && negb fin then (Err EmptyData, c)
  else if bool_decide (c.(Circuit.state) = CircuitState.Closed) ||
          bool_decide (c.(Circuit.state) = CircuitState.Draining)
  then (Err CircuitClosed, c)
  else
    match sequence ?= c.(Circuit.next_relay_sequence) with
    | Eq => take_data (c <| Circuit.next_relay_sequence := wrapping_add c.(Circuit.next_relay_sequence) 1 |>)
              sequence fin data
    | Lt =>
        if bool_decide (c.(Circuit.last_accepted_data) = Some data)
        then (Err DuplicateDiscarded, c)
        else (Err SequenceConflict, c)
    | Gt => take_data (c <| Circuit.next_relay_sequence := wrapping_add sequence 1 |>) sequence fin data
    end.

Definition apply_fin (c : Circuit.t) (from_upstream : bool) : Result ForwardError Circuit.t :=
  if from_upstream then
    if decide (c.(Circuit.state) = CircuitState.HalfClosedUpstream) then Err FinalSequenceExceeded
    else if decide (c.(Circuit.state) = CircuitState.Active)
    then Ok (c <| Circuit.state := CircuitState.HalfClosedUpstream |>)
    else Ok c
  else if decide (c.(Circuit.state) = CircuitState.HalfClosedDownstream) then Err FinalSequenceExceeded
  else if decide (c.(Circuit.state) = CircuitState.Active)
  then Ok (c <| Circuit.state := CircuitState.HalfClosedDownstream |>)
  else Ok c.

(** ** Admission *)

Inductive RelayPolicy := Disabled | FriendsOnly | Community | Public.

#[global] Instance RelayPolicy_eq_dec : EqDecision RelayPolicy.
Proof. solve_decision. Defined.

Inductive AdmissionDecision :=
| Accepted (granted_lifetime_ms granted_byte_quota : u64) (maximum_relay_payload : usize)
| RelayRefused
| NoRoute
| AuthFailed
| RelayResourceLimit
| UnsupportedFlags.

Module AdmissionLimits.

Record t := mk {
  policy : RelayPolicy;
  max_circuits_per_peer : usize;
  active_circuits : usize;
  max_lifetime_ms : u64;
  max_byte_quota : u64;
  max_payload : usize;
  allow_multipath : bool;
  max_multipath_paths : usize
}.

Definition default : t := mk Disabled 4 0 (10 * 60 * 1000) (256 * 1024 * 1024) (64 * 1024) true 4.

End AdmissionLimits.

Definition evaluate_open (limits : AdmissionLimits.t) (peer_circuits : usize)
    (requested_lifetime_ms requested_byte_quota : u64) (flags : u8) : AdmissionDecision :=
  if bool_decide (limits.(AdmissionLimits.policy) = Disabled) then RelayRefused
  else if negb (N.land flags 0xF0 =? 0) then UnsupportedFlags
  else if negb (N.land flags 0x08 =? 0) &&
          (negb limits.(AdmissionLimits.allow_multipath) || (limits.(AdmissionLimits.max_multipath_paths) <? 2))
  then UnsupportedFlags
  else if limits.(AdmissionLimits.max_circuits_per_peer) <=? peer_circuits then RelayResourceLimit
  else if MAX_LIFETIME_MS <? requested_lifetime_ms then RelayRefused
  else if limits.(AdmissionLimits.max_lifetime_ms) <? requested_lifetime_ms then RelayRefused
  else
    let lifetime :=
      if requested_lifetime_ms =? 0 then limits.(AdmissionLimits.max_lifetime_ms) else requested_lifetime_ms in
    let quota :=
      if requested_byte_quota =? 0 then limits.(AdmissionLimits.max_byte_quota)
      else N.min requested_byte_quota limits.(AdmissionLimits.max_byte_quota) in
    Accepted lifetime quota limits.(AdmissionLimits.max_payload).

(** ** Status codes *)

Module RelayStatus.

Inductive t :=
| Pending
| Accepted
| Refused
| NoRoute
| AuthFailed
| ResourceLimit
| DestinationRejected
| Degraded
| QuotaWarning
| Expiring
| Closed
| UnsupportedFlags.

(** [s as u64]. *)
Definition code (s : t) : u64 :=
  match s with
  | Pending => 0
  | Accepted => 1
  | Refused => 2
  | NoRoute => 3
  | AuthFailed => 4
  | ResourceLimit => 5
  | DestinationRejected => 6
  | Degraded => 7
  | QuotaWarning => 8
  | Expiring => 9
  | Closed => 10
  | UnsupportedFlags => 11
  end.

Definition from_u64 (code : u64) : option t :=
  match code with
  | 0 => Some Pending
  | 1 => Some Accepted
  | 2 => Some Refused
  | 3 => Some NoRoute
  | 4 => Some AuthFailed
  | 5 => Some ResourceLimit
  | 6 => Some DestinationRejected
  | 7 => Some Degraded
  | 8 => Some QuotaWarning
  | 9 => Some Expiring
  | 10 => Some Closed
  | 11 => Some UnsupportedFlags
  | _ => None
  end.

End RelayStatus.

Definition status_for_reason (reason : RelayReason.t) : u64 :=
  match reason with
  | RelayReason.NoError | RelayReason.IdleTimeout | RelayReason.EmergencyShutdown => RelayStatus.code RelayStatus.Closed
  | RelayReason.Refused | RelayReason.PolicyRevoked | RelayReason.PayloadTooLarge => RelayStatus.code RelayStatus.Refused
  | RelayReason.AuthFailed => RelayStatus.code RelayStatus.AuthFailed
  | RelayReason.NoRoute => RelayStatus.code RelayStatus.NoRoute
  | RelayReason.DownstreamFailed | RelayReason.UpstreamFailed => RelayStatus.code RelayStatus.DestinationRejected
  | RelayReason.QuotaExhausted | RelayReason.ResourceLimit => RelayStatus.code RelayStatus.ResourceLimit
  | RelayReason.Expired => RelayStatus.code RelayStatus.Expiring
  | RelayReason.ProtocolError => RelayStatus.code RelayStatus.UnsupportedFlags
  end.

Definition reason_for_status (code : u64) : option RelayReason.t :=
  status ← RelayStatus.from_u64 code;
  match status with
  | RelayStatus.Refused => Some RelayReason.Refused
  | RelayStatus.NoRoute => Some RelayReason.NoRoute
  | RelayStatus.AuthFailed => Some RelayReason.AuthFailed
  | RelayStatus.ResourceLimit => Some RelayReason.ResourceLimit
  | RelayStatus.DestinationRejected => Some RelayReason.DownstreamFailed
  | RelayStatus.Expiring => Some RelayReason.Expired
  | RelayStatus.Closed => Some RelayReason.NoError
  | RelayStatus.UnsupportedFlags => Some RelayReason.ProtocolError
  | RelayStatus.Pending | RelayStatus.Accepted | RelayStatus.Degraded | RelayStatus.QuotaWarning => None
  end.

(** ** Data on a circuit of the daemon

    [RelayService::accept_upstream_single] on the table of circuits; absent when
    a call panics.  Writing the circuit to the store afterwards changes no
    state of it and its outcome is ignored. *)

Inductive ServiceError :=
| NoSuchCircuit
| HalfClosed
| ForwardRejected (e : ForwardError).

Definition accept_upstream_single (circuits : gmap u64 Circuit.t) (max_payload : usize)
    (circuit_id sequence : u64) (fin : bool) (data : list u8) (now : Instant)
    : option (Result ServiceError unit * gmap u64 Circuit.t) :=
  match circuits !! circuit_id with
  | None => Some (Err NoSuchCircuit, circuits)
  | Some c =>
      if decide (c.(Circuit.state) = CircuitState.HalfClosedUpstream) then Some (Err HalfClosed, circuits)
      else
        let '(r, c) := accept_upstream_data c sequence fin data max_payload in
        let store c := <[circuit_id := c]> circuits in
        match r with
        | Err DuplicateDiscarded => Some (Ok tt, store c)
        | Err e => Some (Err (ForwardRejected e), store c)
        | Ok _ =>
            c ← (if decide (c.(Circuit.state) = CircuitState.Opening) then Circuit.accept c now else Some c);
            match (if fin then apply_fin c true else Ok c) with
            | Err e => Some (Err (ForwardRejected e), store c)
            | Ok c =>
                c ← Circuit.touch c now;
                Some (Ok tt, store c)
            end
        end
  end.

(** ** Runs of a circuit *)

Module Relay.

Inductive op :=
| Data (sequence : u64) (fin : bool) (data : list u8) (max_payload : usize)
| Fin (from_upstream : bool)
| Touch (now : Instant)
| Accept (now : Instant)
| Close (now : Instant)
| CloseWith (reason : RelayReason.t) (now : Instant) (final_sequence : option u64)
| Drain (now : Instant)
| Allocate.

(** What a call hands on, and the circuit after it; absent when it panics. *)
Definition step (c : Circuit.t) (o : op) : option (list ForwardResult.t * Circuit.t) :=
  match o with
  | Data sequence fin data max_payload =>
      let '(r, c) := accept_upstream_data c sequence fin data max_payload in
      Some (match r with Ok f => [f] | Err _ => [] end, c)
  | Fin from_upstream => Some ([], match apply_fin c from_upstream with Ok c => c | Err _ => c end)
  | Touch now => c ← Circuit.touch c now; Some ([], c)
  | Accept now => c ← Circuit.accept c now; Some ([], c)
  | Close now => Some ([], Circuit.close c now)
  | CloseWith reason now final_sequence => Some ([], (close_circuit c reason now final_sequence).2)
  | Drain now => Some ([], drain_circuit c now)
  | Allocate => Some ([], (Circuit.allocate_sequence c).2)
  end.

Fixpoint run (c : Circuit.t) (os : list op) : option (list ForwardResult.t * Circuit.t) :=
  match os with
  | [] => Some ([], c)
  | o :: os =>
      '(out, c) ← step c o;
      '(outs, c) ← run c os;
      Some (out ++ outs, c)
  end.

Definition total (fs : list ForwardResult.t) : N :=
  fold_right (fun f n => len f.(ForwardResult.data) + n) 0 fs.

Definition sequences (fs : list ForwardResult.t) : list u64 := ForwardResult.sequence <$> fs.

(** The number of a RELAY_DATA frame is a variable-length integer. *)
Definition on_wire (o : op) : Prop := match o with Data sequence _ _ _ => sequence <= MAX_VARINT | _ => True end.

(** What any call does to the account: the bytes of the results are charged, and
    the grant stays. *)
Record accounted (c c' : Circuit.t) (fs : list ForwardResult.t) : Prop := {
  acc_quota : c'.(Circuit.granted_byte_quota) = c.(Circuit.granted_byte_quota);
  acc_bytes : c'.(Circuit.bytes_forwarded) = c.(Circuit.bytes_forwarded) + total fs;
  acc_within : c.(Circuit.bytes_forwarded) <= c.(Circuit.granted_byte_quota) ->
               c'.(Circuit.bytes_forwarded) <= c.(Circuit.granted_byte_quota)
}.

(** The results carry rising sequence numbers from the expected one on. *)
Record rising (c c' : Circuit.t) (fs : list ForwardResult.t) : Prop := {
  ris_next : c.(Circuit.next_relay_sequence) <= c'.(Circuit.next_relay_sequence);
  ris_range : Forall (fun s => c.(Circuit.next_relay_sequence) <= s < c'.(Circuit.next_relay_sequence)) (sequences fs);
  ris_sorted : StronglySorted N.lt (sequences fs)
}.

(** The fields of the account. *)
Definition account (c : Circuit.t) : u64 * u64 * u64 :=
  (c.(Circuit.granted_byte_quota), c.(Circuit.bytes_forwarded), c.(Circuit.next_relay_sequence)).

(** A call charges what it hands on, and its numbers rise if it is one of the wire. *)
Definition keeps (wired : Prop) (c c' : Circuit.t) (fs : list ForwardResult.t) : Prop :=
  accounted c c' fs /\ (wired -> rising c c' fs).

Lemma keeps_same wired c c' : account c' = account c -> keeps wired c c' [].
Proof.
  intros [= Hq Hb Hn]. split; [|intros _]; split; unfold sequences; simpl; try done; [lia|lia|lia|constructor].
Qed.

Lemma total_app fs gs : total (fs ++ gs) = total fs + total gs.
Proof. induction fs as [|f fs IH]; simpl; [done|]. fold (total (fs ++ gs)) (total fs). lia. Qed.

Lemma accounted_app c c1 c2 fs gs : accounted c c1 fs -> accounted c1 c2 gs -> accounted c c2 (fs ++ gs).
Proof.
  intros [Q1 B1 W1] [Q2 B2 W2]. split; [congruence|rewrite B2, B1, total_app; lia|rewrite Q1 in W2; auto].
Qed.

Lemma rising_app c c1 c2 fs gs : rising c c1 fs -> rising c1 c2 gs -> rising c c2 (fs ++ gs).
Proof.
  intros [N1 R1 S1] [N2 R2 S2]. unfold sequences in *. split; unfold sequences; rewrite ?fmap_app; [lia| |].
  - apply Forall_app. split.
    + eapply list.Forall_impl; [exact R1|]. simpl. lia.
    + eapply list.Forall_impl; [exact R2|]. simpl. lia.
  - clear -R1 R2 S1 S2. induction S1 as [|x l Hl IH Hx]; simpl; [done|]. inversion R1 as [|? ? Hr Hrs]; subst.
    constructor; [auto|]. apply Forall_app. split; [done|].
    eapply list.Forall_impl; [exact R2|]. simpl. lia.
Qed.

Lemma take_data_keeps c sequence fin data :
  c.(Circuit.next_relay_sequence) <= sequence ->
  let '(r, c') := take_data (c <| Circuit.next_relay_sequence := wrapping_add sequence 1 |>) sequence fin data in
  keeps (sequence <= MAX_VARINT) c c' (match r with Ok f => [f] | Err _ => [] end).
Proof.
  intros Hs. assert (Hw : sequence <= MAX_VARINT -> wrapping_add sequence 1 = sequence + 1).
  { intros H. apply wrapping_add_small. unfold MAX_VARINT, u64_max in *. lia. }
  unfold take_data, Circuit.charge. simpl. destruct (checked_add _ _) as [n|] eqn:E; simpl.
  2: { split; [|intros H%Hw]; split; unfold sequences; simpl; try done; [lia|lia|constructor]. }
  apply checked_add_Some in E as [-> _].
  destruct (N.ltb_spec c.(Circuit.granted_byte_quota) (c.(Circuit.bytes_forwarded) + len data)) as [Hlt|Hle]; simpl.
  { split; [|intros H%Hw]; split; unfold sequences; simpl; try done; [lia|lia|constructor]. }
  split; [|intros H%Hw]; split; unfold sequences; simpl; try done;
    [lia|lia|constructor; [lia|constructor]|repeat constructor].
Qed.

Lemma touch_account c now c' : Circuit.touch c now = Some c' -> account c' = account c.
Proof. unfold Circuit.touch. intros (d & _ & [= <-])%bind_Some. done. Qed.

Lemma step_keeps c o out c' : step c o = Some (out, c') -> keeps (on_wire o) c c' out.
Proof.
  destruct o as [sequence fin data max|from|now|now|now|reason now fs|now|]; simpl.
  - unfold accept_upstream_data.
    destruct (_ <? _); [intros [= <- <-]; by apply keeps_same|].
    destruct (_ && _); [intros [= <- <-]; by apply keeps_same|].
    destruct (_ || _); [intros [= <- <-]; by apply keeps_same|].
    pose proof (take_data_keeps c sequence fin data) as H.
    destruct (N.compare_spec sequence c.(Circuit.next_relay_sequence)) as [E|E|E].
    + rewrite <- E. destruct (take_data _ _ _ _) as [r c1]. intros [= <- <-]. apply H; lia.
    + destruct (bool_decide _); intros [= <- <-]; by apply keeps_same.
    + destruct (take_data _ _ _ _) as [r c1]. intros [= <- <-]. apply H; lia.
  - intros [= <- <-]. apply keeps_same. unfold apply_fin. destruct from; repeat case_decide; done.
  - intros (c1 & H & [= <- <-])%bind_Some. by apply keeps_same, (touch_account c now).
  - intros (c1 & H & [= <- <-])%bind_Some. by apply keeps_same; rewrite (touch_account _ _ _ H).
  - intros [= <- <-]. by apply keeps_same.
  - intros [= <- <-]. by apply keeps_same.
  - intros [= <- <-]. apply keeps_same. unfold drain_circuit. destruct (_ <? _); [done|].
    by destruct c.(Circuit.state).
  - intros [= <- <-]. by apply keeps_same.
Qed.

Lemma run_keeps c os outs c' : run c os = Some (outs, c') -> keeps (Forall on_wire os) c c' outs.
Proof.
  revert c outs c'. induction os as [|o os IH]; intros c outs c'; simpl.
  { intros [= <- <-]. by apply keeps_same. }
  intros ([out c1] & [A1 R1]%step_keeps & ([outs' c2] & [A2 R2]%IH & [= <- <-])%bind_Some)%bind_Some.
  split; [by eapply accounted_app|]. intros [Ho Hos]%Forall_cons_iff. eapply rising_app; auto.
Qed.

End Relay.

(** Taking data changes neither the state nor the lifetime. *)
Lemma accept_data_frame c sequence fin data max r c' :
  accept_upstream_data c sequence fin data max = (Ok r, c') ->
  c'.(Circuit.state) = c.(Circuit.state) /\ c'.(Circuit.expires_at) = c.(Circuit.expires_at).
Proof.
  unfold accept_upstream_data.
  destruct (_ <? _); [done|]. destruct (_ && _); [done|]. destruct (_ || _); [done|].
  destruct (_ ?= _); [|by destruct (bool_decide _)|]; unfold take_data;
    (destruct (Circuit.charge _ _) as [c2|] eqn:Ec; [|done]);
    unfold Circuit.charge in Ec; apply bind_Ok in Ec as (n & _ & Ec);
    (destruct (_ <? _); [done|]); injection Ec as <-; by intros [= _ <-].
Qed.

(** ** Theorems *)

(** C36: Over the whole life of a circuit, whatever calls are made on it, the
    bytes handed on are exactly those charged to the circuit and never exceed
    the quota granted when it was opened; and when the data comes in frames of
    the wire, whose numbers are variable-length integers, the data handed on
    carries strictly rising sequence numbers, so nothing is forwarded twice. *)
Theorem relay_accounting id now lifetime quota bidi priv c os outs c' :
  Circuit.new id now lifetime quota bidi priv = Some c -> Relay.run c os = Some (outs, c') ->
  c'.(Circuit.bytes_forwarded) = Relay.total outs /\ Relay.total outs <= quota /\
  (Forall Relay.on_wire os -> StronglySorted N.lt (Relay.sequences outs)).
Proof.
  unfold Circuit.new. intros (l & _ & (d & _ & [= <-])%bind_Some)%bind_Some Hrun.
  apply Relay.run_keeps in Hrun as [[_ Hb Hw] Hs]. simpl in *. split; [lia|]. split; [|by intros [_ _ ?]%Hs].
  rewrite Hb in Hw. simpl in Hw. lia.
Qed.

Definition sample_circuit : Circuit.t :=
  Circuit.mk 7 CircuitState.Opening 0 600000 120000 10 0 0 0 None None false true 0.

Lemma relay_accounting_witness :
  let os := [Relay.Accept 5; Relay.Data 0 false [1; 2; 3] 100; Relay.Data 0 false [1; 2; 3] 100;
             Relay.Data 4 false [4; 5; 6; 7] 100; Relay.Data 5 false [8; 9; 10; 11] 100] in
  exists outs c', Relay.run sample_circuit os = Some (outs, c') /\ Relay.total outs = 7 /\ Relay.total outs <= 10 /\
    StronglySorted N.lt (Relay.sequences outs).
Proof.
  intros os. destruct (Relay.run sample_circuit os) as [[outs c']|] eqn:E; [|by vm_compute in E].
  exists outs, c'. split; [done|].
  destruct (relay_accounting 7 0 600000 10 true false sample_circuit os outs c') as (_ & Hq & Hs); [done|done|].
  split; [revert E; vm_compute; by intros [= <- _]|]. split; [done|]. apply Hs. by repeat constructor.
Defined.

(** Beyond the wire's numbers the counter wraps: after the number [u64::MAX],
    which no frame can carry, number 0 is forwarded a second time. *)
Theorem relay_sequence_wraps :
  match Relay.run sample_circuit [Relay.Data 0 false [1] 100; Relay.Data u64_max false [2] 100; Relay.Data 0 false [3] 100] with
  | Some (outs, _) => Relay.sequences outs = [0; u64_max; 0]
  | None => False
  end.
Proof. by vm_compute. Qed.

(** Data that reaches the daemon on a circuit whose lifetime has run out,
    before the circuit is swept, panics: the idle deadline is clamped between
    the present and an expiry that lies before it. *)
Theorem late_data_panics circuits max_payload id sequence fin data now c c1 f :
  circuits !! id = Some c -> c.(Circuit.state) <> CircuitState.HalfClosedUpstream ->
  c.(Circuit.expires_at) < now ->
  accept_upstream_data c sequence fin data max_payload = (Ok f, c1) ->
  accept_upstream_single circuits max_payload id sequence fin data now = None.
Proof.
  intros Hc Hs He Ha. unfold accept_upstream_single. rewrite Hc, decide_False, Ha by done.
  destruct (accept_data_frame _ _ _ _ _ _ _ Ha) as [Hst Hexp].
  assert (Ht : forall c2, c2.(Circuit.expires_at) = c.(Circuit.expires_at) -> Circuit.touch c2 now = None).
  { intros c2 E2. unfold Circuit.touch, clamp. rewrite E2, (proj2 (N.leb_gt _ _) He). done. }
  case_decide.
  - unfold Circuit.accept. rewrite Ht by done. done.
  - cbn [mbind option_bind]. destruct fin; [|by rewrite Ht].
    unfold apply_fin. rewrite decide_False by congruence. case_decide; by rewrite Ht.
Qed.

Lemma late_data_panics_witness :
  accept_upstream_single {[ 7 := sample_circuit ]} 100 7 0 false [1; 2; 3] 600001 = None.
Proof.
  eapply (late_data_panics {[ 7 := sample_circuit ]} 100 7 0 false [1; 2; 3] 600001 sample_circuit);
    [by vm_compute|done|done|by vm_compute].
Defined.

(** A circuit that is being closed takes data until its first drain period
    is over, none from then on, and is closed for good after the second: the two
    stages end exactly at their deadlines. *)
Theorem circuit_drains c reason now final now1 now2 :
  let closing := (close_circuit c reason now final).2 in
  let draining := drain_circuit closing now1 in
  let closed := drain_circuit draining now2 in
  instant_add now DRAIN_PERIOD_MS <= now1 -> instant_add now1 DRAIN_PERIOD_MS <= now2 ->
  (forall t, t < instant_add now DRAIN_PERIOD_MS -> drain_circuit closing t = closing) /\
  draining.(Circuit.state) = CircuitState.Draining /\
  (forall t, t < instant_add now1 DRAIN_PERIOD_MS -> drain_circuit draining t = draining) /\
  closed.(Circuit.state) = CircuitState.Closed /\
  (forall t, drain_circuit closed t = closed) /\
  forall sequence fin data max f c',
    accept_upstream_data draining sequence fin data max <> (Ok f, c') /\
    accept_upstream_data closed sequence fin data max <> (Ok f, c').
Proof.
  intros closing draining closed H1 H2.
  assert (Ed : draining = closing <| Circuit.state := CircuitState.Draining |>
                                  <| Circuit.idle_deadline := instant_add now1 DRAIN_PERIOD_MS |>).
  { unfold draining, drain_circuit.
    change closing.(Circuit.idle_deadline) with (instant_add now DRAIN_PERIOD_MS).
    by rewrite (proj2 (N.ltb_ge _ _) H1). }
  assert (Ec : closed = draining <| Circuit.state := CircuitState.Closed |>).
  { unfold closed, drain_circuit.
    replace draining.(Circuit.idle_deadline) with (instant_add now1 DRAIN_PERIOD_MS) by by rewrite Ed.
    rewrite (proj2 (N.ltb_ge _ _) H2). by replace draining.(Circuit.state) with CircuitState.Draining by by rewrite Ed. }
  assert (Hrefuse : forall d sequence fin data max f c',
    d.(Circuit.state) = CircuitState.Draining \/ d.(Circuit.state) = CircuitState.Closed ->
    accept_upstream_data d sequence fin data max <> (Ok f, c')).
  { intros d sequence fin data max f c' Hd. unfold accept_upstream_data.
    destruct (_ <? _); [done|]. destruct (_ && _); [done|]. by destruct Hd as [-> | ->]. }
  clearbody draining closed. subst closed draining. split; [|split; [done|split; [|split; [done|split]]]].
  - intros t Ht. unfold drain_circuit at 1.
    change closing.(Circuit.idle_deadline) with (instant_add now DRAIN_PERIOD_MS).
    by rewrite (proj2 (N.ltb_lt _ _) Ht).
  - intros t Ht. unfold drain_circuit at 1. cbn. cbn in Ht. by rewrite (proj2 (N.ltb_lt _ _) Ht).
  - intros t. unfold drain_circuit. by destruct (_ <? _).
  - intros. split; apply Hrefuse; auto.
Qed.

Lemma circuit_drains_witness :
  (drain_circuit (drain_circuit (close_circuit sample_circuit RelayReason.Expired 10 None).2 1010) 2010).(Circuit.state)
  = CircuitState.Closed.
Proof.
  apply (circuit_drains sample_circuit RelayReason.Expired 10 None 1010 2010); vm_compute; congruence.
Defined.

(** What admission grants stays within the relay's limits, and the circuit
    opened with it is there, ends within the granted lifetime and within a day,
    goes idle no later, and will never forward more than the relay's quota. *)
Theorem admission_grant limits peers lifetime quota flags granted_life granted_quota payload id now bidi priv :
  now <= u64_max ->
  evaluate_open limits peers lifetime quota flags = Accepted granted_life granted_quota payload ->
  limits.(AdmissionLimits.policy) <> Disabled /\ peers < limits.(AdmissionLimits.max_circuits_per_peer) /\
  granted_life <= limits.(AdmissionLimits.max_lifetime_ms) /\
  granted_quota <= limits.(AdmissionLimits.max_byte_quota) /\
  exists c, Circuit.new id now granted_life granted_quota bidi priv = Some c /\
    c.(Circuit.expires_at) <= now + N.max 1000 (N.min granted_life MAX_LIFETIME_MS) /\
    now <= c.(Circuit.idle_deadline) <= c.(Circuit.expires_at) /\
    c.(Circuit.granted_byte_quota) = granted_quota.
Proof.
  intros Hnow. unfold evaluate_open. destruct (bool_decide _) eqn:Hp; [done|]. apply bool_decide_eq_false in Hp.
  destruct (negb _); [done|]. destruct (_ && _); [done|].
  destruct (N.leb_spec limits.(AdmissionLimits.max_circuits_per_peer) peers); [done|].
  destruct (N.ltb_spec MAX_LIFETIME_MS lifetime); [done|].
  destruct (N.ltb_spec limits.(AdmissionLimits.max_lifetime_ms) lifetime); [done|].
  intros [= Hl Hq _]. split; [done|]. split; [done|].
  split; [destruct (lifetime =? 0); lia|]. split; [destruct (quota =? 0); lia|].
  unfold Circuit.new, clamp. change (1000 <=? MAX_LIFETIME_MS) with true. cbn [mbind option_bind].
  set (life := if granted_life <? 1000 then 1000 else _).
  assert (Hlife : life = N.max 1000 (N.min granted_life MAX_LIFETIME_MS)).
  { unfold life, MAX_LIFETIME_MS. destruct (N.ltb_spec granted_life 1000); [lia|].
    destruct (N.ltb_spec (24 * 60 * 60 * 1000) granted_life); lia. }
  clearbody life. subst life. unfold instant_add, saturating_add. set (life := N.max _ _).
  destruct (N.leb_spec now (N.min (now + life) u64_max)); [|lia]. cbn [mbind option_bind].
  eexists. split; [done|]. simpl. split; [lia|]. split; [|done].
  destruct (N.ltb_spec (N.min (now + DEFAULT_IDLE_TIMEOUT_MS) u64_max) now); [lia|].
  destruct (N.ltb_spec (N.min (now + life) u64_max) (N.min (now + DEFAULT_IDLE_TIMEOUT_MS) u64_max)); lia.
Qed.

Lemma admission_grant_witness :
  let limits := AdmissionLimits.default <| AdmissionLimits.policy := Public |> in
  exists c, Circuit.new 1 5 600000 268435456 true false = Some c /\
    c.(Circuit.expires_at) <= 5 + N.max 1000 (N.min 600000 MAX_LIFETIME_MS).
Proof.
  intros limits.
  destruct (admission_grant limits 0 0 0 0 600000 268435456 65536 1 5 true false)
    as (_ & _ & _ & _ & c & H1 & H2 & _); [vm_compute; congruence|by vm_compute|]. by exists c.
Defined.

(** Circuit identifiers are not unique: from this seed the fourth and the
    fifth circuit of a session get the same one. *)
Theorem circuit_ids_collide :
  let ids := CircuitIdAllocator.allocate_many 5 (CircuitIdAllocator.new 4959456413325404880) in
  ids !! 3%nat = Some 615661168216035719 /\ ids !! 4%nat = Some 615661168216035719.
Proof. vm_compute. by split. Qed.

(** Only one direction of a circuit is ever recorded as finished: after the
    end from upstream the end from downstream changes nothing, and may be
    repeated without being refused. *)
Theorem half_close_one_sided c c1 :
  c.(Circuit.state) = CircuitState.Active -> apply_fin c true = Ok c1 ->
  c1.(Circuit.state) = CircuitState.HalfClosedUpstream /\
  apply_fin c1 true = Err FinalSequenceExceeded /\ apply_fin c1 false = Ok c1.
Proof.
  intros Hs. unfold apply_fin. rewrite Hs. rewrite decide_False, decide_True by done.
  by intros [= <-].
Qed.

Lemma half_close_one_sided_witness :
  let c := sample_circuit <| Circuit.state := CircuitState.Active |> in
  exists c1, apply_fin c true = Ok c1 /\ apply_fin c1 false = Ok c1.
Proof.
  intros c. eexists. split; [done|]. by apply (half_close_one_sided c).
Defined.

(** Whether data at an old sequence number is a duplicate or a conflict is
    told by the bytes of the last data alone: an exact repetition of an earlier
    frame is a conflict, and the last frame's bytes under any old number are a
    duplicate. *)
Theorem duplicate_by_last_bytes c sequence fin data max_payload last :
  c.(Circuit.state) = CircuitState.Active -> c.(Circuit.last_accepted_data) = Some last ->
  sequence < c.(Circuit.next_relay_sequence) -> 0 < len data <= max_payload ->
  accept_upstream_data c sequence fin data max_payload =
    (Err (if bool_decide (last = data) then DuplicateDiscarded else SequenceConflict), c).
Proof.
  intros Hs Hl Hlt Hd. unfold accept_upstream_data. rewrite Hs, Hl.
  destruct (N.ltb_spec max_payload (len data)); [lia|]. destruct (N.eqb_spec (len data) 0); [lia|].
  cbn [andb orb]. rewrite !bool_decide_eq_false_2 by done. cbn [orb].
  rewrite (proj2 (N.compare_lt_iff _ _) Hlt).
  destruct (decide (last = data)) as [->|Hne].
  - by rewrite !bool_decide_eq_true_2.
  - rewrite !bool_decide_eq_false_2 by congruence. done.
Qed.

Lemma duplicate_by_last_bytes_witness :
  let c := sample_circuit <| Circuit.state := CircuitState.Active |> <| Circuit.next_relay_sequence := 2 |>
             <| Circuit.last_accepted_data := Some [2] |> in
  accept_upstream_data c 0 false [1] 100 = (Err SequenceConflict, c).
Proof. intros c. apply (duplicate_by_last_bytes c 0 false [1] 100 [2]); [done..|vm_compute; split; congruence]. Defined.

(** Every status that ends a circuit has the reason that reports it. *)
Lemma status_reason_roundtrip code reason :
  reason_for_status code = Some reason -> status_for_reason reason = code.
Proof.
  unfold reason_for_status. intros (s & Hs & Hr)%bind_Some.
  assert (code = RelayStatus.code s) as ->; [|by destruct s; simplify_eq/=].
  unfold RelayStatus.from_u64 in Hs. destruct code as [|p]; [by injection Hs as <-|].
  do 4 (destruct p as [p|p|]; try done; try by injection Hs as <-).
Qed.
