(* ===== verification/RelayQueues.v ===== *)
(** * Relay queues and rates (crates/umc-relay/src/quota.rs) *)

From stdpp Require Import gmap.
From Stdlib Require Import Sorting.Sorted.
From S2P Require Import Prelude Records.

#[local] Open Scope N_scope.

Definition PER_CIRCUIT_QUEUE_BYTES : usize := 256 * 1024.
Definition PER_PEER_QUEUE_BYTES : usize := 2 * 1024 * 1024.
Definition GLOBAL_QUEUE_BYTES : usize := 64 * 1024 * 1024.
Definition MAX_QUEUE_PEERS : usize := 1024.

Inductive QueueError := Full.

Module QueueAccount.

Record t := mk {
  per_circuit_bytes : usize;
  per_peer_bytes : usize;
  peer_queues : gmap (list u8) usize;
  circuit_queues : gmap (list u8 * u64) usize
}.

Definition new : t := mk 0 0 ∅ ∅.

(** [values().copied().sum()]. *)
Definition sum `{Countable K} (m : gmap K usize) : usize := map_fold (fun _ v n => v + n) 0 m.

Definition accept_for_circuit (a : t) (peer : list u8) (circuit_id : u64) (bytes : usize)
    : Result QueueError t :=
  let circuit_key := (peer, circuit_id) in
  circuit ← ok_or Full (checked_add (default 0 (a.(circuit_queues) !! circuit_key)) bytes);
  if PER_CIRCUIT_QUEUE_BYTES <? circuit then Err Full
  else
    let current_peer := default 0 (a.(peer_queues) !! peer) in
    peer_total ← ok_or Full (checked_add current_peer bytes);
    if PER_PEER_QUEUE_BYTES <? peer_total then Err Full
    else if bool_decide (a.(peer_queues) !! peer = None) && (MAX_QUEUE_PEERS <=? N.of_nat (size a.(peer_queues)))
    then Err Full
    else
      let peers := <[peer := peer_total]> a.(peer_queues) in
      Ok (mk (if circuit_id =? 0 then circuit else a.(per_circuit_bytes)) (sum peers) peers
            (<[circuit_key := circuit]> a.(circuit_queues))).

Definition accept_for_peer (a : t) (peer : list u8) (bytes : usize) : Result QueueError t :=
  accept_for_circuit a peer 0 bytes.

Definition accept (a : t) (bytes : usize) : Result QueueError t := accept_for_peer a [] bytes.

(** [if let Some(total) = m.get_mut(k) { .. }]: less, or gone when nothing is left. *)
Definition lower `{Countable K} (m : gmap K usize) (k : K) (bytes : usize) : gmap K usize :=
  match m !! k with
  | Some total => if total - bytes =? 0 then delete k m else <[k := total - bytes]> m
  | None => m
  end.

Definition release_for_circuit (a : t) (peer : list u8) (circuit_id : u64) (bytes : usize) : t :=
  let peers := lower a.(peer_queues) peer bytes in
  mk (if circuit_id =? 0 then a.(per_circuit_bytes) - bytes else a.(per_circuit_bytes)) (sum peers) peers
     (lower a.(circuit_queues) (peer, circuit_id) bytes).

Definition release_for_peer (a : t) (peer : list u8) (bytes : usize) : t :=
  release_for_circuit a peer 0 bytes.

Definition release (a : t) (bytes : usize) : t := release_for_peer a [] bytes.

End QueueAccount.

Module RateLimiter.

Record t := mk {
  rate_bytes_per_sec : u64;
  bucket : u64;
  last_refill_ms : u64
}.

Definition new (rate_bytes_per_sec initial_burst : u64) : t := mk rate_bytes_per_sec initial_burst 0.

Definition allow (l : t) (now_ms bytes : u64) : bool * t :=
  let elapsed := saturating_sub now_ms l.(last_refill_ms) in
  let bucket := saturating_add l.(bucket) (saturating_mul elapsed l.(rate_bytes_per_sec) / 1000) in
  let bucket := N.min bucket l.(rate_bytes_per_sec) in
  if bytes <=? bucket then (true, mk l.(rate_bytes_per_sec) (bucket - bytes) now_ms)
  else (false, mk l.(rate_bytes_per_sec) bucket now_ms).

(** The bytes a run of calls lets through. *)
Fixpoint run (l : t) (calls : list (u64 * u64)) : N * t :=
  match calls with
  | [] => (0, l)
  | (now, bytes) :: calls =>
      let '(ok, l) := allow l now bytes in
      let '(total, l) := run l calls in
      ((if ok then bytes else 0) + total, l)
  end.

End RateLimiter.

(** ** Sums over maps *)

Module Sums.
Section Sums.
Context `{Countable K} (f : K -> N -> N).

(** The sum of [f k v] over the bindings. *)
Definition weigh (m : gmap K N) : N := map_fold (fun k v n => f k v + n) 0 m.

Lemma weigh_delete m k v : m !! k = Some v -> weigh m = f k v + weigh (delete k m).
Proof. intros Hk. unfold weigh. rewrite (map_fold_delete_L _ _ k v m); [done| |done]. intros. lia. Qed.

Lemma weigh_insert m k v : weigh (<[k := v]> m) = f k v + weigh (delete k m).
Proof.
  rewrite (weigh_delete _ k v) by apply lookup_insert_eq. by rewrite delete_insert_eq.
Qed.

(** Replacing the value of [k]: what it had goes, what it gets comes. *)
Lemma weigh_update m k v :
  weigh (<[k := v]> m) + from_option (f k) 0 (m !! k) = weigh m + f k v.
Proof.
  rewrite weigh_insert. destruct (m !! k) as [w|] eqn:E; simpl.
  - rewrite (weigh_delete m k w E). lia.
  - rewrite delete_id by done. lia.
Qed.

Lemma weigh_le m bound : map_Forall (fun k v => f k v <= bound) m -> weigh m <= bound * N.of_nat (size m).
Proof.
  intros Hm. induction m as [|k v m Hk IH] using map_ind.
  { unfold weigh. rewrite map_fold_empty. lia. }
  apply map_Forall_insert in Hm as [Hv Hm]; [|done]. rewrite weigh_insert, delete_id by done.
  rewrite map_size_insert_None by done. specialize (IH Hm). lia.
Qed.

End Sums.
End Sums.

(** ** The queue account *)

Module Queues.

Inductive op :=
| Accept (peer : list u8) (circuit_id : u64) (bytes : usize)
| Release (peer : list u8) (circuit_id : u64) (bytes : usize).

Definition step (a : QueueAccount.t) (o : op) : QueueAccount.t :=
  match o with
  | Accept peer circuit_id bytes =>
      match QueueAccount.accept_for_circuit a peer circuit_id bytes with
      | Ok a => a
      | Err _ => a
      end
  | Release peer circuit_id bytes => QueueAccount.release_for_circuit a peer circuit_id bytes
  end.

(** The bytes queued on the circuits of one peer. *)
Definition of_peer (peer : list u8) (m : gmap (list u8 * u64) N) : N :=
  Sums.weigh (fun k v => if decide (k.1 = peer) then v else 0) m.

Record account_ok (a : QueueAccount.t) : Prop := {
  circuits_bounded : map_Forall (fun _ v => v <= PER_CIRCUIT_QUEUE_BYTES) a.(QueueAccount.circuit_queues);
  peers_bounded : map_Forall (fun _ v => v <= PER_PEER_QUEUE_BYTES) a.(QueueAccount.peer_queues);
  peers_few : N.of_nat (size a.(QueueAccount.peer_queues)) <= MAX_QUEUE_PEERS;
  total_exact : a.(QueueAccount.per_peer_bytes) = QueueAccount.sum a.(QueueAccount.peer_queues)
}.

(** Each peer's figure is the sum over its circuits. *)
Definition aggregated (a : QueueAccount.t) : Prop :=
  forall peer, default 0 (a.(QueueAccount.peer_queues) !! peer) = of_peer peer a.(QueueAccount.circuit_queues).

(** A release gives back no more than the circuit has queued. *)
Definition covered (a : QueueAccount.t) (o : op) : Prop :=
  match o with
  | Release peer circuit_id bytes =>
      bytes <= default 0 (a.(QueueAccount.circuit_queues) !! (peer, circuit_id))
  | Accept _ _ _ => True
  end.

Lemma lower_Forall `{Countable K} (m : gmap K N) k bytes bound :
  map_Forall (fun _ v => v <= bound) m -> map_Forall (fun _ v => v <= bound) (QueueAccount.lower m k bytes).
Proof.
  intros Hm. unfold QueueAccount.lower. destruct (m !! k) as [v|] eqn:E; [|done].
  destruct (_ =? 0); [by apply map_Forall_delete|]. apply map_Forall_insert_2; [|done].
  pose proof (Hm k v E) as Hv. simpl in *. lia.
Qed.

Lemma lower_size `{Countable K} (m : gmap K N) k bytes : (size (QueueAccount.lower m k bytes) <= size m)%nat.
Proof.
  unfold QueueAccount.lower. destruct (m !! k) as [v|] eqn:E; [|done]. destruct (_ =? 0).
  - rewrite map_size_delete, E. simpl. lia.
  - rewrite map_size_insert_Some by done. lia.
Qed.

Lemma lower_lookup `{Countable K} (m : gmap K N) k bytes k' :
  default 0 (QueueAccount.lower m k bytes !! k') =
  if decide (k = k') then default 0 (m !! k) - bytes else default 0 (m !! k').
Proof.
  unfold QueueAccount.lower. case_decide as Hk.
  - subst k'. destruct (m !! k) as [v|] eqn:E; simpl; [|by rewrite E].
    destruct (N.eqb_spec (v - bytes) 0) as [Hz|]; [by rewrite lookup_delete_eq, Hz|by rewrite lookup_insert_eq].
  - destruct (m !! k) as [v|]; [|done].
    destruct (_ =? 0); [by rewrite lookup_delete_ne|by rewrite lookup_insert_ne].
Qed.

(** Lowering a binding takes away what it gives back. *)
Lemma lower_weigh `{Countable K} (f : K -> N -> N) (m : gmap K N) k bytes :
  (forall k, f k 0 = 0) ->
  Sums.weigh f (QueueAccount.lower m k bytes) + from_option (f k) 0 (m !! k) =
  Sums.weigh f m + from_option (f k) 0 ((fun v => v - bytes) <$> m !! k).
Proof.
  intros Hf. unfold QueueAccount.lower. destruct (m !! k) as [v|] eqn:E; simpl; [|lia].
  destruct (N.eqb_spec (v - bytes) 0) as [Hz|].
  - rewrite Hz, Hf, (Sums.weigh_delete f m k v E). lia.
  - pose proof (Sums.weigh_update f m k (v - bytes)) as Hw. rewrite E in Hw. exact Hw.
Qed.

Lemma accept_Ok a peer id bytes a' :
  QueueAccount.accept_for_circuit a peer id bytes = Ok a' ->
  let circuit := default 0 (a.(QueueAccount.circuit_queues) !! (peer, id)) + bytes in
  let total := default 0 (a.(QueueAccount.peer_queues) !! peer) + bytes in
  circuit <= PER_CIRCUIT_QUEUE_BYTES /\ total <= PER_PEER_QUEUE_BYTES /\
  (a.(QueueAccount.peer_queues) !! peer = None -> N.of_nat (size a.(QueueAccount.peer_queues)) < MAX_QUEUE_PEERS) /\
  a'.(QueueAccount.circuit_queues) = <[(peer, id) := circuit]> a.(QueueAccount.circuit_queues) /\
  a'.(QueueAccount.peer_queues) = <[peer := total]> a.(QueueAccount.peer_queues) /\
  a'.(QueueAccount.per_peer_bytes) = QueueAccount.sum a'.(QueueAccount.peer_queues).
Proof.
  unfold QueueAccount.accept_for_circuit. intros (c & [-> _]%ok_or_Ok%checked_add_Some & Hr)%bind_Ok.
  destruct (N.ltb_spec PER_CIRCUIT_QUEUE_BYTES (default 0 (a.(QueueAccount.circuit_queues) !! (peer, id)) + bytes)); [done|].
  apply bind_Ok in Hr as (p & [-> _]%ok_or_Ok%checked_add_Some & Hr).
  destruct (N.ltb_spec PER_PEER_QUEUE_BYTES (default 0 (a.(QueueAccount.peer_queues) !! peer) + bytes)); [done|].
  destruct (_ && _) eqn:E; [done|]. injection Hr as <-. simpl. repeat split; try done.
  intros Hn. rewrite Hn, bool_decide_eq_true_2 in E by done. simpl in E. lia.
Qed.

Lemma step_account_ok a o : account_ok a -> account_ok (step a o).
Proof.
  intros [Hc Hp Hf Ht]. destruct o as [peer id bytes|peer id bytes]; simpl.
  - destruct (QueueAccount.accept_for_circuit a peer id bytes) as [a'|] eqn:E; [|by split].
    apply accept_Ok in E as (H1 & H2 & H3 & Ec & Ep & Et). split; [| | |done].
    + rewrite Ec. by apply map_Forall_insert_2.
    + rewrite Ep. by apply map_Forall_insert_2.
    + rewrite Ep. destruct (a.(QueueAccount.peer_queues) !! peer) eqn:E.
      * by rewrite map_size_insert_Some.
      * rewrite map_size_insert_None by done. specialize (H3 eq_refl). lia.
  - split; simpl; [by apply lower_Forall|by apply lower_Forall| |done].
    pose proof (lower_size a.(QueueAccount.peer_queues) peer bytes). lia.
Qed.

Lemma step_aggregated a o : aggregated a -> covered a o -> aggregated (step a o).
Proof.
  intros Ha Hcov peer'. pose proof (Ha peer') as Hp. unfold of_peer in *.
  set (f := fun (k : list u8 * u64) (v : N) => if decide (k.1 = peer') then v else 0) in *.
  destruct o as [peer id bytes|peer id bytes]; simpl.
  - destruct (QueueAccount.accept_for_circuit a peer id bytes) as [a'|] eqn:E; [|done].
    apply accept_Ok in E as (_ & _ & _ & -> & -> & _).
    pose proof (Sums.weigh_update f a.(QueueAccount.circuit_queues) (peer, id)
      (default 0 (a.(QueueAccount.circuit_queues) !! (peer, id)) + bytes)) as Hw.
    assert (Hfv : forall v, f (peer, id) v = if decide (peer = peer') then v else 0) by done.
    rewrite Hfv in Hw. destruct (decide (peer = peer')) as [->|Hne].
    + rewrite lookup_insert_eq. simpl. destruct (a.(QueueAccount.circuit_queues) !! (peer', id)); simpl in *;
        rewrite ?Hfv in Hw; lia.
    + rewrite lookup_insert_ne by done. destruct (a.(QueueAccount.circuit_queues) !! (peer, id)); simpl in *;
        rewrite ?Hfv in Hw; lia.
  - simpl in Hcov. rewrite lower_lookup.
    assert (Hf0 : forall k, f k 0 = 0) by (intros k; unfold f; destruct (decide (k.1 = peer')); reflexivity).
    pose proof (lower_weigh f a.(QueueAccount.circuit_queues) (peer, id) bytes Hf0) as Hw.
    assert (Hfv : forall v, f (peer, id) v = if decide (peer = peer') then v else 0) by done.
    destruct (a.(QueueAccount.circuit_queues) !! (peer, id)) as [v|]; simpl in *; rewrite ?Hfv in Hw;
      destruct (decide (peer = peer')) as [->|Hne]; lia.
Qed.

End Queues.

(** Every call of a run is covered by what is queued when it comes. *)
Fixpoint covered_run (a : QueueAccount.t) (os : list Queues.op) : Prop :=
  match os with
  | [] => True
  | o :: os => Queues.covered a o /\ covered_run (Queues.step a o) os
  end.

Lemma run_aggregated os a :
  Queues.aggregated a -> covered_run a os -> Queues.aggregated (fold_left Queues.step os a).
Proof.
  revert a. induction os as [|o os IH]; intros a Ha Hos; simpl in *; [done|].
  destruct Hos as [Ho Hos]. apply IH; [by apply Queues.step_aggregated|done].
Qed.

(** ** Rates: lemmas *)

(** A token bucket gives out no more than it held and was refilled with. *)
Lemma rate_run calls l t :
  Forall (fun c => c.1 <= t) calls -> StronglySorted N.le (l.(RateLimiter.last_refill_ms) :: map fst calls) ->
  let '(total, l') := RateLimiter.run l calls in
  l'.(RateLimiter.rate_bytes_per_sec) = l.(RateLimiter.rate_bytes_per_sec) /\
  1000 * (total + l'.(RateLimiter.bucket)) <=
    1000 * l.(RateLimiter.bucket) +
    (N.max l.(RateLimiter.last_refill_ms) t - l.(RateLimiter.last_refill_ms)) * l.(RateLimiter.rate_bytes_per_sec).
Proof.
  revert l. induction calls as [|[now bytes] calls IH]; intros l Ht Hs; simpl.
  { split; [done|]. apply N.le_add_r. }
  inversion Ht as [|? ? Hnow Ht']; subst. simpl in Hnow.
  apply StronglySorted_inv in Hs as [Hs Hle]. inversion Hle as [|? ? Hl _]; subst.
  unfold RateLimiter.allow. set (rate := l.(RateLimiter.rate_bytes_per_sec)).
  set (el := saturating_sub now l.(RateLimiter.last_refill_ms)).
  set (b := N.min (saturating_add l.(RateLimiter.bucket) (saturating_mul el rate / 1000)) rate).
  assert (Hb : 1000 * b <= 1000 * l.(RateLimiter.bucket) + el * rate).
  { unfold b, saturating_add, saturating_mul.
    assert (N.min (el * rate) u64_max / 1000 <= el * rate / 1000) by (apply N.Div0.div_le_mono; lia).
    pose proof (N.Div0.mul_div_le (el * rate) 1000). lia. }
  assert (Hel : el = now - l.(RateLimiter.last_refill_ms)) by done. clearbody b el.
  assert (Hmul : (now - l.(RateLimiter.last_refill_ms)) * rate + (t - now) * rate
                 = (t - l.(RateLimiter.last_refill_ms)) * rate).
  { rewrite <- N.mul_add_distr_r. f_equal. lia. }
  destruct (N.leb_spec bytes b).
  - specialize (IH (RateLimiter.mk rate (b - bytes) now) Ht' Hs).
    destruct (RateLimiter.run _ calls) as [total l']. simpl in IH. destruct IH as [-> IH]. split; [done|].
    rewrite N.max_r in IH |- * by lia. subst el. lia.
  - specialize (IH (RateLimiter.mk rate b now) Ht' Hs).
    destruct (RateLimiter.run _ calls) as [total l']. simpl in IH. destruct IH as [-> IH]. split; [done|].
    rewrite N.max_r in IH |- * by lia. subst el. lia.
Qed.

(** ** Theorems *)

(** Whatever is queued and released, no circuit holds more than 256 KiB, no
    peer more than 2 MiB, no more than 1024 peers are held, and the total is the
    sum over the peers. *)
Theorem queue_account_invariant os :
  let a := fold_left Queues.step os QueueAccount.new in
  Queues.account_ok a /\ a.(QueueAccount.per_peer_bytes) <= PER_PEER_QUEUE_BYTES * MAX_QUEUE_PEERS.
Proof.
  assert (Hok : Queues.account_ok (fold_left Queues.step os QueueAccount.new)).
  { apply fold_left_inv; [apply Queues.step_account_ok|]. split; simpl; [apply map_Forall_empty|apply map_Forall_empty|vm_compute; congruence|done]. }
  split; [done|]. destruct Hok as [_ Hp Hf ->].
  pose proof (Sums.weigh_le (fun _ v => v) _ _ Hp) as Hw. unfold Sums.weigh in Hw. unfold QueueAccount.sum.
  etransitivity; [exact Hw|]. by apply N.mul_le_mono_l.
Qed.

(** As long as no more is released on a circuit than it has queued, the
    figure kept for a peer is the sum over its circuits. *)
Theorem queue_peer_sum os peer :
  covered_run QueueAccount.new os ->
  let a := fold_left Queues.step os QueueAccount.new in
  default 0 (a.(QueueAccount.peer_queues) !! peer) = Queues.of_peer peer a.(QueueAccount.circuit_queues).
Proof. intros Hos a. apply run_aggregated; [|done]. intros p. done. Qed.

Lemma queue_peer_sum_witness :
  let os := [Queues.Accept [1] 0 100; Queues.Accept [1] 7 50; Queues.Accept [2] 7 9; Queues.Release [1] 0 30] in
  let a := fold_left Queues.step os QueueAccount.new in
  120 = Queues.of_peer [1] a.(QueueAccount.circuit_queues).
Proof.
  intros os a. transitivity (default 0 (a.(QueueAccount.peer_queues) !! [1])); [by vm_compute|].
  apply (queue_peer_sum os [1]). repeat split. vm_compute. congruence.
Defined.

(** Thirty-three peers, each with eight full circuits. *)
Definition flood : list Queues.op :=
  p ← seq 0 33; c ← seq 0 8; [Queues.Accept [N.of_nat p] (N.of_nat c) PER_CIRCUIT_QUEUE_BYTES].

(** The bound on the queue of all peers together is not enforced: an account
    can hold more than the 64 MiB it is meant to hold at most. *)
Theorem global_queue_unbounded :
  GLOBAL_QUEUE_BYTES < (fold_left Queues.step flood QueueAccount.new).(QueueAccount.per_peer_bytes).
Proof. vm_compute. reflexivity. Qed.

(** A rate limiter lets through, over any calls up to a time [t], at most
    what its bucket held and what the rate allows for the time since; after a
    first call the bucket holds at most one second's worth. *)
Theorem rate_bounded l calls t :
  Forall (fun c => c.1 <= t) calls -> StronglySorted N.le (l.(RateLimiter.last_refill_ms) :: map fst calls) ->
  l.(RateLimiter.last_refill_ms) <= t ->
  1000 * (RateLimiter.run l calls).1 <=
    1000 * l.(RateLimiter.bucket) + (t - l.(RateLimiter.last_refill_ms)) * l.(RateLimiter.rate_bytes_per_sec) /\
  forall now bytes, (RateLimiter.allow l now bytes).2.(RateLimiter.bucket) <= l.(RateLimiter.rate_bytes_per_sec).
Proof.
  intros Ht Hs Hl. split.
  - pose proof (rate_run calls l t Ht Hs) as Hr. destruct (RateLimiter.run l calls) as [total l'].
    destruct Hr as [_ Hr]. rewrite N.max_r in Hr by done. simpl. lia.
  - intros now bytes. unfold RateLimiter.allow. destruct (_ <=? _); simpl; lia.
Qed.

Lemma rate_bounded_witness :
  1000 * (RateLimiter.run (RateLimiter.new 1000 500) [(10, 400); (20, 400); (700, 400)]).1 <= 1000 * 500 + 700 * 1000.
Proof.
  apply (rate_bounded (RateLimiter.new 1000 500) [(10, 400); (20, 400); (700, 400)] 700);
    [repeat constructor; simpl; lia|repeat constructor; simpl; lia|simpl; lia].
Defined.

(** The calls come so often that each interval is worth less than a byte. *)
Fixpoint too_often (rate last : u64) (calls : list (u64 * u64)) : Prop :=
  match calls with
  | [] => True
  | (now, bytes) :: calls => (now - last) * rate < 1000 /\ 0 < bytes /\ too_often rate now calls
  end.

(** Polled often enough an empty limiter never recovers: each refill is
    rounded down to nothing and still moves the clock on, so that calls a
    millisecond apart at any rate below 1000 bytes a second are all refused. *)
Theorem rate_limiter_starves l calls :
  l.(RateLimiter.bucket) = 0 ->
  too_often l.(RateLimiter.rate_bytes_per_sec) l.(RateLimiter.last_refill_ms) calls ->
  (RateLimiter.run l calls).1 = 0 /\ (RateLimiter.run l calls).2.(RateLimiter.bucket) = 0.
Proof.
  revert l. induction calls as [|[now bytes] calls IH]; intros l Hb Ht; simpl; [done|].
  destruct Ht as (Hs & Hpos & Ht). unfold RateLimiter.allow. rewrite Hb.
  assert (saturating_mul (saturating_sub now l.(RateLimiter.last_refill_ms)) l.(RateLimiter.rate_bytes_per_sec) / 1000 = 0)
    as ->. { apply N.div_small. unfold saturating_mul, saturating_sub. lia. }
  change (saturating_add 0 0) with 0. rewrite N.min_0_l. destruct (N.leb_spec bytes 0); [lia|].
  specialize (IH (RateLimiter.mk l.(RateLimiter.rate_bytes_per_sec) 0 now) eq_refl Ht).
  destruct (RateLimiter.run _ calls) as [total l']. done.
Qed.

Lemma rate_limiter_starves_witness :
  (RateLimiter.run (RateLimiter.mk 999 0 0) (map (fun i => (N.of_nat i, 1)) (seq 1 100))).1 = 0.
Proof.
  apply (rate_limiter_starves (RateLimiter.mk 999 0 0) (map (fun i => (N.of_nat i, 1)) (seq 1 100))); [done|].
  vm_compute. repeat split.
Defined.
