(* ===== verification/RelayMultipath.v ===== *)
(** * Multipath circuits and their extension (crates/umc-relay/src/multi.rs) *)

From Stdlib Require Import Sorting.Sorted.
From S2P Require Import Prelude Records BTree.

Definition MAX_RELAY_NODES : usize := 4.
Definition PROTOCOL_MAX_RELAY_NODES : usize := 16.

Inductive MultipathError :=
| NoUsablePath
| UnknownPath
| InvalidWeight
| ReorderBufferFull
| MultipathConflict.

Inductive MultipathReceive :=
| Buffered
| Duplicate
| Delivered (released : list (u64 * list u8)).

Module MultipathPath.

Record t := mk {
  weight : N;
  deficit : u64;
  sent_bytes : u64;
  failed : bool
}.

End MultipathPath.

Module MultipathScheduler.

Record t := mk {
  reorder_limit : usize;
  paths : BTree.t MultipathPath.t;
  buffered : BTree.t (list u8);
  delivered : BTree.t (list u8);
  next_sequence : u64
}.

Definition new (reorder_limit : usize) : t := mk (N.max reorder_limit 1) [] [] [] 0.

Definition add_path (s : t) (path_id : u64) (weight : N) : Result MultipathError t :=
  if weight =? 0 then Err InvalidWeight
  else Ok (s <| paths := BTree.insert s.(paths) path_id (MultipathPath.mk weight 0 0 false) |>).

Definition set_failed (s : t) (path_id : u64) (failed : bool) : Result MultipathError t :=
  match BTree.get s.(paths) path_id with
  | None => Err UnknownPath
  | Some _ =>
      Ok (s <| paths := BTree.alter (fun p => p <| MultipathPath.failed := failed |>) s.(paths) path_id |>)
  end.

Definition fail_path (s : t) (path_id : u64) : Result MultipathError t := set_failed s path_id true.

Definition activate_path (s : t) (path_id : u64) : Result MultipathError t := set_failed s path_id false.

Definition usable (b : u64 * MultipathPath.t) : bool := negb b.2.(MultipathPath.failed).

Definition sum_by {A} (f : A -> N) (l : list A) : N := fold_right (fun x n => f x + n) 0 l.

Definition total_weight (ps : BTree.t MultipathPath.t) : u64 :=
  sum_by (fun b => if usable b then b.2.(MultipathPath.weight) else 0) ps.

Definition refill (b : u64 * MultipathPath.t) : u64 * MultipathPath.t :=
  if usable b
  then (b.1, b.2 <| MultipathPath.deficit := saturating_add b.2.(MultipathPath.deficit) b.2.(MultipathPath.weight) |>)
  else b.

(** The key [(deficit, Reverse(id))]: more credit, then the smaller identifier. *)
Definition better (a b : u64 * MultipathPath.t) : bool :=
  (b.2.(MultipathPath.deficit) <? a.2.(MultipathPath.deficit)) ||
  ((b.2.(MultipathPath.deficit) =? a.2.(MultipathPath.deficit)) && (a.1 <=? b.1)).

(** [iter().filter(usable).max_by_key(..)]: the last of the greatest. *)
Fixpoint best (ps : BTree.t MultipathPath.t) : option (u64 * MultipathPath.t) :=
  match ps with
  | [] => None
  | b :: ps =>
      match best ps with
      | Some b' => if usable b && negb (better b' b) then Some b else Some b'
      | None => if usable b then Some b else None
      end
  end.

Definition select_path (s : t) : Result MultipathError (u64 * t) :=
  let total := total_weight s.(paths) in
  if total =? 0 then Err NoUsablePath
  else
    let ps := map refill s.(paths) in
    match best ps with
    | None => Err NoUsablePath
    | Some (selected, _) =>
        Ok (selected,
            s <| paths := BTree.alter (fun p => p <| MultipathPath.deficit :=
                   saturating_sub p.(MultipathPath.deficit) total |>) ps selected |>)
    end.

Definition record_sent (s : t) (path_id bytes : u64) : Result MultipathError t :=
  match BTree.get s.(paths) path_id with
  | None => Err UnknownPath
  | Some p =>
      if p.(MultipathPath.failed) then Err NoUsablePath
      else Ok (s <| paths := BTree.alter (fun p => p <| MultipathPath.sent_bytes :=
                     saturating_add p.(MultipathPath.sent_bytes) bytes |>) s.(paths) path_id |>)
  end.

Definition usable_path_count (s : t) : usize := len (List.filter usable s.(paths)).

Definition path_count (s : t) : usize := len s.(paths).

(** [while let Some(bytes) = self.buffered.remove(&self.next_sequence)]: every
    turn takes one entry out of the buffer, whose size bounds the turns. *)
Fixpoint release (turns : nat) (s : t) (released : list (u64 * list u8)) : list (u64 * list u8) * t :=
  match turns with
  | O => (released, s)
  | S turns =>
      match BTree.get s.(buffered) s.(next_sequence) with
      | None => (released, s)
      | Some bytes =>
          let sequence := s.(next_sequence) in
          release turns
            (mk s.(reorder_limit) s.(paths) (BTree.remove s.(buffered) sequence)
                (BTree.insert s.(delivered) sequence bytes) (saturating_add sequence 1))
            (released ++ [(sequence, bytes)])
      end
  end.

(** [while self.delivered.len() > self.reorder_limit]: the first entries go. *)
Definition forget (s : t) : t :=
  s <| delivered := drop (length s.(delivered) - N.to_nat s.(reorder_limit)) s.(delivered) |>.

Definition accept (s : t) (sequence : u64) (data : list u8) : Result MultipathError MultipathReceive * t :=
  if sequence <? s.(next_sequence) then
    match BTree.get s.(delivered) sequence with
    | Some previous => if decide (previous = data) then (Ok Duplicate, s) else (Err MultipathConflict, s)
    | None => (Err MultipathConflict, s)
    end
  else
    match BTree.get s.(buffered) sequence with
    | Some previous => if decide (previous = data) then (Ok Duplicate, s) else (Err MultipathConflict, s)
    | None =>
        if (s.(next_sequence) <? sequence) && (s.(reorder_limit) <=? len s.(buffered))
        then (Err ReorderBufferFull, s)
        else
          let s := s <| buffered := BTree.insert s.(buffered) sequence data |> in
          if s.(next_sequence) <? sequence then (Ok Buffered, s)
          else
            let '(released, s) := release (length s.(buffered)) s [] in
            (Ok (Delivered released), forget s)
    end.

End MultipathScheduler.

Inductive ExtensionError := RelayBudgetExhausted | ProtocolLimit | HopDenied.

Module ExtensionState.

Record t := mk { relays_used : usize; max_relays : usize }.

Definition new : t := mk 0 MAX_RELAY_NODES.

Definition extend (e : t) (downstream_granted : bool) : Result ExtensionError t :=
  if PROTOCOL_MAX_RELAY_NODES <=? e.(relays_used) then Err ProtocolLimit
  else if e.(max_relays) <=? e.(relays_used) then Err RelayBudgetExhausted
  else Ok (if downstream_granted then e <| relays_used := e.(relays_used) + 1 |> else e).

Definition remaining (e : t) : usize := saturating_sub e.(max_relays) e.(relays_used).

End ExtensionState.

(** ** The receiving side *)

Module Multipath.
Import MultipathScheduler.

(** The tables are ordered; what is buffered is still to come, what is kept for
    comparison is past. *)
Record tables_ok (s : t) : Prop := {
  buffered_ok : BTree.ok s.(buffered);
  delivered_ok : BTree.ok s.(delivered);
  buffered_ahead : Forall (fun k => s.(next_sequence) <= k < u64_max) (BTree.keys s.(buffered));
  delivered_past : Forall (fun k => k < s.(next_sequence)) (BTree.keys s.(delivered))
}.

Record receiver_ok (s : t) : Prop := {
  receiver_tables : tables_ok s;
  receiver_waiting : BTree.get s.(buffered) s.(next_sequence) = None;
  receiver_buffer : len s.(buffered) <= s.(reorder_limit);
  receiver_memory : len s.(delivered) <= s.(reorder_limit);
  receiver_limit : 1 <= s.(reorder_limit)
}.

(** What the release loop does, turn by turn. *)
Record released_from (turns : nat) (s : t) (out : list (u64 * list u8)) (s' : t) : Prop := {
  released_numbers : map fst out = count_from s.(next_sequence) (length out);
  released_next : s'.(next_sequence) = s.(next_sequence) + len out;
  released_known b : b ∈ out -> b ∈ s.(buffered);
  released_rest b : b ∈ s'.(buffered) -> b ∈ s.(buffered);
  released_kept k : k ∈ BTree.keys s.(buffered) -> k < s'.(next_sequence) \/ k ∈ BTree.keys s'.(buffered);
  released_tables : tables_ok s';
  released_length : (length s'.(buffered) + length out = length s.(buffered))%nat;
  released_limit : s'.(reorder_limit) = s.(reorder_limit);
  released_done : (length s.(buffered) <= turns)%nat -> BTree.get s'.(buffered) s'.(next_sequence) = None;
  released_first : (0 < turns)%nat -> is_Some (BTree.get s.(buffered) s.(next_sequence)) -> out <> []
}.

Lemma release_turn s bytes :
  tables_ok s -> BTree.get s.(buffered) s.(next_sequence) = Some bytes ->
  let sequence := s.(next_sequence) in
  let s1 := mk s.(reorder_limit) s.(paths) (BTree.remove s.(buffered) sequence)
              (BTree.insert s.(delivered) sequence bytes) (saturating_add sequence 1) in
  tables_ok s1 /\ s1.(next_sequence) = sequence + 1 /\ S (length s1.(buffered)) = length s.(buffered) /\
  (forall b, b ∈ s1.(buffered) -> b ∈ s.(buffered)) /\
  (forall k, k ∈ BTree.keys s.(buffered) -> k = sequence \/ k ∈ BTree.keys s1.(buffered)).
Proof.
  intros [Hb Hd Ha Hp] Hg sequence s1.
  assert (Hk : sequence ∈ BTree.keys s.(buffered)) by (apply BTree.get_keys; by eexists).
  assert (Hlt : sequence < u64_max) by (rewrite list.Forall_forall in Ha; apply Ha in Hk; lia).
  assert (Hn : saturating_add sequence 1 = sequence + 1) by (unfold saturating_add; lia).
  split; [|split; [exact Hn|split; [by eapply BTree.length_remove|split]]].
  - split; simpl; rewrite ?Hn.
    + by apply BTree.remove_ok.
    + by apply BTree.insert_ok.
    + apply list.Forall_forall. intros k Hk'. rewrite <- BTree.get_keys, BTree.get_remove in Hk'.
      destruct (N.eqb_spec k sequence) as [|Hne]; [by destruct Hk'|]. rewrite BTree.get_keys in Hk'.
      rewrite list.Forall_forall in Ha. specialize (Ha k Hk'). fold sequence in Ha. lia.
    + apply list.Forall_forall. intros k [->|Hk']%BTree.keys_insert; [lia|].
      rewrite list.Forall_forall in Hp. specialize (Hp k Hk'). fold sequence in Hp. lia.
  - intros b Hin. by apply list_elem_of_filter in Hin as [_ ?].
  - intros k. rewrite <- !BTree.get_keys. simpl. rewrite BTree.get_remove. destruct (N.eqb_spec k sequence); auto.
Qed.

Lemma released_none turns s :
  tables_ok s -> ((length s.(buffered) <= turns)%nat -> BTree.get s.(buffered) s.(next_sequence) = None) ->
  turns = O \/ BTree.get s.(buffered) s.(next_sequence) = None ->
  released_from turns s [] s.
Proof.
  intros Hs Hd H0. split; simpl; [done|unfold len; simpl; lia|by intros b ?%elem_of_nil|done|by right|done|lia|done|done|].
  intros Hpos [x Hx]. destruct H0; [lia|congruence].
Qed.

Lemma release_spec turns s acc :
  tables_ok s ->
  exists out, (release turns s acc).1 = acc ++ out /\ released_from turns s out (release turns s acc).2.
Proof.
  revert s acc. induction turns as [|turns IH]; intros s acc Hs; simpl.
  { exists []. rewrite app_nil_r. split; [done|]. apply released_none; [done| |by left].
    intros Hz. destruct s.(buffered); [done|simpl in Hz; lia]. }
  destruct (BTree.get s.(buffered) s.(next_sequence)) as [bytes|] eqn:E.
  2: { exists []. rewrite app_nil_r. split; [done|]. by apply released_none; [| |right]. }
  destruct (release_turn s bytes Hs E) as (Hs1 & Hn1 & Hl1 & Hsub & Hkept). cbv zeta in *.
  set (s1 := mk _ _ _ _ _) in *.
  destruct (IH s1 (acc ++ [(s.(next_sequence), bytes)]) Hs1) as (out & Eo & [Hnum Hnext Hkn Hre Hke Ht Hlen Hlim Hdone _]).
  exists ((s.(next_sequence), bytes) :: out). rewrite Eo, <- app_assoc. split; [done|].
  assert (Hlim1 : reorder_limit s1 = reorder_limit s) by done. clearbody s1.
  split; simpl.
  - by rewrite Hnum, Hn1.
  - rewrite Hnext, Hn1, len_cons. lia.
  - intros b [->|Hb]%elem_of_cons; [by apply BTree.get_Some_in|]. auto.
  - auto.
  - intros k [->|Hk]%Hkept; [left; lia|auto].
  - done.
  - lia.
  - congruence.
  - intros Hle. apply Hdone. lia.
  - done.
Qed.

Lemma forget_tables s : tables_ok s -> tables_ok (forget s).
Proof.
  intros [Hb Hd Ha Hp]. unfold forget. set (n := (_ - _)%nat). clearbody n.
  assert (Hk : BTree.keys (drop n s.(delivered)) = drop n (BTree.keys s.(delivered))) by (unfold BTree.keys; apply fmap_drop).
  split; simpl; [done| |done|].
  - unfold BTree.ok in *. rewrite Hk. clear -Hd. revert n.
    induction Hd as [|x l Hl IH Hx]; intros [|n]; simpl; [constructor|constructor|by constructor|apply IH].
  - rewrite Hk. by apply Forall_drop.
Qed.

(** One frame: what it delivers and what it leaves behind. *)
Record received (s : t) (sequence : u64) (data : list u8) (out : list (u64 * list u8)) (s' : t) : Prop := {
  received_numbers : map fst out = count_from s.(next_sequence) (length out);
  received_next : s'.(next_sequence) = s.(next_sequence) + len out;
  received_known b : b ∈ out -> b = (sequence, data) \/ b ∈ s.(buffered);
  received_rest b : b ∈ s'.(buffered) -> b = (sequence, data) \/ b ∈ s.(buffered);
  received_ok : receiver_ok s';
  received_limit : s'.(reorder_limit) = s.(reorder_limit);
  received_kept k : k ∈ BTree.keys s.(buffered) -> k < s'.(next_sequence) \/ k ∈ BTree.keys s'.(buffered);
  received_taken : sequence <= s.(next_sequence) \/ len s.(buffered) < s.(reorder_limit) ->
                   sequence < s'.(next_sequence) \/ sequence ∈ BTree.keys s'.(buffered)
}.

(** The frames a call hands on. *)
Definition handed (r : Result MultipathError MultipathReceive) : list (u64 * list u8) :=
  match r with
  | Ok (Delivered out) => out
  | _ => []
  end.

Lemma received_nothing s sequence data :
  receiver_ok s ->
  (sequence <= s.(next_sequence) \/ len s.(buffered) < s.(reorder_limit) ->
   sequence < s.(next_sequence) \/ sequence ∈ BTree.keys s.(buffered)) ->
  received s sequence data [] s.
Proof.
  intros Hs Hne. split; [done|unfold len; simpl; lia|by intros b ?%elem_of_nil|by right|done|done|by right|done].
Qed.

(** A frame that is to be buffered, before it is decided whether anything is
    released. *)
Lemma buffer_tables s sequence data :
  tables_ok s -> s.(next_sequence) <= sequence < u64_max ->
  tables_ok (s <| buffered := BTree.insert s.(buffered) sequence data |>).
Proof.
  intros [Hb Hd Ha Hp] Hseq. split; simpl; [by apply BTree.insert_ok|done| |done].
  apply list.Forall_forall. intros k [->|Hk]%BTree.keys_insert; [done|].
  rewrite list.Forall_forall in Ha. auto.
Qed.

Lemma insert_elem (m : BTree.t (list u8)) k v b : BTree.ok m -> b ∈ BTree.insert m k v -> b = (k, v) \/ b ∈ m.
Proof.
  intros Hm Hb. destruct b as [k' v'].
  pose proof (BTree.in_get _ _ _ (BTree.insert_ok m k v Hm) Hb) as Hg. rewrite BTree.get_insert in Hg.
  destruct (N.eqb_spec k' k) as [->|]; [injection Hg as ->; by left|right; by apply BTree.get_Some_in].
Qed.

Lemma accept_received s sequence data :
  receiver_ok s -> sequence < u64_max ->
  received s sequence data (handed (accept s sequence data).1) (accept s sequence data).2.
Proof.
  intros Hok Hmax. pose proof Hok as [Ht Hw Hb Hm Hl]. unfold accept.
  destruct (N.ltb_spec sequence s.(next_sequence)) as [Hold|Hnew].
  { pose proof (received_nothing s sequence data Hok ltac:(by left)) as Hr.
    destruct (BTree.get s.(delivered) sequence) as [d|]; [|exact Hr]. case_decide; exact Hr. }
  destruct (BTree.get s.(buffered) sequence) as [d|] eqn:E.
  { assert (Hk : sequence ∈ BTree.keys s.(buffered)) by (apply BTree.get_keys; by eexists).
    pose proof (received_nothing s sequence data Hok ltac:(by right)) as Hr. case_decide; exact Hr. }
  destruct ((_ <? _) && _) eqn:Efull;
    [exact (received_nothing s sequence data Hok ltac:(lia))|].
  assert (Ht1 : tables_ok (s <| buffered := BTree.insert s.(buffered) sequence data |>))
    by (apply buffer_tables; [done|lia]).
  assert (Hlen : length (BTree.insert s.(buffered) sequence data) = S (length s.(buffered)))
    by by apply BTree.length_insert.
  assert (Hin : forall b, b ∈ BTree.insert s.(buffered) sequence data -> b = (sequence, data) \/ b ∈ s.(buffered))
    by (intros b; apply insert_elem, Ht).
  cbv zeta. change (next_sequence (s <| buffered := _ |>)) with s.(next_sequence).
  destruct (N.ltb_spec s.(next_sequence) sequence) as [Hahead|Hhere].
  - apply andb_false_iff in Efull as [Efull|Efull]; [lia|]. cbn [fst snd handed].
    split; simpl; [done|unfold len; simpl; lia|by intros b ?%elem_of_nil|done| |done| |];
      [|intros k Hk; right; apply BTree.keys_insert; by right|intros _; right; apply BTree.keys_insert; by left].
    split; simpl; [done| |unfold len in *; lia|done|done].
    rewrite BTree.get_insert. by destruct (N.eqb_spec s.(next_sequence) sequence); [lia|].
  - assert (sequence = s.(next_sequence)) as -> by lia.
    set (s1 := s <| buffered := _ |>) in *. cbn [buffered set const] in *.
    destruct (release_spec (length s1.(buffered)) s1 [] Ht1) as (out & Eo & Hr).
    destruct (release (length s1.(buffered)) s1 []) as [out' s2]. simpl in Eo. subst out'. cbn [fst snd handed].
    destruct Hr as [Hnum Hnext Hkn Hre Hke Htab Hlen2 Hlim Hdone Hfirst]. cbn [snd] in *.
    assert (Hne : out <> []).
    { apply Hfirst; [unfold s1; simpl; lia|]. unfold s1. simpl. rewrite BTree.get_insert, N.eqb_refl. by eexists. }
    assert (Hlen3 : (length s2.(buffered) <= length s.(buffered))%nat)
      by (destruct out; [done|simpl in Hlen2; lia]).
    split; simpl; [done|done|by intros b Hb'%Hkn; auto|by intros b Hb'%Hre; auto| |done| |];
      [|intros k Hk; apply Hke, BTree.keys_insert; by right|intros _; apply Hke, BTree.keys_insert; by left].
    split; simpl; [by apply forget_tables|by apply Hdone| | |by rewrite Hlim].
    + rewrite Hlim. simpl. unfold len in *. lia.
    + unfold len. rewrite length_drop. lia.
Qed.

(** ** Runs of the receiver *)

Fixpoint run (s : t) (calls : list (u64 * list u8)) : list (u64 * list u8) * t :=
  match calls with
  | [] => ([], s)
  | (sequence, data) :: calls =>
      let '(r, s) := accept s sequence data in
      let '(out, s) := run s calls in
      (handed r ++ out, s)
  end.

Record delivers (s : t) (calls out : list (u64 * list u8)) (s' : t) : Prop := {
  delivers_numbers : map fst out = count_from s.(next_sequence) (length out);
  delivers_next : s'.(next_sequence) = s.(next_sequence) + len out;
  delivers_known b : b ∈ out -> b ∈ calls \/ b ∈ s.(buffered);
  delivers_ok : receiver_ok s';
  delivers_limit : s'.(reorder_limit) = s.(reorder_limit)
}.

Definition in_range (c : u64 * list u8) : Prop := c.1 < u64_max.

Lemma run_delivers calls s :
  receiver_ok s -> Forall in_range calls -> delivers s calls (run s calls).1 (run s calls).2.
Proof.
  intros Hok Hc. revert s Hok. induction Hc as [|[sequence data] calls Hmax _ IH]; intros s Hok; simpl.
  { split; simpl; [done|rewrite len_nil; lia|by intros b ?%elem_of_nil|done|done]. }
  pose proof (accept_received s sequence data Hok Hmax) as [Hn Hx Hk Hr Ho Hl _ _].
  destruct (accept s sequence data) as [r s1]. cbn [fst snd] in *.
  specialize (IH s1 Ho). destruct (run s1 calls) as [out s2]. cbn [fst snd] in *.
  destruct IH as [Hn2 Hx2 Hk2 Ho2 Hl2]. split.
  - rewrite map_app, length_app, count_from_app, Hn, Hn2, Hx. unfold len. done.
  - rewrite Hx2, Hx, len_app. lia.
  - intros b [Hb|Hb]%elem_of_app.
    + destruct (Hk b Hb) as [->|?]; [left; apply elem_of_cons; by left|by right].
    + destruct (Hk2 b Hb) as [?|[->|?]%Hr]; [left; apply elem_of_cons; by right|left; apply elem_of_cons; by left|by right].
  - done.
  - congruence.
Qed.

(** No frame comes before one that precedes it by more than [window]. *)
Definition in_window (window : usize) (before calls : list (u64 * list u8)) : Prop :=
  forall i c, calls !! i = Some c -> forall k, k + window < c.1 -> k ∈ map fst (before ++ take i calls).

Lemma in_window_step window before c calls :
  in_window window before (c :: calls) -> in_window window (before ++ [c]) calls.
Proof.
  intros H i c' Hi k Hk. specialize (H (S i) c' Hi k Hk). rewrite <- app_assoc. exact H.
Qed.

(** Everything that has come is past or buffered, and nothing has been refused:
    the frames buffered are within the window of the one awaited. *)
Record caught_up (window : usize) (before : list (u64 * list u8)) (s : t) : Prop := {
  caught_ok : receiver_ok s;
  caught_limit : s.(reorder_limit) = window;
  caught_all k : k ∈ map fst before -> k < s.(next_sequence) \/ k ∈ BTree.keys s.(buffered);
  caught_near : Forall (fun k => k <= s.(next_sequence) + window) (BTree.keys s.(buffered))
}.

Lemma caught_awaited window before s : caught_up window before s -> s.(next_sequence) ∉ map fst before.
Proof.
  intros [[_ Hw _ _ _] _ Ha _] [?|Hin]%Ha; [lia|]. by apply BTree.get_None_keys in Hw.
Qed.

Lemma caught_room window before s sequence :
  caught_up window before s -> s.(next_sequence) < sequence <= s.(next_sequence) + window ->
  sequence ∉ BTree.keys s.(buffered) -> len s.(buffered) < s.(reorder_limit).
Proof.
  intros [[[Hb _ Ha _] Hw _ _ _] Hl _ Hn] Hs Hout. rewrite Hl.
  assert (Hnd : NoDup (sequence :: BTree.keys s.(buffered))).
  { constructor; [done|]. unfold BTree.ok in Hb. clear -Hb. induction Hb as [|x l _ IH Hx]; constructor; [|done].
    intros Hin. rewrite list.Forall_forall in Hx. specialize (Hx x Hin). lia. }
  assert (Hsub : sequence :: BTree.keys s.(buffered) ⊆ count_from (s.(next_sequence) + 1) (N.to_nat window)).
  { apply BTree.get_None_keys in Hw. rewrite list.Forall_forall in Ha, Hn.
    intros k [->|Hk]%elem_of_cons; apply elem_of_count_from; [lia|]. specialize (Ha k Hk). specialize (Hn k Hk).
    assert (k <> s.(next_sequence)) by congruence. lia. }
  pose proof (submseteq_length _ _ (NoDup_submseteq _ _ Hnd Hsub)) as Hlen. rewrite length_count_from in Hlen.
  simpl in Hlen. unfold BTree.keys in Hlen. rewrite length_map in Hlen. unfold len. lia.
Qed.

Lemma caught_step window before s sequence data calls :
  caught_up window before s -> in_range (sequence, data) -> in_window window before ((sequence, data) :: calls) ->
  caught_up window (before ++ [(sequence, data)]) (accept s sequence data).2.
Proof.
  intros Hc Hmax Hw. pose proof (caught_awaited _ _ _ Hc) as Hwait. pose proof Hc as [Hok Hl Ha Hn].
  pose proof (accept_received s sequence data Hok Hmax) as [_ Hx _ Hr Ho Hl' Hk Ht].
  assert (Hnear : sequence <= s.(next_sequence) + window).
  { destruct (N.le_gt_cases sequence (s.(next_sequence) + window)) as [|Hfar]; [done|].
    specialize (Hw O _ eq_refl _ Hfar). simpl in Hw. rewrite app_nil_r in Hw. done. }
  assert (Hin : sequence < (accept s sequence data).2.(next_sequence) \/
                sequence ∈ BTree.keys (accept s sequence data).2.(buffered)).
  { destruct (decide (sequence ∈ BTree.keys s.(buffered))) as [Hin|Hout]; [auto|]. apply Ht.
    destruct (N.le_gt_cases sequence s.(next_sequence)) as [|Hgt]; [by left|]. right. by eapply caught_room. }
  split; [done|congruence| |].
  - intros k. rewrite map_app, elem_of_app. intros [[Hlt|Hb]%Ha|Hs]; [left; lia|auto|].
    simpl in Hs. apply list_elem_of_singleton in Hs as ->. done.
  - apply list.Forall_forall. intros k ([k' d] & <- & [[= -> ->]|Hb]%list_elem_of_In%Hr)%list_elem_of_In%in_map_iff; simpl; [lia|].
    rewrite list.Forall_forall in Hn. enough (k' <= s.(next_sequence) + window) by lia.
    apply Hn, list_elem_of_In, in_map_iff. exists (k', d). split; [done|]. by apply list_elem_of_In.
Qed.

Lemma caught_run window before s calls :
  caught_up window before s -> Forall in_range calls -> in_window window before calls ->
  caught_up window (before ++ calls) (run s calls).2.
Proof.
  intros Hc Hr. revert before s Hc. induction Hr as [|[sequence data] calls Hmax _ IH]; intros before s Hc Hw; simpl.
  { by rewrite app_nil_r. }
  pose proof (caught_step _ _ _ _ _ _ Hc Hmax Hw) as H1. destruct (accept s sequence data) as [r s1]. cbn [snd] in H1.
  specialize (IH _ _ H1 (in_window_step _ _ _ _ Hw)). destruct (run s1 calls) as [out s2].
  by rewrite <- app_assoc in IH.
Qed.

Lemma new_receiver_ok limit : receiver_ok (new limit).
Proof.
  split; simpl; [|done|rewrite len_nil; lia|rewrite len_nil; lia|lia].
  split; simpl; constructor.
Qed.

Lemma new_caught_up limit : caught_up (N.max limit 1) [] (new limit).
Proof. split; [apply new_receiver_ok|done|by intros k ?%elem_of_nil|constructor]. Qed.

End Multipath.

(** ** The scheduler *)

Module Fairness.
Import MultipathScheduler.

Definition deficits (ps : BTree.t MultipathPath.t) : N :=
  sum_by (fun b => if usable b then b.2.(MultipathPath.deficit) else 0) ps.

Definition usable_count (ps : BTree.t MultipathPath.t) : N := len (List.filter usable ps).

(** What selections do not change. *)
Definition shape (ps : BTree.t MultipathPath.t) : list (u64 * N * bool) :=
  map (fun b => (b.1, b.2.(MultipathPath.weight), b.2.(MultipathPath.failed))) ps.

(** The credit outstanding is less than a round for every other path. *)
Record sched_ok (ps : BTree.t MultipathPath.t) : Prop := {
  sched_keys : BTree.ok ps;
  sched_width : usable_count ps * total_weight ps <= u64_max;
  sched_credit : deficits ps + total_weight ps <= usable_count ps * total_weight ps
}.

Lemma sum_by_le {A} (f g : A -> N) l : (forall x, x ∈ l -> f x <= g x) -> sum_by f l <= sum_by g l.
Proof.
  induction l as [|x l IH]; intros H; simpl; [done|].
  specialize (IH ltac:(intros y Hy; apply H, elem_of_cons; by right)).
  pose proof (H x ltac:(apply elem_of_cons; by left)). lia.
Qed.

Lemma sum_by_elem {A} (f : A -> N) l x : x ∈ l -> f x <= sum_by f l.
Proof.
  induction l as [|y l IH]; [by intros ?%elem_of_nil|]. intros [->|H]%elem_of_cons; simpl; [lia|].
  specialize (IH H). lia.
Qed.

Lemma sum_by_map {A B} (f : B -> N) (g : A -> B) l : sum_by f (map g l) = sum_by (fun x => f (g x)) l.
Proof. induction l as [|x l IH]; simpl; [done|]. by rewrite IH. Qed.

Lemma sum_by_const (P : u64 * MultipathPath.t -> bool) c ps :
  sum_by (fun b => if P b then c else 0) ps = len (List.filter P ps) * c.
Proof.
  induction ps as [|b ps IH]; simpl; [done|]. rewrite IH. destruct (P b); rewrite ?len_cons; lia.
Qed.

(** Changing one binding changes one summand. *)
Lemma sum_by_alter {V} (f : u64 * V -> N) g (m : BTree.t V) k v :
  BTree.ok m -> BTree.get m k = Some v ->
  sum_by f (BTree.alter g m k) + f (k, v) = sum_by f m + f (k, g v).
Proof.
  assert (Hcons : forall k' v' m, BTree.alter g ((k', v') :: m) k =
    (if k' =? k then (k', g v') else (k', v')) :: BTree.alter g m k) by done.
  induction m as [|[k' v'] m IH]; intros Hok Hg; [done|]. rewrite Hcons. cbn [sum_by fold_right BTree.get] in *.
  fold (sum_by f m) (sum_by f (BTree.alter g m k)).
  apply BTree.ok_cons in Hok as [Hok Hlt]. rewrite N.eqb_sym in Hg. destruct (N.eqb_spec k' k) as [->|Hne].
  - injection Hg as ->. assert (BTree.alter g m k = m) as ->; [|lia].
    clear -Hlt Hcons. induction m as [|[k1 v1] m IH]; [done|]. inversion Hlt as [|? ? H1 H2]; subst. simpl in H1.
    rewrite Hcons. destruct (N.eqb_spec k1 k); [lia|]. by rewrite IH.
  - specialize (IH Hok Hg). lia.
Qed.

(** The path chosen is usable and has the most credit. *)
Lemma best_spec ps :
  match best ps with
  | Some b => b ∈ ps /\ usable b = true /\
      forall b', b' ∈ ps -> usable b' = true -> b'.2.(MultipathPath.deficit) <= b.2.(MultipathPath.deficit)
  | None => forall b, b ∈ ps -> usable b = false
  end.
Proof.
  induction ps as [|b ps IH]; simpl; [by intros b ?%elem_of_nil|].
  destruct (best ps) as [b'|].
  - destruct IH as (Hin & Hu & Hmax). destruct (usable b && negb (better b' b)) eqn:E.
    + apply andb_true_iff in E as [Hub Hb]. apply negb_true_iff in Hb. unfold better in Hb.
      split; [apply elem_of_cons; by left|]. split; [done|].
      intros x [->|Hx]%elem_of_cons Hux; [lia|]. specialize (Hmax x Hx Hux). lia.
    + split; [apply elem_of_cons; by right|]. split; [done|].
      intros x [->|Hx]%elem_of_cons Hux; [|auto]. rewrite Hux in E. simpl in E.
      apply negb_false_iff in E. unfold better in E. lia.
  - destruct (usable b) eqn:Hub.
    + split; [apply elem_of_cons; by left|]. split; [done|].
      intros x [->|Hx]%elem_of_cons Hux; [lia|]. rewrite IH in Hux by done. done.
    + intros x [->|Hx]%elem_of_cons; auto.
Qed.

Lemma shape_same ps ps' :
  shape ps' = shape ps ->
  BTree.keys ps' = BTree.keys ps /\ total_weight ps' = total_weight ps /\ usable_count ps' = usable_count ps.
Proof.
  revert ps'. induction ps as [|b ps IH]; intros [|b' ps'] H; try done.
  simpl in H. injection H as Hk Hw Hf Hs. destruct (IH ps' Hs) as (H1 & H2 & H3).
  assert (Hu : usable b' = usable b) by (unfold usable; by rewrite Hf).
  unfold usable_count, total_weight in *. simpl. rewrite Hk, Hw, Hu. split; [by f_equal|]. split; [by rewrite H2|].
  destruct (usable b); rewrite ?len_cons; lia.
Qed.

Lemma shape_get ps' ps k p' p :
  shape ps' = shape ps -> BTree.get ps' k = Some p' -> BTree.get ps k = Some p ->
  p'.(MultipathPath.weight) = p.(MultipathPath.weight) /\ p'.(MultipathPath.failed) = p.(MultipathPath.failed).
Proof.
  revert ps'. induction ps as [|[k1 p1] ps IH]; intros [|[k1' p1'] ps'] H; try done.
  simpl in *. injection H as -> Hw Hf Hs. destruct (k =? k1); [|by apply IH]. by intros [= <-] [= <-].
Qed.

Lemma refill_shape ps : shape (map refill ps) = shape ps.
Proof. unfold shape. rewrite map_map. apply map_ext. intros b. unfold refill. by destruct (usable b). Qed.

Lemma alter_shape f ps k :
  (forall p, (f p).(MultipathPath.weight) = p.(MultipathPath.weight) /\ (f p).(MultipathPath.failed) = p.(MultipathPath.failed)) ->
  shape (BTree.alter f ps k) = shape ps.
Proof.
  intros Hf. unfold shape, BTree.alter. rewrite map_map. apply map_ext. intros b.
  destruct (b.1 =? k); [|done]. simpl. by destruct (Hf b.2) as [-> ->].
Qed.

Lemma no_overflow ps :
  sched_ok ps -> forall b, b ∈ ps -> usable b = true ->
  b.2.(MultipathPath.deficit) + b.2.(MultipathPath.weight) <= u64_max.
Proof.
  intros [_ Hw Hc] b Hb Hu.
  pose proof (sum_by_elem (fun b => if usable b then b.2.(MultipathPath.deficit) else 0) ps b Hb) as H1.
  pose proof (sum_by_elem (fun b => if usable b then b.2.(MultipathPath.weight) else 0) ps b Hb) as H2.
  simpl in H1, H2. rewrite Hu in H1, H2. unfold deficits, total_weight in *. lia.
Qed.

(** Refilling adds a full round of credit. *)
Lemma refill_deficits ps : sched_ok ps -> deficits (map refill ps) = deficits ps + total_weight ps.
Proof.
  intros Hok. pose proof (no_overflow ps Hok) as Hno. clear Hok.
  unfold deficits, total_weight. rewrite sum_by_map. induction ps as [|b ps IH]; simpl; [done|].
  rewrite IH by (intros x Hx; apply Hno, elem_of_cons; by right).
  specialize (Hno b ltac:(apply elem_of_cons; by left)). unfold refill, saturating_add.
  destruct (usable b) eqn:Hu.
  - unfold usable in *. simpl. rewrite Hu. specialize (Hno eq_refl). lia.
  - rewrite Hu. lia.
Qed.

Lemma get_refill ps k : BTree.get (map refill ps) k = (fun p => (refill (k, p)).2) <$> BTree.get ps k.
Proof.
  induction ps as [|[k' p] ps IH]; [done|]. cbn [map].
  assert (refill (k', p) = (k', (refill (k', p)).2)) as -> by (unfold refill; by destruct (usable (k', p))).
  cbn [BTree.get]. by destruct (N.eqb_spec k k') as [->|].
Qed.

Lemma credit_step n W D D2 d :
  D2 + d = D + W + (d - W) -> D + W <= n * W -> D + W <= n * d -> 0 < W -> D2 + W <= n * W.
Proof.
  intros H1 H2 H3 HW. destruct (N.le_gt_cases W d); [lia|].
  assert (1 <= n) by (destruct (decide (n = 0)); [subst; lia|lia]).
  assert (Hm : (n - 1) * d <= (n - 1) * W) by (apply N.mul_le_mono_l; lia).
  rewrite !N.mul_sub_distr_r, !N.mul_1_l in Hm.
  assert (d <= n * d) by nia. assert (W <= n * W) by nia. lia.
Qed.

(** Selecting keeps the invariant: when the most credit is a round or more, a
    round is taken; when it is less, all of it is, and the others have no more
    each. *)
Lemma select_ok s id s' :
  sched_ok s.(paths) -> select_path s = Ok (id, s') ->
  sched_ok s'.(paths) /\ shape s'.(paths) = shape s.(paths) /\
  (forall k p, k <> id -> BTree.get s.(paths) k = Some p -> p.(MultipathPath.failed) = false ->
     exists p', BTree.get s'.(paths) k = Some p' /\
       p'.(MultipathPath.deficit) = p.(MultipathPath.deficit) + p.(MultipathPath.weight)).
Proof.
  intros Hok. unfold select_path. destruct (N.eqb_spec (total_weight s.(paths)) 0) as [|HW]; [done|].
  pose proof (best_spec (map refill s.(paths))) as Hbest.
  destruct (best (map refill s.(paths))) as [[sel q]|]; [|done]. intros [= -> <-].
  destruct Hbest as (Hin & Hu & Hmax). simpl in Hmax. set (W := total_weight s.(paths)) in *.
  set (f := fun p => p <| MultipathPath.deficit := saturating_sub p.(MultipathPath.deficit) W |>).
  set (ps2 := BTree.alter f (map refill s.(paths)) id).
  change (sched_ok ps2 /\ shape ps2 = shape s.(paths) /\
    (forall k p, k <> id -> BTree.get s.(paths) k = Some p -> p.(MultipathPath.failed) = false ->
       exists p', BTree.get ps2 k = Some p' /\
         p'.(MultipathPath.deficit) = p.(MultipathPath.deficit) + p.(MultipathPath.weight))).
  assert (Hsh : shape ps2 = shape s.(paths)) by (unfold ps2; rewrite alter_shape, refill_shape; done).
  destruct (shape_same _ _ (refill_shape s.(paths))) as (Hk1 & HW1 & Hn1).
  destruct (shape_same _ _ Hsh) as (Hk2 & HW2 & Hn2).
  assert (Hok1 : BTree.ok (map refill s.(paths))) by (unfold BTree.ok; rewrite Hk1; apply Hok).
  pose proof (BTree.in_get _ _ _ Hok1 Hin) as Hg. split; [|split; [exact Hsh|]].
  - split; [unfold BTree.ok; rewrite Hk2; apply Hok|rewrite HW2, Hn2; apply Hok|]. rewrite HW2, Hn2. fold W.
    apply (credit_step _ W (deficits s.(paths)) _ q.(MultipathPath.deficit)); [|apply Hok| |lia].
    + unfold W. rewrite <- (refill_deficits _ Hok). fold W.
      pose proof (sum_by_alter (fun b => if usable b then b.2.(MultipathPath.deficit) else 0) f
        (map refill s.(paths)) id q Hok1 Hg) as Hs.
      simpl in Hs. rewrite Hu in Hs.
      change (usable (id, f q)) with (usable (id, q)) in Hs. rewrite Hu in Hs. exact Hs.
    + unfold W. rewrite <- (refill_deficits _ Hok), <- Hn1. unfold usable_count. rewrite <- sum_by_const.
      apply sum_by_le. intros b Hb. destruct (usable b) eqn:Hub; [by apply Hmax|done].
  - intros k p Hne Hp Hf. unfold ps2. rewrite BTree.get_alter. destruct (N.eqb_spec k id); [done|].
    rewrite get_refill, Hp. eexists. split; [done|]. unfold refill, usable. simpl. rewrite Hf. simpl.
    assert (Hu' : usable (k, p) = true) by (unfold usable; simpl; by rewrite Hf).
    pose proof (no_overflow _ Hok (k, p) (BTree.get_Some_in _ _ _ Hp) Hu') as Hov. simpl in Hov.
    unfold saturating_add. lia.
Qed.

(** [n] selections in a row. *)
Fixpoint select_many (n : nat) (s : t) : Result MultipathError (list u64 * t) :=
  match n with
  | O => Ok ([], s)
  | S n =>
      '(id, s) ← select_path s;
      '(ids, s) ← select_many n s;
      Ok (id :: ids, s)
  end.

Lemma select_total s : 0 < total_weight s.(paths) -> exists id s', select_path s = Ok (id, s').
Proof.
  intros HW. unfold select_path. destruct (N.eqb_spec (total_weight s.(paths)) 0); [lia|].
  pose proof (best_spec (map refill s.(paths))) as Hb. destruct (best _) as [[id q]|]; [by eexists _, _|].
  exfalso. destruct (shape_same _ _ (refill_shape s.(paths))) as (_ & HW1 & _). rewrite <- HW1 in HW.
  assert (total_weight (map refill s.(paths)) <= 0); [|lia]. unfold total_weight.
  transitivity (sum_by (fun _ : u64 * MultipathPath.t => 0) (map refill s.(paths))).
  - apply sum_by_le. intros b Hin. by rewrite (Hb b Hin).
  - clear. induction (map refill s.(paths)); simpl; lia.
Qed.

Lemma select_many_total n s : sched_ok s.(paths) -> 0 < total_weight s.(paths) -> exists ids s', select_many n s = Ok (ids, s').
Proof.
  revert s. induction n as [|n IH]; intros s Hok HW; simpl; [by eexists _, _|].
  destruct (select_total s HW) as (id & s1 & E). rewrite E. cbn [mbind Result_bind].
  destruct (select_ok s id s1 Hok E) as (Hok1 & Hsh & _). destruct (shape_same _ _ Hsh) as (_ & HW1 & _).
  destruct (IH s1 Hok1 ltac:(lia)) as (ids & s2 & ->). by eexists _, _.
Qed.

(** A path passed over gains its weight each time. *)
Lemma passed_over n s ids s' k p :
  sched_ok s.(paths) -> select_many n s = Ok (ids, s') -> BTree.get s.(paths) k = Some p ->
  p.(MultipathPath.failed) = false -> k ∉ ids ->
  sched_ok s'.(paths) /\ shape s'.(paths) = shape s.(paths) /\
  exists p', BTree.get s'.(paths) k = Some p' /\ p'.(MultipathPath.failed) = false /\
    p'.(MultipathPath.deficit) = p.(MultipathPath.deficit) + N.of_nat n * p.(MultipathPath.weight).
Proof.
  revert s ids p. induction n as [|n IH]; intros s ids p Hok; cbn [select_many].
  { intros [= <- <-] Hp Hf _. split; [done|]. split; [done|]. exists p. repeat split; try done. lia. }
  intros ([id s1] & E1 & ([ids1 s2] & E2 & [= <- <-])%bind_Ok)%bind_Ok Hp Hf Hni.
  apply not_elem_of_cons in Hni as [Hne Hni].
  destruct (select_ok s id s1 Hok E1) as (Hok1 & Hsh1 & Hgain).
  destruct (Hgain k p Hne Hp Hf) as (p1 & Hp1 & Hd1).
  assert (Hkeep : p1.(MultipathPath.weight) = p.(MultipathPath.weight) /\ p1.(MultipathPath.failed) = false).
  { destruct (shape_get s1.(paths) s.(paths) k p1 p Hsh1 Hp1 Hp) as [-> ->]. done. }
  destruct Hkeep as [Hw1 Hf1].
  destruct (IH s1 ids1 p1 Hok1 E2 Hp1 Hf1 Hni) as (Hok2 & Hsh2 & p2 & Hp2 & Hf2 & Hd2).
  split; [done|]. split; [congruence|]. exists p2. repeat split; try done. rewrite Hd2, Hd1, Hw1. lia.
Qed.

End Fairness.

(** ** Theorems *)

(** C31: However the frames of a circuit arrive over its paths, out of order,
    repeated or in conflict, what is handed on are frames that arrived, in the
    order of their numbers from zero on without a gap or a repetition, and
    neither the reorder buffer nor the memory for duplicates exceeds its limit. *)
Theorem multipath_in_order limit calls :
  Forall Multipath.in_range calls ->
  let '(out, s) := Multipath.run (MultipathScheduler.new limit) calls in
  map fst out = count_from 0 (length out) /\ s.(MultipathScheduler.next_sequence) = len out /\
  (forall b, b ∈ out -> b ∈ calls) /\
  len s.(MultipathScheduler.buffered) <= N.max limit 1 /\ len s.(MultipathScheduler.delivered) <= N.max limit 1.
Proof.
  intros Hc. pose proof (Multipath.run_delivers calls _ (Multipath.new_receiver_ok limit) Hc) as Hd.
  destruct (Multipath.run _ calls) as [out s]. destruct Hd as [Hn Hx Hk [_ _ Hb Hm _] Hl]. simpl in *.
  rewrite Hl in Hb, Hm. repeat split; try done.
  intros b Hb'. destruct (Hk b Hb') as [?|?%elem_of_nil]; done.
Qed.

Lemma multipath_in_order_witness :
  let calls := [(1, [11]); (0, [10]); (0, [10]); (3, [13]); (2, [12])] in
  (Multipath.run (MultipathScheduler.new 2) calls).1 = [(0, [10]); (1, [11]); (2, [12]); (3, [13])] /\
  len (Multipath.run (MultipathScheduler.new 2) calls).2.(MultipathScheduler.delivered) <= 2.
Proof.
  intros calls. split; [by vm_compute|].
  assert (Hc : Forall Multipath.in_range calls) by (repeat constructor).
  pose proof (multipath_in_order 2 calls Hc) as H.
  destruct (Multipath.run (MultipathScheduler.new 2) calls) as [out s]. apply H.
Defined.

(** C32: A sender's frames get through, however they are reordered within the
    window of the receiver: when its frames [0] to [n - 1] arrive, in any order
    in which none comes before one that precedes it by more than the reorder
    limit, and with any repetitions, then exactly these frames are handed on,
    each once and in order. *)
Theorem multipath_complete limit calls f n :
  N.of_nat n <= u64_max -> Forall (fun c => c.1 < N.of_nat n /\ c.2 = f c.1) calls ->
  (forall k, k < N.of_nat n -> k ∈ map fst calls) -> Multipath.in_window (N.max limit 1) [] calls ->
  (Multipath.run (MultipathScheduler.new limit) calls).1 = map (fun k => (k, f k)) (count_from 0 n).
Proof.
  intros Hmax Hf Hall Hw. rewrite list.Forall_forall in Hf.
  assert (Hc : Forall Multipath.in_range calls).
  { apply list.Forall_forall. intros c Hin. destruct (Hf c Hin). unfold Multipath.in_range. lia. }
  pose proof (Multipath.caught_run _ _ _ _ (Multipath.new_caught_up limit) Hc Hw) as Hu.
  pose proof (Multipath.caught_awaited _ _ _ Hu) as Hwait.
  pose proof (Multipath.run_delivers calls _ (Multipath.new_receiver_ok limit) Hc) as [Hn Hx Hk _ _].
  destruct (Multipath.run _ calls) as [out s]. cbn [fst snd] in *. simpl in Hn, Hx, Hk, Hwait.
  assert (Hin : forall b, b ∈ out -> b.1 < N.of_nat n /\ b.2 = f b.1).
  { intros b Hb. apply Hf. destruct (Hk b Hb) as [?|?%elem_of_nil]; done. }
  assert (Hge : N.of_nat n <= len out).
  { destruct (N.le_gt_cases (N.of_nat n) (len out)) as [|Hlt]; [done|]. destruct Hwait. rewrite Hx. by apply Hall. }
  assert (Hle : (length out <= n)%nat).
  { destruct (decide (length out <= n)%nat) as [|Hgt]; [done|].
    assert (Hlast : N.of_nat n ∈ map fst out) by (rewrite Hn; apply elem_of_count_from; lia).
    apply list_elem_of_In, in_map_iff in Hlast as (b & Eb & Hb%list_elem_of_In%Hin). lia. }
  assert (Hout : out = map (fun k => (k, f k)) (map fst out)).
  { rewrite map_map. rewrite <- (map_id out) at 1. apply map_ext_in. intros [k d] [_ Hb]%list_elem_of_In%Hin. simpl in *. by rewrite Hb. }
  rewrite Hout, Hn. do 2 f_equal. unfold len in Hge. lia.
Qed.

Lemma multipath_complete_witness :
  let f := fun k => [k + 10] in
  (Multipath.run (MultipathScheduler.new 2) [(2, f 2); (1, f 1); (2, f 2); (0, f 0); (4, f 4); (3, f 3); (0, f 0)]).1
  = map (fun k => (k, f k)) [0; 1; 2; 3; 4].
Proof.
  intros f. apply (multipath_complete 2 _ f 5).
  - by vm_compute.
  - repeat constructor.
  - intros k Hk. simpl. rewrite !elem_of_cons. lia.
  - intros i c Hi k Hk. do 7 (destruct i as [|i]; [injection Hi as <-; simpl in *; rewrite ?elem_of_cons; lia|]). done.
Defined.

(** No path is starved: between the usable paths of a circuit, a path of
    weight [w] among [n] of total weight [W] is passed over at most
    [(n - 1) * W / w] times in a row, and selection never fails. *)
Theorem multipath_fair s k p m :
  Fairness.sched_ok s.(MultipathScheduler.paths) ->
  BTree.get s.(MultipathScheduler.paths) k = Some p -> p.(MultipathPath.failed) = false ->
  0 < p.(MultipathPath.weight) ->
  let W := MultipathScheduler.total_weight s.(MultipathScheduler.paths) in
  let n := Fairness.usable_count s.(MultipathScheduler.paths) in
  exists ids s', Fairness.select_many m s = Ok (ids, s') /\
    (k ∉ ids -> N.of_nat m * p.(MultipathPath.weight) + W <= n * W).
Proof.
  intros Hok Hp Hf Hw W n.
  assert (HW : 0 < W).
  { pose proof (Fairness.sum_by_elem (fun b => if MultipathScheduler.usable b then b.2.(MultipathPath.weight) else 0)
      _ _ (BTree.get_Some_in _ _ _ Hp)) as H. unfold MultipathScheduler.usable in H at 1. simpl in H. rewrite Hf in H.
    simpl in H. unfold W, MultipathScheduler.total_weight. lia. }
  destruct (Fairness.select_many_total m s Hok HW) as (ids & s' & E). exists ids, s'. split; [done|]. intros Hni.
  destruct (Fairness.passed_over m s ids s' k p Hok E Hp Hf Hni) as (Hok' & Hsh & p' & Hp' & Hf' & Hd).
  destruct (Fairness.shape_same _ _ Hsh) as (_ & HW' & Hn'). destruct Hok' as [_ _ Hc].
  rewrite HW', Hn' in Hc. fold W n in Hc.
  pose proof (Fairness.sum_by_elem (fun b => if MultipathScheduler.usable b then b.2.(MultipathPath.deficit) else 0)
    _ _ (BTree.get_Some_in _ _ _ Hp')) as H. unfold MultipathScheduler.usable in H at 1. simpl in H.
  rewrite Hf' in H. simpl in H. fold (Fairness.deficits (MultipathScheduler.paths s')) in H. lia.
Qed.

(** Two paths, the second with a third of the weight of the first. *)
Definition sample_scheduler : MultipathScheduler.t :=
  MultipathScheduler.mk 4 [(1, MultipathPath.mk 3 0 0 false); (2, MultipathPath.mk 1 0 0 false)] [] [] 0.

Lemma multipath_fair_witness :
  exists ids s', Fairness.select_many 5 sample_scheduler = Ok (ids, s') /\ 2 ∈ ids.
Proof.
  assert (Hok : Fairness.sched_ok sample_scheduler.(MultipathScheduler.paths)).
  { split; [repeat constructor|vm_compute; congruence|vm_compute; congruence]. }
  destruct (multipath_fair sample_scheduler 2 (MultipathPath.mk 1 0 0 false) 5 Hok) as (ids & s' & E & H); [done..|].
  exists ids, s'. split; [done|]. destruct (decide (2 ∈ ids)) as [Hin|Hni]; [done|].
  specialize (H Hni). vm_compute in H. by destruct H.
Defined.

(** *** The memory for duplicates *)

Module Memory.
Import MultipathScheduler.

(** The memory holds the frames just before the one expected. *)
Definition recent (s : t) : Prop :=
  BTree.keys s.(delivered) = count_from (s.(next_sequence) - len s.(delivered)) (length s.(delivered)) /\
  len s.(delivered) <= s.(next_sequence).

Lemma insert_last {V} (m : BTree.t V) k v :
  Forall (fun x => x < k) (BTree.keys m) -> BTree.insert m k v = m ++ [(k, v)].
Proof.
  induction m as [|[k' v'] m IH]; intros H; simpl; [done|]. inversion H as [|? ? H1 H2]; subst.
  destruct (N.compare_spec k k'); [lia|lia|]. by rewrite IH.
Qed.

Lemma length_keys {V} (m : BTree.t V) : length (BTree.keys m) = length m.
Proof. unfold BTree.keys. apply length_map. Qed.

Lemma recent_insert s bytes :
  Multipath.tables_ok s -> recent s -> s.(next_sequence) < u64_max ->
  recent (mk s.(reorder_limit) s.(paths) (BTree.remove s.(buffered) s.(next_sequence))
            (BTree.insert s.(delivered) s.(next_sequence) bytes) (saturating_add s.(next_sequence) 1)).
Proof.
  intros [_ _ _ Hp] [Hk Hl] Hm. unfold recent. simpl. rewrite insert_last by done.
  assert (saturating_add s.(next_sequence) 1 = s.(next_sequence) + 1) as -> by (unfold saturating_add; lia).
  rewrite len_app, len_cons, len_nil, length_app. simpl. split; [|lia].
  unfold BTree.keys in *. rewrite map_app. simpl. rewrite Hk, count_from_app. simpl. unfold len in *. f_equal.
  - f_equal. lia.
  - f_equal. lia.
Qed.

Lemma recent_forget s : recent s -> recent (forget s).
Proof.
  intros [Hk Hl]. unfold recent, forget. simpl. set (n := (_ - _)%nat).
  assert (Hd : BTree.keys (drop n s.(delivered)) = drop n (BTree.keys s.(delivered)))
    by (unfold BTree.keys; apply fmap_drop).
  rewrite Hd, Hk, count_from_drop. unfold len in *. rewrite length_drop. split; [|lia]. f_equal. lia.
Qed.

Lemma recent_release turns s acc :
  Multipath.tables_ok s -> recent s -> recent (release turns s acc).2.
Proof.
  revert s acc. induction turns as [|turns IH]; intros s acc Ht Hr; simpl; [done|].
  destruct (BTree.get s.(buffered) s.(next_sequence)) as [bytes|] eqn:E; [|done].
  destruct (Multipath.release_turn s bytes Ht E) as (Ht1 & _). apply IH; [done|]. apply recent_insert; [done|done|].
  destruct Ht as [_ _ Ha _]. rewrite list.Forall_forall in Ha. apply Ha, BTree.get_keys. by eexists.
Qed.

Lemma recent_accept s sequence data :
  Multipath.receiver_ok s -> sequence < u64_max -> recent s -> recent (accept s sequence data).2.
Proof.
  intros Hok Hmax Hr. unfold accept. destruct (N.ltb_spec sequence s.(next_sequence)) as [|Hn].
  { destruct (BTree.get s.(delivered) sequence); [case_decide|]; done. }
  destruct (BTree.get s.(buffered) sequence); [case_decide; done|].
  destruct (_ && _); [done|]. cbv zeta. destruct (_ <? sequence); [done|].
  set (s1 := s <| buffered := _ |>).
  assert (Ht : Multipath.tables_ok s1) by (apply Multipath.buffer_tables; [apply Hok|lia]).
  pose proof (recent_release (length s1.(buffered)) s1 [] Ht Hr) as Hr1.
  destruct (release _ s1 []) as [out s2]. simpl. by apply recent_forget.
Qed.

Lemma recent_run calls s :
  Multipath.receiver_ok s -> Forall Multipath.in_range calls -> recent s -> recent (Multipath.run s calls).2.
Proof.
  intros Hok Hc. revert s Hok. induction Hc as [|[sequence data] calls Hmax _ IH]; intros s Hok Hr; simpl; [done|].
  pose proof (Multipath.accept_received s sequence data Hok Hmax) as [_ _ _ _ Ho _ _].
  pose proof (recent_accept s sequence data Hok Hmax Hr) as Hr1.
  destruct (accept s sequence data) as [r s1]. cbn [fst snd] in *. specialize (IH s1 Ho Hr1).
  by destruct (Multipath.run s1 calls).
Qed.

End Memory.

(** An exact repetition of a frame that has left the memory is refused as a
    conflict: after any frames, every frame older than the last [limit] ones is,
    with whatever bytes. *)
Theorem late_duplicate_conflicts limit calls sequence data :
  Forall Multipath.in_range calls ->
  let s := (Multipath.run (MultipathScheduler.new limit) calls).2 in
  sequence + N.max limit 1 < s.(MultipathScheduler.next_sequence) ->
  MultipathScheduler.accept s sequence data = (Err MultipathConflict, s).
Proof.
  intros Hc s Hold. pose proof (Multipath.new_receiver_ok limit) as Hok.
  assert (Hr : Memory.recent s).
  { apply Memory.recent_run; [done|done|]. split; simpl; [done|rewrite len_nil; lia]. }
  pose proof (Multipath.run_delivers calls _ Hok Hc) as [_ _ _ [_ _ _ Hm _] Hl]. fold s in Hm, Hl.
  rewrite Hl in Hm. simpl in Hm. destruct Hr as [Hk _]. unfold MultipathScheduler.accept.
  destruct (N.ltb_spec sequence s.(MultipathScheduler.next_sequence)); [|lia].
  destruct (BTree.get s.(MultipathScheduler.delivered) sequence) eqn:E; [|done].
  assert (Hin : sequence ∈ BTree.keys s.(MultipathScheduler.delivered)) by (apply BTree.get_keys; by eexists).
  rewrite Hk in Hin. apply elem_of_count_from in Hin. lia.
Qed.

Lemma late_duplicate_conflicts_witness :
  let s := (Multipath.run (MultipathScheduler.new 1) [(0, [10]); (1, [11]); (2, [12])]).2 in
  MultipathScheduler.accept s 0 [10] = (Err MultipathConflict, s).
Proof.
  apply (late_duplicate_conflicts 1 [(0, [10]); (1, [11]); (2, [12])] 0 [10]); [repeat constructor|].
  vm_compute. reflexivity.
Defined.

(** However a circuit is extended, it never uses more relays than its
    budget, nor more than the protocol allows. *)
Theorem extension_bounded max_relays grants :
  let e := fold_left (fun e g => match ExtensionState.extend e g with Ok e => e | Err _ => e end) grants
             (ExtensionState.mk 0 max_relays) in
  e.(ExtensionState.relays_used) <= N.min max_relays PROTOCOL_MAX_RELAY_NODES /\
  e.(ExtensionState.max_relays) = max_relays.
Proof.
  apply (fold_left_inv (fun e => e.(ExtensionState.relays_used) <= N.min max_relays PROTOCOL_MAX_RELAY_NODES /\
    e.(ExtensionState.max_relays) = max_relays)); [|simpl; split; [lia|done]].
  intros e g [Hu Hm]. unfold ExtensionState.extend.
  destruct (N.leb_spec PROTOCOL_MAX_RELAY_NODES e.(ExtensionState.relays_used)); [done|].
  destruct (N.leb_spec e.(ExtensionState.max_relays) e.(ExtensionState.relays_used)); [done|].
  destruct g; simpl; split; try done; lia.
Qed.
