(* ===== verification/RelayOnion.v ===== *)
(** * Layered private routes (crates/umc-relay/src/onion.rs)

    A route is sealed in layers, one per hop; each hop opens one.  The AEAD is
    that of Crypto.v. *)

From Stdlib Require Import Strings.String.
From S2P Require Import Prelude Crypto.

Definition VERSION : u8 := 1.
Definition TERMINAL : u8 := 0.
Definition FORWARD : u8 := 1.
Definition MAX_FIELD : usize := 65535.
Definition AAD : list u8 := bstr "UMP-PRIVACY-ROUTE-v1"%string.

(** The messages of the source, one constructor each. *)
Inductive OnionError :=
| NeedsOneHop
| NeedsOneDescriptorPerTransition
| ContextExceedsBound
| DescriptorExceedsBound
| NestedLayerExceedsBound
| FieldExceedsBound
| KeyDerivationFailed
| SealingFailed
| AuthenticationFailed
| LayerTruncated
| UnsupportedLayerVersion
| FieldLengthTruncated
| FieldTruncated
| TerminalTrailingBytes
| ForwardTrailingBytes
| UnknownLayerKind.

Section Onion.
Context `{Primitives}.

Definition encode_field (out field : list u8) : Result OnionError (list u8) :=
  if MAX_FIELD <? len field then Err FieldExceedsBound
  else Ok (out ++ to_be_bytes 2 (len field) ++ field).

Definition encode_terminal (destination : list u8) : Result OnionError (list u8) :=
  encode_field [VERSION; TERMINAL] destination.

Definition encode_forward (descriptor inner : list u8) : Result OnionError (list u8) :=
  if MAX_FIELD <? len inner then Err NestedLayerExceedsBound
  else
    out ← encode_field [VERSION; FORWARD] descriptor;
    encode_field out inner.

(** The field and the rest of the input. *)
Definition decode_field (input : list u8) : Result OnionError (list u8 * list u8) :=
  length ← ok_or FieldLengthTruncated (get_range input 0 2);
  let length := from_be_bytes length in
  let input := from input 2 in
  field ← ok_or FieldTruncated (get_range input 0 length);
  Ok (field, from input length).

Definition seal_layer (key plaintext : list u8) : Result OnionError (list u8) :=
  keys ← map_err (fun _ => KeyDerivationFailed) (PacketKeys.from_traffic_secret key);
  map_err (fun _ => SealingFailed) (PacketKeys.seal keys 0 AAD plaintext).

Definition open_layer (key layer : list u8) : Result OnionError (list u8) :=
  keys ← map_err (fun _ => KeyDerivationFailed) (PacketKeys.from_traffic_secret key);
  map_err (fun _ => AuthenticationFailed) (PacketKeys.open keys 0 AAD layer).

(** The loop over the transitions, from the last hop to the first. *)
Fixpoint wrap (transitions : list (list u8 * list u8)) (layer : list u8) : Result OnionError (list u8) :=
  match transitions with
  | [] => Ok layer
  | (key, descriptor) :: transitions =>
      if MAX_FIELD <? len descriptor then Err DescriptorExceedsBound
      else
        plaintext ← encode_forward descriptor layer;
        layer ← seal_layer key plaintext;
        wrap transitions layer
  end.

Definition build_privacy_route (hop_keys next_hops : list (list u8)) (destination_context : list u8)
    : Result OnionError (list u8) :=
  match get hop_keys (len hop_keys - 1) with
  | None => Err NeedsOneHop
  | Some last_key =>
      if negb (len next_hops =? len hop_keys - 1) then Err NeedsOneDescriptorPerTransition
      else if MAX_FIELD <? len destination_context then Err ContextExceedsBound
      else
        terminal ← encode_terminal destination_context;
        layer ← seal_layer last_key terminal;
        wrap (rev (zip hop_keys next_hops)) layer
  end.

Definition unwrap_privacy_layer (key layer : list u8) : Result OnionError (list u8 * option (list u8)) :=
  plaintext ← open_layer key layer;
  match plaintext with
  | version :: kind :: rest =>
      if negb (version =? VERSION) then Err UnsupportedLayerVersion
      else if kind =? TERMINAL then
        '(destination, rest) ← decode_field rest;
        match rest with
        | [] => Ok (destination, None)
        | _ => Err TerminalTrailingBytes
        end
      else if kind =? FORWARD then
        '(descriptor, rest) ← decode_field rest;
        '(inner, rest) ← decode_field rest;
        match rest with
        | [] => Ok (inner, Some descriptor)
        | _ => Err ForwardTrailingBytes
        end
      else Err UnknownLayerKind
  | _ => Err LayerTruncated
  end.

(** The hops opening their layers one after the other: the descriptors they
    read, and what the last one finds, which is [None] when a layer of the wrong
    kind comes up. *)
Fixpoint peel (hop_keys : list (list u8)) (layer : list u8) : option (list (list u8) * list u8) :=
  match hop_keys with
  | [] => None
  | key :: hop_keys =>
      match unwrap_privacy_layer key layer, hop_keys with
      | Ok (destination, None), [] => Some ([], destination)
      | Ok (inner, Some descriptor), _ :: _ =>
          '(descriptors, destination) ← peel hop_keys inner;
          Some (descriptor :: descriptors, destination)
      | _, _ => None
      end
  end.

(** ** Lemmas *)

Lemma decode_encode_field field rest :
  len field <= MAX_FIELD -> decode_field (to_be_bytes 2 (len field) ++ field ++ rest) = Ok (field, rest).
Proof.
  intros Hf. unfold decode_field, MAX_FIELD in *.
  assert (Hl : len (to_be_bytes 2 (len field)) = 2) by apply len_to_be_bytes.
  rewrite (get_range_app [] (to_be_bytes 2 (len field)) (field ++ rest)) by (rewrite len_nil, Hl; done).
  cbn [ok_or mbind Result_bind]. rewrite from_to_be_bytes by (change (256 ^ N.of_nat 2) with 65536; lia).
  assert (from (to_be_bytes 2 (len field) ++ field ++ rest) 2 = field ++ rest) as -> by (rewrite <- Hl; apply from_app_len).
  rewrite (get_range_app [] field rest) by (rewrite len_nil; lia).
  cbn [ok_or mbind Result_bind]. by rewrite from_app_len.
Qed.

Context `{!PrimitiveLaws}.

Lemma open_seal_layer key plaintext layer :
  seal_layer key plaintext = Ok layer ->
  open_layer key layer = Ok plaintext /\ len layer = len plaintext + TAG_LEN.
Proof.
  unfold seal_layer, open_layer. intros (keys & Hk & Hs)%bind_Ok. rewrite Hk. cbn [mbind Result_bind].
  apply map_err_Ok in Hs. unfold PacketKeys.seal, PacketKeys.open in *. apply ok_or_Ok in Hs.
  rewrite (aead_correct _ _ _ _ _ Hs). split; [done|]. by eapply aead_overhead.
Qed.

Lemma unwrap_terminal key destination terminal layer :
  encode_terminal destination = Ok terminal -> seal_layer key terminal = Ok layer ->
  unwrap_privacy_layer key layer = Ok (destination, None) /\ len layer = len destination + 4 + TAG_LEN.
Proof.
  unfold encode_terminal, encode_field. destruct (N.ltb_spec MAX_FIELD (len destination)) as [|Hd]; [done|].
  intros <-%(inj Ok) [Ho Hl]%open_seal_layer. unfold unwrap_privacy_layer. rewrite Ho. cbn [mbind Result_bind]. rewrite <- ?app_assoc. cbn [app].
  change (negb (VERSION =? VERSION)) with false. change (TERMINAL =? TERMINAL) with true. cbn iota.
  pose proof (decode_encode_field destination [] Hd) as E. rewrite app_nil_r in E. rewrite E.
  split; [done|]. rewrite Hl. autorewrite with umc. lia.
Qed.

Lemma unwrap_forward key descriptor inner plaintext layer :
  encode_forward descriptor inner = Ok plaintext -> seal_layer key plaintext = Ok layer ->
  unwrap_privacy_layer key layer = Ok (inner, Some descriptor) /\
  len layer = len inner + len descriptor + 6 + TAG_LEN.
Proof.
  unfold encode_forward, encode_field. destruct (N.ltb_spec MAX_FIELD (len inner)) as [|Hi]; [done|].
  destruct (N.ltb_spec MAX_FIELD (len descriptor)) as [|Hd]; [done|]. cbn [mbind Result_bind].
  intros <-%(inj Ok) [Ho Hl]%open_seal_layer. unfold unwrap_privacy_layer. rewrite Ho. cbn [mbind Result_bind]. rewrite <- ?app_assoc. cbn [app].
  change (negb (VERSION =? VERSION)) with false. change (FORWARD =? TERMINAL) with false.
  change (FORWARD =? FORWARD) with true. cbn iota.
  rewrite (decode_encode_field descriptor _ Hd). cbn [mbind Result_bind].
  pose proof (decode_encode_field inner [] Hi) as E. rewrite app_nil_r in E. rewrite E.
  split; [done|]. rewrite Hl. autorewrite with umc. lia.
Qed.

(** Wrapping one more transition on the outside. *)
Lemma wrap_app ts t layer out :
  wrap (ts ++ [t]) layer = Ok out <-> exists inner, wrap ts layer = Ok inner /\ wrap [t] inner = Ok out.
Proof.
  revert layer. induction ts as [|[k d] ts IH]; intros layer; cbn [app wrap]; [naive_solver|].
  destruct (MAX_FIELD <? len d); [naive_solver|]. destruct (encode_forward d layer) as [p|]; cbn [mbind Result_bind];
    [|naive_solver]. destruct (seal_layer k p) as [l|]; cbn [mbind Result_bind]; [apply IH|naive_solver].
Qed.

Definition layer_sum (next_hops : list (list u8)) : N :=
  foldr (fun d n => len d + 6 + TAG_LEN + n) 0 next_hops.

Lemma peel_wrap keys next_hops last_key destination terminal core layer :
  length keys = length next_hops ->
  encode_terminal destination = Ok terminal -> seal_layer last_key terminal = Ok core ->
  wrap (rev (zip keys next_hops)) core = Ok layer ->
  peel (keys ++ [last_key]) layer = Some (next_hops, destination) /\
  len layer = len destination + 4 + TAG_LEN + layer_sum next_hops.
Proof.
  intros Hlen Ht Hc. revert next_hops layer Hlen.
  induction keys as [|k keys IH]; intros [|d next_hops] layer Hlen Hw; try done; simpl in Hw.
  - injection Hw as <-. destruct (unwrap_terminal _ _ _ _ Ht Hc) as [E Hl]. simpl. rewrite E. split; [done|lia].
  - apply wrap_app in Hw as (inner & Hw & Hout). injection Hlen as Hlen.
    destruct (IH next_hops inner Hlen Hw) as [Hp Hl]. cbn [wrap] in Hout.
    destruct (MAX_FIELD <? len d); [done|]. apply bind_Ok in Hout as (p & Hp1 & Hout).
    apply bind_Ok in Hout as (l & Hs & Hout). injection Hout as ->.
    destruct (unwrap_forward _ _ _ _ _ Hp1 Hs) as [E Hl']. cbn [app peel]. rewrite E.
    destruct (keys ++ [last_key]) as [|k' ks] eqn:Ek; [by destruct keys|]. rewrite Hp. split; [done|].
    cbn [layer_sum foldr] in *. fold (layer_sum next_hops). lia.
Qed.

End Onion.

(** ** Theorems *)

(** A route that is built opens hop by hop: each hop in its turn, with its
    own key, reads exactly the descriptor written for it, and the last one the
    destination context; and the route's length is that of what it carries plus
    22 bytes a transition and 20 at the end. *)
Theorem privacy_route_peels `{Primitives, !PrimitiveLaws} hop_keys next_hops destination layer :
  build_privacy_route hop_keys next_hops destination = Ok layer ->
  peel hop_keys layer = Some (next_hops, destination) /\
  len layer = len destination + 20 + foldr (fun d n => len d + 22 + n) 0 next_hops.
Proof.
  unfold build_privacy_route. destruct (get hop_keys (len hop_keys - 1)) as [last_key|] eqn:El; [|done].
  destruct (N.eqb_spec (len next_hops) (len hop_keys - 1)) as [Hn|]; [|done]. cbn [negb].
  destruct (_ <? _); [done|].
  intros (terminal & Ht & (core & Hc & Hw)%bind_Ok)%bind_Ok.
  assert (exists keys, hop_keys = keys ++ [last_key] /\ length keys = length next_hops) as (keys & -> & Hlen).
  { unfold get in El. destruct (_ <? _); [|done]. exists (take (N.to_nat (len hop_keys - 1)) hop_keys).
    unfold len in *. pose proof (lookup_lt_Some _ _ _ El) as Hlt. split.
    - rewrite <- (take_S_r _ _ _ El). symmetry. apply take_ge. lia.
    - rewrite length_take. lia. }
  assert (zip (keys ++ [last_key]) next_hops = zip keys next_hops) as Hz.
  { clear -Hlen. revert next_hops Hlen. induction keys as [|k keys IH]; intros [|d next_hops] H; try done.
    simpl. f_equal. apply IH. by injection H. }
  rewrite Hz in Hw. destruct (peel_wrap keys next_hops last_key destination terminal core layer Hlen Ht Hc Hw) as [Hp Hl].
  split; [done|]. rewrite Hl. unfold layer_sum. change TAG_LEN with 16.
  assert (forall l, foldr (fun (d : list u8) n => len d + 6 + 16 + n) 0 l = foldr (fun d n => len d + 22 + n) 0 l) as ->; [|lia].
  induction l as [|d l IH]; simpl; [done|]. rewrite IH. lia.
Qed.

Lemma privacy_route_peels_witness :
  exists layer,
    build_privacy_route [repeat 1 32; repeat 2 32; repeat 3 32] [[10; 11]; [12]] [7; 8; 9] = Ok layer /\
    peel [repeat 1 32; repeat 2 32; repeat 3 32] layer = Some ([[10; 11]; [12]], [7; 8; 9]).
Proof.
  destruct (build_privacy_route [repeat 1 32; repeat 2 32; repeat 3 32] [[10; 11]; [12]] [7; 8; 9]) as [layer|e] eqn:E;
    [|by vm_compute in E].
  exists layer. split; [done|].
  by apply (privacy_route_peels [repeat 1 32; repeat 2 32; repeat 3 32] [[10; 11]; [12]] [7; 8; 9] layer).
Defined.
