(* ===== verification/BundleTransfer.v ===== *)
(** * Transfer of large bundles (crates/umc-bundle/src/transfer.rs)

    [split_bundle] cuts an envelope into stream chunks, [BundleReassembler]
    puts it together again from chunks that arrive in any order.  The
    reassembler's [BTreeMap] is a list ordered by its keys (BTree.v).  Whatever
    order the chunks of a bundle arrive in, and however often, the bundle comes
    out exactly once they are all there; whatever else is pushed, what is held
    stays within its bounds and what comes out was pushed. *)

From stdpp Require Import list.
From Stdlib Require Import Sorting.Sorted.
From S2P Require Import Prelude Records BTree.

#[local] Open Scope N_scope.

Definition STREAM_CHUNK_SIZE : usize := 262144.
Definition MAX_REASSEMBLY_BYTES : usize := 4194304.

Module BundleChunk.
Record t := mk {
  bundle_id : list u8;
  chunk_index : u64;
  chunk_final : bool;
  payload : list u8
}.

#[global] Instance eq_dec : EqDecision t.
Proof. solve_decision. Defined.
End BundleChunk.

Inductive TransferError :=
| WrongBundle
| ChunkTooLarge
| ReassemblyTooLarge
| ConflictingChunk
| IndexOverflow.

(** [usize::div_ceil] *)
Definition div_ceil (a b : usize) : usize := if a mod b =? 0 then a / b else a / b + 1.

(** [payload.chunks(size)]; as many turns as bytes are enough for a size above zero. *)
Fixpoint chunks (turns : nat) (size : usize) (l : list u8) : list (list u8) :=
  match turns, l with
  | O, _ | _, [] => []
  | S turns, l => take (N.to_nat size) l :: chunks turns size (drop (N.to_nat size) l)
  end.

Fixpoint enumerate {A} (i : u64) (l : list A) : list (u64 * A) :=
  match l with
  | [] => []
  | x :: l => (i, x) :: enumerate (i + 1) l
  end.

Definition split_bundle (bundle_id payload : list u8) : list BundleChunk.t :=
  if len payload =? 0 then [BundleChunk.mk bundle_id 0 true []]
  else
    let count := div_ceil (len payload) STREAM_CHUNK_SIZE in
    map (fun '(index, chunk) => BundleChunk.mk bundle_id index (index + 1 =? count) chunk)
        (enumerate 0 (chunks (length payload) STREAM_CHUNK_SIZE payload)).

Module BundleReassembler.

Record t := mk {
  bundle_id : list u8;
  chunks : list (u64 * list u8);
  final_index : option u64;
  total_bytes : usize
}.

Definition new (bundle_id : list u8) : t := mk bundle_id [] None 0.

(** The chunk's bytes enter the map, or are compared with those already there. *)
Definition hold (r : t) (chunk : BundleChunk.t) : Result TransferError t :=
  let payload := chunk.(BundleChunk.payload) in
  match BTree.get r.(chunks) chunk.(BundleChunk.chunk_index) with
  | Some existing => if bool_decide (existing = payload) then Ok r else Err ConflictingChunk
  | None =>
      next_total ← ok_or ReassemblyTooLarge (checked_add r.(total_bytes) (len payload));
      if MAX_REASSEMBLY_BYTES <? next_total then Err ReassemblyTooLarge
      else Ok (r <| total_bytes := next_total |>
                 <| chunks := BTree.insert r.(chunks) chunk.(BundleChunk.chunk_index) payload |>)
  end.

(** [chunks.len() == final + 1 && chunks.keys().eq(0..=final)], and the bytes then. *)
Definition complete (r : t) (final : u64) : option (list u8) :=
  if (len r.(chunks) =? final + 1) &&
     bool_decide (BTree.keys r.(chunks) = count_from 0 (N.to_nat (final + 1)))
  then Some (concat (map snd r.(chunks)))
  else None.

Definition push (r : t) (chunk : BundleChunk.t) : Result TransferError (option (list u8)) * t :=
  let index := chunk.(BundleChunk.chunk_index) in
  if negb (bool_decide (chunk.(BundleChunk.bundle_id) = r.(bundle_id))) then (Err WrongBundle, r)
  else if STREAM_CHUNK_SIZE <? len chunk.(BundleChunk.payload) then (Err ChunkTooLarge, r)
  else if MAX_REASSEMBLY_BYTES / STREAM_CHUNK_SIZE <? index then (Err IndexOverflow, r)
  else
    match hold r chunk with
    | Err e => (Err e, r)
    | Ok r =>
        if chunk.(BundleChunk.chunk_final) &&
           match r.(final_index) with Some prior => negb (prior =? index) | None => false end
        then (Err ConflictingChunk, r)
        else
          let r := if chunk.(BundleChunk.chunk_final) then r <| final_index := Some index |> else r in
          match r.(final_index) with
          | None => (Ok None, r)
          | Some final => (Ok (complete r final), r)
          end
    end.

End BundleReassembler.

(** ** Cutting *)

(** The pieces a payload is cut into; an empty one is one empty piece. *)
Definition pieces (payload : list u8) : list (list u8) :=
  if len payload =? 0 then [[]] else chunks (length payload) STREAM_CHUNK_SIZE payload.

Definition total (l : list (list u8)) : N := foldr (fun b n => len b + n) 0 l.

Lemma div_ceil_0 size : div_ceil 0 size = 0.
Proof. unfold div_ceil. by rewrite N.Div0.mod_0_l, N.Div0.div_0_l. Qed.

Lemma chunks_shape turns size l :
  0 < size -> (length l <= turns)%nat ->
  concat (chunks turns size l) = l /\
  len (chunks turns size l) = div_ceil (len l) size /\
  Forall (fun c => len c <= size) (chunks turns size l).
Proof.
  intros Hs. revert l. induction turns as [|turns IH]; intros l Hl.
  - destruct l; [|simpl in Hl; lia]. change (len []) with 0. by rewrite div_ceil_0.
  - destruct l as [|x l]; cbn [chunks]; [change (len []) with 0; by rewrite div_ceil_0|].
    set (l' := x :: l) in *. assert (0 < len l') as Hpos by (unfold l'; rewrite len_cons; lia). clearbody l'.
    destruct (IH (drop (N.to_nat size) l')) as (IH1 & IH2 & IH3); [rewrite length_drop; unfold len in *; lia|].
    repeat split.
    + cbn [concat]. by rewrite IH1, take_drop.
    + rewrite len_cons, IH2. unfold div_ceil, len in *. rewrite length_drop.
      destruct (N.le_gt_cases (N.of_nat (length l')) size) as [Hle|Hgt].
      * replace (N.of_nat (length l' - N.to_nat size)) with 0 by lia.
        rewrite N.Div0.mod_0_l, N.Div0.div_0_l. simpl.
        destruct (N.eq_dec (N.of_nat (length l')) size) as [->|].
        -- rewrite N.Div0.mod_same, N.div_same by lia. done.
        -- rewrite N.mod_small, N.div_small by lia. destruct (N.eqb_spec (N.of_nat (length l')) 0); lia.
      * replace (N.of_nat (length l')) with (N.of_nat (length l' - N.to_nat size) + 1 * size) by lia.
        rewrite N.Div0.mod_add, N.div_add by lia. generalize (N.of_nat (length l' - N.to_nat size) / size). intros q.
        case (_ =? 0); lia.
    + constructor; [|done]. unfold len. rewrite length_take. lia.
Qed.

Lemma total_concat l : total l = len (concat l).
Proof. induction l as [|b l IH]; simpl; [done|]. by rewrite len_app, IH. Qed.

Lemma pieces_shape payload :
  concat (pieces payload) = payload /\ 0 < len (pieces payload) /\
  Forall (fun c => len c <= STREAM_CHUNK_SIZE) (pieces payload) /\
  (len payload <= MAX_REASSEMBLY_BYTES -> len (pieces payload) <= MAX_REASSEMBLY_BYTES / STREAM_CHUNK_SIZE).
Proof.
  unfold pieces. destruct (N.eqb_spec (len payload) 0) as [H%len_0_nil|Hne].
  - subst payload. split_and!; [done|done| |by vm_compute]. constructor; [by vm_compute|constructor].
  - destruct (chunks_shape (length payload) STREAM_CHUNK_SIZE payload) as (H1 & H2 & H3); [done|done|].
    split_and!; [done| |done|]; rewrite H2; unfold div_ceil, STREAM_CHUNK_SIZE, MAX_REASSEMBLY_BYTES.
    + destruct (N.eqb_spec (len payload mod 262144) 0); lia.
    + intros Hm. destruct (N.eqb_spec (len payload mod 262144) 0); lia.
Qed.

Definition chunk_of (bundle_id : list u8) (count : N) (p : u64 * list u8) : BundleChunk.t :=
  BundleChunk.mk bundle_id p.1 (p.1 + 1 =? count) p.2.

Lemma split_pieces bundle_id payload :
  split_bundle bundle_id payload =
  map (chunk_of bundle_id (len (pieces payload))) (enumerate 0 (pieces payload)).
Proof.
  unfold split_bundle, pieces. destruct (N.eqb_spec (len payload) 0); [done|].
  destruct (chunks_shape (length payload) STREAM_CHUNK_SIZE payload) as (_ & -> & _); [done|done|].
  apply map_ext. by intros [i c].
Qed.

Lemma keys_enumerate {A} i (l : list A) : BTree.keys (enumerate i l) = count_from i (length l).
Proof.
  revert i. induction l as [|x l IH]; intros i; [done|]. unfold BTree.keys in *. simpl. by rewrite IH.
Qed.

Lemma values_enumerate {A} i (l : list A) : map snd (enumerate i l) = l.
Proof. revert i. induction l as [|x l IH]; intros i; simpl; [done|]. by rewrite IH. Qed.

Lemma count_from_sorted a n : StronglySorted N.lt (count_from a n).
Proof.
  revert a. induction n as [|n IH]; intros a; simpl; [constructor|]. constructor; [done|].
  apply list.Forall_forall. intros x Hx%elem_of_count_from. lia.
Qed.

Lemma enumerate_ok {A} i (l : list A) : BTree.ok (enumerate i l).
Proof. unfold BTree.ok. rewrite keys_enumerate. apply count_from_sorted. Qed.

Lemma total_sublist (l k : list (list u8)) : l `sublist_of` k -> total l <= total k.
Proof. induction 1; simpl; lia. Qed.

Lemma sorted_sublist (l k : list N) :
  StronglySorted N.lt l -> StronglySorted N.lt k -> (forall x, x ∈ l -> x ∈ k) -> l `sublist_of` k.
Proof.
  intros Hl Hk Hsub. assert (forall m : list N, BTree.keys (map (fun x => (x, tt)) m) = m) as Hkeys.
  { intros m. unfold BTree.keys. rewrite map_map. apply map_id. }
  rewrite <- (Hkeys l), <- (Hkeys k). apply fmap_sublist.
  apply BTree.sub_sublist; [unfold BTree.ok; by rewrite Hkeys..|].
  intros b (x & -> & Hx)%list_elem_of_fmap. by apply (list_elem_of_fmap_2 (fun x => (x, tt))), Hsub.
Qed.

Lemma count_from_lookup a n i x : count_from a n !! i = Some x -> x = a + N.of_nat i.
Proof.
  revert a i. induction n as [|n IH]; intros a [|i]; simpl; [done..| |].
  - intros [= ->]. lia.
  - intros H%IH. lia.
Qed.

Lemma sublist_full {A} (l k : list A) : l `sublist_of` k -> (length k <= length l)%nat -> l = k.
Proof.
  induction 1 as [|x l k H IH|x l k H IH]; simpl; intros Hl; [done|by rewrite IH by lia|].
  apply sublist_length in H. lia.
Qed.

(** ** Putting together *)

Module Reassembly.
Import BundleReassembler.

(** The reassembler after some pushes. *)
Definition after (r : t) (cs : list BundleChunk.t) : t := fold_left (fun r c => (push r c).2) cs r.

Lemma total_insert m k v :
  BTree.get m k = None -> total (map snd (BTree.insert m k v)) = len v + total (map snd m).
Proof.
  induction m as [|[k' v'] m IH]; simpl; [done|]. intros H. destruct (N.compare_spec k k') as [->|Hlt|Hgt].
  - by rewrite N.eqb_refl in H.
  - done.
  - destruct (N.eqb_spec k k'); [lia|]. simpl. rewrite IH by done. lia.
Qed.

Lemma hold_Ok r c r' :
  hold r c = Ok r' ->
  let i := c.(BundleChunk.chunk_index) in
  let b := c.(BundleChunk.payload) in
  (r' = r /\ BTree.get r.(chunks) i = Some b) \/
  (BTree.get r.(chunks) i = None /\ r.(total_bytes) + len b <= MAX_REASSEMBLY_BYTES /\
   r' = mk r.(bundle_id) (BTree.insert r.(chunks) i b) r.(final_index) (r.(total_bytes) + len b)).
Proof.
  unfold hold. destruct (BTree.get _ _) as [b|] eqn:Hg; simpl.
  - case_bool_decide; [|done]. intros [= <-]. left. by subst b.
  - intros (t & (-> & _)%ok_or_Ok%checked_add_Some & H)%bind_Ok. right. revert H.
    destruct (N.ltb_spec MAX_REASSEMBLY_BYTES (r.(total_bytes) + len c.(BundleChunk.payload))); [done|].
    intros [= <-]. by destruct r.
Qed.

(** What is held, whatever has been pushed: ordered, counted, within the bound,
    and every part of it pushed. *)
Record held (id : list u8) (cs : list BundleChunk.t) (r : t) : Prop := {
  held_id : r.(bundle_id) = id;
  held_ok : BTree.ok r.(chunks);
  held_total : r.(total_bytes) = total (map snd r.(chunks));
  held_bound : r.(total_bytes) <= MAX_REASSEMBLY_BYTES;
  held_index i b : (i, b) ∈ r.(chunks) -> i <= MAX_REASSEMBLY_BYTES / STREAM_CHUNK_SIZE;
  held_pushed i b : (i, b) ∈ r.(chunks) ->
    exists c, c ∈ cs /\ c.(BundleChunk.bundle_id) = id /\ c.(BundleChunk.chunk_index) = i /\
              c.(BundleChunk.payload) = b;
  held_final f : r.(final_index) = Some f ->
    exists c, c ∈ cs /\ c.(BundleChunk.bundle_id) = id /\ c.(BundleChunk.chunk_index) = f /\
              c.(BundleChunk.chunk_final) = true
}.

Lemma held_mono id cs cs' r : (forall c, c ∈ cs -> c ∈ cs') -> held id cs r -> held id cs' r.
Proof.
  intros Hsub [H1 H2 H3 H4 H5 H6 H7]. split; try done.
  - intros i b Hb. destruct (H6 i b Hb) as (c & ? & ?). eauto.
  - intros f Hf. destruct (H7 f Hf) as (c & ? & ?). eauto.
Qed.

Lemma hold_held id cs r c r' :
  held id cs r -> c ∈ cs -> c.(BundleChunk.bundle_id) = id ->
  c.(BundleChunk.chunk_index) <= MAX_REASSEMBLY_BYTES / STREAM_CHUNK_SIZE ->
  hold r c = Ok r' -> held id cs r'.
Proof.
  intros Hr Hc Hid Hi [[-> _]|(Hg & Hle & ->)]%hold_Ok; [done|]. destruct Hr as [H1 H2 H3 H4 H5 H6 H7].
  split; simpl; try done.
  - by apply BTree.insert_ok.
  - rewrite total_insert by done. lia.
  - intros i b [[= -> ->]|Hb]%BTree.elem_of_insert; eauto.
  - intros i b [[= -> ->]|Hb]%BTree.elem_of_insert; eauto 6.
Qed.

Lemma final_held id cs r c :
  held id cs r -> c ∈ cs -> c.(BundleChunk.bundle_id) = id ->
  held id cs (if c.(BundleChunk.chunk_final)
              then r <| final_index := Some c.(BundleChunk.chunk_index) |> else r).
Proof.
  intros Hr Hc Hid. destruct (BundleChunk.chunk_final c) eqn:E; [|done]. destruct Hr.
  split; simpl; try done. intros f [= <-]. eauto.
Qed.

Lemma push_held id cs r c : held id cs r -> held id (cs ++ [c]) (push r c).2.
Proof.
  intros Hr. apply (held_mono id cs (cs ++ [c])) in Hr; [|intros x Hx; apply elem_of_app; by left].
  assert (c ∈ cs ++ [c]) as Hc by (apply elem_of_app; right; by apply list_elem_of_singleton).
  unfold push. case_bool_decide as Hid; simpl; [|done]. rewrite (held_id _ _ _ Hr) in Hid.
  destruct (STREAM_CHUNK_SIZE <? _); [done|]. destruct (N.ltb_spec (MAX_REASSEMBLY_BYTES / STREAM_CHUNK_SIZE) c.(BundleChunk.chunk_index)) as [|Hi]; [done|].
  destruct (hold r c) as [r1|] eqn:Eh; [|done]. apply (hold_held id (cs ++ [c])) in Eh; [|done..].
  apply final_held with (c := c) in Eh as Hf; [|done..].
  destruct (_ && _); [done|]. by destruct (final_index _).
Qed.

Lemma after_snoc r cs c : after r (cs ++ [c]) = (push (after r cs) c).2.
Proof. unfold after. by rewrite fold_left_app. Qed.

Lemma after_held id cs : held id cs (after (new id) cs).
Proof.
  induction cs as [|c cs IH] using rev_ind.
  - split; try done; simpl; [constructor|by intros i b ?%elem_of_nil..].
  - rewrite after_snoc. by apply push_held.
Qed.

Lemma complete_Some r f p :
  complete r f = Some p ->
  BTree.keys r.(chunks) = count_from 0 (N.to_nat (f + 1)) /\ p = concat (map snd r.(chunks)).
Proof. unfold complete. destruct (_ =? _); [|done]. simpl. case_bool_decide; [|done]. by intros [= <-]. Qed.

Lemma push_Some r c p :
  (push r c).1 = Ok (Some p) ->
  exists f, (push r c).2.(final_index) = Some f /\ complete (push r c).2 f = Some p.
Proof.
  unfold push. destruct (negb _); [done|]. destruct (_ <? _); [done|]. destruct (_ <? _); [done|].
  destruct (hold r c) as [r1|]; [|done]. destruct (_ && _); [done|].
  destruct (final_index _) as [f|] eqn:Ef; [|done]. simpl. intros [= H]. eauto.
Qed.

Lemma held_count id cs r : held id cs r -> len r.(chunks) <= 17.
Proof.
  intros [_ Hok _ _ Hi _ _]. assert (BTree.keys r.(chunks) `sublist_of` count_from 0 17) as H%sublist_length.
  { apply sorted_sublist; [done|apply count_from_sorted|].
    intros k ([i b] & -> & Hb)%list_elem_of_fmap. apply elem_of_count_from. apply Hi in Hb. simpl.
    unfold MAX_REASSEMBLY_BYTES, STREAM_CHUNK_SIZE in Hb. lia. }
  unfold BTree.keys in H. rewrite length_map in H. simpl in H. unfold len. lia.
Qed.

Lemma numbered (m : list (u64 * list u8)) n :
  BTree.keys m = count_from 0 n -> forall i b, map snd m !! i = Some b -> (N.of_nat i, b) ∈ m.
Proof.
  intros Hk i b Hb. rewrite list_lookup_fmap in Hb. destruct (m !! i) as [[k b']|] eqn:Hm; [|done].
  injection Hb as ->. apply (f_equal (.!! i)) in Hk. unfold BTree.keys in Hk.
  rewrite list_lookup_fmap, Hm in Hk. simpl in Hk. symmetry in Hk.
  apply count_from_lookup in Hk as ->. rewrite N.add_0_l in Hm. by apply list_elem_of_lookup_2 in Hm.
Qed.

(** What is held stays held, and the final index stays. *)
Lemma push_keeps id cs r c f i b :
  held id cs r -> r.(final_index) = Some f -> (i, b) ∈ r.(chunks) ->
  (push r c).2.(final_index) = Some f /\ (i, b) ∈ (push r c).2.(chunks).
Proof.
  intros Hr Hf Hin. unfold push. destruct (negb _); [done|]. destruct (_ <? _); [done|]. destruct (_ <? _); [done|].
  destruct (hold r c) as [r1|] eqn:Eh; [|done].
  assert (r1.(final_index) = Some f /\ (i, b) ∈ r1.(chunks)) as [Hf1 Hin1].
  { apply hold_Ok in Eh as [[-> _]|(Hg & _ & ->)]; [done|]. split; [done|]. simpl.
    apply BTree.elem_of_insert; [apply Hr|done|by right]. }
  rewrite Hf1. destruct (BundleChunk.chunk_final c); cbn [andb]; [|by rewrite Hf1].
  destruct (N.eqb_spec f (BundleChunk.chunk_index c)) as [->|]; cbn [negb]; done.
Qed.

Lemma after_keeps id cs0 cs f i b :
  let r := after (new id) cs0 in
  r.(final_index) = Some f -> (i, b) ∈ r.(chunks) ->
  (after r cs).(final_index) = Some f /\ (i, b) ∈ (after r cs).(chunks).
Proof.
  intros r Hf Hin. induction cs as [|c cs IH] using rev_ind; [done|]. destruct IH as [IH1 IH2].
  rewrite after_snoc. apply (push_keeps id (cs0 ++ cs)); [|done|done].
  replace (after r cs) with (after (new id) (cs0 ++ cs)) by (unfold r, after; apply fold_left_app). apply after_held.
Qed.

(** While only chunks of one bundle are pushed, exactly the pushed ones are held. *)
Section Bundle.
Context (id payload : list u8) (Hmax : len payload <= MAX_REASSEMBLY_BYTES).

Let parts := enumerate 0 (pieces payload).
Let count := len (pieces payload).

Record exact (cs : list BundleChunk.t) (r : t) : Prop := {
  exact_held : held id cs r;
  exact_chunks p : p ∈ r.(chunks) <-> chunk_of id count p ∈ cs;
  exact_final : r.(final_index) = if existsb BundleChunk.chunk_final cs then Some (count - 1) else None
}.

Lemma split_elem c : c ∈ split_bundle id payload <-> exists p, p ∈ parts /\ c = chunk_of id count p.
Proof. rewrite split_pieces. setoid_rewrite list_elem_of_fmap. naive_solver. Qed.

Lemma chunk_of_inj p q : chunk_of id count p = chunk_of id count q -> p = q.
Proof. destruct p, q. by intros [= -> _ ->]. Qed.

Lemma part_bounds p : p ∈ parts -> p.1 < count /\ len p.2 <= STREAM_CHUNK_SIZE.
Proof.
  intros Hp. destruct (pieces_shape payload) as (_ & _ & Hs & _). split.
  - apply (list_elem_of_fmap_2 fst) in Hp. change (p.1 ∈ BTree.keys parts) in Hp.
    unfold parts in Hp. rewrite keys_enumerate in Hp. apply elem_of_count_from in Hp. unfold count, len. lia.
  - apply (list_elem_of_fmap_2 snd) in Hp. change (p.2 ∈ map snd parts) in Hp. unfold parts in Hp.
    rewrite values_enumerate in Hp. rewrite list.Forall_forall in Hs. auto.
Qed.

Lemma exact_sublist cs r :
  Forall (.∈ split_bundle id payload) cs -> exact cs r -> r.(chunks) `sublist_of` parts.
Proof.
  intros Hcs [Hh Hc _]. apply BTree.sub_sublist; [apply Hh|apply enumerate_ok|].
  intros p Hp%Hc. rewrite list.Forall_forall in Hcs. apply Hcs, split_elem in Hp as (q & Hq & ->%chunk_of_inj). done.
Qed.

Lemma exact_total cs r :
  Forall (.∈ split_bundle id payload) cs -> exact cs r -> total (map snd r.(chunks)) <= len payload.
Proof.
  intros Hcs Hr. pose proof (exact_sublist cs r Hcs Hr) as Hsub.
  destruct (pieces_shape payload) as (Hcat & _). rewrite <- Hcat, <- total_concat at 1.
  apply total_sublist. rewrite <- (values_enumerate 0 (pieces payload)). by apply fmap_sublist.
Qed.

Lemma hold_exact cs r p :
  Forall (.∈ split_bundle id payload) cs -> exact cs r -> p ∈ parts ->
  exists r', hold r (chunk_of id count p) = Ok r' /\ r'.(final_index) = r.(final_index) /\
    forall q, q ∈ r'.(chunks) <-> q ∈ r.(chunks) \/ q = p.
Proof.
  intros Hcs Hr Hp. pose proof (exact_sublist cs r Hcs Hr) as Hsub.
  pose proof (BTree.in_get parts p.1 p.2 (enumerate_ok _ _)) as Hget. rewrite <- surjective_pairing in Hget.
  specialize (Hget Hp). unfold hold. cbn [chunk_of BundleChunk.chunk_index BundleChunk.payload].
  destruct (BTree.get r.(chunks) p.1) as [b|] eqn:Hg.
  - apply BTree.get_Some_in in Hg. pose proof (elem_of_sublist _ _ _ Hg Hsub) as Hb.
    pose proof (BTree.in_get parts _ _ (enumerate_ok _ _) Hb) as Hget'. rewrite Hget in Hget'.
    assert (b = p.2) as -> by congruence. rewrite <- surjective_pairing in Hg.
    rewrite bool_decide_true by done. exists r. split_and!; [done|done|]. intros q. naive_solver.
  - assert (total (map snd (BTree.insert r.(chunks) p.1 p.2)) <= len payload) as Ht.
    { destruct (pieces_shape payload) as (Hcat & _). rewrite <- Hcat, <- total_concat at 1.
      apply total_sublist. rewrite <- (values_enumerate 0 (pieces payload)). apply fmap_sublist.
      apply BTree.sub_sublist; [apply BTree.insert_ok, Hr|apply enumerate_ok|].
      intros q [->|Hq]%BTree.elem_of_insert; [by rewrite <- surjective_pairing|by eapply elem_of_sublist|apply Hr|done]. }
    rewrite total_insert in Ht by done.
    pose proof (held_total _ _ _ (exact_held _ _ Hr)) as Htot.
    destruct (checked_add r.(total_bytes) (len p.2)) as [t|] eqn:Hadd.
    + apply checked_add_Some in Hadd as [-> _]. simpl.
      destruct (N.ltb_spec MAX_REASSEMBLY_BYTES (r.(total_bytes) + len p.2)); [lia|].
      eexists. split_and!; [done|done|]. intros q. simpl. rewrite BTree.elem_of_insert, <- surjective_pairing; [naive_solver|apply Hr|done].
    + unfold checked_add in Hadd. destruct (N.leb_spec (r.(total_bytes) + len p.2) u64_max) as [|Hbig]; [done|].
      exfalso. unfold u64_max, MAX_REASSEMBLY_BYTES in *. lia.
Qed.

Lemma split_all : map (chunk_of id count) parts = split_bundle id payload.
Proof. by rewrite split_pieces. Qed.

Lemma complete_exact cs r :
  Forall (.∈ split_bundle id payload) cs -> exact cs r ->
  complete r (count - 1) = if decide (Forall (.∈ cs) (split_bundle id payload)) then Some payload else None.
Proof.
  intros Hcs Hr. pose proof (exact_sublist cs r Hcs Hr) as Hsub.
  destruct (pieces_shape payload) as (Hcat & Hpos & _). fold count in Hpos. unfold complete.
  replace (count - 1 + 1) with count by lia.
  destruct (decide (Forall _ _)) as [Hall|Hnot].
  - assert (r.(chunks) = parts) as Heq.
    { apply sublist_full; [done|].
      apply sublist_length, BTree.sub_sublist; [apply enumerate_ok|apply Hr|].
      intros q Hq. apply (exact_chunks _ _ Hr). rewrite list.Forall_forall in Hall. apply Hall, split_elem. eauto. }
    rewrite Heq. unfold parts. rewrite keys_enumerate, values_enumerate, Hcat.
    replace (len (enumerate 0 (pieces payload))) with count
      by (unfold len, count, len; f_equal; rewrite <- (length_count_from 0 (length (pieces payload))), <- keys_enumerate;
          unfold BTree.keys; by rewrite length_map).
    rewrite N.eqb_refl, bool_decide_true; [done|]. f_equal. unfold count, len. lia.
  - destruct (N.eqb_spec (len r.(chunks)) count) as [Hl|]; [|done]. exfalso. apply Hnot.
    assert (r.(chunks) = parts) as Heq.
    { apply sublist_full; [done|]. unfold count, len in Hl.
      rewrite <- (length_count_from 0 (length (pieces payload))), <- keys_enumerate in Hl. unfold BTree.keys in Hl.
      rewrite length_map in Hl. unfold parts. lia. }
    apply list.Forall_forall. intros c (p & Hp & ->)%split_elem. apply (exact_chunks _ _ Hr). by rewrite Heq.
Qed.

Lemma existsb_snoc {A} (f : A -> bool) l x : existsb f (l ++ [x]) = existsb f l || f x.
Proof. rewrite existsb_app. simpl. by rewrite orb_false_r. Qed.

Lemma not_complete cs :
  existsb BundleChunk.chunk_final cs = false -> ~ Forall (.∈ cs) (split_bundle id payload).
Proof.
  intros Hf Hall. destruct (pieces_shape payload) as (_ & Hpos & _). fold count in Hpos.
  assert (count - 1 ∈ BTree.keys parts) as (p & Hp & Hin)%list_elem_of_fmap.
  { unfold parts. rewrite keys_enumerate. apply elem_of_count_from. unfold count, len in *. lia. }
  rewrite list.Forall_forall in Hall. specialize (Hall (chunk_of id count p)).
  assert (existsb BundleChunk.chunk_final cs = true); [|congruence]. apply existsb_exists.
  exists (chunk_of id count p). split; [apply list_elem_of_In, Hall, split_elem; eauto|]. simpl. lia.
Qed.

Lemma push_exact cs r c :
  Forall (.∈ split_bundle id payload) (cs ++ [c]) -> exact cs r ->
  exact (cs ++ [c]) (push r c).2 /\
  (push r c).1 = Ok (if decide (Forall (.∈ cs ++ [c]) (split_bundle id payload)) then Some payload else None).
Proof.
  intros Hall Hr. pose proof Hall as [Hcs [Hc _]%list.Forall_cons]%list.Forall_app.
  apply split_elem in Hc as (p & Hp & ->). destruct (part_bounds p Hp) as [Hi Hb].
  destruct (pieces_shape payload) as (_ & _ & _ & Hcount). specialize (Hcount Hmax). fold count in Hcount.
  pose proof (push_held id cs r (chunk_of id count p) (exact_held _ _ Hr)) as Hheld. revert Hheld.
  destruct (hold_exact cs r p Hcs Hr Hp) as (r' & Hhold & Hfin & Hin).
  unfold push. rewrite Hhold. cbn [chunk_of BundleChunk.bundle_id BundleChunk.chunk_index BundleChunk.payload BundleChunk.chunk_final].
  rewrite bool_decide_true by (by rewrite (held_id _ _ _ (exact_held _ _ Hr))). simpl negb. cbv iota.
  destruct (N.ltb_spec STREAM_CHUNK_SIZE (len p.2)); [lia|].
  destruct (N.ltb_spec (MAX_REASSEMBLY_BYTES / STREAM_CHUNK_SIZE) p.1); [lia|].
  rewrite Hfin, (exact_final _ _ Hr).
  assert ((p.1 + 1 =? count) && match (if existsb BundleChunk.chunk_final cs then Some (count - 1) else None) with
            Some prior => negb (prior =? p.1) | None => false end = false) as ->.
  { destruct (N.eqb_spec (p.1 + 1) count); [|done]. destruct (existsb _ _); [|done]. simpl. lia. }
  set (r2 := if p.1 + 1 =? count then _ else _). intros Hheld.
  assert (exact (cs ++ [chunk_of id count p]) r2) as Hr2.
  { split.
    - by destruct (final_index r2).
    - intros q. replace (chunks r2) with (chunks r') by (unfold r2; by destruct (_ =? _)).
      rewrite Hin, (exact_chunks _ _ Hr), elem_of_app, list_elem_of_singleton.
      split; (intros [?|Hq]; [by left|right]); [by subst q|by apply chunk_of_inj].
    - rewrite existsb_snoc. unfold r2. simpl. destruct (N.eqb_spec (p.1 + 1) count) as [He|].
      + rewrite orb_true_r. simpl. f_equal. lia.
      + by rewrite orb_false_r, Hfin, (exact_final _ _ Hr). }
  rewrite (exact_final _ _ Hr2) in *. destruct (existsb _ _) eqn:Ef.
  - split; [done|]. simpl. by rewrite (complete_exact _ _ Hall Hr2).
  - split; [done|]. simpl. by rewrite decide_False by (by apply not_complete).
Qed.

Lemma after_exact cs : Forall (.∈ split_bundle id payload) cs -> exact cs (after (new id) cs).
Proof.
  induction cs as [|c cs IH] using rev_ind; intros Hcs.
  - split; [apply after_held| |done]. simpl. intros q. by rewrite !elem_of_nil.
  - rewrite after_snoc. apply push_exact; [done|]. apply IH. by apply list.Forall_app in Hcs as [? _].
Qed.

End Bundle.
End Reassembly.

(** ** Properties *)

(** C23: The chunks of a bundle of at most 4 MiB put it together again whatever
    order they arrive in and however often: none is refused, and the envelope is
    handed out, unchanged, from the push on with which the last missing chunk
    arrives and not before. *)
Theorem bundle_reassembled id payload cs c :
  len payload <= MAX_REASSEMBLY_BYTES ->
  Forall (.∈ split_bundle id payload) (cs ++ [c]) ->
  (BundleReassembler.push (Reassembly.after (BundleReassembler.new id) cs) c).1 =
    Ok (if decide (Forall (.∈ cs ++ [c]) (split_bundle id payload)) then Some payload else None).
Proof.
  intros Hmax Hall. apply (Reassembly.push_exact id payload Hmax cs); [done|].
  apply Reassembly.after_exact; [done|]. by apply list.Forall_app in Hall as [? _].
Qed.

Lemma bundle_reassembled_witness :
  let id := [7; 7] in let c := BundleChunk.mk id 0 true [1; 2; 3] in
  Forall (.∈ split_bundle id [1; 2; 3]) ([c] ++ [c]) /\
  (BundleReassembler.push (Reassembly.after (BundleReassembler.new id) [c]) c).1 = Ok (Some [1; 2; 3]).
Proof.
  intros id c. assert (split_bundle id [1; 2; 3] = [c]) as Hs by (by vm_compute).
  assert (Forall (.∈ split_bundle id [1; 2; 3]) ([c] ++ [c])) as Hall
    by (rewrite Hs; repeat constructor).
  split; [done|]. rewrite (bundle_reassembled id [1; 2; 3] [c] c) by (done || by vm_compute).
  by rewrite decide_True by (rewrite Hs; repeat constructor).
Defined.

(** Whatever is pushed, also by an adversary, at most 4 MiB in at most 17
    chunks are held, and what is handed out is the concatenation of pieces
    pushed for this bundle under consecutive indices from zero on, the last of
    them under an index pushed as the final one. *)
Theorem reassembly_sound id cs c p :
  let r := Reassembly.after (BundleReassembler.new id) cs in
  (BundleReassembler.push r c).1 = Ok (Some p) ->
  len p <= MAX_REASSEMBLY_BYTES /\ len r.(BundleReassembler.chunks) <= 17 /\
  exists parts, p = concat parts /\
    (forall i b, parts !! i = Some b -> exists c', c' ∈ cs ++ [c] /\
       c'.(BundleChunk.bundle_id) = id /\ c'.(BundleChunk.chunk_index) = N.of_nat i /\
       c'.(BundleChunk.payload) = b) /\
    exists c', c' ∈ cs ++ [c] /\ c'.(BundleChunk.bundle_id) = id /\
       c'.(BundleChunk.chunk_final) = true /\ c'.(BundleChunk.chunk_index) + 1 = len parts.
Proof.
  intros r (f & Hf & [Hk ->]%Reassembly.complete_Some)%Reassembly.push_Some.
  pose proof (Reassembly.after_held id cs) as Hr. pose proof (Reassembly.push_held id cs _ c Hr) as Hh.
  fold r in Hr, Hh. set (r' := (BundleReassembler.push r c).2) in *. split_and!.
  - rewrite <- total_concat, <- (Reassembly.held_total _ _ _ Hh). apply Hh.
  - by apply (Reassembly.held_count id cs).
  - assert (forall i b, map snd r'.(BundleReassembler.chunks) !! i = Some b ->
                        (N.of_nat i, b) ∈ r'.(BundleReassembler.chunks)) as Hi.
    { by apply (Reassembly.numbered _ (N.to_nat (f + 1))). }
    exists (map snd r'.(BundleReassembler.chunks)). split_and!; [done| |].
    + intros i b Hb%Hi. by apply (Reassembly.held_pushed _ _ _ Hh).
    + destruct (Reassembly.held_final _ _ _ Hh f Hf) as (c' & Hc & Hid & Hi' & Hfin).
      exists c'. split_and!; [done..|]. rewrite Hi'. apply (f_equal length) in Hk. unfold BTree.keys in Hk.
      rewrite length_map, length_count_from in Hk. unfold len. rewrite length_map. lia.
Qed.

Lemma reassembly_sound_witness :
  let id := [7; 7] in let c0 := BundleChunk.mk id 0 false [1] in let c1 := BundleChunk.mk id 1 true [2; 3] in
  exists parts, [1; 2; 3] = concat parts /\ len parts = 2.
Proof.
  intros id c0 c1. destruct (reassembly_sound id [c1] c0 [1; 2; 3]) as (_ & _ & parts & Hp & _ & c' & Hin & _ & Hf & Hl);
    [by vm_compute|]. exists parts. split; [done|]. simpl in Hin.
  apply elem_of_cons in Hin as [->|Hin%list_elem_of_singleton]; [by rewrite <- Hl|]. subst c'. discriminate Hf.
Defined.

(** A chunk with an index above the final one is accepted, and then the
    bundle never completes: from the moment both are held no push ever hands
    out an envelope. *)
Theorem stray_chunk_blocks id cs0 f i b cs c p :
  let r := Reassembly.after (BundleReassembler.new id) cs0 in
  r.(BundleReassembler.final_index) = Some f -> (i, b) ∈ r.(BundleReassembler.chunks) -> f < i ->
  (BundleReassembler.push (Reassembly.after r cs) c).1 <> Ok (Some p).
Proof.
  intros r Hf Hin Hlt (f' & Hf' & [Hk _]%Reassembly.complete_Some)%Reassembly.push_Some.
  destruct (Reassembly.after_keeps id cs0 (cs ++ [c]) f i b Hf Hin) as [Hf2 Hin2].
  fold r in Hf2, Hin2. rewrite Reassembly.after_snoc in Hf2, Hin2. rewrite Hf2 in Hf'. injection Hf' as <-.
  apply (list_elem_of_fmap_2 fst) in Hin2. change (i ∈ BTree.keys (BundleReassembler.chunks
    (BundleReassembler.push (Reassembly.after r cs) c).2)) in Hin2.
  rewrite Hk in Hin2. apply elem_of_count_from in Hin2. lia.
Qed.

Lemma stray_chunk_blocks_witness :
  let id := [7; 7] in let stray := BundleChunk.mk id 1 false [9] in let c := BundleChunk.mk id 0 true [1; 2] in
  split_bundle id [1; 2] = [c] /\
  (BundleReassembler.push (Reassembly.after (BundleReassembler.new id) [stray]) c).1 = Ok None /\
  (BundleReassembler.push (Reassembly.after (Reassembly.after (BundleReassembler.new id) [stray; c]) []) c).1
    <> Ok (Some [1; 2]).
Proof.
  intros id stray c. split; [by vm_compute|]. split; [by vm_compute|].
  apply (stray_chunk_blocks id [stray; c] 0 1 [9]); [by vm_compute| |done].
  replace (BundleReassembler.chunks _) with [(0, [1; 2]); (1, [9])] by (by vm_compute).
  apply elem_of_cons. right. by apply list_elem_of_singleton.
Defined.
