(* ===== verification/Identity.v ===== *)
(** * Identities (crates/umc-crypto/src/signatures.rs, crates/umc-handshake/src/identity.rs)

    Identity and handshake keys, the binding of a handshake key to an identity,
    and the proof that an identity has changed its key.  Ed25519 and X25519 come
    from other crates: they are the class [Curves], and what the code relies on
    is the class [CurveLaws].  Bindings and proofs are read back as they were
    written, a signature covers every field of them, what is signed by the right
    keys is accepted, and what is accepted was signed. *)

From Stdlib Require Import Strings.String.
From S2P Require Import Prelude Codec Crypto.

Class Curves := {
  (** [SigningKey::from_bytes(seed).verifying_key()], [sign], and
      [VerifyingKey::from_bytes(key)] followed by [verify] *)
  ed25519_public : list u8 -> list u8;
  ed25519_sign : list u8 -> list u8 -> list u8;
  ed25519_verify : list u8 -> list u8 -> list u8 -> bool;
  (** [PublicKey::from(&secret)] and [diffie_hellman] *)
  x25519_public : list u8 -> list u8;
  x25519_shared : list u8 -> list u8 -> list u8
}.

Class CurveLaws `{Curves} : Prop := {
  ed25519_public_len s : len (ed25519_public s) = 32;
  ed25519_sign_len s m : len (ed25519_sign s m) = 64;
  ed25519_correct s m : ed25519_verify (ed25519_public s) m (ed25519_sign s m) = true;
  x25519_public_len s : len (x25519_public s) = 32;
  x25519_shared_len s p : len (x25519_shared s p) = 32;
  x25519_agree s t : x25519_shared s (x25519_public t) = x25519_shared t (x25519_public s)
}.

Definition SIGNATURE_LEN : usize := 64.
Definition PUBLIC_KEY_LEN : usize := 32.

(** Public keys are their bytes; a key pair is the seed it is made from. *)
Module IdentityKeyPair.
Record t := mk { seed : list u8 }.

Section Keys.
Context `{Curves}.
Definition public (k : t) : list u8 := ed25519_public k.(seed).
Definition sign (k : t) (message : list u8) : list u8 := ed25519_sign k.(seed) message.
End Keys.
End IdentityKeyPair.

Definition identity_verify `{Curves} (public message signature : list u8) : bool :=
  if negb (len signature =? SIGNATURE_LEN) then false else ed25519_verify public message signature.

Module StaticHandshakeKeyPair.
Record t := mk { secret : list u8 }.

Section Keys.
Context `{Curves}.
Definition public (k : t) : list u8 := x25519_public k.(secret).
Definition diffie_hellman (k : t) (peer : list u8) : list u8 := x25519_shared k.(secret) peer.
End Keys.
End StaticHandshakeKeyPair.

Definition BINDING_VERSION : u8 := 1.
Definition MAX_BINDING_SEQUENCE_GAP : u64 := 1000.
Definition IDENTITY_BINDING_WIRE_LEN : usize := 217.
Definition ROTATION_PROOF_VERSION : u8 := 1.
Definition MAX_ROTATION_PROOF_BYTES : usize := 512.

Definition endpoint_id `{Primitives} (identity_public_key : list u8) : list u8 :=
  blake2s (bstr "UMP-ENDPOINT-ID-v1" ++ identity_public_key).

Inductive BindingError :=
| Version
| EndpointIdMismatch
| BadSignature
| ValidityWindow
| StaleSequence.

Module IdentityBinding.

Record t := mk {
  version : u8;
  endpoint_id : list u8;
  identity_public_key : list u8;
  static_handshake_public_key : list u8;
  not_before : u64;
  not_after : u64;
  sequence : u64;
  capabilities_hash : list u8;
  signature : list u8
}.

Definition signed_bytes (b : t) : list u8 :=
  [b.(version)] ++ b.(endpoint_id) ++ b.(identity_public_key) ++ b.(static_handshake_public_key) ++
  to_be_bytes 8 b.(not_before) ++ to_be_bytes 8 b.(not_after) ++ to_be_bytes 8 b.(sequence) ++
  b.(capabilities_hash).

Section Binding.
Context `{Primitives, Curves}.

Definition signed_message (b : t) : list u8 := blake2s (bstr "UMP-IDENTITY-BINDING-v1" ++ signed_bytes b).

Definition sign (identity : IdentityKeyPair.t) (static_handshake_public_key : list u8)
    (not_before not_after sequence : u64) (capabilities_hash : list u8) : t :=
  let pub_key := IdentityKeyPair.public identity in
  let unsigned :=
    mk BINDING_VERSION (Identity.endpoint_id pub_key) pub_key static_handshake_public_key
       not_before not_after sequence capabilities_hash (zeros 64) in
  mk BINDING_VERSION (Identity.endpoint_id pub_key) pub_key static_handshake_public_key
     not_before not_after sequence capabilities_hash (IdentityKeyPair.sign identity (signed_message unsigned)).

Definition validate (b : t) (now skew_ms : u64) : Result BindingError unit :=
  if negb (b.(version) =? BINDING_VERSION) then Err Version
  else if negb (bool_decide (Identity.endpoint_id b.(identity_public_key) = b.(endpoint_id)))
  then Err EndpointIdMismatch
  else if negb (identity_verify b.(identity_public_key) (signed_message b) b.(signature))
  then Err BadSignature
  else if (saturating_add now skew_ms <? b.(not_before)) || (saturating_add b.(not_after) skew_ms <? now)
  then Err ValidityWindow
  else Ok tt.

End Binding.

Definition is_newer_than (b : t) (other_sequence : u64) : bool :=
  (other_sequence <? b.(sequence)) && (b.(sequence) - other_sequence <=? MAX_BINDING_SEQUENCE_GAP).

(** The sizes of the fields, which Rust's arrays and integers have by type. *)
Definition sized (b : t) : Prop :=
  b.(version) <= u8_max /\ len b.(endpoint_id) = 32 /\ len b.(identity_public_key) = 32 /\
  len b.(static_handshake_public_key) = 32 /\ b.(not_before) <= u64_max /\ b.(not_after) <= u64_max /\
  b.(sequence) <= u64_max /\ len b.(capabilities_hash) = 32 /\ len b.(signature) = 64.

End IdentityBinding.

(** The responder's reader of a binding (bins/umcd/src/handshake_responder.rs,
    [parse_client_binding]): fixed offsets in the canonical bytes. *)
Definition BINDING_SIGNED_LEN : usize := 153.

Definition parse_client_binding (bytes : list u8) : option IdentityBinding.t :=
  let read start n := get_range bytes start (start + n) in
  let be start := from_be_bytes <$> read start 8 in
  first ← read 0 1;
  version ← first !! 0%nat;
  endpoint_id ← read 1 32;
  identity_public_key ← read 33 32;
  static_handshake_public_key ← read 65 32;
  capabilities_hash ← read 121 32;
  signature ← read BINDING_SIGNED_LEN 64;
  not_before ← be 97;
  not_after ← be 105;
  sequence ← be 113;
  Some (IdentityBinding.mk version endpoint_id identity_public_key static_handshake_public_key
          not_before not_after sequence capabilities_hash signature).

Inductive RotationProofError :=
| RotationVersion
| InvalidKey
| EndpointMismatch
| BindingMismatch
| InvalidValidity
| NotYetValid
| Expired
| Sequence
| BadOldSignature
| BadNewSignature
| RotationTruncated
| TrailingBytes
| Oversized.

Module IdentityRotationProof.

Record t := mk {
  version : u8;
  old_identity_public_key : list u8;
  new_identity_public_key : list u8;
  old_endpoint_id : list u8;
  new_endpoint_id : list u8;
  old_static_handshake_public_key : list u8;
  new_static_handshake_public_key : list u8;
  old_binding_sequence : u64;
  new_binding_sequence : u64;
  created_at_ms : u64;
  expires_at_ms : u64;
  old_signature : list u8;
  new_signature : list u8
}.

Definition signed_bytes (p : t) : list u8 :=
  [p.(version)] ++ p.(old_identity_public_key) ++ p.(new_identity_public_key) ++
  p.(old_endpoint_id) ++ p.(new_endpoint_id) ++
  p.(old_static_handshake_public_key) ++ p.(new_static_handshake_public_key) ++
  to_be_bytes 8 p.(old_binding_sequence) ++ to_be_bytes 8 p.(new_binding_sequence) ++
  to_be_bytes 8 p.(created_at_ms) ++ to_be_bytes 8 p.(expires_at_ms).

Definition to_bytes (p : t) : Result RotationProofError (list u8) :=
  if MAX_ROTATION_PROOF_BYTES <? len (signed_bytes p) + 128 then Err Oversized
  else Ok (signed_bytes p ++ p.(old_signature) ++ p.(new_signature)).

Definition SIGNED_LEN : usize := 225.
Definition TOTAL_LEN : usize := 353.

(** [rotation_take] *)
Definition take_ (n : usize) : DecOf RotationProofError (list u8) := read_slice_or RotationTruncated n.

Definition number : DecOf RotationProofError u64 := b ← take_ 8; mret (from_be_bytes b).

Definition fields : DecOf RotationProofError t :=
  first ← take_ 1;
  old_identity_public_key ← take_ 32;
  new_identity_public_key ← take_ 32;
  old_endpoint_id ← take_ 32;
  new_endpoint_id ← take_ 32;
  old_static_handshake_public_key ← take_ 32;
  new_static_handshake_public_key ← take_ 32;
  old_binding_sequence ← number;
  new_binding_sequence ← number;
  created_at_ms ← number;
  expires_at_ms ← number;
  old_signature ← take_ 64;
  new_signature ← take_ 64;
  mret (mk (hd 0 first) old_identity_public_key new_identity_public_key old_endpoint_id new_endpoint_id
           old_static_handshake_public_key new_static_handshake_public_key old_binding_sequence
           new_binding_sequence created_at_ms expires_at_ms old_signature new_signature).

Definition from_bytes (bytes : list u8) : Result RotationProofError t :=
  if MAX_ROTATION_PROOF_BYTES <? len bytes then Err Oversized
  else if len bytes <? TOTAL_LEN then Err RotationTruncated
  else if negb (len bytes =? TOTAL_LEN) then Err TrailingBytes
  else '(p, _) ← fields bytes 0; Ok p.

Section Proof.
Context `{Primitives, Curves}.

Definition signed_message (p : t) : list u8 := blake2s (bstr "UMP-IDENTITY-ROTATION-v1" ++ signed_bytes p).

(** One binding is the one the proof names. *)
Definition names (b : IdentityBinding.t) (identity_key endpoint static_key : list u8) (sequence : u64) : bool :=
  bool_decide (b.(IdentityBinding.identity_public_key) = identity_key) &&
  bool_decide (b.(IdentityBinding.endpoint_id) = endpoint) &&
  bool_decide (b.(IdentityBinding.static_handshake_public_key) = static_key) &&
  (b.(IdentityBinding.sequence) =? sequence).

Definition validate_structure (p : t) (old_binding new_binding : IdentityBinding.t)
    : Result RotationProofError unit :=
  if negb (p.(version) =? ROTATION_PROOF_VERSION) then Err RotationVersion
  else if bool_decide (p.(old_identity_public_key) = zeros 32) ||
          bool_decide (p.(new_identity_public_key) = zeros 32) then Err InvalidKey
  else if negb (bool_decide (endpoint_id p.(old_identity_public_key) = p.(old_endpoint_id))) ||
          negb (bool_decide (endpoint_id p.(new_identity_public_key) = p.(new_endpoint_id)))
  then Err EndpointMismatch
  else if negb (names old_binding p.(old_identity_public_key) p.(old_endpoint_id)
                  p.(old_static_handshake_public_key) p.(old_binding_sequence)) ||
          negb (names new_binding p.(new_identity_public_key) p.(new_endpoint_id)
                  p.(new_static_handshake_public_key) p.(new_binding_sequence))
  then Err BindingMismatch
  else if p.(new_binding_sequence) <=? p.(old_binding_sequence) then Err Sequence
  else if p.(expires_at_ms) <=? p.(created_at_ms) then Err InvalidValidity
  else Ok tt.

Definition sign (old_identity : IdentityKeyPair.t) (old_binding : IdentityBinding.t)
    (new_identity : IdentityKeyPair.t) (new_binding : IdentityBinding.t)
    (created_at_ms expires_at_ms : u64) : Result RotationProofError t :=
  let proof old_signature new_signature :=
    mk ROTATION_PROOF_VERSION (IdentityKeyPair.public old_identity) (IdentityKeyPair.public new_identity)
       old_binding.(IdentityBinding.endpoint_id) new_binding.(IdentityBinding.endpoint_id)
       old_binding.(IdentityBinding.static_handshake_public_key)
       new_binding.(IdentityBinding.static_handshake_public_key)
       old_binding.(IdentityBinding.sequence) new_binding.(IdentityBinding.sequence)
       created_at_ms expires_at_ms old_signature new_signature in
  let unsigned := proof (zeros 64) (zeros 64) in
  _ ← validate_structure unsigned old_binding new_binding;
  _ ← map_err (fun _ => BindingMismatch) (IdentityBinding.validate old_binding created_at_ms 0);
  _ ← map_err (fun _ => BindingMismatch) (IdentityBinding.validate new_binding created_at_ms 0);
  let message := signed_message unsigned in
  Ok (proof (IdentityKeyPair.sign old_identity message) (IdentityKeyPair.sign new_identity message)).

Definition verify (p : t) (old_binding new_binding : IdentityBinding.t) (now_ms skew_ms : u64)
    : Result RotationProofError unit :=
  _ ← validate_structure p old_binding new_binding;
  _ ← map_err (fun _ => BindingMismatch) (IdentityBinding.validate old_binding p.(created_at_ms) skew_ms);
  _ ← map_err (fun _ => BindingMismatch) (IdentityBinding.validate new_binding p.(created_at_ms) skew_ms);
  if saturating_add now_ms skew_ms <? p.(created_at_ms) then Err NotYetValid
  else if saturating_add p.(expires_at_ms) skew_ms <? now_ms then Err Expired
  else
    let message := signed_message p in
    if negb (identity_verify p.(old_identity_public_key) message p.(old_signature)) then Err BadOldSignature
    else if negb (identity_verify p.(new_identity_public_key) message p.(new_signature)) then Err BadNewSignature
    else Ok tt.

End Proof.

(** The sizes Rust's arrays and integers have by type. *)
Definition sized (p : t) : Prop :=
  p.(version) <= u8_max /\
  len p.(old_identity_public_key) = 32 /\ len p.(new_identity_public_key) = 32 /\
  len p.(old_endpoint_id) = 32 /\ len p.(new_endpoint_id) = 32 /\
  len p.(old_static_handshake_public_key) = 32 /\ len p.(new_static_handshake_public_key) = 32 /\
  p.(old_binding_sequence) <= u64_max /\ p.(new_binding_sequence) <= u64_max /\
  p.(created_at_ms) <= u64_max /\ p.(expires_at_ms) <= u64_max /\
  len p.(old_signature) = 64 /\ len p.(new_signature) = 64.

End IdentityRotationProof.

(** ** Reading back *)

Lemma get_range_is {A} (l pre k post : list A) lo hi :
  l = pre ++ k ++ post -> lo = len pre -> hi = lo + len k -> get_range l lo hi = Some k.
Proof. intros -> -> ->. by apply get_range_app. Qed.

#[local] Arguments to_be_bytes : simpl never.

Ltac field_at l lo n pre k post :=
  rewrite (get_range_is l pre k post lo (lo + n));
  [cbn [mbind option_bind fmap option_fmap option_map lookup list_lookup]
  |subst l; rewrite ?app_nil_r, <- ?app_assoc; reflexivity
  |autorewrite with umc; lia
  |autorewrite with umc; lia].

Lemma binding_parse b :
  IdentityBinding.sized b ->
  parse_client_binding (IdentityBinding.signed_bytes b ++ b.(IdentityBinding.signature)) = Some b.
Proof.
  destruct b as [v e i s nb na sq c sg]. intros (Hv & He & Hi & Hs & Hnb & Hna & Hsq & Hc & Hsg); simpl in *.
  unfold IdentityBinding.signed_bytes; simpl.
  set (n1 := to_be_bytes 8 nb) in *. set (n2 := to_be_bytes 8 na) in *. set (n3 := to_be_bytes 8 sq) in *.
  set (l := _ :: _).
  assert (len n1 = 8 /\ len n2 = 8 /\ len n3 = 8) as (H1 & H2 & H3) by (unfold n1, n2, n3; by rewrite !len_to_be_bytes).
  unfold parse_client_binding, BINDING_SIGNED_LEN.
  field_at l 0 1 (@nil u8) [v] (e ++ i ++ s ++ n1 ++ n2 ++ n3 ++ c ++ sg).
  field_at l 1 32 [v] e (i ++ s ++ n1 ++ n2 ++ n3 ++ c ++ sg).
  field_at l 33 32 ([v] ++ e) i (s ++ n1 ++ n2 ++ n3 ++ c ++ sg).
  field_at l 65 32 ([v] ++ e ++ i) s (n1 ++ n2 ++ n3 ++ c ++ sg).
  field_at l 121 32 ([v] ++ e ++ i ++ s ++ n1 ++ n2 ++ n3) c sg.
  field_at l 153 64 ([v] ++ e ++ i ++ s ++ n1 ++ n2 ++ n3 ++ c) sg (@nil u8).
  field_at l 97 8 ([v] ++ e ++ i ++ s) n1 (n2 ++ n3 ++ c ++ sg).
  field_at l 105 8 ([v] ++ e ++ i ++ s ++ n1) n2 (n3 ++ c ++ sg).
  field_at l 113 8 ([v] ++ e ++ i ++ s ++ n1 ++ n2) n3 (c ++ sg).
  unfold n1, n2, n3. by rewrite !from_to_be_bytes by (simpl; unfold u64_max in *; lia).
Qed.

Lemma signed_bytes_inj b b' :
  IdentityBinding.sized b -> IdentityBinding.sized b' ->
  IdentityBinding.signed_bytes b = IdentityBinding.signed_bytes b' ->
  b.(IdentityBinding.signature) = b'.(IdentityBinding.signature) -> b = b'.
Proof.
  intros Hb Hb' Hs Hg. apply binding_parse in Hb, Hb'. rewrite Hs, Hg, Hb' in Hb. by injection Hb.
Qed.

Lemma len_signed_bytes b :
  IdentityBinding.sized b -> len (IdentityBinding.signed_bytes b) = BINDING_SIGNED_LEN.
Proof.
  intros (? & ? & ? & ? & ? & ? & ? & ? & ?). unfold IdentityBinding.signed_bytes, BINDING_SIGNED_LEN.
  autorewrite with umc. lia.
Qed.

Section Signing.
Context `{Primitives, !PrimitiveLaws, Curves, !CurveLaws}.

Lemma identity_verify_sign k m : identity_verify (IdentityKeyPair.public k) m (IdentityKeyPair.sign k m) = true.
Proof. unfold identity_verify, IdentityKeyPair.sign, IdentityKeyPair.public. by rewrite ed25519_sign_len, ed25519_correct. Qed.

Lemma binding_sign_sized k spk nb na sq caps :
  len spk = 32 -> nb <= u64_max -> na <= u64_max -> sq <= u64_max -> len caps = 32 ->
  IdentityBinding.sized (IdentityBinding.sign k spk nb na sq caps).
Proof.
  intros. unfold IdentityBinding.sized. simpl. split_and!; try done.
  - unfold endpoint_id. apply blake2s_len.
  - apply ed25519_public_len.
  - apply ed25519_sign_len.
Qed.

Lemma binding_sign_validate k spk nb na sq caps now skew :
  IdentityBinding.validate (IdentityBinding.sign k spk nb na sq caps) now skew =
  if (saturating_add now skew <? nb) || (saturating_add na skew <? now) then Err ValidityWindow else Ok tt.
Proof.
  unfold IdentityBinding.validate. simpl. rewrite bool_decide_true by done. simpl.
  pose proof (identity_verify_sign k (IdentityBinding.signed_message (IdentityBinding.sign k spk nb na sq caps))) as Hv.
  change (IdentityBinding.signed_message (IdentityBinding.sign k spk nb na sq caps)) with
    (IdentityBinding.signed_message (IdentityBinding.mk BINDING_VERSION (endpoint_id (IdentityKeyPair.public k))
       (IdentityKeyPair.public k) spk nb na sq caps (zeros 64))) in *.
  by rewrite Hv.
Qed.

End Signing.

(** *** Rotation proofs *)

Lemma reads_slice_or {Er} (err : Er) s n : n = len s -> reads (read_slice_or err n) s s.
Proof.
  intros Hn. destruct (codec_slice_or err s n Hn [] s eq_refl) as (bs & Heq & Hr). simpl in Heq. by subst bs.
Qed.

Lemma reads_number v : v <= u64_max -> reads IdentityRotationProof.number (to_be_bytes 8 v) v.
Proof.
  intros Hv. rewrite <- (app_nil_r (to_be_bytes 8 v)). eapply reads_bind; [apply reads_slice_or; by rewrite len_to_be_bytes|].
  rewrite from_to_be_bytes by (simpl; unfold u64_max in *; lia). apply reads_ret.
Qed.

Lemma rotation_fields p :
  IdentityRotationProof.sized p ->
  reads IdentityRotationProof.fields
    (IdentityRotationProof.signed_bytes p ++ p.(IdentityRotationProof.old_signature) ++
     p.(IdentityRotationProof.new_signature)) p.
Proof.
  intros (? & ? & ? & ? & ? & ? & ? & ? & ? & ? & ? & ? & ?).
  unfold IdentityRotationProof.signed_bytes. rewrite <- !app_assoc.
  unfold IdentityRotationProof.fields, IdentityRotationProof.take_.
  rewrite <- (app_nil_r (IdentityRotationProof.new_signature p)).
  repeat (eapply reads_bind; [first [by apply reads_number | by apply reads_slice_or]|]; cbv beta).
  destruct p. apply reads_ret.
Qed.

Lemma rotation_from_to p bytes :
  IdentityRotationProof.sized p -> IdentityRotationProof.to_bytes p = Ok bytes ->
  IdentityRotationProof.from_bytes bytes = Ok p.
Proof.
  intros Hp. pose proof (rotation_fields p Hp) as Hr. destruct Hp as (? & ? & ? & ? & ? & ? & ? & ? & ? & ? & ? & ? & ?).
  unfold IdentityRotationProof.to_bytes. destruct (_ <? _); [done|]. intros <-%(inj Ok).
  set (bytes := _ ++ _ ++ _) in *.
  assert (len bytes = 353) as Hl.
  { unfold bytes, IdentityRotationProof.signed_bytes. autorewrite with umc. lia. }
  unfold IdentityRotationProof.from_bytes. rewrite Hl.
  pose proof (reads_start _ bytes [] p Hr) as Hs. rewrite app_nil_r in Hs. rewrite Hs by (rewrite Hl; done). done.
Qed.

Section Rotation.
Context `{Primitives, !PrimitiveLaws, Curves, !CurveLaws}.
Import IdentityRotationProof.

(** Structure and signed message do not look at the signatures. *)
Lemma validate_structure_signatures v a b c d e f g h i j s1 s2 s3 s4 old new :
  validate_structure (mk v a b c d e f g h i j s1 s2) old new =
  validate_structure (mk v a b c d e f g h i j s3 s4) old new.
Proof. done. Qed.

Lemma validate_earlier b t skew :
  IdentityBinding.validate b t 0 = Ok tt -> IdentityBinding.validate b t skew = Ok tt.
Proof.
  unfold IdentityBinding.validate. destruct (negb _); [done|]. destruct (negb _); [done|]. destruct (negb _); [done|].
  unfold saturating_add. intros Hv. destruct (_ || _) eqn:E1 in Hv; [done|]. apply orb_false_iff in E1 as [E1 E2].
  destruct (_ || _) eqn:E3; [|done]. exfalso. unfold u64_max in *. lia.
Qed.

Lemma sign_verifies old_identity old_binding new_identity new_binding created expires p now skew :
  sign old_identity old_binding new_identity new_binding created expires = Ok p ->
  created <= now <= expires -> now <= u64_max -> verify p old_binding new_binding now skew = Ok tt.
Proof.
  intros ([] & Hstruct & ([] & Ho%map_err_Ok & ([] & Hn%map_err_Ok & <-%(inj Ok))%bind_Ok)%bind_Ok)%bind_Ok Hnow Hmax.
  unfold verify. rewrite (validate_structure_signatures _ _ _ _ _ _ _ _ _ _ _ _ _ (zeros 64) (zeros 64)), Hstruct.
  cbn [mbind Result_bind created_at_ms expires_at_ms old_identity_public_key new_identity_public_key
       old_signature new_signature].
  rewrite (validate_earlier _ _ skew Ho), (validate_earlier _ _ skew Hn). simpl.
  unfold saturating_add. destruct (N.ltb_spec (N.min (now + skew) u64_max) created); [lia|].
  destruct (N.ltb_spec (N.min (expires + skew) u64_max) now); [lia|].
  match goal with |- context [signed_message ?p] => set (m := signed_message p) end.
  match goal with |- context [IdentityKeyPair.sign old_identity ?m'] => change m' with m end.
  by rewrite !identity_verify_sign.
Qed.

Lemma verify_increases p old_binding new_binding now skew :
  verify p old_binding new_binding now skew = Ok tt ->
  old_binding.(IdentityBinding.sequence) < new_binding.(IdentityBinding.sequence).
Proof.
  intros ([] & Hs & _)%bind_Ok. revert Hs. unfold validate_structure.
  destruct (negb _); [done|]. destruct (_ || _); [done|]. destruct (_ || _); [done|].
  destruct (_ || _) eqn:En; [done|]. apply orb_false_iff in En as [E1 E2]. rewrite negb_false_iff in E1, E2.
  unfold names in *. rewrite !andb_true_iff in *. destruct (N.leb_spec (new_binding_sequence p) (old_binding_sequence p)); [done|]. lia.
Qed.

End Rotation.

(** ** A concrete instance *)

Definition toy_pad (n : nat) (s : list u8) : list u8 := take n (s ++ zeros n).

Lemma toy_pad_len n s : len (toy_pad n s) = N.of_nat n.
Proof. unfold toy_pad, zeros, len. rewrite length_take, length_app, length_replicate. lia. Qed.

Lemma lxor_zip_comm l k : zip_with N.lxor l k = zip_with N.lxor k l.
Proof. revert k. induction l as [|x l IH]; intros [|y k]; simpl; [done..|]. by rewrite N.lxor_comm, IH. Qed.

#[global] Instance toy_curves : Curves := {|
  ed25519_public s := toy_pad 32 s;
  ed25519_sign s m := toy_pad 32 s ++ toy_pad 32 m;
  ed25519_verify p m sg := bool_decide (sg = p ++ toy_pad 32 m);
  x25519_public s := toy_pad 32 s;
  x25519_shared s p := toy_pad 32 (zip_with N.lxor (toy_pad 32 s) p)
|}.

#[global] Instance toy_curve_laws : CurveLaws.
Proof.
  split; simpl; intros; rewrite ?len_app, ?toy_pad_len; try done.
  - by apply bool_decide_true.
  - by rewrite lxor_zip_comm.
Qed.

(** ** Properties *)

(** A signature on a binding covers all of it: two bindings with the same
    signed message agree in every field, or the two texts that are signed differ
    and have one BLAKE2s digest; and the bytes of a binding are read back as it. *)
Theorem binding_signature_covers `{Primitives, Curves} b b' :
  IdentityBinding.sized b -> IdentityBinding.sized b' ->
  parse_client_binding (IdentityBinding.signed_bytes b ++ b.(IdentityBinding.signature)) = Some b /\
  (IdentityBinding.signed_message b = IdentityBinding.signed_message b' ->
   b.(IdentityBinding.signature) = b'.(IdentityBinding.signature) ->
   b = b' \/ let text b := bstr "UMP-IDENTITY-BINDING-v1" ++ IdentityBinding.signed_bytes b in
             text b <> text b' /\ blake2s (text b) = blake2s (text b')).
Proof.
  intros Hb Hb'. split; [by apply binding_parse|]. intros Hm Hs. unfold IdentityBinding.signed_message in Hm.
  destruct (decide (IdentityBinding.signed_bytes b = IdentityBinding.signed_bytes b')) as [He|Hne].
  - left. by apply signed_bytes_inj.
  - right. split; [|exact Hm]. intros ?%app_inv_head. done.
Qed.

Definition sample_identity : IdentityKeyPair.t := IdentityKeyPair.mk [1; 2; 3].
Definition sample_binding : IdentityBinding.t := IdentityBinding.sign sample_identity (zeros 32) 0 1000 0 (zeros 32).
Definition sample_new_identity : IdentityKeyPair.t := IdentityKeyPair.mk [4; 5; 6].
Definition sample_new_binding : IdentityBinding.t :=
  IdentityBinding.sign sample_new_identity (zeros 32) 0 1000 1 (zeros 32).

Lemma binding_signature_covers_witness :
  parse_client_binding (IdentityBinding.signed_bytes sample_binding ++ sample_binding.(IdentityBinding.signature))
    = Some sample_binding.
Proof.
  refine (proj1 (binding_signature_covers sample_binding sample_binding _ _));
    by apply binding_sign_sized.
Defined.

(** A rotation proof made by the old and the new identity is accepted for
    the two bindings during its whole interval, with whatever clock skew is
    tolerated, and its bytes are read back as it. *)
Theorem rotation_accepted `{Primitives, !PrimitiveLaws, Curves, !CurveLaws}
    old_identity old_binding new_identity new_binding created expires p now skew :
  IdentityBinding.sized old_binding -> IdentityBinding.sized new_binding ->
  created <= u64_max -> expires <= u64_max ->
  IdentityRotationProof.sign old_identity old_binding new_identity new_binding created expires = Ok p ->
  created <= now <= expires ->
  IdentityRotationProof.verify p old_binding new_binding now skew = Ok tt /\
  exists bytes, IdentityRotationProof.to_bytes p = Ok bytes /\ len bytes = 353 /\
    IdentityRotationProof.from_bytes bytes = Ok p.
Proof.
  intros Ho Hn Hc He Hs Hnow. split; [apply (sign_verifies _ _ _ _ _ _ _ _ _ Hs Hnow); lia|].
  assert (IdentityRotationProof.sized p) as Hp.
  { apply bind_Ok in Hs as ([] & _ & ([] & _ & ([] & _ & <-%(inj Ok))%bind_Ok)%bind_Ok).
    destruct Ho as (_ & ? & ? & ? & _ & _ & ? & _), Hn as (_ & ? & ? & ? & _ & _ & ? & _).
    repeat split; simpl; try done; first [apply ed25519_public_len | apply ed25519_sign_len]. }
  assert (len (IdentityRotationProof.signed_bytes p) = 225) as Hl.
  { destruct Hp as (? & ? & ? & ? & ? & ? & ? & ? & ? & ? & ? & ? & ?).
    unfold IdentityRotationProof.signed_bytes. autorewrite with umc. lia. }
  assert (exists bytes, IdentityRotationProof.to_bytes p = Ok bytes) as [bytes Hb].
  { unfold IdentityRotationProof.to_bytes. rewrite Hl. by eexists. }
  exists bytes. split_and!; [done| |by apply rotation_from_to].
  unfold IdentityRotationProof.to_bytes in Hb. rewrite Hl in Hb. apply (inj Ok) in Hb as <-.
  rewrite !len_app, Hl. destruct Hp as (_ & _ & _ & _ & _ & _ & _ & _ & _ & _ & _ & -> & ->). done.
Qed.

Lemma rotation_accepted_witness :
  exists p, IdentityRotationProof.sign sample_identity sample_binding sample_new_identity sample_new_binding 5 10 = Ok p /\
    IdentityRotationProof.verify p sample_binding sample_new_binding 7 0 = Ok tt.
Proof.
  eexists. split; [vm_compute; reflexivity|].
  apply (rotation_accepted sample_identity sample_binding sample_new_identity sample_new_binding 5 10 _ 7 0);
    [by apply binding_sign_sized|by apply binding_sign_sized|done|done|vm_compute; reflexivity|done].
Defined.

(** A chain of accepted rotations never comes back: the sequence numbers of
    its bindings are pairwise different. *)
Theorem rotation_chain_acyclic `{Primitives, Curves} (bs : list IdentityBinding.t) :
  (forall i b b', bs !! i = Some b -> bs !! S i = Some b' ->
     exists p now skew, IdentityRotationProof.verify p b b' now skew = Ok tt) ->
  NoDup (map IdentityBinding.sequence bs).
Proof.
  intros Hrot.
  assert (forall i j b b', bs !! i = Some b -> bs !! (i + S j)%nat = Some b' ->
            b.(IdentityBinding.sequence) < b'.(IdentityBinding.sequence)) as Hlt.
  { intros i j. revert i. induction j as [|j IH]; intros i b b' Hi Hj.
    - rewrite Nat.add_1_r in Hj. destruct (Hrot i b b' Hi Hj) as (p & now & skew & Hv). by apply verify_increases in Hv.
    - assert (is_Some (bs !! (i + S j)%nat)) as [c Hc].
      { apply lookup_lt_is_Some. apply lookup_lt_Some in Hj. lia. }
      specialize (IH i b c Hi Hc). replace (i + S (S j))%nat with (S (i + S j)) in Hj by lia.
      destruct (Hrot _ c b' Hc Hj) as (p & now & skew & Hv). apply verify_increases in Hv. lia. }
  apply NoDup_alt. intros i j x Hi Hj.
  rewrite list_lookup_fmap in Hi, Hj. destruct (bs !! i) as [b|] eqn:Eb, (bs !! j) as [c|] eqn:Ec; try done.
  injection Hi as <-. injection Hj as Hx. destruct (Nat.lt_total i j) as [Hl|[->|Hl]]; [|done|].
  - pose proof (Hlt i (j - i - 1)%nat b c Eb) as H'. replace (i + S (j - i - 1))%nat with j in H' by lia. specialize (H' Ec). lia.
  - pose proof (Hlt j (i - j - 1)%nat c b Ec) as H'. replace (j + S (i - j - 1))%nat with i in H' by lia. specialize (H' Eb). lia.
Qed.

Lemma rotation_chain_acyclic_witness : NoDup (map IdentityBinding.sequence [sample_binding; sample_new_binding]).
Proof.
  apply rotation_chain_acyclic. intros [|[|i]] b b' Hb Hb'; simpl in *; try done.
  injection Hb as <-. injection Hb' as <-.
  assert (exists p, IdentityRotationProof.sign sample_identity sample_binding sample_new_identity sample_new_binding 5 10 = Ok p)
    as [p Hp] by (eexists; vm_compute; reflexivity).
  exists p, 7, 0. by apply (sign_verifies _ _ _ _ _ _ _ 7 0 Hp).
Defined.
