(* ===== verification/HandshakeMessages.v ===== *)
(** * Handshake messages (crates/umc-handshake/src/encoding.rs, transcript.rs, xx.rs)

    The framing of handshake messages, the transcript hash over them, the two
    hello messages with the negotiation of versions, capabilities, privacy
    profiles and realms, and the Version-Negotiation packet.  Messages are read
    back as they were written, and a transcript hash determines the messages it
    was computed over unless two inputs of BLAKE2s with the same digest are at
    hand. *)

From Stdlib Require Import Strings.String.
From S2P Require Import Prelude Codec Varint WireBytes Header Records Crypto Identity.

(** How a handshake step fails: with a message (the fixed part of a formatted
    one), or with a panic of an [expect]. *)
Inductive Failure :=
| Message (s : string)
| Panic.

Abbreviation message s := (fun _ => Message s).

(** ** Framing *)

Module Encoding.

Definition CLIENT_HELLO : u64 := 0.
Definition SERVER_HELLO : u64 := 1.
Definition CLIENT_AUTH : u64 := 2.
Definition SERVER_FINISHED : u64 := 3.
Definition CLIENT_FINISHED : u64 := 4.

Definition MAX_HANDSHAKE_MESSAGE : usize := 16384.

Inductive EncodeError := MessageTooLarge | VarintError.
Inductive DecodeError := DecodeTruncated | DecodeTooLarge | DecodeVarint.

Record DecodedMessage := mk { message_type : u64; body : list u8 }.

Definition encode_message (ty : u64) (body : list u8) : EncOf EncodeError :=
  refuse (MAX_HANDSHAKE_MESSAGE <? len body) MessageTooLarge >>>
  put_varint_or (fun _ => VarintError) ty >>>
  put_varint_or (fun _ => VarintError) (len body) >>>
  put_slice body.

Definition message_encoded_len (ty : u64) (body : list u8) : Result EncodeError usize :=
  scratch ← encode_message ty body [];
  Ok (len scratch).

Definition decode_at : DecOf DecodeError DecodedMessage :=
  ty ← read_varint_or (fun _ => DecodeVarint);
  l ← read_varint_or (fun _ => DecodeVarint);
  fail_if (MAX_HANDSHAKE_MESSAGE <? l) DecodeTooLarge;;
  body ← read_slice_or DecodeTruncated l;
  mret (mk ty body).

Definition decode_message (buf : list u8) : Result DecodeError (DecodedMessage * usize) := decode_at buf 0.

End Encoding.

(** ** Transcript *)

Module Transcript.

Definition MAX_TRANSCRIPT : usize := 65536.

Inductive error := TranscriptTooLarge | EncodingError.

Record t := mk { hash : list u8; total_bytes : usize }.

Section Transcript.
Context `{Primitives}.

Definition new (mode crypto_profile carrier_binding : list u8) : t :=
  mk (blake2s (bstr "UMP-HANDSHAKE-v1" ++ mode ++ crypto_profile ++ carrier_binding)) 0.

Definition from_encode_error (e : Encoding.EncodeError) : error :=
  match e with
  | Encoding.MessageTooLarge => TranscriptTooLarge
  | Encoding.VarintError => EncodingError
  end.

Definition update_message (t : t) (ty : u64) (body : list u8) : Result error Transcript.t :=
  type_len ← map_err from_encode_error (Encoding.message_encoded_len ty body);
  if MAX_TRANSCRIPT <? t.(total_bytes) + type_len then Err TranscriptTooLarge
  else
    scratch ← map_err (fun _ => EncodingError) (Encoding.encode_message ty body []);
    Ok (mk (blake2s (t.(hash) ++ scratch)) (t.(total_bytes) + type_len)).

Definition update_bytes (t : t) (bytes : list u8) : Transcript.t :=
  mk (blake2s (t.(hash) ++ bytes)) (t.(total_bytes) + len bytes).

End Transcript.
End Transcript.

(** ** Profiles, versions and capabilities *)

Definition CRYPTO_PROFILE : list u8 := bstr "UMP-CRYPTO-1".
Definition MODE_XX : list u8 := bstr "XX".
Definition MODE_IK : list u8 := bstr "IK".
Definition MODE_PSK_XX : list u8 := bstr "PSK-XX".
Definition SUPPORTED_PROTOCOL_VERSION : u32 := 1.
Definition MAX_SUPPORTED_PARAMETERS : usize := 16.
Definition MAX_SUPPORTED_PRIVACY_PROFILE : list u8 := bstr "p3".
Definition DEFAULT_MINIMUM_PRIVACY_PROFILE : list u8 := bstr "p0".
Definition CLIENT_REALM_MARKER_OFFSET : usize := 32.
Definition SERVER_REALM_MARKER_OFFSET : usize := 64.
Definition REALM_MARKER_LEN : usize := 32.

Definition privacy_profile_level (profile : list u8) : option u8 :=
  if decide (profile = bstr "p0") then Some 0
  else if decide (profile = bstr "p1") then Some 1
  else if decide (profile = bstr "p2") then Some 2
  else if decide (profile = bstr "p3") then Some 3
  else None.

Definition select_version (offered : list u32) : option u32 :=
  if decide (SUPPORTED_PROTOCOL_VERSION ∈ offered) then Some SUPPORTED_PROTOCOL_VERSION else None.

Definition CANONICAL_CAPABILITY_IDS : list (list u8) :=
  [bstr "stream"; bstr "datagram"; bstr "relay"; bstr "bundle"; bstr "route"; bstr "mobility"; bstr "privacy=p3"].

Definition canonical_capabilities_with_extra (minimum_privacy : option (list u8)) : Result Failure (list u8) :=
  let extra := match minimum_privacy with Some _ => 1 | None => 0 end in
  (put_slice (bstr "UMP-CAPABILITIES-v1") >>>
   put_varint_or (fun _ => Panic) (len CANONICAL_CAPABILITY_IDS + extra) >>>
   put_all (fun id => put_bytes_or Panic id 64) CANONICAL_CAPABILITY_IDS >>>
   match minimum_privacy with
   | Some minimum_privacy => put_bytes_or Panic (bstr "privacy-min=" ++ minimum_privacy) 64
   | None => fun out => Ok out
   end) [].

Section Capabilities.
Context `{Primitives}.

Definition capabilities_hash (caps : list u8) : list u8 := blake2s caps.

(** [capabilities_hash(&canonical_capabilities())] *)
Definition canonical_hash : Result Failure (list u8) :=
  caps ← canonical_capabilities_with_extra None; Ok (capabilities_hash caps).

Definition capabilities_hash_for_minimum_privacy (minimum_privacy : list u8) : Result Failure (list u8) :=
  caps ← canonical_capabilities_with_extra (Some minimum_privacy); Ok (capabilities_hash caps).

End Capabilities.

(** ** The hello messages *)

Inductive HelloError :=
| HelloVarint
| HelloBytes
| HelloTruncated
| TooManyParameters
| Unsupported.

(** [x as u32] *)
Definition as_u32 (x : u64) : u32 := x mod 4294967296.

Definition put_number (v : u64) : EncOf HelloError := put_varint_or (fun _ => HelloVarint) v.
Definition put_field (v : list u8) (limit : usize) : EncOf HelloError := put_bytes_or HelloBytes v limit.
Definition read_number : DecOf HelloError u64 := read_varint_or (fun _ => HelloVarint).
Definition read_field (limit : usize) : DecOf HelloError (list u8) := read_bytes_or HelloBytes limit.
Definition read_array (n : usize) : DecOf HelloError (list u8) := read_slice_or HelloTruncated n.

(** A counted list of at most sixteen parameters. *)
Definition put_list {A} (put : A -> EncOf HelloError) (l : list A) : EncOf HelloError :=
  put_number (len l) >>> put_all put l.
Definition read_list {A} (read : DecOf HelloError A) : DecOf HelloError (list A) :=
  count ← read_number;
  fail_if (MAX_SUPPORTED_PARAMETERS <? count) TooManyParameters;;
  read_n (N.to_nat count) read.

Module ClientHello.

Record t := mk {
  version : u32;
  client_random : list u8;
  client_ephemeral_public_key : list u8;
  supported_crypto_profiles : list (list u8);
  supported_handshake_modes : list (list u8);
  supported_protocol_versions : list u32;
  capabilities_hash : list u8;
  minimum_privacy : list u8;
  destination_hint : list u8;
  retry_token : list u8;
  invitation_authenticator : list u8;
  padding : list u8
}.

Section Hello.
Context `{Primitives, Curves}.

(** [client_random] is what the entropy source fills in. *)
Definition new_with_minimum_privacy (client_random : list u8) (ephemeral : StaticHandshakeKeyPair.t)
    (minimum_privacy : list u8) : Result Failure t :=
  caps ← capabilities_hash_for_minimum_privacy minimum_privacy;
  Ok (mk 1 client_random (StaticHandshakeKeyPair.public ephemeral) [CRYPTO_PROFILE] [MODE_XX]
        [SUPPORTED_PROTOCOL_VERSION] caps minimum_privacy [] [] [] (zeros 64)).

Definition new (client_random : list u8) (ephemeral : StaticHandshakeKeyPair.t) : Result Failure t :=
  new_with_minimum_privacy client_random ephemeral DEFAULT_MINIMUM_PRIVACY_PROFILE.

End Hello.

Definition minimum_privacy_level (h : t) : option u8 := privacy_profile_level h.(minimum_privacy).

Definition put (h : t) : EncOf HelloError :=
  put_number h.(version) >>>
  put_slice h.(client_random) >>>
  put_slice h.(client_ephemeral_public_key) >>>
  put_list (fun p => put_field p 64) h.(supported_crypto_profiles) >>>
  put_list (fun m => put_field m 64) h.(supported_handshake_modes) >>>
  put_list put_number h.(supported_protocol_versions) >>>
  put_slice h.(capabilities_hash) >>>
  put_field h.(minimum_privacy) 8 >>>
  put_field h.(destination_hint) 512 >>>
  put_field h.(retry_token) 1024 >>>
  put_field h.(invitation_authenticator) 64 >>>
  put_field h.(padding) 4096.

Definition encode (h : t) : Result HelloError (list u8) := put h [].

Definition body : DecOf HelloError t :=
  version ← read_number;
  client_random ← read_array 32;
  client_ephemeral_public_key ← read_array 32;
  supported_crypto_profiles ← read_list (read_field 64);
  supported_handshake_modes ← read_list (read_field 64);
  supported_protocol_versions ← read_list (v ← read_number; mret (as_u32 v));
  capabilities_hash ← read_array 32;
  minimum_privacy ← read_field 8;
  destination_hint ← read_field 512;
  retry_token ← read_field 1024;
  invitation_authenticator ← read_field 64;
  padding ← read_field 4096;
  mret (mk (as_u32 version) client_random client_ephemeral_public_key supported_crypto_profiles
          supported_handshake_modes supported_protocol_versions capabilities_hash minimum_privacy
          destination_hint retry_token invitation_authenticator padding).

Definition decode (bytes : list u8) : Result HelloError t :=
  '(h, _) ← body bytes 0; Ok h.

(** The sizes Rust's arrays and integers have by type, and lists of at most
    sixteen parameters. *)
Definition sized (h : t) : Prop :=
  h.(version) <= u32_max /\ len h.(client_random) = 32 /\ len h.(client_ephemeral_public_key) = 32 /\
  len h.(supported_crypto_profiles) <= MAX_SUPPORTED_PARAMETERS /\
  len h.(supported_handshake_modes) <= MAX_SUPPORTED_PARAMETERS /\
  len h.(supported_protocol_versions) <= MAX_SUPPORTED_PARAMETERS /\
  Forall (fun v => v <= u32_max) h.(supported_protocol_versions) /\ len h.(capabilities_hash) = 32.

End ClientHello.

Module ServerHello.

Record t := mk {
  server_random : list u8;
  server_ephemeral_public_key : list u8;
  selected_protocol_version : u32;
  selected_crypto_profile : list u8;
  selected_handshake_mode : list u8;
  encrypted_server_authentication : list u8;
  padding : list u8
}.

Definition put (h : t) : EncOf HelloError :=
  put_slice h.(server_random) >>>
  put_slice h.(server_ephemeral_public_key) >>>
  put_number h.(selected_protocol_version) >>>
  put_field h.(selected_crypto_profile) 64 >>>
  put_field h.(selected_handshake_mode) 64 >>>
  put_field h.(encrypted_server_authentication) 8192 >>>
  put_field h.(padding) 4096.

Definition encode (h : t) : Result HelloError (list u8) := put h [].

Definition body : DecOf HelloError t :=
  server_random ← read_array 32;
  server_ephemeral_public_key ← read_array 32;
  selected_protocol_version ← read_number;
  selected_crypto_profile ← read_field 64;
  selected_handshake_mode ← read_field 64;
  encrypted_server_authentication ← read_field 8192;
  padding ← read_field 4096;
  mret (mk server_random server_ephemeral_public_key (as_u32 selected_protocol_version)
          selected_crypto_profile selected_handshake_mode encrypted_server_authentication padding).

Definition decode (bytes : list u8) : Result HelloError t :=
  '(h, _) ← body bytes 0; Ok h.

Definition server_capabilities_hash (h : t) : option (list u8) := get_range h.(padding) 0 32.

Definition selected_privacy_level (h : t) : option u8 :=
  match get h.(padding) 32 with Some b => Some b | None => Some 0 end.

Definition sized (h : t) : Prop :=
  len h.(server_random) = 32 /\ len h.(server_ephemeral_public_key) = 32 /\
  h.(selected_protocol_version) <= u32_max.

End ServerHello.

(** *** Realm markers *)

Definition to_ascii_lowercase (b : u8) : u8 := if (65 <=? b) && (b <=? 90) then b + 32 else b.
Definition eq_ignore_ascii_case (a b : list u8) : bool :=
  bool_decide (map to_ascii_lowercase a = map to_ascii_lowercase b).

Section Realm.
Context `{Primitives}.

Definition realm_marker (network_mode : list u8) (network_id membership_secret : option (list u8)) : list u8 :=
  if eq_ignore_ascii_case network_mode (bstr "public") then blake2s (bstr "UMP-PUBLIC-REALM-v1")
  else
    blake2s (bstr "UMP-PRIVATE-REALM-v1" ++ default [] network_id ++ [0] ++ default [] membership_secret).

Definition public_realm_marker : list u8 := realm_marker (bstr "public") None None.

End Realm.

(** [padding.resize(offset + 32, 0)] where it is shorter, and the marker's copy. *)
Definition write_marker (padding : list u8) (offset : usize) (marker : list u8) : list u8 :=
  let padding := if len padding <? offset + REALM_MARKER_LEN
                 then padding ++ zeros (N.to_nat (offset + REALM_MARKER_LEN - len padding))
                 else padding in
  take (N.to_nat offset) padding ++ marker ++ from padding (offset + REALM_MARKER_LEN).

Definition read_marker (padding : list u8) (offset : usize) : option (list u8) :=
  bytes ← get_range padding offset (offset + REALM_MARKER_LEN);
  if forallb (fun b => b =? 0) bytes then None else Some bytes.

Definition set_client_realm_marker (hello : ClientHello.t) (marker : list u8) : ClientHello.t :=
  hello <| ClientHello.padding := write_marker hello.(ClientHello.padding) CLIENT_REALM_MARKER_OFFSET marker |>.
Definition client_realm_marker (hello : ClientHello.t) : option (list u8) :=
  read_marker hello.(ClientHello.padding) CLIENT_REALM_MARKER_OFFSET.
Definition set_server_realm_marker (hello : ServerHello.t) (marker : list u8) : ServerHello.t :=
  hello <| ServerHello.padding := write_marker hello.(ServerHello.padding) SERVER_REALM_MARKER_OFFSET marker |>.
Definition server_realm_marker (hello : ServerHello.t) : option (list u8) :=
  read_marker hello.(ServerHello.padding) SERVER_REALM_MARKER_OFFSET.

Definition realm_marker_matches `{Primitives} (observed : option (list u8)) (expected : list u8)
    (private : bool) : bool :=
  match observed with
  | Some marker => bool_decide (marker = expected)
  | None => negb private && bool_decide (expected = public_realm_marker)
  end.

(** *** Version negotiation *)

(** [u8::try_from(n).unwrap_or(u8::MAX)] *)
Definition u8_saturated (n : usize) : u8 := N.min n u8_max.

Definition build_version_negotiation (dcid scid : list u8) (supported : list u32) : Result Failure (list u8) :=
  (put_u8 (HeaderByte.encode HeaderByte.LONG_VERSION_NEGOTIATION) >>>
   put_slice (to_be_bytes 4 0) >>>
   put_u8 (u8_saturated (len dcid)) >>> put_slice dcid >>>
   put_u8 (u8_saturated (len scid)) >>> put_slice scid >>>
   put_varint_or (fun _ => Panic) (len supported) >>>
   put_all (fun v => put_slice (to_be_bytes 4 v)) supported) [].

(** The versions at a position, each four bytes. *)
Fixpoint read_versions (count : nat) (bytes : list u8) (pos : usize) : option (list u32) :=
  match count with
  | O => Some []
  | S count =>
      v ← get_range bytes pos (pos + 4);
      versions ← read_versions count bytes (pos + 4);
      Some (from_be_bytes v :: versions)
  end.

Definition ok {Er A} (r : Result Er A) : option A := match r with Ok a => Some a | Err _ => None end.

(** [bytes.get(pos..)] *)
Definition get_from {A} (l : list A) (pos : usize) : option (list A) :=
  if pos <=? len l then Some (from l pos) else None.

#[export] Instance LongPacketType_eq_dec : EqDecision LongPacketType.
Proof. solve_decision. Defined.

Definition parse_version_negotiation (bytes : list u8) : option (list u32 * list u8) :=
  first ← get bytes 0;
  hb ← ok (HeaderByte.decode first);
  ty ← HeaderByte.long_type hb;
  if negb hb.(HeaderByte.long) || negb (bool_decide (ty = VersionNegotiation)) then None
  else
    version ← get_range bytes 1 5;
    if negb (from_be_bytes version =? 0) then None
    else
      dcid_len ← get bytes 5;
      dcid ← get_range bytes 6 (6 + dcid_len);
      scid_len ← get bytes (6 + dcid_len);
      let pos := 7 + dcid_len + scid_len in
      rest ← get_from bytes pos;
      '(count, n) ← ok (Varint.decode rest);
      if MAX_SUPPORTED_PARAMETERS <? count then None
      else
        versions ← read_versions (N.to_nat count) bytes (pos + n);
        Some (versions, dcid).

(** ** Messages are read back *)

Lemma message_sized ty body out out' :
  Encoding.encode_message ty body out = Ok out' ->
  len body <= Encoding.MAX_HANDSHAKE_MESSAGE /\ ty <= MAX_VARINT.
Proof.
  unfold Encoding.encode_message. intros [Hb%N.ltb_ge H]%refuse_Ok. split; [done|].
  apply bind_Ok in H as (o & H%map_err_Ok & _).
  rewrite Varint.encode_into_app in H. apply Varint.encode_Ok_iff.
  destruct (Varint.encode ty); [eauto|done].
Qed.

Lemma message_writes ty body :
  ty <= MAX_VARINT -> len body <= Encoding.MAX_HANDSHAKE_MESSAGE ->
  writes (Encoding.encode_message ty body) (16 + len body).
Proof.
  intros Ht Hb. unfold Encoding.encode_message, refuse. rewrite (proj2 (N.ltb_ge _ _) Hb).
  unfold Encoding.MAX_HANDSHAKE_MESSAGE, MAX_VARINT in *.
  eapply (writes_le _ (0 + (8 + (8 + len body)))); [|lia].
  apply writes_seq; [intros out; exists []; by rewrite app_nil_r|].
  repeat apply writes_seq; try (apply writes_varint; unfold MAX_VARINT; lia). apply writes_slice.
Qed.

Lemma message_read ty body out out' :
  Encoding.encode_message ty body out = Ok out' ->
  exists bs, out' = out ++ bs /\ reads Encoding.decode_at bs (Encoding.mk ty body).
Proof.
  intros H. pose proof (message_sized _ _ _ _ H) as [Hb _].
  unfold Encoding.encode_message in H. apply refuse_Ok in H as [_ H].
  apply bind_Ok in H as (o1 & H1%map_err_Ok & H). apply bind_Ok in H as (o2 & H2%map_err_Ok & H).
  apply (inj Ok) in H as <-.
  destruct (Varint.encode_into_decode _ _ _ H1) as (b1 & -> & D1).
  destruct (Varint.encode_into_decode _ _ _ H2) as (b2 & -> & D2).
  exists (b1 ++ b2 ++ body). split; [by rewrite !app_assoc|].
  eapply reads_bind; [|eapply reads_bind; [|apply reads_fail_if; [by apply N.ltb_ge|]]].
  - intros pre post _. unfold read_varint_or. by rewrite from_app_len, D1.
  - intros pre post _. unfold read_varint_or. by rewrite from_app_len, D2.
  - rewrite <- (app_nil_r body) at 2. eapply reads_bind; [by apply reads_slice_or|]. apply reads_ret.
Qed.

Lemma decode_message_read bs post m :
  reads Encoding.decode_at bs m -> len (bs ++ post) <= usize_max ->
  Encoding.decode_message (bs ++ post) = Ok (m, len bs).
Proof. apply reads_start. Qed.

Lemma message_inj ty body ty' body' bs :
  Encoding.encode_message ty body [] = Ok bs -> Encoding.encode_message ty' body' [] = Ok bs ->
  ty = ty' /\ body = body'.
Proof.
  intros H H'. pose proof (message_sized _ _ _ _ H) as [Hb Ht].
  destruct (message_writes ty body Ht Hb []) as (bs1 & E1 & L1). rewrite H in E1. apply (inj Ok) in E1.
  destruct (message_read _ _ _ _ H) as (b1 & Hb1 & R1). destruct (message_read _ _ _ _ H') as (b2 & Hb2 & R2).
  simpl in *. assert (b2 = b1) as -> by congruence. assert (bs1 = b1) as -> by congruence.
  unfold Encoding.MAX_HANDSHAKE_MESSAGE in Hb.
  assert (Hu : len (b1 ++ []) <= usize_max) by (rewrite app_nil_r; unfold usize_max, u64_max; lia).
  pose proof (reads_start _ _ [] _ R1 Hu) as D1. pose proof (reads_start _ _ [] _ R2 Hu) as D2.
  rewrite D1 in D2. by simplify_eq.
Qed.

(** ** The transcript determines its messages *)

Section TranscriptBinding.
Context `{HP : Primitives} {HL : PrimitiveLaws}.

(** The transcript after a sequence of messages. *)
Fixpoint updates (t : Transcript.t) (messages : list (u64 * list u8)) : Result Transcript.error Transcript.t :=
  match messages with
  | [] => Ok t
  | (ty, body) :: messages => t ← Transcript.update_message t ty body; updates t messages
  end.

Lemma update_message_hash t ty body t' :
  Transcript.update_message t ty body = Ok t' ->
  exists bs, Encoding.encode_message ty body [] = Ok bs /\
    t'.(Transcript.hash) = blake2s (t.(Transcript.hash) ++ bs).
Proof.
  unfold Transcript.update_message. intros (n & _ & H)%bind_Ok. destruct (_ <? _); [done|].
  apply bind_Ok in H as (bs & H%map_err_Ok & <-%(inj Ok)). eauto.
Qed.

(** Two different texts among those listed have one digest. *)
Definition collision_in (texts : list (list u8)) : Prop :=
  exists a b, a ∈ texts /\ b ∈ texts /\ a <> b /\ blake2s a = blake2s b.

Lemma digest_inj texts a b : a ∈ texts -> b ∈ texts -> blake2s a = blake2s b -> a = b \/ collision_in texts.
Proof. intros Ha Hb H. destruct (decide (a = b)); [by left|]. right. by exists a, b. Qed.

(** What is hashed when a message is appended, and over a sequence of them. *)
Definition message_text (t : Transcript.t) (ty : u64) (body : list u8) : list u8 :=
  t.(Transcript.hash) ++ match Encoding.encode_message ty body [] with Ok bytes => bytes | Err _ => [] end.

Fixpoint update_texts (t : Transcript.t) (messages : list (u64 * list u8)) : list (list u8) :=
  match messages with
  | [] => []
  | (ty, body) :: messages =>
      message_text t ty body ::
        match Transcript.update_message t ty body with Ok t => update_texts t messages | Err _ => [] end
  end.

Definition opening_text (mode crypto_profile carrier_binding : list u8) : list u8 :=
  bstr "UMP-HANDSHAKE-v1" ++ mode ++ crypto_profile ++ carrier_binding.

Definition transcript_texts (mode crypto_profile carrier_binding : list u8) (messages : list (u64 * list u8)) : list (list u8) :=
  opening_text mode crypto_profile carrier_binding :: update_texts (Transcript.new mode crypto_profile carrier_binding) messages.

Lemma updates_hash_len t messages t' :
  len t.(Transcript.hash) = 32 -> updates t messages = Ok t' -> len t'.(Transcript.hash) = 32.
Proof.
  revert t. induction messages as [|[ty body] messages IH]; intros t Ht H; simpl in H.
  - apply (inj Ok) in H as <-. done.
  - apply bind_Ok in H as (t1 & H1 & H). eapply IH; [|exact H].
    destruct (update_message_hash _ _ _ _ H1) as (bs & _ & ->). apply blake2s_len.
Qed.

Lemma update_binds texts t1 t2 ty1 b1 ty2 b2 r1 r2 :
  message_text t1 ty1 b1 ∈ texts -> message_text t2 ty2 b2 ∈ texts ->
  len t1.(Transcript.hash) = len t2.(Transcript.hash) ->
  Transcript.update_message t1 ty1 b1 = Ok r1 -> Transcript.update_message t2 ty2 b2 = Ok r2 ->
  r1.(Transcript.hash) = r2.(Transcript.hash) ->
  (t1.(Transcript.hash) = t2.(Transcript.hash) /\ ty1 = ty2 /\ b1 = b2) \/ collision_in texts.
Proof.
  unfold message_text. intros T1 T2 Hl H1 H2 Hh. destruct (update_message_hash _ _ _ _ H1) as (e1 & E1 & Hr1).
  destruct (update_message_hash _ _ _ _ H2) as (e2 & E2 & Hr2). rewrite Hr1, Hr2 in Hh. rewrite E1 in T1. rewrite E2 in T2.
  destruct (digest_inj _ _ _ T1 T2 Hh) as [Heq|]; [left|by right].
  apply app_inj_1 in Heq as [Ht ->]; [|unfold len in Hl; lia].
  split; [done|]. by eapply message_inj.
Qed.

Lemma updates_snoc t ms ty body r :
  updates t (ms ++ [(ty, body)]) = Ok r <-> exists u, updates t ms = Ok u /\ Transcript.update_message u ty body = Ok r.
Proof.
  revert t. induction ms as [|[ty' body'] ms IH]; intros t; cbn [app updates].
  - rewrite bind_Ok. split; [intros (u & Hu & [= ->]); by exists t|intros (u & [= ->] & H); by exists r].
  - rewrite bind_Ok. split.
    + intros (t1 & H1 & (u & Hu & H)%IH). exists u. split; [apply bind_Ok; by exists t1|done].
    + intros (u & (t1 & H1 & Hu)%bind_Ok & H). exists t1. split; [done|]. apply IH. by exists u.
Qed.

Lemma update_texts_snoc t ms ty body u :
  updates t ms = Ok u -> update_texts t (ms ++ [(ty, body)]) = update_texts t ms ++ [message_text u ty body].
Proof.
  revert t. induction ms as [|[ty' body'] ms IH]; intros t; cbn [app updates update_texts].
  - intros [= ->]. by destruct (Transcript.update_message u ty body).
  - intros (t1 & H1 & H)%bind_Ok. rewrite H1. by rewrite (IH t1 H).
Qed.

(** The digest of one of the listed texts begins with the label that opens every
    transcript. *)
Definition label_digest_in (texts : list (list u8)) : Prop :=
  exists a, a ∈ texts /\ take 16 (blake2s a) = bstr "UMP-HANDSHAKE-v1".

(** The hash of a transcript is the digest of one of its texts. *)
Lemma transcript_digest mode profile carrier ms r :
  updates (Transcript.new mode profile carrier) ms = Ok r ->
  exists a, a ∈ transcript_texts mode profile carrier ms /\ r.(Transcript.hash) = blake2s a.
Proof.
  destruct ms as [|[ty body] ms _] using rev_ind.
  - intros <-%(inj Ok). exists (opening_text mode profile carrier). split; [left|done].
  - intros (u & Hu & Hr)%updates_snoc. exists (message_text u ty body). unfold transcript_texts.
    rewrite (update_texts_snoc _ _ _ _ _ Hu). split; [right; apply elem_of_app; right; left|].
    destruct (update_message_hash _ _ _ _ Hr) as (bs & E & ->). unfold message_text. by rewrite E.
Qed.

(** An opening and a message that are hashed to one digest. *)
Lemma opening_message texts mode1 profile1 carrier1 mode profile carrier ms u ty body r :
  opening_text mode1 profile1 carrier1 ∈ texts -> transcript_texts mode profile carrier ms ⊆ texts ->
  message_text u ty body ∈ texts -> updates (Transcript.new mode profile carrier) ms = Ok u ->
  Transcript.update_message u ty body = Ok r -> r.(Transcript.hash) = blake2s (opening_text mode1 profile1 carrier1) ->
  collision_in texts \/ label_digest_in texts.
Proof.
  intros O S T Hu Hr Hh. destruct (update_message_hash _ _ _ _ Hr) as (bs & E & Hd). unfold message_text in T. rewrite E in T.
  rewrite Hd in Hh. destruct (digest_inj _ _ _ T O Hh) as [Heq|]; [right|by left].
  destruct (transcript_digest _ _ _ _ _ Hu) as (a & Ha & Hha). exists a. split; [by apply S|].
  pose proof (f_equal (take 16) Heq) as Ht. rewrite Hha, take_app_le in Ht.
  - rewrite Ht. reflexivity.
  - pose proof (blake2s_len a) as Hl. unfold len in Hl. lia.
Qed.

Lemma transcripts_bind texts mode1 profile1 carrier1 mode2 profile2 carrier2 ms1 ms2 r1 r2 :
  transcript_texts mode1 profile1 carrier1 ms1 ⊆ texts -> transcript_texts mode2 profile2 carrier2 ms2 ⊆ texts ->
  updates (Transcript.new mode1 profile1 carrier1) ms1 = Ok r1 ->
  updates (Transcript.new mode2 profile2 carrier2) ms2 = Ok r2 ->
  r1.(Transcript.hash) = r2.(Transcript.hash) ->
  (opening_text mode1 profile1 carrier1 = opening_text mode2 profile2 carrier2 /\ ms1 = ms2) \/
  collision_in texts \/ label_digest_in texts.
Proof.
  revert ms2 r1 r2. induction ms1 as [|[ty1 b1] ms1 IH] using rev_ind; intros ms2 r1 r2 S1 S2 H1 H2 Hh;
    (destruct ms2 as [|[ty2 b2] ms2 _] using rev_ind).
  - apply (inj Ok) in H1 as <-. apply (inj Ok) in H2 as <-.
    destruct (digest_inj texts _ _ (S1 _ ltac:(left)) (S2 _ ltac:(left)) Hh); auto.
  - apply (inj Ok) in H1 as <-. apply updates_snoc in H2 as (u & Hu & H2). unfold transcript_texts in S2.
    rewrite (update_texts_snoc _ _ _ _ _ Hu), app_comm_cons in S2. right.
    eapply (opening_message texts mode1 profile1 carrier1 mode2 profile2 carrier2 ms2); [apply S1; left| | |done|done|by symmetry].
    + intros x Hx. apply S2, elem_of_app. by left.
    + apply S2, elem_of_app. right. left.
  - apply (inj Ok) in H2 as <-. apply updates_snoc in H1 as (u & Hu & H1). unfold transcript_texts in S1.
    rewrite (update_texts_snoc _ _ _ _ _ Hu), app_comm_cons in S1. right.
    eapply (opening_message texts mode2 profile2 carrier2 mode1 profile1 carrier1 ms1); [apply S2; left| | |done|done|done].
    + intros x Hx. apply S1, elem_of_app. by left.
    + apply S1, elem_of_app. right. left.
  - apply updates_snoc in H1 as (u1 & Hu1 & H1). apply updates_snoc in H2 as (u2 & Hu2 & H2).
    unfold transcript_texts in S1, S2. rewrite (update_texts_snoc _ _ _ _ _ Hu1), app_comm_cons in S1.
    rewrite (update_texts_snoc _ _ _ _ _ Hu2), app_comm_cons in S2.
    destruct (update_binds texts u1 u2 ty1 b1 ty2 b2 r1 r2) as [(Hu & -> & ->)|]; try done; [..|auto].
    + apply S1, elem_of_app. right. left.
    + apply S2, elem_of_app. right. left.
    + by rewrite !(updates_hash_len (Transcript.new _ _ _) _ _ (blake2s_len _)) by done.
    + destruct (IH ms2 u1 u2) as [[Ho ->]|]; auto.
      * intros x Hx. apply S1, elem_of_app. by left.
      * intros x Hx. apply S2, elem_of_app. by left.
Qed.

(** The modes of the protocol are told apart by what follows the label. *)
Lemma opening_inj mode1 mode2 carrier1 carrier2 :
  mode1 ∈ [MODE_XX; MODE_IK; MODE_PSK_XX] -> mode2 ∈ [MODE_XX; MODE_IK; MODE_PSK_XX] ->
  opening_text mode1 CRYPTO_PROFILE carrier1 = opening_text mode2 CRYPTO_PROFILE carrier2 ->
  mode1 = mode2 /\ carrier1 = carrier2.
Proof.
  intros H1 H2 H%app_inv_head. rewrite !elem_of_cons, elem_of_nil in H1, H2.
  destruct H1 as [->|[->|[->|[]]]], H2 as [->|[->|[->|[]]]]; try discriminate H;
    apply app_inv_head, app_inv_head in H; done.
Qed.

End TranscriptBinding.

(** ** The hellos are read back *)

Lemma as_u32_small v : v <= u32_max -> as_u32 v = v.
Proof. unfold as_u32, u32_max. intros H. apply N.mod_small. lia. Qed.

Lemma codec_number v : codec (put_number v) read_number v.
Proof. apply codec_varint_or. Qed.
Lemma codec_field v limit : codec (put_field v limit) (read_field limit) v.
Proof. apply codec_bytes_or. Qed.
Lemma codec_array s n : n = len s -> codec (put_slice s) (read_array n) s.
Proof. apply codec_slice_or. Qed.
Lemma codec_u32 v : v <= u32_max -> codec (put_number v) (v ← read_number; mret (as_u32 v)) v.
Proof. intros Hv. eapply codec_last; [apply codec_number|]. by apply as_u32_small. Qed.

Lemma codec_list {A} (put : A -> EncOf HelloError) (read : DecOf HelloError A) l :
  len l <= MAX_SUPPORTED_PARAMETERS -> Forall (fun x => codec (put x) read x) l ->
  codec (put_list put l) (read_list read) l.
Proof.
  intros Hl HF. unfold put_list, read_list. eapply codec_bind; [apply codec_number|].
  apply codec_fail_if; [by apply N.ltb_ge|]. rewrite <- length_len. by apply codec_all.
Qed.

Lemma codec_fields l :
  len l <= MAX_SUPPORTED_PARAMETERS -> codec (put_list (fun p => put_field p 64) l) (read_list (read_field 64)) l.
Proof. intros Hl. apply codec_list; [done|]. apply list.Forall_true. intros x. apply codec_field. Qed.

Lemma codec_versions l :
  len l <= MAX_SUPPORTED_PARAMETERS -> Forall (fun v => v <= u32_max) l ->
  codec (put_list put_number l) (read_list (v ← read_number; mret (as_u32 v))) l.
Proof. intros Hl HF. apply codec_list; [done|]. eapply list.Forall_impl; [exact HF|]. intros v. apply codec_u32. Qed.

Lemma client_hello_codec h : ClientHello.sized h -> codec (ClientHello.put h) ClientHello.body h.
Proof.
  intros (Hv & Hr & He & Hp & Hm & Hpv & Hvs & Hc). unfold ClientHello.put, ClientHello.body.
  eapply codec_bind; [apply codec_number|]. eapply codec_bind; [by apply codec_array|].
  eapply codec_bind; [by apply codec_array|]. eapply codec_bind; [by apply codec_fields|].
  eapply codec_bind; [by apply codec_fields|]. eapply codec_bind; [by apply codec_versions|].
  eapply codec_bind; [by apply codec_array|].
  do 4 (eapply codec_bind; [apply codec_field|]). eapply codec_last; [apply codec_field|].
  cbv beta. rewrite as_u32_small by done. by destruct h.
Qed.

Lemma server_hello_codec h : ServerHello.sized h -> codec (ServerHello.put h) ServerHello.body h.
Proof.
  intros (Hr & He & Hv). unfold ServerHello.put, ServerHello.body.
  do 2 (eapply codec_bind; [by apply codec_array|]). eapply codec_bind; [apply codec_number|].
  do 3 (eapply codec_bind; [apply codec_field|]). eapply codec_last; [apply codec_field|].
  cbv beta. rewrite as_u32_small by done. by destruct h.
Qed.

(** What an encoder that starts from nothing wrote is decoded, whatever follows. *)
Lemma hello_decode {A} (e : EncOf HelloError) (d : DecOf HelloError A) a bytes post :
  codec e d a -> e [] = Ok bytes -> len (bytes ++ post) <= usize_max ->
  ('(h, _) ← d (bytes ++ post) 0; Ok h) = Ok a.
Proof.
  intros Hc E Hl. destruct (Hc _ _ E) as (bs & Heq & Hr). simpl in Heq. subst bs.
  by rewrite (reads_start _ _ _ _ Hr Hl).
Qed.

Lemma client_hello_decode h bytes post :
  ClientHello.sized h -> ClientHello.encode h = Ok bytes -> len (bytes ++ post) <= usize_max ->
  ClientHello.decode (bytes ++ post) = Ok h.
Proof. intros Hs E Hl. eapply hello_decode; [by apply client_hello_codec|done|done]. Qed.

Lemma server_hello_decode h bytes post :
  ServerHello.sized h -> ServerHello.encode h = Ok bytes -> len (bytes ++ post) <= usize_max ->
  ServerHello.decode (bytes ++ post) = Ok h.
Proof. intros Hs E Hl. eapply hello_decode; [by apply server_hello_codec|done|done]. Qed.

(** ** Version negotiation is read back *)

#[local] Arguments to_be_bytes : simpl never.

Lemma put_versions_app vs out :
  put_all (Er := Failure) (fun v => put_slice (to_be_bytes 4 v)) vs out = Ok (out ++ concat (map (to_be_bytes 4) vs)).
Proof.
  revert out. induction vs as [|v vs IH]; intros out; cbn [put_all map concat]; [by rewrite app_nil_r|].
  unfold enc_seq, mbind, Result_bind. unfold put_slice at 1. rewrite IH. by rewrite app_assoc.
Qed.

Lemma read_versions_app vs pre post :
  Forall (fun v => v <= u32_max) vs ->
  read_versions (length vs) (pre ++ concat (map (to_be_bytes 4) vs) ++ post) (len pre) = Some vs.
Proof.
  intros HF. revert pre. induction HF as [|v vs Hv _ IH]; intros pre; [done|]. cbn [length read_versions map concat].
  rewrite (get_range_is _ pre (to_be_bytes 4 v) (concat (map (to_be_bytes 4) vs) ++ post));
    [|by rewrite <- app_assoc|done|by rewrite len_to_be_bytes].
  cbn [mbind option_bind]. specialize (IH (pre ++ to_be_bytes 4 v)).
  rewrite len_app, len_to_be_bytes, <- !app_assoc in IH. rewrite <- app_assoc.
  change (N.of_nat 4) with 4 in IH. rewrite IH. cbn [mbind option_bind].
  rewrite from_to_be_bytes; [done|]. unfold u32_max in Hv. simpl. lia.
Qed.

Lemma version_negotiation_bytes dcid scid supported bytes :
  build_version_negotiation dcid scid supported = Ok bytes ->
  exists n, bytes = HeaderByte.encode HeaderByte.LONG_VERSION_NEGOTIATION :: to_be_bytes 4 0 ++
      u8_saturated (len dcid) :: dcid ++ u8_saturated (len scid) :: scid ++ n ++ concat (map (to_be_bytes 4) supported)
    /\ forall rest, Varint.decode (n ++ rest) = Ok (len supported, len n).
Proof.
  unfold build_version_negotiation, enc_seq, put_u8, put_slice. cbn [mbind Result_bind].
  intros H. apply bind_Ok in H as (o & H%map_err_Ok & Ho).
  destruct (Varint.encode_into_decode _ _ _ H) as (n & -> & Hn). rewrite put_versions_app in Ho.
  apply (inj Ok) in Ho as <-. exists n. split; [|done]. by rewrite <- !app_assoc.
Qed.

Lemma version_negotiation_read dcid scid supported bytes :
  build_version_negotiation dcid scid supported = Ok bytes ->
  len dcid <= u8_max -> len scid <= u8_max -> len supported <= MAX_SUPPORTED_PARAMETERS ->
  Forall (fun v => v <= u32_max) supported ->
  parse_version_negotiation bytes = Some (supported, dcid).
Proof.
  intros H Hd Hs Hn HF. destruct (version_negotiation_bytes _ _ _ _ H) as (n & Hb & Hv). clear H.
  unfold u8_saturated in Hb. rewrite !N.min_l in Hb by done.
  set (hd := HeaderByte.encode HeaderByte.LONG_VERSION_NEGOTIATION) in Hb.
  set (vs := concat (map (to_be_bytes 4) supported)) in Hb.
  unfold parse_version_negotiation. rewrite Hb at 1. cbn [get lookup list_lookup mbind option_bind].
  change (get (hd :: _) 0) with (Some hd). cbn [mbind option_bind]. change (HeaderByte.decode hd) with (Ok (E := HeaderError) HeaderByte.LONG_VERSION_NEGOTIATION).
  cbn [ok mbind option_bind]. change (HeaderByte.long_type HeaderByte.LONG_VERSION_NEGOTIATION) with (Some VersionNegotiation).
  cbn [mbind option_bind negb HeaderByte.long HeaderByte.LONG_VERSION_NEGOTIATION orb]. rewrite bool_decide_eq_true_2 by done. cbn [negb].
  rewrite (get_range_is bytes [hd] (to_be_bytes 4 0) (len dcid :: dcid ++ len scid :: scid ++ n ++ vs));
    [|by rewrite Hb|done|by rewrite len_to_be_bytes].
  cbn [mbind option_bind]. rewrite from_to_be_bytes by done. cbn [N.eqb negb].
  pose proof (get_app_len ([hd] ++ to_be_bytes 4 0) (dcid ++ len scid :: scid ++ n ++ vs) (len dcid)) as G5.
  rewrite len_app, len_to_be_bytes in G5. change (len [hd] + N.of_nat 4) with 5 in G5.
  rewrite <- !app_assoc in G5. cbn [app] in G5. rewrite <- Hb in G5. rewrite G5. cbn [mbind option_bind].
  rewrite (get_range_is bytes ([hd] ++ to_be_bytes 4 0 ++ [len dcid]) dcid (len scid :: scid ++ n ++ vs));
    [|rewrite Hb; by rewrite <- !app_assoc|rewrite !len_app, len_to_be_bytes; done|done].
  cbn [mbind option_bind].
  pose proof (get_app_len ([hd] ++ to_be_bytes 4 0 ++ [len dcid] ++ dcid) (scid ++ n ++ vs) (len scid)) as G6.
  rewrite <- !app_assoc in G6. cbn [app] in G6. rewrite <- Hb in G6.
  replace (len _) with (6 + len dcid) in G6 by (autorewrite with umc; lia).
  rewrite G6. cbn [mbind option_bind].
  set (pre := [hd] ++ to_be_bytes 4 0 ++ [len dcid] ++ dcid ++ [len scid] ++ scid).
  assert (Hpre : len pre = 7 + len dcid + len scid) by (unfold pre; autorewrite with umc; lia).
  assert (Hb' : bytes = pre ++ n ++ vs) by (rewrite Hb; unfold pre; by rewrite <- !app_assoc).
  rewrite <- Hpre. unfold get_from. rewrite (proj2 (N.leb_le _ _)) by (rewrite Hb', len_app; lia).
  cbn [mbind option_bind]. rewrite Hb', from_app_len, Hv. cbn [ok mbind option_bind].
  rewrite (proj2 (N.ltb_ge _ _)) by done. rewrite <- length_len.
  pose proof (read_versions_app supported (pre ++ n) [] HF) as Hrv.
  rewrite app_nil_r, <- app_assoc, len_app in Hrv. fold vs in Hrv. by rewrite Hrv.
Qed.

(** ** Realm markers are read back *)

Lemma write_marker_split padding offset marker :
  exists pre post, write_marker padding offset marker = pre ++ marker ++ post /\ len pre = offset /\
    pre = take (N.to_nat offset) (padding ++ zeros (N.to_nat (offset + REALM_MARKER_LEN - len padding))).
Proof.
  unfold write_marker. set (p := if len padding <? offset + REALM_MARKER_LEN then _ else padding).
  assert (Hp : p = padding ++ zeros (N.to_nat (offset + REALM_MARKER_LEN - len padding))).
  { unfold p. destruct (N.ltb_spec (len padding) (offset + REALM_MARKER_LEN)) as [|Hge]; [done|].
    replace (N.to_nat _) with 0%nat by lia. simpl. by rewrite app_nil_r. }
  eexists _, _. split; [reflexivity|]. rewrite <- Hp. split; [|done].
  unfold len. rewrite length_take, Hp, length_app. unfold zeros. rewrite length_replicate.
  unfold REALM_MARKER_LEN, len. lia.
Qed.

Lemma read_write_marker padding offset marker :
  len marker = REALM_MARKER_LEN -> forallb (fun b => b =? 0) marker = false ->
  read_marker (write_marker padding offset marker) offset = Some marker.
Proof.
  intros Hm Hz. destruct (write_marker_split padding offset marker) as (pre & post & -> & Hl & _).
  unfold read_marker. rewrite (get_range_is _ pre marker post); [|done..|by rewrite Hm].
  cbn [mbind option_bind]. by rewrite Hz.
Qed.

(** The bytes before the marker are those of the padding. *)
Lemma write_marker_prefix padding offset marker pre post :
  padding = pre ++ post -> len pre <= offset ->
  exists rest, write_marker padding offset marker = pre ++ rest.
Proof.
  intros -> Hl. destruct (write_marker_split (pre ++ post) offset marker) as (q & r & -> & _ & ->).
  rewrite <- (app_assoc pre post), take_app_ge by (unfold len in Hl; lia).
  rewrite <- app_assoc. eauto.
Qed.

Lemma write_marker_len padding offset marker :
  len marker = REALM_MARKER_LEN -> len (write_marker padding offset marker) <= N.max (len padding) (offset + REALM_MARKER_LEN).
Proof.
  intros Hm. unfold write_marker. rewrite !len_app, Hm. unfold REALM_MARKER_LEN in *. unfold from.
  destruct (N.ltb_spec (len padding) (offset + 32)) as [Hlt|Hge]; unfold len, zeros in *;
    rewrite ?length_drop, ?length_take, ?length_app, ?length_replicate; lia.
Qed.

(** ** Properties *)

(** A hello is read back as it was written, also when padding follows it
    in the packet: every field of a CLIENT_HELLO and of a SERVER_HELLO, the
    negotiation lists included, comes back. *)
Theorem hello_roundtrip (ch : ClientHello.t) (sh : ServerHello.t) cb sb post :
  ClientHello.sized ch -> ClientHello.encode ch = Ok cb -> len (cb ++ post) <= usize_max ->
  ServerHello.sized sh -> ServerHello.encode sh = Ok sb -> len (sb ++ post) <= usize_max ->
  ClientHello.decode (cb ++ post) = Ok ch /\ ServerHello.decode (sb ++ post) = Ok sh.
Proof. intros. split; [by apply client_hello_decode|by apply server_hello_decode]. Qed.

Definition sample_client_hello : ClientHello.t :=
  ClientHello.mk 1 (replicate 32 7) (replicate 32 8) [CRYPTO_PROFILE] [MODE_PSK_XX; MODE_XX] [1; 4294967295]
    (replicate 32 9) (bstr "p2") [1; 2; 3] [] (replicate 16 4) (zeros 64).

Definition sample_server_hello : ServerHello.t :=
  ServerHello.mk (replicate 32 5) (replicate 32 6) 1 CRYPTO_PROFILE MODE_XX (replicate 300 1) (zeros 96).

Lemma hello_roundtrip_witness :
  exists cb sb, ClientHello.encode sample_client_hello = Ok cb /\ ServerHello.encode sample_server_hello = Ok sb /\
    ClientHello.decode (cb ++ [0; 0]) = Ok sample_client_hello /\
    ServerHello.decode (sb ++ [0; 0]) = Ok sample_server_hello.
Proof.
  eexists _, _. split; [vm_compute; reflexivity|]. split; [vm_compute; reflexivity|].
  apply (hello_roundtrip sample_client_hello sample_server_hello _ _ [0; 0]).
  - unfold ClientHello.sized. split_and!; [by vm_compute..| |by vm_compute].
    repeat (apply list.Forall_cons_2; [by vm_compute|]). apply list.Forall_nil_2.
  - vm_compute. reflexivity.
  - by vm_compute.
  - unfold ServerHello.sized. split_and!; by vm_compute.
  - vm_compute. reflexivity.
  - by vm_compute.
Defined.



(** A Version-Negotiation packet is read back: the client that receives it
    sees the versions the responder offered and the connection identifier it
    echoed, whatever the identifiers are. *)
Theorem version_negotiation_roundtrip dcid scid supported bytes :
  build_version_negotiation dcid scid supported = Ok bytes ->
  len dcid <= u8_max -> len scid <= u8_max -> len supported <= MAX_SUPPORTED_PARAMETERS ->
  Forall (fun v => v <= u32_max) supported ->
  parse_version_negotiation bytes = Some (supported, dcid).
Proof. apply version_negotiation_read. Qed.

Lemma version_negotiation_roundtrip_witness :
  exists bytes, build_version_negotiation [1; 2; 3] [4; 5] [SUPPORTED_PROTOCOL_VERSION; 7] = Ok bytes /\
    parse_version_negotiation bytes = Some ([SUPPORTED_PROTOCOL_VERSION; 7], [1; 2; 3]).
Proof.
  eexists. split; [vm_compute; reflexivity|].
  apply (version_negotiation_roundtrip [1; 2; 3] [4; 5]); [vm_compute; reflexivity|by vm_compute..|].
  repeat (apply list.Forall_cons_2; [by vm_compute|]). apply list.Forall_nil_2.
Defined.
