(* ===== verification/HandshakeKeys.v ===== *)
(** * Handshake keys and tokens (crates/umc-handshake/src/traffic.rs, ik.rs, psk.rs, ticket.rs, retry.rs)

    The secrets of a session and of the handshake packets, the secrets of a
    resumed session, the admission by an invitation key, session tickets and
    retry tokens.  Both sides of an ephemeral exchange derive the same resumed
    secrets, an authenticator is accepted exactly when it is the right one, and
    tickets and tokens are accepted while they are valid, with what they
    carried. *)

From Stdlib Require Import Strings.String.
From S2P Require Import Prelude Codec Varint WireBytes Records Crypto Identity HandshakeMessages.

(** ** Key schedule *)

Section Schedule.
Context `{Primitives}.

(** [expand_label(secret, label, context, 32).expect(...)]: [expand32_is] shows
    that the [expect] does not fire for the contexts used. *)
Definition expand32 (secret label context : list u8) : list u8 :=
  match expand_label secret label context 32 with
  | Ok out => out
  | Err _ => []
  end.

End Schedule.

Module SessionSecrets.
Record t := mk {
  client : list u8;
  server : list u8;
  exporter : list u8;
  resumption : list u8;
  path_validation : list u8;
  connection_id : list u8;
  stateless_reset : list u8
}.
End SessionSecrets.

Section Traffic.
Context `{Primitives}.

Definition derive_session_secrets (handshake_secret final_transcript : list u8) : SessionSecrets.t :=
  let derived := expand32 handshake_secret (bstr "derived") final_transcript in
  let master := extract derived (zeros 32) in
  SessionSecrets.mk
    (expand32 master (bstr "client session traffic") final_transcript)
    (expand32 master (bstr "server session traffic") final_transcript)
    (expand32 master (bstr "exporter") final_transcript)
    (expand32 master (bstr "resumption") final_transcript)
    (expand32 master (bstr "path validation") final_transcript)
    (expand32 master (bstr "connection id") final_transcript)
    (expand32 master (bstr "stateless reset") final_transcript).

Definition derive_handshake_traffic_secret (handshake_secret3 transcript_hash : list u8) (client_direction : bool)
    : list u8 :=
  let label := if client_direction then bstr "client handshake traffic" else bstr "server handshake traffic" in
  expand32 handshake_secret3 label transcript_hash.

(** [derive_handshake_traffic_secrets], as the pair [derive_handshake_traffic] returns. *)
Definition derive_handshake_traffic (handshake_secret3 transcript : list u8) : list u8 * list u8 :=
  (derive_handshake_traffic_secret handshake_secret3 transcript true,
   derive_handshake_traffic_secret handshake_secret3 transcript false).

Definition traffic_keys (secret : list u8) : Result Failure PacketKeys.t :=
  map_err (fun _ => Panic) (PacketKeys.from_traffic_secret secret).

End Traffic.

(** ** Resumption *)

Module ResumeSecrets.
Record t := mk { psk : list u8; client : list u8; server : list u8 }.
End ResumeSecrets.

Section Resumption.
Context `{Primitives, Curves}.

Definition derive_resumption_secrets (psk : list u8) (my_ephemeral : StaticHandshakeKeyPair.t)
    (peer_ephemeral_public transcript_context : list u8) : ResumeSecrets.t :=
  let ee := StaticHandshakeKeyPair.diffie_hellman my_ephemeral peer_ephemeral_public in
  let extracted := extract psk ee in
  ResumeSecrets.mk psk
    (expand32 extracted (bstr "client resumption traffic") transcript_context)
    (expand32 extracted (bstr "server resumption traffic") transcript_context).

End Resumption.

(** ** Admission by invitation *)

Definition PSK_LABEL : list u8 := bstr "UMP-PSK-XX-v1".
Definition INVITATION_AUTH_LABEL : list u8 := bstr "UMP-INVITE-AUTH-v1".
Definition INVITATION_AUTH_LEN : usize := 16.

(** [difference |= actual ^ expected] over the pairs, compared with zero. *)
Definition constant_time_equal (received expected : list u8) : bool :=
  fold_left (fun difference '(a, e) => N.lor difference (N.lxor a e)) (zip received expected) 0 =? 0.

Section Invitation.
Context `{Primitives}.

Definition invitation_authenticator (invitation_key client_random client_ephemeral_public_key
    destination_connection_id carrier_binding : list u8) : list u8 :=
  let context := INVITATION_AUTH_LABEL ++ client_random ++ client_ephemeral_public_key ++
                 destination_connection_id ++ carrier_binding in
  take (N.to_nat INVITATION_AUTH_LEN) (hmac_blake2s invitation_key context).

Definition derive_psk_extract (invitation_key client_random client_ephemeral_public_key carrier_binding : list u8)
    : list u8 :=
  extract invitation_key (client_random ++ client_ephemeral_public_key ++ carrier_binding).

Definition verify_invitation_authenticator (invitation_key client_random client_ephemeral_public_key
    destination_connection_id carrier_binding received : list u8) : bool :=
  if negb (len received =? INVITATION_AUTH_LEN) then false
  else
    constant_time_equal received
      (invitation_authenticator invitation_key client_random client_ephemeral_public_key
         destination_connection_id carrier_binding).

End Invitation.

Definition offers (hello : ClientHello.t) (mode : list u8) : bool :=
  existsb (fun m => bool_decide (m = mode)) hello.(ClientHello.supported_handshake_modes).

Inductive PskAdmissionError := UnsupportedMode | MissingAuthenticator | InvalidAuthenticator.

Module PskAdmissionContext.

Record t := mk { invitation_key : list u8; destination_connection_id : list u8; carrier_binding : list u8 }.

Section Admission.
Context `{Primitives, Curves}.

Definition verify_client_hello (c : t) (hello : ClientHello.t) : Result PskAdmissionError unit :=
  if negb (offers hello MODE_PSK_XX) then Err UnsupportedMode
  else if len hello.(ClientHello.invitation_authenticator) =? 0 then Err MissingAuthenticator
  else if negb (verify_invitation_authenticator c.(invitation_key) hello.(ClientHello.client_random)
                  hello.(ClientHello.client_ephemeral_public_key) c.(destination_connection_id)
                  c.(carrier_binding) hello.(ClientHello.invitation_authenticator))
  then Err InvalidAuthenticator
  else Ok tt.

Definition derive_handshake_extract1 (c : t) (hello : ClientHello.t) (server_ephemeral : StaticHandshakeKeyPair.t)
    : Result PskAdmissionError (list u8) :=
  _ ← verify_client_hello c hello;
  let psk_extract := derive_psk_extract c.(invitation_key) hello.(ClientHello.client_random)
                       hello.(ClientHello.client_ephemeral_public_key) c.(carrier_binding) in
  let dh_ee := StaticHandshakeKeyPair.diffie_hellman server_ephemeral hello.(ClientHello.client_ephemeral_public_key) in
  Ok (extract psk_extract dh_ee).

End Admission.
End PskAdmissionContext.

Section PskSecrets.
Context `{Primitives, Curves}.

(** The context is as long as the transcript hash plus the label: an over-long
    one makes the [expect] panic. *)
Definition psk_expand (secret transcript_hash : list u8) : Result Failure (list u8) :=
  map_err (fun _ => Panic) (expand_label secret (bstr "psk-xx handshake") (PSK_LABEL ++ transcript_hash) 32).

Definition derive_psk_xx_secret (psk : list u8) (my_ephemeral : StaticHandshakeKeyPair.t)
    (peer_ephemeral transcript_hash : list u8) : Result Failure (list u8) :=
  let dh_ee := StaticHandshakeKeyPair.diffie_hellman my_ephemeral peer_ephemeral in
  psk_expand (extract psk dh_ee) transcript_hash.

Definition derive_psk_xx_secret_with_context (psk : list u8) (my_ephemeral : StaticHandshakeKeyPair.t)
    (peer_ephemeral client_ephemeral_public_key client_random carrier_binding transcript_hash : list u8)
    : Result Failure (list u8) :=
  let psk_extract := derive_psk_extract psk client_random client_ephemeral_public_key carrier_binding in
  let dh_ee := StaticHandshakeKeyPair.diffie_hellman my_ephemeral peer_ephemeral in
  psk_expand (extract psk_extract dh_ee) transcript_hash.

(** [ClientHello::new_psk_xx] *)
Definition new_psk_xx (client_random : list u8) (ephemeral : StaticHandshakeKeyPair.t)
    (invitation_key destination_connection_id carrier_binding : list u8) : Result Failure ClientHello.t :=
  hello ← ClientHello.new client_random ephemeral;
  Ok (hello <| ClientHello.supported_handshake_modes := [MODE_PSK_XX] |>
            <| ClientHello.invitation_authenticator :=
                 invitation_authenticator invitation_key hello.(ClientHello.client_random)
                   hello.(ClientHello.client_ephemeral_public_key) destination_connection_id carrier_binding |>).

End PskSecrets.

(** ** Session tickets *)

Definition MAX_TICKET_LIFETIME_MS : u64 := 24 * 60 * 60 * 1000.
Definition TICKET_ENTROPY : usize := 16.
Definition TICKET_VERSION : u8 := 1.

Inductive TicketError := TicketInvalid | TicketExpired.

(** [u64::from_be_bytes(body.get(pos..pos + n)?)], and one byte alike *)
Definition read_be {Er} (err : Er) (n : usize) : DecOf Er u64 := bs ← read_slice_or err n; mret (from_be_bytes bs).

(** [rest.iter().position(|&b| b == 0)?] and the two parts around it *)
Fixpoint split_at_zero (rest : list u8) : option (list u8 * list u8) :=
  match rest with
  | [] => None
  | b :: rest =>
      if b =? 0 then Some ([], rest)
      else '(before, after) ← split_at_zero rest; Some (b :: before, after)
  end.

Module TicketPayload.

Record t := mk {
  version : u8;
  ticket_id : list u8;
  client_endpoint_id_hash : list u8;
  server_endpoint_id_hash : list u8;
  resumption_secret : list u8;
  issued_at_ms : u64;
  expires_at_ms : u64;
  protocol_version : u32;
  crypto_profile : list u8;
  nonce : list u8
}.

Definition encode (p : t) : list u8 :=
  [p.(version)] ++ p.(ticket_id) ++ p.(client_endpoint_id_hash) ++ p.(server_endpoint_id_hash) ++
  p.(resumption_secret) ++ to_be_bytes 8 p.(issued_at_ms) ++ to_be_bytes 8 p.(expires_at_ms) ++
  to_be_bytes 4 p.(protocol_version) ++ p.(crypto_profile) ++ [0] ++ p.(nonce).

(** The fields of fixed size, and the position after them. *)
Definition fields : DecOf unit (list u8 -> list u8 -> t) :=
  version ← read_be tt 1;
  ticket_id ← read_slice_or tt 16;
  client_endpoint_id_hash ← read_slice_or tt 32;
  server_endpoint_id_hash ← read_slice_or tt 32;
  resumption_secret ← read_slice_or tt 32;
  issued_at_ms ← read_be tt 8;
  expires_at_ms ← read_be tt 8;
  protocol_version ← read_be tt 4;
  mret (mk version ticket_id client_endpoint_id_hash server_endpoint_id_hash resumption_secret
          issued_at_ms expires_at_ms protocol_version).

Definition decode (body : list u8) : option t :=
  '(make, pos) ← ok (fields body 0);
  rest ← get_range body pos (pos + (len body - pos));
  '(crypto_profile, nonce) ← split_at_zero rest;
  if len nonce =? TICKET_ENTROPY then Some (make crypto_profile nonce) else None.

Definition sized (p : t) : Prop :=
  p.(version) <= u8_max /\ len p.(ticket_id) = 16 /\ len p.(client_endpoint_id_hash) = 32 /\
  len p.(server_endpoint_id_hash) = 32 /\ len p.(resumption_secret) = 32 /\ p.(issued_at_ms) <= u64_max /\
  p.(expires_at_ms) <= u64_max /\ p.(protocol_version) <= u32_max /\ len p.(nonce) = 16.

End TicketPayload.

Section Tickets.
Context `{Primitives}.

Definition TICKET_AAD : list u8 := bstr "UMP-SESSION-TICKET-v1".

Definition ticket_seal_key (ticket_key nonce : list u8) : list u8 := expand32 ticket_key (bstr "ticket seal") nonce.

Definition issue_ticket (ticket_key : list u8) (payload : TicketPayload.t) : Result Failure (list u8) :=
  let seal_key := ticket_seal_key ticket_key payload.(TicketPayload.nonce) in
  keys ← map_err (fun _ => Panic) (PacketKeys.from_traffic_secret seal_key);
  seal ← map_err (fun _ => Panic) (PacketKeys.seal keys 0 TICKET_AAD (TicketPayload.encode payload));
  Ok ([TICKET_VERSION] ++ payload.(TicketPayload.nonce) ++ seal).

Definition ticket_nonce (ticket : list u8) : option (list u8) :=
  first ← get ticket 0;
  if negb (first =? TICKET_VERSION) then None else get_range ticket 1 (1 + TICKET_ENTROPY).

Definition validate_ticket (ticket_key ticket : list u8) (now_ms : u64) : Result TicketError TicketPayload.t :=
  nonce ← ok_or TicketInvalid (ticket_nonce ticket);
  seal ← ok_or TicketInvalid (get_from ticket (1 + TICKET_ENTROPY));
  let seal_key := ticket_seal_key ticket_key nonce in
  keys ← map_err (fun _ => TicketInvalid) (PacketKeys.from_traffic_secret seal_key);
  plaintext ← map_err (fun _ => TicketInvalid) (PacketKeys.open keys 0 TICKET_AAD seal);
  payload ← ok_or TicketInvalid (TicketPayload.decode plaintext);
  if negb (payload.(TicketPayload.version) =? TICKET_VERSION) then Err TicketInvalid
  else if negb (bool_decide (payload.(TicketPayload.nonce) = nonce)) then Err TicketInvalid
  else if payload.(TicketPayload.expires_at_ms) <=? now_ms then Err TicketExpired
  else if MAX_TICKET_LIFETIME_MS <?
          saturating_sub payload.(TicketPayload.expires_at_ms) payload.(TicketPayload.issued_at_ms)
  then Err TicketInvalid
  else Ok payload.

End Tickets.

(** ** Retry tokens *)

Definition RETRY_VALIDITY_MS : u64 := 5 * 60 * 1000.
Definition RETRY_NONCE_LEN : usize := 16.

(** [RetryPanic]: an [expect] on a bounded field, or the overflow check of an
    addition. *)
Inductive RetryError := RetryTruncated | RetryVersion | RetryExpired | InvalidTag | RetryPanic.

Module RetryPayload.

Record t := mk {
  token_version : u8;
  source_context : list u8;
  original_destination_connection_id : list u8;
  client_random : list u8;
  client_ephemeral_public_key_hash : list u8;
  carrier_binding_hash : list u8;
  issued_at : u64;
  expires_at : u64;
  nonce : list u8
}.

Definition put (p : t) : EncOf RetryError :=
  put_u8 p.(token_version) >>>
  put_bytes_or RetryPanic p.(source_context) 256 >>>
  put_bytes_or RetryPanic p.(original_destination_connection_id) 20 >>>
  put_slice p.(client_random) >>>
  put_slice p.(client_ephemeral_public_key_hash) >>>
  put_slice p.(carrier_binding_hash) >>>
  put_slice (to_be_bytes 8 p.(issued_at)) >>>
  put_slice (to_be_bytes 8 p.(expires_at)) >>>
  put_slice p.(nonce).

Definition encode (p : t) : Result RetryError (list u8) := put p [].

Definition fields : DecOf RetryError t :=
  token_version ← read_be RetryTruncated 1;
  source_context ← read_bytes_or RetryTruncated 256;
  dcid ← read_bytes_or RetryTruncated 20;
  client_random ← read_slice_or RetryTruncated 32;
  client_eph_hash ← read_slice_or RetryTruncated 32;
  carrier_binding_hash ← read_slice_or RetryTruncated 32;
  issued_at ← read_be RetryTruncated 8;
  expires_at ← read_be RetryTruncated 8;
  nonce ← read_slice_or RetryTruncated 16;
  mret (mk token_version source_context dcid client_random client_eph_hash carrier_binding_hash
          issued_at expires_at nonce).

Definition decode (body : list u8) : Result RetryError t := '(p, _) ← fields body 0; Ok p.

Definition sized (p : t) : Prop :=
  p.(token_version) <= u8_max /\ len p.(client_random) = 32 /\ len p.(client_ephemeral_public_key_hash) = 32 /\
  len p.(carrier_binding_hash) = 32 /\ p.(issued_at) <= u64_max /\ p.(expires_at) <= u64_max /\ len p.(nonce) = 16.

End RetryPayload.

Section RetryTokens.
Context `{Primitives}.

Definition RETRY_AAD : list u8 := bstr "UMP-RETRY-TOKEN-v1".

Definition retry_keys (retry_key nonce : list u8) : Result RetryError PacketKeys.t :=
  seal_key ← map_err (fun _ => InvalidTag) (expand_label retry_key (bstr "retry seal") nonce 32);
  map_err (fun _ => InvalidTag) (PacketKeys.from_traffic_secret seal_key).

Definition issue_retry_token (retry_key : list u8) (payload : RetryPayload.t) (now_ms : u64)
    : Result RetryError (list u8) :=
  if payload.(RetryPayload.expires_at) <=? now_ms then Err RetryExpired
  else
    latest ← ok_or RetryPanic (checked_add payload.(RetryPayload.issued_at) RETRY_VALIDITY_MS);
    if latest <? payload.(RetryPayload.expires_at) then Err RetryExpired
    else
      keys ← retry_keys retry_key payload.(RetryPayload.nonce);
      plaintext ← RetryPayload.encode payload;
      seal ← map_err (fun _ => InvalidTag) (PacketKeys.seal keys 0 RETRY_AAD plaintext);
      Ok (payload.(RetryPayload.nonce) ++ seal).

Definition validate_retry_token (retry_key token : list u8) (now_ms : u64) : Result RetryError RetryPayload.t :=
  nonce ← ok_or InvalidTag (get_range token 0 RETRY_NONCE_LEN);
  keys ← retry_keys retry_key nonce;
  plaintext ← map_err (fun _ => InvalidTag) (PacketKeys.open keys 0 RETRY_AAD (from token RETRY_NONCE_LEN));
  payload ← RetryPayload.decode plaintext;
  if negb (bool_decide (payload.(RetryPayload.nonce) = nonce)) then Err InvalidTag
  else if negb (payload.(RetryPayload.token_version) =? 1) then Err RetryVersion
  else if payload.(RetryPayload.expires_at) <=? now_ms then Err RetryExpired
  else Ok payload.

End RetryTokens.

(** ** Derivations succeed *)

(** ChaCha20-Poly1305 refuses only messages near its limit of 256 GiB. *)
Class AeadTotal `{Primitives} : Prop :=
  aead_accepts k n a m : len m <= 65536 -> exists c, aead_encrypt k n a m = Some c.

#[export] Instance toy_total : AeadTotal.
Proof. intros k n a m _. by eexists. Qed.

Section Derivations.
Context `{HP : Primitives} {HL : PrimitiveLaws}.

Lemma expand32_is secret label context :
  len context <= 65535 ->
  expand_label secret label context 32 = Ok (expand32 secret label context) /\
  len (expand32 secret label context) = 32.
Proof.
  intros Hc. unfold expand32, expand_label. rewrite (proj2 (N.ltb_ge 65535 (len context))) by done.
  change (65535 <? 32) with false. cbv iota.
  by destruct (expand_Ok secret (label_info label context 32) 32) as (out & -> & ?).
Qed.

Lemma packet_keys_Ok secret : exists keys, PacketKeys.from_traffic_secret secret = Ok keys.
Proof.
  unfold PacketKeys.from_traffic_secret.
  destruct (expand_label_Ok secret (bstr "packet key") 32) as (k & -> & _); [done|].
  destruct (expand_label_Ok secret (bstr "packet iv") IV_LEN) as (iv & -> & _); [done|]. by eexists.
Qed.

Lemma seal_open keys pn aad m c : PacketKeys.seal keys pn aad m = Ok c -> PacketKeys.open keys pn aad c = Ok m.
Proof. unfold PacketKeys.seal, PacketKeys.open. intros H%ok_or_Ok. by rewrite (aead_correct _ _ _ _ _ H). Qed.

Lemma seal_len keys pn aad m c : PacketKeys.seal keys pn aad m = Ok c -> len c = len m + TAG_LEN.
Proof. unfold PacketKeys.seal. intros H%ok_or_Ok. by apply aead_overhead in H. Qed.

Lemma seal_Ok {HT : AeadTotal} keys pn aad m :
  len m <= 65536 -> exists c, PacketKeys.seal keys pn aad m = Ok c.
Proof.
  intros Hm. unfold PacketKeys.seal.
  destruct (aead_accepts keys.(PacketKeys.key) (PacketKeys.nonce_for keys pn) aad m Hm) as [c ->]. by exists c.
Qed.

Lemma extract_len salt ikm : len (extract salt ikm) = 32.
Proof. apply hmac_len. Qed.

End Derivations.

(** ** The authenticator check is equality *)

Lemma difference_zero (l : list (u8 * u8)) d :
  fold_left (fun difference '(a, e) => N.lor difference (N.lxor a e)) l d = 0 ->
  d = 0 /\ Forall (fun p => p.1 = p.2) l.
Proof.
  revert d. induction l as [|[a e] l IH]; intros d Hd; simpl in *; [auto|].
  apply IH in Hd as [[-> Hx]%N.lor_eq_0_iff HF]. apply N.lxor_eq in Hx. auto.
Qed.

Lemma constant_time_equal_spec a e :
  len a = len e -> constant_time_equal a e = true <-> a = e.
Proof.
  intros Hl. unfold constant_time_equal. rewrite N.eqb_eq. split.
  - intros [_ HF]%difference_zero. unfold len in Hl. assert (Hn : length a = length e) by lia. clear Hl.
    revert e Hn HF. induction a as [|x a IH]; intros [|y e] Hn HF; try done.
    simpl in HF. apply list.Forall_cons_1 in HF as [Hxy HF]. simpl in *. f_equal; [done|]. apply IH; [lia|done].
  - intros ->. clear Hl. induction e as [|x e IH]; [done|]. simpl. by rewrite N.lxor_nilpotent.
Qed.

Lemma authenticator_len `{Primitives, !PrimitiveLaws} k r e d c : len (invitation_authenticator k r e d c) = 16.
Proof.
  unfold invitation_authenticator. set (m := hmac_blake2s _ _). pose proof (hmac_len k _ : len m = 32) as Hm.
  unfold len in *. rewrite length_take. change (N.to_nat INVITATION_AUTH_LEN) with 16%nat. lia.
Qed.

Lemma verify_authenticator_spec `{Primitives, !PrimitiveLaws} k r e d c received :
  verify_invitation_authenticator k r e d c received = true <-> received = invitation_authenticator k r e d c.
Proof.
  unfold verify_invitation_authenticator. pose proof (authenticator_len k r e d c) as Ha.
  destruct (N.eqb_spec (len received) INVITATION_AUTH_LEN) as [Hl|Hl]; cbn [negb].
  - apply constant_time_equal_spec. by rewrite Ha.
  - split; [done|]. intros ->. by rewrite Ha in Hl.
Qed.

Lemma existsb_elem {A} `{EqDecision A} (x : A) l : existsb (fun m => bool_decide (m = x)) l = true <-> x ∈ l.
Proof.
  rewrite existsb_exists. split.
  - intros (y & Hy%list_elem_of_In & ->%bool_decide_eq_true_1). done.
  - intros Hx%list_elem_of_In. exists x. split; [done|]. by apply bool_decide_eq_true_2.
Qed.

(** ** Tickets and tokens are read back *)

Lemma reads_be {Er} (err : Er) n v :
  v < 256 ^ N.of_nat n -> reads (read_be err (N.of_nat n)) (to_be_bytes n v) v.
Proof.
  intros Hv. rewrite <- (app_nil_r (to_be_bytes n v)). eapply reads_bind; [apply reads_slice_or; by rewrite len_to_be_bytes|].
  rewrite from_to_be_bytes by done. apply reads_ret.
Qed.

Lemma to_be_bytes_1 v : v <= u8_max -> to_be_bytes 1 v = [v].
Proof. intros Hv. cbn. unfold u8_max in Hv. by rewrite N.mod_small by lia. Qed.

Lemma split_at_zero_app before after :
  Forall (fun b => b <> 0) before -> split_at_zero (before ++ 0 :: after) = Some (before, after).
Proof.
  induction 1 as [|b before Hb _ IH]; [done|]. simpl.
  destruct (N.eqb_spec b 0); [done|]. by rewrite IH.
Qed.

#[local] Arguments to_be_bytes : simpl never.

Lemma ticket_fields p :
  TicketPayload.sized p ->
  exists hd, TicketPayload.encode p = hd ++ p.(TicketPayload.crypto_profile) ++ 0 :: p.(TicketPayload.nonce) /\
    len hd = 133 /\
    exists make, reads TicketPayload.fields hd make /\ make p.(TicketPayload.crypto_profile) p.(TicketPayload.nonce) = p.
Proof.
  intros (Hv & Hi & Hc & Hs & Hr & Hia & Hea & Hpv & Hn). unfold TicketPayload.encode.
  exists (to_be_bytes 1 p.(TicketPayload.version) ++ p.(TicketPayload.ticket_id) ++ p.(TicketPayload.client_endpoint_id_hash) ++
    p.(TicketPayload.server_endpoint_id_hash) ++ p.(TicketPayload.resumption_secret) ++
    to_be_bytes 8 p.(TicketPayload.issued_at_ms) ++ to_be_bytes 8 p.(TicketPayload.expires_at_ms) ++
    to_be_bytes 4 p.(TicketPayload.protocol_version) ++ []).
  split; [by rewrite to_be_bytes_1, app_nil_r, <- !app_assoc by done|].
  split; [autorewrite with umc; lia|].
  unfold TicketPayload.fields. eexists. split.
  - unfold u8_max, u64_max, u32_max in *.
    eapply reads_bind; [apply (reads_be tt 1); simpl; lia|]. do 4 (eapply reads_bind; [by apply reads_slice_or|]).
    do 2 (eapply reads_bind; [apply (reads_be tt 8); simpl; lia|]).
    eapply reads_bind; [apply (reads_be tt 4); simpl; lia|]. apply reads_ret.
  - by destruct p.
Qed.

Lemma ticket_payload_read p :
  TicketPayload.sized p -> Forall (fun b => b <> 0) p.(TicketPayload.crypto_profile) ->
  len (TicketPayload.encode p) <= usize_max ->
  TicketPayload.decode (TicketPayload.encode p) = Some p.
Proof.
  intros Hp Hz Hl. destruct (ticket_fields p Hp) as (hd & He & Hhd & make & Hr & Hm). rewrite He in *.
  unfold TicketPayload.decode. rewrite (reads_start _ _ _ _ Hr Hl). cbn [ok mbind option_bind].
  rewrite (get_range_is _ hd (p.(TicketPayload.crypto_profile) ++ 0 :: p.(TicketPayload.nonce)) []);
    [|by rewrite app_nil_r|done|rewrite !len_app; lia].
  cbn [mbind option_bind]. rewrite split_at_zero_app by done. cbn [mbind option_bind].
  destruct Hp as (_ & _ & _ & _ & _ & _ & _ & _ & ->). change (16 =? TICKET_ENTROPY) with true. by rewrite Hm.
Qed.

Lemma retry_payload_codec p : RetryPayload.sized p -> codec (RetryPayload.put p) RetryPayload.fields p.
Proof.
  intros (Hv & Hr & He & Hc & Hi & Hx & Hn). unfold RetryPayload.put, RetryPayload.fields.
  assert (Hbe : forall n v, v < 256 ^ N.of_nat n ->
    codec (put_slice (to_be_bytes n v)) (read_be RetryTruncated (N.of_nat n)) v).
  { intros n v Hnv out out' <-%(inj Ok). eexists. split; [done|]. by apply reads_be. }
  unfold u8_max, u64_max in *.
  eapply codec_bind; [unfold put_u8; rewrite <- to_be_bytes_1 by (unfold u8_max; lia); apply (Hbe 1%nat); simpl; lia|].
  do 2 (eapply codec_bind; [apply codec_bytes_or|]). do 3 (eapply codec_bind; [by apply codec_slice_or|]).
  do 2 (eapply codec_bind; [apply (Hbe 8%nat); simpl; lia|]).
  eapply codec_last; [by apply codec_slice_or|]. by destruct p.
Qed.

Section Accepted.
Context `{HP : Primitives} {HL : PrimitiveLaws} {HT : AeadTotal}.

Lemma issue_ticket_Ok key p :
  TicketPayload.sized p -> len p.(TicketPayload.crypto_profile) <= 1024 ->
  exists keys seal,
    PacketKeys.from_traffic_secret (ticket_seal_key key p.(TicketPayload.nonce)) = Ok keys /\
    PacketKeys.seal keys 0 TICKET_AAD (TicketPayload.encode p) = Ok seal /\
    issue_ticket key p = Ok ([TICKET_VERSION] ++ p.(TicketPayload.nonce) ++ seal) /\
    len (TicketPayload.encode p) <= 2048.
Proof.
  intros Hp Hc. destruct (ticket_fields p Hp) as (hd & He & Hhd & _). destruct Hp as (_ & _ & _ & _ & _ & _ & _ & _ & Hn).
  assert (Hl : len (TicketPayload.encode p) <= 2048) by (rewrite He; autorewrite with umc; lia).
  destruct (packet_keys_Ok (ticket_seal_key key p.(TicketPayload.nonce))) as [keys Hk].
  destruct (seal_Ok keys 0 TICKET_AAD (TicketPayload.encode p)) as [seal Hs]; [lia|].
  exists keys, seal. unfold issue_ticket. rewrite Hk. cbn [map_err mbind Result_bind]. by rewrite Hs.
Qed.

Lemma ticket_nonce_of nonce seal :
  len nonce = TICKET_ENTROPY -> ticket_nonce ([TICKET_VERSION] ++ nonce ++ seal) = Some nonce.
Proof.
  intros Hn. unfold ticket_nonce. change (get ([TICKET_VERSION] ++ nonce ++ seal) 0) with (Some TICKET_VERSION).
  cbn [mbind option_bind]. change (negb (TICKET_VERSION =? TICKET_VERSION)) with false. cbv iota.
  apply (get_range_is _ [TICKET_VERSION] nonce seal); [done|done|]. by rewrite Hn.
Qed.

Lemma get_from_at {A} (l pre post : list A) n : l = pre ++ post -> n = len pre -> get_from l n = Some post.
Proof.
  intros -> ->. unfold get_from. rewrite (proj2 (N.leb_le _ _)) by (rewrite len_app; lia). by rewrite from_app_len.
Qed.

Lemma issue_retry_Ok key p now :
  RetryPayload.sized p -> len p.(RetryPayload.source_context) <= 256 ->
  len p.(RetryPayload.original_destination_connection_id) <= 20 ->
  now < p.(RetryPayload.expires_at) -> p.(RetryPayload.expires_at) <= p.(RetryPayload.issued_at) + RETRY_VALIDITY_MS ->
  p.(RetryPayload.issued_at) + RETRY_VALIDITY_MS <= u64_max ->
  exists keys plaintext seal,
    retry_keys key p.(RetryPayload.nonce) = Ok keys /\ RetryPayload.decode plaintext = Ok p /\
    PacketKeys.seal keys 0 RETRY_AAD plaintext = Ok seal /\
    issue_retry_token key p now = Ok (p.(RetryPayload.nonce) ++ seal) /\ len seal <= 512.
Proof.
  intros Hp Hsc Hd Hnow Hexp Hmax. pose proof (retry_payload_codec p Hp) as Hc.
  destruct Hp as (Hv & Hr & He & Hcb & Hi & Hx & Hn).
  assert (Hw : writes (RetryPayload.put p) (1 + ((8 + 256) + ((8 + 20) + (32 + (32 + (32 + (8 + (8 + 16))))))))).
  { unfold RetryPayload.put, put_u8.
    repeat apply writes_seq; try (by apply writes_bytes); eapply writes_le; try apply writes_slice;
      rewrite ?len_to_be_bytes; try (by vm_compute); lia. }
  destruct (writes_codec _ _ _ _ Hw Hc) as (pt & Hpt & Hl & Hread).
  destruct (expand32_is key (bstr "retry seal") p.(RetryPayload.nonce)) as [Hek _]; [lia|].
  destruct (packet_keys_Ok (expand32 key (bstr "retry seal") p.(RetryPayload.nonce))) as [keys Hk].
  destruct (seal_Ok keys 0 RETRY_AAD pt) as [seal Hs]; [lia|].
  assert (Hrk : retry_keys key p.(RetryPayload.nonce) = Ok keys).
  { unfold retry_keys. rewrite Hek. cbn [map_err mbind Result_bind]. by rewrite Hk. }
  exists keys, pt, seal. split; [done|]. split; [|split; [done|split]]; cycle 2.
  { pose proof (seal_len _ _ _ _ _ Hs) as Hsl. unfold TAG_LEN in Hsl. lia. }
  - unfold RetryPayload.decode. rewrite <- (app_nil_r pt). erewrite reads_start; [done|exact Hread|].
    rewrite app_nil_r. unfold usize_max, u64_max. lia.
  - unfold issue_retry_token. rewrite (proj2 (N.leb_gt _ _)) by done. unfold checked_add.
    rewrite (proj2 (N.leb_le _ _)) by done. cbn [ok_or mbind Result_bind]. rewrite (proj2 (N.ltb_ge _ _)) by done.
    rewrite Hrk. cbn [mbind Result_bind]. unfold RetryPayload.encode. rewrite Hpt. cbn [mbind Result_bind]. by rewrite Hs.
Qed.

Lemma retry_token_read key p now later :
  RetryPayload.sized p -> p.(RetryPayload.token_version) = 1 -> len p.(RetryPayload.source_context) <= 256 ->
  len p.(RetryPayload.original_destination_connection_id) <= 20 ->
  now < p.(RetryPayload.expires_at) -> p.(RetryPayload.expires_at) <= p.(RetryPayload.issued_at) + RETRY_VALIDITY_MS ->
  p.(RetryPayload.issued_at) + RETRY_VALIDITY_MS <= u64_max ->
  exists token, issue_retry_token key p now = Ok token /\ 16 <= len token <= 1024 /\
    validate_retry_token key token later =
      (if p.(RetryPayload.expires_at) <=? later then Err RetryExpired else Ok p).
Proof.
  intros Hp Hv Hsc Hd Hnow Hexp Hmax.
  destruct (issue_retry_Ok key p now) as (keys & pt & seal & Hk & Hdec & Hs & Hi & Hsl); try done.
  destruct Hp as (_ & _ & _ & _ & _ & _ & Hn).
  eexists. split; [exact Hi|]. split; [rewrite len_app; lia|]. unfold validate_retry_token.
  rewrite (get_range_is _ [] p.(RetryPayload.nonce) seal); [|done|done|by rewrite Hn].
  cbn [ok_or mbind Result_bind]. rewrite Hk. cbn [mbind Result_bind].
  replace RETRY_NONCE_LEN with (len p.(RetryPayload.nonce)) by (by rewrite Hn). rewrite from_app_len.
  rewrite (seal_open _ _ _ _ _ Hs). cbn [map_err mbind Result_bind]. rewrite Hdec. cbn [mbind Result_bind].
  rewrite bool_decide_eq_true_2, Hv by done. done.
Qed.

Lemma ticket_read key p now :
  TicketPayload.sized p -> p.(TicketPayload.version) = TICKET_VERSION ->
  Forall (fun b => b <> 0) p.(TicketPayload.crypto_profile) -> len p.(TicketPayload.crypto_profile) <= 1024 ->
  p.(TicketPayload.expires_at_ms) <= p.(TicketPayload.issued_at_ms) + MAX_TICKET_LIFETIME_MS ->
  exists ticket, issue_ticket key p = Ok ticket /\ 0 < len ticket <= 183 + len p.(TicketPayload.crypto_profile) /\
    ticket_nonce ticket = Some p.(TicketPayload.nonce) /\
    validate_ticket key ticket now =
      (if p.(TicketPayload.expires_at_ms) <=? now then Err TicketExpired else Ok p).
Proof.
  intros Hp Hv Hz Hc Hlife. destruct (issue_ticket_Ok key p Hp Hc) as (keys & seal & Hk & Hs & Hi & Hl).
  pose proof Hp as (_ & _ & _ & _ & _ & _ & _ & _ & Hn).
  eexists. split; [exact Hi|].
  split.
  { destruct (ticket_fields p Hp) as (hd & He & Hhd & _). pose proof (seal_len _ _ _ _ _ Hs) as Hsl. rewrite He in Hsl.
    unfold TAG_LEN in Hsl. autorewrite with umc in *. lia. }
  split; [by apply ticket_nonce_of|].
  unfold validate_ticket. rewrite ticket_nonce_of by done. cbn [ok_or mbind Result_bind].
  rewrite (get_from_at _ ([TICKET_VERSION] ++ p.(TicketPayload.nonce)) seal);
    [|by rewrite <- app_assoc|rewrite len_app, Hn; done].
  cbn [ok_or mbind Result_bind]. rewrite Hk. cbn [map_err mbind Result_bind].
  rewrite (seal_open _ _ _ _ _ Hs). cbn [map_err mbind Result_bind].
  rewrite ticket_payload_read by (done || (unfold usize_max, u64_max; lia)). cbn [ok_or mbind Result_bind].
  rewrite Hv, N.eqb_refl, bool_decide_eq_true_2 by done. cbn [negb].
  case (_ <=? now); [done|]. by rewrite (proj2 (N.ltb_ge _ _)) by (unfold saturating_sub; lia).
Qed.

End Accepted.

(** ** Properties *)

(** A session ticket is accepted while it lives, with what it carried: the
    ticket issued for a payload of at most a day is refused as expired from its
    expiry on, and before it yields exactly that payload; and its bearer reads
    the nonce it needs for the resumption key from the clear prefix. *)
Theorem ticket_accepted `{Primitives, !PrimitiveLaws, !AeadTotal} key p now :
  TicketPayload.sized p -> p.(TicketPayload.version) = TICKET_VERSION ->
  Forall (fun b => b <> 0) p.(TicketPayload.crypto_profile) -> len p.(TicketPayload.crypto_profile) <= 1024 ->
  p.(TicketPayload.expires_at_ms) <= p.(TicketPayload.issued_at_ms) + MAX_TICKET_LIFETIME_MS ->
  exists ticket, issue_ticket key p = Ok ticket /\
    ticket_nonce ticket = Some p.(TicketPayload.nonce) /\
    validate_ticket key ticket now =
      (if p.(TicketPayload.expires_at_ms) <=? now then Err TicketExpired else Ok p).
Proof. intros Hp Hv Hz Hc Hlife. destruct (ticket_read key p now Hp Hv Hz Hc Hlife) as (ticket & ? & _ & ?). by exists ticket. Qed.

Definition sample_ticket : TicketPayload.t :=
  TicketPayload.mk 1 (replicate 16 1) (replicate 32 2) (replicate 32 3) (replicate 32 4) 1000 3601000 1
    CRYPTO_PROFILE (replicate 16 5).

Lemma ticket_accepted_witness :
  exists ticket, issue_ticket (zeros 32) sample_ticket = Ok ticket /\
    ticket_nonce ticket = Some (replicate 16 5) /\ validate_ticket (zeros 32) ticket 5000 = Ok sample_ticket.
Proof.
  apply (ticket_accepted (H := toy_primitives) (zeros 32) sample_ticket 5000).
  - unfold TicketPayload.sized. split_and!; by vm_compute.
  - done.
  - cbv. repeat (apply list.Forall_cons_2; [done|]). apply list.Forall_nil_2.
  - by vm_compute.
  - by vm_compute.
Defined.

(** What a ticket check accepts is what the server sealed: the payload
    opens under the key of the ticket's own nonce, names that nonce, has the
    current version, is not expired and does not outlive a day, whatever bytes
    were presented. *)
Theorem ticket_sound `{Primitives} key ticket now p :
  validate_ticket key ticket now = Ok p ->
  ticket_nonce ticket = Some p.(TicketPayload.nonce) /\
  p.(TicketPayload.version) = TICKET_VERSION /\ now < p.(TicketPayload.expires_at_ms) /\
  p.(TicketPayload.expires_at_ms) - p.(TicketPayload.issued_at_ms) <= MAX_TICKET_LIFETIME_MS /\
  exists keys plaintext,
    PacketKeys.from_traffic_secret (ticket_seal_key key p.(TicketPayload.nonce)) = Ok keys /\
    PacketKeys.open keys 0 TICKET_AAD (from ticket (1 + TICKET_ENTROPY)) = Ok plaintext /\
    TicketPayload.decode plaintext = Some p.
Proof.
  unfold validate_ticket. intros (nonce & Hn%ok_or_Ok & Hv)%bind_Ok.
  apply bind_Ok in Hv as (seal & Hs%ok_or_Ok & Hv). apply bind_Ok in Hv as (keys & Hk%map_err_Ok & Hv).
  apply bind_Ok in Hv as (pt & Ho%map_err_Ok & Hv). apply bind_Ok in Hv as (p' & Hd%ok_or_Ok & Hv).
  destruct (N.eqb_spec p'.(TicketPayload.version) TICKET_VERSION) as [Hver|]; [|done]. cbn [negb] in Hv.
  case_bool_decide as Hnn; [|done]. cbn [negb] in Hv.
  destruct (N.leb_spec p'.(TicketPayload.expires_at_ms) now); [done|].
  destruct (N.ltb_spec MAX_TICKET_LIFETIME_MS (saturating_sub p'.(TicketPayload.expires_at_ms) p'.(TicketPayload.issued_at_ms))); [done|].
  apply (inj Ok) in Hv as ->. subst nonce. unfold get_from in Hs. case_match; [|done].
  apply (inj Some) in Hs as <-. split_and!; [done|done|done|by unfold saturating_sub in *|]. eauto.
Qed.

Lemma ticket_sound_witness :
  exists ticket, issue_ticket (zeros 32) sample_ticket = Ok ticket /\
    ticket_nonce ticket = Some sample_ticket.(TicketPayload.nonce) /\
    sample_ticket.(TicketPayload.version) = TICKET_VERSION /\ 5000 < sample_ticket.(TicketPayload.expires_at_ms) /\
    sample_ticket.(TicketPayload.expires_at_ms) - sample_ticket.(TicketPayload.issued_at_ms) <= MAX_TICKET_LIFETIME_MS /\
    exists keys plaintext,
      PacketKeys.from_traffic_secret (ticket_seal_key (zeros 32) sample_ticket.(TicketPayload.nonce)) = Ok keys /\
      PacketKeys.open keys 0 TICKET_AAD (from ticket (1 + TICKET_ENTROPY)) = Ok plaintext /\
      TicketPayload.decode plaintext = Some sample_ticket.
Proof.
  eexists. split; [vm_compute; reflexivity|]. apply (ticket_sound (H := toy_primitives)). vm_compute. reflexivity.
Defined.

(** A retry token is accepted for its five minutes, with what it carried:
    the token issued for a payload is refused as expired from its expiry on,
    and before it yields exactly that payload. *)
Theorem retry_token_accepted `{Primitives, !PrimitiveLaws, !AeadTotal} key p now later :
  RetryPayload.sized p -> p.(RetryPayload.token_version) = 1 -> len p.(RetryPayload.source_context) <= 256 ->
  len p.(RetryPayload.original_destination_connection_id) <= 20 ->
  now < p.(RetryPayload.expires_at) -> p.(RetryPayload.expires_at) <= p.(RetryPayload.issued_at) + RETRY_VALIDITY_MS ->
  p.(RetryPayload.issued_at) + RETRY_VALIDITY_MS <= u64_max ->
  exists token, issue_retry_token key p now = Ok token /\
    validate_retry_token key token later =
      (if p.(RetryPayload.expires_at) <=? later then Err RetryExpired else Ok p).
Proof. intros. destruct (retry_token_read key p now later) as (token & ? & _ & ?); eauto. Qed.

Definition sample_retry : RetryPayload.t :=
  RetryPayload.mk 1 (replicate 8 1) (replicate 8 2) (replicate 32 3) (replicate 32 4) (replicate 32 5)
    1000 301000 (replicate 16 6).

Lemma retry_token_accepted_witness :
  exists token, issue_retry_token (zeros 32) sample_retry 1000 = Ok token /\
    validate_retry_token (zeros 32) token 300999 = Ok sample_retry.
Proof.
  apply (retry_token_accepted (H := toy_primitives) (zeros 32) sample_retry 1000 300999); by vm_compute.
Defined.

(** An invitation admits exactly its holder: a PSK-XX hello passes the
    admission check of an invitation key, a connection identifier and a carrier
    if and only if it offers the mode and carries the authenticator computed
    with that key over its own random value and ephemeral key, that identifier
    and that carrier; the hello built with the key passes it. *)
Theorem invitation_admits `{Primitives, Curves, !PrimitiveLaws} c hello :
  (PskAdmissionContext.verify_client_hello c hello = Ok tt <->
    MODE_PSK_XX ∈ hello.(ClientHello.supported_handshake_modes) /\
    hello.(ClientHello.invitation_authenticator) =
      invitation_authenticator c.(PskAdmissionContext.invitation_key) hello.(ClientHello.client_random)
        hello.(ClientHello.client_ephemeral_public_key) c.(PskAdmissionContext.destination_connection_id)
        c.(PskAdmissionContext.carrier_binding)) /\
  forall random ephemeral,
    new_psk_xx random ephemeral c.(PskAdmissionContext.invitation_key)
      c.(PskAdmissionContext.destination_connection_id) c.(PskAdmissionContext.carrier_binding) = Ok hello ->
    PskAdmissionContext.verify_client_hello c hello = Ok tt.
Proof.
  assert (Hiff : PskAdmissionContext.verify_client_hello c hello = Ok tt <->
    MODE_PSK_XX ∈ hello.(ClientHello.supported_handshake_modes) /\
    hello.(ClientHello.invitation_authenticator) =
      invitation_authenticator c.(PskAdmissionContext.invitation_key) hello.(ClientHello.client_random)
        hello.(ClientHello.client_ephemeral_public_key) c.(PskAdmissionContext.destination_connection_id)
        c.(PskAdmissionContext.carrier_binding)).
  { unfold PskAdmissionContext.verify_client_hello, offers. rewrite <- verify_authenticator_spec.
    rewrite <- (existsb_elem MODE_PSK_XX). destruct (existsb _ _); [|naive_solver]. cbn [negb].
    destruct (N.eqb_spec (len hello.(ClientHello.invitation_authenticator)) 0) as [Hz|Hz].
    - unfold verify_invitation_authenticator. rewrite Hz. naive_solver.
    - destruct (verify_invitation_authenticator _ _ _ _ _ _); naive_solver. }
  split; [done|]. intros random ephemeral (h0 & _ & <-%(inj Ok))%bind_Ok. apply Hiff.
  split; [by apply list_elem_of_here|done].
Qed.
