(* ===== verification/HandshakePackets.v ===== *)
(** * Handshake packets (crates/umc-handshake/src/initial.rs, handshake_packet.rs, retry_packet.rs)

    The protected Initial and Handshake packets and the Retry packet, with the
    daemon's use of them (bins/umcd/src/initial.rs, unix_main.rs).  What one
    side builds the other side reads: the padded Initial packet, the encrypted
    Handshake packet and the authenticated Retry packet. *)

From Stdlib Require Import Strings.String.
From S2P Require Import Prelude FrameTypes Codec Varint WireBytes Pn Header Records Crypto Identity HandshakeMessages HandshakeKeys ProtectedPacket.

Definition MIN_INITIAL_UDP : usize := 1200.

(** [usize::checked_sub] *)
Definition checked_sub (a b : usize) : option usize := if b <=? a then Some (a - b) else None.

(** ** Initial packets *)

(** The label, filled up with zeros. *)
Definition INITIAL_SALT : list u8 := take 32 (bstr "UMP-1-INITIAL-SALT" ++ zeros 32).

Module InitialKeys.
Record t := mk { client : PacketKeys.t; server : PacketKeys.t }.
End InitialKeys.

Section Initial.
Context `{Primitives}.

Definition derive_initial_keys (destination_connection_id : list u8) : Result Failure InitialKeys.t :=
  let initial_secret := extract INITIAL_SALT destination_connection_id in
  let client_secret := expand32 initial_secret (bstr "client initial") [] in
  let server_secret := expand32 initial_secret (bstr "server initial") [] in
  client ← traffic_keys client_secret;
  server ← traffic_keys server_secret;
  Ok (InitialKeys.mk client server).

(** A long header with a one-byte packet number; [None], a panic, is excluded
    by the width. *)
Definition long_header (ptype : LongPacketType) (dcid scid token : list u8) (payload_len pn : u64)
    : Result HeaderError (list u8) :=
  default (Err HeaderTruncated)
    (LongHeader.encode (LongHeader.mk ptype PROTOCOL_VERSION dcid scid token payload_len pn 8)).

(** The packet number, the last byte of the header, and the first byte are
    masked; the ciphertext follows. *)
Definition protect_long (keys : PacketKeys.t) (header ciphertext : list u8) : option (list u8) :=
  pn_offset ← checked_sub (len header) 1;
  sample ← get_range ciphertext 0 SAMPLE_LEN;
  first ← get header 0;
  let '(protected_first, pn_bytes) := protect keys.(PacketKeys.hp_key) first sample (from header pn_offset) in
  Some (<[0%nat := protected_first]> (take (N.to_nat pn_offset) header) ++ pn_bytes ++ ciphertext).

(** One pass of the loop per padding byte; [fuel] bounds the passes. *)
Fixpoint pad_and_seal (fuel : nat) (dcid scid : list u8) (pn : u64) (plaintext token : list u8) (keys : PacketKeys.t)
    : Result Failure (list u8) :=
  match fuel with
  | O => Err (Message "unreachable")
  | S fuel =>
      header ← map_err (message "header") (long_header Initial dcid scid token (len plaintext + TAG_LEN) pn);
      if MIN_INITIAL_UDP <=? len header + len plaintext + TAG_LEN then
        ciphertext ← map_err (message "seal") (PacketKeys.seal keys pn header plaintext);
        ok_or (Message "initial payload too short for header protection") (protect_long keys header ciphertext)
      else pad_and_seal fuel dcid scid pn (plaintext ++ [0]) token keys
  end.

Definition build_initial_packet_with_token (dcid scid : list u8) (pn : u64) (payload token : list u8)
    (keys : PacketKeys.t) : Result Failure (list u8) :=
  pad_and_seal (S (N.to_nat MIN_INITIAL_UDP)) dcid scid pn payload token keys.

Definition build_initial_packet (dcid scid : list u8) (pn : u64) (payload : list u8) (keys : PacketKeys.t)
    : Result Failure (list u8) :=
  build_initial_packet_with_token dcid scid pn payload [] keys.

(** The first byte, decoded, of an Initial packet. *)
Definition initial_byte (bytes : list u8) : option HeaderByte.t :=
  first ← get bytes 0;
  hb ← ok (HeaderByte.decode first);
  ty ← HeaderByte.long_type hb;
  if negb hb.(HeaderByte.long) || negb (bool_decide (ty = Initial)) then None else Some hb.

Definition initial_dcid (bytes : list u8) : option (list u8) :=
  _ ← initial_byte bytes;
  dcid_len ← get bytes 5;
  get_range bytes 6 (6 + dcid_len).

(** The connection identifiers and the position after them. *)
Definition initial_ids (bytes : list u8) : option (list u8 * list u8 * usize) :=
  dcid_len ← get bytes 5;
  dcid ← get_range bytes 6 (6 + dcid_len);
  scid_len ← get bytes (6 + dcid_len);
  scid ← get_range bytes (7 + dcid_len) (7 + dcid_len + scid_len);
  Some (dcid, scid, 7 + dcid_len + scid_len).

(** The token's length, checked, and the position after the token. *)
Definition skip_token (bytes : list u8) (pos : usize) : option usize :=
  rest ← get_from bytes pos;
  '(token_len, n) ← ok (Varint.decode rest);
  if MAX_TOKEN_LEN <? token_len then None
  else
    pos ← checked_add (pos + n) token_len;
    if len bytes <? pos then None else Some pos.

(** The header up to the packet number: first byte, identifiers, the position of
    the packet number and the length of the ciphertext. *)
Definition initial_header (bytes : list u8) : option (HeaderByte.t * list u8 * list u8 * usize * u64) :=
  hb ← initial_byte bytes;
  '(dcid, scid, pos) ← initial_ids bytes;
  pos ← skip_token bytes pos;
  rest ← get_from bytes pos;
  '(ciphertext_len, n) ← ok (Varint.decode rest);
  pos ← checked_add pos n;
  if len bytes <? pos then None else Some (hb, dcid, scid, pos, ciphertext_len).

(** The width of the packet number follows from the packet's boundary. *)
Definition parse_initial_protected (bytes : list u8) (keys : PacketKeys.t)
    : option (list u8 * u64 * list u8 * list u8) :=
  '(hb, dcid, scid, pos, ciphertext_len) ← initial_header bytes;
  remaining ← checked_sub (len bytes) pos;
  pn_bytes ← checked_sub remaining ciphertext_len;
  if negb ((pn_bytes =? 1) || (pn_bytes =? 2) || (pn_bytes =? 4) || (pn_bytes =? 8)) then None
  else
    protected_pn ← get_range bytes pos (pos + pn_bytes);
    ciphertext_start ← checked_add pos pn_bytes;
    ciphertext_end ← checked_add ciphertext_start ciphertext_len;
    ciphertext ← get_range bytes ciphertext_start ciphertext_end;
    if negb (len ciphertext =? ciphertext_len) || negb (ciphertext_start + ciphertext_len =? len bytes) then None
    else
      sample ← get_range ciphertext 0 SAMPLE_LEN;
      let '(unprotected_first, _, unprotected_pn) :=
        unprotect keys.(PacketKeys.hp_key) (HeaderByte.encode hb) sample protected_pn in
      unprotected_hb ← ok (HeaderByte.decode unprotected_first);
      ty ← HeaderByte.long_type unprotected_hb;
      if negb unprotected_hb.(HeaderByte.long) || negb (bool_decide (ty = Initial))
         || negb (unprotected_hb.(HeaderByte.pn_bits) =? pn_bytes * 8) then None
      else
        let truncated_pn := from_be_bytes unprotected_pn in
        packet_number ← ok (reconstruct truncated_pn hb.(HeaderByte.pn_bits) 0);
        let aad := <[0%nat := unprotected_first]> (take (N.to_nat (ciphertext_start - pn_bytes)) bytes)
                   ++ unprotected_pn in
        payload ← ok (PacketKeys.open keys packet_number aad ciphertext);
        Some (dcid, truncated_pn, payload, scid).

Definition parse_initial_with_keys (bytes : list u8) (keys : PacketKeys.t)
    : option (list u8 * u64 * list u8 * list u8) := parse_initial_protected bytes keys.

Definition try_parse_initial (bytes : list u8) : option (list u8 * u64 * list u8 * list u8) :=
  dcid ← initial_dcid bytes;
  keys ← ok (derive_initial_keys dcid);
  parse_initial_with_keys bytes keys.(InitialKeys.client).

End Initial.

(** The daemon's reader of the token (bins/umcd/src/initial.rs). *)
Definition initial_token (bytes : list u8) : option (list u8) :=
  _ ← initial_byte bytes;
  dcid_len ← get bytes 5;
  scid_len ← get bytes (6 + dcid_len);
  pos ← (p ← checked_add 7 dcid_len; checked_add p scid_len);
  rest ← get_from bytes pos;
  '(token_len, width) ← ok (Varint.decode rest);
  if MAX_TOKEN_LEN <? token_len then None
  else
    pos ← checked_add pos width;
    token_end ← checked_add pos token_len;
    get_range bytes pos token_end.

(** The hello inside an Initial payload, bare or in an envelope, without the
    padding that follows it. *)
Definition decode_client_hello (bytes : list u8) : Result Failure (list u8) :=
  let enveloped :=
    match Encoding.decode_message bytes with
    | Ok (m, _) =>
        match ClientHello.decode m.(Encoding.body) with
        | Ok _ => if m.(Encoding.message_type) =? Encoding.CLIENT_HELLO then Some m.(Encoding.body) else None
        | Err _ => None
        end
    | Err _ => None
    end in
  match enveloped with
  | Some body => Ok body
  | None =>
      match ClientHello.decode bytes with
      | Ok hello => map_err (message "hello re-encode") (ClientHello.encode hello)
      | Err _ =>
          '(m, _) ← map_err (message "hello framing") (Encoding.decode_message bytes);
          if negb (m.(Encoding.message_type) =? Encoding.CLIENT_HELLO)
          then Err (Message "expected CLIENT_HELLO") else Ok m.(Encoding.body)
      end
  end.

(** ** Handshake packets *)

Inductive HandshakePacketError :=
| PacketHeader (e : HeaderError)
| PacketAead (e : AeadError)
| PacketNumber (e : PnError)
| PacketTruncated
| PacketType
| PacketLength.

Section HandshakePacket.
Context `{Primitives}.

Definition build_handshake_packet (dcid scid : list u8) (packet_number : u64) (payload : list u8)
    (keys : PacketKeys.t) : Result HandshakePacketError (list u8) :=
  if u8_max <? packet_number then Err PacketLength
  else
    header ← map_err PacketHeader (long_header Handshake dcid scid [] (1 + len payload + TAG_LEN) packet_number);
    ciphertext ← map_err PacketAead (PacketKeys.seal keys packet_number header payload);
    ok_or PacketTruncated (protect_long keys header ciphertext).

(** [bytes.get(pos)], then [bytes.get(pos..pos + len)], and the position after *)
Definition read_id (bytes : list u8) (pos : usize) : Result HandshakePacketError (list u8 * usize) :=
  id_len ← ok_or PacketTruncated (get bytes pos);
  id ← ok_or PacketTruncated (get_range bytes (pos + 1) (saturating_add (pos + 1) id_len));
  Ok (id, pos + 1 + id_len).

Definition read_length (bytes : list u8) (pos : usize) : Result HandshakePacketError (u64 * usize) :=
  rest ← ok_or PacketTruncated (get_from bytes pos);
  map_err (fun _ => PacketTruncated) (Varint.decode rest).

Definition parse_protected_handshake_packet (bytes : list u8) (keys : PacketKeys.t) (expected_packet_number : u64)
    : Result HandshakePacketError (list u8 * list u8 * u64 * list u8) :=
  first ← ok_or PacketTruncated (get bytes 0);
  header_byte ← map_err PacketHeader (HeaderByte.decode first);
  if negb header_byte.(HeaderByte.long) then Err PacketType
  else if negb (bool_decide (HeaderByte.long_type header_byte = Some Handshake)) then Err PacketType
  else
    '(dcid, pos) ← read_id bytes 5;
    '(scid, pos) ← read_id bytes pos;
    '(token_len, token_bytes) ← read_length bytes pos;
    pos ← ok_or PacketLength (p ← checked_add pos token_bytes; checked_add p token_len);
    if len bytes <? pos then Err PacketTruncated
    else
      '(payload_len, payload_len_bytes) ← read_length bytes pos;
      pos ← ok_or PacketLength (checked_add pos payload_len_bytes);
      let pn_len := header_byte.(HeaderByte.pn_bits) / 8 in
      if payload_len <? pn_len then Err PacketLength
      else
        protected_pn ← ok_or PacketTruncated (get_range bytes pos (saturating_add pos pn_len));
        let ciphertext_len := payload_len - pn_len in
        ciphertext_start ← ok_or PacketLength (checked_add pos pn_len);
        ciphertext ← ok_or PacketTruncated
                       (get_range bytes ciphertext_start (saturating_add ciphertext_start ciphertext_len));
        if negb (len ciphertext =? ciphertext_len) || negb (ciphertext_start + ciphertext_len =? len bytes)
        then Err PacketLength
        else
          sample ← ok_or PacketTruncated (get_range ciphertext 0 SAMPLE_LEN);
          let '(unprotected_first, _, unprotected_pn) :=
            unprotect keys.(PacketKeys.hp_key) first sample protected_pn in
          unprotected_header ← map_err PacketHeader (HeaderByte.decode unprotected_first);
          if negb unprotected_header.(HeaderByte.long)
             || negb (bool_decide (HeaderByte.long_type unprotected_header = Some Handshake))
             || negb (unprotected_header.(HeaderByte.pn_bits) =? header_byte.(HeaderByte.pn_bits))
          then Err PacketType
          else
            let truncated := from_be_bytes unprotected_pn in
            packet_number ← map_err PacketNumber
              (reconstruct truncated unprotected_header.(HeaderByte.pn_bits) expected_packet_number);
            let aad := <[0%nat := unprotected_first]> (take (N.to_nat (ciphertext_start - pn_len)) bytes)
                       ++ unprotected_pn in
            payload ← map_err PacketAead (PacketKeys.open keys packet_number aad ciphertext);
            Ok (dcid, scid, packet_number, payload).

Definition parse_handshake_packet (bytes : list u8) (keys : PacketKeys.t) (expected_packet_number : u64)
    : Result HandshakePacketError (list u8 * list u8 * u64 * list u8) :=
  parse_protected_handshake_packet bytes keys expected_packet_number.

(** The message of one type inside a Handshake packet: [decode_client_auth],
    [decode_client_finished] of the daemon and the client's reader of
    SERVER_FINISHED. *)
Definition decode_handshake_message (ty : u64) (bytes : list u8) (keys : PacketKeys.t) : Result Failure (list u8) :=
  '(_, _, _, body) ← map_err (message "packet") (parse_handshake_packet bytes keys 0);
  '(m, _) ← map_err (message "framing") (Encoding.decode_message body);
  if negb (m.(Encoding.message_type) =? ty) then Err (Message "unexpected message type")
  else Ok m.(Encoding.body).

Definition decode_client_auth := decode_handshake_message Encoding.CLIENT_AUTH.
Definition decode_client_finished := decode_handshake_message Encoding.CLIENT_FINISHED.

End HandshakePacket.

(** ** Retry packets *)

Definition RETRY_INTEGRITY_TAG_LEN : usize := 16.

Module RetryPacket.
Record t := mk {
  version : u32;
  destination_connection_id : list u8;
  source_connection_id : list u8;
  token : list u8
}.
End RetryPacket.

Inductive RetryPacketError :=
| RetryHeader
| RetryPacketTruncated
| RetryType
| RetryPacketVersion
| RetryIdTooLong
| RetryTokenTooLong
| Integrity
| RetryTrailing.

(** [constant_time_equal] of retry_packet.rs *)
Definition tags_equal (left right : list u8) : bool := (len left =? len right) && constant_time_equal left right.

Section RetryPackets.
Context `{Primitives}.

Definition retry_context (original_client_hello retry_packet : list u8) : list u8 :=
  blake2s (bstr "UMP-RETRY-CONTEXT-v1" ++ blake2s original_client_hello ++ blake2s retry_packet).

Definition integrity_tag (retry_key authenticated : list u8) : list u8 :=
  let key := expand32 retry_key (bstr "retry integrity") [] in
  take (N.to_nat RETRY_INTEGRITY_TAG_LEN) (blake2s (key ++ authenticated)).

Definition build_retry_packet (version : u32) (destination_connection_id source_connection_id token retry_key : list u8)
    : Result RetryPacketError (list u8) :=
  if version =? 0 then Err RetryPacketVersion
  else if (MAX_CONNECTION_ID_LEN <? len destination_connection_id)
          || (MAX_CONNECTION_ID_LEN <? len source_connection_id) then Err RetryIdTooLong
  else if MAX_TOKEN_LEN <? len token then Err RetryTokenTooLong
  else
    let out := [HeaderByte.encode HeaderByte.LONG_RETRY] ++ to_be_bytes 4 version ++
               [len destination_connection_id] ++ destination_connection_id ++
               [len source_connection_id] ++ source_connection_id in
    out ← map_err (fun _ => RetryTokenTooLong) (Varint.encode_into out (len token));
    let out := out ++ token in
    Ok (out ++ integrity_tag retry_key out).

(** One connection identifier at a position, and the position after it. *)
Definition read_retry_id (bytes : list u8) (pos : usize) : Result RetryPacketError (list u8 * usize) :=
  id_len ← ok_or RetryPacketTruncated (get bytes pos);
  pos ← ok_or RetryPacketTruncated (checked_add pos 1);
  if MAX_CONNECTION_ID_LEN <? id_len then Err RetryIdTooLong
  else
    id_end ← ok_or RetryPacketTruncated (checked_add pos id_len);
    id ← ok_or RetryPacketTruncated (get_range bytes pos id_end);
    Ok (id, id_end).

(** The fields before the integrity tag: version, identifiers, the token's length
    and where the tag starts. *)
Definition retry_header (bytes : list u8) : Result RetryPacketError (u32 * list u8 * list u8 * usize * usize) :=
  first ← ok_or RetryPacketTruncated (get bytes 0);
  header ← map_err (fun _ => RetryHeader) (HeaderByte.decode first);
  if negb header.(HeaderByte.long) || negb (bool_decide (HeaderByte.long_type header = Some Retry))
  then Err RetryType
  else
    version_bytes ← ok_or RetryPacketTruncated (get_range bytes 1 5);
    let version := from_be_bytes version_bytes in
    if version =? 0 then Err RetryPacketVersion
    else
      '(destination_connection_id, pos) ← read_retry_id bytes 5;
      '(source_connection_id, pos) ← read_retry_id bytes pos;
      rest ← ok_or RetryPacketTruncated (get_from bytes pos);
      '(token_len, width) ← map_err (fun _ => RetryHeader) (Varint.decode rest);
      if MAX_TOKEN_LEN <? token_len then Err RetryTokenTooLong
      else
        tag_start ← ok_or RetryPacketTruncated (p ← checked_add pos width; checked_add p token_len);
        Ok (version, destination_connection_id, source_connection_id, token_len, tag_start).

(** [if let Some(retry_key) = retry_key]: the tag is compared. *)
Definition tag_valid (bytes : list u8) (tag_start : usize) (retry_key : option (list u8)) : bool :=
  match retry_key with
  | Some retry_key => tags_equal (from bytes tag_start) (integrity_tag retry_key (take (N.to_nat tag_start) bytes))
  | None => true
  end.

Definition parse_retry_packet_inner (bytes : list u8) (retry_key : option (list u8))
    : Result RetryPacketError RetryPacket.t :=
  '(version, destination_connection_id, source_connection_id, token_len, tag_start) ← retry_header bytes;
  tag_end ← ok_or RetryPacketTruncated (checked_add tag_start RETRY_INTEGRITY_TAG_LEN);
  if len bytes <? tag_end then Err RetryPacketTruncated
  else if tag_end <? len bytes then Err RetryTrailing
  else if negb (tag_valid bytes tag_start retry_key) then Err Integrity
  else
    token ← ok_or RetryPacketTruncated (get_range bytes (tag_start - token_len) tag_start);
    Ok (RetryPacket.mk version destination_connection_id source_connection_id token).

Definition parse_retry_packet (bytes retry_key : list u8) : Result RetryPacketError RetryPacket.t :=
  parse_retry_packet_inner bytes (Some retry_key).

Definition decode_retry_packet (bytes : list u8) : Result RetryPacketError RetryPacket.t :=
  parse_retry_packet_inner bytes None.

End RetryPackets.

(** ** Layout *)

#[local] Arguments to_be_bytes : simpl never.

Lemma get_is {A} (l pre post : list A) x i : l = pre ++ x :: post -> i = len pre -> get l i = Some x.
Proof. intros -> ->. apply get_app_len. Qed.

Lemma checked_add_is a b c : a + b = c -> c <= u64_max -> checked_add a b = Some c.
Proof. intros <- Hc. unfold checked_add. by rewrite (proj2 (N.leb_le _ _)). Qed.

Lemma checked_sub_is a b c : a = b + c -> checked_sub a b = Some c.
Proof. intros ->. unfold checked_sub. rewrite (proj2 (N.leb_le _ _)) by lia. f_equal. lia. Qed.

(** The bytes of a long header up to its packet number. *)
Definition long_prefix (version_bytes dcid scid tl token pl : list u8) : list u8 :=
  version_bytes ++ [len dcid] ++ dcid ++ [len scid] ++ scid ++ tl ++ token ++ pl.

Definition varint_of (bs : list u8) (v : u64) : Prop :=
  (forall rest, Varint.decode (bs ++ rest) = Ok (v, len bs)) /\ len bs <= 8.

Lemma encode_into_varint_of out v :
  v <= MAX_VARINT -> exists bs, Varint.encode_into out v = Ok (out ++ bs) /\ varint_of bs v.
Proof.
  intros Hv. destruct (writes_varint id v Hv out) as (bs & E & Hl). apply map_err_Ok in E.
  destruct (Varint.encode_into_decode _ _ _ E) as (bs' & Hb%app_inv_head & Hd). subst bs'. exists bs. done.
Qed.

Lemma long_header_Ok ty dcid scid token plen pn :
  len dcid <= MAX_CONNECTION_ID_LEN -> len scid <= MAX_CONNECTION_ID_LEN -> len token <= MAX_TOKEN_LEN ->
  plen <= MAX_VARINT -> pn <= u8_max ->
  exists tl pl, varint_of tl (len token) /\ varint_of pl plen /\
    long_header ty dcid scid token plen pn =
      Ok ([HeaderByte.encode (LongHeader.header_byte ty)] ++
          long_prefix (to_be_bytes 4 PROTOCOL_VERSION) dcid scid tl token pl ++ [pn]).
Proof.
  intros Hd Hs Ht Hp Hn. unfold MAX_CONNECTION_ID_LEN, MAX_TOKEN_LEN in *.
  unfold long_header, LongHeader.encode. cbn [LongHeader.ptype LongHeader.version LongHeader.dcid LongHeader.scid
    LongHeader.token LongHeader.payload_len LongHeader.packet_number LongHeader.pn_bits].
  unfold MAX_CONNECTION_ID_LEN, MAX_TOKEN_LEN.
  rewrite !(proj2 (N.ltb_ge 20 _)) by done. cbn [orb]. rewrite (proj2 (N.ltb_ge 1024 _)) by done.
  assert (Has : forall n, n <= 20 -> as_u8 n = n) by (intros n Hn'; unfold as_u8; by rewrite N.mod_small by lia).
  rewrite !Has by done. cbv zeta.
  match goal with |- context [Varint.encode_into ?o (len token)] =>
    destruct (encode_into_varint_of o (len token)) as (tl & -> & Htl); [unfold MAX_VARINT; lia|] end.
  match goal with |- context [Varint.encode_into ?o plen] =>
    destruct (encode_into_varint_of o plen Hp) as (pl & -> & Hpl) end.
  exists tl, pl. split; [done|]. split; [done|]. change (8 / 8) with 1. rewrite pn_suffix_bytes by done.
  change (N.to_nat 1) with 1%nat. rewrite to_be_bytes_1 by done. cbn [mbind option_bind default].
  unfold long_prefix. by rewrite <- !app_assoc.
Qed.

Section Layout.
Context `{HP : Primitives} {HL : PrimitiveLaws}.

Lemma sample_of (ct : list u8) : 16 <= len ct -> get_range ct 0 SAMPLE_LEN = Some (take 16 ct).
Proof.
  intros Hc. apply (get_range_is ct [] (take 16 ct) (drop 16 ct)); [by rewrite app_nil_l, take_drop|done|].
  unfold SAMPLE_LEN, len in *. rewrite length_take. lia.
Qed.

Lemma protect_long_layout keys b mid p ct :
  16 <= len ct ->
  let m := mask keys.(PacketKeys.hp_key) (take 16 ct) in
  protect_long keys ([b] ++ mid ++ [p]) ct =
    Some ([N.lxor b (phase_mask m)] ++ mid ++ xor_zip [p] m ++ ct).
Proof.
  intros Hc m. unfold protect_long.
  rewrite (checked_sub_is _ 1 (len ([b] ++ mid))) by (autorewrite with umc; lia). cbn [mbind option_bind].
  rewrite sample_of by done. cbn [mbind option_bind]. change (get ([b] ++ mid ++ [p]) 0) with (Some b). cbn [mbind option_bind].
  rewrite (app_assoc [b] mid [p]), from_app_len. unfold protect. fold m.
  by rewrite <- length_len, take_app_length.
Qed.

(** The mask changes nothing of the first byte but the bit of the key phase. *)
Lemma phase_mask_cases m : phase_mask m = 0 \/ phase_mask m = 16.
Proof.
  unfold phase_mask. generalize (default 0 (m !! 4%nat)). intros x. change 16 with (2 ^ 4). rewrite N.land_comm.
  destruct (N.testbit x 4) eqn:E; [right|left].
  - apply N.bits_inj. intros i. rewrite N.land_spec, N.pow2_bits_eqb. destruct (N.eqb_spec 4 i) as [<-|]; [by rewrite E|done].
  - apply N.bits_inj_0. intros i. rewrite N.land_spec, N.pow2_bits_eqb. destruct (N.eqb_spec 4 i) as [<-|]; [by rewrite E|done].
Qed.

Lemma masked_byte ty m :
  exists hb, HeaderByte.decode (N.lxor (HeaderByte.encode (LongHeader.header_byte ty)) (phase_mask m)) = Ok hb /\
    HeaderByte.encode hb = N.lxor (HeaderByte.encode (LongHeader.header_byte ty)) (phase_mask m) /\
    hb.(HeaderByte.long) = true /\ HeaderByte.long_type hb = Some ty /\ hb.(HeaderByte.pn_bits) = 8.
Proof. destruct (phase_mask_cases m) as [-> | ->], ty; eexists; repeat split; vm_compute; reflexivity. Qed.

Lemma plain_byte ty :
  HeaderByte.decode (HeaderByte.encode (LongHeader.header_byte ty)) = Ok (LongHeader.header_byte ty) /\
  HeaderByte.long (LongHeader.header_byte ty) = true /\ HeaderByte.pn_bits (LongHeader.header_byte ty) = 8 /\
  HeaderByte.long_type (LongHeader.header_byte ty) = Some ty.
Proof. by destruct ty. Qed.

Lemma reconstruct_byte pn : pn <= u8_max -> reconstruct pn 8 0 = Ok pn.
Proof.
  unfold u8_max. intros Hp.
  assert (Hr : match reconstruct pn 8 0 with Ok n => n =? pn | _ => false end = true).
  { apply (all_below_spec 256 (fun pn => match reconstruct pn 8 0 with Ok n => n =? pn | _ => false end)); [done|lia]. }
  destruct (reconstruct pn 8 0); [|done]. by apply N.eqb_eq in Hr as ->.
Qed.

End Layout.

(** ** Initial packets are read back *)

(** A packet: first byte, prefix, packet number, ciphertext. *)
Section Fields.
Variables (f : u8) (vb dcid scid tl token pl pnb ct : list u8).
Hypothesis Hvb : len vb = 4.
Let bytes : list u8 := [f] ++ long_prefix vb dcid scid tl token pl ++ pnb ++ ct.

(** Everything before a field and everything after it. *)
Lemma bytes_at_dcid_len : bytes = ([f] ++ vb) ++ len dcid :: (dcid ++ [len scid] ++ scid ++ tl ++ token ++ pl ++ pnb ++ ct).
Proof. unfold bytes, long_prefix. by rewrite <- !app_assoc. Qed.
Lemma bytes_at_dcid : bytes = ([f] ++ vb ++ [len dcid]) ++ dcid ++ ([len scid] ++ scid ++ tl ++ token ++ pl ++ pnb ++ ct).
Proof. unfold bytes, long_prefix. by rewrite <- !app_assoc. Qed.
Lemma bytes_at_scid_len : bytes = ([f] ++ vb ++ [len dcid] ++ dcid) ++ len scid :: (scid ++ tl ++ token ++ pl ++ pnb ++ ct).
Proof. unfold bytes, long_prefix. by rewrite <- !app_assoc. Qed.
Lemma bytes_at_scid : bytes = ([f] ++ vb ++ [len dcid] ++ dcid ++ [len scid]) ++ scid ++ (tl ++ token ++ pl ++ pnb ++ ct).
Proof. unfold bytes, long_prefix. by rewrite <- !app_assoc. Qed.
Lemma bytes_at_token_len :
  bytes = ([f] ++ vb ++ [len dcid] ++ dcid ++ [len scid] ++ scid) ++ (tl ++ token ++ pl ++ pnb ++ ct).
Proof. unfold bytes, long_prefix. by rewrite <- !app_assoc. Qed.
Lemma bytes_at_payload_len :
  bytes = ([f] ++ vb ++ [len dcid] ++ dcid ++ [len scid] ++ scid ++ tl ++ token) ++ (pl ++ pnb ++ ct).
Proof. unfold bytes, long_prefix. by rewrite <- !app_assoc. Qed.
Lemma bytes_at_pn : bytes = ([f] ++ long_prefix vb dcid scid tl token pl) ++ pnb ++ ct.
Proof. unfold bytes. by rewrite <- !app_assoc. Qed.

Lemma long_prefix_len :
  len (long_prefix vb dcid scid tl token pl) = 6 + len dcid + len scid + len tl + len token + len pl.
Proof. unfold long_prefix. autorewrite with umc. lia. Qed.

Lemma get_dcid_len : get bytes 5 = Some (len dcid).
Proof. apply (get_is _ _ _ _ _ bytes_at_dcid_len). autorewrite with umc. lia. Qed.
Lemma get_dcid n : n = 6 + len dcid -> get_range bytes 6 n = Some dcid.
Proof. intros ->. apply (get_range_is _ _ _ _ _ _ bytes_at_dcid); autorewrite with umc; lia. Qed.
Lemma get_scid_len n : n = 6 + len dcid -> get bytes n = Some (len scid).
Proof. intros ->. apply (get_is _ _ _ _ _ bytes_at_scid_len). autorewrite with umc. lia. Qed.
Lemma get_scid lo hi : lo = 7 + len dcid -> hi = lo + len scid -> get_range bytes lo hi = Some scid.
Proof. intros -> ->. apply (get_range_is _ _ _ _ _ _ bytes_at_scid); autorewrite with umc; lia. Qed.
Lemma from_token_len n : n = 7 + len dcid + len scid -> get_from bytes n = Some (tl ++ token ++ pl ++ pnb ++ ct).
Proof. intros ->. apply (get_from_at _ _ _ _ bytes_at_token_len). autorewrite with umc. lia. Qed.
Lemma from_payload_len n :
  n = 7 + len dcid + len scid + len tl + len token -> get_from bytes n = Some (pl ++ pnb ++ ct).
Proof. intros ->. apply (get_from_at _ _ _ _ bytes_at_payload_len). autorewrite with umc. lia. Qed.
Lemma get_pn lo hi :
  lo = 7 + len dcid + len scid + len tl + len token + len pl -> hi = lo + len pnb -> get_range bytes lo hi = Some pnb.
Proof.
  intros -> ->. apply (get_range_is _ _ _ _ _ _ bytes_at_pn); rewrite ?len_app, ?long_prefix_len; autorewrite with umc; lia.
Qed.
Lemma get_ciphertext lo hi :
  lo = 7 + len dcid + len scid + len tl + len token + len pl + len pnb -> hi = lo + len ct ->
  get_range bytes lo hi = Some ct.
Proof.
  intros -> ->. apply (get_range_is _ ([f] ++ long_prefix vb dcid scid tl token pl ++ pnb) ct []).
  - unfold bytes. by rewrite app_nil_r, <- !app_assoc.
  - rewrite !len_app, long_prefix_len. autorewrite with umc. lia.
  - lia.
Qed.
Lemma take_header n x :
  n = 7 + len dcid + len scid + len tl + len token + len pl ->
  <[0%nat := x]> (take (N.to_nat n) bytes) = [x] ++ long_prefix vb dcid scid tl token pl.
Proof.
  intros ->. rewrite bytes_at_pn, take_app_length'; [done|].
  rewrite length_len, len_app, long_prefix_len. autorewrite with umc. lia.
Qed.
Lemma bytes_len : len bytes = 7 + len dcid + len scid + len tl + len token + len pl + len pnb + len ct.
Proof. unfold bytes. rewrite !len_app, long_prefix_len. autorewrite with umc. lia. Qed.

End Fields.

Section InitialRead.
Context `{HP : Primitives} {HL : PrimitiveLaws}.

Lemma initial_header_read pf hb vb dcid scid tl token pl plen tail :
  let bytes := [pf] ++ long_prefix vb dcid scid tl token pl ++ tail in
  HeaderByte.decode pf = Ok hb -> hb.(HeaderByte.long) = true -> HeaderByte.long_type hb = Some Initial ->
  len vb = 4 -> varint_of tl (len token) -> varint_of pl plen -> len token <= MAX_TOKEN_LEN ->
  len bytes <= usize_max ->
  initial_header bytes = Some (hb, dcid, scid, 7 + len dcid + len scid + len tl + len token + len pl, plen).
Proof.
  intros bytes Hdec Hlong Hty Hvb [Htl _] [Hpl _] Htok Hmax.
  pose proof (bytes_len pf vb dcid scid tl token pl [] tail Hvb) as Hlen.
  change (@len u8 []) with 0 in Hlen. rewrite app_nil_l in Hlen. fold bytes in Hlen.
  unfold usize_max in Hmax. unfold initial_header, initial_byte.
  change (get bytes 0) with (Some pf). cbn [mbind option_bind]. rewrite Hdec. cbn [ok mbind option_bind].
  rewrite Hty. cbn [mbind option_bind]. rewrite Hlong. cbn [negb orb]. rewrite bool_decide_eq_true_2 by done. cbn [negb].
  cbn [mbind option_bind]. unfold initial_ids, bytes. rewrite (get_dcid_len _ _ _ _ _ _ _ [] tail) by done. cbn [mbind option_bind].
  rewrite (get_dcid _ _ _ _ _ _ _ [] tail) by done. cbn [mbind option_bind].
  rewrite (get_scid_len _ _ _ _ _ _ _ [] tail) by done. cbn [mbind option_bind].
  rewrite (get_scid _ _ _ _ _ _ _ [] tail) by done. cbn [mbind option_bind].
  unfold skip_token. rewrite (from_token_len _ _ _ _ _ _ _ [] tail) by done.
  cbn [mbind option_bind]. rewrite Htl. cbn [ok mbind option_bind].
  rewrite (proj2 (N.ltb_ge _ _)) by done. fold bytes.
  rewrite (checked_add_is _ _ (7 + len dcid + len scid + len tl + len token)) by lia. cbn [mbind option_bind].
  rewrite (proj2 (N.ltb_ge _ _)) by lia. cbn [mbind option_bind].
  unfold bytes. rewrite (from_payload_len _ _ _ _ _ _ _ [] tail) by done. cbn [mbind option_bind].
  rewrite Hpl. cbn [ok mbind option_bind]. fold bytes.
  rewrite (checked_add_is _ _ (7 + len dcid + len scid + len tl + len token + len pl)) by lia. cbn [mbind option_bind].
  by rewrite (proj2 (N.ltb_ge _ _)) by lia.
Qed.

Lemma initial_token_read pf hb vb dcid scid tl token pl tail :
  let bytes := [pf] ++ long_prefix vb dcid scid tl token pl ++ tail in
  HeaderByte.decode pf = Ok hb -> hb.(HeaderByte.long) = true -> HeaderByte.long_type hb = Some Initial ->
  len vb = 4 -> varint_of tl (len token) -> len token <= MAX_TOKEN_LEN -> len bytes <= usize_max ->
  initial_token bytes = Some token.
Proof.
  intros bytes Hdec Hlong Hty Hvb [Htl _] Htok Hmax.
  pose proof (bytes_len pf vb dcid scid tl token pl [] tail Hvb) as Hlen.
  change (@len u8 []) with 0 in Hlen. rewrite app_nil_l in Hlen. fold bytes in Hlen.
  unfold usize_max in Hmax. unfold initial_token, initial_byte.
  change (get bytes 0) with (Some pf). cbn [mbind option_bind]. rewrite Hdec. cbn [ok mbind option_bind].
  rewrite Hty. cbn [mbind option_bind]. rewrite Hlong. cbn [negb orb]. rewrite bool_decide_eq_true_2 by done. cbn [negb].
  cbn [mbind option_bind]. unfold bytes. rewrite (get_dcid_len _ _ _ _ _ _ _ [] tail) by done. cbn [mbind option_bind].
  rewrite (get_scid_len _ _ _ _ _ _ _ [] tail) by done. cbn [mbind option_bind]. fold bytes.
  rewrite (checked_add_is _ _ (7 + len dcid)) by lia. cbn [mbind option_bind].
  rewrite (checked_add_is _ _ (7 + len dcid + len scid)) by lia. cbn [mbind option_bind].
  unfold bytes. rewrite (from_token_len _ _ _ _ _ _ _ [] tail) by done. cbn [mbind option_bind]. rewrite Htl. cbn [ok mbind option_bind].
  rewrite (proj2 (N.ltb_ge _ _)) by done. fold bytes.
  rewrite (checked_add_is _ _ (7 + len dcid + len scid + len tl)) by lia. cbn [mbind option_bind].
  rewrite (checked_add_is _ _ (7 + len dcid + len scid + len tl + len token)) by lia. cbn [mbind option_bind].
  apply (get_range_is _ ([pf] ++ vb ++ [len dcid] ++ dcid ++ [len scid] ++ scid ++ tl) token (pl ++ tail)).
  - unfold bytes, long_prefix. by rewrite <- !app_assoc.
  - rewrite !len_app. autorewrite with umc. lia.
  - lia.
Qed.

(** An Initial packet is neither a Retry nor a Version-Negotiation packet. *)
Lemma initial_is_no_other bytes dcid :
  initial_dcid bytes = Some dcid ->
  (exists e, retry_header bytes = Err e) /\ parse_version_negotiation bytes = None.
Proof.
  unfold initial_dcid, initial_byte, retry_header, parse_version_negotiation.
  destruct (get bytes 0) as [first|]; [|done]. cbn [mbind option_bind ok_or Result_bind].
  destruct (HeaderByte.decode first) as [hb|]; [|done]. cbn [ok map_err mbind option_bind Result_bind].
  destruct (HeaderByte.long_type hb) as [ty|] eqn:Et; [|done]. cbn [mbind option_bind].
  destruct hb.(HeaderByte.long); [|done]. cbn [negb orb].
  destruct (bool_decide_reflect (ty = Initial)) as [->|]; [|done]. intros _. split; [by eexists|done].
Qed.

Lemma initial_fields keys vb dcid scid tl token pl pn ct plaintext :
  let b := HeaderByte.encode (LongHeader.header_byte Initial) in
  let m := mask keys.(PacketKeys.hp_key) (take 16 ct) in
  let bytes := [N.lxor b (phase_mask m)] ++ long_prefix vb dcid scid tl token pl ++ xor_zip [pn] m ++ ct in
  len vb = 4 -> varint_of tl (len token) -> varint_of pl (len ct) -> len token <= MAX_TOKEN_LEN ->
  16 <= len ct -> pn <= u8_max -> len bytes <= usize_max ->
  PacketKeys.open keys pn ([b] ++ long_prefix vb dcid scid tl token pl ++ [pn]) ct = Ok plaintext ->
  parse_initial_protected bytes keys = Some (dcid, pn, plaintext, scid).
Proof.
  intros b m bytes Hvb Htl Hpl Htok Hct Hpn Hmax Hopen.
  set (pf := N.lxor b (phase_mask m)) in *. set (pnb := xor_zip [pn] m) in *.
  assert (Hpnb : len pnb = 1) by (unfold pnb; by rewrite len_xor_zip).
  pose proof (bytes_len pf vb dcid scid tl token pl pnb ct Hvb) as Hlen. fold bytes in Hlen. rewrite Hpnb in Hlen.
  destruct (masked_byte Initial m) as (hb & Hdec & Henc & Hlong & Hty & Hbits). fold b in Hdec, Henc. fold pf in Hdec, Henc.
  unfold parse_initial_protected.
  assert (Hh : initial_header bytes = Some (hb, dcid, scid, 7 + len dcid + len scid + len tl + len token + len pl, len ct))
    by (by apply initial_header_read). rewrite Hh. clear Hh.
  unfold usize_max in Hmax. cbn [mbind option_bind].
  set (pos := 7 + len dcid + len scid + len tl + len token + len pl) in *.
  rewrite (checked_sub_is _ _ (1 + len ct)) by lia. cbn [mbind option_bind].
  rewrite (checked_sub_is _ _ 1) by lia. cbn [mbind option_bind N.eqb orb negb Pos.eqb].
  assert (Hgp : get_range bytes pos (pos + 1) = Some pnb) by (apply get_pn; [done|done|by rewrite Hpnb]).
  rewrite Hgp. cbn [mbind option_bind]. rewrite (checked_add_is _ 1 (pos + 1)) by lia. cbn [mbind option_bind].
  rewrite (checked_add_is _ (len ct) (len bytes)) by lia. cbn [mbind option_bind].
  assert (Hgc : get_range bytes (pos + 1) (len bytes) = Some ct) by (apply get_ciphertext; [done|by rewrite Hpnb|lia]).
  rewrite Hgc. cbn [mbind option_bind].
  rewrite N.eqb_refl. rewrite (proj2 (N.eqb_eq _ (len bytes))) by lia. cbn [negb orb].
  rewrite sample_of by done. cbn [mbind option_bind]. unfold unprotect. fold m. rewrite Henc. unfold pf, pnb.
  rewrite lxor_cancel, xor_zip_involutive.
  unfold b. destruct (plain_byte Initial) as (Hd & Hl & Hb & Ht). rewrite Hd. cbn [ok mbind option_bind].
  rewrite Ht. cbn [mbind option_bind]. rewrite Hl, Hb. cbn [negb orb].
  rewrite bool_decide_eq_true_2 by done. cbn [negb orb N.eqb N.mul Pos.mul Pos.eqb].
  change (from_be_bytes [pn]) with (0 * 256 + pn). rewrite N.mul_0_l, N.add_0_l.
  rewrite Hbits, reconstruct_byte by done. cbn [ok mbind option_bind].
  rewrite N.add_sub. unfold bytes. rewrite take_header by done.
  rewrite <- app_assoc. fold b. by rewrite Hopen.
Qed.

(** What is sealed under a long header and protected. *)
Lemma seal_long {HT : AeadTotal} ty dcid scid token plen pn pt keys :
  len dcid <= MAX_CONNECTION_ID_LEN -> len scid <= MAX_CONNECTION_ID_LEN -> len token <= MAX_TOKEN_LEN ->
  plen <= MAX_VARINT -> pn <= u8_max -> len pt <= 65536 ->
  exists tl pl ct, varint_of tl (len token) /\ varint_of pl plen /\ len ct = len pt + TAG_LEN /\
    let b := HeaderByte.encode (LongHeader.header_byte ty) in
    let mid := long_prefix (to_be_bytes 4 PROTOCOL_VERSION) dcid scid tl token pl in
    let m := mask keys.(PacketKeys.hp_key) (take 16 ct) in
    long_header ty dcid scid token plen pn = Ok ([b] ++ mid ++ [pn]) /\
    PacketKeys.seal keys pn ([b] ++ mid ++ [pn]) pt = Ok ct /\
    PacketKeys.open keys pn ([b] ++ mid ++ [pn]) ct = Ok pt /\
    protect_long keys ([b] ++ mid ++ [pn]) ct =
      Some ([N.lxor b (phase_mask m)] ++ mid ++ xor_zip [pn] m ++ ct).
Proof.
  intros Hd Hs Ht Hp Hn Hpt.
  destruct (long_header_Ok ty dcid scid token plen pn Hd Hs Ht Hp Hn) as (tl & pl & Htl & Hpl & Hh).
  set (header := [_] ++ _ ++ [pn]) in Hh.
  destruct (seal_Ok keys pn header pt Hpt) as [ct Hct]. pose proof (seal_len _ _ _ _ _ Hct) as Hl.
  exists tl, pl, ct. split_and!; [done|done|done|]. cbv zeta. fold header.
  split_and!; [done|done|by apply seal_open|]. apply protect_long_layout. rewrite Hl. unfold TAG_LEN. lia.
Qed.

Lemma pad_and_seal_read {HT : AeadTotal} fuel dcid scid pn pt token keys :
  len dcid <= MAX_CONNECTION_ID_LEN -> len scid <= MAX_CONNECTION_ID_LEN -> len token <= MAX_TOKEN_LEN ->
  pn <= u8_max -> len pt + N.of_nat fuel <= 65536 -> (0 < fuel)%nat -> MIN_INITIAL_UDP < N.of_nat fuel + len pt ->
  exists k packet, pad_and_seal fuel dcid scid pn pt token keys = Ok packet /\
    parse_initial_protected packet keys = Some (dcid, pn, pt ++ zeros k, scid) /\
    initial_dcid packet = Some dcid /\ MIN_INITIAL_UDP <= len packet /\ (k <= fuel)%nat /\ initial_token packet = Some token.
Proof.
  intros Hd Hs Ht Hn. unfold MIN_INITIAL_UDP. revert pt. induction fuel as [|fuel IH]; intros pt Hl H0 Hf; [lia|].
  cbn [pad_and_seal].
  destruct (seal_long Initial dcid scid token (len pt + TAG_LEN) pn pt keys) as (tl & pl & ct & Htl & Hpl & Hct & Hh & Hse & Ho & Hpr);
    try done; [unfold MAX_VARINT, TAG_LEN; lia|lia|]. cbv zeta in *.
  rewrite Hh. cbn [map_err mbind Result_bind].
  set (mid := long_prefix _ _ _ _ _ _) in *. unfold MIN_INITIAL_UDP.
  destruct (N.leb_spec 1200 (len ([HeaderByte.encode (LongHeader.header_byte Initial)] ++ mid ++ [pn]) + len pt + TAG_LEN)) as [Hle|Hgt].
  - rewrite Hse. cbn [map_err mbind Result_bind]. rewrite Hpr. cbn [ok_or]. eexists 0%nat, _. split; [reflexivity|].
    unfold zeros. cbn [replicate]. rewrite app_nil_r. rewrite <- Hct in Hpl.
    assert (Hmid : len mid <= 2000).
    { unfold mid. rewrite long_prefix_len by done. destruct Htl, Hpl. unfold MAX_CONNECTION_ID_LEN, MAX_TOKEN_LEN in *. lia. }
    assert (Hbl : len ([N.lxor (HeaderByte.encode (LongHeader.header_byte Initial)) (phase_mask (mask keys.(PacketKeys.hp_key) (take 16 ct)))] ++
      mid ++ xor_zip [pn] (mask keys.(PacketKeys.hp_key) (take 16 ct)) ++ ct) <= usize_max).
    { rewrite !len_app, len_xor_zip. unfold usize_max, u64_max, TAG_LEN in *. autorewrite with umc. lia. }
    split; [|split; [|split; [|split; [lia|]]]].
    + apply initial_fields; try done. unfold TAG_LEN in *; lia.
    + set (m := mask _ _). destruct (masked_byte Initial m) as (hb & Hdec & _ & Hlong & Hty & _).
      unfold initial_dcid, initial_byte. cbn [app get]. set (pf := N.lxor _ _) in *.
      change (get (pf :: _) 0) with (Some pf). cbn [mbind option_bind]. rewrite Hdec. cbn [ok mbind option_bind].
      rewrite Hty. cbn [mbind option_bind]. rewrite Hlong, bool_decide_eq_true_2 by done. cbn [negb orb mbind option_bind].
      change (pf :: mid ++ ?x) with ([pf] ++ mid ++ x). unfold mid. rewrite get_dcid_len by done. cbn [mbind option_bind].
      by rewrite get_dcid by done.
    + rewrite !len_app in *. rewrite len_xor_zip. autorewrite with umc in *. lia.
    + destruct (masked_byte Initial (mask keys.(PacketKeys.hp_key) (take 16 ct))) as (hb & Hdec & _ & Hlong & Hty & _).
      by eapply initial_token_read.
  - assert (Hpt : len (pt ++ [0]) = len pt + 1) by (autorewrite with umc; lia).
    destruct (IH (pt ++ [0])) as (k & packet & Hb & Hpa & Hdc & Hm & Hk & Hto); [lia|lia|lia|].
    exists (S k), packet. split; [done|]. split; [|split; [done|split; [done|split; [lia|done]]]]. rewrite Hpa. by rewrite <- app_assoc.
Qed.

End InitialRead.

(** ** Handshake packets are read back *)

Section HandshakeRead.
Context `{HP : Primitives} {HL : PrimitiveLaws}.

Lemma saturating_is a b : a + b <= u64_max -> saturating_add a b = a + b.
Proof. intros Hs. unfold saturating_add. lia. Qed.

Lemma handshake_ids f vb dcid scid tl token pl tail :
  let bytes := [f] ++ long_prefix vb dcid scid tl token pl ++ tail in
  len vb = 4 -> len bytes <= usize_max ->
  read_id bytes 5 = Ok (dcid, 6 + len dcid) /\ read_id bytes (6 + len dcid) = Ok (scid, 7 + len dcid + len scid).
Proof.
  intros bytes Hvb Hmax. pose proof (bytes_len f vb dcid scid tl token pl [] tail Hvb) as Hlen.
  change (@len u8 []) with 0 in Hlen. rewrite app_nil_l in Hlen. fold bytes in Hlen. unfold usize_max in Hmax.
  unfold read_id, bytes. rewrite (get_dcid_len _ _ _ _ _ _ _ [] tail), (get_scid_len _ _ _ _ _ _ _ [] tail) by done.
  cbn [ok_or mbind Result_bind]. rewrite !saturating_is by (unfold u64_max in *; lia).
  rewrite (get_dcid _ _ _ _ _ _ _ [] tail), (get_scid _ _ _ _ _ _ _ [] tail) by (done || lia).
  cbn [ok_or mbind Result_bind]. split; do 2 f_equal; lia.
Qed.

Lemma handshake_lengths f vb dcid scid tl token pl plen tail :
  let bytes := [f] ++ long_prefix vb dcid scid tl token pl ++ tail in
  len vb = 4 -> varint_of tl (len token) -> varint_of pl plen ->
  read_length bytes (7 + len dcid + len scid) = Ok (len token, len tl) /\
  read_length bytes (7 + len dcid + len scid + len tl + len token) = Ok (plen, len pl).
Proof.
  intros bytes Hvb [Htl _] [Hpl _]. unfold read_length, bytes.
  rewrite (from_token_len _ _ _ _ _ _ _ [] tail), (from_payload_len _ _ _ _ _ _ _ [] tail) by done.
  cbn [ok_or mbind Result_bind]. by rewrite Htl, Hpl.
Qed.

Lemma handshake_fields keys vb dcid scid tl token pl pn ct plaintext expected :
  let b := HeaderByte.encode (LongHeader.header_byte Handshake) in
  let m := mask keys.(PacketKeys.hp_key) (take 16 ct) in
  let bytes := [N.lxor b (phase_mask m)] ++ long_prefix vb dcid scid tl token pl ++ xor_zip [pn] m ++ ct in
  len vb = 4 -> varint_of tl (len token) -> varint_of pl (1 + len ct) ->
  16 <= len ct -> reconstruct pn 8 expected = Ok pn -> len bytes <= usize_max ->
  PacketKeys.open keys pn ([b] ++ long_prefix vb dcid scid tl token pl ++ [pn]) ct = Ok plaintext ->
  parse_handshake_packet bytes keys expected = Ok (dcid, scid, pn, plaintext).
Proof.
  intros b m bytes Hvb Htl Hpl Hct Hpn Hmax Hopen.
  set (pf := N.lxor b (phase_mask m)) in *. set (pnb := xor_zip [pn] m) in *.
  assert (Hpnb : len pnb = 1) by (unfold pnb; by rewrite len_xor_zip).
  pose proof (bytes_len pf vb dcid scid tl token pl pnb ct Hvb) as Hlen. fold bytes in Hlen. rewrite Hpnb in Hlen.
  destruct (masked_byte Handshake m) as (hb & Hdec & _ & Hlong & Hty & Hbits). fold b in Hdec. fold pf in Hdec.
  destruct (handshake_ids pf vb dcid scid tl token pl (pnb ++ ct) Hvb Hmax) as [Hi1 Hi2]. fold bytes in Hi1, Hi2.
  destruct (handshake_lengths pf vb dcid scid tl token pl (1 + len ct) (pnb ++ ct) Hvb Htl Hpl) as [Hl1 Hl2]. fold bytes in Hl1, Hl2.
  unfold usize_max in Hmax. unfold parse_handshake_packet, parse_protected_handshake_packet.
  change (get bytes 0) with (Some pf). cbn [ok_or mbind Result_bind]. rewrite Hdec. cbn [map_err mbind Result_bind].
  rewrite Hlong, Hty, bool_decide_eq_true_2, Hi1 by done. cbn [negb mbind Result_bind]. rewrite Hi2. cbn [mbind Result_bind].
  rewrite Hl1. cbn [mbind Result_bind]. rewrite (checked_add_is _ (len tl) (7 + len dcid + len scid + len tl)) by lia.
  cbn [mbind option_bind]. rewrite (checked_add_is _ (len token) (7 + len dcid + len scid + len tl + len token)) by lia.
  cbn [ok_or mbind Result_bind]. rewrite (proj2 (N.ltb_ge _ _)) by lia. rewrite Hl2. cbn [mbind Result_bind].
  set (pos := 7 + len dcid + len scid + len tl + len token + len pl) in *.
  rewrite (checked_add_is _ (len pl) pos) by lia. cbn [ok_or mbind Result_bind].
  rewrite Hbits. change (8 / 8) with 1. rewrite (proj2 (N.ltb_ge _ _)) by lia. rewrite saturating_is by lia.
  assert (Hgp : get_range bytes pos (pos + 1) = Some pnb) by (apply get_pn; [done|done|by rewrite Hpnb]).
  rewrite Hgp. cbn [ok_or mbind Result_bind]. rewrite (checked_add_is _ 1 (pos + 1)) by lia. cbn [ok_or mbind Result_bind].
  replace (1 + len ct - 1) with (len ct) by lia. rewrite saturating_is by lia.
  assert (Hgc : get_range bytes (pos + 1) (pos + 1 + len ct) = Some ct) by (apply get_ciphertext; [done|by rewrite Hpnb|done]).
  rewrite Hgc. cbn [ok_or mbind Result_bind]. rewrite N.eqb_refl, (proj2 (N.eqb_eq _ (len bytes))) by lia. cbn [negb orb].
  rewrite sample_of by done. cbn [ok_or mbind Result_bind]. unfold unprotect. fold m. unfold pf, pnb.
  rewrite lxor_cancel, xor_zip_involutive.
  unfold b. destruct (plain_byte Handshake) as (Hd & Hl & Hb & Ht). rewrite Hd. cbn [map_err mbind Result_bind].
  rewrite Hl, Hb, Ht, bool_decide_eq_true_2 by done. cbn [negb orb N.eqb Pos.eqb].
  change (from_be_bytes [pn]) with (0 * 256 + pn). rewrite N.mul_0_l, N.add_0_l, Hpn. cbn [map_err mbind Result_bind].
  rewrite N.add_sub. unfold bytes. rewrite take_header by done. rewrite <- app_assoc. fold b. by rewrite Hopen.
Qed.

Lemma handshake_packet_read {HT : AeadTotal} dcid scid pn payload keys expected :
  len dcid <= MAX_CONNECTION_ID_LEN -> len scid <= MAX_CONNECTION_ID_LEN -> pn <= u8_max -> len payload <= 65536 ->
  reconstruct pn 8 expected = Ok pn ->
  exists packet, build_handshake_packet dcid scid pn payload keys = Ok packet /\
    parse_handshake_packet packet keys expected = Ok (dcid, scid, pn, payload).
Proof.
  intros Hd Hs Hn Hp Hr. unfold build_handshake_packet. rewrite (proj2 (N.ltb_ge _ _)) by done.
  destruct (seal_long Handshake dcid scid [] (1 + len payload + TAG_LEN) pn payload keys)
    as (tl & pl & ct & Htl & Hpl & Hct & Hh & Hse & Ho & Hpr); try done; [unfold MAX_VARINT, TAG_LEN; lia|].
  cbv zeta in *. rewrite Hh. cbn [map_err mbind Result_bind]. rewrite Hse. cbn [map_err mbind Result_bind].
  rewrite Hpr. cbn [ok_or]. eexists. split; [reflexivity|].
  replace (1 + len payload + TAG_LEN) with (1 + len ct) in Hpl by lia.
  apply handshake_fields; try done; [unfold TAG_LEN in *; lia|].
  rewrite !len_app, len_xor_zip, long_prefix_len by done. destruct Htl, Hpl.
  unfold usize_max, u64_max, TAG_LEN, MAX_CONNECTION_ID_LEN in *. autorewrite with umc. change (@len u8 []) with 0. lia.
Qed.

(** A message put into an envelope and a packet is found again. *)
Lemma handshake_message_read {HT : AeadTotal} dcid scid pn ty body frame keys :
  len dcid <= MAX_CONNECTION_ID_LEN -> len scid <= MAX_CONNECTION_ID_LEN -> pn <= u8_max ->
  Encoding.encode_message ty body [] = Ok frame ->
  exists packet, build_handshake_packet dcid scid pn frame keys = Ok packet /\
    decode_handshake_message ty packet keys = Ok body.
Proof.
  intros Hd Hs Hn Hf. pose proof (message_sized _ _ _ _ Hf) as [Hb Ht].
  destruct (message_writes ty body Ht Hb []) as (f' & E' & Hl). rewrite Hf in E'. apply (inj Ok) in E'. simpl in E'. subst f'.
  destruct (message_read _ _ _ _ Hf) as (f' & E' & Hr). simpl in E'. subst f'. unfold Encoding.MAX_HANDSHAKE_MESSAGE in Hb.
  destruct (handshake_packet_read dcid scid pn frame keys 0) as (packet & Hbu & Hpa); try done; [lia|by apply reconstruct_byte|].
  exists packet. split; [done|]. unfold decode_handshake_message. rewrite Hpa. cbn [map_err mbind Result_bind].
  pose proof (decode_message_read frame [] _ Hr) as Hdm. rewrite app_nil_r in Hdm.
  rewrite Hdm by (unfold usize_max, u64_max; lia). cbn [map_err mbind Result_bind Encoding.message_type Encoding.body].
  by rewrite N.eqb_refl.
Qed.

End HandshakeRead.

(** ** Retry packets are read back *)

Section RetryRead.
Context `{HP : Primitives} {HL : PrimitiveLaws}.

Lemma retry_ids f vb dcid scid tl token pl tail :
  let bytes := [f] ++ long_prefix vb dcid scid tl token pl ++ tail in
  len vb = 4 -> len dcid <= MAX_CONNECTION_ID_LEN -> len scid <= MAX_CONNECTION_ID_LEN -> len bytes <= usize_max ->
  read_retry_id bytes 5 = Ok (dcid, 6 + len dcid) /\ read_retry_id bytes (6 + len dcid) = Ok (scid, 7 + len dcid + len scid).
Proof.
  intros bytes Hvb Hd Hs Hmax. pose proof (bytes_len f vb dcid scid tl token pl [] tail Hvb) as Hlen.
  change (@len u8 []) with 0 in Hlen. rewrite app_nil_l in Hlen. fold bytes in Hlen. unfold usize_max in Hmax.
  unfold read_retry_id, bytes. rewrite (get_dcid_len _ _ _ _ _ _ _ [] tail), (get_scid_len _ _ _ _ _ _ _ [] tail) by done.
  cbn [ok_or mbind Result_bind]. rewrite (checked_add_is 5 1 6), (checked_add_is (6 + len dcid) 1 (7 + len dcid)) by (done || lia).
  cbn [ok_or mbind Result_bind]. rewrite !(proj2 (N.ltb_ge MAX_CONNECTION_ID_LEN _)) by done.
  rewrite !checked_add_is with (c := 6 + len dcid) by (done || lia).
  rewrite !checked_add_is with (c := 7 + len dcid + len scid) by (done || lia).
  cbn [ok_or mbind Result_bind].
  by rewrite (get_dcid _ _ _ _ _ _ _ [] tail), (get_scid _ _ _ _ _ _ _ [] tail).
Qed.

Lemma integrity_tag_len key m : len (integrity_tag key m) = 16.
Proof.
  unfold integrity_tag. pose proof (blake2s_len (expand32 key (bstr "retry integrity") [] ++ m)) as Hl.
  unfold len in *. rewrite length_take. change (N.to_nat RETRY_INTEGRITY_TAG_LEN) with 16%nat. lia.
Qed.

Lemma retry_packet_layout version dcid scid token key packet :
  build_retry_packet version dcid scid token key = Ok packet ->
  version <> 0 /\ len dcid <= MAX_CONNECTION_ID_LEN /\ len scid <= MAX_CONNECTION_ID_LEN /\ len token <= MAX_TOKEN_LEN /\
  exists tl, varint_of tl (len token) /\
    let out := [HeaderByte.encode HeaderByte.LONG_RETRY] ++ long_prefix (to_be_bytes 4 version) dcid scid tl token [] in
    packet = out ++ integrity_tag key out.
Proof.
  unfold build_retry_packet. destruct (N.eqb_spec version 0); [done|].
  destruct (N.ltb_spec MAX_CONNECTION_ID_LEN (len dcid)); [done|]. destruct (N.ltb_spec MAX_CONNECTION_ID_LEN (len scid)); [done|].
  cbn [orb]. destruct (N.ltb_spec MAX_TOKEN_LEN (len token)); [done|].
  intros Hb. match type of Hb with context [Varint.encode_into ?o (len token)] =>
    destruct (encode_into_varint_of o (len token)) as (tl & E & Htl); [unfold MAX_VARINT, MAX_TOKEN_LEN in *; lia|] end.
  rewrite E in Hb. cbn [map_err mbind Result_bind] in Hb. apply (inj Ok) in Hb as <-.
  split_and!; try done. exists tl. split; [done|]. cbv zeta. unfold long_prefix. by rewrite app_nil_r, <- !app_assoc.
Qed.

Lemma tags_equal_refl tag : tags_equal tag tag = true.
Proof. unfold tags_equal. rewrite N.eqb_refl. by rewrite (proj2 (constant_time_equal_spec tag tag eq_refl) eq_refl). Qed.

Lemma retry_tag_checked out tag k :
  (forall key, k = Some key -> tag = integrity_tag key out) -> tag_valid (out ++ tag) (len out) k = true.
Proof.
  intros Hk. destruct k as [key|]; [|done]. unfold tag_valid.
  rewrite from_app_len, <- length_len, take_app_length, <- (Hk key) by done. apply tags_equal_refl.
Qed.

(** The parser on such a packet. *)
Lemma retry_header_read vb version dcid scid tl token tag :
  let packet := [HeaderByte.encode HeaderByte.LONG_RETRY] ++ long_prefix vb dcid scid tl token [] ++ tag in
  len vb = 4 -> from_be_bytes vb = version -> version <> 0 -> len dcid <= MAX_CONNECTION_ID_LEN ->
  len scid <= MAX_CONNECTION_ID_LEN -> len token <= MAX_TOKEN_LEN -> varint_of tl (len token) ->
  len packet <= usize_max ->
  retry_header packet = Ok (version, dcid, scid, len token, 7 + len dcid + len scid + len tl + len token).
Proof.
  intros packet Hvb Hver Hv0 Hd Hs Ht [Hdt _] Hmax. set (f := HeaderByte.encode HeaderByte.LONG_RETRY) in *.
  pose proof (bytes_len f vb dcid scid tl token [] [] tag Hvb) as Hlen. change (@len u8 []) with 0 in Hlen.
  rewrite app_nil_l in Hlen. fold packet in Hlen. unfold usize_max in Hmax. unfold retry_header.
  change (get packet 0) with (Some f). cbn [ok_or mbind Result_bind].
  change (HeaderByte.decode f) with (Ok (E := HeaderError) HeaderByte.LONG_RETRY).
  cbn [map_err mbind Result_bind HeaderByte.long HeaderByte.LONG_RETRY negb orb].
  change (HeaderByte.long_type HeaderByte.LONG_RETRY) with (Some Retry). rewrite bool_decide_eq_true_2 by done. cbn [negb].
  rewrite (get_range_is packet [f] vb ([len dcid] ++ dcid ++ [len scid] ++ scid ++ tl ++ token ++ [] ++ tag));
    [|unfold packet, long_prefix; by rewrite <- !app_assoc|done|by rewrite Hvb].
  cbn [ok_or mbind Result_bind]. rewrite Hver, (proj2 (N.eqb_neq _ _)) by done.
  destruct (retry_ids f vb dcid scid tl token [] tag) as [Hi1 Hi2]; [done..|]. fold packet in Hi1, Hi2.
  rewrite Hi1. cbn [mbind Result_bind]. rewrite Hi2. cbn [mbind Result_bind].
  unfold packet. rewrite (from_token_len f vb dcid scid tl token [] [] tag) by done.
  cbn [ok_or mbind Result_bind]. rewrite Hdt. cbn [map_err mbind Result_bind]. rewrite (proj2 (N.ltb_ge _ _)) by done.
  rewrite (checked_add_is _ (len tl) (7 + len dcid + len scid + len tl)) by lia. cbn [mbind option_bind].
  by rewrite (checked_add_is _ (len token) (7 + len dcid + len scid + len tl + len token)) by lia.
Qed.

Lemma retry_tail packet k version dcid tag_start scid token :
  retry_header packet = Ok (version, dcid, scid, len token, tag_start) -> tag_valid packet tag_start k = true ->
  len packet = tag_start + 16 -> len packet <= usize_max ->
  get_range packet (tag_start - len token) tag_start = Some token ->
  parse_retry_packet_inner packet k = Ok (RetryPacket.mk version dcid scid token).
Proof.
  intros Hh Hc Hlen Hmax Htok. unfold usize_max in Hmax. unfold parse_retry_packet_inner. rewrite Hh.
  unfold mbind, Result_bind.
  rewrite (checked_add_is _ RETRY_INTEGRITY_TAG_LEN (len packet)) by (unfold RETRY_INTEGRITY_TAG_LEN; lia).
  unfold ok_or. by rewrite N.ltb_irrefl, Hc, Htok.
Qed.

Lemma retry_fields vb version dcid scid tl token tag k :
  let out := [HeaderByte.encode HeaderByte.LONG_RETRY] ++ long_prefix vb dcid scid tl token [] in
  len vb = 4 -> from_be_bytes vb = version -> version <> 0 -> len dcid <= MAX_CONNECTION_ID_LEN ->
  len scid <= MAX_CONNECTION_ID_LEN -> len token <= MAX_TOKEN_LEN -> varint_of tl (len token) -> len tag = 16 ->
  (forall key, k = Some key -> tag = integrity_tag key out) ->
  parse_retry_packet_inner (out ++ tag) k = Ok (RetryPacket.mk version dcid scid token).
Proof.
  intros out Hvb Hver Hv0 Hd Hs Ht Htl Htag Hk. pose proof (retry_tag_checked out tag k Hk) as Hc.
  assert (Hout : len out = 7 + len dcid + len scid + len tl + len token).
  { unfold out. rewrite len_app, long_prefix_len by done. autorewrite with umc. lia. }
  assert (Hlen : len (out ++ tag) = len out + 16) by (rewrite len_app; lia).
  assert (Hmax : len (out ++ tag) <= usize_max).
  { destruct Htl. unfold usize_max, u64_max, MAX_CONNECTION_ID_LEN, MAX_TOKEN_LEN in *. lia. }
  assert (Hh : retry_header (out ++ tag) = Ok (version, dcid, scid, len token, len out)).
  { rewrite Hout. unfold out. rewrite <- app_assoc. by apply retry_header_read. }
  assert (Htok : get_range (out ++ tag) (len out - len token) (len out) = Some token).
  { apply (get_range_is _ ([HeaderByte.encode HeaderByte.LONG_RETRY] ++ vb ++ [len dcid] ++ dcid ++ [len scid] ++ scid ++ tl) _ tag).
    - unfold out, long_prefix. by rewrite app_nil_r, <- !app_assoc.
    - autorewrite with umc. lia.
    - lia. }
  clear Hk. clearbody out. generalize dependent (out ++ tag). intros packet Hc Hlen Hmax Hh Htok.
  by apply (retry_tail _ _ _ _ (len out)).
Qed.

Lemma retry_packet_read version dcid scid token key packet :
  version <= u32_max -> build_retry_packet version dcid scid token key = Ok packet ->
  parse_retry_packet packet key = Ok (RetryPacket.mk version dcid scid token) /\
  decode_retry_packet packet = Ok (RetryPacket.mk version dcid scid token).
Proof.
  intros Hv (Hv0 & Hd & Hs & Ht & tl & Htl & ->)%retry_packet_layout. cbv zeta.
  assert (Hver : from_be_bytes (to_be_bytes 4 version) = version)
    by (apply from_to_be_bytes; unfold u32_max in Hv; simpl; lia).
  unfold parse_retry_packet, decode_retry_packet.
  split; (apply retry_fields; [by rewrite len_to_be_bytes|exact Hver|exact Hv0|exact Hd|exact Hs|exact Ht|exact Htl|apply integrity_tag_len|]).
  - by intros ? [= <-].
  - intros ? [=].
Qed.

End RetryRead.

(** ** The hello is found in the packet *)

(** A bare hello starts with its version. *)
Lemma hello_starts bytes hello :
  ClientHello.decode bytes = Ok hello ->
  exists v n, Varint.decode bytes = Ok (v, n) /\ hello.(ClientHello.version) = as_u32 v.
Proof.
  intros ([h pos] & Hb & <-%(inj Ok))%bind_Ok. unfold ClientHello.body in Hb.
  apply dec_bind_Ok in Hb as (v & p1 & Hv & Hb). exists v.
  apply bind_Ok in Hv as ([v' n] & Hv%map_err_Ok & [= -> _]). rewrite from_0 in Hv. exists n. split; [done|].
  revert Hb. generalize p1. match goal with |- forall p, ?k bytes p = _ -> _ =>
    assert (Hy : yields k (fun h => h.(ClientHello.version) = as_u32 v)) end; [|intros p; apply Hy].
  do 11 (eapply yields_bind; [apply yields_true|intros ? _; cbv beta]). by apply yields_ret.
Qed.

Lemma envelope_starts bytes m n :
  Encoding.decode_message bytes = Ok (m, n) -> exists k, Varint.decode bytes = Ok (m.(Encoding.message_type), k).
Proof.
  intros Hb. unfold Encoding.decode_message, Encoding.decode_at in Hb.
  apply dec_bind_Ok in Hb as (v & p1 & Hv & Hb).
  apply bind_Ok in Hv as ([v' k] & Hv%map_err_Ok & [= -> _]). rewrite from_0 in Hv. exists k. rewrite Hv. do 2 f_equal.
  revert Hb. match goal with |- ?k bytes _ = _ -> _ =>
    assert (Hy : yields k (fun m => v = m.(Encoding.message_type))) end; [|apply Hy].
  do 3 (eapply yields_bind; [apply yields_true|intros ? _; cbv beta]). by apply yields_ret.
Qed.

Lemma hello_extracted hello bytes k :
  ClientHello.sized hello -> hello.(ClientHello.version) <> 0 -> ClientHello.encode hello = Ok bytes ->
  len (bytes ++ zeros k) <= usize_max -> decode_client_hello (bytes ++ zeros k) = Ok bytes.
Proof.
  intros Hs Hv He Hl. pose proof (client_hello_decode _ _ _ Hs He Hl) as Hd. unfold decode_client_hello.
  rewrite Hd, He. cbn [map_err].
  destruct (Encoding.decode_message (bytes ++ zeros k)) as [[m n]|e] eqn:E; [|done].
  destruct (hello_starts _ _ Hd) as (v & w & Hv1 & Hv2). destruct (envelope_starts _ _ _ E) as (w' & Hm).
  rewrite Hm in Hv1. assert (m.(Encoding.message_type) <> 0) as Hne.
  { intros H0. rewrite H0 in Hv1. injection Hv1 as <- _. by rewrite Hv2 in Hv. }
  destruct (ClientHello.decode m.(Encoding.body)); [|done]. by rewrite (proj2 (N.eqb_neq _ _)) by done.
Qed.

Section Built.
Context `{HP : Primitives} {HL : PrimitiveLaws}.

Lemma initial_keys_Ok dcid : exists keys, derive_initial_keys dcid = Ok keys.
Proof.
  destruct (packet_keys_Ok (expand32 (extract INITIAL_SALT dcid) (bstr "client initial") [])) as [ck Hck].
  destruct (packet_keys_Ok (expand32 (extract INITIAL_SALT dcid) (bstr "server initial") [])) as [sk Hsk].
  exists (InitialKeys.mk ck sk). unfold derive_initial_keys, traffic_keys. by rewrite Hck, Hsk.
Qed.

(** An Initial packet with any payload of a handshake. *)
Lemma initial_built {HT : AeadTotal} dcid scid pn payload token keys :
  len dcid <= MAX_CONNECTION_ID_LEN -> len scid <= MAX_CONNECTION_ID_LEN -> len token <= MAX_TOKEN_LEN -> pn <= u8_max ->
  len payload <= 16384 ->
  exists k packet, build_initial_packet_with_token dcid scid pn payload token keys = Ok packet /\
    parse_initial_with_keys packet keys = Some (dcid, pn, payload ++ zeros k, scid) /\ len (payload ++ zeros k) <= usize_max /\
    initial_dcid packet = Some dcid /\ initial_token packet = Some token /\ MIN_INITIAL_UDP <= len packet.
Proof.
  intros Hd Hs Ht Hn Hl.
  destruct (pad_and_seal_read (S (N.to_nat MIN_INITIAL_UDP)) dcid scid pn payload token keys) as (k & packet & Hb & Hp & Hdc & Hm & Hkl & Hto);
    [done..|change (N.of_nat (S (N.to_nat MIN_INITIAL_UDP))) with 1201; lia|lia|
     change (N.of_nat (S (N.to_nat MIN_INITIAL_UDP))) with 1201; unfold MIN_INITIAL_UDP; lia|].
  exists k, packet. split_and!; try done. rewrite len_app. unfold zeros, len at 2. rewrite length_replicate. unfold usize_max, u64_max.
  change (S (N.to_nat MIN_INITIAL_UDP)) with 1201%nat in Hkl. lia.
Qed.

End Built.

(** ** Properties *)

(** An Initial packet is read back by the peer: the hello that a client seals
    under the keys of its destination identifier is recovered by the daemon from
    that identifier alone, with both identifiers and the packet number; the
    padding added to reach the minimum size is dropped; and the loop that adds it
    always ends. *)
Theorem initial_packet_roundtrip `{Primitives, !PrimitiveLaws, !AeadTotal} dcid scid pn token hello hello_bytes :
  ClientHello.sized hello -> hello.(ClientHello.version) <> 0 -> ClientHello.encode hello = Ok hello_bytes ->
  len hello_bytes <= 16384 -> len dcid <= MAX_CONNECTION_ID_LEN -> len scid <= MAX_CONNECTION_ID_LEN ->
  len token <= MAX_TOKEN_LEN -> pn <= u8_max ->
  exists keys packet payload,
    derive_initial_keys dcid = Ok keys /\
    build_initial_packet_with_token dcid scid pn hello_bytes token keys.(InitialKeys.client) = Ok packet /\
    MIN_INITIAL_UDP <= len packet /\
    try_parse_initial packet = Some (dcid, pn, payload, scid) /\ decode_client_hello payload = Ok hello_bytes.
Proof.
  intros Hs Hv He Hlen Hd Hsc Ht Hn. destruct (initial_keys_Ok dcid) as [keys Hk].
  destruct (initial_built dcid scid pn hello_bytes token keys.(InitialKeys.client)) as (k & packet & Hb & Hp & Hl & Hdc & _ & Hm); try done.
  exists keys, packet, (hello_bytes ++ zeros k). split_and!; try done.
  - unfold try_parse_initial. rewrite Hdc. cbn [mbind option_bind]. rewrite Hk. cbn [ok mbind option_bind]. exact Hp.
  - by apply (hello_extracted hello).
Qed.

Lemma initial_packet_roundtrip_witness :
  exists hello_bytes, ClientHello.encode sample_client_hello = Ok hello_bytes /\
  exists keys packet payload,
    derive_initial_keys [1; 2; 3; 4; 5; 6; 7; 8] = Ok keys /\
    build_initial_packet_with_token [1; 2; 3; 4; 5; 6; 7; 8] [9] 0 hello_bytes [] keys.(InitialKeys.client) = Ok packet /\
    MIN_INITIAL_UDP <= len packet /\
    try_parse_initial packet = Some ([1; 2; 3; 4; 5; 6; 7; 8], 0, payload, [9]) /\
    decode_client_hello payload = Ok hello_bytes.
Proof.
  eexists. split; [vm_compute; reflexivity|].
  apply (initial_packet_roundtrip (H := toy_primitives) [1; 2; 3; 4; 5; 6; 7; 8] [9] 0 [] sample_client_hello).
  - unfold ClientHello.sized. split_and!; [by vm_compute..| |by vm_compute].
    repeat (apply list.Forall_cons_2; [by vm_compute|]). apply list.Forall_nil_2.
  - done.
  - vm_compute. reflexivity.
  - by vm_compute.
  - by vm_compute.
  - by vm_compute.
  - by vm_compute.
  - by vm_compute.
Defined.

(** A Handshake packet is read back by the holder of its keys: both
    identifiers, the packet number and the payload come back whenever the number
    is the one its low byte stands for near the expected one. *)
Theorem handshake_packet_roundtrip `{Primitives, !PrimitiveLaws, !AeadTotal} dcid scid pn payload keys expected :
  len dcid <= MAX_CONNECTION_ID_LEN -> len scid <= MAX_CONNECTION_ID_LEN -> pn <= u8_max -> len payload <= 65536 ->
  expected <= MAX_PACKET_NUMBER - 2 ^ 7 -> 2 * abs_diff pn expected < 2 ^ 8 ->
  exists packet, build_handshake_packet dcid scid pn payload keys = Ok packet /\
    parse_handshake_packet packet keys expected = Ok (dcid, scid, pn, payload).
Proof.
  intros Hd Hs Hn Hp He Ha. apply handshake_packet_read; try done.
  rewrite <- (N.mod_small pn (2 ^ 8)) at 1 by (unfold u8_max in Hn; change (2 ^ 8) with 256; lia).
  by apply reconstruct_within.
Qed.

Lemma handshake_packet_roundtrip_witness :
  let keys := PacketKeys.mk (zeros 32) (zeros 12) (zeros 32) in
  exists packet, build_handshake_packet [1; 2] [3] 1 [7; 8; 9] keys = Ok packet /\
    parse_handshake_packet packet keys 0 = Ok ([1; 2], [3], 1, [7; 8; 9]).
Proof. apply (handshake_packet_roundtrip (H := toy_primitives) [1; 2] [3] 1 [7; 8; 9] (PacketKeys.mk (zeros 32) (zeros 12) (zeros 32)) 0); by vm_compute. Defined.

(** A Retry packet is read back: the daemon that built it accepts its
    integrity tag, and the client, which has no key for it, reads the same
    version, identifiers and token. *)
Theorem retry_packet_roundtrip `{Primitives, !PrimitiveLaws} version dcid scid token key packet :
  version <= u32_max -> build_retry_packet version dcid scid token key = Ok packet ->
  parse_retry_packet packet key = Ok (RetryPacket.mk version dcid scid token) /\
  decode_retry_packet packet = Ok (RetryPacket.mk version dcid scid token).
Proof. apply retry_packet_read. Qed.

Lemma retry_packet_roundtrip_witness :
  exists packet, build_retry_packet 1 [1; 2] [3; 4] [5; 6; 7] (zeros 32) = Ok packet /\
    parse_retry_packet packet (zeros 32) = Ok (RetryPacket.mk 1 [1; 2] [3; 4] [5; 6; 7]) /\
    decode_retry_packet packet = Ok (RetryPacket.mk 1 [1; 2] [3; 4] [5; 6; 7]).
Proof.
  eexists. split; [vm_compute; reflexivity|].
  apply (retry_packet_roundtrip (H := toy_primitives)); [by vm_compute|vm_compute; reflexivity].
Defined.
