(* ===== verification/HandshakeAuth.v ===== *)
(** * Handshake authentication (crates/umc-handshake/src/xx.rs)

    The encrypted authentication blocks of both sides, the Finished messages,
    and the client's side of the exchange from the SERVER_HELLO to the
    confirmation. *)

From Stdlib Require Import Strings.String.
From S2P Require Import Prelude Codec Varint WireBytes Records Crypto Identity HandshakeMessages HandshakeKeys.

Definition MAX_DELEGATION_CHAIN_BYTES : usize := 8 * 1024.

Module ServerAuthBlock.
Record t := mk {
  server_static_public_key : list u8;
  server_identity_binding : list u8;
  server_delegation_chain : list u8
}.
End ServerAuthBlock.

(** The end of the binding in the plaintext: 217 bytes with the signature, 153
    in the form of earlier peers. *)
Definition binding_end (plaintext : list u8) : Result HelloError usize :=
  if 32 + IDENTITY_BINDING_WIRE_LEN <=? len plaintext then Ok (32 + IDENTITY_BINDING_WIRE_LEN)
  else if len plaintext =? 32 + 153 then Ok (32 + 153)
  else Err HelloTruncated.

Section Blocks.
Context `{Primitives, Curves}.

Definition server_auth_aad (transcript_before server_ephemeral_public_key server_random selected_profile : list u8) : list u8 :=
  transcript_before ++ server_random ++ server_ephemeral_public_key ++ selected_profile.

Definition encrypt_server_auth (handshake_extract1 transcript_before : list u8) (block : ServerAuthBlock.t)
    (server_ephemeral_public_key server_random selected_profile : list u8) : Result HelloError (list u8) :=
  let server_hello_key := expand32 handshake_extract1 (bstr "server hello key") transcript_before in
  keys ← map_err (fun _ => HelloBytes) (PacketKeys.from_traffic_secret server_hello_key);
  let plaintext := block.(ServerAuthBlock.server_static_public_key) ++ block.(ServerAuthBlock.server_identity_binding) in
  plaintext ← (if len block.(ServerAuthBlock.server_delegation_chain) =? 0 then Ok plaintext
               else put_field block.(ServerAuthBlock.server_delegation_chain) MAX_DELEGATION_CHAIN_BYTES plaintext);
  let aad := server_auth_aad transcript_before server_ephemeral_public_key server_random selected_profile in
  map_err (fun _ => HelloBytes) (PacketKeys.seal keys 0 aad plaintext).

(** The delegation chain after the binding, which must fill the plaintext. *)
Definition server_chain (plaintext : list u8) (binding_end : usize) : Result HelloError (list u8) :=
  if len plaintext =? binding_end then Ok []
  else if binding_end =? 32 + IDENTITY_BINDING_WIRE_LEN then
    rest ← ok_or HelloTruncated (get_from plaintext binding_end);
    '(chain, consumed) ← map_err (fun _ => HelloBytes) (WireBytes.decode rest MAX_DELEGATION_CHAIN_BYTES);
    if negb (binding_end + consumed =? len plaintext) then Err HelloBytes else Ok chain
  else Err HelloBytes.

Definition decrypt_server_auth (handshake_extract1 transcript_before ciphertext
    server_ephemeral_public_key server_random selected_profile : list u8) : Result HelloError ServerAuthBlock.t :=
  let server_hello_key := expand32 handshake_extract1 (bstr "server hello key") transcript_before in
  keys ← map_err (fun _ => HelloBytes) (PacketKeys.from_traffic_secret server_hello_key);
  let aad := server_auth_aad transcript_before server_ephemeral_public_key server_random selected_profile in
  plaintext ← map_err (fun _ => HelloBytes) (PacketKeys.open keys 0 aad ciphertext);
  server_static_public_key ← ok_or HelloTruncated (get_range plaintext 0 32);
  fin ← binding_end plaintext;
  server_delegation_chain ← server_chain plaintext fin;
  server_identity_binding ← ok_or HelloTruncated (get_range plaintext 32 fin);
  Ok (ServerAuthBlock.mk server_static_public_key server_identity_binding server_delegation_chain).

Definition finished_mac (finished_key transcript : list u8) : list u8 := hmac_blake2s finished_key transcript.

Definition finished_key (handshake_secret4 label transcript : list u8) : list u8 :=
  expand32 handshake_secret4 label transcript.

Definition encrypt_client_auth (client_auth_key transcript plaintext : list u8) : Result Failure (list u8) :=
  keys ← map_err (fun _ => Panic) (PacketKeys.from_traffic_secret client_auth_key);
  map_err (fun _ => Panic) (PacketKeys.seal keys 0 transcript plaintext).

Definition decrypt_client_auth (client_auth_key transcript ct : list u8) : Result Failure (list u8) :=
  keys ← map_err (message "client auth keys") (PacketKeys.from_traffic_secret client_auth_key);
  map_err (message "client auth open") (PacketKeys.open keys 0 transcript ct).

Definition build_client_auth_plaintext_with_delegation (client_static_public_key : list u8)
    (binding : IdentityBinding.t) (client_signature delegation_chain : list u8) : Result Failure (list u8) :=
  let plaintext := client_static_public_key ++ IdentityBinding.signed_bytes binding ++
                   binding.(IdentityBinding.signature) ++ client_signature in
  if len delegation_chain =? 0 then Ok plaintext
  else put_bytes_or Panic delegation_chain MAX_DELEGATION_CHAIN_BYTES plaintext.

Definition build_client_auth_plaintext (client_static_public_key : list u8) (binding : IdentityBinding.t)
    (client_signature : list u8) : Result Failure (list u8) :=
  build_client_auth_plaintext_with_delegation client_static_public_key binding client_signature [].

Definition client_signature_input (transcript_before client_endpoint_id server_endpoint_id
    client_static_public_key server_static_public_key : list u8) : list u8 :=
  blake2s (bstr "UMP-CLIENT-AUTH-v1" ++ transcript_before ++ client_endpoint_id ++ server_endpoint_id ++
           client_static_public_key ++ server_static_public_key).

Definition server_auth_signature_input (transcript_before server_endpoint_id client_endpoint_id
    server_static_public_key client_static_public_key : list u8) : list u8 :=
  blake2s (bstr "UMP-SERVER-AUTH-v1" ++ transcript_before ++ server_endpoint_id ++ client_endpoint_id ++
           server_static_public_key ++ client_static_public_key).

Definition verify_server_auth_signature (server_identity_key transcript_before server_endpoint_id client_endpoint_id
    server_static_public_key client_static_public_key signature : list u8) : bool :=
  identity_verify server_identity_key
    (server_auth_signature_input transcript_before server_endpoint_id client_endpoint_id
       server_static_public_key client_static_public_key) signature.

Definition build_server_finished (handshake_secret4 transcript_after_client_auth : list u8)
    (server_identity : IdentityKeyPair.t) (server_endpoint_id client_endpoint_id
    server_static_public_key client_static_public_key : list u8) : list u8 :=
  let server_finished_key := finished_key handshake_secret4 (bstr "server finished") transcript_after_client_auth in
  let server_mac := finished_mac server_finished_key transcript_after_client_auth in
  let sig_input := server_auth_signature_input transcript_after_client_auth server_endpoint_id client_endpoint_id
                     server_static_public_key client_static_public_key in
  IdentityKeyPair.sign server_identity sig_input ++ server_mac.

End Blocks.

(** ** The client's side *)

Module ClientHandshakeOutput.
Record t := mk {
  session_secrets : SessionSecrets.t;
  handshake_secret4 : list u8;
  handshake_secret3 : list u8;
  client_auth_key : list u8;
  transcript_hash : list u8;
  server_endpoint_id : list u8;
  server_identity_public_key : list u8;
  server_static_public_key : list u8
}.
End ClientHandshakeOutput.

Section Client.
Context `{Primitives, Curves}.

(** [if let Some(retry_context)]: the synthetic input after a Retry. *)
Definition absorb_retry (transcript : Transcript.t) (retry_context : option (list u8)) : Transcript.t :=
  match retry_context with
  | Some retry_context => Transcript.update_bytes transcript retry_context
  | None => transcript
  end.

(** The first extract of the schedule, under the invitation key in PSK-XX mode. *)
Definition handshake_extract1 (mode : list u8) (invitation_key : option (list u8)) (hello : ClientHello.t)
    (carrier_binding dh_ee : list u8) (missing : Failure) : Result Failure (list u8) :=
  if bool_decide (mode = MODE_PSK_XX) then
    invitation_key ← ok_or missing invitation_key;
    let psk_extract := derive_psk_extract invitation_key hello.(ClientHello.client_random)
                         hello.(ClientHello.client_ephemeral_public_key) carrier_binding in
    Ok (extract psk_extract dh_ee)
  else Ok (extract (zeros 32) dh_ee).

Definition complete_client_side_with_mode (client_static client_ephemeral : StaticHandshakeKeyPair.t)
    (client_hello : ClientHello.t) (server_hello : ServerHello.t) (carrier_binding mode : list u8)
    (invitation_key retry_context : option (list u8)) : Result Failure ClientHandshakeOutput.t :=
  if negb (bool_decide (server_hello.(ServerHello.selected_handshake_mode) = mode))
  then Err (Message "server selected an unexpected handshake mode")
  else
    canonical ← canonical_hash;
    if negb (bool_decide (ServerHello.server_capabilities_hash server_hello = Some canonical))
    then Err (Message "server capabilities hash mismatch")
    else
      hello_bytes ← map_err (message "hello") (ClientHello.encode client_hello);
      transcript ← map_err (message "transcript")
        (Transcript.update_message (Transcript.new mode CRYPTO_PROFILE carrier_binding) Encoding.CLIENT_HELLO hello_bytes);
      let transcript := absorb_retry transcript retry_context in
      let server_auth_transcript := transcript.(Transcript.hash) in
      let server_ephemeral_public := server_hello.(ServerHello.server_ephemeral_public_key) in
      let dh_ee := StaticHandshakeKeyPair.diffie_hellman client_ephemeral server_ephemeral_public in
      extract1 ← handshake_extract1 mode invitation_key client_hello carrier_binding dh_ee
                   (Message "PSK-XX invitation key missing");
      server_block ← map_err (message "server auth")
        (decrypt_server_auth extract1 server_auth_transcript server_hello.(ServerHello.encrypted_server_authentication)
           server_ephemeral_public server_hello.(ServerHello.server_random)
           server_hello.(ServerHello.selected_crypto_profile));
      let server_static_pub := server_block.(ServerAuthBlock.server_static_public_key) in
      server_identity_key ← ok_or (Message "server binding truncated")
        (get_range server_block.(ServerAuthBlock.server_identity_binding) 33 65);
      let server_endpoint_id := endpoint_id server_identity_key in
      server_hello_bytes ← map_err (message "server hello") (ServerHello.encode server_hello);
      transcript ← map_err (message "transcript")
        (Transcript.update_message transcript Encoding.SERVER_HELLO server_hello_bytes);
      let dh_ephemeral_static := StaticHandshakeKeyPair.diffie_hellman client_ephemeral server_static_pub in
      let secret2 := extract extract1 dh_ephemeral_static in
      let dh_static_ephemeral := StaticHandshakeKeyPair.diffie_hellman client_static server_ephemeral_public in
      let secret3 := extract secret2 dh_static_ephemeral in
      let dh_ss := StaticHandshakeKeyPair.diffie_hellman client_static server_static_pub in
      let secret4 := extract secret3 dh_ss in
      let transcript_hash := transcript.(Transcript.hash) in
      let client_auth_key := expand32 secret3 (bstr "client auth key") transcript_hash in
      let client_secrets := derive_session_secrets secret4 transcript_hash in
      Ok (ClientHandshakeOutput.mk client_secrets secret4 secret3 client_auth_key transcript_hash
            server_endpoint_id server_identity_key server_static_pub).

(** The transcript is returned with the confirmation: the caller's is updated in
    place. *)
Definition verify_server_finished_and_build_confirmation (transcript : Transcript.t)
    (handshake_secret4 server_identity_key server_endpoint_id client_endpoint_id
     server_static_public_key client_static_public_key client_auth_body server_finished : list u8)
    : Result Failure (list u8 * Transcript.t) :=
  transcript ← map_err (message "transcript") (Transcript.update_message transcript Encoding.CLIENT_AUTH client_auth_body);
  let before_server_finished := transcript.(Transcript.hash) in
  signature ← ok_or (Message "server finished truncated") (get_range server_finished 0 64);
  server_mac ← ok_or (Message "server finished truncated") (get_range server_finished 64 96);
  let server_finished_key := finished_key handshake_secret4 (bstr "server finished") before_server_finished in
  if negb (bool_decide (finished_mac server_finished_key before_server_finished = server_mac))
  then Err (Message "server finished MAC invalid")
  else if negb (verify_server_auth_signature server_identity_key before_server_finished server_endpoint_id
                  client_endpoint_id server_static_public_key client_static_public_key signature)
  then Err (Message "server finished signature invalid")
  else
    transcript ← map_err (message "transcript") (Transcript.update_message transcript Encoding.SERVER_FINISHED server_finished);
    let client_finished_key := finished_key handshake_secret4 (bstr "client finished") before_server_finished in
    Ok (finished_mac client_finished_key transcript.(Transcript.hash), transcript).

Definition verify_client_finished (handshake_secret4 : list u8) (transcript : Transcript.t)
    (client_auth_body server_finished client_finished : list u8) : Result Failure unit :=
  transcript ← map_err (message "transcript") (Transcript.update_message transcript Encoding.CLIENT_AUTH client_auth_body);
  let before_server_finished := transcript.(Transcript.hash) in
  let client_finished_key := finished_key handshake_secret4 (bstr "client finished") before_server_finished in
  transcript ← map_err (message "transcript") (Transcript.update_message transcript Encoding.SERVER_FINISHED server_finished);
  let expected := finished_mac client_finished_key transcript.(Transcript.hash) in
  if negb (bool_decide (expected = client_finished)) then Err (Message "client finished MAC mismatch")
  else Ok tt.

End Client.

(** ** Blocks are read back *)

Section Lemmas.
Context `{HP : Primitives} `{HC : Curves} {HL : PrimitiveLaws} {HK : CurveLaws} {HT : AeadTotal}.

(** A block without a delegation chain, as the responder sends it. *)
Lemma server_auth_read extract1 transcript static binding ephemeral random profile :
  len static = 32 -> len binding = IDENTITY_BINDING_WIRE_LEN ->
  exists ct,
    encrypt_server_auth extract1 transcript (ServerAuthBlock.mk static binding []) ephemeral random profile = Ok ct /\
    decrypt_server_auth extract1 transcript ct ephemeral random profile = Ok (ServerAuthBlock.mk static binding []) /\
    len ct = 265.
Proof.
  intros Hs Hb. unfold IDENTITY_BINDING_WIRE_LEN in Hb.
  assert (Hl : len (static ++ binding) = 249) by (rewrite len_app; lia).
  unfold encrypt_server_auth, decrypt_server_auth.
  destruct (packet_keys_Ok (expand32 extract1 (bstr "server hello key") transcript)) as [keys Hk]. rewrite Hk.
  cbn [map_err mbind Result_bind ServerAuthBlock.server_static_public_key ServerAuthBlock.server_identity_binding
       ServerAuthBlock.server_delegation_chain]. change (@len u8 [] =? 0) with true. cbn [mbind Result_bind].
  destruct (seal_Ok keys 0 (server_auth_aad transcript ephemeral random profile) (static ++ binding)) as [ct Hct]; [lia|].
  rewrite Hct. exists ct. split; [done|]. split; [|apply seal_len in Hct; unfold TAG_LEN in Hct; lia].
  rewrite (seal_open _ _ _ _ _ Hct). cbn [map_err mbind Result_bind].
  rewrite (get_range_is (static ++ binding) [] static binding) by (done || lia). cbn [ok_or mbind Result_bind].
  unfold binding_end. rewrite Hl. change (32 + IDENTITY_BINDING_WIRE_LEN <=? 249) with true.
  change (32 + IDENTITY_BINDING_WIRE_LEN) with 249. cbn [mbind Result_bind]. unfold server_chain. rewrite Hl, N.eqb_refl.
  cbn [mbind Result_bind].
  rewrite (get_range_is (static ++ binding) static binding []) by (rewrite ?app_nil_r; done || lia). done.
Qed.

Lemma finished_mac_len key t : len (finished_mac key t) = 32.
Proof. apply hmac_len. Qed.

Lemma server_finished_split secret transcript identity seid ceid ss cs :
  let f := build_server_finished secret transcript identity seid ceid ss cs in
  let signature := IdentityKeyPair.sign identity (server_auth_signature_input transcript seid ceid ss cs) in
  get_range f 0 64 = Some signature /\
  get_range f 64 96 = Some (finished_mac (finished_key secret (bstr "server finished") transcript) transcript) /\
  len f = 96.
Proof.
  intros f signature. assert (Hs : len signature = 64) by apply ed25519_sign_len.
  set (mac := finished_mac (finished_key secret (bstr "server finished") transcript) transcript).
  assert (Hm : len mac = 32) by apply finished_mac_len. unfold f, build_server_finished. fold signature. fold mac.
  split_and!.
  - apply (get_range_is _ [] signature mac); [done|done|by rewrite Hs].
  - apply (get_range_is _ signature mac []); [by rewrite app_nil_r|done|lia].
  - rewrite len_app. lia.
Qed.

(** The server's Finished message passes the client's checks. *)
Lemma server_finished_accepted transcript t1 secret identity seid ceid ss cs auth_body :
  Transcript.update_message transcript Encoding.CLIENT_AUTH auth_body = Ok t1 ->
  let f := build_server_finished secret t1.(Transcript.hash) identity seid ceid ss cs in
  forall t2, Transcript.update_message t1 Encoding.SERVER_FINISHED f = Ok t2 ->
  verify_server_finished_and_build_confirmation transcript secret (IdentityKeyPair.public identity) seid ceid ss cs auth_body f =
    Ok (finished_mac (finished_key secret (bstr "client finished") t1.(Transcript.hash)) t2.(Transcript.hash), t2).
Proof.
  intros H1 f t2 H2. destruct (server_finished_split secret t1.(Transcript.hash) identity seid ceid ss cs) as (Hs & Hm & _).
  fold f in Hs, Hm. unfold verify_server_finished_and_build_confirmation. rewrite H1. cbn [map_err mbind Result_bind].
  rewrite Hs. cbn [ok_or mbind Result_bind]. rewrite Hm. cbn [ok_or mbind Result_bind].
  rewrite bool_decide_eq_true_2 by done. cbn [negb]. unfold verify_server_auth_signature. rewrite identity_verify_sign.
  cbn [negb]. rewrite H2. done.
Qed.

(** The client's confirmation passes the server's check. *)
Lemma client_finished_accepted transcript t1 t2 secret auth_body f :
  Transcript.update_message transcript Encoding.CLIENT_AUTH auth_body = Ok t1 ->
  Transcript.update_message t1 Encoding.SERVER_FINISHED f = Ok t2 ->
  verify_client_finished secret transcript auth_body f
    (finished_mac (finished_key secret (bstr "client finished") t1.(Transcript.hash)) t2.(Transcript.hash)) = Ok tt.
Proof.
  intros H1 H2. unfold verify_client_finished. rewrite H1. cbn [map_err mbind Result_bind]. rewrite H2.
  cbn [map_err mbind Result_bind]. by rewrite bool_decide_eq_true_2.
Qed.

(** What a transcript accepts: a message of the known types while there is room. *)
Lemma update_message_Ok t ty body :
  ty <= MAX_VARINT -> len body <= Encoding.MAX_HANDSHAKE_MESSAGE ->
  t.(Transcript.total_bytes) + 16 + len body <= Transcript.MAX_TRANSCRIPT ->
  exists t', Transcript.update_message t ty body = Ok t' /\ len t'.(Transcript.hash) = 32 /\
    t'.(Transcript.total_bytes) <= t.(Transcript.total_bytes) + 16 + len body.
Proof.
  intros Ht Hb Hm. destruct (message_writes ty body Ht Hb []) as (bs & E & Hl).
  unfold Transcript.update_message, Encoding.message_encoded_len. rewrite E. cbn [mbind Result_bind map_err app].
  rewrite (proj2 (N.ltb_ge _ _)) by lia. cbn [mbind Result_bind map_err]. eexists. split; [done|].
  split; [apply blake2s_len|]. cbn [Transcript.total_bytes]. lia.
Qed.

End Lemmas.
