(* ===== verification/HandshakeGates.v ===== *)
(** * Handshake gates

    What stands before and around the cryptography of a handshake: the state
    machine (crates/umc-handshake/src/state.rs), the attempt counters of a
    connection identifier (tracker.rs and bins/umcd/src/handshake_timeout.rs),
    the parameters both ends agree on (params.rs), the invitations that admit a
    client (crates/umc-discovery/src/invitation.rs) and the tickets already used
    (bins/umcd/src/state.rs). *)

From stdpp Require Import gmap.
From S2P Require Import Prelude SentPackets Records.

#[local] Open Scope N_scope.

(** ** State machine *)

Inductive HandshakeState :=
| Idle
| InitialSent
| InitialReceived
| RetrySent
| RetryReceived
| HandshakeKeys
| PeerAuthenticated
| SessionKeys
| Confirmed
| Closed.

#[export] Instance HandshakeState_eq_dec : EqDecision HandshakeState.
Proof. solve_decision. Defined.

Inductive HandshakeEvent :=
| SendClientHello
| ReceiveClientHello
| SendServerHello
| ReceiveServerHello
| SendRetry
| ReceiveRetry
| InstallHandshakeKeys
| SendClientAuth
| ReceiveClientAuth
| SendServerFinished
| ReceiveServerFinished
| SendClientFinished
| ReceiveClientFinished
| InstallSessionKeys
| Confirm
| Fail_.

#[export] Instance HandshakeEvent_eq_dec : EqDecision HandshakeEvent.
Proof. solve_decision. Defined.

Inductive StateError := InvalidTransition.

Module HandshakeMachine.

Record t := mk {
  state : HandshakeState;
  peer_authenticated : bool;
  application_keys_installed : bool
}.

Definition new : t := mk Idle false false.

Definition next (s : HandshakeState) (event : HandshakeEvent) : Result StateError HandshakeState :=
  match s, event with
  | _, Fail_ => Ok Closed
  | Idle, SendClientHello => Ok InitialSent
  | Idle, ReceiveRetry => Ok RetryReceived
  | InitialSent, ReceiveRetry => Ok RetryReceived
  | RetryReceived, SendClientHello => Ok InitialSent
  | InitialSent, ReceiveServerHello => Ok HandshakeKeys
  | Idle, ReceiveClientHello => Ok InitialReceived
  | InitialReceived, SendRetry => Ok RetrySent
  | RetrySent, ReceiveClientHello => Ok InitialReceived
  | InitialReceived, SendServerHello => Ok HandshakeKeys
  | HandshakeKeys, InstallHandshakeKeys => Ok HandshakeKeys
  | HandshakeKeys, SendClientAuth => Ok PeerAuthenticated
  | HandshakeKeys, ReceiveClientAuth => Ok PeerAuthenticated
  | PeerAuthenticated, ReceiveServerFinished => Ok SessionKeys
  | PeerAuthenticated, SendServerFinished => Ok SessionKeys
  | SessionKeys, InstallSessionKeys => Ok SessionKeys
  | SessionKeys, SendClientFinished => Ok SessionKeys
  | SessionKeys, ReceiveClientFinished => Ok SessionKeys
  | SessionKeys, Confirm => Ok Confirmed
  | Confirmed, InstallSessionKeys => Ok Confirmed
  | _, _ => Err InvalidTransition
  end.

(** [matches!(event, ...)] *)
Definition is_evidence (event : HandshakeEvent) : bool :=
  match event with
  | ReceiveClientAuth | ReceiveServerFinished | ReceiveClientFinished => true
  | _ => false
  end.

Definition apply (m : t) (event : HandshakeEvent) : Result StateError t :=
  s ← next m.(state) event;
  let authenticated := m.(peer_authenticated) || is_evidence event in
  if bool_decide (s = Confirmed) then Ok (mk s true true)
  else Ok (mk s authenticated m.(application_keys_installed)).

Definition may_install_application_keys (m : t) : bool :=
  bool_decide (m.(state) = Confirmed) && m.(peer_authenticated) && m.(application_keys_installed).

(** The machine after a sequence of events. *)
Fixpoint run (m : t) (events : list HandshakeEvent) : Result StateError t :=
  match events with
  | [] => Ok m
  | e :: events => m ← apply m e; run m events
  end.

End HandshakeMachine.

(** ** Attempt counters *)

(** A hash map is visited in an order of its own. *)
Class HashOrder (V : Type) := visit : gmap (list u8) V -> list (list u8 * V).

Class HashOrderLaws (V : Type) `{HashOrder V} : Prop :=
  visit_all m : Permutation (visit m) (map_to_list m).

Module HandshakeTracker.

Definition DEFAULT_MAX_ATTEMPTS : u32 := 3.
Definition MAX_TRACKED_DCIDS : usize := 1024.

Inductive error := LimitExceeded.

Record t := mk { attempts_ : gmap (list u8) u32; max_attempts : u32; max_dcids : usize }.

Definition new (max_attempts : u32) : t := mk ∅ max_attempts MAX_TRACKED_DCIDS.

(** Room for a new identifier: some other one is forgotten. *)
Definition make_room `{HashOrder u32} (h : t) (dcid : list u8) : t :=
  if bool_decide (h.(attempts_) !! dcid = None) && (h.(max_dcids) <=? N.of_nat (size h.(attempts_)))
  then match visit h.(attempts_) with
       | (stale, _) :: _ => h <| attempts_ := delete stale h.(attempts_) |>
       | [] => h
       end
  else h.

Definition register `{HashOrder u32} (h : t) (dcid : list u8) : Result error unit * t :=
  let h := make_room h dcid in
  let attempts := default 0 (h.(attempts_) !! dcid) in
  if h.(max_attempts) <=? attempts then (Err LimitExceeded, h <| attempts_ := <[dcid := attempts]> h.(attempts_) |>)
  else (Ok tt, h <| attempts_ := <[dcid := attempts + 1]> h.(attempts_) |>).

Definition attempts (h : t) (dcid : list u8) : u32 := default 0 (h.(attempts_) !! dcid).

Definition clear (h : t) (dcid : list u8) : t := h <| attempts_ := delete dcid h.(attempts_) |>.

End HandshakeTracker.

(** The daemon's counter (handshake_timeout.rs). *)
Module DaemonTracker.

Definition MAX_HANDSHAKE_RETRIES : u32 := 3.
Definition HANDSHAKE_DEADLINE_MS : u64 := 10000.

Inductive error := RetryCap | Deadline.

Record t := mk { attempts : gmap (list u8) u32; deadline : gmap (list u8) Instant }.

Definition new : t := mk ∅ ∅.

Definition check (h : t) (dcid : list u8) (now : Instant) : Result error unit :=
  if MAX_HANDSHAKE_RETRIES <=? default 0 (h.(attempts) !! dcid) then Err RetryCap
  else if match h.(deadline) !! dcid with Some d => d <? now | None => false end then Err Deadline
  else Ok tt.

Definition record (h : t) (dcid : list u8) (now : Instant) : t :=
  mk (<[dcid := default 0 (h.(attempts) !! dcid) + 1]> h.(attempts))
     (match h.(deadline) !! dcid with
      | Some _ => h.(deadline)
      | None => <[dcid := instant_add now HANDSHAKE_DEADLINE_MS]> h.(deadline)
      end).

End DaemonTracker.

(** ** Transport parameters *)

Module TransportParameters.

Record t := mk {
  initial_max_data : u64;
  initial_max_stream_data_bidi_local : u64;
  initial_max_stream_data_bidi_remote : u64;
  initial_max_stream_data_uni : u64;
  initial_max_bidirectional_streams : u64;
  initial_max_unidirectional_streams : u64;
  maximum_datagram_size : u64;
  idle_timeout_ms : u64;
  maximum_ack_delay_ms : u64;
  ack_delay_exponent : u64;
  active_connection_id_limit : u64;
  maximum_paths : u64
}.

Definition default : t :=
  mk (4 * 1024 * 1024) (256 * 1024) (256 * 1024) (256 * 1024) 16 16 1200 30000 25 3 4 1.

End TransportParameters.

Definition MAX_ACK_DELAY_EXPONENT : u64 := 20.
Definition MAX_ACK_DELAY_MS : u64 := 1000.
Definition MAX_ACTIVE_CONNECTION_ID_LIMIT : u64 := 8.
Definition MAX_PATHS : u64 := 8.
Definition MAX_DATAGRAM_SIZE : u64 := 65535.

Inductive ParamError := UnknownCritical | Duplicate | ValueTooLarge | InvalidValue.

Definition validate_parameters (p : TransportParameters.t) : Result ParamError unit :=
  if (MAX_ACK_DELAY_EXPONENT <? p.(TransportParameters.ack_delay_exponent))
     || (MAX_ACK_DELAY_MS <? p.(TransportParameters.maximum_ack_delay_ms))
     || (MAX_ACTIVE_CONNECTION_ID_LIMIT <? p.(TransportParameters.active_connection_id_limit))
     || (MAX_PATHS <? p.(TransportParameters.maximum_paths))
     || (MAX_DATAGRAM_SIZE <? p.(TransportParameters.maximum_datagram_size))
  then Err ValueTooLarge
  else if (p.(TransportParameters.active_connection_id_limit) <? 2)
          || (p.(TransportParameters.maximum_paths) =? 0)
          || (negb (p.(TransportParameters.maximum_datagram_size) =? 0)
              && (p.(TransportParameters.maximum_datagram_size) <? 1200))
  then Err InvalidValue
  else Ok tt.

Definition min_nonzero (left right : u64) : u64 :=
  match left, right with
  | 0, value => value
  | value, 0 => value
  | l, r => N.min l r
  end.

(** [None]: one of the assertions fails. *)
Definition effective_parameters (local remote : TransportParameters.t) : option TransportParameters.t :=
  match validate_parameters local, validate_parameters remote with
  | Ok _, Ok _ =>
      let least f := N.min (f local) (f remote) in
      Some (TransportParameters.mk
              (least TransportParameters.initial_max_data)
              (least TransportParameters.initial_max_stream_data_bidi_local)
              (least TransportParameters.initial_max_stream_data_bidi_remote)
              (least TransportParameters.initial_max_stream_data_uni)
              (least TransportParameters.initial_max_bidirectional_streams)
              (least TransportParameters.initial_max_unidirectional_streams)
              (least TransportParameters.maximum_datagram_size)
              (min_nonzero local.(TransportParameters.idle_timeout_ms) remote.(TransportParameters.idle_timeout_ms))
              (least TransportParameters.maximum_ack_delay_ms)
              (least TransportParameters.ack_delay_exponent)
              (least TransportParameters.active_connection_id_limit)
              (least TransportParameters.maximum_paths))
  | _, _ => None
  end.

(** ** Invitations *)

Module Invitation.
Record t := mk { id : list u8; key : list u8; expires_at_ms : u64; single_use : bool; used : bool }.

(** [!invitation.single_use || !invitation.used] *)
Definition usable (i : t) : bool := negb i.(single_use) || negb i.(used).

(** [if invitation.single_use { invitation.used = true; }] *)
Definition consume (i : t) : t := if i.(single_use) then i <| used := true |> else i.
End Invitation.

Module InvitationStore.

Definition MAX_INVITATIONS : usize := 256.

Inductive error := Unknown | Expired | AlreadyUsed | Full.

Abbreviation t := (gmap (list u8) Invitation.t).

Definition new : t := ∅.

(** [id] and [key] are what the entropy source fills in. *)
Definition create (s : t) (expires_at_ms : u64) (single_use : bool) (id key : list u8) : Result error (Invitation.t * t) :=
  if MAX_INVITATIONS <=? N.of_nat (size s) then Err Full
  else
    let invitation := Invitation.mk id key expires_at_ms single_use false in
    Ok (invitation, <[id := invitation]> s).

Definition validate (s : t) (id key : list u8) (now_ms : u64) : Result error t :=
  match s !! id with
  | None => Err Unknown
  | Some invitation =>
      if invitation.(Invitation.expires_at_ms) <=? now_ms then Err Expired
      else if invitation.(Invitation.single_use) && invitation.(Invitation.used) then Err AlreadyUsed
      else if negb (bool_decide (invitation.(Invitation.key) = key)) then Err Unknown
      else Ok (<[id := Invitation.consume invitation]> s)
  end.

Definition prune_expired (s : t) (now_ms : u64) : t :=
  filter (fun '(_, i) => now_ms < i.(Invitation.expires_at_ms)) s.

Definition revoke (s : t) (id : list u8) : t := delete id s.

(** [values_mut().find(usable).filter(matches)]: the map is visited in its own
    order, the first usable invitation is taken, and only that one is tried. *)
Definition authenticate `{HashOrder Invitation.t} (s : t) (now_ms : u64) (matches : list u8 -> bool)
    : Result error (list u8) * t :=
  let s := prune_expired s now_ms in
  match List.find (fun '(_, i) => Invitation.usable i) (visit s) with
  | Some (id, invitation) =>
      if matches invitation.(Invitation.key)
      then (Ok invitation.(Invitation.key), <[id := Invitation.consume invitation]> s)
      else (Err Unknown, s)
  | None => (Err Unknown, s)
  end.

End InvitationStore.

(** ** Tickets already used *)

Module TicketReplayCache.

Definition CAP : usize := 1024.

Record t := mk { seen : gset (list u8); order : list (list u8) }.

Definition new : t := mk ∅ [].

Definition insert (c : t) (nonce : list u8) : bool * t :=
  if bool_decide (nonce ∈ c.(seen)) then (false, c)
  else
    let seen := {[nonce]} ∪ c.(seen) in
    let order := c.(order) ++ [nonce] in
    if CAP <? len order
    then match order with
         | oldest :: order => (true, mk (seen ∖ {[oldest]}) order)
         | [] => (true, mk seen order)
         end
    else (true, mk seen order).

(** The cache after a sequence of tickets, and which of them were fresh. *)
Fixpoint run (c : t) (nonces : list (list u8)) : list bool * t :=
  match nonces with
  | [] => ([], c)
  | n :: nonces =>
      let '(fresh, c) := insert c n in
      let '(rest, c) := run c nonces in
      (fresh :: rest, c)
  end.

End TicketReplayCache.

(** ** The machine's history *)

Lemma machine_run_app m es es' :
  HandshakeMachine.run m (es ++ es') = (m' ← HandshakeMachine.run m es; HandshakeMachine.run m' es').
Proof.
  revert m. induction es as [|e es IH]; intros m; simpl; [done|].
  destruct (HandshakeMachine.apply m e); simpl; [apply IH|done].
Qed.

(** One event of each kind, in the order given. *)
Fixpoint in_order (kinds : list (list HandshakeEvent)) (es : list HandshakeEvent) : Prop :=
  match kinds with
  | [] => True
  | kind :: kinds => exists before e after, es = before ++ e :: after /\ e ∈ kind /\ in_order kinds after
  end.

Lemma in_order_snoc kinds es e : in_order kinds es -> in_order kinds (es ++ [e]).
Proof.
  revert es. induction kinds as [|kind kinds IH]; intros es; simpl; [done|].
  intros (before & x & after & -> & Hx & Ho). exists before, x, (after ++ [e]).
  rewrite <- app_assoc. auto.
Qed.

Lemma in_order_last kinds kind es e : in_order kinds es -> e ∈ kind -> in_order (kinds ++ [kind]) (es ++ [e]).
Proof.
  revert es. induction kinds as [|k kinds IH]; intros es; simpl.
  - intros _ He. by exists es, e, [].
  - intros (before & x & after & -> & Hx & Ho) He. exists before, x, (after ++ [e]). rewrite <- app_assoc. auto.
Qed.

Definition auth_events : list HandshakeEvent := [SendClientAuth; ReceiveClientAuth].
Definition finished_events : list HandshakeEvent := [ReceiveServerFinished; SendServerFinished].

(** What must have happened in a state. *)
Definition milestones (s : HandshakeState) : list (list HandshakeEvent) :=
  match s with
  | PeerAuthenticated => [auth_events]
  | SessionKeys => [auth_events; finished_events]
  | Confirmed => [auth_events; finished_events; [Confirm]]
  | _ => []
  end.

Lemma milestones_step s e s' es :
  HandshakeMachine.next s e = Ok s' -> in_order (milestones s) es -> in_order (milestones s') (es ++ [e]).
Proof.
  intros Hn Ho. destruct s, e; simplify_eq/=; try done;
    first
      [ by apply (in_order_snoc [auth_events; finished_events])
      | by apply (in_order_snoc [auth_events; finished_events; [Confirm]])
      | apply (in_order_last []); [done|set_solver]
      | apply (in_order_last [auth_events]); [done|set_solver]
      | apply (in_order_last [auth_events; finished_events]); [done|set_solver] ].
Qed.

Lemma machine_apply_state m e m' :
  HandshakeMachine.apply m e = Ok m' ->
  HandshakeMachine.next m.(HandshakeMachine.state) e = Ok m'.(HandshakeMachine.state).
Proof.
  intros (s & Hn & Hm)%bind_Ok. rewrite Hn. by case_bool_decide; apply (inj Ok) in Hm as <-.
Qed.

(** [Closed] is final. *)
Lemma next_alive s e s' : HandshakeMachine.next s e = Ok s' -> s' <> Closed -> s <> Closed /\ e <> Fail_.
Proof. destruct s, e; naive_solver. Qed.

Lemma machine_history es m :
  HandshakeMachine.run HandshakeMachine.new es = Ok m ->
  in_order (milestones m.(HandshakeMachine.state)) es /\
  (m.(HandshakeMachine.state) <> Closed -> Fail_ ∉ es).
Proof.
  revert m. induction es as [|e es IH] using rev_ind; intros m Hr.
  - apply (inj Ok) in Hr as <-. split; [done|]. intros _. apply not_elem_of_nil.
  - rewrite machine_run_app in Hr. apply bind_Ok in Hr as (m1 & H1 & (m2 & H2 & <-%(inj Ok))%bind_Ok).
    destruct (IH _ H1) as [Ho Hf]. apply machine_apply_state in H2. split; [by eapply milestones_step|].
    intros Ha. destruct (next_alive _ _ _ H2 Ha) as [Ha1 He]. specialize (Hf Ha1). set_solver.
Qed.

(** ** The tracker's bounds *)

Module TrackerLemmas.
Import HandshakeTracker.

Definition wf (h : t) : Prop :=
  (0 < h.(max_dcids)) /\ N.of_nat (size h.(attempts_)) <= h.(max_dcids) /\
  forall dcid n, h.(attempts_) !! dcid = Some n -> n <= h.(max_attempts).

Section Order.
Context `{HO : HashOrder u32} {HL : HashOrderLaws u32}.

Lemma visit_elem (m : gmap (list u8) u32) k v l : visit m = (k, v) :: l -> m !! k = Some v.
Proof. intros Hv. apply elem_of_map_to_list. rewrite <- (visit_all m), Hv. by apply list_elem_of_here. Qed.

Lemma visit_empty (m : gmap (list u8) u32) : visit m = [] -> m = ∅.
Proof. intros Hv. apply map_to_list_empty_iff. apply Permutation_nil_r. by rewrite <- Hv, (visit_all m). Qed.

Lemma make_room_wf h dcid :
  wf h -> wf (make_room h dcid) /\
  ((make_room h dcid).(attempts_) !! dcid = None -> N.of_nat (size (make_room h dcid).(attempts_)) < h.(max_dcids)) /\
  (make_room h dcid).(max_attempts) = h.(max_attempts) /\ (make_room h dcid).(max_dcids) = h.(max_dcids) /\
  (make_room h dcid).(attempts_) !! dcid = h.(attempts_) !! dcid.
Proof.
  intros (Hpos & Hsz & Hn). unfold make_room.
  destruct (bool_decide (h.(attempts_) !! dcid = None)) eqn:Hd; cbn [andb].
  - apply bool_decide_eq_true_1 in Hd.
    destruct (N.leb_spec h.(max_dcids) (N.of_nat (size h.(attempts_)))); [|done].
    destruct (visit h.(attempts_)) as [|[stale v] l] eqn:Hv.
    + apply visit_empty in Hv. rewrite Hv, map_size_empty in *. simpl in *. lia.
    + apply visit_elem in Hv. pose proof (map_size_delete_Some _ _ (ex_intro _ v Hv : is_Some _)) as Hsd.
      assert (0 < size h.(attempts_))%nat by (apply Nat.neq_0_lt_0; intros H0%map_size_empty_inv; by rewrite H0, lookup_empty in Hv).
      cbn. rewrite Hsd. split_and!; [|lia|done|done|by rewrite lookup_delete_ne by congruence].
      unfold wf. cbn. rewrite Hsd. split_and!; [done|lia|]. intros k n [_ Hk]%lookup_delete_Some. by eapply Hn.
  - apply bool_decide_eq_false_1 in Hd. by split_and!.
Qed.

Lemma register_wf h dcid : wf h -> wf (register h dcid).2.
Proof.
  intros Hw. destruct (make_room_wf h dcid Hw) as ((Hpos & Hsz & Hn) & Hroom & Hma & Hmd & _).
  unfold register. set (h1 := make_room h dcid) in *.
  assert (Hin : forall v, v <= h1.(max_attempts) -> wf (h1 <| attempts_ := <[dcid := v]> h1.(attempts_) |>)).
  { intros v Hv. unfold wf. cbn. split_and!; [done| |].
    - rewrite map_size_insert. destruct (h1.(attempts_) !! dcid) eqn:E; [done|]. specialize (Hroom eq_refl). lia.
    - intros k n [[<- <-]|[_ Hk]]%lookup_insert_Some; [done|]. by eapply Hn. }
  destruct (N.leb_spec h1.(max_attempts) (default 0 (h1.(attempts_) !! dcid))); cbn [snd]; apply Hin; [|lia].
  destruct (h1.(attempts_) !! dcid) eqn:E; cbn; [by eapply Hn|lia].
Qed.

(** While it is remembered, an identifier is accepted exactly as often as its
    budget allows. *)
Lemma register_budget h dcid :
  wf h -> 0 < h.(max_attempts) ->
  (register h dcid).1 = Ok tt /\ attempts (register h dcid).2 dcid = attempts h dcid + 1 /\ attempts h dcid < h.(max_attempts) \/
  (register h dcid).1 = Err LimitExceeded /\ attempts (register h dcid).2 dcid = attempts h dcid /\ attempts h dcid = h.(max_attempts).
Proof.
  intros Hw Hpos. destruct (make_room_wf h dcid Hw) as (Hw1 & _ & Hma & Hmd & Hsame).
  unfold register, attempts. set (h1 := make_room h dcid) in *. rewrite Hma, <- Hsame.
  assert (Hle : default 0 (h1.(attempts_) !! dcid) <= h.(max_attempts)).
  { destruct Hw1 as (_ & _ & Hn). destruct (h1.(attempts_) !! dcid) eqn:E; cbn; [|lia]. rewrite <- Hma. by eapply Hn. }
  destruct (N.leb_spec h.(max_attempts) (default 0 (h1.(attempts_) !! dcid))); cbn; rewrite lookup_insert_eq; cbn; [right|left]; split_and!; try done; lia.
Qed.

End Order.
End TrackerLemmas.

(** ** The used tickets that are remembered *)

Module ReplayLemmas.
Import TicketReplayCache.

(** The tickets accepted among those presented. *)
Fixpoint accepted (nonces : list (list u8)) (fresh : list bool) : list (list u8) :=
  match nonces, fresh with
  | n :: nonces, f :: fresh => if f then n :: accepted nonces fresh else accepted nonces fresh
  | _, _ => []
  end.

(** The last [CAP] of a list. *)
Definition latest (l : list (list u8)) : list (list u8) := drop (length l - N.to_nat CAP) l.

Definition wf (c : t) : Prop := c.(seen) = list_to_set c.(order) /\ NoDup c.(order) /\ len c.(order) <= CAP.

Lemma insert_old c n : wf c -> n ∈ c.(order) -> insert c n = (false, c).
Proof. intros (Hs & _) Hn. unfold insert. rewrite bool_decide_eq_true_2; [done|]. rewrite Hs. by apply elem_of_list_to_set. Qed.

Lemma insert_new c n :
  wf c -> n ∉ c.(order) ->
  exists c', insert c n = (true, c') /\ wf c' /\ c'.(order) = latest (c.(order) ++ [n]).
Proof.
  intros (Hs & Hnd & Hl) Hn. unfold insert. rewrite bool_decide_eq_false_2; last first.
  { rewrite Hs. by rewrite elem_of_list_to_set. }
  assert (Hnd' : NoDup (c.(order) ++ [n])) by (apply list.NoDup_app; split_and!; [done|set_solver|apply NoDup_singleton]).
  assert (Hset : {[n]} ∪ c.(seen) = list_to_set (c.(order) ++ [n])) by (rewrite Hs, list_to_set_app_L; set_solver).
  rewrite Hset. unfold latest. set (l := c.(order) ++ [n]) in *.
  assert (Hll : len l <= CAP + 1) by (unfold l; autorewrite with umc; lia). unfold CAP in *.
  change (N.to_nat 1024) with 1024%nat.
  destruct (N.ltb_spec 1024 (len l)) as [Hgt|Hle].
  - clearbody l. destruct l as [|oldest l']; [unfold len in Hgt; simpl in Hgt; lia|].
    eexists. split; [done|]. cbn [order]. replace (length (oldest :: l') - 1024)%nat with 1%nat by (unfold len in *; simpl in *; lia).
    split; [|done]. apply list.NoDup_cons in Hnd' as [Ho Hnd']. unfold wf. cbn [seen order]. split_and!; [set_solver|done|].
    rewrite len_cons in Hll. unfold CAP. lia.
  - eexists. split; [done|]. replace (length l - 1024)%nat with 0%nat by (unfold len in *; lia). by split.
Qed.

Lemma latest_snoc l n : latest (latest l ++ [n]) = latest (l ++ [n]).
Proof.
  unfold latest. rewrite !length_app, length_drop. cbn [length]. change (N.to_nat CAP) with 1024%nat.
  destruct (Nat.le_gt_cases (length l) 1024) as [Hle|Hgt].
  - replace (length l - 1024)%nat with 0%nat by lia. rewrite drop_0. f_equal. lia.
  - rewrite !drop_app, drop_drop. f_equal; f_equal; rewrite ?length_drop; lia.
Qed.

Lemma run_latest c nonces past :
  wf c -> c.(order) = latest past ->
  wf (run c nonces).2 /\ (run c nonces).2.(order) = latest (past ++ accepted nonces (run c nonces).1).
Proof.
  revert c past. induction nonces as [|n nonces IH]; intros c past Hw Ho; simpl; [by rewrite app_nil_r|].
  destruct (decide (n ∈ c.(order))) as [Hin|Hout].
  - rewrite insert_old by done. specialize (IH c past Hw Ho). by destruct (run c nonces).
  - destruct (insert_new c n Hw Hout) as (c' & -> & Hw' & Ho'). rewrite Ho, latest_snoc in Ho'.
    specialize (IH c' (past ++ [n]) Hw' Ho'). destruct (run c' nonces). cbn in *. by rewrite <- app_assoc in IH.
Qed.

Lemma latest_in l n : n ∈ latest l -> n ∈ l.
Proof. apply subseteq_drop. Qed.

(** Tickets never seen are accepted. *)
Lemma run_fresh c nonces past :
  wf c -> c.(order) = latest past -> NoDup nonces -> (forall n, n ∈ nonces -> n ∉ past) ->
  (run c nonces).1 = replicate (length nonces) true.
Proof.
  intros Hw Ho Hnd. revert c past Hw Ho. induction Hnd as [|n nonces Hn Hnd IH]; intros c past Hw Ho Hp; [done|]. simpl.
  destruct (insert_new c n Hw) as (c' & -> & Hw' & Ho').
  { rewrite Ho. intros ?%latest_in. by apply (Hp n); [left|]. }
  rewrite Ho, latest_snoc in Ho'. assert (Hr : (run c' nonces).1 = replicate (length nonces) true).
  { apply (IH c' (past ++ [n]) Hw' Ho'). intros m Hm [?|Hmn%list_elem_of_singleton]%elem_of_app; [by apply (Hp m); [right|]|by subst m]. }
  destruct (run c' nonces). cbn [fst] in *. by rewrite Hr.
Qed.

Lemma accepted_all nonces : accepted nonces (replicate (length nonces) true) = nonces.
Proof. induction nonces as [|n nonces IH]; [done|]. cbn. by rewrite IH. Qed.

Lemma run_app c l1 l2 : (run c (l1 ++ l2)).1 = (run c l1).1 ++ (run (run c l1).2 l2).1.
Proof.
  revert c. induction l1 as [|n l1 IH]; intros c; [done|]. simpl. destruct (insert c n) as [f c'].
  specialize (IH c'). destruct (run c' (l1 ++ l2)), (run c' l1). cbn [fst snd] in *. by rewrite IH.
Qed.

Lemma new_wf : wf new.
Proof. split_and!; [done|apply NoDup_nil_2|done]. Qed.

End ReplayLemmas.

(** ** Invitations *)

Module InvitationLemmas.
Import InvitationStore.

Section Order.
Context `{HO : HashOrder Invitation.t} {HL : HashOrderLaws Invitation.t}.

Lemma visit_in (s : t) id i : (id, i) ∈ visit s <-> s !! id = Some i.
Proof. by rewrite (visit_all s), elem_of_map_to_list. Qed.

Lemma authenticate_inv s now matches key s' :
  authenticate s now matches = (Ok key, s') ->
  exists id i, s !! id = Some i /\ now < i.(Invitation.expires_at_ms) /\ Invitation.usable i = true /\
    i.(Invitation.key) = key /\ matches key = true /\ s' = <[id := Invitation.consume i]> (prune_expired s now).
Proof.
  unfold authenticate. destruct (List.find _ _) as [[id i]|] eqn:Hf; [|done].
  apply find_some in Hf as [Hin%list_elem_of_In Hu].
  apply visit_in in Hin. apply map_lookup_filter_Some in Hin as [Hs He].
  destruct (matches i.(Invitation.key)) eqn:Hm; [|done]. intros [= <- <-]. eauto 10.
Qed.

Lemma find_usable_first (s : t) now id i :
  prune_expired s now !! id = Some i -> Invitation.usable i = true ->
  exists id' i', List.find (fun '(_, i) => Invitation.usable i) (visit (prune_expired s now)) = Some (id', i') /\
    prune_expired s now !! id' = Some i'.
Proof.
  intros Hi Hu. destruct (List.find _ _) as [[id' i']|] eqn:Hf.
  - exists id', i'. split; [done|]. apply find_some in Hf as [Hin%list_elem_of_In _]. by apply visit_in.
  - apply visit_in, list_elem_of_In in Hi. apply (find_none _ _ Hf) in Hi. cbn in Hi. congruence.
Qed.

End Order.
End InvitationLemmas.

(** ** Parameters *)

Lemma validate_parameters_spec p :
  validate_parameters p = Ok tt <->
  p.(TransportParameters.ack_delay_exponent) <= 20 /\ p.(TransportParameters.maximum_ack_delay_ms) <= 1000 /\
  2 <= p.(TransportParameters.active_connection_id_limit) <= 8 /\ 1 <= p.(TransportParameters.maximum_paths) <= 8 /\
  p.(TransportParameters.maximum_datagram_size) <= 65535 /\
  (p.(TransportParameters.maximum_datagram_size) = 0 \/ 1200 <= p.(TransportParameters.maximum_datagram_size)).
Proof.
  unfold validate_parameters, MAX_ACK_DELAY_EXPONENT, MAX_ACK_DELAY_MS, MAX_ACTIVE_CONNECTION_ID_LIMIT, MAX_PATHS, MAX_DATAGRAM_SIZE.
  set (e := _.(TransportParameters.ack_delay_exponent)). set (d := _.(TransportParameters.maximum_ack_delay_ms)).
  set (c := _.(TransportParameters.active_connection_id_limit)). set (q := _.(TransportParameters.maximum_paths)).
  set (g := _.(TransportParameters.maximum_datagram_size)).
  match goal with |- context [if ?b then Err ValueTooLarge else _] => destruct b eqn:Hb1 end; [split; [done|lia]|].
  match goal with |- context [if ?b then Err InvalidValue else _] => destruct b eqn:Hb2 end; [split; [done|lia]|].
  split; [intros _; lia|done].
Qed.

(** ** Properties *)

(** C22: Application keys come last: in every run of the handshake machine, for
    either side, application keys may be installed only after client
    authentication, then a server Finished message, then a confirmation, in
    this order, and never once the handshake has failed. *)
Theorem keys_after_confirmation es m :
  HandshakeMachine.run HandshakeMachine.new es = Ok m -> HandshakeMachine.may_install_application_keys m = true ->
  in_order [auth_events; finished_events; [Confirm]] es /\ Fail_ ∉ es.
Proof.
  intros Hr Hk. destruct (machine_history _ _ Hr) as [Ho Hf]. unfold HandshakeMachine.may_install_application_keys in Hk.
  apply andb_true_iff in Hk as [[Hs%bool_decide_eq_true_1 _]%andb_true_iff _]. rewrite Hs in Ho, Hf. split; [done|by apply Hf].
Qed.

Definition responder_events : list HandshakeEvent :=
  [ReceiveClientHello; SendServerHello; InstallHandshakeKeys; ReceiveClientAuth; SendServerFinished;
   ReceiveClientFinished; Confirm].

Lemma keys_after_confirmation_witness :
  exists m, HandshakeMachine.run HandshakeMachine.new responder_events = Ok m /\
    HandshakeMachine.may_install_application_keys m = true /\
    in_order [auth_events; finished_events; [Confirm]] responder_events /\ Fail_ ∉ responder_events.
Proof.
  eexists. split; [reflexivity|]. split; [reflexivity|]. eapply keys_after_confirmation; reflexivity.
Defined.

(** The machine does not ask for evidence: a run in which no authenticated
    message of the peer is received still ends with the peer marked as
    authenticated and the application keys installable. *)
Theorem keys_without_evidence :
  exists es m, HandshakeMachine.run HandshakeMachine.new es = Ok m /\
    Forall (fun e => HandshakeMachine.is_evidence e = false) es /\
    m.(HandshakeMachine.peer_authenticated) = true /\ HandshakeMachine.may_install_application_keys m = true.
Proof.
  eexists [SendClientHello; ReceiveServerHello; SendClientAuth; SendServerFinished; Confirm], _.
  split; [reflexivity|]. split_and!; [|done|done]. repeat constructor.
Qed.

(** A ticket is good for one session while it is remembered: after any
    sequence of tickets, a ticket is refused exactly when it is among the last
    1,024 that were accepted. *)
Theorem ticket_replay_window nonces n :
  let '(fresh, c) := TicketReplayCache.run TicketReplayCache.new nonces in
  (TicketReplayCache.insert c n).1 = false <->
  n ∈ ReplayLemmas.latest (ReplayLemmas.accepted nonces fresh).
Proof.
  destruct (ReplayLemmas.run_latest TicketReplayCache.new nonces [] ReplayLemmas.new_wf eq_refl) as [Hw' Ho].
  destruct (TicketReplayCache.run _ _) as [fresh c]. cbn [fst snd app] in *. rewrite <- Ho.
  destruct (decide (n ∈ c.(TicketReplayCache.order))) as [Hin|Hout].
  - by rewrite ReplayLemmas.insert_old.
  - destruct (ReplayLemmas.insert_new c n Hw' Hout) as (c' & -> & _). cbn. split; [done|]. intros Hin. done.
Qed.

(** A ticket can be used again: any 1,024 other tickets make the cache forget
    it, and it is then accepted a second time. *)
Theorem ticket_reused first others :
  NoDup (first :: others) -> length others = 1024%nat ->
  (TicketReplayCache.run TicketReplayCache.new (first :: others ++ [first])).1 = replicate 1026 true.
Proof.
  intros Hnd Hl. rewrite app_comm_cons, ReplayLemmas.run_app.
  assert (Hr : (TicketReplayCache.run TicketReplayCache.new (first :: others)).1 = replicate (length (first :: others)) true).
  { apply (ReplayLemmas.run_fresh _ _ [] ReplayLemmas.new_wf eq_refl Hnd). intros n _ ?%elem_of_nil. done. }
  destruct (ReplayLemmas.run_latest _ (first :: others) [] ReplayLemmas.new_wf eq_refl) as [Hw Ho].
  rewrite Hr, ReplayLemmas.accepted_all in Ho. rewrite Hr. change 1026%nat with (1025 + 1)%nat. rewrite replicate_add.
  replace (length (first :: others)) with 1025%nat by (cbn [length]; lia). f_equal.
  apply (ReplayLemmas.run_fresh _ [first] others Hw); [|apply NoDup_singleton|].
  - rewrite Ho. unfold ReplayLemmas.latest. cbn [app length]. rewrite Hl. change (1025 - N.to_nat TicketReplayCache.CAP)%nat with 1%nat.
    cbn [drop]. by change (1024 - N.to_nat TicketReplayCache.CAP)%nat with 0%nat.
  - intros n ->%list_elem_of_singleton. by apply list.NoDup_cons in Hnd as [? _].
Qed.

(** An invitation is checked before it admits: the key that is returned
    belongs to an unexpired, unconsumed invitation of the store and satisfies
    the client's proof, and a single-use invitation is consumed with it, so it
    never admits again. *)
Theorem invitation_sound `{HashOrder Invitation.t, !HashOrderLaws Invitation.t} s now matches key s' :
  InvitationStore.authenticate s now matches = (Ok key, s') ->
  matches key = true /\
  exists id i, s !! id = Some i /\ i.(Invitation.key) = key /\ now < i.(Invitation.expires_at_ms) /\
    Invitation.usable i = true /\
    (i.(Invitation.single_use) = true ->
      forall key' later, InvitationStore.validate s' id key' later = Err InvitationStore.AlreadyUsed \/
        InvitationStore.validate s' id key' later = Err InvitationStore.Expired).
Proof.
  intros (id & i & Hs & He & Hu & Hk & Hm & ->)%InvitationLemmas.authenticate_inv. split; [done|].
  exists id, i. split_and!; try done. intros Hsu key' later. unfold InvitationStore.validate.
  rewrite lookup_insert_eq. unfold Invitation.consume. rewrite Hsu. cbn.
  destruct (_ <=? later); [by right|]. rewrite Hsu. by left.
Qed.

(** The order in which the keys were inserted is not kept: any fixed order does. *)
#[export] Instance plain_order V : HashOrder V := fun m => map_to_list m.
#[export] Instance plain_order_laws V : HashOrderLaws V.
Proof. by intros m. Qed.

Definition sample_invitations : InvitationStore.t :=
  <[[1] := Invitation.mk [1] [11] 1000 true false]> (<[[2] := Invitation.mk [2] [22] 5 true false]> ∅).

Definition holds_11 (k : list u8) : bool := bool_decide (k = [11]).

Lemma invitation_sound_witness :
  let s' := (InvitationStore.authenticate sample_invitations 100 holds_11).2 in
  holds_11 [11] = true /\
  exists id i, sample_invitations !! id = Some i /\ i.(Invitation.key) = [11] /\ 100 < i.(Invitation.expires_at_ms) /\
    Invitation.usable i = true /\
    (i.(Invitation.single_use) = true ->
      forall key' later, InvitationStore.validate s' id key' later = Err InvitationStore.AlreadyUsed \/
        InvitationStore.validate s' id key' later = Err InvitationStore.Expired).
Proof.
  apply (invitation_sound (H := plain_order _) sample_invitations 100 holds_11). vm_compute. reflexivity.
Defined.

(** Only one invitation is ever tried: with two live invitations of
    different keys in the store, whatever order the map is visited in, the
    rightful holder of one of them is refused. *)
Theorem invitation_shadowed `{HashOrder Invitation.t, !HashOrderLaws Invitation.t} s now id1 i1 id2 i2 :
  s !! id1 = Some i1 -> s !! id2 = Some i2 -> i1.(Invitation.key) <> i2.(Invitation.key) ->
  now < i1.(Invitation.expires_at_ms) -> now < i2.(Invitation.expires_at_ms) ->
  Invitation.usable i1 = true -> Invitation.usable i2 = true ->
  (InvitationStore.authenticate s now (fun k => bool_decide (k = i1.(Invitation.key)))).1 = Err InvitationStore.Unknown \/
  (InvitationStore.authenticate s now (fun k => bool_decide (k = i2.(Invitation.key)))).1 = Err InvitationStore.Unknown.
Proof.
  intros H1 H2 Hne He1 He2 Hu1 Hu2. unfold InvitationStore.authenticate.
  destruct (InvitationLemmas.find_usable_first s now id1 i1) as (id & i & -> & _);
    [by apply map_lookup_filter_Some|done|].
  destruct (decide (i.(Invitation.key) = i1.(Invitation.key))) as [Heq|Hne1].
  - right. rewrite (bool_decide_eq_false_2 (_ = i2.(Invitation.key))) by congruence. done.
  - left. by rewrite bool_decide_eq_false_2.
Qed.

Lemma invitation_shadowed_witness :
  let s := <[[1] := Invitation.mk [1] [11] 1000 true false]> (<[[2] := Invitation.mk [2] [22] 1000 true false]> ∅) : InvitationStore.t in
  (InvitationStore.authenticate s 0 (fun k => bool_decide (k = [11]))).1 = Err InvitationStore.Unknown \/
  (InvitationStore.authenticate s 0 (fun k => bool_decide (k = [22]))).1 = Err InvitationStore.Unknown.
Proof.
  apply (invitation_shadowed (H := plain_order _)
           (<[[1] := Invitation.mk [1] [11] 1000 true false]> (<[[2] := Invitation.mk [2] [22] 1000 true false]> ∅))
           0 [1] (Invitation.mk [1] [11] 1000 true false) [2] (Invitation.mk [2] [22] 1000 true false));
    try (vm_compute; reflexivity). discriminate.
Defined.

(** The parameters both ends use are within what each of them offered: they
    are valid again, no end gets more than it allowed, and both ends compute the
    same ones. *)
Theorem effective_parameters_agree a b :
  validate_parameters a = Ok tt -> validate_parameters b = Ok tt ->
  exists p, effective_parameters a b = Some p /\ effective_parameters b a = Some p /\
    validate_parameters p = Ok tt /\
    p.(TransportParameters.initial_max_data) <= N.min a.(TransportParameters.initial_max_data) b.(TransportParameters.initial_max_data) /\
    p.(TransportParameters.maximum_paths) <= N.min a.(TransportParameters.maximum_paths) b.(TransportParameters.maximum_paths) /\
    p.(TransportParameters.active_connection_id_limit) <=
      N.min a.(TransportParameters.active_connection_id_limit) b.(TransportParameters.active_connection_id_limit) /\
    (a.(TransportParameters.idle_timeout_ms) <> 0 -> p.(TransportParameters.idle_timeout_ms) <> 0 /\
       p.(TransportParameters.idle_timeout_ms) <= a.(TransportParameters.idle_timeout_ms)).
Proof.
  intros Ha Hb. unfold effective_parameters. rewrite Ha, Hb. eexists. split; [done|]. split.
  - f_equal. f_equal; try apply N.min_comm. unfold min_nonzero.
    destruct (TransportParameters.idle_timeout_ms a), (TransportParameters.idle_timeout_ms b); try done. apply N.min_comm.
  - cbn. split; [|split_and!; [lia|lia|lia|]].
    + apply validate_parameters_spec in Ha, Hb. apply validate_parameters_spec. cbn. lia.
    + intros Hz. unfold min_nonzero. destruct (TransportParameters.idle_timeout_ms a), (TransportParameters.idle_timeout_ms b); simpl; lia.
Qed.

Lemma effective_parameters_agree_witness :
  let a := TransportParameters.default in
  let b := TransportParameters.default <| TransportParameters.maximum_datagram_size := 0 |>
                                       <| TransportParameters.idle_timeout_ms := 0 |> in
  exists p, effective_parameters a b = Some p /\ effective_parameters b a = Some p /\
    validate_parameters p = Ok tt /\
    p.(TransportParameters.initial_max_data) <= N.min a.(TransportParameters.initial_max_data) b.(TransportParameters.initial_max_data) /\
    p.(TransportParameters.maximum_paths) <= N.min a.(TransportParameters.maximum_paths) b.(TransportParameters.maximum_paths) /\
    p.(TransportParameters.active_connection_id_limit) <=
      N.min a.(TransportParameters.active_connection_id_limit) b.(TransportParameters.active_connection_id_limit) /\
    (a.(TransportParameters.idle_timeout_ms) <> 0 -> p.(TransportParameters.idle_timeout_ms) <> 0 /\
       p.(TransportParameters.idle_timeout_ms) <= a.(TransportParameters.idle_timeout_ms)).
Proof.
  apply (effective_parameters_agree TransportParameters.default
           (TransportParameters.default <| TransportParameters.maximum_datagram_size := 0 |>
              <| TransportParameters.idle_timeout_ms := 0 |>)); reflexivity.
Defined.

(** A tracker stays within its bounds, under any flood of identifiers: at
    most as many identifiers as it may remember, and none with more accepted
    attempts than its budget; an identifier that is remembered is refused
    exactly when its budget is spent. *)
Theorem tracker_bounded `{HashOrder u32, !HashOrderLaws u32} h dcid :
  TrackerLemmas.wf h -> 0 < h.(HandshakeTracker.max_attempts) ->
  TrackerLemmas.wf (HandshakeTracker.register h dcid).2 /\
  ((HandshakeTracker.register h dcid).1 = Ok tt <->
   HandshakeTracker.attempts h dcid < h.(HandshakeTracker.max_attempts)).
Proof.
  intros Hw Hp. split; [by apply TrackerLemmas.register_wf|].
  destruct (TrackerLemmas.register_budget h dcid Hw Hp) as [(-> & _ & Ha)|(-> & _ & Ha)]; [done|].
  rewrite Ha. split; [done|lia].
Qed.

Lemma tracker_bounded_witness :
  TrackerLemmas.wf (HandshakeTracker.register (HandshakeTracker.new 3) [1]).2 /\
  ((HandshakeTracker.register (HandshakeTracker.new 3) [1]).1 = Ok tt <->
   HandshakeTracker.attempts (HandshakeTracker.new 3) [1] < 3).
Proof.
  apply (tracker_bounded (H := plain_order _) (HandshakeTracker.new 3) [1]); [|reflexivity].
  split_and!; [reflexivity|by vm_compute|]. intros d n. cbn. by rewrite lookup_empty.
Defined.
