(* ===== verification/Store.v ===== *)
(** * The record store (crates/umc-storage/src/store.rs)

    The trait [Store] as a class: what it offers, and what its documentation
    promises.  The backends are database code; the components over the store
    are proved against the promises, for stores that may refuse any call. *)

From Stdlib Require Import Strings.String Sorting.Sorted.
From stdpp Require Import gmap.
From S2P Require Import Prelude Sorting.

Module Namespace.
Inductive t := Config | Identity | Trust | Peer | Route | Bundle | Relay | Api | Abuse.
#[global] Instance t_eq_dec : EqDecision t.
Proof. solve_decision. Defined.
End Namespace.

Abbreviation Record_ := (list u8 * list u8)%type.

(** [Corrupt] carries the text; what [{error:?}] adds to it is left out. *)
Inductive StoreError :=
| NotFound
| Serialization
| Transaction
| Corrupt (what : string)
| QuotaExceeded.
#[global] Arguments Corrupt _%_string.

(** [get] and [scan] leave the store as it is, so their answers are a function of
    its state; a call that writes returns the new state. *)
Class Store (St : Type) := {
  store_get : St -> Namespace.t -> list u8 -> Result StoreError (option (list u8));
  store_put : St -> Namespace.t -> list u8 -> list u8 -> Result StoreError unit * St;
  store_delete : St -> Namespace.t -> list u8 -> Result StoreError unit * St;
  store_scan : St -> Namespace.t -> Result StoreError (list Record_);
  store_put_batch : St -> Namespace.t -> list Record_ -> Result StoreError unit * St;
  (** what is stored, for specifications only *)
  contents : St -> Namespace.t -> gmap (list u8) (list u8)
}.

(** The records of one batch, later ones over earlier ones. *)
Fixpoint insert_all (entries : list Record_) (m : gmap (list u8) (list u8)) : gmap (list u8) (list u8) :=
  match entries with
  | [] => m
  | (k, v) :: entries => insert_all entries (<[k := v]> m)
  end.

Definition key_order : Record_ -> Record_ -> comparison := key_cmp bytes_cmp fst.

Class StoreLaws (St : Type) `{Store St} : Prop := {
  get_contents s ns k v : store_get s ns k = Ok v -> contents s ns !! k = v;
  put_contents s ns k v r s' :
    store_put s ns k v = (r, s') ->
    forall ns', contents s' ns' =
      if is_ok r && bool_decide (ns' = ns) then <[k := v]> (contents s ns') else contents s ns';
  delete_contents s ns k r s' :
    store_delete s ns k = (r, s') ->
    forall ns', contents s' ns' =
      if is_ok r && bool_decide (ns' = ns) then delete k (contents s ns') else contents s ns';
  (** all entries, ordered by key *)
  scan_contents s ns l :
    store_scan s ns = Ok l ->
    l ≡ₚ map_to_list (contents s ns) /\ StronglySorted (cmp_le key_order) l;
  (** atomically, as one transaction *)
  batch_contents s ns l r s' :
    store_put_batch s ns l = (r, s') ->
    forall ns', contents s' ns' =
      if is_ok r && bool_decide (ns' = ns) then insert_all l (contents s ns') else contents s ns'
}.

(** A store no call on which fails in this state or any later one. *)
Class StoreTotal (St : Type) `{Store St} : Prop := {
  get_total s ns k : exists v, store_get s ns k = Ok v;
  put_total s ns k v : exists s', store_put s ns k v = (Ok tt, s');
  delete_total s ns k : exists s', store_delete s ns k = (Ok tt, s');
  scan_total s ns : exists l, store_scan s ns = Ok l;
  batch_total s ns l : exists s', store_put_batch s ns l = (Ok tt, s')
}.

Section Consequences.
Context {St : Type} `{Store St} {HL : StoreLaws St}.

Lemma put_same s ns k v s' : store_put s ns k v = (Ok tt, s') -> contents s' ns = <[k := v]> (contents s ns).
Proof. intros E. rewrite (put_contents _ _ _ _ _ _ E). simpl. by rewrite bool_decide_eq_true_2. Qed.

Lemma put_failed s ns k v e s' ns' : store_put s ns k v = (Err e, s') -> contents s' ns' = contents s ns'.
Proof. intros E. by rewrite (put_contents _ _ _ _ _ _ E). Qed.

Lemma batch_same s ns l s' : store_put_batch s ns l = (Ok tt, s') -> contents s' ns = insert_all l (contents s ns).
Proof. intros E. rewrite (batch_contents _ _ _ _ _ E). simpl. by rewrite bool_decide_eq_true_2. Qed.

Lemma batch_failed s ns l e s' ns' : store_put_batch s ns l = (Err e, s') -> contents s' ns' = contents s ns'.
Proof. intros E. by rewrite (batch_contents _ _ _ _ _ E). Qed.

Lemma scan_elem s ns l k v : store_scan s ns = Ok l -> (k, v) ∈ l <-> contents s ns !! k = Some v.
Proof. intros E. destruct (scan_contents _ _ _ E) as [Hp _]. rewrite Hp. apply elem_of_map_to_list. Qed.

End Consequences.

(** ** A store in memory *)

Abbreviation Memory := (Namespace.t -> gmap (list u8) (list u8)).

Definition change (s : Memory) (ns : Namespace.t) (m : gmap (list u8) (list u8)) : Memory :=
  fun ns' => if bool_decide (ns' = ns) then m else s ns'.

#[global] Instance memory_store : Store Memory := {
  store_get s ns k := Ok (s ns !! k);
  store_put s ns k v := (Ok tt, change s ns (<[k := v]> (s ns)));
  store_delete s ns k := (Ok tt, change s ns (delete k (s ns)));
  store_scan s ns := Ok (sort_by key_order (map_to_list (s ns)));
  store_put_batch s ns l := (Ok tt, change s ns (insert_all l (s ns)));
  contents s := s
}.

#[global] Instance memory_laws : StoreLaws Memory.
Proof.
  split; cbn.
  - by intros s ns k v <-%(inj Ok).
  - intros s ns k v r s' [= <- <-] ns'. simpl. unfold change. case_bool_decide; by subst.
  - intros s ns k r s' [= <- <-] ns'. simpl. unfold change. case_bool_decide; by subst.
  - intros s ns l <-%(inj Ok). split; [apply sort_by_perm|]. apply sort_by_sorted. apply _.
  - intros s ns l r s' [= <- <-] ns'. simpl. unfold change. case_bool_decide; by subst.
Qed.

#[global] Instance memory_total : StoreTotal Memory.
Proof. split; cbn; eauto. Qed.

Definition empty_memory : Memory := fun _ => ∅.
