(* ===== verification/Canonical.v ===== *)
(** * Canonical encodings

    Decoders that read every byte of their input, and what they say about the
    bytes they accepted: a decoder [spells] its values when the bytes it walked
    over are determined by the value it returned.  Together with [reads] of
    Codec.v this makes an encoding a bijection. *)

From S2P Require Import Prelude Codec Identity HandshakeKeys.

(** ** Reading *)

(** [read_byte] of the statement modules; their [read_array] and [read_slice] are
    [read_slice_or]. *)
Definition read_byte {Er} (err : Er) : DecOf Er u8 := fun body pos =>
  b ← ok_or err (get body pos);
  Ok (b, pos + 1).

(** A fallible computation between two reads. *)
Definition lift {Er A} (r : Result Er A) : DecOf Er A := fun _ pos => a ← r; Ok (a, pos).

(** [if offset != bytes.len()]: the decoder must have read everything. *)
Definition all_of {Er A} (d : DecOf Er A) (trailing : Er) (bytes : list u8) : Result Er A :=
  '(a, offset) ← d bytes 0;
  if negb (offset =? len bytes) then Err trailing else Ok a.

(** [u16::try_from(n).unwrap_or(u16::MAX).to_be_bytes()]. *)
Definition u16_max : N := 65535.
Definition be16 (n : usize) : list u8 := to_be_bytes 2 (N.min n u16_max).

(** ** What was read *)

Definition spells {Er A} (d : DecOf Er A) (Q : A -> list u8 -> Prop) : Prop :=
  forall body pos a pos', is_bytes body -> pos <= len body -> d body pos = Ok (a, pos') ->
    exists bs, from body pos = bs ++ from body pos' /\ pos' = pos + len bs /\ Q a bs.

Lemma from_to_le {A} (l : list A) pos : pos <= len l -> len (from l pos) = len l - pos.
Proof. intros. apply len_from. Qed.

Lemma spells_le {Er A} (d : DecOf Er A) Q body pos a pos' :
  spells d Q -> is_bytes body -> pos <= len body -> d body pos = Ok (a, pos') -> pos' <= len body.
Proof.
  intros Hd Hb Hp E. destruct (Hd _ _ _ _ Hb Hp E) as (bs & Hf & -> & _).
  assert (len (from body pos) = len bs + len (from body (pos + len bs))) as Hl by (by rewrite Hf, len_app at 1).
  rewrite len_from in Hl. lia.
Qed.

Lemma spells_ret {Er A} (a : A) (Q : A -> list u8 -> Prop) : Q a [] -> spells (Er := Er) (mret a) Q.
Proof. intros HQ body pos x pos' _ _ [= <- <-]. exists []. rewrite len_nil, N.add_0_r. done. Qed.

Lemma spells_bind {Er A B} (d : DecOf Er A) (k : A -> DecOf Er B) Q1 Q :
  spells d Q1 -> (forall a bs, Q1 a bs -> spells (k a) (fun b cs => Q b (bs ++ cs))) -> spells (d ≫= k) Q.
Proof.
  intros H1 H2 body pos b pos' Hb Hp E. unfold mbind, Dec_bind in E.
  destruct (d body pos) as [[a pos1]|] eqn:E1; [|done].
  pose proof (spells_le _ _ _ _ _ _ H1 Hb Hp E1) as Hp1.
  destruct (H1 _ _ _ _ Hb Hp E1) as (bs & Hf & Hl & HQ).
  destruct (H2 _ _ HQ _ _ _ _ Hb Hp1 E) as (cs & Hf' & Hl' & HQ').
  exists (bs ++ cs). rewrite Hf, Hf', <- app_assoc, len_app. split; [done|]. split; [lia|done].
Qed.

Lemma spells_weaken {Er A} (d : DecOf Er A) (Q Q' : A -> list u8 -> Prop) :
  spells d Q -> (forall a bs, Q a bs -> Q' a bs) -> spells d Q'.
Proof. intros Hd Himp body pos a pos' Hb Hp E. destruct (Hd _ _ _ _ Hb Hp E) as (bs & ? & ? & ?). exists bs. auto. Qed.

Lemma is_bytes_from l pos : is_bytes l -> is_bytes (from l pos).
Proof. apply list.Forall_drop. Qed.

Lemma spells_byte {Er} (err : Er) : spells (read_byte err) (fun b bs => bs = [b] /\ b <= u8_max).
Proof.
  intros body pos a pos' Hb Hp (b & Hg%ok_or_Ok & [= <- <-])%bind_Ok.
  unfold get in Hg. destruct (N.ltb_spec pos (len body)); [|done].
  exists [b]. split; [|split; [done|split; [done|]]].
  - unfold from. replace (N.to_nat (pos + 1)) with (S (N.to_nat pos)) by lia. by apply drop_S.
  - unfold is_bytes in Hb. rewrite list.Forall_lookup in Hb. by apply (Hb (N.to_nat pos)).
Qed.

Lemma spells_slice {Er} (err : Er) n : spells (read_slice_or err n) (fun v bs => bs = v /\ len v = n /\ is_bytes v).
Proof.
  intros body pos a pos' Hb Hp (hi & H1%ok_or_Ok & H)%bind_Ok.
  apply bind_Ok in H as (v & H2%ok_or_Ok & [= <- <-]). apply checked_add_Some in H1 as [-> _].
  unfold get_range in H2. destruct (N.leb_spec pos (pos + n)); [|done]. destruct (N.leb_spec (pos + n) (len body)); [|done].
  injection H2 as <-. replace (N.to_nat (pos + n - pos)) with (N.to_nat n) by lia.
  assert (len (take (N.to_nat n) (drop (N.to_nat pos) body)) = n) as Hl.
  { unfold len in *. rewrite length_take, length_drop. lia. }
  exists (take (N.to_nat n) (drop (N.to_nat pos) body)). rewrite Hl. split; [|split; [done|split_and!]]; try done.
  - unfold from. replace (N.to_nat (pos + n)) with (N.to_nat pos + N.to_nat n)%nat by lia.
    by rewrite <- drop_drop, take_drop.
  - by apply list.Forall_take, list.Forall_drop.
Qed.

Lemma to_from_be_bytes l : is_bytes l -> to_be_bytes (length l) (from_be_bytes l) = l.
Proof.
  intros Hl. induction l as [|b l IH] using rev_ind; [done|].
  apply list.Forall_app in Hl as [Hl Hb]. rewrite list.Forall_singleton in Hb.
  rewrite length_app, Nat.add_1_r. unfold from_be_bytes. rewrite from_be_bytes_acc_app. cbn [from_be_bytes_acc to_be_bytes].
  cbv beta in Hb. unfold u8_max in Hb. fold (from_be_bytes l).
  assert (forall v, (v * 256 + b) / 256 = v /\ (v * 256 + b) mod 256 = b) as Hv.
  { intros v. split; [symmetry; apply (N.div_unique _ _ _ b); lia|symmetry; apply (N.mod_unique _ _ v); lia]. }
  destruct (Hv (from_be_bytes l)) as [-> ->].
  by rewrite IH by done.
Qed.

Lemma spells_be {Er} (err : Er) n :
  spells (read_be err (N.of_nat n)) (fun v bs => bs = to_be_bytes n v /\ v < 256 ^ N.of_nat n).
Proof.
  eapply spells_bind; [apply spells_slice|]. intros v bs (-> & Hl & Hb). apply spells_ret.
  assert (length v = n) as Hn by (unfold len in Hl; lia). rewrite app_nil_r, <- Hn. split; [by rewrite to_from_be_bytes|].
  rewrite <- (to_from_be_bytes v) at 1 by done. rewrite from_to_be_bytes_mod. apply N.mod_lt. by apply N.pow_nonzero.
Qed.

Lemma spells_fail_if {Er} b (e : Er) : spells (fail_if b e) (fun _ bs => bs = [] /\ b = false).
Proof.
  intros body pos [] pos' _ _ H. unfold fail_if in H. destruct b; [done|]. injection H as <-.
  exists []. rewrite len_nil, N.add_0_r. done.
Qed.

Lemma spells_lift {Er A} (r : Result Er A) : spells (lift r) (fun a bs => bs = [] /\ r = Ok a).
Proof.
  intros body pos a pos' _ _ (a' & E & [= <- <-])%bind_Ok. exists []. rewrite len_nil, N.add_0_r. done.
Qed.

Lemma spells_n {Er A} n (d : DecOf Er A) Q :
  spells d Q -> spells (read_n n d) (fun l bs => length l = n /\ exists bss, Forall2 Q l bss /\ bs = concat bss).
Proof.
  intros Hd. induction n as [|n IH]; cbn [read_n].
  - apply spells_ret. split; [done|]. by exists [].
  - eapply spells_bind; [exact Hd|]. intros x bs Hx. eapply spells_bind; [exact IH|].
    intros l cs (Hn & bss & Hl & ->). apply spells_ret. rewrite app_nil_r. split; [simpl; lia|].
    exists (bs :: bss). split; [by constructor|done].
Qed.

(** ** Both directions *)

Lemma all_of_spells {Er A} (d : DecOf Er A) trailing Q bytes a :
  spells d Q -> is_bytes bytes -> all_of d trailing bytes = Ok a -> Q a bytes.
Proof.
  intros Hd Hb ([x off] & E & H)%bind_Ok. destruct (N.eqb_spec off (len bytes)) as [->|]; [|done].
  apply (inj Ok) in H as ->. destruct (Hd _ _ _ _ Hb (N.le_0_l _) E) as (bs & Hf & Hl & HQ).
  rewrite from_0 in Hf. assert (from bytes (len bytes) = []) as Hn.
  { unfold from, len. rewrite Nat2N.id. by apply drop_ge. }
  rewrite Hn, app_nil_r in Hf. by subst bs.
Qed.

Lemma all_of_reads {Er A} (d : DecOf Er A) trailing bytes a :
  reads d bytes a -> len bytes <= usize_max -> all_of d trailing bytes = Ok a.
Proof.
  intros Hd Hl. unfold all_of. pose proof (reads_start d bytes [] a Hd) as E. rewrite app_nil_r in E.
  rewrite E by done. cbn [mbind Result_bind]. by rewrite N.eqb_refl.
Qed.

Lemma reads_byte {Er} (err : Er) b : reads (read_byte err) [b] b.
Proof. intros pre post _. unfold read_byte. cbn [app]. by rewrite get_app_len. Qed.

Lemma reads_lift {Er A} (r : Result Er A) a : r = Ok a -> reads (lift r) [] a.
Proof. intros -> pre post _. unfold lift. cbn. by rewrite len_nil, N.add_0_r. Qed.

(** A step that reads nothing. *)
Lemma reads_bind_nil {Er A B} (d : DecOf Er A) (k : A -> DecOf Er B) cs a b :
  reads d [] a -> reads (k a) cs b -> reads (d ≫= k) cs b.
Proof. intros H1 H2. by apply (reads_bind d k [] cs a b). Qed.

Lemma reads_guard {Er} (b : bool) (err : Er) : b = false -> reads (fail_if b err) [] tt.
Proof. intros -> pre post _. unfold fail_if. by rewrite len_nil, N.add_0_r. Qed.

Lemma reads_read_n {Er A} (d : DecOf Er A) (enc : A -> list u8) l :
  Forall (fun x => reads d (enc x) x) l -> reads (read_n (length l) d) (concat (map enc l)) l.
Proof.
  induction 1 as [|x l Hx Hl IH]; cbn [read_n length map concat].
  - apply reads_ret.
  - eapply reads_bind; [exact Hx|]. rewrite <- (app_nil_r (concat _)). eapply reads_bind; [exact IH|]. apply reads_ret.
Qed.

(** Walk a decoder field by field over what it has read. *)
Ltac spells_step :=
  cbv beta zeta;
  first
    [ apply spells_ret
    | eapply spells_bind;
      [ first [ apply spells_byte | apply spells_slice | apply (spells_be _ 8) | apply (spells_be _ 2)
              | apply spells_fail_if | apply spells_lift | solve [eauto with umc] ]
      | let a := fresh "a" in let bs := fresh "bs" in let H := fresh "H" in intros a bs H; destruct H; subst ] ].
