(* ===== verification/TrustStatements.v ===== *)
(** * Signed trust statements (crates/umc-core/src/trust_statement.rs)

    Introductions, revocations and delegation certificates: their canonical
    bytes, their signatures, and the verification of a chain of delegations. *)

From Stdlib Require Import Strings.String Sorting.Sorted.
From stdpp Require Import sets.
From S2P Require Import Prelude Codec Sorting Records Crypto Identity HandshakeMessages HandshakeKeys Canonical.

(** ** Shared pieces *)

(** [String::from_utf8] accepts exactly the well-formed sequences. *)
Definition between (lo hi b : u8) : bool := (lo <=? b) && (b <=? hi).
Definition continuation (b : u8) : bool := between 0x80 0xBF b.

Definition second_of_three (b c : u8) : bool :=
  ((b =? 0xE0) && between 0xA0 0xBF c) || (between 0xE1 0xEC b && continuation c) ||
  ((b =? 0xED) && between 0x80 0x9F c) || (between 0xEE 0xEF b && continuation c).

Definition second_of_four (b c : u8) : bool :=
  ((b =? 0xF0) && between 0x90 0xBF c) || (between 0xF1 0xF3 b && continuation c) ||
  ((b =? 0xF4) && between 0x80 0x8F c).

Fixpoint utf8 (l : list u8) : bool :=
  match l with
  | [] => true
  | b :: l1 =>
      if b <? 0x80 then utf8 l1
      else match l1 with
      | [] => false
      | c1 :: l2 =>
          if between 0xC2 0xDF b then continuation c1 && utf8 l2
          else match l2 with
          | [] => false
          | c2 :: l3 =>
              if second_of_three b c1 then continuation c2 && utf8 l3
              else match l3 with
              | [] => false
              | c3 :: l4 => second_of_four b c1 && continuation c2 && continuation c3 && utf8 l4
              end
          end
      end
  end.

(** [vec.dedup()] removes all but the first of each run of equal elements. *)
Fixpoint dedup {A} `{EqDecision A} (l : list A) : list A :=
  match l with
  | [] => []
  | x :: l' =>
      match l' with
      | [] => [x]
      | y :: _ => if decide (x = y) then dedup l' else x :: dedup l'
      end
  end.

Definition INTRODUCTION_STATEMENT_VERSION : u8 := 1.
Definition MAX_INTRODUCTION_SCOPE : usize := 256.
Definition MAX_INTRODUCTION_STATEMENT : usize := 512.
Definition INTRODUCTION_RESTRICTION_MASK : u8 := 7.
Definition REVOCATION_STATEMENT_VERSION : u8 := 1.
Definition MAX_REVOCATION_STATEMENT : usize := 256.
Definition DELEGATION_STATEMENT_VERSION : u8 := 1.
Definition MAX_DELEGATION_CAPABILITIES : usize := 32.
Definition MAX_DELEGATION_CAPABILITY_LEN : usize := 64.
Definition MAX_DELEGATION_CAPABILITY_BYTES : usize := 1024.
Definition MAX_DELEGATION_CHAIN_LENGTH : usize := 4.
Definition MAX_DELEGATION_CHAIN_BYTES : usize := 8 * 1024.

Definition zero_id (id : list u8) : bool := bool_decide (id = zeros 32).

(** ** Introductions *)

Module IntroductionError.
Inductive t :=
| Version | EndpointIdMismatch | SameEndpoint | BadSignature | Expired | InvalidScope | InvalidEvidence
| InvalidConfidence | InvalidRestrictions | Oversized | Truncated | TrailingBytes.
End IntroductionError.

Module SubjectEvidence.
Inductive t :=
| BindingDigest (value : list u8)
| StaticHandshakeKey (value : list u8).

#[global] Instance t_eq_dec : EqDecision t.
Proof. solve_decision. Defined.

Definition tag_and_bytes (e : t) : u8 * list u8 :=
  match e with
  | BindingDigest value => (0, value)
  | StaticHandshakeKey value => (1, value)
  end.

Definition from_parts (tag : u8) (value : list u8) : Result IntroductionError.t t :=
  if zero_id value then Err IntroductionError.InvalidEvidence
  else match tag with
  | 0 => Ok (BindingDigest value)
  | 1 => Ok (StaticHandshakeKey value)
  | _ => Err IntroductionError.InvalidEvidence
  end.
End SubjectEvidence.

Module SignedIntroduction.
Record t := mk {
  version : u8;
  introducer_endpoint_id : list u8;
  subject_endpoint_id : list u8;
  subject_evidence : SubjectEvidence.t;
  allowed_use : list u8;
  expires_at_ms : u64;
  delegated_confidence : u8;
  sharing_restrictions : u8;
  sequence : u64;
  signature : list u8
}.

#[global] Instance t_eq_dec : EqDecision t.
Proof. solve_decision. Defined.

Definition signed_bytes (s : t) : list u8 :=
  let '(evidence_tag, evidence) := SubjectEvidence.tag_and_bytes s.(subject_evidence) in
  [s.(version)] ++ s.(introducer_endpoint_id) ++ s.(subject_endpoint_id) ++ [evidence_tag] ++ evidence ++
  be16 (len s.(allowed_use)) ++ s.(allowed_use) ++ to_be_bytes 8 s.(expires_at_ms) ++
  [s.(delegated_confidence)] ++ [s.(sharing_restrictions)] ++ to_be_bytes 8 s.(sequence).

Definition validate_structure (s : t) : Result IntroductionError.t unit :=
  if negb (s.(version) =? INTRODUCTION_STATEMENT_VERSION) then Err IntroductionError.Version
  else if zero_id s.(introducer_endpoint_id) || zero_id s.(subject_endpoint_id)
  then Err IntroductionError.EndpointIdMismatch
  else if bool_decide (s.(introducer_endpoint_id) = s.(subject_endpoint_id)) then Err IntroductionError.SameEndpoint
  else if zero_id (SubjectEvidence.tag_and_bytes s.(subject_evidence)).2 then Err IntroductionError.InvalidEvidence
  else if (len s.(allowed_use) =? 0) || (MAX_INTRODUCTION_SCOPE <? len s.(allowed_use))
  then Err IntroductionError.InvalidScope
  else if 100 <? s.(delegated_confidence) then Err IntroductionError.InvalidConfidence
  else if negb (N.land s.(sharing_restrictions) (N.lxor INTRODUCTION_RESTRICTION_MASK u8_max) =? 0)
  then Err IntroductionError.InvalidRestrictions
  else if s.(expires_at_ms) =? 0 then Err IntroductionError.Expired
  else if MAX_INTRODUCTION_STATEMENT <? saturating_add 182 (len s.(allowed_use)) then Err IntroductionError.Oversized
  else Ok tt.

Definition to_bytes (s : t) : Result IntroductionError.t (list u8) :=
  _ ← validate_structure s;
  let out := signed_bytes s ++ s.(signature) in
  if MAX_INTRODUCTION_STATEMENT <? len out then Err IntroductionError.Oversized else Ok out.

Definition fields : DecOf IntroductionError.t t :=
  let truncated := IntroductionError.Truncated in
  version ← read_byte truncated;
  introducer_endpoint_id ← read_slice_or truncated 32;
  subject_endpoint_id ← read_slice_or truncated 32;
  evidence_tag ← read_byte truncated;
  evidence_value ← read_slice_or truncated 32;
  evidence ← lift (SubjectEvidence.from_parts evidence_tag evidence_value);
  scope_len ← read_be truncated 2;
  _ ← fail_if ((scope_len =? 0) || (MAX_INTRODUCTION_SCOPE <? scope_len)) IntroductionError.InvalidScope;
  allowed_use ← read_slice_or truncated scope_len;
  _ ← fail_if (negb (utf8 allowed_use)) IntroductionError.InvalidScope;
  expires_at_ms ← read_be truncated 8;
  delegated_confidence ← read_byte truncated;
  sharing_restrictions ← read_byte truncated;
  sequence ← read_be truncated 8;
  signature ← read_slice_or truncated 64;
  mret (mk version introducer_endpoint_id subject_endpoint_id evidence allowed_use expires_at_ms
          delegated_confidence sharing_restrictions sequence signature).

Definition from_bytes (bytes : list u8) : Result IntroductionError.t t :=
  if MAX_INTRODUCTION_STATEMENT <? len bytes then Err IntroductionError.Oversized
  else
    statement ← all_of fields IntroductionError.TrailingBytes bytes;
    _ ← validate_structure statement;
    Ok statement.

Section Signatures.
Context `{Primitives, Curves}.

Definition signed_message (s : t) : list u8 := blake2s (bstr "UMP-INTRODUCTION-v1" ++ signed_bytes s).

Definition sign (identity : IdentityKeyPair.t) (subject_endpoint_id : list u8) (subject_evidence : SubjectEvidence.t)
    (allowed_use : list u8) (expires_at_ms : u64) (delegated_confidence sharing_restrictions : u8) (sequence : u64)
    : Result IntroductionError.t t :=
  let statement :=
    mk INTRODUCTION_STATEMENT_VERSION (endpoint_id (IdentityKeyPair.public identity)) subject_endpoint_id
       subject_evidence allowed_use expires_at_ms delegated_confidence sharing_restrictions sequence in
  _ ← validate_structure (statement (zeros 64));
  Ok (statement (IdentityKeyPair.sign identity (signed_message (statement (zeros 64))))).

Definition verify_signature (s : t) (introducer_public_key : list u8) : Result IntroductionError.t unit :=
  _ ← validate_structure s;
  if negb (bool_decide (endpoint_id introducer_public_key = s.(introducer_endpoint_id)))
  then Err IntroductionError.EndpointIdMismatch
  else if negb (identity_verify introducer_public_key (signed_message s) s.(signature))
  then Err IntroductionError.BadSignature
  else Ok tt.

Definition validate (s : t) (introducer_public_key : list u8) (now_ms : u64) : Result IntroductionError.t unit :=
  _ ← verify_signature s introducer_public_key;
  if s.(expires_at_ms) <=? now_ms then Err IntroductionError.Expired else Ok tt.

End Signatures.

(** The sizes Rust's types give. *)
Definition sized (s : t) : Prop :=
  s.(version) <= u8_max /\ len s.(introducer_endpoint_id) = 32 /\ len s.(subject_endpoint_id) = 32 /\
  len (SubjectEvidence.tag_and_bytes s.(subject_evidence)).2 = 32 /\ utf8 s.(allowed_use) = true /\
  s.(expires_at_ms) <= u64_max /\ s.(delegated_confidence) <= u8_max /\ s.(sharing_restrictions) <= u8_max /\
  s.(sequence) <= u64_max /\ len s.(signature) = 64.

End SignedIntroduction.

(** ** Revocations *)

Module RevocationStatementError.
Inductive t :=
| Version | EndpointIdMismatch | InvalidSubject | InvalidValidity | NotYetValid | Expired | BadSignature
| Oversized | Truncated | TrailingBytes | UnauthorizedSubject.
End RevocationStatementError.

Module RevocationClass.
Inductive t := Identity | Binding | Delegation | Introduction | RecoveryKey.
End RevocationClass.

Module RevocationSubject.
Inductive t :=
| Identity (id : list u8)
| Binding (endpoint_id : list u8) (binding_sequence : u64)
| Delegation (id : list u8)
| Introduction (id : list u8)
| RecoveryKey (id : list u8).

#[global] Instance t_eq_dec : EqDecision t.
Proof. solve_decision. Defined.

Definition class (s : t) : RevocationClass.t :=
  match s with
  | Identity _ => RevocationClass.Identity
  | Binding _ _ => RevocationClass.Binding
  | Delegation _ => RevocationClass.Delegation
  | Introduction _ => RevocationClass.Introduction
  | RecoveryKey _ => RevocationClass.RecoveryKey
  end.

Definition BINDING_TAG : u8 := 1.

Definition tag_and_bytes (s : t) : u8 * list u8 :=
  match s with
  | Identity id => (0, id)
  | Binding endpoint_id binding_sequence => (BINDING_TAG, endpoint_id ++ to_be_bytes 8 binding_sequence)
  | Delegation id => (2, id)
  | Introduction id => (3, id)
  | RecoveryKey id => (4, id)
  end.

(** [bytes.len() < 32 || bytes\[..32\] == \[0; 32\]] *)
Definition bad_prefix (bytes : list u8) : bool := (len bytes <? 32) || zero_id (take 32 bytes).

Definition from_parts (tag : u8) (bytes : list u8) : Result RevocationStatementError.t t :=
  if bad_prefix bytes then Err RevocationStatementError.InvalidSubject
  else
    let endpoint_id := take 32 bytes in
    if (tag =? 0) && (len bytes =? 32) then Ok (Identity endpoint_id)
    else if (tag =? BINDING_TAG) && (len bytes =? 40) then Ok (Binding endpoint_id (from_be_bytes (drop 32 bytes)))
    else if (tag =? 2) && (len bytes =? 32) then Ok (Delegation endpoint_id)
    else if (tag =? 3) && (len bytes =? 32) then Ok (Introduction endpoint_id)
    else if (tag =? 4) && (len bytes =? 32) then Ok (RecoveryKey endpoint_id)
    else Err RevocationStatementError.InvalidSubject.

Definition sized (s : t) : Prop :=
  match s with
  | Binding id sequence => len id = 32 /\ sequence <= u64_max
  | Identity id | Delegation id | Introduction id | RecoveryKey id => len id = 32
  end.

End RevocationSubject.

Module SignedRevocation.
Record t := mk {
  version : u8;
  issuer_endpoint_id : list u8;
  subject : RevocationSubject.t;
  sequence : u64;
  issued_at_ms : u64;
  expires_at_ms : u64;
  signature : list u8
}.

#[global] Instance t_eq_dec : EqDecision t.
Proof. solve_decision. Defined.

Definition class (s : t) : RevocationClass.t := RevocationSubject.class s.(subject).

Definition is_self_authorized (s : t) : bool :=
  match s.(subject) with
  | RevocationSubject.Identity endpoint_id | RevocationSubject.Binding endpoint_id _ =>
      bool_decide (endpoint_id = s.(issuer_endpoint_id))
  | _ => false
  end.

Definition signed_bytes (s : t) : list u8 :=
  let '(subject_tag, subject_bytes) := RevocationSubject.tag_and_bytes s.(subject) in
  [s.(version)] ++ s.(issuer_endpoint_id) ++ [subject_tag] ++ subject_bytes ++
  to_be_bytes 8 s.(sequence) ++ to_be_bytes 8 s.(issued_at_ms) ++ to_be_bytes 8 s.(expires_at_ms).

Definition validate_structure (s : t) : Result RevocationStatementError.t unit :=
  if negb (s.(version) =? REVOCATION_STATEMENT_VERSION) then Err RevocationStatementError.Version
  else if zero_id s.(issuer_endpoint_id) then Err RevocationStatementError.EndpointIdMismatch
  else if RevocationSubject.bad_prefix (RevocationSubject.tag_and_bytes s.(subject)).2
  then Err RevocationStatementError.InvalidSubject
  else if negb (s.(expires_at_ms) =? 0) && (s.(expires_at_ms) <=? s.(issued_at_ms))
  then Err RevocationStatementError.InvalidValidity
  else if MAX_REVOCATION_STATEMENT <? len (signed_bytes s) + SIGNATURE_LEN then Err RevocationStatementError.Oversized
  else Ok tt.

Definition to_bytes (s : t) : Result RevocationStatementError.t (list u8) :=
  _ ← validate_structure s;
  let out := signed_bytes s ++ s.(signature) in
  if MAX_REVOCATION_STATEMENT <? len out then Err RevocationStatementError.Oversized else Ok out.

Definition fields : DecOf RevocationStatementError.t t :=
  let truncated := RevocationStatementError.Truncated in
  version ← read_byte truncated;
  issuer_endpoint_id ← read_slice_or truncated 32;
  subject_tag ← read_byte truncated;
  subject_bytes ← read_slice_or truncated (if subject_tag =? RevocationSubject.BINDING_TAG then 40 else 32);
  subject ← lift (RevocationSubject.from_parts subject_tag subject_bytes);
  sequence ← read_be truncated 8;
  issued_at_ms ← read_be truncated 8;
  expires_at_ms ← read_be truncated 8;
  signature ← read_slice_or truncated 64;
  mret (mk version issuer_endpoint_id subject sequence issued_at_ms expires_at_ms signature).

Definition from_bytes (bytes : list u8) : Result RevocationStatementError.t t :=
  if MAX_REVOCATION_STATEMENT <? len bytes then Err RevocationStatementError.Oversized
  else
    statement ← all_of fields RevocationStatementError.TrailingBytes bytes;
    _ ← validate_structure statement;
    Ok statement.

Section Signatures.
Context `{Primitives, Curves}.

Definition signed_message (s : t) : list u8 := blake2s (bstr "UMP-REVOCATION-v1" ++ signed_bytes s).

Definition sign (identity : IdentityKeyPair.t) (subject : RevocationSubject.t)
    (sequence issued_at_ms expires_at_ms : u64) : Result RevocationStatementError.t t :=
  let statement :=
    mk REVOCATION_STATEMENT_VERSION (endpoint_id (IdentityKeyPair.public identity)) subject
       sequence issued_at_ms expires_at_ms in
  _ ← validate_structure (statement (zeros 64));
  Ok (statement (IdentityKeyPair.sign identity (signed_message (statement (zeros 64))))).

Definition verify_signature (s : t) (issuer_public_key : list u8) : Result RevocationStatementError.t unit :=
  _ ← validate_structure s;
  if negb (bool_decide (endpoint_id issuer_public_key = s.(issuer_endpoint_id)))
  then Err RevocationStatementError.EndpointIdMismatch
  else if negb (identity_verify issuer_public_key (signed_message s) s.(signature))
  then Err RevocationStatementError.BadSignature
  else Ok tt.

Definition validate (s : t) (issuer_public_key : list u8) (now_ms : u64) : Result RevocationStatementError.t unit :=
  _ ← verify_signature s issuer_public_key;
  if now_ms <? s.(issued_at_ms) then Err RevocationStatementError.NotYetValid
  else if negb (s.(expires_at_ms) =? 0) && (s.(expires_at_ms) <=? now_ms) then Err RevocationStatementError.Expired
  else Ok tt.

End Signatures.

Definition sized (s : t) : Prop :=
  s.(version) <= u8_max /\ len s.(issuer_endpoint_id) = 32 /\ RevocationSubject.sized s.(subject) /\
  s.(sequence) <= u64_max /\ s.(issued_at_ms) <= u64_max /\ s.(expires_at_ms) <= u64_max /\ len s.(signature) = 64.

End SignedRevocation.

(** ** Delegations *)

Module DelegationError.
Inductive t :=
| Version | EndpointIdMismatch | InvalidKey | InvalidCapabilities | NonCanonicalCapabilities | InvalidValidity
| NotYetValid | Expired | BadSignature | Oversized | Truncated | TrailingBytes | EmptyChain | ChainTooLong
| ChainTooLarge | Cycle | CapabilityExpansion | OutlivesIssuer.
End DelegationError.

(** [capabilities.windows(2).any(|window| window\[0\] >= window\[1\])] *)
Fixpoint out_of_order (capabilities : list (list u8)) : bool :=
  match capabilities with
  | a :: ((b :: _) as rest) =>
      match bytes_cmp a b with
      | Lt => out_of_order rest
      | _ => true
      end
  | _ => false
  end.

Definition total_len (l : list (list u8)) : N := foldr (fun c n => len c + n) 0 l.

Definition bad_capability (capability : list u8) : bool :=
  (len capability =? 0) || (MAX_DELEGATION_CAPABILITY_LEN <? len capability).

Definition validate_capabilities (capabilities : list (list u8)) : Result DelegationError.t unit :=
  if (MAX_DELEGATION_CAPABILITIES <? len capabilities) || existsb bad_capability capabilities ||
     (MAX_DELEGATION_CAPABILITY_BYTES <? total_len capabilities)
  then Err DelegationError.InvalidCapabilities
  else if out_of_order capabilities then Err DelegationError.NonCanonicalCapabilities
  else Ok tt.

Definition sort_dedup (capabilities : list (list u8)) : list (list u8) := dedup (sort_by bytes_cmp capabilities).

(** [canonical_capabilities] of this file. *)
Definition canonical_delegation_capabilities (capabilities : list (list u8)) : Result DelegationError.t (list (list u8)) :=
  let capabilities := sort_dedup capabilities in
  _ ← validate_capabilities capabilities;
  Ok capabilities.

Module SignedDelegation.
Record t := mk {
  version : u8;
  issuer_endpoint_id : list u8;
  delegated_public_key : list u8;
  allowed_capabilities : list (list u8);
  created_at_ms : u64;
  expires_at_ms : u64;
  sequence : u64;
  signature : list u8
}.

#[global] Instance t_eq_dec : EqDecision t.
Proof. solve_decision. Defined.

Definition prefixed (capability : list u8) : list u8 := be16 (len capability) ++ capability.

Definition signed_bytes (c : t) : list u8 :=
  [c.(version)] ++ c.(issuer_endpoint_id) ++ c.(delegated_public_key) ++
  [u8_saturated (len c.(allowed_capabilities))] ++ concat (map prefixed c.(allowed_capabilities)) ++
  to_be_bytes 8 c.(created_at_ms) ++ to_be_bytes 8 c.(expires_at_ms) ++ to_be_bytes 8 c.(sequence).

Definition validate_structure (c : t) : Result DelegationError.t unit :=
  if negb (c.(version) =? DELEGATION_STATEMENT_VERSION) then Err DelegationError.Version
  else if zero_id c.(issuer_endpoint_id) || zero_id c.(delegated_public_key) then Err DelegationError.InvalidKey
  else
    _ ← validate_capabilities c.(allowed_capabilities);
    if c.(expires_at_ms) <=? c.(created_at_ms) then Err DelegationError.InvalidValidity
    else if MAX_DELEGATION_CHAIN_BYTES <? len (signed_bytes c) + SIGNATURE_LEN then Err DelegationError.Oversized
    else Ok tt.

Definition to_bytes (c : t) : Result DelegationError.t (list u8) :=
  _ ← validate_structure c;
  let out := signed_bytes c ++ c.(signature) in
  if MAX_DELEGATION_CHAIN_BYTES <? len out then Err DelegationError.Oversized else Ok out.

Definition read_capability : DecOf DelegationError.t (list u8) :=
  length ← read_be DelegationError.Truncated 2;
  read_slice_or DelegationError.Truncated length.

Definition fields : DecOf DelegationError.t t :=
  let truncated := DelegationError.Truncated in
  version ← read_byte truncated;
  issuer_endpoint_id ← read_slice_or truncated 32;
  delegated_public_key ← read_slice_or truncated 32;
  capability_count ← read_byte truncated;
  _ ← fail_if (MAX_DELEGATION_CAPABILITIES <? capability_count) DelegationError.InvalidCapabilities;
  allowed_capabilities ← read_n (N.to_nat capability_count) read_capability;
  created_at_ms ← read_be truncated 8;
  expires_at_ms ← read_be truncated 8;
  sequence ← read_be truncated 8;
  signature ← read_slice_or truncated 64;
  mret (mk version issuer_endpoint_id delegated_public_key allowed_capabilities created_at_ms expires_at_ms
          sequence signature).

Definition from_bytes (bytes : list u8) : Result DelegationError.t t :=
  if MAX_DELEGATION_CHAIN_BYTES <? len bytes then Err DelegationError.Oversized
  else
    certificate ← all_of fields DelegationError.TrailingBytes bytes;
    _ ← validate_structure certificate;
    Ok certificate.

Section Signatures.
Context `{Primitives, Curves}.

Definition signed_message (c : t) : list u8 := blake2s (bstr "UMP-DELEGATION-v1" ++ signed_bytes c).

Definition sign (identity : IdentityKeyPair.t) (delegated_public_key : list u8) (allowed_capabilities : list (list u8))
    (created_at_ms expires_at_ms sequence : u64) : Result DelegationError.t t :=
  let certificate :=
    mk DELEGATION_STATEMENT_VERSION (endpoint_id (IdentityKeyPair.public identity)) delegated_public_key
       (sort_dedup allowed_capabilities) created_at_ms expires_at_ms sequence in
  _ ← validate_structure (certificate (zeros 64));
  Ok (certificate (IdentityKeyPair.sign identity (signed_message (certificate (zeros 64))))).

Definition verify_signature (c : t) (issuer_public_key : list u8) : Result DelegationError.t unit :=
  _ ← validate_structure c;
  if negb (bool_decide (endpoint_id issuer_public_key = c.(issuer_endpoint_id)))
  then Err DelegationError.EndpointIdMismatch
  else if negb (identity_verify issuer_public_key (signed_message c) c.(signature))
  then Err DelegationError.BadSignature
  else Ok tt.

Definition validate (c : t) (issuer_public_key : list u8) (now_ms : u64) : Result DelegationError.t unit :=
  _ ← verify_signature c issuer_public_key;
  if now_ms <? c.(created_at_ms) then Err DelegationError.NotYetValid
  else if c.(expires_at_ms) <=? now_ms then Err DelegationError.Expired
  else Ok tt.

End Signatures.

Definition sized (c : t) : Prop :=
  c.(version) <= u8_max /\ len c.(issuer_endpoint_id) = 32 /\ len c.(delegated_public_key) = 32 /\
  c.(created_at_ms) <= u64_max /\ c.(expires_at_ms) <= u64_max /\ c.(sequence) <= u64_max /\ len c.(signature) = 64.

End SignedDelegation.

Module DelegatedAuthority.
Record t := mk { public_key : list u8; capabilities : list (list u8); depth : usize }.
End DelegatedAuthority.

Module DelegationChain.
Section Chain.
Context `{Primitives, Curves}.

(** [certificates.iter().try_fold(0, ..)]: the bytes of all certificates. *)
Fixpoint total_bytes (certificates : list SignedDelegation.t) (total : usize) : Result DelegationError.t usize :=
  match certificates with
  | [] => Ok total
  | certificate :: certificates =>
      encoded ← SignedDelegation.to_bytes certificate;
      total_bytes certificates (saturating_add total (len encoded))
  end.

(** The loop over the links; [certificates] are the ones still to come. *)
Fixpoint links (certificates : list SignedDelegation.t) (now_ms : u64) (depth : usize) (issuer_key : list u8)
    (issuer_capabilities : list (list u8)) (issuer_expiry : u64) (seen_keys : list (list u8))
    : Result DelegationError.t DelegatedAuthority.t :=
  match certificates with
  | [] => Err DelegationError.EmptyChain
  | certificate :: rest =>
      _ ← SignedDelegation.validate certificate issuer_key now_ms;
      if issuer_expiry <? certificate.(SignedDelegation.expires_at_ms) then Err DelegationError.OutlivesIssuer
      else if negb (forallb (fun capability => bool_decide (capability ∈ issuer_capabilities))
                      certificate.(SignedDelegation.allowed_capabilities))
      then Err DelegationError.CapabilityExpansion
      else if bool_decide (certificate.(SignedDelegation.delegated_public_key) ∈ seen_keys) then Err DelegationError.Cycle
      else
        let issuer_key := certificate.(SignedDelegation.delegated_public_key) in
        let issuer_capabilities := certificate.(SignedDelegation.allowed_capabilities) in
        match rest with
        | [] => Ok (DelegatedAuthority.mk issuer_key issuer_capabilities (depth + 1))
        | _ => links rest now_ms (depth + 1) issuer_key issuer_capabilities
                 certificate.(SignedDelegation.expires_at_ms) (seen_keys ++ [issuer_key])
        end
  end.

Definition verify (root_public_key : list u8) (root_capabilities : list (list u8))
    (certificates : list SignedDelegation.t) (now_ms : u64) : Result DelegationError.t DelegatedAuthority.t :=
  if len certificates =? 0 then Err DelegationError.EmptyChain
  else if MAX_DELEGATION_CHAIN_LENGTH <? len certificates then Err DelegationError.ChainTooLong
  else
    root_capabilities ← canonical_delegation_capabilities root_capabilities;
    total_bytes ← total_bytes certificates 0;
    if MAX_DELEGATION_CHAIN_BYTES <? total_bytes then Err DelegationError.ChainTooLarge
    else links certificates now_ms 0 root_public_key root_capabilities u64_max [root_public_key].

End Chain.
End DelegationChain.

(** ** Statements are canonical *)

#[local] Arguments to_be_bytes : simpl never.

Lemma u64_pow v : v <= u64_max <-> v < 256 ^ N.of_nat 8.
Proof. unfold u64_max. simpl. lia. Qed.

Lemma zero_id_false id : zero_id id = false <-> id <> zeros 32.
Proof. unfold zero_id. apply bool_decide_eq_false. Qed.

(** *** Introductions *)

Lemma evidence_parts e :
  SubjectEvidence.from_parts (SubjectEvidence.tag_and_bytes e).1 (SubjectEvidence.tag_and_bytes e).2 =
  if zero_id (SubjectEvidence.tag_and_bytes e).2 then Err IntroductionError.InvalidEvidence else Ok e.
Proof. by destruct e. Qed.

Lemma evidence_from_parts tag value e :
  SubjectEvidence.from_parts tag value = Ok e -> SubjectEvidence.tag_and_bytes e = (tag, value).
Proof.
  unfold SubjectEvidence.from_parts. destruct (zero_id value); [done|].
  destruct tag as [|[| |]]; try done; by intros <-%(inj Ok).
Qed.

Lemma introduction_structure s :
  SignedIntroduction.validate_structure s = Ok tt ->
  zero_id (SubjectEvidence.tag_and_bytes s.(SignedIntroduction.subject_evidence)).2 = false /\
  0 < len s.(SignedIntroduction.allowed_use) <= MAX_INTRODUCTION_SCOPE.
Proof.
  unfold SignedIntroduction.validate_structure. intros H.
  destruct (negb _); [done|]. destruct (_ || _); [done|]. destruct (bool_decide _); [done|].
  destruct (zero_id _) eqn:E; [done|]. destruct (N.eqb_spec (len s.(SignedIntroduction.allowed_use)) 0); [done|].
  destruct (N.ltb_spec MAX_INTRODUCTION_SCOPE (len s.(SignedIntroduction.allowed_use))); [done|]. split; [done|lia].
Qed.

Lemma introduction_reads s :
  SignedIntroduction.sized s -> SignedIntroduction.validate_structure s = Ok tt ->
  reads SignedIntroduction.fields (SignedIntroduction.signed_bytes s ++ s.(SignedIntroduction.signature)) s.
Proof.
  intros (Hv & Hi & Hs & He & Hu & Hx & Hc & Hr & Hq & Hg) (Hz & Hl1 & Hl2)%introduction_structure.
  unfold SignedIntroduction.signed_bytes. pose proof (evidence_parts s.(SignedIntroduction.subject_evidence)) as Hp.
  rewrite Hz in Hp. destruct (SubjectEvidence.tag_and_bytes _) as [tag value]. cbn [fst snd] in *.
  unfold MAX_INTRODUCTION_SCOPE in *. rewrite <- !app_assoc. unfold SignedIntroduction.fields, be16.
  rewrite N.min_l by (unfold u16_max; lia).
  do 5 (eapply reads_bind; [first [apply reads_byte|by apply reads_slice_or]|]).
  eapply reads_bind_nil; [by apply reads_lift|].
  eapply reads_bind; [apply (reads_be _ 2); simpl; lia|].
  eapply reads_bind_nil; [apply reads_guard; unfold MAX_INTRODUCTION_SCOPE; lia|].
  eapply reads_bind; [by apply reads_slice_or|]. eapply reads_bind_nil; [apply reads_guard; by rewrite Hu|].
  eapply reads_bind; [by apply (reads_be _ 8), u64_pow|]. do 2 (eapply reads_bind; [apply reads_byte|]).
  eapply reads_bind; [by apply (reads_be _ 8), u64_pow|]. rewrite <- (app_nil_r s.(SignedIntroduction.signature)).
  eapply reads_bind; [by apply reads_slice_or|]. destruct s; apply reads_ret.
Qed.

Lemma introduction_spells :
  spells SignedIntroduction.fields (fun s bs =>
    SignedIntroduction.sized s /\ bs = SignedIntroduction.signed_bytes s ++ s.(SignedIntroduction.signature)).
Proof.
  unfold SignedIntroduction.fields.
  eapply spells_bind; [apply spells_byte|]. intros v ? [-> Hv].
  eapply spells_bind; [apply spells_slice|]. intros i ? (-> & Hi & _).
  eapply spells_bind; [apply spells_slice|]. intros s ? (-> & Hs & _).
  eapply spells_bind; [apply spells_byte|]. intros tag ? [-> _].
  eapply spells_bind; [apply spells_slice|]. intros e ? (-> & He & _).
  eapply spells_bind; [apply spells_lift|]. intros ev ? [-> Hev%evidence_from_parts].
  eapply spells_bind; [apply (spells_be _ 2)|]. intros n ? [-> Hn].
  eapply spells_bind; [apply spells_fail_if|]. intros [] ? [-> Hb].
  eapply spells_bind; [apply spells_slice|]. intros u ? (-> & Hu & _).
  eapply spells_bind; [apply spells_fail_if|]. intros [] ? [-> Hu8%negb_false_iff].
  eapply spells_bind; [apply (spells_be _ 8)|]. intros x ? [-> Hx].
  eapply spells_bind; [apply spells_byte|]. intros c ? [-> Hc].
  eapply spells_bind; [apply spells_byte|]. intros r ? [-> Hr].
  eapply spells_bind; [apply (spells_be _ 8)|]. intros q ? [-> Hq].
  eapply spells_bind; [apply spells_slice|]. intros g ? (-> & Hg & _).
  apply spells_ret. split.
  - unfold SignedIntroduction.sized. simpl. by rewrite Hev, !u64_pow.
  - unfold SignedIntroduction.signed_bytes, be16.
    cbn [SignedIntroduction.version SignedIntroduction.introducer_endpoint_id SignedIntroduction.subject_endpoint_id
         SignedIntroduction.subject_evidence SignedIntroduction.allowed_use SignedIntroduction.expires_at_ms
         SignedIntroduction.delegated_confidence SignedIntroduction.sharing_restrictions SignedIntroduction.sequence
         SignedIntroduction.signature].
    rewrite Hev, Hu, N.min_l by (unfold u16_max; simpl in Hn; lia). by rewrite <- !app_assoc, app_nil_r.
Qed.

(** *** Revocations *)

Lemma subject_parts s :
  RevocationSubject.sized s ->
  RevocationSubject.from_parts (RevocationSubject.tag_and_bytes s).1 (RevocationSubject.tag_and_bytes s).2 =
    (if RevocationSubject.bad_prefix (RevocationSubject.tag_and_bytes s).2
     then Err RevocationStatementError.InvalidSubject else Ok s) /\
  len (RevocationSubject.tag_and_bytes s).2 =
    (if (RevocationSubject.tag_and_bytes s).1 =? RevocationSubject.BINDING_TAG then 40 else 32).
Proof.
  assert (Ht : forall id : list u8, len id = 32 -> take 32 id = id) by (intros id Hi; apply take_ge; unfold len in Hi; lia).
  unfold RevocationSubject.from_parts. destruct s as [id|id sq|id|id|id]; simpl; intros Hs;
    [| |by rewrite Hs, Ht..]; [by rewrite Hs, Ht|].
  destruct Hs as [Hs Hq]. rewrite len_app, len_to_be_bytes, Hs. split; [|done].
  rewrite take_app_length' by (unfold len in Hs; lia). rewrite drop_app_length' by (unfold len in Hs; lia).
  rewrite from_to_be_bytes by (by apply u64_pow). done.
Qed.

Lemma subject_from_parts tag bytes s :
  RevocationSubject.from_parts tag bytes = Ok s -> is_bytes bytes ->
  RevocationSubject.tag_and_bytes s = (tag, bytes) /\ RevocationSubject.sized s.
Proof.
  unfold RevocationSubject.from_parts. destruct (RevocationSubject.bad_prefix bytes); [done|]. intros H Hb.
  assert (Ht : len bytes = 32 -> take 32 bytes = bytes) by (intros Hi; apply take_ge; unfold len in Hi; lia).
  destruct (_ && _) eqn:E0; [|destruct (_ && _) eqn:E1 in H; [|destruct (_ && _) eqn:E2 in H;
    [|destruct (_ && _) eqn:E3 in H; [|destruct (_ && _) eqn:E4 in H; [|done]]]]].
  all: match goal with E : _ && _ = true |- _ => apply andb_true_iff in E as [->%N.eqb_eq El%N.eqb_eq] end.
  2: { apply (inj Ok) in H as <-. simpl. unfold len in El.
  assert (length (drop 32 bytes) = 8%nat) as Hd by (rewrite length_drop; lia).
  pose proof (to_from_be_bytes (drop 32 bytes) ltac:(by apply list.Forall_drop)) as E. rewrite Hd in E. rewrite E.
  split; [by rewrite take_drop|]. split; [unfold len; rewrite length_take; lia|].
  apply u64_pow. rewrite <- E, from_to_be_bytes_mod. apply N.mod_lt. done. }
  all: apply (inj Ok) in H as <-; simpl; by rewrite Ht by done.
Qed.

Lemma revocation_structure s :
  SignedRevocation.validate_structure s = Ok tt ->
  RevocationSubject.bad_prefix (RevocationSubject.tag_and_bytes s.(SignedRevocation.subject)).2 = false.
Proof.
  unfold SignedRevocation.validate_structure. destruct (negb _); [done|]. destruct (zero_id _); [done|].
  by destruct (RevocationSubject.bad_prefix _).
Qed.

Lemma revocation_reads s :
  SignedRevocation.sized s -> SignedRevocation.validate_structure s = Ok tt ->
  reads SignedRevocation.fields (SignedRevocation.signed_bytes s ++ s.(SignedRevocation.signature)) s.
Proof.
  intros (Hv & Hi & Hs & Hq & Hn & Hx & Hg) Hz%revocation_structure. destruct (subject_parts _ Hs) as [Hp Hl].
  rewrite Hz in Hp. unfold SignedRevocation.signed_bytes. destruct (RevocationSubject.tag_and_bytes _) as [tag bytes].
  cbn [fst snd] in *. rewrite <- !app_assoc. unfold SignedRevocation.fields.
  eapply reads_bind; [apply reads_byte|]. eapply reads_bind; [by apply reads_slice_or|].
  eapply reads_bind; [apply reads_byte|]. eapply reads_bind; [by apply reads_slice_or|].
  eapply reads_bind_nil; [by apply reads_lift|].
  do 3 (eapply reads_bind; [by apply (reads_be _ 8), u64_pow|]). rewrite <- (app_nil_r s.(SignedRevocation.signature)).
  eapply reads_bind; [by apply reads_slice_or|]. destruct s; apply reads_ret.
Qed.

Lemma revocation_spells :
  spells SignedRevocation.fields (fun s bs =>
    SignedRevocation.sized s /\ bs = SignedRevocation.signed_bytes s ++ s.(SignedRevocation.signature)).
Proof.
  unfold SignedRevocation.fields.
  eapply spells_bind; [apply spells_byte|]. intros v ? [-> Hv].
  eapply spells_bind; [apply spells_slice|]. intros i ? (-> & Hi & _).
  eapply spells_bind; [apply spells_byte|]. intros tag ? [-> _].
  eapply spells_bind; [apply spells_slice|]. intros b ? (-> & _ & Hb).
  eapply spells_bind; [apply spells_lift|]. intros sub ? [-> Hsub].
  destruct (subject_from_parts _ _ _ Hsub Hb) as [Hp Hs].
  eapply spells_bind; [apply (spells_be _ 8)|]. intros q ? [-> Hq].
  eapply spells_bind; [apply (spells_be _ 8)|]. intros n ? [-> Hn].
  eapply spells_bind; [apply (spells_be _ 8)|]. intros x ? [-> Hx].
  eapply spells_bind; [apply spells_slice|]. intros g ? (-> & Hg & _).
  apply spells_ret. split.
  - unfold SignedRevocation.sized. simpl. by rewrite !u64_pow.
  - unfold SignedRevocation.signed_bytes.
    cbn [SignedRevocation.version SignedRevocation.issuer_endpoint_id SignedRevocation.subject SignedRevocation.sequence
         SignedRevocation.issued_at_ms SignedRevocation.expires_at_ms SignedRevocation.signature].
    rewrite Hp. by rewrite <- !app_assoc, app_nil_r.
Qed.

(** *** Delegations *)

Lemma capabilities_ok caps :
  validate_capabilities caps = Ok tt ->
  len caps <= MAX_DELEGATION_CAPABILITIES /\
  Forall (fun c => 0 < len c <= MAX_DELEGATION_CAPABILITY_LEN) caps /\
  total_len caps <= MAX_DELEGATION_CAPABILITY_BYTES /\ out_of_order caps = false.
Proof.
  unfold validate_capabilities. destruct (N.ltb_spec MAX_DELEGATION_CAPABILITIES (len caps)); [done|].
  destruct (existsb bad_capability caps) eqn:E; [done|].
  destruct (N.ltb_spec MAX_DELEGATION_CAPABILITY_BYTES (total_len caps)); [done|]. cbn [orb].
  destruct (out_of_order caps); [done|]. intros _. split_and!; try done.
  apply list.Forall_forall. intros c Hc.
  assert (bad_capability c = false) as Hb.
  { destruct (bad_capability c) eqn:Eb; [|done]. rewrite <- E. symmetry. apply existsb_exists. exists c.
    split; [by apply list_elem_of_In|done]. }
  unfold bad_capability in Hb. lia.
Qed.

Lemma delegation_structure c :
  SignedDelegation.validate_structure c = Ok tt ->
  validate_capabilities c.(SignedDelegation.allowed_capabilities) = Ok tt.
Proof.
  unfold SignedDelegation.validate_structure. destruct (negb _); [done|]. destruct (_ || _); [done|].
  by intros ([] & H & _)%bind_Ok.
Qed.

Lemma reads_capability c :
  len c <= MAX_DELEGATION_CAPABILITY_LEN -> reads SignedDelegation.read_capability (SignedDelegation.prefixed c) c.
Proof.
  unfold MAX_DELEGATION_CAPABILITY_LEN. intros Hc. unfold SignedDelegation.read_capability, SignedDelegation.prefixed, be16.
  rewrite N.min_l by (unfold u16_max; lia). eapply reads_bind; [apply (reads_be _ 2); simpl; lia|]. by apply reads_slice_or.
Qed.

Lemma delegation_reads c :
  SignedDelegation.sized c -> SignedDelegation.validate_structure c = Ok tt ->
  reads SignedDelegation.fields (SignedDelegation.signed_bytes c ++ c.(SignedDelegation.signature)) c.
Proof.
  intros (Hv & Hi & Hk & Hcr & Hx & Hq & Hg) (Hn & Hc & _)%delegation_structure%capabilities_ok.
  unfold MAX_DELEGATION_CAPABILITIES in *. unfold SignedDelegation.signed_bytes, u8_saturated, u8_max. rewrite N.min_l by lia.
  rewrite <- !app_assoc. unfold SignedDelegation.fields.
  eapply reads_bind; [apply reads_byte|]. do 2 (eapply reads_bind; [by apply reads_slice_or|]).
  eapply reads_bind; [apply reads_byte|].
  eapply reads_bind_nil; [apply reads_guard; unfold MAX_DELEGATION_CAPABILITIES; lia|].
  rewrite <- length_len. eapply reads_bind.
  { apply reads_read_n. eapply list.Forall_impl; [exact Hc|]. intros k [_ Hl]. by apply reads_capability. }
  do 3 (eapply reads_bind; [by apply (reads_be _ 8), u64_pow|]). rewrite <- (app_nil_r c.(SignedDelegation.signature)).
  eapply reads_bind; [by apply reads_slice_or|]. destruct c; apply reads_ret.
Qed.

Lemma spells_capability : spells SignedDelegation.read_capability (fun c bs => bs = SignedDelegation.prefixed c).
Proof.
  unfold SignedDelegation.read_capability. eapply spells_bind; [apply (spells_be _ 2)|]. intros n ? [-> Hn].
  eapply spells_weaken; [apply spells_slice|]. intros c ? (-> & Hc & _). cbv beta. unfold SignedDelegation.prefixed, be16.
  by rewrite Hc, N.min_l by (unfold u16_max; simpl in Hn; lia).
Qed.

Lemma delegation_spells :
  spells SignedDelegation.fields (fun c bs =>
    SignedDelegation.sized c /\ bs = SignedDelegation.signed_bytes c ++ c.(SignedDelegation.signature)).
Proof.
  unfold SignedDelegation.fields.
  eapply spells_bind; [apply spells_byte|]. intros v ? [-> Hv].
  eapply spells_bind; [apply spells_slice|]. intros i ? (-> & Hi & _).
  eapply spells_bind; [apply spells_slice|]. intros k ? (-> & Hk & _).
  eapply spells_bind; [apply spells_byte|]. intros n ? [-> Hn].
  eapply spells_bind; [apply spells_fail_if|]. intros [] ? [-> Hm%N.ltb_ge].
  eapply spells_bind; [apply spells_n, spells_capability|]. intros cs ? (Hl & bss & Hcs & ->).
  eapply spells_bind; [apply (spells_be _ 8)|]. intros cr ? [-> Hcr].
  eapply spells_bind; [apply (spells_be _ 8)|]. intros x ? [-> Hx].
  eapply spells_bind; [apply (spells_be _ 8)|]. intros q ? [-> Hq].
  eapply spells_bind; [apply spells_slice|]. intros g ? (-> & Hg & _).
  assert (bss = map SignedDelegation.prefixed cs) as -> by (clear -Hcs; induction Hcs; simpl; congruence).
  apply spells_ret. split.
  - unfold SignedDelegation.sized. simpl. by rewrite !u64_pow.
  - unfold SignedDelegation.signed_bytes, u8_saturated.
    cbn [SignedDelegation.version SignedDelegation.issuer_endpoint_id SignedDelegation.delegated_public_key
         SignedDelegation.allowed_capabilities SignedDelegation.created_at_ms SignedDelegation.expires_at_ms
         SignedDelegation.sequence SignedDelegation.signature].
    assert (len cs = n) as -> by (unfold len; lia).
    rewrite N.min_l by done. by rewrite <- !app_assoc, app_nil_r.
Qed.

(** A statement type is canonical when its decoder reads back what its encoder
    writes and accepts nothing else. *)
Lemma canonical_of {Er A} (d : DecOf Er A) (enc : A -> list u8) (structure : A -> Result Er unit) (sized : A -> Prop)
    (limit : N) (oversized trailing : Er) bytes a :
  (forall a, sized a -> structure a = Ok tt -> reads d (enc a) a) ->
  spells d (fun a bs => sized a /\ bs = enc a) -> limit <= usize_max -> is_bytes bytes -> sized a ->
  ((if limit <? len bytes then Err oversized
    else a ← all_of d trailing bytes; _ ← structure a; Ok a) = Ok a <->
   (_ ← structure a; if limit <? len (enc a) then Err oversized else Ok (enc a)) = Ok bytes).
Proof.
  intros Hr Hs Hl Hb Ha. split.
  - destruct (N.ltb_spec limit (len bytes)); [done|]. intros (x & E & ([] & Hst & ->%(inj Ok))%bind_Ok)%bind_Ok.
    destruct (all_of_spells _ _ _ _ _ Hs Hb E) as [_ ->]. rewrite Hst. cbn. by rewrite (proj2 (N.ltb_ge _ _)).
  - intros ([] & Hst & H)%bind_Ok. destruct (N.ltb_spec limit (len (enc a))); [done|]. apply (inj Ok) in H as <-.
    rewrite (proj2 (N.ltb_ge _ _)) by done. rewrite (all_of_reads d trailing _ a) by (auto; lia). cbn. by rewrite Hst.
Qed.

Lemma introduction_canonical bytes s :
  is_bytes bytes -> SignedIntroduction.sized s ->
  SignedIntroduction.from_bytes bytes = Ok s <-> SignedIntroduction.to_bytes s = Ok bytes.
Proof.
  apply (canonical_of SignedIntroduction.fields
           (fun s => SignedIntroduction.signed_bytes s ++ s.(SignedIntroduction.signature))
           SignedIntroduction.validate_structure SignedIntroduction.sized);
    [apply introduction_reads|apply introduction_spells|done].
Qed.

Lemma revocation_canonical bytes s :
  is_bytes bytes -> SignedRevocation.sized s ->
  SignedRevocation.from_bytes bytes = Ok s <-> SignedRevocation.to_bytes s = Ok bytes.
Proof.
  apply (canonical_of SignedRevocation.fields
           (fun s => SignedRevocation.signed_bytes s ++ s.(SignedRevocation.signature))
           SignedRevocation.validate_structure SignedRevocation.sized);
    [apply revocation_reads|apply revocation_spells|done].
Qed.

Lemma delegation_canonical bytes c :
  is_bytes bytes -> SignedDelegation.sized c ->
  SignedDelegation.from_bytes bytes = Ok c <-> SignedDelegation.to_bytes c = Ok bytes.
Proof.
  apply (canonical_of SignedDelegation.fields
           (fun c => SignedDelegation.signed_bytes c ++ c.(SignedDelegation.signature))
           SignedDelegation.validate_structure SignedDelegation.sized);
    [apply delegation_reads|apply delegation_spells|done].
Qed.

(** ** Capability sets *)

Lemma bytes_cmp_eq a b : bytes_cmp a b = Eq <-> a = b.
Proof.
  revert b. induction a as [|x a IH]; intros [|y b]; simpl; try done.
  rewrite then_with_Eq, N.compare_eq_iff, IH. split; [by intros [-> ->]|by intros [= -> ->]].
Qed.

Lemma dedup_cons_cons {A} `{EqDecision A} (x y : A) l :
  dedup (x :: y :: l) = if decide (x = y) then dedup (y :: l) else x :: dedup (y :: l).
Proof. done. Qed.

Lemma elem_of_dedup {A} `{EqDecision A} (l : list A) x : x ∈ dedup l <-> x ∈ l.
Proof.
  induction l as [|y [|z l] IH]; [done|done|]. rewrite dedup_cons_cons. destruct (decide (y = z)) as [->|].
  - rewrite IH, !elem_of_cons. tauto.
  - by rewrite !elem_of_cons, IH, elem_of_cons.
Qed.

Lemma elem_of_sort_dedup caps c : c ∈ sort_dedup caps <-> c ∈ caps.
Proof. unfold sort_dedup. by rewrite elem_of_dedup, sort_by_perm. Qed.

Lemma dedup_head {A} `{EqDecision A} (x : A) l : exists l', dedup (x :: l) = x :: l'.
Proof.
  induction l as [|y l IH]; [by exists []|]. rewrite dedup_cons_cons. destruct (decide (x = y)) as [->|].
  - destruct l as [|z l]; [by exists []|]. rewrite dedup_cons_cons. rewrite dedup_cons_cons in IH.
    by destruct (decide (y = z)).
  - by eexists.
Qed.

Lemma sort_dedup_ordered caps : out_of_order (sort_dedup caps) = false.
Proof.
  unfold sort_dedup. pose proof (sort_by_sorted bytes_cmp caps) as Hs. revert Hs.
  generalize (sort_by bytes_cmp caps). intros l. induction l as [|x [|y l] IH]; [done|done|]. intros Hs.
  apply StronglySorted_inv in Hs as [Hs Hx]. specialize (IH Hs). rewrite dedup_cons_cons.
  destruct (decide (x = y)) as [->|Hne]; [done|]. destruct (dedup_head y l) as [l' Hd]. rewrite Hd in *.
  cbn [out_of_order]. apply list.Forall_cons in Hx as [Hx _]. unfold cmp_le in Hx.
  destruct (bytes_cmp x y) eqn:E; [|done|done]. by apply bytes_cmp_eq in E.
Qed.

Lemma sort_dedup_canonical l : out_of_order l = false -> sort_dedup l = l.
Proof.
  intros Hl. assert (sort_by bytes_cmp l = l /\ dedup l = l) as [H1 H2]; [|unfold sort_dedup; by rewrite H1].
  induction l as [|x [|y l] IH]; [done|done|]. cbn [out_of_order] in Hl.
  destruct (bytes_cmp x y) eqn:E; [done| |done]. destruct (IH Hl) as [H1 H2]. rewrite dedup_cons_cons, H2.
  cbn [sort_by]. cbn [sort_by] in H1. rewrite H1. cbn [insert_sorted]. rewrite E. split; [done|].
  destruct (decide (x = y)) as [->|]; [|done]. by rewrite (proj2 (bytes_cmp_eq y y) eq_refl) in E.
Qed.

Lemma sort_dedup_idem caps : sort_dedup (sort_dedup caps) = sort_dedup caps.
Proof. apply sort_dedup_canonical, sort_dedup_ordered. Qed.

(** ** Chains of delegations *)

Section Chains.
Context `{HP : Primitives} `{HC : Curves}.

(** The keys along a chain: the root, then each delegated key. *)
Definition chain_keys (root : list u8) (certificates : list SignedDelegation.t) : list (list u8) :=
  root :: map SignedDelegation.delegated_public_key certificates.

(** What each key of a chain may do: the root's capabilities, then those of
    each certificate. *)
Definition chain_capabilities (root : list (list u8)) (certificates : list SignedDelegation.t) : list (list (list u8)) :=
  root :: map SignedDelegation.allowed_capabilities certificates.

(** A certificate in force, issued by the holder of [key]. *)
Definition issued_by (key : list u8) (now : u64) (c : SignedDelegation.t) : Prop :=
  SignedDelegation.validate_structure c = Ok tt /\ endpoint_id key = c.(SignedDelegation.issuer_endpoint_id) /\
  identity_verify key (SignedDelegation.signed_message c) c.(SignedDelegation.signature) = true /\
  c.(SignedDelegation.created_at_ms) <= now < c.(SignedDelegation.expires_at_ms).

(** The links of a chain: each certificate is issued by the holder of the key
    before it, grants no more than that key has, and does not outlast the one
    before it; no key occurs twice. *)
Record chain_links (root : list u8) (capabilities : list (list u8)) (certificates : list SignedDelegation.t)
    (now : u64) : Prop := {
  cl_issued i key c : chain_keys root certificates !! i = Some key -> certificates !! i = Some c -> issued_by key now c;
  cl_narrow i caps c : chain_capabilities capabilities certificates !! i = Some caps -> certificates !! i = Some c ->
    forall x, x ∈ c.(SignedDelegation.allowed_capabilities) -> x ∈ caps;
  cl_nested i c c' : certificates !! i = Some c -> certificates !! S i = Some c' ->
    c'.(SignedDelegation.expires_at_ms) <= c.(SignedDelegation.expires_at_ms);
  cl_acyclic : NoDup (chain_keys root certificates)
}.

Definition chain_size (certificates : list SignedDelegation.t) : N :=
  total_len (map (fun c => SignedDelegation.signed_bytes c ++ c.(SignedDelegation.signature)) certificates).

Lemma validate_issued c key now : SignedDelegation.validate c key now = Ok tt <-> issued_by key now c.
Proof.
  unfold SignedDelegation.validate, SignedDelegation.verify_signature, issued_by.
  destruct (SignedDelegation.validate_structure c) as [[]|]; cbn [mbind Result_bind]; [|split; [done|by intros [? _]]].
  case_bool_decide as E; cbn [negb]; [|split; [done|by intros (_ & ? & _)]].
  destruct (identity_verify _ _ _); cbn [negb mbind Result_bind]; [|split; [done|by intros (_ & _ & ? & _)]].
  destruct (N.ltb_spec now c.(SignedDelegation.created_at_ms)); [split; [done|intros (_ & _ & _ & ?); lia]|].
  destruct (N.leb_spec c.(SignedDelegation.expires_at_ms) now); [split; [done|intros (_ & _ & _ & ?); lia]|].
  split; [|done]. intros _. split_and!; done || lia.
Qed.

Lemma narrow_test (caps allowed : list (list u8)) :
  forallb (fun capability => bool_decide (capability ∈ caps)) allowed = true <-> (forall x, x ∈ allowed -> x ∈ caps).
Proof.
  rewrite forallb_forall. split.
  - intros H x Hx. apply list_elem_of_In, H in Hx. by apply bool_decide_eq_true in Hx.
  - intros H x Hx. apply bool_decide_eq_true, H. by apply list_elem_of_In.
Qed.

Lemma chain_links_cons root caps c certs now :
  chain_links root caps (c :: certs) now <->
  issued_by root now c /\ (forall x, x ∈ c.(SignedDelegation.allowed_capabilities) -> x ∈ caps) /\
  (forall c', certs !! 0%nat = Some c' -> c'.(SignedDelegation.expires_at_ms) <= c.(SignedDelegation.expires_at_ms)) /\
  root ∉ map SignedDelegation.delegated_public_key (c :: certs) /\
  chain_links c.(SignedDelegation.delegated_public_key) c.(SignedDelegation.allowed_capabilities) certs now.
Proof.
  split.
  - intros [Hi Hn He Ha]. apply list.NoDup_cons in Ha as [Hr Ha]. split_and!; [by apply (Hi 0%nat)|by apply (Hn 0%nat)| |done|].
    + intros c' Hc'. by apply (He 0%nat).
    + split; [intros i key c' Hk Hc'; by apply (Hi (S i))|intros i k c' Hk Hc'; by apply (Hn (S i))|
              intros i k c' Hk Hc'; by apply (He (S i))|done].
  - intros (Hi & Hn & He & Hr & [Hi' Hn' He' Ha']). split.
    + intros [|i] key c' Hk Hc'; simpl in *; [by simplify_eq|by apply (Hi' i)].
    + intros [|i] k c' Hk Hc'; simpl in *; [by simplify_eq|by apply (Hn' i k)].
    + intros [|i] c1 c2 H1 H2; simpl in *; [simplify_eq; by apply He|by apply (He' i)].
    + apply list.NoDup_cons. done.
Qed.

(** The loop accepts exactly the chains whose links are right; [seen] are the
    keys above the issuer. *)
Lemma links_spec certs now depth key caps expiry seen authority :
  certs <> [] ->
  DelegationChain.links certs now depth key caps expiry (seen ++ [key]) = Ok authority <->
  chain_links key caps certs now /\
  (forall c, certs !! 0%nat = Some c -> c.(SignedDelegation.expires_at_ms) <= expiry) /\
  (forall k, k ∈ map SignedDelegation.delegated_public_key certs -> k ∉ seen) /\
  (exists c, list.last certs = Some c /\
     authority = DelegatedAuthority.mk c.(SignedDelegation.delegated_public_key)
                   c.(SignedDelegation.allowed_capabilities) (depth + len certs)).
Proof.
  revert depth key caps expiry seen. induction certs as [|c certs IH]; [done|]. intros depth key caps expiry seen _.
  rewrite chain_links_cons. cbn [DelegationChain.links].
  destruct (SignedDelegation.validate c key now) as [[]|e] eqn:Ev; cbn [mbind Result_bind].
  2: { split; [done|]. intros ((Hi & _) & _). apply validate_issued in Hi. by rewrite Hi in Ev. }
  apply validate_issued in Ev.
  destruct (N.ltb_spec expiry c.(SignedDelegation.expires_at_ms)) as [Hlt|Hge].
  { split; [done|]. intros (_ & He & _). specialize (He c eq_refl). lia. }
  destruct (forallb _ _) eqn:En; cbn [negb].
  2: { split; [done|]. intros ((_ & Hn & _) & _). apply narrow_test in Hn. by rewrite Hn in En. }
  rewrite narrow_test in En. case_bool_decide as Es.
  { split; [done|]. intros ((_ & _ & _ & Hr & _) & _ & Hs & _). apply elem_of_app in Es as [Es|Es%list_elem_of_singleton].
    - exfalso. eapply Hs; [|exact Es]. simpl. left.
    - exfalso. apply Hr. rewrite <- Es. simpl. left. }
  rewrite elem_of_app, list_elem_of_singleton in Es.
  destruct certs as [|c' certs].
  - split.
    + intros <-%(inj Ok). split_and!; try done.
      * simpl. set_solver.
      * split; [done|by intros ? [|?]|by intros ? ? ? ?|apply NoDup_singleton].
      * intros c0 [= <-]. lia.
      * set_solver.
      * by exists c.
    + intros (_ & _ & _ & c0 & [= <-] & ->). done.
  - rewrite IH by done. split.
    + intros (Hl & He & Hs & c0 & Hlast & ->). split_and!; try done.
      * intros Hin. simpl in Hin. apply elem_of_cons in Hin as [Hin|Hin]; [naive_solver|].
        apply (Hs key); [done|set_solver].
      * intros c1 [= <-]. done.
      * intros k Hk. simpl in Hk. apply elem_of_cons in Hk as [-> |Hk]; [naive_solver|].
        specialize (Hs k Hk). set_solver.
      * exists c0. split; [done|]. f_equal. rewrite (len_cons c). lia.
    + intros ((_ & _ & He & Hr & Hl) & _ & Hs & c0 & Hlast & ->). split_and!; try done.
      * intros k Hk. rewrite elem_of_app, list_elem_of_singleton. intros [Hin| ->].
        -- by apply (Hs k); [simpl; right|].
        -- apply Hr. by right.
      * exists c0. split; [done|]. f_equal. rewrite (len_cons c). lia.
Qed.

Lemma delegation_to_bytes c :
  len c.(SignedDelegation.signature) = 64 -> SignedDelegation.validate_structure c = Ok tt ->
  SignedDelegation.to_bytes c = Ok (SignedDelegation.signed_bytes c ++ c.(SignedDelegation.signature)).
Proof.
  intros Hs Hv. unfold SignedDelegation.to_bytes. rewrite Hv. cbn [mbind Result_bind].
  unfold SignedDelegation.validate_structure in Hv.
  destruct (negb _); [done|]. destruct (_ || _); [done|]. apply bind_Ok in Hv as (_ & _ & Hv). destruct (_ <=? _); [done|].
  destruct (N.ltb_spec MAX_DELEGATION_CHAIN_BYTES (len (SignedDelegation.signed_bytes c) + SIGNATURE_LEN)); [done|].
  rewrite len_app, Hs. unfold SIGNATURE_LEN in *. by rewrite (proj2 (N.ltb_ge _ _)).
Qed.

Lemma total_bytes_spec certs t n :
  Forall SignedDelegation.sized certs -> t <= u64_max ->
  DelegationChain.total_bytes certs t = Ok n <->
  Forall (fun c => SignedDelegation.validate_structure c = Ok tt) certs /\ n = N.min (t + chain_size certs) u64_max.
Proof.
  intros Hs. revert t. induction Hs as [|c certs Hc Hs IH]; intros t Ht; cbn [DelegationChain.total_bytes].
  - unfold chain_size. simpl. rewrite N.add_0_r, N.min_l by done. split; [intros <-%(inj Ok); by split|by intros [_ ->]].
  - destruct Hc as (_ & _ & _ & _ & _ & _ & Hc). rewrite list.Forall_cons.
    destruct (SignedDelegation.validate_structure c) as [[]|e] eqn:Ev.
    + rewrite (delegation_to_bytes c Hc Ev). cbn [mbind Result_bind]. rewrite IH by (unfold saturating_add; lia).
      unfold chain_size, saturating_add. cbn [map total_len foldr]. fold (chain_size certs).
      change (foldr (fun c0 n0 => len c0 + n0) 0 (map (fun c0 => SignedDelegation.signed_bytes c0 ++ SignedDelegation.signature c0) certs))
        with (chain_size certs).
      split; [intros [? ->]|intros [[_ ?] ->]]; (split; [done|lia]).
    + unfold SignedDelegation.to_bytes. rewrite Ev. cbn. split; [done|]. by intros [[? _] _].
Qed.

Lemma chain_links_caps root caps caps' certs now :
  (forall x, x ∈ caps <-> x ∈ caps') -> chain_links root caps certs now -> chain_links root caps' certs now.
Proof.
  intros He. destruct certs as [|c certs].
  - intros [? ? ? ?]. split; [done| |done|done]. by intros i k c _ Hc.
  - rewrite !chain_links_cons. intros (? & Hn & ? & ? & ?). split_and!; try done. intros x Hx. by apply He, Hn.
Qed.

Lemma chain_links_structure root caps certs now :
  chain_links root caps certs now -> Forall (fun c => SignedDelegation.validate_structure c = Ok tt) certs.
Proof.
  revert root caps. induction certs as [|c certs IH]; intros root caps; [done|].
  rewrite chain_links_cons. intros ((Hv & _) & _ & _ & _ & Hl). constructor; [done|]. by eapply IH.
Qed.

(** What verification accepts, completely. *)
Record chain_valid (root : list u8) (capabilities : list (list u8)) (certificates : list SignedDelegation.t)
    (now : u64) : Prop := {
  chv_length : 1 <= len certificates <= MAX_DELEGATION_CHAIN_LENGTH;
  chv_capabilities : validate_capabilities (sort_dedup capabilities) = Ok tt;
  chv_size : chain_size certificates <= MAX_DELEGATION_CHAIN_BYTES;
  chv_links : chain_links root capabilities certificates now
}.

Lemma verify_spec root caps certs now authority :
  Forall SignedDelegation.sized certs ->
  DelegationChain.verify root caps certs now = Ok authority <->
  chain_valid root caps certs now /\
  (exists c, list.last certs = Some c /\
     authority = DelegatedAuthority.mk c.(SignedDelegation.delegated_public_key)
                   c.(SignedDelegation.allowed_capabilities) (len certs)).
Proof.
  intros Hs. unfold DelegationChain.verify.
  destruct (N.eqb_spec (len certs) 0) as [H0|H0]; [split; [done|intros [[? _ _ _] _]; lia]|].
  destruct (N.ltb_spec MAX_DELEGATION_CHAIN_LENGTH (len certs)); [split; [done|intros [[? _ _ _] _]; lia]|].
  unfold canonical_delegation_capabilities.
  destruct (validate_capabilities (sort_dedup caps)) as [[]|] eqn:Ec; cbn [mbind Result_bind];
    [|split; [done|intros [[_ Hc _ _] _]; by rewrite Hc in Ec]].
  assert (certs <> []) as Hne by (by intros ->).
  pose proof (links_spec certs now 0 root (sort_dedup caps) u64_max [] authority Hne) as Hl. cbn [app] in Hl.
  assert (He : forall x, x ∈ sort_dedup caps <-> x ∈ caps) by (intros x; apply elem_of_sort_dedup).
  destruct (DelegationChain.total_bytes certs 0) as [n|] eqn:Et; cbn [mbind Result_bind].
  - apply total_bytes_spec in Et as [_ ->]; [|done|done].
    destruct (N.ltb_spec MAX_DELEGATION_CHAIN_BYTES (N.min (0 + chain_size certs) u64_max)) as [Hlt|Hge];
      unfold MAX_DELEGATION_CHAIN_BYTES, u64_max in *.
    { split; [done|]. intros [[_ _ Hz _] _]. unfold MAX_DELEGATION_CHAIN_BYTES in Hz. lia. }
    rewrite Hl. split.
    + intros (Hk & _ & _ & Hlast). split; [|done]. split; [lia|done|unfold MAX_DELEGATION_CHAIN_BYTES; lia|].
      by eapply chain_links_caps.
    + intros [[_ _ _ Hk] Hlast]. split_and!; [eapply chain_links_caps; [|exact Hk]; intros x; by rewrite He| |by intros k _ ?%elem_of_nil|done].
      intros c Hc. rewrite list.Forall_lookup in Hs. by destruct (Hs _ _ Hc) as (_ & _ & _ & _ & ? & _).
  - split; [done|]. intros [[_ _ _ Hk%chain_links_structure] _].
    assert (exists n, DelegationChain.total_bytes certs 0 = Ok n) as [n Hn] by (eexists; by apply total_bytes_spec).
    by rewrite Hn in Et.
Qed.

(** The order and repetition of the root's capabilities do not matter. *)
Lemma verify_sort_dedup root caps certs now :
  DelegationChain.verify root (sort_dedup caps) certs now = DelegationChain.verify root caps certs now.
Proof. unfold DelegationChain.verify, canonical_delegation_capabilities. by rewrite sort_dedup_idem. Qed.

End Chains.

(** ** Theorems *)

Section Theorems.
Context `{HP : Primitives} {HL : PrimitiveLaws} `{HC : Curves} {HK : CurveLaws}.

(** C18: Signed statements have one encoding each: some bytes decode to an
    introduction, a revocation or a delegation certificate exactly when that
    statement encodes to those bytes. *)
Theorem trust_statements_canonical bytes i r c :
  is_bytes bytes -> SignedIntroduction.sized i -> SignedRevocation.sized r -> SignedDelegation.sized c ->
  (SignedIntroduction.from_bytes bytes = Ok i <-> SignedIntroduction.to_bytes i = Ok bytes) /\
  (SignedRevocation.from_bytes bytes = Ok r <-> SignedRevocation.to_bytes r = Ok bytes) /\
  (SignedDelegation.from_bytes bytes = Ok c <-> SignedDelegation.to_bytes c = Ok bytes).
Proof.
  intros Hb Hi Hr Hc.
  split; [by apply introduction_canonical|]. split; [by apply revocation_canonical|by apply delegation_canonical].
Qed.

(** C17: A delegation chain is accepted exactly when it is one to four
    certificates of bounded size, each signed by the holder of the key before
    it and in force, granting no capability that key lacks, outlasting none
    before it, and with no key twice; the authority is the last link's. *)
Theorem delegation_chain_exact root caps certs now authority :
  Forall SignedDelegation.sized certs ->
  DelegationChain.verify root caps certs now = Ok authority <->
  chain_valid root caps certs now /\
  exists c, list.last certs = Some c /\
    authority = DelegatedAuthority.mk c.(SignedDelegation.delegated_public_key)
                  c.(SignedDelegation.allowed_capabilities) (len certs).
Proof. apply verify_spec. Qed.

End Theorems.

(** ** Examples *)

Definition sample_certificate (sequence : u64) : SignedDelegation.t :=
  match @SignedDelegation.sign toy_primitives toy_curves sample_identity
          (@IdentityKeyPair.public toy_curves sample_new_identity) [[98]; [97]; [98]] 1000 9000 sequence with
  | Ok c => c
  | Err _ => SignedDelegation.mk 0 [] [] [] 0 0 0 []
  end.

Definition sample_root : list u8 := @IdentityKeyPair.public toy_curves sample_identity.

Lemma delegation_chain_exact_witness :
  Forall SignedDelegation.sized [sample_certificate 1] /\
  (@DelegationChain.verify toy_primitives toy_curves sample_root [[97]; [98]; [99]] [sample_certificate 1] 5000 =
     Ok (DelegatedAuthority.mk (@IdentityKeyPair.public toy_curves sample_new_identity) [[97]; [98]] 1)) /\
  @chain_valid toy_primitives toy_curves sample_root [[97]; [98]; [99]] [sample_certificate 1] 5000.
Proof.
  assert (Hs : Forall SignedDelegation.sized [sample_certificate 1])
    by (apply list.Forall_singleton; repeat split; by vm_compute).
  assert (Hv : @DelegationChain.verify toy_primitives toy_curves sample_root [[97]; [98]; [99]] [sample_certificate 1] 5000 =
     Ok (DelegatedAuthority.mk (@IdentityKeyPair.public toy_curves sample_new_identity) [[97]; [98]] 1)) by (by vm_compute).
  split; [done|]. split; [done|].
  by apply (@delegation_chain_exact toy_primitives toy_curves _ _ _ _ _ Hs) in Hv as [? _].
Defined.

Definition sample_introduction : SignedIntroduction.t :=
  SignedIntroduction.mk 1 (replicate 32 1) (replicate 32 2) (SubjectEvidence.BindingDigest (replicate 32 3)) [42]
    9000 50 1 7 (replicate 64 4).

Definition sample_revocation : SignedRevocation.t :=
  SignedRevocation.mk 1 (replicate 32 1) (RevocationSubject.Binding (replicate 32 1) 3) 7 1000 0 (replicate 64 4).

Lemma trust_statements_canonical_witness :
  let bytes := SignedRevocation.signed_bytes sample_revocation ++ sample_revocation.(SignedRevocation.signature) in
  SignedRevocation.from_bytes bytes = Ok sample_revocation.
Proof.
  intros bytes.
  refine (proj2 (proj1 (proj2 (trust_statements_canonical bytes sample_introduction sample_revocation (sample_certificate 1) _ _ _ _))) _);
    [|by repeat split; vm_compute..|by vm_compute].
  unfold bytes. apply list.Forall_app. split; repeat (apply list.Forall_cons_2; [by vm_compute|]); apply list.Forall_nil_2.
Defined.
