(* ===== verification/Trust.v ===== *)
(** * Trust store, delegations and introductions (crates/umc-core/src/trust.rs)

    Per-endpoint trust states with their transition matrix, the persisted
    delegation chains, and the introduction graph that derives scoped trust
    from trusted introducers. *)

From Stdlib Require Import Strings.String.
From stdpp Require Import gmap.
From S2P Require Import Prelude Codec Sorting Records Crypto Identity HandshakeMessages HandshakeKeys Canonical Store TrustStatements.

(** ** Trust states *)

Module TrustLevel.
Inductive t := Distrusted | Unknown | Basic | Familiar | Privileged.
End TrustLevel.

Module TrustState.
Inductive t := Unknown | Observed | Introduced | Trusted | Restricted | Blocked | Revoked.

#[global] Instance t_eq_dec : EqDecision t.
Proof. solve_decision. Defined.

Definition from_level (level : TrustLevel.t) : t :=
  match level with
  | TrustLevel.Distrusted => Blocked
  | TrustLevel.Unknown => Unknown
  | TrustLevel.Basic => Observed
  | TrustLevel.Familiar | TrustLevel.Privileged => Trusted
  end.

Definition to_level (state : t) : TrustLevel.t :=
  match state with
  | Unknown => TrustLevel.Unknown
  | Observed | Introduced => TrustLevel.Basic
  | Trusted => TrustLevel.Familiar
  | Restricted | Blocked | Revoked => TrustLevel.Distrusted
  end.

Definition to_byte (state : t) : u8 :=
  match state with
  | Unknown => 0
  | Observed => 1
  | Introduced => 2
  | Trusted => 3
  | Restricted => 4
  | Blocked => 5
  | Revoked => 6
  end.

Definition from_byte (byte : u8) : option t :=
  match byte with
  | 0 => Some Unknown
  | 1 => Some Observed
  | 2 => Some Introduced
  | 3 => Some Trusted
  | 4 => Some Restricted
  | 5 => Some Blocked
  | 6 => Some Revoked
  | _ => None
  end.

Definition can_transition_to (self target : t) : bool :=
  if bool_decide (self = target) then true
  else match target with
  | Restricted | Blocked | Revoked => true
  | _ =>
      match self, target with
      | Unknown, Observed | Unknown, Introduced | Observed, Introduced | Observed, Trusted
      | Introduced, Trusted | Blocked, Observed | Restricted, Observed => true
      | _, _ => false
      end
  end.

Definition transition_to (self target : t) : Result (t * t) t :=
  if can_transition_to self target then Ok target else Err (self, target).

Definition allows_new_session (self : t) : bool :=
  match self with
  | Unknown | Observed | Introduced | Trusted => true
  | _ => false
  end.

End TrustState.

Module TrustMetadata.
Record t := mk { level : TrustState.t; direct_tooling : bool; last_updated_ms : u64 }.

Definition TRUST_RECORD_VERSION : u8 := 0x71.

Definition encode (m : t) : list u8 :=
  [TRUST_RECORD_VERSION] ++ [TrustState.to_byte m.(level)] ++ [if m.(direct_tooling) then 1 else 0] ++
  rev (to_be_bytes 8 m.(last_updated_ms)).

(** [u64::from_le_bytes] *)
Definition from_le_bytes (l : list u8) : u64 := from_be_bytes (rev l).

(** The five levels of earlier records. *)
Definition legacy_level (byte : u8) : option TrustState.t :=
  match byte with
  | 0 => Some TrustState.Blocked
  | 1 => Some TrustState.Unknown
  | 2 => Some TrustState.Observed
  | 3 | 4 => Some TrustState.Trusted
  | _ => None
  end.

Definition decode (bytes : list u8) : Result StoreError t :=
  let byte i := nth (N.to_nat i) bytes 0 in
  if len bytes =? 11 then
    if negb (byte 0 =? TRUST_RECORD_VERSION) then Err (Corrupt "unknown trust record version")
    else
      level ← ok_or (Corrupt "unknown trust level") (TrustState.from_byte (byte 1));
      Ok (mk level (negb (byte 2 =? 0)) (from_le_bytes (take 8 (drop 3 bytes))))
  else if len bytes =? 10 then
    legacy ← ok_or (Corrupt "unknown legacy trust level") (legacy_level (byte 0));
    Ok (mk legacy (negb (byte 1 =? 0)) (from_le_bytes (take 8 (drop 2 bytes))))
  else Err (Corrupt "bad trust record length").

End TrustMetadata.

(** ** The trust store *)

Inductive TrustTransitionStoreError :=
| Invalid (from_to : TrustState.t * TrustState.t)
| Storage (e : StoreError).

(** The store's answer to a write, with the value returned on success. *)
Definition after_write {E St A} (f : StoreError -> E) (a : A) (r : Result StoreError unit * St) : Result E A * St :=
  (map_err f (_ ← r.1; Ok a), r.2).

Module TrustStore.
Section Ops.
Context {St : Type} `{Store St}.
Context (default_trust_level : TrustState.t).

Definition get_trust_metadata (s : St) (endpoint : list u8) : Result StoreError (option TrustMetadata.t) :=
  found ← store_get s Namespace.Trust endpoint;
  match found with
  | Some bytes => m ← TrustMetadata.decode bytes; Ok (Some m)
  | None => Ok None
  end.

Definition effective_trust_state (s : St) (endpoint : list u8) : Result StoreError TrustState.t :=
  found ← get_trust_metadata s endpoint;
  Ok (match found with Some m => m.(TrustMetadata.level) | None => default_trust_level end).

Definition effective_trust_level (s : St) (endpoint : list u8) : Result StoreError TrustLevel.t :=
  state ← effective_trust_state s endpoint;
  Ok (TrustState.to_level state).

Definition direct_tooling (s : St) (endpoint : list u8) : Result StoreError bool :=
  found ← get_trust_metadata s endpoint;
  Ok (match found with Some m => m.(TrustMetadata.direct_tooling) | None => false end).

Definition set_state (s : St) (endpoint : list u8) (state : TrustState.t) (now_ms : u64) : Result StoreError unit * St :=
  store_put s Namespace.Trust endpoint (TrustMetadata.encode (TrustMetadata.mk state true now_ms)).

Definition set_level (s : St) (endpoint : list u8) (level : TrustLevel.t) (now_ms : u64) : Result StoreError unit * St :=
  store_put s Namespace.Trust endpoint (TrustMetadata.encode (TrustMetadata.mk (TrustState.from_level level) true now_ms)).

Definition mark_distrusted (s : St) (endpoint : list u8) (now_ms : u64) : Result StoreError unit * St :=
  store_put s Namespace.Trust endpoint (TrustMetadata.encode (TrustMetadata.mk TrustState.Blocked true now_ms)).

Definition transition (s : St) (endpoint : list u8) (target : TrustState.t) (now_ms : u64)
    : Result TrustTransitionStoreError TrustState.t * St :=
  match map_err Storage (effective_trust_state s endpoint) with
  | Err e => (Err e, s)
  | Ok current =>
      match map_err Invalid (TrustState.transition_to current target) with
      | Err e => (Err e, s)
      | Ok next => after_write Storage next (set_state s endpoint next now_ms)
      end
  end.

Definition remove_distrust (s : St) (endpoint : list u8) : Result StoreError unit * St :=
  store_delete s Namespace.Trust endpoint.

End Ops.
End TrustStore.

(** ** Delegation chains *)

Definition starts_with (prefix key : list u8) : bool := bool_decide (take (length prefix) key = prefix).

Definition SIGNED_INTRODUCTION_PREFIX : list u8 := bstr "intro-signed/".
Definition SIGNED_DELEGATION_PREFIX : list u8 := bstr "delegation/".
Definition MAX_INTRODUCTION_DEPTH : usize := 2.
Definition MAX_INTRODUCTIONS_PER_SUBJECT : usize := 32.

Module StoredDelegationChain.
Record t := mk {
  root_public_key : list u8;
  root_capabilities : list (list u8);
  certificates : list SignedDelegation.t
}.

#[global] Instance t_eq_dec : EqDecision t.
Proof. solve_decision. Defined.
End StoredDelegationChain.

(** [u16::try_from(n).map_err(..)?.to_be_bytes()], and the same for a byte. *)
Definition be16_or {Er} (e : Er) (n : usize) : Result Er (list u8) :=
  if u16_max <? n then Err e else Ok (to_be_bytes 2 n).
Definition u8_or {Er} (e : Er) (n : usize) : Result Er (list u8) :=
  if u8_max <? n then Err e else Ok [n].

(** A certificate with its length before it. *)
Definition put_certificate (c : SignedDelegation.t) : EncOf StoreError := fun out =>
  encoded ← map_err (fun _ => Corrupt "invalid delegation") (SignedDelegation.to_bytes c);
  length ← be16_or QuotaExceeded (len encoded);
  Ok (out ++ length ++ encoded).

Definition encode_delegation_chain (certificates : list SignedDelegation.t) : Result StoreError (list u8) :=
  if (len certificates =? 0) || (MAX_DELEGATION_CHAIN_LENGTH <? len certificates) then Err QuotaExceeded
  else
    out ← u8_or QuotaExceeded (len certificates);
    out ← put_all put_certificate certificates out;
    if MAX_DELEGATION_CHAIN_BYTES <? len out then Err QuotaExceeded else Ok out.

(** [offset.checked_add(2)] and so on: one certificate of the envelope. *)
Definition read_enveloped : DecOf StoreError SignedDelegation.t :=
  length ← read_be (Corrupt "delegation envelope truncated") 2;
  bytes ← read_slice_or (Corrupt "delegation certificate truncated") length;
  lift (map_err (fun _ => Corrupt "delegation certificate") (SignedDelegation.from_bytes bytes)).

Definition decode_delegation_chain (bytes : list u8) : Result StoreError (list SignedDelegation.t) :=
  if (len bytes =? 0) || (MAX_DELEGATION_CHAIN_BYTES <? len bytes) then Err QuotaExceeded
  else
    let count := hd 0 bytes in
    if (count =? 0) || (MAX_DELEGATION_CHAIN_LENGTH <? count) then Err QuotaExceeded
    else
      '(certificates, offset) ← read_n (N.to_nat count) read_enveloped bytes 1;
      if negb (offset =? len bytes) then Err (Corrupt "delegation envelope trailing bytes") else Ok certificates.

Definition delegation_key (delegated_public_key : list u8) : list u8 := SIGNED_DELEGATION_PREFIX ++ delegated_public_key.

Definition validate_delegation_capabilities (capabilities : list (list u8)) : Result StoreError unit :=
  if (MAX_DELEGATION_CAPABILITIES <? len capabilities) || (MAX_DELEGATION_CAPABILITY_BYTES <? total_len capabilities) ||
     existsb bad_capability capabilities
  then Err QuotaExceeded
  else Ok tt.

Definition put_capability (capability : list u8) : EncOf StoreError := fun out =>
  length ← be16_or QuotaExceeded (len capability);
  Ok (out ++ length ++ capability).

Definition encode_delegation (record : StoredDelegationChain.t) : Result StoreError (list u8) :=
  _ ← validate_delegation_capabilities record.(StoredDelegationChain.root_capabilities);
  if len record.(StoredDelegationChain.certificates) =? 0 then Err (Corrupt "empty delegation chain")
  else
    let out := [1] ++ record.(StoredDelegationChain.root_public_key) in
    count ← u8_or QuotaExceeded (len record.(StoredDelegationChain.root_capabilities));
    out ← put_all put_capability record.(StoredDelegationChain.root_capabilities) (out ++ count);
    count ← u8_or QuotaExceeded (len record.(StoredDelegationChain.certificates));
    out ← put_all put_certificate record.(StoredDelegationChain.certificates) (out ++ count);
    if MAX_DELEGATION_CHAIN_BYTES <? len out then Err QuotaExceeded else Ok out.

(** [read_delegation_byte] and its siblings fail with one message. *)
Definition truncated_record : StoreError := Corrupt "truncated delegation record".

Definition read_root_capability : DecOf StoreError (list u8) :=
  length ← read_be truncated_record 2;
  read_slice_or truncated_record length.

Definition read_persisted : DecOf StoreError SignedDelegation.t :=
  length ← read_be truncated_record 2;
  encoded ← read_slice_or truncated_record length;
  lift (map_err (fun _ => Corrupt "invalid persisted delegation certificate") (SignedDelegation.from_bytes encoded)).

Definition delegation_fields : DecOf StoreError StoredDelegationChain.t :=
  version ← read_byte truncated_record;
  _ ← fail_if (negb (version =? 1)) (Corrupt "unknown delegation record version");
  root_public_key ← read_slice_or truncated_record 32;
  capability_count ← read_byte truncated_record;
  _ ← fail_if (MAX_DELEGATION_CAPABILITIES <? capability_count) (Corrupt "too many root delegation capabilities");
  root_capabilities ← read_n (N.to_nat capability_count) read_root_capability;
  _ ← lift (validate_delegation_capabilities root_capabilities);
  certificate_count ← read_byte truncated_record;
  _ ← fail_if ((certificate_count =? 0) || (MAX_DELEGATION_CHAIN_LENGTH <? certificate_count))
        (Corrupt "invalid delegation chain length");
  certificates ← read_n (N.to_nat certificate_count) read_persisted;
  mret (StoredDelegationChain.mk root_public_key root_capabilities certificates).

(** The last certificate's key is the one the record is stored under. *)
Definition leaf_key (certificates : list SignedDelegation.t) : list u8 :=
  match list.last certificates with
  | Some leaf => delegation_key leaf.(SignedDelegation.delegated_public_key)
  | None => []
  end.

Definition decode_delegation (key bytes : list u8) : Result StoreError StoredDelegationChain.t :=
  if negb (starts_with SIGNED_DELEGATION_PREFIX key) || negb (len key =? len SIGNED_DELEGATION_PREFIX + 32) ||
     (MAX_DELEGATION_CHAIN_BYTES <? len bytes)
  then Err (Corrupt "bad delegation record bounds")
  else
    '(record, offset) ← delegation_fields bytes 0;
    if negb (offset =? len bytes) ||
       negb (bool_decide (leaf_key record.(StoredDelegationChain.certificates) = key))
    then Err (Corrupt "delegation key mismatch")
    else Ok record.

Definition last_sequence (certificates : list SignedDelegation.t) : u64 :=
  match list.last certificates with
  | Some certificate => certificate.(SignedDelegation.sequence)
  | None => 0
  end.

Module DelegationStore.
Section Ops.
Context {St : Type} `{Store St} `{Primitives, Curves}.

Definition check_replacement (s : St) (key root_public_key : list u8) (certificates : list SignedDelegation.t)
    : Result StoreError unit :=
  found ← store_get s Namespace.Trust key;
  match found with
  | None => Ok tt
  | Some previous =>
      previous ← decode_delegation key previous;
      if negb (bool_decide (previous.(StoredDelegationChain.root_public_key) = root_public_key))
      then Err (Corrupt "delegation root changed for existing leaf")
      else if last_sequence certificates <=? last_sequence previous.(StoredDelegationChain.certificates)
      then Err (Corrupt "delegation sequence regressed")
      else Ok tt
  end.

(** The checks of [accept_chain], up to the record that is written. *)
Definition prepare_chain (s : St) (root_public_key : list u8) (root_capabilities : list (list u8))
    (certificates : list SignedDelegation.t) (now_ms : u64) : Result StoreError (DelegatedAuthority.t * list u8 * list u8) :=
  authority ← map_err (fun _ => Corrupt "invalid delegation chain")
    (DelegationChain.verify root_public_key root_capabilities certificates now_ms);
  let root_capabilities := sort_dedup root_capabilities in
  _ ← validate_delegation_capabilities root_capabilities;
  encoded ← encode_delegation (StoredDelegationChain.mk root_public_key root_capabilities certificates);
  let key := delegation_key authority.(DelegatedAuthority.public_key) in
  _ ← check_replacement s key root_public_key certificates;
  Ok (authority, key, encoded).

Definition accept_chain (s : St) (root_public_key : list u8) (root_capabilities : list (list u8))
    (certificates : list SignedDelegation.t) (now_ms : u64) : Result StoreError DelegatedAuthority.t * St :=
  match prepare_chain s root_public_key root_capabilities certificates now_ms with
  | Err e => (Err e, s)
  | Ok (authority, key, encoded) => after_write id authority (store_put s Namespace.Trust key encoded)
  end.

(** A record read back: kept while it verifies, left out once it has expired. *)
Definition reverify (record : StoredDelegationChain.t) (now_ms : u64) : Result StoreError (option StoredDelegationChain.t) :=
  match DelegationChain.verify record.(StoredDelegationChain.root_public_key)
          record.(StoredDelegationChain.root_capabilities) record.(StoredDelegationChain.certificates) now_ms with
  | Ok _ => Ok (Some record)
  | Err DelegationError.Expired => Ok None
  | Err _ => Err (Corrupt "invalid persisted delegation")
  end.

Fixpoint chains_of (entries : list Record_) (now_ms : u64) : Result StoreError (list StoredDelegationChain.t) :=
  match entries with
  | [] => Ok []
  | (key, value) :: entries =>
      if negb (starts_with SIGNED_DELEGATION_PREFIX key) then chains_of entries now_ms
      else
        record ← decode_delegation key value;
        found ← reverify record now_ms;
        chains ← chains_of entries now_ms;
        Ok (match found with Some record => record :: chains | None => chains end)
  end.

Definition valid_chains (s : St) (now_ms : u64) : Result StoreError (list StoredDelegationChain.t) :=
  entries ← store_scan s Namespace.Trust;
  chains_of entries now_ms.

Definition valid_chain_for_public_key (s : St) (delegated_public_key : list u8) (now_ms : u64)
    : Result StoreError (option StoredDelegationChain.t) :=
  let key := delegation_key delegated_public_key in
  found ← store_get s Namespace.Trust key;
  match found with
  | None => Ok None
  | Some value =>
      record ← decode_delegation key value;
      reverify record now_ms
  end.

Definition valid_chain_containing_public_key (s : St) (delegated_public_key : list u8) (now_ms : u64)
    : Result StoreError (option StoredDelegationChain.t) :=
  chains ← valid_chains s now_ms;
  Ok (find (fun chain => existsb (fun certificate =>
        bool_decide (certificate.(SignedDelegation.delegated_public_key) = delegated_public_key))
        chain.(StoredDelegationChain.certificates)) chains).

Definition valid_chain_for_endpoint_id (s : St) (endpoint : list u8) (now_ms : u64)
    : Result StoreError (option StoredDelegationChain.t) :=
  chains ← valid_chains s now_ms;
  Ok (find (fun chain =>
        match list.last chain.(StoredDelegationChain.certificates) with
        | Some leaf => bool_decide (endpoint_id leaf.(SignedDelegation.delegated_public_key) = endpoint)
        | None => false
        end) chains).

End Ops.
End DelegationStore.

(** ** Records are read back *)

#[local] Arguments to_be_bytes : simpl never.

Lemma trust_byte state : TrustState.from_byte (TrustState.to_byte state) = Some state.
Proof. by destruct state. Qed.

Lemma metadata_decode m : m.(TrustMetadata.last_updated_ms) <= u64_max -> TrustMetadata.decode (TrustMetadata.encode m) = Ok m.
Proof.
  intros Hm. set (t := rev (to_be_bytes 8 m.(TrustMetadata.last_updated_ms))).
  assert (Ht : len t = 8) by (unfold t, len; rewrite length_rev; apply (len_to_be_bytes 8)).
  assert (Hr : TrustMetadata.from_le_bytes t = m.(TrustMetadata.last_updated_ms)).
  { unfold TrustMetadata.from_le_bytes, t. rewrite rev_involutive. apply from_to_be_bytes. simpl. unfold u64_max in Hm. lia. }
  unfold TrustMetadata.decode, TrustMetadata.encode. fold t. clearbody t.
  destruct m as [l d u]. cbn [TrustMetadata.level TrustMetadata.direct_tooling TrustMetadata.last_updated_ms app] in *.
  rewrite !len_cons, Ht. change (1 + (1 + (1 + 8)) =? 11) with true. cbn [drop].
  rewrite drop_0, take_ge by (unfold len in Ht; lia). rewrite Hr. by destruct l, d.
Qed.

Section Delegations.
Context {St : Type} `{HS : Store St} {HSL : StoreLaws St} `{HP : Primitives} `{HC : Curves}.

Lemma certificate_read c bytes :
  SignedDelegation.sized c -> SignedDelegation.to_bytes c = Ok bytes -> SignedDelegation.from_bytes bytes = Ok c.
Proof.
  intros Hc ([] & Hst & Hb)%bind_Ok. cbv zeta in Hb. unfold SignedDelegation.from_bytes.
  destruct (N.ltb_spec MAX_DELEGATION_CHAIN_BYTES (len (SignedDelegation.signed_bytes c ++ SignedDelegation.signature c)));
    [done|]. apply (inj Ok) in Hb as <-. rewrite (proj2 (N.ltb_ge _ _)) by done.
  rewrite (all_of_reads _ _ _ c) by (first [by apply delegation_reads|unfold MAX_DELEGATION_CHAIN_BYTES, usize_max, u64_max in *; lia]).
  cbn [mbind Result_bind]. by rewrite Hst.
Qed.

(** A certificate with its length is read back, in the envelope and in a record. *)
Lemma codec_sized_certificate (e1 e2 e3 : StoreError) c :
  SignedDelegation.sized c ->
  codec (put_certificate c)
    (length ← read_be e1 2; bytes ← read_slice_or e2 length; lift (map_err (fun _ => e3) (SignedDelegation.from_bytes bytes))) c.
Proof.
  intros Hc out out' (bytes & Hb%map_err_Ok & (l & Hl & <-%(inj Ok))%bind_Ok)%bind_Ok.
  unfold be16_or in Hl. destruct (N.ltb_spec u16_max (len bytes)); [done|]. apply (inj Ok) in Hl as <-.
  exists (to_be_bytes 2 (len bytes) ++ bytes). split; [done|].
  eapply reads_bind; [apply (reads_be _ 2); simpl; unfold u16_max in *; lia|]. rewrite <- (app_nil_r bytes) at 2.
  eapply reads_bind; [by apply reads_slice_or|]. apply reads_lift. by rewrite (certificate_read _ _ Hc Hb).
Qed.

Lemma codec_certificate c : SignedDelegation.sized c -> codec (put_certificate c) read_persisted c.
Proof. apply codec_sized_certificate. Qed.

(** A chain in its envelope is read back. *)
Lemma delegation_chain_read certs bytes :
  Forall SignedDelegation.sized certs -> encode_delegation_chain certs = Ok bytes -> decode_delegation_chain bytes = Ok certs.
Proof.
  intros Hc E. unfold encode_delegation_chain in E. destruct (N.eqb_spec (len certs) 0) as [|H0]; [done|].
  destruct (N.ltb_spec MAX_DELEGATION_CHAIN_LENGTH (len certs)) as [|Hn]; [done|]. cbn [orb] in E.
  apply bind_Ok in E as (n & Hn1 & E). unfold u8_or in Hn1. destruct (_ <? _); [done|]. apply (inj Ok) in Hn1 as <-.
  apply bind_Ok in E as (o & Eo & E). destruct (N.ltb_spec MAX_DELEGATION_CHAIN_BYTES (len o)) as [|Hl]; [done|]. apply (inj Ok) in E as <-.
  destruct (codec_all put_certificate read_enveloped certs
    ltac:(eapply list.Forall_impl; [exact Hc|intros c; apply codec_sized_certificate]) _ _ Eo) as (b & -> & R).
  unfold decode_delegation_chain. rewrite (proj2 (N.ltb_ge _ _)) by done. cbn [app] in *. rewrite len_cons in *.
  rewrite (proj2 (N.eqb_neq (1 + len b) 0)) by lia. cbn [orb hd]. rewrite (proj2 (N.eqb_neq _ _)) by done. rewrite (proj2 (N.ltb_ge _ _)) by done.
  cbn [orb]. pose proof (R [len certs] []) as HR. rewrite app_nil_r in HR. cbn [app] in HR. rewrite length_len in HR.
  change (len [len certs]) with 1 in HR. rewrite HR by (rewrite len_cons; unfold MAX_DELEGATION_CHAIN_BYTES, usize_max, u64_max in *; lia).
  cbn [mbind Result_bind]. by rewrite N.eqb_refl.
Qed.

Lemma codec_root_capability c : codec (put_capability c) read_root_capability c.
Proof.
  intros out out' (l & Hl & <-%(inj Ok))%bind_Ok. unfold be16_or in Hl.
  destruct (N.ltb_spec u16_max (len c)); [done|]. apply (inj Ok) in Hl as <-.
  exists (to_be_bytes 2 (len c) ++ c). split; [done|].
  eapply reads_bind; [apply (reads_be _ 2); simpl; unfold u16_max in *; lia|]. by apply reads_slice_or.
Qed.

Lemma u8_or_Ok {Er} (e : Er) n out : u8_or e n = Ok out -> out = [n] /\ n <= u8_max.
Proof. unfold u8_or. destruct (N.ltb_spec u8_max n); [done|]. by intros <-%(inj Ok). Qed.

(** A persisted chain is read back as it was written. *)
Lemma delegation_record_read record leaf bytes :
  len record.(StoredDelegationChain.root_public_key) = 32 ->
  Forall SignedDelegation.sized record.(StoredDelegationChain.certificates) ->
  len record.(StoredDelegationChain.certificates) <= MAX_DELEGATION_CHAIN_LENGTH ->
  list.last record.(StoredDelegationChain.certificates) = Some leaf ->
  encode_delegation record = Ok bytes ->
  decode_delegation (delegation_key leaf.(SignedDelegation.delegated_public_key)) bytes = Ok record.
Proof.
  intros Hr Hc Hn Hl ([] & Hv & E)%bind_Ok. destruct (N.eqb_spec (len record.(StoredDelegationChain.certificates)) 0) as [|H0]; [done|].
  apply bind_Ok in E as (n1 & [-> Hn1]%u8_or_Ok & E). apply bind_Ok in E as (o1 & E1 & E).
  apply bind_Ok in E as (n2 & [-> Hn2]%u8_or_Ok & E). apply bind_Ok in E as (o2 & E2 & E).
  destruct (N.ltb_spec MAX_DELEGATION_CHAIN_BYTES (len o2)) as [|Hlim]; [done|]. apply (inj Ok) in E as ->.
  assert (Hm : len record.(StoredDelegationChain.root_capabilities) <= MAX_DELEGATION_CAPABILITIES).
  { unfold validate_delegation_capabilities in Hv. by destruct (N.ltb_spec MAX_DELEGATION_CAPABILITIES (len record.(StoredDelegationChain.root_capabilities))). }
  destruct (codec_all put_capability read_root_capability record.(StoredDelegationChain.root_capabilities)
    ltac:(apply list.Forall_forall; intros; apply codec_root_capability) _ _ E1) as (b1 & -> & R1).
  destruct (codec_all put_certificate read_persisted record.(StoredDelegationChain.certificates)
    ltac:(eapply list.Forall_impl; [exact Hc|apply codec_certificate]) _ _ E2) as (b2 & -> & R2).
  rewrite length_len in R1. rewrite length_len in R2.
  assert (HR : reads delegation_fields
    ([1] ++ record.(StoredDelegationChain.root_public_key) ++ [len record.(StoredDelegationChain.root_capabilities)] ++
     b1 ++ [len record.(StoredDelegationChain.certificates)] ++ b2) record).
  { unfold delegation_fields. eapply reads_bind; [apply reads_byte|]. eapply reads_bind_nil; [by apply reads_guard|].
    eapply reads_bind; [by apply reads_slice_or|]. eapply reads_bind; [apply reads_byte|].
    eapply reads_bind_nil; [apply reads_guard; by apply N.ltb_ge|]. eapply reads_bind; [exact R1|].
    eapply reads_bind_nil; [by apply reads_lift|]. eapply reads_bind; [apply reads_byte|].
    eapply reads_bind_nil; [apply reads_guard; rewrite (proj2 (N.eqb_neq _ _)) by done; by apply N.ltb_ge|].
    rewrite <- (app_nil_r b2). eapply reads_bind; [exact R2|]. destruct record; apply reads_ret. }
  clear E1 E2. rewrite <- !app_assoc in *. cbn [app] in *.
  match type of HR with reads _ ?b _ => set (bytes := b) in * end. unfold decode_delegation.
  assert (Hdk : len leaf.(SignedDelegation.delegated_public_key) = 32).
  { rewrite list.Forall_lookup in Hc. rewrite list.last_lookup in Hl. by destruct (Hc _ _ Hl) as (_ & _ & ? & _). }
  unfold delegation_key at 1 2. rewrite len_app, Hdk, N.eqb_refl. unfold starts_with. rewrite take_app_length, bool_decide_eq_true_2 by done.
  rewrite (proj2 (N.ltb_ge _ _)) by done. cbn [negb orb].
  pose proof (reads_start _ bytes [] _ HR) as Hs. rewrite app_nil_r in Hs.
  rewrite Hs by (unfold MAX_DELEGATION_CHAIN_BYTES, usize_max, u64_max in *; lia). cbn [mbind Result_bind].
  unfold leaf_key. rewrite Hl, N.eqb_refl, bool_decide_eq_true_2 by done. done.
Qed.

Lemma chain_leaf root caps certs now authority :
  Forall SignedDelegation.sized certs -> DelegationChain.verify root caps certs now = Ok authority ->
  len certs <= MAX_DELEGATION_CHAIN_LENGTH /\
  exists leaf, list.last certs = Some leaf /\
    authority.(DelegatedAuthority.public_key) = leaf.(SignedDelegation.delegated_public_key).
Proof. intros Hs [[[_ ?] _ _ _] (c & Hl & ->)]%verify_spec; [|done]. split; [done|]. by exists c. Qed.

(** What an accepted chain leaves in the store. *)
Lemma accept_chain_stored s root caps certs now authority s' :
  len root = 32 -> Forall SignedDelegation.sized certs ->
  DelegationStore.accept_chain s root caps certs now = (Ok authority, s') ->
  let key := delegation_key authority.(DelegatedAuthority.public_key) in
  exists bytes, contents s' Namespace.Trust = <[key := bytes]> (contents s Namespace.Trust) /\
    decode_delegation key bytes = Ok (StoredDelegationChain.mk root (sort_dedup caps) certs) /\
    DelegationStore.check_replacement s key root certs = Ok tt /\
    DelegationChain.verify root caps certs now = Ok authority.
Proof.
  intros Hr Hs H key. unfold DelegationStore.accept_chain in H.
  destruct (DelegationStore.prepare_chain s root caps certs now) as [[[a k] bytes]|] eqn:E; [|done].
  unfold after_write in H. destruct (store_put s Namespace.Trust k bytes) as [[[]|] s1] eqn:Ep; [|done].
  cbn in H. injection H as -> ->.
  apply bind_Ok in E as (a & Ev%map_err_Ok & E). apply bind_Ok in E as ([] & _ & E).
  apply bind_Ok in E as (b & Eb & E). apply bind_Ok in E as ([] & Ec & [= -> <- ->]).
  destruct (chain_leaf _ _ _ _ _ Hs Ev) as (Hn & leaf & Hl & Hk).
  exists bytes. split; [by apply put_same in Ep|]. split; [|done]. unfold key. rewrite Hk.
  by apply delegation_record_read.
Qed.

(** A chain on record for a delegated key. *)
Definition on_record (s : St) (leaf root : list u8) (sequence : u64) : Prop :=
  exists bytes record, contents s Namespace.Trust !! delegation_key leaf = Some bytes /\
    decode_delegation (delegation_key leaf) bytes = Ok record /\
    record.(StoredDelegationChain.root_public_key) = root /\
    last_sequence record.(StoredDelegationChain.certificates) = sequence.

Lemma replacement_newer s leaf root sequence root' certs :
  on_record s leaf root sequence -> DelegationStore.check_replacement s (delegation_key leaf) root' certs = Ok tt ->
  root' = root /\ sequence < last_sequence certs.
Proof.
  intros (bytes & record & Hc & Hd & <- & <-) (found & Hg & H)%bind_Ok. apply get_contents in Hg.
  rewrite Hc in Hg. subst found. rewrite Hd in H. cbn [mbind Result_bind] in H.
  case_bool_decide as Er; [|done]. cbn [negb] in H. destruct (N.leb_spec (last_sequence certs) (last_sequence record.(StoredDelegationChain.certificates))); [done|].
  split; [done|lia].
Qed.

(** Calls of [accept_chain] one after the other, with what was accepted. *)
Record call := Call {
  call_root : list u8;
  call_capabilities : list (list u8);
  call_certificates : list SignedDelegation.t;
  call_now : u64
}.

Definition call_sized (c : call) : Prop :=
  len c.(call_root) = 32 /\ Forall SignedDelegation.sized c.(call_certificates).

Fixpoint accept_all (s : St) (calls : list call) : list (list u8 * list u8 * u64) * St :=
  match calls with
  | [] => ([], s)
  | c :: calls =>
      let '(r, s1) := DelegationStore.accept_chain s c.(call_root) c.(call_capabilities) c.(call_certificates) c.(call_now) in
      let '(accepted, s2) := accept_all s1 calls in
      (match r with
       | Ok authority => (authority.(DelegatedAuthority.public_key), c.(call_root), last_sequence c.(call_certificates)) :: accepted
       | Err _ => accepted
       end, s2)
  end.

Lemma accept_chain_failed s root caps certs now e s' :
  DelegationStore.accept_chain s root caps certs now = (Err e, s') -> contents s' Namespace.Trust = contents s Namespace.Trust.
Proof.
  unfold DelegationStore.accept_chain. destruct (DelegationStore.prepare_chain _ _ _ _ _) as [[[a k] b]|]; [|by intros [= _ <-]].
  unfold after_write. destruct (store_put s Namespace.Trust k b) as [[[]|] s1] eqn:E; [done|].
  intros [= _ <-]. by apply (put_failed _ _ _ _ _ _ Namespace.Trust) in E.
Qed.

Lemma delegation_key_inj k k' : delegation_key k = delegation_key k' -> k = k'.
Proof. unfold delegation_key. by apply app_inv_head. Qed.

Lemma accept_all_newer s calls leaf root sequence root' sequence' :
  Forall call_sized calls -> on_record s leaf root sequence ->
  (leaf, root', sequence') ∈ (accept_all s calls).1 -> root' = root /\ sequence < sequence'.
Proof.
  intros Hc. revert s sequence. induction Hc as [|c calls [Hr Hs] Hc IH]; intros s sequence Ho; cbn [accept_all];
    [by intros ?%elem_of_nil|].
  destruct (DelegationStore.accept_chain _ _ _ _ _) as [r s1] eqn:E.
  destruct (accept_all s1 calls) as [accepted s2] eqn:E2. specialize (IH s1). rewrite E2 in IH. cbn [fst] in *.
  destruct r as [authority|e].
  - destruct (accept_chain_stored _ _ _ _ _ _ _ Hr Hs E) as (bytes & Hcs & Hd & Hrep & _).
    destruct (decide (authority.(DelegatedAuthority.public_key) = leaf)) as [<-|Hne].
    + destruct (replacement_newer _ _ _ _ _ _ Ho Hrep) as [Hr' Hq].
      assert (on_record s1 authority.(DelegatedAuthority.public_key) root (last_sequence c.(call_certificates))) as Ho1.
      { exists bytes, (StoredDelegationChain.mk c.(call_root) (sort_dedup c.(call_capabilities)) c.(call_certificates)).
        by rewrite Hcs, lookup_insert_eq. }
      intros [Heq|Hin]%elem_of_cons; [by simplify_eq|]. destruct (IH _ Ho1 Hin) as [-> ?]. split; [done|lia].
    + assert (on_record s1 leaf root sequence) as Ho1.
      { destruct Ho as (b & rec & Hb & ?). exists b, rec. rewrite Hcs, lookup_insert_ne; [done|].
        intros Heq. by apply delegation_key_inj in Heq. }
      intros [Heq|Hin]%elem_of_cons; [by simplify_eq|]. by apply IH.
  - intros Hin. apply IH; [|done]. unfold on_record. by rewrite (accept_chain_failed _ _ _ _ _ _ _ E).
Qed.

End Delegations.

(** ** Theorems *)

Section Theorems.
Context {St : Type} `{HS : Store St} {HSL : StoreLaws St} `{HP : Primitives} `{HC : Curves}.

(** A delegation chain that was accepted is what the store answers for its
    delegated key from then on, whenever it can be read, until the chain
    expires; the answer is checked again with every signature. *)
Theorem delegation_persisted s root caps certs now authority s' now' v :
  len root = 32 -> Forall SignedDelegation.sized certs ->
  DelegationStore.accept_chain s root caps certs now = (Ok authority, s') ->
  store_get s' Namespace.Trust (delegation_key authority.(DelegatedAuthority.public_key)) = Ok v ->
  DelegationStore.valid_chain_for_public_key s' authority.(DelegatedAuthority.public_key) now' =
    match DelegationChain.verify root caps certs now' with
    | Ok _ => Ok (Some (StoredDelegationChain.mk root (sort_dedup caps) certs))
    | Err DelegationError.Expired => Ok None
    | Err _ => Err (Corrupt "invalid persisted delegation")
    end.
Proof.
  intros Hr Hs E Hg. destruct (accept_chain_stored _ _ _ _ _ _ _ Hr Hs E) as (bytes & Hc & Hd & _ & _).
  unfold DelegationStore.valid_chain_for_public_key. pose proof (get_contents _ _ _ _ Hg) as Hv.
  rewrite Hc, lookup_insert_eq in Hv. rewrite Hg, <- Hv. cbn [mbind Result_bind]. rewrite Hd. cbn [mbind Result_bind].
  unfold DelegationStore.reverify. cbn [StoredDelegationChain.root_public_key StoredDelegationChain.root_capabilities
    StoredDelegationChain.certificates]. by rewrite verify_sort_dedup.
Qed.

(** C19: No rollback of delegations: over any calls, with any failures of the
    store in between, each chain accepted for a delegated key has a higher leaf
    sequence than those accepted before it, and the same root. *)
Theorem delegation_no_rollback s calls i j leaf root sequence root' sequence' :
  Forall call_sized calls -> (i < j)%nat ->
  (accept_all s calls).1 !! i = Some (leaf, root, sequence) ->
  (accept_all s calls).1 !! j = Some (leaf, root', sequence') ->
  root' = root /\ sequence < sequence'.
Proof.
  intros Hc. revert s i j. induction Hc as [|c calls [Hr Hs] Hc IH]; intros s i j Hij; cbn [accept_all]; [done|].
  destruct (DelegationStore.accept_chain _ _ _ _ _) as [r s1] eqn:E.
  destruct (accept_all s1 calls) as [accepted s2] eqn:E2. specialize (IH s1). rewrite E2 in IH. cbn [fst] in *.
  destruct r as [authority|e]; [|by apply IH]. destruct i as [|i], j as [|j]; [lia| |lia|apply IH; lia].
  intros [= <- <- <-] Hj. eapply (accept_all_newer s1 calls); [done| |rewrite E2; by eapply list_elem_of_lookup_2].
  destruct (accept_chain_stored _ _ _ _ _ _ _ Hr Hs E) as (bytes & Hcs & Hd & _ & _).
  exists bytes, (StoredDelegationChain.mk c.(call_root) (sort_dedup c.(call_capabilities)) c.(call_certificates)).
  by rewrite Hcs, lookup_insert_eq.
Qed.

(** A trust transition either is refused or fails and changes nothing, or
    takes exactly one step of the matrix and is what is read afterwards; the
    other endpoints keep their records. *)
Theorem trust_transition_exact default s endpoint target now r s' :
  now <= u64_max -> TrustStore.transition default s endpoint target now = (r, s') ->
  match r with
  | Ok state =>
      state = target /\
      (exists current, TrustStore.effective_trust_state default s endpoint = Ok current /\
         TrustState.can_transition_to current target = true) /\
      (forall v, store_get s' Namespace.Trust endpoint = Ok v ->
         TrustStore.effective_trust_state default s' endpoint = Ok target) /\
      (forall other, other <> endpoint ->
         contents s' Namespace.Trust !! other = contents s Namespace.Trust !! other)
  | Err _ => contents s' Namespace.Trust = contents s Namespace.Trust
  end.
Proof.
  intros Hn H. unfold TrustStore.transition in H.
  destruct (TrustStore.effective_trust_state default s endpoint) as [current|e] eqn:Ec; cbn [map_err] in H;
    [|by injection H as <- <-].
  unfold TrustState.transition_to in H. destruct (TrustState.can_transition_to current target) eqn:Et; cbn [map_err] in H;
    [|by injection H as <- <-].
  unfold after_write in H. destruct (TrustStore.set_state s endpoint target now) as [[[]|e] s1] eqn:Es;
    injection H as <- <-; cbn [fst mbind Result_bind map_err]; [|by apply (put_failed _ _ _ _ _ _ Namespace.Trust) in Es].
  apply put_same in Es. split; [done|]. split; [by exists current|]. split.
  - intros v Hv. unfold TrustStore.effective_trust_state, TrustStore.get_trust_metadata. pose proof (get_contents _ _ _ _ Hv) as Hg.
    cbn [snd] in *. rewrite Es, lookup_insert_eq in Hg. rewrite Hv, <- Hg. cbn [mbind Result_bind]. by rewrite metadata_decode.
  - intros other Ho. cbn [snd]. by rewrite Es, lookup_insert_ne.
Qed.

End Theorems.

(** ** Examples *)

Definition sample_leaf : list u8 := @IdentityKeyPair.public toy_curves sample_new_identity.

Definition sample_calls : list call :=
  [Call sample_root [[97]; [98]] [sample_certificate 1] 5000; Call sample_root [[97]; [98]] [sample_certificate 1] 5000;
   Call sample_root [[97]; [98]] [sample_certificate 4] 6000].

Definition sample_accepted : Result StoreError DelegatedAuthority.t * Memory :=
  @DelegationStore.accept_chain Memory memory_store toy_primitives toy_curves empty_memory sample_root [[97]; [98]]
    [sample_certificate 1] 5000.

Lemma sample_certificate_sized : Forall SignedDelegation.sized [sample_certificate 1].
Proof. apply list.Forall_singleton; repeat split; by vm_compute. Qed.

Lemma delegation_persisted_witness :
  let s' := sample_accepted.2 in
  @DelegationStore.valid_chain_for_public_key Memory memory_store toy_primitives toy_curves s' sample_leaf 8999 =
    Ok (Some (StoredDelegationChain.mk sample_root [[97]; [98]] [sample_certificate 1])) /\
  @DelegationStore.valid_chain_for_public_key Memory memory_store toy_primitives toy_curves s' sample_leaf 9000 = Ok None.
Proof.
  intros s'.
  assert (E : sample_accepted = (Ok (DelegatedAuthority.mk sample_leaf [[97]; [98]] 1), s'))
    by (unfold s'; rewrite (surjective_pairing sample_accepted) at 1; f_equal; by vm_compute).
  split.
  - etransitivity; [exact (@delegation_persisted Memory memory_store memory_laws toy_primitives toy_curves
      empty_memory sample_root [[97]; [98]] [sample_certificate 1] 5000 _ s' 8999 _ ltac:(by vm_compute)
      sample_certificate_sized E eq_refl)|by vm_compute].
  - etransitivity; [exact (@delegation_persisted Memory memory_store memory_laws toy_primitives toy_curves
      empty_memory sample_root [[97]; [98]] [sample_certificate 1] 5000 _ s' 9000 _ ltac:(by vm_compute)
      sample_certificate_sized E eq_refl)|by vm_compute].
Defined.

Lemma delegation_no_rollback_witness :
  (@accept_all Memory memory_store toy_primitives toy_curves empty_memory sample_calls).1 =
    [(sample_leaf, sample_root, 1); (sample_leaf, sample_root, 4)] /\ 1 < 4.
Proof.
  split; [by vm_compute|].
  refine (proj2 (@delegation_no_rollback Memory memory_store memory_laws toy_primitives toy_curves empty_memory
    sample_calls 0 1 sample_leaf sample_root 1 sample_root 4 _ _ _ _)); [|lia|by vm_compute|by vm_compute].
  repeat (apply list.Forall_cons_2; [split; [by vm_compute|apply list.Forall_singleton; repeat split; by vm_compute]|]).
  apply list.Forall_nil_2.
Defined.

Lemma trust_transition_exact_witness :
  let r := @TrustStore.transition Memory memory_store TrustState.Unknown empty_memory [1] TrustState.Observed 10 in
  r.1 = Ok TrustState.Observed /\ contents r.2 Namespace.Trust !! [2] = contents empty_memory Namespace.Trust !! [2].
Proof.
  intros r. split; [by vm_compute|].
  assert (E : r = (Ok TrustState.Observed, r.2)) by (rewrite (surjective_pairing r) at 1; f_equal; by vm_compute).
  apply (@trust_transition_exact Memory memory_store memory_laws TrustState.Unknown empty_memory [1] TrustState.Observed 10
    (Ok TrustState.Observed) r.2 ltac:(done) E). done.
Defined.
