(* ===== verification/TrustGraph.v ===== *)
(** * The introduction graph (crates/umc-core/src/trust.rs, [TrustGraph])

    Introductions are edges from an introducer to a subject, limited to a scope
    and a time.  A subject the node has no opinion of counts as introduced when
    a short path of live edges leads to it from a trusted endpoint. *)

From Stdlib Require Import Strings.String.
From stdpp Require Import gmap.
From S2P Require Import Prelude Codec Sorting Records Crypto Identity HandshakeMessages HandshakeKeys Canonical Store TrustStatements Trust.

Module IntroductionRecord.
Record t := mk {
  introducer : list u8;
  subject : list u8;
  scope : list u8;
  expires_at_ms : u64;
  sequence : u64
}.
End IntroductionRecord.

Definition scope_matches (record_scope requested_scope : list u8) : bool :=
  bool_decide (record_scope = bstr "*") || bool_decide (record_scope = requested_scope).

Definition INTRODUCTION_PREFIX : list u8 := bstr "intro/".

(** [append_len_prefixed] *)
Definition len_prefixed (value : list u8) : list u8 := be16 (len value) ++ value.

Definition introduction_key (record : IntroductionRecord.t) : list u8 :=
  INTRODUCTION_PREFIX ++ len_prefixed record.(IntroductionRecord.introducer) ++
  len_prefixed record.(IntroductionRecord.subject) ++ to_be_bytes 8 record.(IntroductionRecord.sequence).

Definition signed_introduction_key (statement : SignedIntroduction.t) : list u8 :=
  SIGNED_INTRODUCTION_PREFIX ++ statement.(SignedIntroduction.introducer_endpoint_id) ++
  statement.(SignedIntroduction.subject_endpoint_id) ++ to_be_bytes 8 statement.(SignedIntroduction.sequence).

Definition encode_introduction (record : IntroductionRecord.t) : list u8 :=
  [1] ++ to_be_bytes 8 record.(IntroductionRecord.expires_at_ms) ++ be16 (len record.(IntroductionRecord.scope)) ++
  record.(IntroductionRecord.scope).

Definition read_len_prefixed : DecOf StoreError (list u8) :=
  length ← read_be (Corrupt "bad introduction identity length") 2;
  read_slice_or (Corrupt "bad introduction identity") length.

Definition read_identities : DecOf StoreError (list u8 * list u8) :=
  introducer ← read_len_prefixed;
  subject ← read_len_prefixed;
  mret (introducer, subject).

Definition decode_introduction (key value : list u8) : Result StoreError IntroductionRecord.t :=
  if negb (starts_with INTRODUCTION_PREFIX key) || (len key <? 6) then Err (Corrupt "bad introduction key")
  else
    '((introducer, subject), offset) ← read_identities key 6;
    if negb (len key =? offset + 8) || (len value <? 11) || negb (nth 0 value 0 =? 1)
    then Err (Corrupt "bad introduction record")
    else
      let sequence := from_be_bytes (from key offset) in
      let expires_at_ms := from_be_bytes (take 8 (drop 1 value)) in
      let scope_len := from_be_bytes (take 2 (drop 9 value)) in
      if negb (len value =? 11 + scope_len) then Err (Corrupt "bad introduction scope length")
      else
        let scope := drop 11 value in
        if negb (utf8 scope) then Err (Corrupt "introduction scope is not utf8")
        else Ok (IntroductionRecord.mk introducer subject scope expires_at_ms sequence).

(** [.filter(..).map(..).collect::<Result<Vec<_>, _>>()]: the entries under one
    prefix, up to the first that does not decode. *)
Fixpoint collect_entries {A} (prefix : list u8) (decode : list u8 -> list u8 -> Result StoreError A)
    (entries : list Record_) : Result StoreError (list A) :=
  match entries with
  | [] => Ok []
  | (key, value) :: entries =>
      if starts_with prefix key then
        a ← decode key value;
        l ← collect_entries prefix decode entries;
        Ok (a :: l)
      else collect_entries prefix decode entries
  end.

Module TrustGraph.
Section Graph.
Context {St : Type} `{Store St} `{Primitives, Curves}.
Context (max_depth : usize).

Definition records (s : St) : Result StoreError (list IntroductionRecord.t) :=
  entries ← store_scan s Namespace.Trust;
  collect_entries INTRODUCTION_PREFIX decode_introduction entries.

Definition decode_signed (key value : list u8) : Result StoreError SignedIntroduction.t :=
  if len value <? 32 then Err (Corrupt "bad signed introduction issuer key")
  else
    let introducer_public_key := take 32 value in
    statement ← map_err (fun _ => Corrupt "bad signed introduction") (SignedIntroduction.from_bytes (drop 32 value));
    if negb (bool_decide (signed_introduction_key statement = key))
    then Err (Corrupt "signed introduction key does not match statement")
    else
      _ ← map_err (fun _ => Corrupt "bad signed introduction signature")
        (SignedIntroduction.verify_signature statement introducer_public_key);
      Ok statement.

Definition signed_records (s : St) : Result StoreError (list SignedIntroduction.t) :=
  entries ← store_scan s Namespace.Trust;
  collect_entries SIGNED_INTRODUCTION_PREFIX decode_signed entries.

Definition as_record (s : SignedIntroduction.t) : IntroductionRecord.t :=
  IntroductionRecord.mk s.(SignedIntroduction.introducer_endpoint_id) s.(SignedIntroduction.subject_endpoint_id)
    s.(SignedIntroduction.allowed_use) s.(SignedIntroduction.expires_at_ms) s.(SignedIntroduction.sequence).

Definition all_records (s : St) : Result StoreError (list IntroductionRecord.t) :=
  records ← records s;
  signed ← signed_records s;
  Ok (records ++ map as_record signed).

(** The edges into [subject] that are in force for [scope]. *)
Definition live (subject scope : list u8) (now_ms : u64) (record : IntroductionRecord.t) : bool :=
  bool_decide (record.(IntroductionRecord.subject) = subject) && (now_ms <? record.(IntroductionRecord.expires_at_ms)) &&
  scope_matches record.(IntroductionRecord.scope) scope.

(** [remaining] is [max_depth + 1 - depth]: at zero the depth exceeds the limit. *)
Fixpoint has_authorized_introduction (remaining : nat) (s : St) (subject scope : list u8) (now_ms : u64)
    (visiting : list (list u8)) : Result StoreError bool :=
  match remaining with
  | O => Ok false
  | S remaining =>
      if bool_decide (subject ∈ visiting) then Ok false
      else
        state ← TrustStore.effective_trust_state TrustState.Unknown s subject;
        if bool_decide (state = TrustState.Trusted) then Ok true
        else
          records ← all_records s;
          (fix search (records : list IntroductionRecord.t) : Result StoreError bool :=
             match records with
             | [] => Ok false
             | record :: records =>
                 found ← has_authorized_introduction remaining s record.(IntroductionRecord.introducer) scope now_ms
                           (visiting ++ [subject]);
                 if (found : bool) then Ok true else search records
             end) (List.filter (live subject scope now_ms) records)
  end.

Definition effective_state (s : St) (subject scope : list u8) (now_ms : u64) : Result StoreError TrustState.t :=
  current ← TrustStore.effective_trust_state TrustState.Unknown s subject;
  match current with
  | TrustState.Unknown | TrustState.Observed =>
      found ← has_authorized_introduction (S (N.to_nat max_depth)) s subject scope now_ms [];
      Ok (if (found : bool) then TrustState.Introduced else current)
  | _ => Ok current
  end.

Definition may_introduce (state : TrustState.t) : bool :=
  match state with
  | TrustState.Trusted | TrustState.Introduced => true
  | _ => false
  end.

Definition introductions_of (subject : list u8) (records : list IntroductionRecord.t) : usize :=
  len (List.filter (fun record => bool_decide (record.(IntroductionRecord.subject) = subject)) records).

(** [.map(|record| record.sequence).max().unwrap_or(0)] *)
Definition max_sequence (introducer subject : list u8) (records : list IntroductionRecord.t) : u64 :=
  foldr N.max 0 (map IntroductionRecord.sequence
    (List.filter (fun record => bool_decide (record.(IntroductionRecord.introducer) = introducer) &&
                           bool_decide (record.(IntroductionRecord.subject) = subject)) records)).

(** The checks of [introduce], up to the record that is written. *)
Definition prepare_introduction (s : St) (introducer subject scope : list u8) (expires_at_ms now_ms : u64)
    : Result StoreError IntroductionRecord.t :=
  if (len introducer =? 0) || (len subject =? 0) || bool_decide (introducer = subject)
  then Err (Corrupt "invalid introduction identities")
  else if (len scope =? 0) || (expires_at_ms <=? now_ms) then Err (Corrupt "invalid introduction scope or expiry")
  else
    introducer_state ← effective_state s introducer scope now_ms;
    if negb (may_introduce introducer_state) then Err (Corrupt "introducer lacks active authority for scope")
    else
      records ← all_records s;
      if MAX_INTRODUCTIONS_PER_SUBJECT <=? introductions_of subject records then Err QuotaExceeded
      else
        let sequence := saturating_add (max_sequence introducer subject records) 1 in
        Ok (IntroductionRecord.mk introducer subject scope expires_at_ms sequence).

Definition introduce (s : St) (introducer subject scope : list u8) (expires_at_ms now_ms : u64)
    : Result StoreError unit * St :=
  match prepare_introduction s introducer subject scope expires_at_ms now_ms with
  | Err e => (Err e, s)
  | Ok record => store_put s Namespace.Trust (introduction_key record) (encode_introduction record)
  end.

(** The checks of [accept_signed_introduction], up to the value that is written. *)
Definition prepare_signed (s : St) (statement : SignedIntroduction.t) (introducer_public_key : list u8) (now_ms : u64)
    : Result StoreError (list u8) :=
  _ ← map_err (fun _ => Corrupt "invalid signed introduction")
    (SignedIntroduction.validate statement introducer_public_key now_ms);
  introducer_state ← effective_state s statement.(SignedIntroduction.introducer_endpoint_id)
    statement.(SignedIntroduction.allowed_use) now_ms;
  if negb (may_introduce introducer_state) then Err (Corrupt "introducer lacks active authority for scope")
  else
    records ← all_records s;
    if MAX_INTRODUCTIONS_PER_SUBJECT <=? introductions_of statement.(SignedIntroduction.subject_endpoint_id) records
    then Err QuotaExceeded
    else if existsb (fun record =>
        bool_decide (record.(IntroductionRecord.introducer) = statement.(SignedIntroduction.introducer_endpoint_id)) &&
        bool_decide (record.(IntroductionRecord.subject) = statement.(SignedIntroduction.subject_endpoint_id)) &&
        (statement.(SignedIntroduction.sequence) <=? record.(IntroductionRecord.sequence))) records
    then Err (Corrupt "signed introduction sequence regressed")
    else
      encoded ← map_err (fun _ => Corrupt "invalid signed introduction") (SignedIntroduction.to_bytes statement);
      Ok (introducer_public_key ++ encoded).

Definition accept_signed_introduction (s : St) (statement : SignedIntroduction.t) (introducer_public_key : list u8)
    (now_ms : u64) : Result StoreError unit * St :=
  match prepare_signed s statement introducer_public_key now_ms with
  | Err e => (Err e, s)
  | Ok value => store_put s Namespace.Trust (signed_introduction_key statement) value
  end.

End Graph.
End TrustGraph.

(** ** Paths of introductions *)

Section Paths.
Context {St : Type} `{HS : Store St} `{HP : Primitives} `{HC : Curves}.
Context (s : St) (scope : list u8) (now : u64).

Definition trusted (endpoint : list u8) : Prop :=
  TrustStore.effective_trust_state TrustState.Unknown s endpoint = Ok TrustState.Trusted.

(** An edge in force: [introducer] has introduced [subject]. *)
Definition edge (introducer subject : list u8) : Prop :=
  exists records record, TrustGraph.all_records s = Ok records /\ record ∈ records /\
    TrustGraph.live subject scope now record = true /\ record.(IntroductionRecord.introducer) = introducer.

(** At most [n] edges lead to the endpoint from a trusted one. *)
Inductive vouched : nat -> list u8 -> Prop :=
| vouched_trusted n endpoint : trusted endpoint -> vouched n endpoint
| vouched_edge n introducer endpoint : edge introducer endpoint -> vouched n introducer -> vouched (S n) endpoint.

(** The same along a path that meets none of [visiting] and no endpoint twice. *)
Inductive vouched_avoiding : list (list u8) -> nat -> list u8 -> Prop :=
| avoiding_trusted visiting n endpoint : endpoint ∉ visiting -> trusted endpoint -> vouched_avoiding visiting n endpoint
| avoiding_edge visiting n introducer endpoint :
    endpoint ∉ visiting -> edge introducer endpoint -> vouched_avoiding (visiting ++ [endpoint]) n introducer ->
    vouched_avoiding visiting (S n) endpoint.

Lemma vouched_S n e : vouched n e -> vouched (S n) e.
Proof. induction 1; [by constructor|by econstructor]. Qed.

Lemma vouched_le n m e : (n <= m)%nat -> vouched n e -> vouched m e.
Proof. induction 1; [done|]. intros. by apply vouched_S, IHle. Qed.

Lemma avoiding_vouched V n e : vouched_avoiding V n e -> vouched n e.
Proof. induction 1; [by constructor|by econstructor]. Qed.

Lemma trusted_dec e : trusted e \/ ~ trusted e.
Proof.
  unfold trusted. destruct (TrustStore.effective_trust_state _ s e) as [[]|]; try (by right); by left.
Qed.

Lemma vouched_dec n e : vouched n e \/ ~ vouched n e.
Proof.
  revert e. induction n as [|n IH]; intros e; destruct (trusted_dec e) as [Ht|Ht]; try (left; by constructor).
  - right. by inversion 1.
  - destruct (TrustGraph.all_records s) as [records|] eqn:Er.
    2: { right. inversion 1 as [|? ? ? (rs & r & Hr & _)]; [done|congruence]. }
    assert (Hd : forall rs : list IntroductionRecord.t, (exists r, r ∈ rs /\ TrustGraph.live e scope now r = true /\ vouched n r.(IntroductionRecord.introducer)) \/
      ~ (exists r, r ∈ rs /\ TrustGraph.live e scope now r = true /\ vouched n r.(IntroductionRecord.introducer))).
    { induction rs as [|r rs IHr]; [right; by intros (r & ?%elem_of_nil & _)|].
      destruct (IHr) as [(r' & ? & ?)|Hn]; [left; exists r'; split; [by right|done]|].
      destruct (TrustGraph.live e scope now r) eqn:El.
      - destruct (IH r.(IntroductionRecord.introducer)) as [?|Hv]; [left; exists r; split; [left|done]|].
        right. intros (r' & [-> |Hr]%elem_of_cons & ? & ?); [done|]. apply Hn. by exists r'.
      - right. intros (r' & [-> |Hr]%elem_of_cons & ? & ?); [congruence|]. apply Hn. by exists r'. }
    destruct (Hd records) as [(r & Hr & Hl & Hv)|Hn].
    + left. econstructor; [|exact Hv]. by exists records, r.
    + right. inversion 1 as [|? ? ? (rs & r & Hr & Hin & Hl & <-) Hv]; [done|]. rewrite Er in Hr. apply (inj Ok) in Hr as <-.
      apply Hn. by exists r.
Qed.

(** A shortest path meets nothing twice. *)
Lemma shortest_avoiding m e V :
  vouched m e -> (forall k, m = S k -> ~ vouched k e) -> (forall v, v ∈ V -> ~ vouched m v) -> vouched_avoiding V m e.
Proof.
  revert e V. induction m as [|m IH]; intros e V Hv Hmin HV.
  - inversion Hv; subst. constructor; [|done]. intros Hin. by apply (HV e).
  - assert (Hm : ~ vouched m e) by (by apply Hmin). inversion Hv as [? ? Ht|? i ? He Hi]; subst.
    { exfalso. apply Hm. by constructor. }
    apply (avoiding_edge V m i e); [intros Hin; by apply (HV e)|done|]. apply IH; [done| |].
    + intros k -> Hk. apply Hm. by econstructor.
    + intros v [Hin| ->%list_elem_of_singleton]%elem_of_app; [|done]. intros Hk. apply (HV v); [done|by apply vouched_S].
Qed.

Lemma avoiding_le V n m e : (n <= m)%nat -> vouched_avoiding V n e -> vouched_avoiding V m e.
Proof.
  intros Hle Hv. revert m Hle. induction Hv as [|V n i e Hn He Hv IH]; intros m Hle; [by constructor|].
  destruct m as [|m]; [lia|]. apply (avoiding_edge V m i e); [done|done|]. apply IH. lia.
Qed.

Lemma vouched_avoiding_nil n e : vouched n e -> vouched_avoiding [] n e.
Proof.
  intros Hv. assert (exists m, (m <= n)%nat /\ vouched m e /\ forall k, m = S k -> ~ vouched k e) as (m & Hm & Hv' & Hk).
  { induction n as [|n IH]; [by exists 0%nat|]. destruct (vouched_dec n e) as [Hn|Hn].
    - destruct (IH Hn) as (m & ? & ?). exists m. split; [lia|done].
    - exists (S n). split; [lia|]. split; [done|]. by intros k [= <-]. }
  eapply avoiding_le; [exact Hm|]. apply shortest_avoiding; [done|done|]. by intros v ?%elem_of_nil.
Qed.

(** The search finds exactly such paths. *)
Lemma search_spec n e V b :
  TrustGraph.has_authorized_introduction (S n) s e scope now V = Ok b -> b = true <-> vouched_avoiding V n e.
Proof.
  revert e V b. induction n as [n IHn] using lt_wf_ind. intros e V b H. cbn [TrustGraph.has_authorized_introduction] in H.
  case_bool_decide as HV.
  { apply (inj Ok) in H as <-. split; [done|]. by inversion 1. }
  apply bind_Ok in H as (state & Hs & H). case_bool_decide as Ht.
  { subst state. apply (inj Ok) in H as <-. split; [|done]. intros _. by constructor. }
  apply bind_Ok in H as (records & Hr & H).
  assert (Hiff : vouched_avoiding V n e <->
    exists r k, n = S k /\ r ∈ records /\ TrustGraph.live e scope now r = true /\
      vouched_avoiding (V ++ [e]) k r.(IntroductionRecord.introducer)).
  { split.
    - inversion 1 as [? ? ? ? Htr|? k ? ? ? (rs & r & Hr' & Hin & Hl & <-) Hv]; subst.
      + unfold trusted in Htr. congruence.
      + rewrite Hr in Hr'. apply (inj Ok) in Hr' as <-. by exists r, k.
    - intros (r & k & -> & Hin & Hl & Hv). eapply avoiding_edge; [done| |exact Hv]. by exists records, r. }
  rewrite Hiff. clear Hiff.
  assert (Hgen : forall rs b, (fix search (records : list IntroductionRecord.t) : Result StoreError bool :=
             match records with
             | [] => Ok false
             | record :: records =>
                 found ← TrustGraph.has_authorized_introduction n s record.(IntroductionRecord.introducer) scope now (V ++ [e]);
                 if (found : bool) then Ok true else search records
             end) rs = Ok b ->
    b = true <-> exists r k, n = S k /\ r ∈ rs /\ vouched_avoiding (V ++ [e]) k r.(IntroductionRecord.introducer)).
  { clear b H. induction rs as [|r rs IHr]; intros b H.
    - apply (inj Ok) in H as <-. split; [done|]. by intros (r & k & _ & ?%elem_of_nil & _).
    - apply bind_Ok in H as (found & Hf & H). destruct n as [|k].
      + apply (inj Ok) in Hf as <-. rewrite (IHr _ H). split; intros (r' & k' & ? & _); done.
      + pose proof (IHn k ltac:(lia) _ _ _ Hf) as Hk. destruct found.
        * apply (inj Ok) in H as <-. split; [|done]. intros _. exists r, k. split; [done|]. split; [left|by apply Hk].
        * rewrite (IHr _ H). split.
          -- intros (r' & k' & ? & ? & ?). exists r', k'. split; [done|]. split; [by right|done].
          -- intros (r' & k' & [= <-] & [-> |Hin]%elem_of_cons & Hv); [by apply Hk in Hv|]. by exists r', k. }
  rewrite (Hgen _ _ H). split.
  - intros (r & k & ? & Hin & ?). apply list_elem_of_In, List.filter_In in Hin as [Hin ?]. exists r, k.
    split; [done|]. split; [by apply list_elem_of_In|done].
  - intros (r & k & ? & Hin & ? & ?). exists r, k. split; [done|]. split; [|done].
    apply list_elem_of_In, List.filter_In. split; [by apply list_elem_of_In|done].
Qed.

(** The search answers when the states along the graph can be read. *)
Lemma search_answers n e V records :
  TrustGraph.all_records s = Ok records ->
  (forall e', e' = e \/ (exists r, r ∈ records /\ r.(IntroductionRecord.introducer) = e') ->
     exists state, TrustStore.effective_trust_state TrustState.Unknown s e' = Ok state) ->
  exists b, TrustGraph.has_authorized_introduction n s e scope now V = Ok b.
Proof.
  intros Hr. revert e V. induction n as [|n IH]; intros e V Hs; [by eexists|]. cbn [TrustGraph.has_authorized_introduction].
  destruct (bool_decide (e ∈ V)); [by eexists|]. destruct (Hs e ltac:(by left)) as [state ->]. cbn [mbind Result_bind].
  destruct (bool_decide (state = TrustState.Trusted)); [by eexists|]. rewrite Hr. cbn [mbind Result_bind].
  assert (Hsub : forall r, r ∈ List.filter (TrustGraph.live e scope now) records -> r ∈ records).
  { intros r [? _]%list_elem_of_In%List.filter_In. by apply list_elem_of_In. }
  revert Hsub. generalize (List.filter (TrustGraph.live e scope now) records). intros rs.
  induction rs as [|r rs IHr]; intros Hsub; [by eexists|].
  destruct (IH r.(IntroductionRecord.introducer) (V ++ [e])) as [b ->].
  { intros e' [-> |He']; [|by apply Hs; right]. apply Hs. right. exists r. split; [apply Hsub; left|done]. }
  cbn [mbind Result_bind]. destruct b; [by eexists|]. apply IHr. intros r' Hr'. apply Hsub. by right.
Qed.

End Paths.

(** ** Theorems *)

Section Theorems.
Context {St : Type} `{HS : Store St} `{HP : Primitives} `{HC : Curves}.

(** C20: Introductions confer exactly what the graph says: when the records can
    be read the question is answered; an endpoint with a stored opinion of its
    own keeps it, and one without counts as introduced exactly when a path of
    at most the maximal number of live edges for the scope leads to it from a
    trusted endpoint, cycles or not; none becomes trusted this way. *)
Theorem introduced_exactly max_depth (s : St) subject scope now records current :
  TrustGraph.all_records s = Ok records ->
  (forall record, record ∈ records -> exists state,
     TrustStore.effective_trust_state TrustState.Unknown s record.(IntroductionRecord.introducer) = Ok state) ->
  TrustStore.effective_trust_state TrustState.Unknown s subject = Ok current ->
  exists state, TrustGraph.effective_state max_depth s subject scope now = Ok state /\
    (current <> TrustState.Unknown -> current <> TrustState.Observed -> state = current) /\
    (current = TrustState.Unknown \/ current = TrustState.Observed ->
       (vouched s scope now (N.to_nat max_depth) subject /\ state = TrustState.Introduced) \/
       (~ vouched s scope now (N.to_nat max_depth) subject /\ state = current)).
Proof.
  intros Hr Hi Hc. unfold TrustGraph.effective_state. rewrite Hc. cbn [mbind Result_bind].
  destruct (search_answers s scope now (S (N.to_nat max_depth)) subject [] records Hr) as [b Hb].
  { intros e' [-> |(r & Hin & <-)]; [by eexists|by apply Hi]. }
  pose proof (search_spec s scope now _ _ _ _ Hb) as Hv.
  assert (Hiff : b = true <-> vouched s scope now (N.to_nat max_depth) subject).
  { rewrite Hv. split; [apply avoiding_vouched|apply vouched_avoiding_nil]. }
  destruct current; rewrite ?Hb; cbn [mbind Result_bind]; eexists; (split; [done|]); (split; [done|]); intros [Hx|Hx]; try done;
    destruct b; (left; split; [by apply Hiff|done]) || (right; split; [by rewrite <- Hiff|done]).
Qed.

End Theorems.

(** ** Examples *)

#[local] Existing Instances memory_store toy_primitives toy_curves.

(** Endpoint 1 is trusted and introduces 2, which introduces 3. *)
Definition sample_graph : Memory :=
  let s := (TrustStore.set_state empty_memory [1] TrustState.Trusted 10).2 in
  let s := (TrustGraph.introduce MAX_INTRODUCTION_DEPTH s [1] [2] [97] 5000 10).2 in
  (TrustGraph.introduce MAX_INTRODUCTION_DEPTH s [2] [3] [97] 5000 10).2.

(** Then 2 is blocked. *)
Definition blocked_graph : Memory := (TrustStore.mark_distrusted sample_graph [2] 20).2.

Definition graph_records : list IntroductionRecord.t :=
  [IntroductionRecord.mk [1] [2] [97] 5000 1; IntroductionRecord.mk [2] [3] [97] 5000 1].

Lemma introduced_exactly_witness :
  exists state, TrustGraph.effective_state MAX_INTRODUCTION_DEPTH sample_graph [3] [97] 4999 = Ok state /\
    state = TrustState.Introduced.
Proof.
  destruct (introduced_exactly MAX_INTRODUCTION_DEPTH sample_graph [3] [97] 4999 graph_records TrustState.Unknown)
    as (state & E & _ & H); [by vm_compute| |by vm_compute|].
  - intros r Hr. unfold graph_records in Hr. rewrite !elem_of_cons, elem_of_nil in Hr.
    destruct Hr as [-> |[-> |[]]]; eexists; by vm_compute.
  - exists state. split; [done|]. assert (Ev : TrustGraph.effective_state MAX_INTRODUCTION_DEPTH sample_graph [3] [97] 4999 =
      Ok TrustState.Introduced) by (by vm_compute). rewrite Ev in E. by apply (inj Ok) in E.
Defined.

(** A blocked introducer still vouches: endpoint 2 was introduced by a
    trusted endpoint, introduced 3, and was then blocked; it may introduce
    nobody any more, and yet 3 still counts as introduced through it. *)
Theorem blocked_introducer_vouches :
  TrustGraph.effective_state MAX_INTRODUCTION_DEPTH blocked_graph [2] [97] 30 = Ok TrustState.Blocked /\
  (TrustGraph.introduce MAX_INTRODUCTION_DEPTH blocked_graph [2] [4] [97] 5000 30).1 =
    Err (Corrupt "introducer lacks active authority for scope") /\
  TrustGraph.effective_state MAX_INTRODUCTION_DEPTH blocked_graph [3] [97] 30 = Ok TrustState.Introduced.
Proof. by vm_compute. Qed.
