(* ===== verification/Recovery.v ===== *)
(** * Recovery keys (crates/umc-core/src/recovery.rs)

    A root identity authorises a recovery key to revoke within bounds; the
    revocations it signs are kept with the authority they rest on, checked
    against every binding, and exchanged in batches. *)

From Stdlib Require Import Strings.String.
From stdpp Require Import gmap.
From S2P Require Import Prelude Codec Sorting Records Crypto Identity HandshakeMessages HandshakeKeys Canonical Store TrustStatements Trust.

Module RecoveryError.
Inductive t :=
| Version | InvalidKey | InvalidRoot | InvalidSubject | InvalidScope | InvalidValidity | NotYetValid | Expired
| BadSignature | Oversized | Truncated | TrailingBytes | Unauthorized | Revoked | SequenceRegressed
| Storage (e : StoreError).
End RecoveryError.

Definition AUTH_VERSION : u8 := 1.
Definition REVOCATION_VERSION : u8 := 1.
Definition BATCH_VERSION : u8 := 1.
Definition AUTH_PREFIX : list u8 := bstr "recovery-authority/".
Definition REVOCATION_PREFIX : list u8 := bstr "revoke-recovery/".
Definition MAX_BATCH_ENTRIES : usize := 64.
Definition MAX_BATCH_BYTES : usize := 32 * 1024.

Definition class_bit (class : RevocationClass.t) : u8 :=
  match class with
  | RevocationClass.Identity => 1
  | RevocationClass.Binding => 2
  | RevocationClass.Delegation => 4
  | RevocationClass.Introduction => 8
  | RevocationClass.RecoveryKey => 16
  end.

Definition validate_window (issued_at_ms expires_at_ms now_ms : u64) : Result RecoveryError.t unit :=
  if now_ms <? issued_at_ms then Err RecoveryError.NotYetValid
  else if negb (expires_at_ms =? 0) && (expires_at_ms <=? now_ms) then Err RecoveryError.Expired
  else Ok tt.

Definition digest `{Primitives} (domain bytes : list u8) : list u8 := blake2s (domain ++ bytes).

Module RecoveryAuthorization.
Record t := mk {
  version : u8;
  root_endpoint_id : list u8;
  recovery_public_key : list u8;
  allowed_classes : u8;
  sequence : u64;
  issued_at_ms : u64;
  expires_at_ms : u64;
  signature : list u8
}.

#[global] Instance t_eq_dec : EqDecision t.
Proof. solve_decision. Defined.

Definition allows (a : t) (class : RevocationClass.t) : bool := negb (N.land a.(allowed_classes) (class_bit class) =? 0).

Definition signed_bytes (a : t) : list u8 :=
  [a.(version)] ++ a.(root_endpoint_id) ++ a.(recovery_public_key) ++ [a.(allowed_classes)] ++
  to_be_bytes 8 a.(sequence) ++ to_be_bytes 8 a.(issued_at_ms) ++ to_be_bytes 8 a.(expires_at_ms).

Definition validate_structure (a : t) : Result RecoveryError.t unit :=
  if negb (a.(version) =? AUTH_VERSION) then Err RecoveryError.Version
  else if zero_id a.(root_endpoint_id) || zero_id a.(recovery_public_key) then Err RecoveryError.InvalidKey
  else if negb (N.land a.(allowed_classes) (N.lxor 31 u8_max) =? 0) then Err RecoveryError.InvalidScope
  else if negb (a.(expires_at_ms) =? 0) && (a.(expires_at_ms) <=? a.(issued_at_ms)) then Err RecoveryError.InvalidValidity
  else Ok tt.

Definition to_bytes (a : t) : Result RecoveryError.t (list u8) :=
  _ ← validate_structure a;
  Ok (signed_bytes a ++ a.(signature)).

Definition fields : DecOf RecoveryError.t t :=
  let truncated := RecoveryError.Truncated in
  version ← read_byte truncated;
  root_endpoint_id ← read_slice_or truncated 32;
  recovery_public_key ← read_slice_or truncated 32;
  allowed_classes ← read_byte truncated;
  sequence ← read_be truncated 8;
  issued_at_ms ← read_be truncated 8;
  expires_at_ms ← read_be truncated 8;
  signature ← read_slice_or truncated 64;
  mret (mk version root_endpoint_id recovery_public_key allowed_classes sequence issued_at_ms expires_at_ms signature).

Definition from_bytes (bytes : list u8) : Result RecoveryError.t t :=
  if 256 <? len bytes then Err RecoveryError.Oversized
  else
    statement ← all_of fields RecoveryError.TrailingBytes bytes;
    _ ← validate_structure statement;
    Ok statement.

Section Signatures.
Context `{Primitives, Curves}.

Definition signed_message (a : t) : list u8 := digest (bstr "UMP-RECOVERY-AUTH-v1") (signed_bytes a).

Definition sign (root : IdentityKeyPair.t) (recovery_public_key : list u8) (allowed_classes : u8)
    (sequence issued_at_ms expires_at_ms : u64) : Result RecoveryError.t t :=
  let statement :=
    mk AUTH_VERSION (endpoint_id (IdentityKeyPair.public root)) recovery_public_key allowed_classes
       sequence issued_at_ms expires_at_ms in
  _ ← validate_structure (statement (zeros 64));
  Ok (statement (IdentityKeyPair.sign root (signed_message (statement (zeros 64))))).

Definition verify_signature (a : t) (root_public_key : list u8) : Result RecoveryError.t unit :=
  _ ← validate_structure a;
  if negb (bool_decide (endpoint_id root_public_key = a.(root_endpoint_id))) then Err RecoveryError.InvalidRoot
  else if negb (identity_verify root_public_key (signed_message a) a.(signature)) then Err RecoveryError.BadSignature
  else Ok tt.

Definition validate (a : t) (root_public_key : list u8) (now_ms : u64) : Result RecoveryError.t unit :=
  _ ← verify_signature a root_public_key;
  validate_window a.(issued_at_ms) a.(expires_at_ms) now_ms.

End Signatures.

Definition sized (a : t) : Prop :=
  a.(version) <= u8_max /\ len a.(root_endpoint_id) = 32 /\ len a.(recovery_public_key) = 32 /\
  a.(allowed_classes) <= u8_max /\ a.(sequence) <= u64_max /\ a.(issued_at_ms) <= u64_max /\
  a.(expires_at_ms) <= u64_max /\ len a.(signature) = 64.

End RecoveryAuthorization.

Module RecoveryRevocation.
Record t := mk {
  version : u8;
  root_endpoint_id : list u8;
  recovery_endpoint_id : list u8;
  recovery_public_key : list u8;
  subject : RevocationSubject.t;
  sequence : u64;
  issued_at_ms : u64;
  expires_at_ms : u64;
  signature : list u8
}.

#[global] Instance t_eq_dec : EqDecision t.
Proof. solve_decision. Defined.

Definition signed_bytes (r : t) : list u8 :=
  let '(tag, subject_bytes) := RevocationSubject.tag_and_bytes r.(subject) in
  [r.(version)] ++ r.(root_endpoint_id) ++ r.(recovery_endpoint_id) ++ r.(recovery_public_key) ++ [tag] ++ subject_bytes ++
  to_be_bytes 8 r.(sequence) ++ to_be_bytes 8 r.(issued_at_ms) ++ to_be_bytes 8 r.(expires_at_ms).

Definition validate_structure (r : t) : Result RecoveryError.t unit :=
  if negb (r.(version) =? REVOCATION_VERSION) then Err RecoveryError.Version
  else if zero_id r.(root_endpoint_id) || zero_id r.(recovery_endpoint_id) || zero_id r.(recovery_public_key)
  then Err RecoveryError.InvalidKey
  else if RevocationSubject.bad_prefix (RevocationSubject.tag_and_bytes r.(subject)).2 then Err RecoveryError.InvalidSubject
  else if negb (r.(expires_at_ms) =? 0) && (r.(expires_at_ms) <=? r.(issued_at_ms)) then Err RecoveryError.InvalidValidity
  else Ok tt.

Definition to_bytes (r : t) : Result RecoveryError.t (list u8) :=
  _ ← validate_structure r;
  let out := signed_bytes r ++ r.(signature) in
  if 256 <? len out then Err RecoveryError.Oversized else Ok out.

Definition fields : DecOf RecoveryError.t t :=
  let truncated := RecoveryError.Truncated in
  version ← read_byte truncated;
  root_endpoint_id ← read_slice_or truncated 32;
  recovery_endpoint_id ← read_slice_or truncated 32;
  recovery_public_key ← read_slice_or truncated 32;
  tag ← read_byte truncated;
  subject_bytes ← read_slice_or truncated (if tag =? 1 then 40 else 32);
  subject ← lift (map_err (fun _ => RecoveryError.InvalidSubject) (RevocationSubject.from_parts tag subject_bytes));
  sequence ← read_be truncated 8;
  issued_at_ms ← read_be truncated 8;
  expires_at_ms ← read_be truncated 8;
  signature ← read_slice_or truncated 64;
  mret (mk version root_endpoint_id recovery_endpoint_id recovery_public_key subject sequence issued_at_ms
          expires_at_ms signature).

Definition from_bytes (bytes : list u8) : Result RecoveryError.t t :=
  if 256 <? len bytes then Err RecoveryError.Oversized
  else
    statement ← all_of fields RecoveryError.TrailingBytes bytes;
    _ ← validate_structure statement;
    Ok statement.

Section Signatures.
Context `{Primitives, Curves}.

Definition signed_message (r : t) : list u8 := digest (bstr "UMP-RECOVERY-REVOKE-v1") (signed_bytes r).

Definition sign (recovery : IdentityKeyPair.t) (root_endpoint_id : list u8) (subject : RevocationSubject.t)
    (sequence issued_at_ms expires_at_ms : u64) : Result RecoveryError.t t :=
  let statement :=
    mk REVOCATION_VERSION root_endpoint_id (endpoint_id (IdentityKeyPair.public recovery))
       (IdentityKeyPair.public recovery) subject sequence issued_at_ms expires_at_ms in
  _ ← validate_structure (statement (zeros 64));
  Ok (statement (IdentityKeyPair.sign recovery (signed_message (statement (zeros 64))))).

Definition validate (r : t) (authority : RecoveryAuthorization.t) (root_public_key : list u8) (now_ms : u64)
    : Result RecoveryError.t unit :=
  _ ← RecoveryAuthorization.verify_signature authority root_public_key;
  _ ← validate_structure r;
  if negb (bool_decide (r.(root_endpoint_id) = authority.(RecoveryAuthorization.root_endpoint_id))) ||
     negb (bool_decide (r.(recovery_public_key) = authority.(RecoveryAuthorization.recovery_public_key))) ||
     negb (bool_decide (r.(recovery_endpoint_id) = endpoint_id r.(recovery_public_key)))
  then Err RecoveryError.Unauthorized
  else if negb (RecoveryAuthorization.allows authority (RevocationSubject.class r.(subject)))
  then Err RecoveryError.Unauthorized
  else if (r.(issued_at_ms) <? authority.(RecoveryAuthorization.issued_at_ms)) ||
          (negb (authority.(RecoveryAuthorization.expires_at_ms) =? 0) &&
           (authority.(RecoveryAuthorization.expires_at_ms) <=? r.(issued_at_ms)))
  then Err RecoveryError.Unauthorized
  else if negb (identity_verify r.(recovery_public_key) (signed_message r) r.(signature))
  then Err RecoveryError.BadSignature
  else validate_window r.(issued_at_ms) r.(expires_at_ms) now_ms.

End Signatures.

Definition sized (r : t) : Prop :=
  r.(version) <= u8_max /\ len r.(root_endpoint_id) = 32 /\ len r.(recovery_endpoint_id) = 32 /\
  len r.(recovery_public_key) = 32 /\ RevocationSubject.sized r.(subject) /\ r.(sequence) <= u64_max /\
  r.(issued_at_ms) <= u64_max /\ r.(expires_at_ms) <= u64_max /\ len r.(signature) = 64.

End RecoveryRevocation.

(** ** The store of recovery records *)

Definition subject_matches_binding (subject : RevocationSubject.t) (binding : IdentityBinding.t) : bool :=
  match subject with
  | RevocationSubject.Identity endpoint => bool_decide (endpoint = binding.(IdentityBinding.endpoint_id))
  | RevocationSubject.Binding endpoint_id binding_sequence =>
      bool_decide (endpoint_id = binding.(IdentityBinding.endpoint_id)) &&
      (binding.(IdentityBinding.sequence) <=? binding_sequence)
  | _ => false
  end.

Definition same_subject (left right : RecoveryRevocation.t) : bool :=
  bool_decide (left.(RecoveryRevocation.root_endpoint_id) = right.(RecoveryRevocation.root_endpoint_id)) &&
  bool_decide (left.(RecoveryRevocation.recovery_endpoint_id) = right.(RecoveryRevocation.recovery_endpoint_id)) &&
  bool_decide (left.(RecoveryRevocation.subject) = right.(RecoveryRevocation.subject)).

Definition authority_key (root recovery : list u8) : list u8 := AUTH_PREFIX ++ root ++ recovery.

Definition recovery_revocation_key (statement : RecoveryRevocation.t) : list u8 :=
  REVOCATION_PREFIX ++ statement.(RecoveryRevocation.root_endpoint_id) ++
  statement.(RecoveryRevocation.recovery_endpoint_id) ++ RecoveryRevocation.signed_bytes statement.

Definition decode_authority_record (value : list u8) : Result RecoveryError.t RecoveryAuthorization.t :=
  rest ← ok_or RecoveryError.Truncated (get_from value 32);
  RecoveryAuthorization.from_bytes rest.

(** [90 + SIGNATURE_LEN] *)
Definition AUTHORITY_LEN : usize := 154.

(** A record's three parts as [check] takes them apart. *)
Definition split_record (value : list u8) : Result RecoveryError.t (list u8 * list u8 * list u8) :=
  root ← ok_or RecoveryError.Truncated (get_range value 0 32);
  rest ← ok_or RecoveryError.Truncated (get_from value 32);
  authority ← ok_or RecoveryError.Truncated (get_range rest 0 AUTHORITY_LEN);
  statement ← ok_or RecoveryError.Truncated (get_from value (32 + AUTHORITY_LEN));
  Ok (root, authority, statement).

(** [push_len_bytes] *)
Definition len_bytes (bytes : list u8) : Result RecoveryError.t (list u8) :=
  length ← be16_or RecoveryError.Oversized (len bytes);
  Ok (length ++ bytes).

Definition read_len_bytes : DecOf RecoveryError.t (list u8) :=
  length ← read_be RecoveryError.Truncated 2;
  read_slice_or RecoveryError.Truncated length.

Module RecoveryStore.
Section Ops.
Context {St : Type} `{Store St} `{Primitives, Curves}.

Definition scan (s : St) : Result RecoveryError.t (list Record_) :=
  map_err RecoveryError.Storage (store_scan s Namespace.Trust).

Definition lookup (s : St) (key : list u8) : Result RecoveryError.t (option (list u8)) :=
  map_err RecoveryError.Storage (store_get s Namespace.Trust key).

(** [None] when the authority is already on record. *)
Definition prepare_authority (s : St) (authority : RecoveryAuthorization.t) (root_public_key : list u8) (now_ms : u64)
    : Result RecoveryError.t (option (list u8)) :=
  _ ← RecoveryAuthorization.validate authority root_public_key now_ms;
  encoded_authority ← RecoveryAuthorization.to_bytes authority;
  found ← lookup s (authority_key authority.(RecoveryAuthorization.root_endpoint_id)
                      authority.(RecoveryAuthorization.recovery_public_key));
  match found with
  | Some existing =>
      existing ← decode_authority_record existing;
      if authority.(RecoveryAuthorization.sequence) <=? existing.(RecoveryAuthorization.sequence) then
        if bool_decide (existing = authority) then Ok None else Err RecoveryError.SequenceRegressed
      else Ok (Some (root_public_key ++ encoded_authority))
  | None => Ok (Some (root_public_key ++ encoded_authority))
  end.

Definition provision (s : St) (authority : RecoveryAuthorization.t) (root_public_key : list u8) (now_ms : u64)
    : Result RecoveryError.t unit * St :=
  match prepare_authority s authority root_public_key now_ms with
  | Err e => (Err e, s)
  | Ok None => (Ok tt, s)
  | Ok (Some value) =>
      after_write RecoveryError.Storage tt
        (store_put s Namespace.Trust (authority_key authority.(RecoveryAuthorization.root_endpoint_id)
                                        authority.(RecoveryAuthorization.recovery_public_key)) value)
  end.

(** The loop over the records of [accept_revocation]; [Ok true] when the
    statement is already on record. *)
Fixpoint already_accepted (entries : list Record_) (statement : RecoveryRevocation.t) : Result RecoveryError.t bool :=
  match entries with
  | [] => Ok false
  | (key, value) :: entries =>
      if negb (starts_with REVOCATION_PREFIX key) then already_accepted entries statement
      else
        rest ← ok_or RecoveryError.Truncated (get_from value 32);
        existing ← RecoveryRevocation.from_bytes rest;
        if same_subject existing statement &&
           (statement.(RecoveryRevocation.sequence) <=? existing.(RecoveryRevocation.sequence)) then
          if bool_decide (existing = statement) then Ok true else Err RecoveryError.SequenceRegressed
        else already_accepted entries statement
  end.

Definition prepare_revocation (s : St) (statement : RecoveryRevocation.t) (authority : RecoveryAuthorization.t)
    (root_public_key : list u8) (now_ms : u64) : Result RecoveryError.t (option (list u8)) :=
  _ ← RecoveryRevocation.validate statement authority root_public_key now_ms;
  encoded_statement ← RecoveryRevocation.to_bytes statement;
  entries ← scan s;
  found ← already_accepted entries statement;
  if (found : bool) then Ok None
  else
    encoded_authority ← RecoveryAuthorization.to_bytes authority;
    Ok (Some (root_public_key ++ encoded_authority ++ encoded_statement)).

Definition accept_revocation (s : St) (statement : RecoveryRevocation.t) (authority : RecoveryAuthorization.t)
    (root_public_key : list u8) (now_ms : u64) : Result RecoveryError.t unit * St :=
  match prepare_revocation s statement authority root_public_key now_ms with
  | Err e => (Err e, s)
  | Ok None => (Ok tt, s)
  | Ok (Some value) =>
      after_write RecoveryError.Storage tt (store_put s Namespace.Trust (recovery_revocation_key statement) value)
  end.

(** One record of [check]: nothing to say, or the error to leave with. *)
Definition check_record (s : St) (value : list u8) (binding : IdentityBinding.t) (now_ms : u64)
    : Result RecoveryError.t unit :=
  '(root_public_key, authority, statement) ← split_record value;
  authority ← RecoveryAuthorization.from_bytes authority;
  statement ← RecoveryRevocation.from_bytes statement;
  current ← lookup s (authority_key authority.(RecoveryAuthorization.root_endpoint_id)
                        authority.(RecoveryAuthorization.recovery_public_key));
  superseded ← (match current with
                | Some current =>
                    current ← decode_authority_record current;
                    Ok (negb (bool_decide (current = authority)))
                | None => Ok false
                end);
  if (superseded : bool) then Ok tt
  else
    _ ← RecoveryRevocation.validate statement authority root_public_key now_ms;
    if subject_matches_binding statement.(RecoveryRevocation.subject) binding then Err RecoveryError.Revoked else Ok tt.

Fixpoint check_records (s : St) (entries : list Record_) (binding : IdentityBinding.t) (now_ms : u64)
    : Result RecoveryError.t unit :=
  match entries with
  | [] => Ok tt
  | (key, value) :: entries =>
      if negb (starts_with REVOCATION_PREFIX key) then check_records s entries binding now_ms
      else
        _ ← check_record s value binding now_ms;
        check_records s entries binding now_ms
  end.

Definition check (s : St) (binding : IdentityBinding.t) (now_ms : u64) : Result RecoveryError.t unit :=
  entries ← scan s;
  check_records s entries binding now_ms.

(** The items of a batch, up to the limit; [taken] have been collected. *)
Fixpoint export_items (entries : list Record_) (taken : usize) : Result RecoveryError.t (list (list u8)) :=
  match entries with
  | [] => Ok []
  | (key, value) :: entries =>
      if negb (starts_with REVOCATION_PREFIX key) then export_items entries taken
      else
        '(root, authority, revocation) ← split_record value;
        authority ← len_bytes authority;
        revocation ← len_bytes revocation;
        let item := root ++ authority ++ revocation in
        if taken + 1 =? MAX_BATCH_ENTRIES then Ok [item]
        else
          items ← export_items entries (taken + 1);
          Ok (item :: items)
  end.

Fixpoint append_items (items : list (list u8)) (out : list u8) : Result RecoveryError.t (list u8) :=
  match items with
  | [] => Ok out
  | item :: items =>
      if MAX_BATCH_BYTES <? len (out ++ item) then Err RecoveryError.Oversized else append_items items (out ++ item)
  end.

Definition export_batch (s : St) : Result RecoveryError.t (list u8) :=
  entries ← scan s;
  items ← export_items entries 0;
  count ← be16_or RecoveryError.Oversized (len items);
  append_items items (bstr "RC" ++ [BATCH_VERSION] ++ count).

Definition read_item : DecOf RecoveryError.t (list u8 * RecoveryAuthorization.t * RecoveryRevocation.t) :=
  root ← read_slice_or RecoveryError.Truncated 32;
  authority ← read_len_bytes;
  authority ← lift (RecoveryAuthorization.from_bytes authority);
  statement ← read_len_bytes;
  statement ← lift (RecoveryRevocation.from_bytes statement);
  mret (root, authority, statement).

(** A stored statement about the same subject, not older and not the same. *)
Definition conflicts (statement : RecoveryRevocation.t) (entry : Record_) : bool :=
  let '(key, value) := entry in
  starts_with REVOCATION_PREFIX key &&
  match get_from value (32 + AUTHORITY_LEN) with
  | Some bytes =>
      match RecoveryRevocation.from_bytes bytes with
      | Ok existing =>
          same_subject existing statement &&
          (statement.(RecoveryRevocation.sequence) <=? existing.(RecoveryRevocation.sequence)) &&
          negb (bool_decide (RecoveryRevocation.signed_bytes existing = RecoveryRevocation.signed_bytes statement))
      | Err _ => false
      end
  | None => false
  end.

Fixpoint check_items (s : St) (items : list (list u8 * RecoveryAuthorization.t * RecoveryRevocation.t)) (now_ms : u64)
    : Result RecoveryError.t unit :=
  match items with
  | [] => Ok tt
  | (root, authority, statement) :: items =>
      _ ← RecoveryAuthorization.verify_signature authority root;
      _ ← RecoveryRevocation.validate statement authority root now_ms;
      entries ← scan s;
      if existsb (conflicts statement) entries then Err RecoveryError.SequenceRegressed else check_items s items now_ms
  end.

Fixpoint commit_items (s : St) (items : list (list u8 * RecoveryAuthorization.t * RecoveryRevocation.t)) (now_ms : u64)
    : Result RecoveryError.t unit * St :=
  match items with
  | [] => (Ok tt, s)
  | (root, authority, statement) :: items =>
      match accept_revocation s statement authority root now_ms with
      | (Err e, s) => (Err e, s)
      | (Ok _, s) => commit_items s items now_ms
      end
  end.

Definition decode_batch (bytes : list u8) : Result RecoveryError.t (list (list u8 * RecoveryAuthorization.t * RecoveryRevocation.t)) :=
  if (MAX_BATCH_BYTES <? len bytes) || negb (bool_decide (get_range bytes 0 3 = Some (bstr "RC" ++ [1])))
  then Err RecoveryError.Oversized
  else
    count ← ok_or RecoveryError.Truncated (get_range bytes 3 5);
    let count := from_be_bytes count in
    if MAX_BATCH_ENTRIES <? count then Err RecoveryError.Oversized
    else
      '(decoded, offset) ← read_n (N.to_nat count) read_item bytes 5;
      if negb (offset =? len bytes) then Err RecoveryError.TrailingBytes else Ok decoded.

Definition accept_batch (s : St) (bytes : list u8) (now_ms : u64) : Result RecoveryError.t usize * St :=
  match (decoded ← decode_batch bytes; _ ← check_items s decoded now_ms; Ok decoded) with
  | Err e => (Err e, s)
  | Ok decoded =>
      match commit_items s decoded now_ms with
      | (Err e, s) => (Err e, s)
      | (Ok _, s) => (Ok (len decoded), s)
      end
  end.

End Ops.
End RecoveryStore.

(** ** Records are read back *)

#[local] Arguments to_be_bytes : simpl never.

Lemma authorization_reads a :
  RecoveryAuthorization.sized a ->
  reads RecoveryAuthorization.fields (RecoveryAuthorization.signed_bytes a ++ a.(RecoveryAuthorization.signature)) a.
Proof.
  intros (Hv & Hr & Hk & Hc & Hq & Hi & Hx & Hg). unfold RecoveryAuthorization.signed_bytes. rewrite <- !app_assoc.
  unfold RecoveryAuthorization.fields. eapply reads_bind; [apply reads_byte|]. do 2 (eapply reads_bind; [by apply reads_slice_or|]).
  eapply reads_bind; [apply reads_byte|]. do 3 (eapply reads_bind; [by apply (reads_be _ 8), u64_pow|]).
  rewrite <- (app_nil_r a.(RecoveryAuthorization.signature)).
  eapply reads_bind; [by apply reads_slice_or|]. destruct a; apply reads_ret.
Qed.

Lemma len_authorization a :
  RecoveryAuthorization.sized a -> len (RecoveryAuthorization.signed_bytes a ++ a.(RecoveryAuthorization.signature)) = AUTHORITY_LEN.
Proof.
  intros (_ & Hr & Hk & _ & _ & _ & _ & Hg). unfold RecoveryAuthorization.signed_bytes, AUTHORITY_LEN. autorewrite with umc. lia.
Qed.

Lemma authorization_from_to a bytes :
  RecoveryAuthorization.sized a -> RecoveryAuthorization.to_bytes a = Ok bytes ->
  len bytes = AUTHORITY_LEN /\ RecoveryAuthorization.from_bytes bytes = Ok a.
Proof.
  intros Ha ([] & Hs & <-%(inj Ok))%bind_Ok. pose proof (len_authorization a Ha) as Hl. split; [done|].
  unfold RecoveryAuthorization.from_bytes. rewrite Hl. change (256 <? AUTHORITY_LEN) with false.
  rewrite (all_of_reads _ _ _ a) by (first [by apply authorization_reads|by rewrite Hl]).
  cbn [mbind Result_bind]. by rewrite Hs.
Qed.

Lemma recovery_structure r :
  RecoveryRevocation.validate_structure r = Ok tt ->
  RevocationSubject.bad_prefix (RevocationSubject.tag_and_bytes r.(RecoveryRevocation.subject)).2 = false.
Proof.
  unfold RecoveryRevocation.validate_structure. destruct (negb _); [done|]. destruct (_ || _ || _); [done|].
  by destruct (RevocationSubject.bad_prefix _).
Qed.

Lemma recovery_reads r :
  RecoveryRevocation.sized r -> RecoveryRevocation.validate_structure r = Ok tt ->
  reads RecoveryRevocation.fields (RecoveryRevocation.signed_bytes r ++ r.(RecoveryRevocation.signature)) r.
Proof.
  intros (Hv & Hr & He & Hk & Hs & Hq & Hi & Hx & Hg) Hz%recovery_structure. destruct (subject_parts _ Hs) as [Hp Hl].
  rewrite Hz in Hp. unfold RecoveryRevocation.signed_bytes. destruct (RevocationSubject.tag_and_bytes _) as [tag bytes].
  cbn [fst snd] in *. rewrite <- !app_assoc. unfold RecoveryRevocation.fields.
  eapply reads_bind; [apply reads_byte|]. do 3 (eapply reads_bind; [by apply reads_slice_or|]).
  eapply reads_bind; [apply reads_byte|]. eapply reads_bind; [by apply reads_slice_or|].
  eapply reads_bind_nil; [apply reads_lift; by rewrite Hp|].
  do 3 (eapply reads_bind; [by apply (reads_be _ 8), u64_pow|]). rewrite <- (app_nil_r r.(RecoveryRevocation.signature)).
  eapply reads_bind; [by apply reads_slice_or|]. destruct r; apply reads_ret.
Qed.

Lemma recovery_from_to r bytes :
  RecoveryRevocation.sized r -> RecoveryRevocation.to_bytes r = Ok bytes ->
  218 <= len bytes /\ RecoveryRevocation.from_bytes bytes = Ok r.
Proof.
  intros Hr ([] & Hs & H)%bind_Ok. cbv zeta in H.
  destruct (N.ltb_spec 256 (len (RecoveryRevocation.signed_bytes r ++ r.(RecoveryRevocation.signature))));
    [done|]. apply (inj Ok) in H as <-. split.
  - destruct Hr as (_ & H1 & H2 & H3 & Hsub & _ & _ & _ & H4). destruct (subject_parts _ Hsub) as [_ Hl].
    unfold RecoveryRevocation.signed_bytes. destruct (RevocationSubject.tag_and_bytes _) as [tag sb]. cbn [fst snd] in Hl.
    autorewrite with umc. destruct (tag =? _); lia.
  - unfold RecoveryRevocation.from_bytes. rewrite (proj2 (N.ltb_ge _ _)) by done.
    rewrite (all_of_reads _ _ _ r) by (first [by apply recovery_reads|unfold usize_max, u64_max; lia]).
    cbn [mbind Result_bind]. by rewrite Hs.
Qed.

Section Recovery.
Context {St : Type} `{HS : Store St} {HSL : StoreLaws St} `{HP : Primitives} `{HC : Curves}.

(** A record as [accept_revocation] writes it. *)
Definition recovery_record (root : list u8) (authority : RecoveryAuthorization.t) (statement : RecoveryRevocation.t) : list u8 :=
  root ++ (RecoveryAuthorization.signed_bytes authority ++ authority.(RecoveryAuthorization.signature)) ++
  (RecoveryRevocation.signed_bytes statement ++ statement.(RecoveryRevocation.signature)).

Lemma split_recovery_record root authority statement :
  len root = 32 -> RecoveryAuthorization.sized authority ->
  split_record (recovery_record root authority statement) =
    Ok (root, RecoveryAuthorization.signed_bytes authority ++ authority.(RecoveryAuthorization.signature),
        RecoveryRevocation.signed_bytes statement ++ statement.(RecoveryRevocation.signature)).
Proof.
  intros Hr Ha. pose proof (len_authorization _ Ha) as Hl. unfold split_record, recovery_record.
  set (a := RecoveryAuthorization.signed_bytes authority ++ _) in *. set (t := RecoveryRevocation.signed_bytes statement ++ _) in *.
  rewrite (get_range_is _ [] root (a ++ t)) by (done || lia). cbn [ok_or mbind Result_bind].
  rewrite (get_from_at _ root (a ++ t) 32) by (done || lia). cbn [ok_or mbind Result_bind].
  rewrite (get_range_is _ [] a t) by (done || lia). cbn [ok_or mbind Result_bind].
  rewrite (get_from_at _ (root ++ a) t) by (rewrite ?app_assoc, ?len_app; done || lia). done.
Qed.

(** What acceptance leaves behind: nothing new, or one record more. *)
Lemma accept_revocation_stored s statement authority root now s' :
  RecoveryStore.accept_revocation s statement authority root now = (Ok tt, s') ->
  (exists entries, store_scan s Namespace.Trust = Ok entries /\
     RecoveryStore.already_accepted entries statement = Ok true /\ s' = s) \/
  (contents s' Namespace.Trust =
     <[recovery_revocation_key statement := recovery_record root authority statement]> (contents s Namespace.Trust) /\
   RecoveryRevocation.validate statement authority root now = Ok tt /\
   RecoveryRevocation.to_bytes statement =
     Ok (RecoveryRevocation.signed_bytes statement ++ statement.(RecoveryRevocation.signature)) /\
   RecoveryAuthorization.to_bytes authority =
     Ok (RecoveryAuthorization.signed_bytes authority ++ authority.(RecoveryAuthorization.signature))).
Proof.
  unfold RecoveryStore.accept_revocation. intros H.
  destruct (RecoveryStore.prepare_revocation s statement authority root now) as [[value|]|e] eqn:E; [| |done].
  - right. unfold after_write in H. destruct (store_put s Namespace.Trust _ value) as [[[]|] s1] eqn:Ep; [|done].
    cbn in H. injection H as <-. apply put_same in Ep.
    apply bind_Ok in E as ([] & Ev & E). apply bind_Ok in E as (bytes & Eb & E). apply bind_Ok in E as (entries & _ & E).
    apply bind_Ok in E as (found & _ & E). destruct found; [done|]. apply bind_Ok in E as (ab & Ea & [= <-]).
    assert (Hb := Eb). apply bind_Ok in Hb as ([] & _ & Hb). cbv zeta in Hb. destruct (256 <? _); [done|]. apply (inj Ok) in Hb as <-.
    assert (Hab := Ea). apply bind_Ok in Hab as ([] & _ & <-%(inj Ok)). done.
  - left. injection H as <-. apply bind_Ok in E as ([] & _ & E). apply bind_Ok in E as (bytes & _ & E).
    apply bind_Ok in E as (entries & Hs%map_err_Ok & E). apply bind_Ok in E as (found & Hf & E). exists entries.
    destruct found; [done|]. by apply bind_Ok in E as (ab & _ & ?).
Qed.

Definition is_recovery (key : list u8) : Prop := starts_with REVOCATION_PREFIX key = true.

(** Every record under the prefix is longer than a bare statement may be. *)
Definition long_records (s : St) : Prop :=
  forall k v, contents s Namespace.Trust !! k = Some v -> is_recovery k -> 288 < len v.

Lemma is_recovery_key statement : is_recovery (recovery_revocation_key statement).
Proof. unfold is_recovery, starts_with, recovery_revocation_key. by rewrite take_app_length, bool_decide_eq_true_2. Qed.

Lemma recovery_record_long root authority statement :
  len root = 32 -> RecoveryAuthorization.sized authority -> RecoveryRevocation.sized statement ->
  RecoveryRevocation.to_bytes statement =
     Ok (RecoveryRevocation.signed_bytes statement ++ statement.(RecoveryRevocation.signature)) ->
  288 < len (recovery_record root authority statement).
Proof.
  intros Hr Ha Hs Hb. destruct (recovery_from_to _ _ Hs Hb) as [Hl _]. unfold recovery_record.
  rewrite len_app, len_app, Hr, (len_authorization _ Ha). unfold AUTHORITY_LEN. lia.
Qed.

(** With one long record in the way no statement is found acceptable. *)
Lemma long_record_refuses entries statement :
  (forall k v, (k, v) ∈ entries -> is_recovery k -> 288 < len v) ->
  (exists k v, (k, v) ∈ entries /\ is_recovery k) ->
  RecoveryStore.already_accepted entries statement = Err RecoveryError.Oversized.
Proof.
  intros Hl (k0 & v0 & Hin & Hr). induction entries as [|[k v] entries IH]; [by apply elem_of_nil in Hin|].
  cbn [RecoveryStore.already_accepted]. destruct (starts_with REVOCATION_PREFIX k) eqn:E; cbn [negb].
  - pose proof (Hl k v ltac:(left) E) as Hlv. unfold get_from. rewrite (proj2 (N.leb_le _ _)) by lia. cbn [ok_or mbind Result_bind].
    unfold RecoveryRevocation.from_bytes. by rewrite (proj2 (N.ltb_lt _ _)) by (rewrite len_from; lia).
  - apply IH.
    + intros k' v' Hin'. apply Hl. by right.
    + apply elem_of_cons in Hin as [[= -> ->]|Hin]; [|done]. unfold is_recovery in Hr. congruence.
Qed.

Lemma accept_refused s statement authority root now :
  long_records s -> (exists k v, contents s Namespace.Trust !! k = Some v /\ is_recovery k) ->
  exists e, RecoveryStore.accept_revocation s statement authority root now = (Err e, s).
Proof.
  intros Hl (k & v & Hk & Hr). unfold RecoveryStore.accept_revocation, RecoveryStore.prepare_revocation.
  destruct (RecoveryRevocation.validate _ _ _ _); cbn [mbind Result_bind]; [|by eexists].
  destruct (RecoveryRevocation.to_bytes _); cbn [mbind Result_bind]; [|by eexists].
  unfold RecoveryStore.scan. destruct (store_scan s Namespace.Trust) as [entries|] eqn:Es; cbn [map_err mbind Result_bind]; [|by eexists].
  rewrite long_record_refuses; [by eexists| |].
  - intros k' v' Hin. apply Hl. by apply (scan_elem _ _ _ _ _ Es).
  - exists k, v. split; [by apply (scan_elem _ _ _ _ _ Es)|done].
Qed.

(** Calls one after the other. *)
Record revocation_call := RCall {
  rc_statement : RecoveryRevocation.t;
  rc_authority : RecoveryAuthorization.t;
  rc_root : list u8;
  rc_now : u64
}.

Definition rcall_sized (c : revocation_call) : Prop :=
  len c.(rc_root) = 32 /\ RecoveryAuthorization.sized c.(rc_authority) /\ RecoveryRevocation.sized c.(rc_statement).

Fixpoint accept_revocations (s : St) (calls : list revocation_call) : list bool * St :=
  match calls with
  | [] => ([], s)
  | c :: calls =>
      let '(r, s1) := RecoveryStore.accept_revocation s c.(rc_statement) c.(rc_authority) c.(rc_root) c.(rc_now) in
      let '(rs, s2) := accept_revocations s1 calls in
      (is_ok r :: rs, s2)
  end.

Lemma all_refused s calls :
  long_records s -> (exists k v, contents s Namespace.Trust !! k = Some v /\ is_recovery k) ->
  Forall (fun r => r = false) (accept_revocations s calls).1.
Proof.
  intros Hl He. induction calls as [|c calls IH]; cbn [accept_revocations]; [constructor|].
  destruct (accept_refused s c.(rc_statement) c.(rc_authority) c.(rc_root) c.(rc_now) Hl He) as [e ->].
  destruct (accept_revocations s calls) as [rs s2]. by constructor.
Qed.

Lemma none_accepted entries statement :
  (forall k v, (k, v) ∈ entries -> ~ is_recovery k) -> RecoveryStore.already_accepted entries statement = Ok false.
Proof.
  induction entries as [|[k v] entries IH]; intros Hn; cbn [RecoveryStore.already_accepted]; [done|].
  destruct (starts_with REVOCATION_PREFIX k) eqn:E; [exfalso; by apply (Hn k v ltac:(left))|].
  apply IH. intros k' v' Hin. apply (Hn k' v'). by right.
Qed.

Lemma accept_failed s statement authority root now e s' :
  RecoveryStore.accept_revocation s statement authority root now = (Err e, s') ->
  contents s' Namespace.Trust = contents s Namespace.Trust.
Proof.
  unfold RecoveryStore.accept_revocation.
  destruct (RecoveryStore.prepare_revocation s statement authority root now) as [[value|]|]; [|done|by intros [= _ <-]].
  unfold after_write. destruct (store_put s Namespace.Trust _ value) as [[[]|] s1] eqn:E; [done|].
  intros [= _ <-]. by apply (put_failed _ _ _ _ _ _ Namespace.Trust) in E.
Qed.

(** A check that passes has passed every record. *)
Lemma recovery_check_passes s binding now k v :
  RecoveryStore.check s binding now = Ok tt -> contents s Namespace.Trust !! k = Some v -> is_recovery k ->
  RecoveryStore.check_record s v binding now = Ok tt.
Proof.
  intros (entries & Hs%map_err_Ok & H)%bind_Ok Hk Hr. apply (scan_elem _ _ _ k v Hs) in Hk. clear Hs.
  induction entries as [|[k' v'] entries IH]; [by apply elem_of_nil in Hk|]. cbn [RecoveryStore.check_records] in H.
  apply elem_of_cons in Hk as [[= <- <-]|Hk].
  - unfold is_recovery in Hr. rewrite Hr in H. cbn [negb] in H. by apply bind_Ok in H as ([] & ? & _).
  - destruct (starts_with REVOCATION_PREFIX k'); cbn [negb] in H; [|by apply IH]. apply bind_Ok in H as (_ & _ & H). by apply IH.
Qed.

(** The check of a record whose authority is the current one. *)
Lemma check_record_current s root authority statement binding now :
  len root = 32 -> RecoveryAuthorization.sized authority -> RecoveryRevocation.sized statement ->
  RecoveryRevocation.to_bytes statement =
     Ok (RecoveryRevocation.signed_bytes statement ++ statement.(RecoveryRevocation.signature)) ->
  RecoveryAuthorization.to_bytes authority =
     Ok (RecoveryAuthorization.signed_bytes authority ++ authority.(RecoveryAuthorization.signature)) ->
  (forall v, contents s Namespace.Trust !! authority_key authority.(RecoveryAuthorization.root_endpoint_id)
                                             authority.(RecoveryAuthorization.recovery_public_key) = Some v ->
     decode_authority_record v = Ok authority) ->
  RecoveryStore.check_record s (recovery_record root authority statement) binding now = Ok tt ->
  RecoveryRevocation.validate statement authority root now = Ok tt /\
  subject_matches_binding statement.(RecoveryRevocation.subject) binding = false.
Proof.
  intros Hr Ha Hs Hbs Hba Hcur. destruct (recovery_from_to _ _ Hs Hbs) as [_ Hfs].
  destruct (authorization_from_to _ _ Ha Hba) as [_ Hfa]. unfold RecoveryStore.check_record.
  rewrite split_recovery_record by done. cbn [mbind Result_bind]. rewrite Hfa. cbn [mbind Result_bind]. rewrite Hfs.
  cbn [mbind Result_bind]. intros (current & Hl%map_err_Ok%get_contents & H)%bind_Ok.
  apply bind_Ok in H as (sup & Hsup & H). assert (sup = false) as ->.
  { destruct current as [v|]; [|by apply (inj Ok) in Hsup]. rewrite (Hcur v Hl) in Hsup. cbn [mbind Result_bind] in Hsup.
    by rewrite bool_decide_eq_true_2 in Hsup by done; apply (inj Ok) in Hsup. }
  apply bind_Ok in H as ([] & Hv & H). by destruct (subject_matches_binding _ _).
Qed.

(** The check of a record whose authority has been replaced. *)
Lemma check_record_superseded s root authority statement binding now v current :
  len root = 32 -> RecoveryAuthorization.sized authority -> RecoveryRevocation.sized statement ->
  RecoveryRevocation.to_bytes statement =
     Ok (RecoveryRevocation.signed_bytes statement ++ statement.(RecoveryRevocation.signature)) ->
  RecoveryAuthorization.to_bytes authority =
     Ok (RecoveryAuthorization.signed_bytes authority ++ authority.(RecoveryAuthorization.signature)) ->
  contents s Namespace.Trust !! authority_key authority.(RecoveryAuthorization.root_endpoint_id)
                                  authority.(RecoveryAuthorization.recovery_public_key) = Some v ->
  decode_authority_record v = Ok current -> current <> authority ->
  match RecoveryStore.check_record s (recovery_record root authority statement) binding now with
  | Ok _ | Err (RecoveryError.Storage _) => True
  | Err _ => False
  end.
Proof.
  intros Hr Ha Hs Hbs Hba Hv Hc Hne. destruct (recovery_from_to _ _ Hs Hbs) as [_ Hfs].
  destruct (authorization_from_to _ _ Ha Hba) as [_ Hfa]. unfold RecoveryStore.check_record.
  rewrite split_recovery_record by done. cbn [mbind Result_bind]. rewrite Hfa. cbn [mbind Result_bind]. rewrite Hfs.
  cbn [mbind Result_bind]. unfold RecoveryStore.lookup.
  destruct (store_get s Namespace.Trust _) as [found|] eqn:Eg; cbn [map_err mbind Result_bind]; [|done].
  apply get_contents in Eg. rewrite Hv in Eg. subst found. rewrite Hc. cbn [mbind Result_bind].
  by rewrite bool_decide_eq_false_2.
Qed.

(** With a single record under the prefix the check is the check of that record. *)
Lemma check_single s binding now k v entries :
  store_scan s Namespace.Trust = Ok entries ->
  contents s Namespace.Trust !! k = Some v -> is_recovery k ->
  (forall k' v', contents s Namespace.Trust !! k' = Some v' -> is_recovery k' -> k' = k) ->
  RecoveryStore.check s binding now = RecoveryStore.check_record s v binding now.
Proof.
  intros Hs Hk Hr Hone. unfold RecoveryStore.check, RecoveryStore.scan. rewrite Hs. cbn [map_err mbind Result_bind].
  assert (Hnd : NoDup (entries.*1)).
  { destruct (scan_contents _ _ _ Hs) as [Hp _]. rewrite Hp. apply NoDup_fst_map_to_list. }
  apply (scan_elem _ _ _ k v Hs) in Hk.
  assert (Hall : forall k' v', (k', v') ∈ entries -> is_recovery k' -> k' = k).
  { intros k' v' Hin. apply (Hone k' v'). by apply (scan_elem _ _ _ _ _ Hs). }
  clear Hs Hone. induction entries as [|[k' v'] entries IH]; [by apply elem_of_nil in Hk|].
  cbn [RecoveryStore.check_records]. rewrite fmap_cons in Hnd. apply list.NoDup_cons in Hnd as [Hn Hnd]. destruct (starts_with REVOCATION_PREFIX k') eqn:E; cbn [negb].
  - assert (k' = k) as -> by (apply (Hall k' v'); [left|done]).
    apply elem_of_cons in Hk as [[= ->]|Hk]; [|destruct Hn; by apply (list_elem_of_fmap_2 fst) in Hk].
    enough (Hrest : RecoveryStore.check_records s entries binding now = Ok tt).
    { destruct (RecoveryStore.check_record s v' binding now) as [[]|]; [exact Hrest|done]. }
    assert (Hnone : forall k0 v0, (k0, v0) ∈ entries -> ~ is_recovery k0).
    { intros k0 v0 Hin H0. assert (k0 = k) as -> by (apply (Hall k0 v0); [by right|done]).
      destruct Hn. by apply (list_elem_of_fmap_2 fst) in Hin. }
    clear -Hnone. induction entries as [|[k0 v0] entries IH]; [done|]. cbn [RecoveryStore.check_records].
    destruct (starts_with REVOCATION_PREFIX k0) eqn:E; cbn [negb]; [destruct (Hnone k0 v0); [left|done]|].
    apply IH. intros k1 v1 Hin. apply (Hnone k1 v1). by right.
  - apply IH; [|done|].
    + apply elem_of_cons in Hk as [[= -> ->]|Hk]; [unfold is_recovery in Hr; congruence|done].
    + intros k0 v0 Hin. apply (Hall k0 v0). by right.
Qed.

(** ** Runs of the store

    What may happen between two calls: a recovery key is authorised, statements
    are taken in one by one or in batches, and anything else is written that is
    not one of the revocations. *)
Inductive recovery_step (s : St) : St -> Prop :=
| step_provision authority root now : recovery_step s (RecoveryStore.provision s authority root now).2
| step_revocation statement authority root now :
    len root = 32 -> RecoveryAuthorization.sized authority -> RecoveryRevocation.sized statement ->
    recovery_step s (RecoveryStore.accept_revocation s statement authority root now).2
| step_batch bytes now : recovery_step s (RecoveryStore.accept_batch s bytes now).2
| step_other s' :
    (forall k, is_recovery k -> contents s' Namespace.Trust !! k = contents s Namespace.Trust !! k) -> recovery_step s s'.

(** The records under the prefix, as calls can leave them. *)
Definition records_ok (s : St) : Prop :=
  long_records s /\
  forall k1 v1 k2 v2, contents s Namespace.Trust !! k1 = Some v1 -> contents s Namespace.Trust !! k2 = Some v2 ->
    is_recovery k1 -> is_recovery k2 -> k1 = k2.

Definition has_record (s : St) : Prop := exists k v, contents s Namespace.Trust !! k = Some v /\ is_recovery k.

(** The records under the prefix are the same. *)
Definition same_records (s s' : St) : Prop :=
  forall k, is_recovery k -> contents s' Namespace.Trust !! k = contents s Namespace.Trust !! k.

Lemma same_records_ok s s' : same_records s s' -> records_ok s -> records_ok s'.
Proof.
  intros Hs [Hl Ho]. split.
  - intros k v Hk Hr. rewrite Hs in Hk by done. by eapply Hl.
  - intros k1 v1 k2 v2 H1 H2 R1 R2. rewrite Hs in H1, H2 by done. by eapply Ho.
Qed.

Lemma provision_records s authority root now : same_records s (RecoveryStore.provision s authority root now).2.
Proof.
  unfold RecoveryStore.provision. destruct (RecoveryStore.prepare_authority s authority root now) as [[value|]|]; try done.
  destruct (store_put s Namespace.Trust _ value) as [r s1] eqn:E. intros k Hk. unfold after_write. destruct r as [[]|]; cbn [snd].
  - rewrite (put_same _ _ _ _ _ E), lookup_insert_ne; [done|]. intros <-. discriminate Hk.
  - by rewrite (put_failed _ _ _ _ _ _ Namespace.Trust E).
Qed.

(** Lengths of what a batch item holds. *)
Definition item_lengths (item : list u8 * RecoveryAuthorization.t * RecoveryRevocation.t) : Prop :=
  let '(root, authority, statement) := item in
  len root = 32 /\
  len (RecoveryAuthorization.signed_bytes authority ++ authority.(RecoveryAuthorization.signature)) = AUTHORITY_LEN /\
  128 <= len (RecoveryRevocation.signed_bytes statement ++ statement.(RecoveryRevocation.signature)).

Lemma accept_records s statement authority root now :
  item_lengths (root, authority, statement) -> records_ok s ->
  let s' := (RecoveryStore.accept_revocation s statement authority root now).2 in
  records_ok s' /\ (has_record s -> same_records s s').
Proof.
  intros (Hr & Ha & Hst) Hok s'. pose proof Hok as [Hl Ho].
  destruct (RecoveryStore.accept_revocation s statement authority root now) as [r s1] eqn:E. simpl in s'. subst s'.
  destruct r as [[]|e].
  2: { assert (Hs : same_records s s1) by (intros k _; by rewrite (accept_failed _ _ _ _ _ _ _ E)).
       split; [by eapply same_records_ok|done]. }
  pose proof (accept_refused s statement authority root now Hl) as Href.
  pose proof (accept_revocation_stored _ _ _ _ _ _ E) as [(entries & _ & _ & ->)|(Hc & _)]; [done|].
  split; [|intros Hh; destruct (Href Hh) as [e Ee]; congruence].
  assert (Hnone : forall k v, contents s Namespace.Trust !! k = Some v -> ~ is_recovery k).
  { intros k v Hk Hrec. destruct Href as [e Ee]; [by exists k, v|congruence]. }
  split.
  - intros k v Hk Hrec. rewrite Hc in Hk. apply lookup_insert_Some in Hk as [[_ <-]|[_ Hk]]; [|by destruct (Hnone _ _ Hk)].
    unfold recovery_record. rewrite len_app, (len_app (RecoveryAuthorization.signed_bytes authority ++ _)), Hr, Ha.
    unfold AUTHORITY_LEN. lia.
  - intros k1 v1 k2 v2 H1 H2 R1 R2. rewrite Hc in H1, H2.
    apply lookup_insert_Some in H1 as [[<- _]|[_ H1]]; [|by destruct (Hnone _ _ H1)].
    apply lookup_insert_Some in H2 as [[<- _]|[_ H2]]; [done|by destruct (Hnone _ _ H2)].
Qed.

Lemma sized_lengths root authority statement :
  len root = 32 -> RecoveryAuthorization.sized authority -> RecoveryRevocation.sized statement ->
  item_lengths (root, authority, statement).
Proof.
  intros Hr Ha (_ & H1 & H2 & H3 & _ & _ & _ & _ & H4). split; [done|]. split; [by apply len_authorization|].
  unfold RecoveryRevocation.signed_bytes. destruct (RevocationSubject.tag_and_bytes _) as [tag sb]. autorewrite with umc. lia.
Qed.

Lemma yields_slice_or {Er} (err : Er) n : yields (read_slice_or err n) (fun v => len v = n).
Proof.
  intros body pos a pos' (hi & H1%ok_or_Ok & H)%bind_Ok. apply bind_Ok in H as (v & H2%ok_or_Ok & [= <- <-]).
  apply checked_add_Some in H1 as [-> _]. apply get_range_Some in H2. lia.
Qed.

Lemma authority_lengths bytes a :
  RecoveryAuthorization.from_bytes bytes = Ok a ->
  len (RecoveryAuthorization.signed_bytes a ++ a.(RecoveryAuthorization.signature)) = AUTHORITY_LEN.
Proof.
  assert (Hy : yields RecoveryAuthorization.fields (fun a =>
    len (RecoveryAuthorization.signed_bytes a ++ a.(RecoveryAuthorization.signature)) = AUTHORITY_LEN)).
  { unfold RecoveryAuthorization.fields. eapply yields_bind; [apply yields_true|]. intros v _.
    do 2 (eapply yields_bind; [apply yields_slice_or|]; intros ? ?). do 4 (eapply yields_bind; [apply yields_true|]; intros ? _).
    eapply yields_bind; [apply yields_slice_or|]; intros sg ?. apply yields_ret.
    unfold RecoveryAuthorization.signed_bytes, AUTHORITY_LEN. cbn [RecoveryAuthorization.version
      RecoveryAuthorization.root_endpoint_id RecoveryAuthorization.recovery_public_key RecoveryAuthorization.allowed_classes
      RecoveryAuthorization.sequence RecoveryAuthorization.issued_at_ms RecoveryAuthorization.expires_at_ms
      RecoveryAuthorization.signature]. autorewrite with umc. cbv beta in *. lia. }
  unfold RecoveryAuthorization.from_bytes. destruct (_ <? _); [done|]. intros (a' & H & H')%bind_Ok.
  apply bind_Ok in H' as (_ & _ & <-%(inj Ok)). unfold all_of in H. apply bind_Ok in H as ([a1 off] & Hd & H).
  destruct (negb _); [done|]. apply (inj Ok) in H as <-. by eapply Hy.
Qed.

Lemma statement_lengths bytes r :
  RecoveryRevocation.from_bytes bytes = Ok r ->
  128 <= len (RecoveryRevocation.signed_bytes r ++ r.(RecoveryRevocation.signature)).
Proof.
  assert (Hy : yields RecoveryRevocation.fields (fun r =>
    128 <= len (RecoveryRevocation.signed_bytes r ++ r.(RecoveryRevocation.signature)))).
  { unfold RecoveryRevocation.fields. eapply yields_bind; [apply yields_true|]. intros v _.
    do 3 (eapply yields_bind; [apply yields_slice_or|]; intros ? ?). do 6 (eapply yields_bind; [apply yields_true|]; intros ? _).
    eapply yields_bind; [apply yields_slice_or|]; intros sg ?. apply yields_ret.
    unfold RecoveryRevocation.signed_bytes. cbn [RecoveryRevocation.version RecoveryRevocation.root_endpoint_id
      RecoveryRevocation.recovery_endpoint_id RecoveryRevocation.recovery_public_key RecoveryRevocation.subject
      RecoveryRevocation.sequence RecoveryRevocation.issued_at_ms RecoveryRevocation.expires_at_ms RecoveryRevocation.signature].
    destruct (RevocationSubject.tag_and_bytes _) as [tag sb]. autorewrite with umc. cbv beta in *. lia. }
  unfold RecoveryRevocation.from_bytes. destruct (_ <? _); [done|]. intros (a' & H & H')%bind_Ok.
  apply bind_Ok in H' as (_ & _ & <-%(inj Ok)). unfold all_of in H. apply bind_Ok in H as ([a1 off] & Hd & H).
  destruct (negb _); [done|]. apply (inj Ok) in H as <-. by eapply Hy.
Qed.

Lemma yields_lift {Er A} (r : Result Er A) : yields (lift r) (fun a => r = Ok a).
Proof. intros body pos a pos' (x & H & [= <- <-])%bind_Ok. done. Qed.

Lemma batch_lengths bytes items : RecoveryStore.decode_batch bytes = Ok items -> Forall item_lengths items.
Proof.
  assert (Hy : yields RecoveryStore.read_item item_lengths).
  { unfold RecoveryStore.read_item. eapply yields_bind; [apply yields_slice_or|]. intros root Hr.
    eapply yields_bind; [apply yields_true|]. intros ab _. eapply yields_bind; [apply yields_lift|]. intros a Ha.
    eapply yields_bind; [apply yields_true|]. intros sb _. eapply yields_bind; [apply yields_lift|]. intros st Hs.
    apply yields_ret. split; [done|]. split; [exact (authority_lengths _ _ Ha)|exact (statement_lengths _ _ Hs)]. }
  unfold RecoveryStore.decode_batch. destruct (_ || _); [done|]. intros (count & _ & H)%bind_Ok. cbv zeta in H.
  destruct (_ <? _); [done|]. apply bind_Ok in H as ([decoded offset] & Hd & H). destruct (negb _); [done|].
  apply (inj Ok) in H as <-. by apply (yields_n _ _ _ Hy) in Hd as [_ ?].
Qed.

Lemma commit_records s items now :
  Forall item_lengths items -> records_ok s ->
  let s' := (RecoveryStore.commit_items s items now).2 in
  records_ok s' /\ (has_record s -> same_records s s').
Proof.
  intros Hi. revert s. induction Hi as [|[[root authority] statement] items Hit Hi IH]; intros s Hok; cbn [RecoveryStore.commit_items]; [done|].
  pose proof (accept_records s statement authority root now Hit Hok) as [Hok1 Hs1].
  destruct (RecoveryStore.accept_revocation s statement authority root now) as [[[]|e] s1]; cbn [snd] in *; [|done].
  destruct (IH s1 Hok1) as [Hok2 Hs2]. split; [done|]. intros Hh. specialize (Hs1 Hh).
  assert (Hh1 : has_record s1).
  { destruct Hh as (k & v & Hk & Hr). exists k, v. by rewrite Hs1. }
  intros k Hk. by rewrite (Hs2 Hh1 k Hk), (Hs1 k Hk).
Qed.

(** No call takes a stored revocation away or adds one to it. *)
Lemma step_records s s' :
  recovery_step s s' -> records_ok s -> records_ok s' /\ (has_record s -> same_records s s').
Proof.
  intros Hstep Hok. destruct Hstep as [authority root now|statement authority root now Hr Ha Hst|bytes now|s' Hs].
  - split; [|intros _; apply provision_records]. eapply same_records_ok; [apply provision_records|done].
  - apply accept_records; [by apply sized_lengths|done].
  - unfold RecoveryStore.accept_batch. destruct (RecoveryStore.decode_batch bytes) as [items|] eqn:Ed; cbn [mbind Result_bind]; [|done].
    destruct (RecoveryStore.check_items s items now) as [[]|]; cbn [mbind Result_bind]; [|done].
    pose proof (commit_records s items now (batch_lengths _ _ Ed) Hok) as H.
    by destruct (RecoveryStore.commit_items s items now) as [[[]|] s1].
  - split; [by eapply same_records_ok|done].
Qed.

Lemma run_records s s' :
  rtc recovery_step s s' -> records_ok s -> records_ok s' /\ (has_record s -> same_records s s').
Proof.
  induction 1 as [s|s s1 s2 Hstep _ IH]; intros Hok; [done|]. destruct (step_records _ _ Hstep Hok) as [Hok1 Hs1].
  destruct (IH Hok1) as [Hok2 Hs2]. split; [done|]. intros Hh. specialize (Hs1 Hh).
  assert (Hh1 : has_record s1) by (destruct Hh as (k & v & Hk & Hr); exists k, v; by rewrite Hs1).
  intros k Hk. by rewrite (Hs2 Hh1 k Hk), (Hs1 k Hk).
Qed.

(** An accepted statement is on record, alone, after whatever calls. *)
Lemma accepted_stays s0 s statement authority root now s' s'' :
  (forall k v, contents s0 Namespace.Trust !! k = Some v -> ~ is_recovery k) -> rtc recovery_step s0 s ->
  len root = 32 -> RecoveryAuthorization.sized authority -> RecoveryRevocation.sized statement ->
  RecoveryStore.accept_revocation s statement authority root now = (Ok tt, s') -> rtc recovery_step s' s'' ->
  contents s'' Namespace.Trust !! recovery_revocation_key statement = Some (recovery_record root authority statement) /\
  (forall k v, contents s'' Namespace.Trust !! k = Some v -> is_recovery k -> k = recovery_revocation_key statement) /\
  RecoveryRevocation.to_bytes statement =
    Ok (RecoveryRevocation.signed_bytes statement ++ statement.(RecoveryRevocation.signature)) /\
  RecoveryAuthorization.to_bytes authority =
    Ok (RecoveryAuthorization.signed_bytes authority ++ authority.(RecoveryAuthorization.signature)).
Proof.
  intros Hnone H1 Hr Ha Hst E H2.
  assert (Hok0 : records_ok s0) by (split; [intros k v Hk Hrec|intros k1 v1 ? ? Hk ? Hrec]; by destruct (Hnone _ _ Hk)).
  destruct (run_records _ _ H1 Hok0) as [Hok _].
  pose proof (accept_records s statement authority root now (sized_lengths _ _ _ Hr Ha Hst) Hok) as [Hok' _]. rewrite E in Hok'. cbn [snd] in Hok'.
  destruct (run_records _ _ H2 Hok') as [[_ Hone] Hsame].
  pose proof (accept_refused s statement authority root now (proj1 Hok)) as Href.
  apply accept_revocation_stored in E as Hcase. destruct Hcase as [(entries & Hsc & Hal & ->)|(Hc & _ & Hbs & Hba)].
  { assert (Hnone1 : forall k v, (k, v) ∈ entries -> ~ is_recovery k).
    { intros k v Hin Hrec. destruct Href as [e Ee]; [|congruence]. exists k, v. split; [by apply (scan_elem _ _ _ _ _ Hsc)|done]. }
    by rewrite none_accepted in Hal. }
  assert (Hh : has_record s').
  { eexists _, _. rewrite Hc, lookup_insert_eq. split; [done|apply is_recovery_key]. }
  assert (Hk : contents s'' Namespace.Trust !! recovery_revocation_key statement = Some (recovery_record root authority statement)).
  { rewrite (Hsame Hh _ (is_recovery_key statement)), Hc. by rewrite lookup_insert_eq. }
  split; [done|]. split; [|done]. intros k v Hkv Hrec. by eapply Hone; [..|apply is_recovery_key].
Qed.

End Recovery.

(** ** Theorems *)

Section Theorems.
Context {St : Type} `{HS : Store St} {HSL : StoreLaws St} `{HP : Primitives} `{HC : Curves}.

(** C21: What becomes of an accepted recovery revocation.  In a store whose
    recovery records are all written by the calls of this component, from the
    moment one has accepted a revocation, and after whatever further calls and
    other writes: as long as no other authority is on record for its recovery
    key, no binding it names passes the check; and once another one is, the
    revocation no longer affects admission, whose check then passes unless the
    store fails, the store never holding a second one. *)
Theorem recovery_enforced s0 s statement authority root now s' s'' binding now' :
  (forall k v, contents s0 Namespace.Trust !! k = Some v -> ~ is_recovery k) -> rtc recovery_step s0 s ->
  len root = 32 -> RecoveryAuthorization.sized authority -> RecoveryRevocation.sized statement ->
  RecoveryStore.accept_revocation s statement authority root now = (Ok tt, s') -> rtc recovery_step s' s'' ->
  match contents s'' Namespace.Trust !! authority_key authority.(RecoveryAuthorization.root_endpoint_id)
                                           authority.(RecoveryAuthorization.recovery_public_key) with
  | None =>
      subject_matches_binding statement.(RecoveryRevocation.subject) binding = true -> RecoveryStore.check s'' binding now' <> Ok tt
  | Some v =>
      forall current, decode_authority_record v = Ok current ->
      if decide (current = authority)
      then subject_matches_binding statement.(RecoveryRevocation.subject) binding = true -> RecoveryStore.check s'' binding now' <> Ok tt
      else match RecoveryStore.check s'' binding now' with Ok _ | Err (RecoveryError.Storage _) => True | Err _ => False end
  end.
Proof.
  intros Hnone H1 Hr Ha Hst E H2. destruct (accepted_stays _ _ _ _ _ _ _ _ Hnone H1 Hr Ha Hst E H2) as (Hk & Hone & Hbs & Hba).
  pose proof (check_record_current s'' root authority statement binding now' Hr Ha Hst Hbs Hba) as Hcur.
  destruct (contents s'' Namespace.Trust !! authority_key _ _) as [v|] eqn:Ev.
  - intros current Hd. case_decide as Hc.
    + intros Hm Hok. eapply recovery_check_passes in Hok; [|exact Hk|apply is_recovery_key]. subst current.
      apply Hcur in Hok as [_ Hf]; [congruence|]. by intros v' [= <-].
    + destruct (store_scan s'' Namespace.Trust) as [entries|e] eqn:Es.
      * rewrite (check_single _ _ _ _ _ _ Es Hk (is_recovery_key statement) Hone). by eapply check_record_superseded.
      * unfold RecoveryStore.check, RecoveryStore.scan. by rewrite Es.
  - intros Hm Hok. eapply recovery_check_passes in Hok; [|exact Hk|apply is_recovery_key]. apply Hcur in Hok as [_ Hf]; [congruence|done].
Qed.

(** When a recovery revocation has run out, nobody passes: an accepted
    revocation with an end makes the check fail for every binding, named or
    not, from that end on. *)
Theorem expired_recovery_refuses_all s statement authority root now s' binding now' :
  len root = 32 -> RecoveryAuthorization.sized authority -> RecoveryRevocation.sized statement ->
  (forall k v, contents s Namespace.Trust !! k = Some v -> ~ is_recovery k) ->
  RecoveryStore.accept_revocation s statement authority root now = (Ok tt, s') ->
  (forall v, contents s' Namespace.Trust !! authority_key authority.(RecoveryAuthorization.root_endpoint_id)
                                              authority.(RecoveryAuthorization.recovery_public_key) = Some v ->
     decode_authority_record v = Ok authority) ->
  0 < statement.(RecoveryRevocation.expires_at_ms) <= now' ->
  RecoveryStore.check s' binding now' <> Ok tt.
Proof.
  intros Hr Ha Hst Hnone E Hcur [Hx0 Hx] Hok. apply accept_revocation_stored in E as [(entries & Hsc & Hal & _)|(Hc & _ & Hbs & Hba)].
  - rewrite none_accepted in Hal; [done|]. intros k v Hin. apply (Hnone k v). by apply (scan_elem _ _ _ _ _ Hsc).
  - eapply recovery_check_passes in Hok; [|by rewrite Hc, lookup_insert_eq|apply is_recovery_key].
    apply check_record_current in Hok as [Hv _]; try done. unfold RecoveryRevocation.validate in Hv.
    apply bind_Ok in Hv as (_ & _ & Hv). apply bind_Ok in Hv as (_ & _ & Hv). do 4 (case_match; [done|]).
    unfold validate_window in Hv. destruct (now' <? statement.(RecoveryRevocation.issued_at_ms)); [done|].
    destruct (N.eqb_spec statement.(RecoveryRevocation.expires_at_ms) 0); [lia|].
    by destruct (N.leb_spec statement.(RecoveryRevocation.expires_at_ms) now'); [|lia].
Qed.

(** At most one recovery revocation is ever accepted: the records already
    stored are read at the wrong place, so once there is one every further
    statement is refused as oversized, the same one again included. *)
Theorem recovery_accepted_once s calls i j :
  (forall k v, contents s Namespace.Trust !! k = Some v -> ~ is_recovery k) -> Forall rcall_sized calls -> (i < j)%nat ->
  (accept_revocations s calls).1 !! i = Some true -> (accept_revocations s calls).1 !! j <> Some true.
Proof.
  intros Hnone Hc. revert s i j Hnone. induction Hc as [|c calls (Hr & Ha & Hst) Hc IH]; intros s i j Hnone Hij;
    cbn [accept_revocations]; [done|].
  destruct (RecoveryStore.accept_revocation _ _ _ _ _) as [r s1] eqn:E.
  destruct r as [[]|e].
  - assert (Hall : Forall (fun r => r = false) (accept_revocations s1 calls).1).
    { apply accept_revocation_stored in E as [(entries & Hsc & Hal & _)|(Hcs & _ & Hbs & _)].
      - rewrite none_accepted in Hal; [done|]. intros k v Hin. apply (Hnone k v). by apply (scan_elem _ _ _ _ _ Hsc).
      - apply all_refused.
        + intros k v Hk Hrec. rewrite Hcs in Hk. apply lookup_insert_Some in Hk as [[_ <-]|[_ Hk]]; [by apply recovery_record_long|].
          by destruct (Hnone k v Hk).
        + eexists _, _. rewrite Hcs, lookup_insert_eq. split; [done|apply is_recovery_key]. }
    destruct (accept_revocations s1 calls) as [rs s2]. cbn [fst is_ok] in *. intros _ Hj.
    destruct j as [|j]; [lia|]. simpl in Hj. rewrite list.Forall_lookup in Hall. by specialize (Hall _ _ Hj).
  - assert (Hnone1 : forall k v, contents s1 Namespace.Trust !! k = Some v -> ~ is_recovery k).
    { by rewrite (accept_failed _ _ _ _ _ _ _ E). }
    specialize (IH s1). destruct (accept_revocations s1 calls) as [rs s2]. cbn [fst is_ok] in *.
    destruct i as [|i], j as [|j]; simpl; [done|done|lia|]. apply IH; [done|lia].
Qed.

End Theorems.

(** ** Examples *)

#[local] Existing Instances memory_store memory_laws toy_primitives toy_curves.

Definition sample_authority : RecoveryAuthorization.t :=
  match RecoveryAuthorization.sign sample_identity (IdentityKeyPair.public sample_new_identity) 3 1 0 0 with
  | Ok a => a
  | Err _ => RecoveryAuthorization.mk 0 [] [] 0 0 0 0 []
  end.

Definition sample_recovery (victim : u8) : RecoveryRevocation.t :=
  match RecoveryRevocation.sign sample_new_identity (endpoint_id sample_root)
          (RevocationSubject.Identity (replicate 32 victim)) 1 100 1000 with
  | Ok r => r
  | Err _ => RecoveryRevocation.mk 0 [] [] [] (RevocationSubject.Identity []) 0 0 0 []
  end.

Definition sample_binding_of (endpoint : u8) : IdentityBinding.t :=
  IdentityBinding.mk 1 (replicate 32 endpoint) (zeros 32) (zeros 32) 0 5000 4 (zeros 32) (zeros 64).

Definition recovered : Memory := (RecoveryStore.accept_revocation empty_memory (sample_recovery 7) sample_authority sample_root 100).2.

Lemma recovered_eq : RecoveryStore.accept_revocation empty_memory (sample_recovery 7) sample_authority sample_root 100 = (Ok tt, recovered).
Proof. unfold recovered. rewrite (surjective_pairing (RecoveryStore.accept_revocation _ _ _ _ _)) at 1. f_equal. Qed.

Lemma recovered_authority v :
  contents recovered Namespace.Trust !! authority_key sample_authority.(RecoveryAuthorization.root_endpoint_id)
     sample_authority.(RecoveryAuthorization.recovery_public_key) = Some v -> decode_authority_record v = Ok sample_authority.
Proof.
  assert (contents recovered Namespace.Trust !! authority_key sample_authority.(RecoveryAuthorization.root_endpoint_id)
     sample_authority.(RecoveryAuthorization.recovery_public_key) = None) as -> by (by vm_compute). done.
Qed.

(** The root authorises the same recovery key anew. *)
Definition sample_successor : RecoveryAuthorization.t :=
  match RecoveryAuthorization.sign sample_identity (IdentityKeyPair.public sample_new_identity) 1 2 0 0 with
  | Ok a => a
  | Err _ => RecoveryAuthorization.mk 0 [] [] 0 0 0 0 []
  end.

Definition superseded : Memory := (RecoveryStore.provision recovered sample_successor sample_root 100).2.

(** Enforced as long as the authority is not replaced, and not any more then. *)
Lemma recovery_enforced_witness :
  RecoveryStore.check recovered (sample_binding_of 7) 500 <> Ok tt /\ RecoveryStore.check recovered (sample_binding_of 8) 500 = Ok tt /\
  match RecoveryStore.check superseded (sample_binding_of 7) 500 with
  | Ok _ | Err (RecoveryError.Storage _) => True
  | Err _ => False
  end.
Proof.
  assert (Hn : forall k v, contents empty_memory Namespace.Trust !! k = Some v -> ~ is_recovery k) by done.
  assert (Hl : len sample_root = 32) by (by vm_compute).
  assert (Hsa : RecoveryAuthorization.sized sample_authority) by (by repeat split; vm_compute).
  assert (Hss : RecoveryRevocation.sized (sample_recovery 7)) by (by repeat split; vm_compute).
  split; [|split; [by vm_compute|]].
  - pose proof (recovery_enforced empty_memory empty_memory (sample_recovery 7) sample_authority sample_root 100 recovered recovered
      (sample_binding_of 7) 500 Hn (rtc_refl _ _) Hl Hsa Hss recovered_eq (rtc_refl _ _)) as H.
    replace (contents recovered Namespace.Trust !! _) with (@None (list u8)) in H by (by vm_compute). apply H. by vm_compute.
  - pose proof (recovery_enforced empty_memory empty_memory (sample_recovery 7) sample_authority sample_root 100 recovered superseded
      (sample_binding_of 7) 500 Hn (rtc_refl _ _) Hl Hsa Hss recovered_eq
      (rtc_once _ _ (step_provision recovered sample_successor sample_root 100))) as H.
    replace (contents superseded Namespace.Trust !! _) with
      (Some (sample_root ++ RecoveryAuthorization.signed_bytes sample_successor ++ sample_successor.(RecoveryAuthorization.signature))) in H
      by (by vm_compute).
    specialize (H sample_successor ltac:(by vm_compute)).
    destruct (decide (sample_successor = sample_authority)) as [E|_]; [|exact H].
    apply (f_equal RecoveryAuthorization.sequence) in E. vm_compute in E. discriminate E.
Defined.

Lemma expired_recovery_refuses_all_witness : RecoveryStore.check recovered (sample_binding_of 8) 1000 <> Ok tt.
Proof.
  apply (expired_recovery_refuses_all empty_memory (sample_recovery 7) sample_authority sample_root 100 recovered (sample_binding_of 8) 1000);
    [by vm_compute|by repeat split; vm_compute|by repeat split; vm_compute|done|apply recovered_eq|apply recovered_authority|].
  by vm_compute.
Defined.

Definition sample_rcalls : list revocation_call :=
  [RCall (sample_recovery 7) sample_authority sample_root 100; RCall (sample_recovery 8) sample_authority sample_root 100].

Lemma recovery_accepted_once_witness :
  (accept_revocations empty_memory sample_rcalls).1 !! 0%nat = Some true /\
  (accept_revocations empty_memory sample_rcalls).1 !! 1%nat <> Some true.
Proof.
  split; [by vm_compute|].
  apply (recovery_accepted_once empty_memory sample_rcalls 0 1); [done| |lia|by vm_compute].
  repeat (apply list.Forall_cons_2; [by repeat split; vm_compute|]). apply list.Forall_nil_2.
Defined.

Definition sample_item (victim : u8) : list u8 :=
  sample_root ++ to_be_bytes 2 154 ++
  (RecoveryAuthorization.signed_bytes sample_authority ++ sample_authority.(RecoveryAuthorization.signature)) ++
  to_be_bytes 2 218 ++
  (RecoveryRevocation.signed_bytes (sample_recovery victim) ++ (sample_recovery victim).(RecoveryRevocation.signature)).

(** A batch of two good recovery revocations is refused after its first one
    has been committed. *)
Theorem recovery_batch_partial :
  let bytes := bstr "RC" ++ [1] ++ to_be_bytes 2 2 ++ sample_item 7 ++ sample_item 8 in
  let '(r, s) := RecoveryStore.accept_batch empty_memory bytes 100 in
  r = Err RecoveryError.Oversized /\
  contents empty_memory Namespace.Trust !! recovery_revocation_key (sample_recovery 7) = None /\
  contents s Namespace.Trust !! recovery_revocation_key (sample_recovery 7) =
    Some (recovery_record sample_root sample_authority (sample_recovery 7)).
Proof. by vm_compute. Qed.
