(* ===== verification/Revocation.v ===== *)
(** * Revocation and trust on first use (crates/umc-core/src/revocation.rs)

    Local revocation records, signed revocation statements with their exchange
    in batches, the checks a binding and a delegation chain must pass, and the
    pinning of the first binding seen of an endpoint. *)

From Stdlib Require Import Strings.String.
From stdpp Require Import gmap.
From S2P Require Import Prelude Codec Sorting Records Crypto Identity HandshakeMessages HandshakeKeys Canonical Store TrustStatements Trust TrustGraph Recovery.

Definition RECORD_VERSION : u8 := 1.
Definition SIGNED_REVOCATION_PREFIX : list u8 := bstr "revoke-signed/".
Definition SIGNED_BATCH_VERSION : u8 := 1.
Definition MAX_SIGNED_BATCH_ENTRIES : usize := 64.
Definition MAX_SIGNED_BATCH_BYTES : usize := 16 * 1024.

Module RevocationRecord.
Record t := mk {
  endpoint_id : list u8;
  revoked_sequence : u64;
  not_after_ms : u64;
  revoker_id : list u8;
  recorded_at_ms : u64
}.
End RevocationRecord.

Module RevocationError.
Inductive t :=
| Revoked (endpoint_id : list u8) (sequence : u64)
| Storage (e : StoreError)
| Invalid (what : string).
End RevocationError.
#[global] Arguments RevocationError.Invalid _%_string.

Module RevocationFreshness.
Inductive t := Unknown | Fresh (latest_recorded_at_ms : u64) | Stale (latest_recorded_at_ms : u64).

Definition requires_warning (f : t) : bool :=
  match f with
  | Fresh _ => false
  | _ => true
  end.
End RevocationFreshness.

Definition REVOKE_PREFIX : list u8 := bstr "revoke/".
Definition revocation_key (endpoint_id : list u8) : list u8 := REVOKE_PREFIX ++ endpoint_id.

Definition signed_revocation_key (statement : SignedRevocation.t) : list u8 :=
  SIGNED_REVOCATION_PREFIX ++ statement.(SignedRevocation.issuer_endpoint_id) ++ SignedRevocation.signed_bytes statement.

Definition decode_revocation (endpoint_id value : list u8) : Result StoreError RevocationRecord.t :=
  if (len value <? 27) || negb (nth 0 value 0 =? RECORD_VERSION) then Err (Corrupt "bad revocation record")
  else
    let revoker_len := from_be_bytes (take 2 (drop 25 value)) in
    if negb (len value =? 27 + revoker_len) then Err (Corrupt "bad revocation record length")
    else Ok (RevocationRecord.mk endpoint_id (from_be_bytes (take 8 (drop 1 value))) (from_be_bytes (take 8 (drop 9 value)))
               (drop 27 value) (from_be_bytes (take 8 (drop 17 value)))).

(** Outside its validity interval. *)
Definition inactive (statement : SignedRevocation.t) (now_ms : u64) : bool :=
  (now_ms <? statement.(SignedRevocation.issued_at_ms)) ||
  (negb (statement.(SignedRevocation.expires_at_ms) =? 0) && (statement.(SignedRevocation.expires_at_ms) <=? now_ms)).

(** [record.issuer_endpoint_id == ... && record.subject == ...] *)
Definition about_same (a b : SignedRevocation.t) : bool :=
  bool_decide (a.(SignedRevocation.issuer_endpoint_id) = b.(SignedRevocation.issuer_endpoint_id)) &&
  bool_decide (a.(SignedRevocation.subject) = b.(SignedRevocation.subject)).

Module RevocationStore.
Section Ops.
Context {St : Type} `{Store St} `{Primitives, Curves}.

Definition record (s : St) (endpoint_id : list u8) : Result StoreError (option RevocationRecord.t) :=
  found ← store_get s Namespace.Trust (revocation_key endpoint_id);
  match found with
  | None => Ok None
  | Some value => r ← decode_revocation endpoint_id value; Ok (Some r)
  end.

Definition prepare_revoke (s : St) (endpoint_id : list u8) (revoked_sequence not_after_ms : u64) (revoker_id : list u8)
    (recorded_at_ms : u64) : Result RevocationError.t (list u8) :=
  if (len revoker_id =? 0) || (negb (not_after_ms =? 0) && (not_after_ms <=? recorded_at_ms))
  then Err (RevocationError.Invalid "invalid revocation record")
  else
    existing ← map_err RevocationError.Storage (record s endpoint_id);
    if (match existing with
        | Some existing => revoked_sequence <? existing.(RevocationRecord.revoked_sequence)
        | None => false
        end)
    then Err (RevocationError.Invalid "revocation sequence regressed")
    else Ok ([RECORD_VERSION] ++ to_be_bytes 8 revoked_sequence ++ to_be_bytes 8 not_after_ms ++
             to_be_bytes 8 recorded_at_ms ++ be16 (len revoker_id) ++ revoker_id).

Definition revoke (s : St) (endpoint_id : list u8) (revoked_sequence not_after_ms : u64) (revoker_id : list u8)
    (recorded_at_ms : u64) : Result RevocationError.t unit * St :=
  match prepare_revoke s endpoint_id revoked_sequence not_after_ms revoker_id recorded_at_ms with
  | Err e => (Err e, s)
  | Ok value => after_write RevocationError.Storage tt (store_put s Namespace.Trust (revocation_key endpoint_id) value)
  end.

Definition decode_entry (key value : list u8) : Result StoreError (list u8 * SignedRevocation.t) :=
  if len value <? 32 then Err (Corrupt "bad signed revocation issuer key")
  else
    let issuer_public_key := take 32 value in
    statement ← map_err (fun _ => Corrupt "bad signed revocation") (SignedRevocation.from_bytes (drop 32 value));
    if negb (bool_decide (signed_revocation_key statement = key))
    then Err (Corrupt "signed revocation key does not match statement")
    else
      _ ← map_err (fun _ => Corrupt "bad signed revocation signature")
        (SignedRevocation.verify_signature statement issuer_public_key);
      Ok (issuer_public_key, statement).

Definition signed_record_entries (s : St) : Result StoreError (list (list u8 * SignedRevocation.t)) :=
  entries ← store_scan s Namespace.Trust;
  collect_entries SIGNED_REVOCATION_PREFIX decode_entry entries.

Definition signed_records (s : St) : Result StoreError (list SignedRevocation.t) :=
  entries ← signed_record_entries s;
  Ok (map snd entries).

(** What [accept_signed] and [accept_delegation_signed] share; [authorized] is
    their test of the subject and [invalid] their wording. *)
Definition prepare_signed_revocation (s : St) (statement : SignedRevocation.t) (issuer_public_key : list u8) (now_ms : u64)
    (invalid : string) (authorized : bool) (refusal : RevocationError.t) : Result RevocationError.t (list u8) :=
  _ ← map_err (fun _ => RevocationError.Invalid invalid) (SignedRevocation.validate statement issuer_public_key now_ms);
  if negb authorized then Err refusal
  else
    existing ← map_err RevocationError.Storage (signed_records s);
    if existsb (fun record => about_same record statement &&
                  (statement.(SignedRevocation.sequence) <=? record.(SignedRevocation.sequence))) existing
    then Err (RevocationError.Invalid "signed revocation sequence regressed")
    else
      encoded ← map_err (fun _ => RevocationError.Invalid invalid) (SignedRevocation.to_bytes statement);
      Ok (issuer_public_key ++ encoded).

Definition write_signed (s : St) (statement : SignedRevocation.t) (prepared : Result RevocationError.t (list u8))
    : Result RevocationError.t unit * St :=
  match prepared with
  | Err e => (Err e, s)
  | Ok value => after_write RevocationError.Storage tt (store_put s Namespace.Trust (signed_revocation_key statement) value)
  end.

Definition accept_signed (s : St) (statement : SignedRevocation.t) (issuer_public_key : list u8) (now_ms : u64)
    : Result RevocationError.t unit * St :=
  write_signed s statement
    (prepare_signed_revocation s statement issuer_public_key now_ms "invalid signed revocation"
       (SignedRevocation.is_self_authorized statement)
       (RevocationError.Invalid "signed revocation issuer lacks subject authority")).

Definition accept_delegation_signed (s : St) (statement : SignedRevocation.t) (root_public_key delegated_public_key : list u8)
    (now_ms : u64) : Result RevocationError.t unit * St :=
  write_signed s statement
    (prepare_signed_revocation s statement root_public_key now_ms "invalid delegation revocation"
       (bool_decide (statement.(SignedRevocation.subject) = RevocationSubject.Delegation delegated_public_key))
       (RevocationError.Invalid "delegation revocation subject mismatch")).

Fixpoint check_links (entries : list (list u8 * SignedRevocation.t)) (chain : StoredDelegationChain.t) (now_ms : u64)
    : Result RevocationError.t unit :=
  match entries with
  | [] => Ok tt
  | (issuer, statement) :: entries =>
      match statement.(SignedRevocation.subject) with
      | RevocationSubject.Delegation subject =>
          if negb (bool_decide (subject ∈ map SignedDelegation.delegated_public_key chain.(StoredDelegationChain.certificates)))
          then check_links entries chain now_ms
          else
            _ ← map_err (fun _ => RevocationError.Invalid "invalid delegation revocation")
              (SignedRevocation.validate statement issuer now_ms);
            if negb (bool_decide (issuer = chain.(StoredDelegationChain.root_public_key)))
            then Err (RevocationError.Invalid "delegation revocation issuer is not the chain root")
            else Err (RevocationError.Revoked (endpoint_id subject) statement.(SignedRevocation.sequence))
      | _ => check_links entries chain now_ms
      end
  end.

Definition check_delegation (s : St) (chain : StoredDelegationChain.t) (now_ms : u64) : Result RevocationError.t unit :=
  if len chain.(StoredDelegationChain.certificates) =? 0 then Err (RevocationError.Invalid "empty delegation chain")
  else
    entries ← map_err RevocationError.Storage (signed_record_entries s);
    check_links entries chain now_ms.

(** The loop of [export_signed_batch_at] over the records. *)
Fixpoint export_entries (entries : list (list u8 * SignedRevocation.t)) (now_ms : u64) (count : usize) (out : list u8)
    : Result RevocationError.t (usize * list u8) :=
  match entries with
  | [] => Ok (count, out)
  | (issuer_public_key, statement) :: entries =>
      if inactive statement now_ms then export_entries entries now_ms count out
      else if count =? MAX_SIGNED_BATCH_ENTRIES then Ok (count, out)
      else
        encoded ← map_err (fun _ => RevocationError.Invalid "invalid persisted revocation") (SignedRevocation.to_bytes statement);
        length ← be16_or (RevocationError.Invalid "revocation batch item too large") (len encoded);
        let out := out ++ issuer_public_key ++ length ++ encoded in
        if MAX_SIGNED_BATCH_BYTES <? len out then Err (RevocationError.Invalid "revocation batch too large")
        else export_entries entries now_ms (count + 1) out
  end.

Definition batch_magic : list u8 := bstr "RS" ++ [SIGNED_BATCH_VERSION].

(** [out\[3..5\]] is filled in at the end. *)
Definition export_signed_batch_at (s : St) (now_ms : u64) : Result RevocationError.t (list u8) :=
  entries ← map_err RevocationError.Storage (signed_record_entries s);
  '(count, out) ← export_entries entries now_ms 0 (batch_magic ++ [0; 0]);
  count ← be16_or (RevocationError.Invalid "revocation batch count") count;
  Ok (batch_magic ++ count ++ drop 5 out).

Definition export_signed_batch (s : St) : Result RevocationError.t (list u8) := export_signed_batch_at s u64_max.

Definition read_batch_item : DecOf RevocationError.t (list u8 * SignedRevocation.t) :=
  issuer ← read_slice_or (RevocationError.Invalid "truncated issuer key") 32;
  length ← read_be (RevocationError.Invalid "truncated item length") 2;
  statement ← read_slice_or (RevocationError.Invalid "truncated statement") length;
  statement ← lift (map_err (fun _ => RevocationError.Invalid "invalid statement") (SignedRevocation.from_bytes statement));
  mret (issuer, statement).

(** [candidate.to_bytes().ok().as_deref() == Some(encoded)] *)
Definition same_bytes (candidate : SignedRevocation.t) (encoded : list u8) : bool :=
  match SignedRevocation.to_bytes candidate with
  | Ok bytes => bool_decide (bytes = encoded)
  | Err _ => false
  end.

(** One item of a batch against the statements on record and those before it. *)
Definition admit_item (existing entries : list (list u8 * SignedRevocation.t)) (issuer_public_key : list u8)
    (statement : SignedRevocation.t) (now_ms : u64) : Result RevocationError.t (list (list u8 * SignedRevocation.t)) :=
  _ ← map_err (fun _ => RevocationError.Invalid "invalid statement")
    (SignedRevocation.validate statement issuer_public_key now_ms);
  if negb (SignedRevocation.is_self_authorized statement) &&
     negb (match statement.(SignedRevocation.subject) with RevocationSubject.Delegation _ => true | _ => false end)
  then Err (RevocationError.Invalid "unauthorized propagated statement")
  else
    encoded ← map_err (fun _ => RevocationError.Invalid "invalid statement") (SignedRevocation.to_bytes statement);
    let same_sequence candidate :=
      about_same candidate statement && (candidate.(SignedRevocation.sequence) =? statement.(SignedRevocation.sequence)) in
    let same_record candidate := same_sequence candidate && same_bytes candidate encoded in
    let any p := existsb (fun e => p e.2) existing || existsb (fun e => p e.2) entries in
    if any (fun candidate => about_same candidate statement &&
              (statement.(SignedRevocation.sequence) <? candidate.(SignedRevocation.sequence)))
    then Err (RevocationError.Invalid "revocation sequence regressed")
    else if any (fun candidate => same_sequence candidate && negb (same_record candidate))
    then Err (RevocationError.Invalid "conflicting revocation sequence")
    else if any same_record then Ok entries
    else Ok (entries ++ [(issuer_public_key, statement)]).

Fixpoint read_batch (n : nat) (existing entries : list (list u8 * SignedRevocation.t)) (now_ms : u64)
    : DecOf RevocationError.t (list (list u8 * SignedRevocation.t)) :=
  match n with
  | O => mret entries
  | S n =>
      '(issuer, statement) ← read_batch_item;
      entries ← lift (admit_item existing entries issuer statement now_ms);
      read_batch n existing entries now_ms
  end.

(** The records to write, each delegation revocation checked against the chain
    it concerns. *)
Fixpoint batch_writes (s : St) (entries : list (list u8 * SignedRevocation.t)) (now_ms : u64)
    : Result RevocationError.t (list Record_) :=
  match entries with
  | [] => Ok []
  | (issuer, statement) :: entries =>
      _ ← (match statement.(SignedRevocation.subject) with
           | RevocationSubject.Delegation subject =>
               chain ← map_err RevocationError.Storage
                 (DelegationStore.valid_chain_containing_public_key s subject now_ms);
               match chain with
               | None => Err (RevocationError.Invalid "delegation revocation has no local authority chain")
               | Some chain =>
                   if negb (bool_decide (chain.(StoredDelegationChain.root_public_key) = issuer))
                   then Err (RevocationError.Invalid "delegation revocation issuer is not the chain root")
                   else Ok tt
               end
           | _ => Ok tt
           end);
      encoded ← map_err (fun _ => RevocationError.Invalid "invalid statement") (SignedRevocation.to_bytes statement);
      writes ← batch_writes s entries now_ms;
      Ok ((signed_revocation_key statement, issuer ++ encoded) :: writes)
  end.

Definition prepare_batch (s : St) (bytes : list u8) (now_ms : u64)
    : Result RevocationError.t (list (list u8 * SignedRevocation.t) * list Record_) :=
  if (MAX_SIGNED_BATCH_BYTES <? len bytes) || negb (bool_decide (get_range bytes 0 3 = Some batch_magic))
  then Err (RevocationError.Invalid "invalid revocation batch")
  else
    count ← ok_or (RevocationError.Invalid "truncated revocation batch") (get_range bytes 3 5);
    let count := from_be_bytes count in
    if MAX_SIGNED_BATCH_ENTRIES <? count then Err (RevocationError.Invalid "revocation batch count")
    else
      existing ← map_err RevocationError.Storage (signed_record_entries s);
      '(entries, offset) ← read_batch (N.to_nat count) existing [] now_ms bytes 5;
      if negb (offset =? len bytes) then Err (RevocationError.Invalid "trailing revocation batch bytes")
      else
        writes ← batch_writes s entries now_ms;
        Ok (entries, writes).

Definition accept_signed_batch (s : St) (bytes : list u8) (now_ms : u64) : Result RevocationError.t usize * St :=
  match prepare_batch s bytes now_ms with
  | Err e => (Err e, s)
  | Ok (entries, writes) =>
      if len writes =? 0 then (Ok (len entries), s)
      else after_write RevocationError.Storage (len entries) (store_put_batch s Namespace.Trust writes)
  end.

(** The binding is one the statement names. *)
Definition names_binding (statement : SignedRevocation.t) (binding : IdentityBinding.t) : bool :=
  match statement.(SignedRevocation.subject) with
  | RevocationSubject.Identity endpoint => bool_decide (endpoint = binding.(IdentityBinding.endpoint_id))
  | RevocationSubject.Binding endpoint binding_sequence =>
      bool_decide (endpoint = binding.(IdentityBinding.endpoint_id)) &&
      (binding.(IdentityBinding.sequence) <=? binding_sequence)
  | _ => false
  end.

Definition check (s : St) (binding : IdentityBinding.t) (now_ms : u64) : Result RevocationError.t unit :=
  let revoked := RevocationError.Revoked binding.(IdentityBinding.endpoint_id) binding.(IdentityBinding.sequence) in
  found ← map_err RevocationError.Storage (record s binding.(IdentityBinding.endpoint_id));
  if (match found with
      | Some record =>
          ((record.(RevocationRecord.not_after_ms) =? 0) || (now_ms <=? record.(RevocationRecord.not_after_ms))) &&
          (binding.(IdentityBinding.sequence) <=? record.(RevocationRecord.revoked_sequence))
      | None => false
      end)
  then Err revoked
  else
    statements ← map_err RevocationError.Storage (signed_records s);
    if existsb (fun statement => negb (inactive statement now_ms) && names_binding statement binding) statements
    then Err revoked
    else
      match RecoveryStore.check s binding now_ms with
      | Ok _ => Ok tt
      | Err RecoveryError.Revoked => Err revoked
      | Err _ => Err (RevocationError.Invalid "recovery revocation check failed")
      end.

(** The newest record, over those under the prefix. *)
Fixpoint latest_record (entries : list Record_) (latest : option u64) : Result StoreError (option u64) :=
  match entries with
  | [] => Ok latest
  | (key, value) :: entries =>
      if negb (starts_with REVOKE_PREFIX key) then latest_record entries latest
      else
        let endpoint_bytes := drop (length REVOKE_PREFIX) key in
        if negb (len endpoint_bytes =? 32) then Err (Corrupt "bad revocation key")
        else
          record ← decode_revocation endpoint_bytes value;
          let at_ := record.(RevocationRecord.recorded_at_ms) in
          latest_record entries (Some (match latest with Some value => N.max value at_ | None => at_ end))
  end.

Definition freshness (s : St) (now_ms max_age_ms : u64) : Result StoreError RevocationFreshness.t :=
  entries ← store_scan s Namespace.Trust;
  latest ← latest_record entries None;
  Ok (match latest with
      | None => RevocationFreshness.Unknown
      | Some latest_recorded_at_ms =>
          if saturating_sub now_ms latest_recorded_at_ms <=? max_age_ms
          then RevocationFreshness.Fresh latest_recorded_at_ms
          else RevocationFreshness.Stale latest_recorded_at_ms
      end).

End Ops.
End RevocationStore.

(** ** Trust on first use *)

Module TofuError.
Inductive t :=
| BindingChanged (endpoint_id : list u8)
| Storage (e : StoreError)
| Invalid (what : string).
End TofuError.
#[global] Arguments TofuError.Invalid _%_string.

Module TofuRecord.
Record t := mk {
  endpoint_id : list u8;
  binding_digest : list u8;
  sequence : u64;
  first_seen_ms : u64;
  last_seen_ms : u64
}.

Definition encode (r : t) : list u8 :=
  [RECORD_VERSION] ++ r.(binding_digest) ++ to_be_bytes 8 r.(sequence) ++ to_be_bytes 8 r.(first_seen_ms) ++
  to_be_bytes 8 r.(last_seen_ms).

Definition decode (endpoint_id value : list u8) : Result StoreError t :=
  if negb (len value =? 57) || negb (nth 0 value 0 =? RECORD_VERSION) then Err (Corrupt "bad tofu record")
  else Ok (mk endpoint_id (take 32 (drop 1 value)) (from_be_bytes (take 8 (drop 33 value)))
             (from_be_bytes (take 8 (drop 41 value))) (from_be_bytes (take 8 (drop 49 value)))).

End TofuRecord.

Definition tofu_key (endpoint_id : list u8) : list u8 := bstr "tofu/" ++ endpoint_id.

Module TofuStore.
Section Ops.
Context {St : Type} `{Store St} `{Primitives, Curves}.

Definition binding_digest (binding : IdentityBinding.t) : list u8 :=
  extract (bstr "UMP-TOFU-v1") (IdentityBinding.signed_bytes binding).

(** The record to write for a binding that is observed. *)
Definition prepare_observe (s : St) (binding : IdentityBinding.t) (now_ms : u64) : Result TofuError.t TofuRecord.t :=
  let endpoint := binding.(IdentityBinding.endpoint_id) in
  _ ← map_err (fun _ => TofuError.Invalid "binding validation failed") (IdentityBinding.validate binding now_ms 300000);
  let digest := binding_digest binding in
  found ← map_err TofuError.Storage (store_get s Namespace.Trust (tofu_key endpoint));
  match found with
  | None => Ok (TofuRecord.mk endpoint digest binding.(IdentityBinding.sequence) now_ms now_ms)
  | Some value =>
      record ← map_err TofuError.Storage (TofuRecord.decode endpoint value);
      if negb (bool_decide (record.(TofuRecord.binding_digest) = digest)) then Err (TofuError.BindingChanged endpoint)
      else if binding.(IdentityBinding.sequence) <? record.(TofuRecord.sequence) then Err (TofuError.BindingChanged endpoint)
      else Ok (TofuRecord.mk endpoint record.(TofuRecord.binding_digest) binding.(IdentityBinding.sequence)
                 record.(TofuRecord.first_seen_ms) now_ms)
  end.

Definition observe (s : St) (binding : IdentityBinding.t) (now_ms : u64) : Result TofuError.t unit * St :=
  match prepare_observe s binding now_ms with
  | Err e => (Err e, s)
  | Ok record =>
      after_write TofuError.Storage tt
        (store_put s Namespace.Trust (tofu_key binding.(IdentityBinding.endpoint_id)) (TofuRecord.encode record))
  end.

Definition tofu_record (s : St) (endpoint_id : list u8) : Result StoreError (option TofuRecord.t) :=
  found ← store_get s Namespace.Trust (tofu_key endpoint_id);
  match found with
  | None => Ok None
  | Some value => r ← TofuRecord.decode endpoint_id value; Ok (Some r)
  end.

End Ops.
End TofuStore.

(** ** Signed records *)

#[local] Arguments to_be_bytes : simpl never.

Lemma revocation_from_to s bytes :
  SignedRevocation.sized s -> SignedRevocation.to_bytes s = Ok bytes ->
  bytes = SignedRevocation.signed_bytes s ++ s.(SignedRevocation.signature) /\ SignedRevocation.from_bytes bytes = Ok s.
Proof.
  intros Hs ([] & Hv & H)%bind_Ok. cbv zeta in H.
  destruct (N.ltb_spec MAX_REVOCATION_STATEMENT (len (SignedRevocation.signed_bytes s ++ s.(SignedRevocation.signature)))); [done|].
  apply (inj Ok) in H as <-. split; [done|]. unfold SignedRevocation.from_bytes. rewrite (proj2 (N.ltb_ge _ _)) by done.
  rewrite (all_of_reads _ _ _ s) by (first [by apply revocation_reads|unfold MAX_REVOCATION_STATEMENT, usize_max, u64_max in *; lia]).
  cbn [mbind Result_bind]. by rewrite Hv.
Qed.

Lemma collect_entries_elem {A} prefix (decode : list u8 -> list u8 -> Result StoreError A) entries l k v :
  collect_entries prefix decode entries = Ok l -> (k, v) ∈ entries -> starts_with prefix k = true ->
  exists a, decode k v = Ok a /\ a ∈ l.
Proof.
  revert l. induction entries as [|[k' v'] entries IH]; intros l H Hin Hp; [by apply elem_of_nil in Hin|].
  cbn [collect_entries] in H. apply elem_of_cons in Hin as [[= <- <-]|Hin].
  - rewrite Hp in H. apply bind_Ok in H as (a & Ha & H). apply bind_Ok in H as (l' & _ & <-%(inj Ok)). exists a. split; [done|left].
  - destruct (starts_with prefix k').
    + apply bind_Ok in H as (a & Ha & H). apply bind_Ok in H as (l' & Hl & <-%(inj Ok)).
      destruct (IH _ Hl Hin Hp) as (b & ? & ?). exists b. split; [done|by right].
    + by apply IH.
Qed.

Lemma collect_entries_from {A} prefix (decode : list u8 -> list u8 -> Result StoreError A) entries l a :
  collect_entries prefix decode entries = Ok l -> a ∈ l ->
  exists k v, (k, v) ∈ entries /\ starts_with prefix k = true /\ decode k v = Ok a.
Proof.
  revert l. induction entries as [|[k v] entries IH]; intros l H Hin; cbn [collect_entries] in H.
  - apply (inj Ok) in H as <-. by apply elem_of_nil in Hin.
  - destruct (starts_with prefix k) eqn:E.
    + apply bind_Ok in H as (b & Hb & H). apply bind_Ok in H as (l' & Hl & <-%(inj Ok)).
      apply elem_of_cons in Hin as [-> |Hin]; [exists k, v; split; [left|done]|].
      destruct (IH _ Hl Hin) as (k' & v' & ? & ?). exists k', v'. split; [by right|done].
    + destruct (IH _ H Hin) as (k' & v' & ? & ?). exists k', v'. split; [by right|done].
Qed.

Section Signed.
Context {St : Type} `{HS : Store St} {HSL : StoreLaws St} `{HP : Primitives} `{HC : Curves}.

Lemma signed_revocation_prefix st : starts_with SIGNED_REVOCATION_PREFIX (signed_revocation_key st) = true.
Proof. unfold starts_with, signed_revocation_key. by rewrite take_app_length, bool_decide_eq_true_2. Qed.

(** The record of a statement that has been accepted. *)
Definition signed_record (issuer : list u8) (statement : SignedRevocation.t) : list u8 :=
  issuer ++ SignedRevocation.signed_bytes statement ++ statement.(SignedRevocation.signature).

Lemma decode_signed_record issuer st encoded :
  len issuer = 32 -> SignedRevocation.sized st -> SignedRevocation.to_bytes st = Ok encoded ->
  RevocationStore.decode_entry (signed_revocation_key st) (issuer ++ encoded) =
    _ ← map_err (fun _ => Corrupt "bad signed revocation signature") (SignedRevocation.verify_signature st issuer);
    Ok (issuer, st).
Proof.
  intros Hi Hs He. destruct (revocation_from_to _ _ Hs He) as [_ Hf]. unfold RevocationStore.decode_entry.
  rewrite len_app, Hi, (proj2 (N.ltb_ge _ _)) by lia. rewrite take_app_length', drop_app_length' by (unfold len in Hi; lia).
  rewrite Hf. cbn [map_err mbind Result_bind]. by rewrite bool_decide_eq_true_2.
Qed.

Lemma validate_verified st key now :
  SignedRevocation.validate st key now = Ok tt -> SignedRevocation.verify_signature st key = Ok tt.
Proof. by intros ([] & ? & _)%bind_Ok. Qed.

Lemma write_signed_stored s st prepared s' :
  RevocationStore.write_signed s st prepared = (Ok tt, s') ->
  exists value, prepared = Ok value /\
    contents s' Namespace.Trust = <[signed_revocation_key st := value]> (contents s Namespace.Trust).
Proof.
  unfold RevocationStore.write_signed. destruct prepared as [value|]; [|done]. unfold after_write.
  destruct (store_put s Namespace.Trust _ value) as [[[]|] s1] eqn:E; [|done]. intros [= <-]. exists value.
  by apply put_same in E.
Qed.

Lemma write_signed_failed s st prepared e s' :
  RevocationStore.write_signed s st prepared = (Err e, s') -> contents s' Namespace.Trust = contents s Namespace.Trust.
Proof.
  unfold RevocationStore.write_signed. destruct prepared as [value|]; [|by intros [= _ <-]]. unfold after_write.
  destruct (store_put s Namespace.Trust _ value) as [[[]|] s1] eqn:E; [done|]. intros [= _ <-].
  by apply (put_failed _ _ _ _ _ _ Namespace.Trust) in E.
Qed.

Lemma prepared_signed s st key now invalid authorized refusal value :
  RevocationStore.prepare_signed_revocation s st key now invalid authorized refusal = Ok value ->
  SignedRevocation.validate st key now = Ok tt /\ authorized = true /\
  exists encoded, SignedRevocation.to_bytes st = Ok encoded /\ value = key ++ encoded.
Proof.
  intros ([] & Hv%map_err_Ok & H)%bind_Ok. destruct authorized; [|done]. cbn [negb] in H.
  apply bind_Ok in H as (existing & _ & H). destruct (existsb _ _); [done|].
  apply bind_Ok in H as (encoded & He%map_err_Ok & <-%(inj Ok)). split; [done|]. split; [done|]. by exists encoded.
Qed.

(** A check that passes has passed every signed statement on record. *)
Lemma check_statements s binding now k v :
  RevocationStore.check s binding now = Ok tt -> starts_with SIGNED_REVOCATION_PREFIX k = true ->
  contents s Namespace.Trust !! k = Some v ->
  exists issuer st, RevocationStore.decode_entry k v = Ok (issuer, st) /\
    (inactive st now = false -> RevocationStore.names_binding st binding = false).
Proof.
  intros (found & _ & H)%bind_Ok Hp Hk. destruct (match found with Some _ => _ | None => _ end); [done|].
  apply bind_Ok in H as (statements & Hs%map_err_Ok & H). destruct (existsb _ statements) eqn:Ex; [done|].
  apply bind_Ok in Hs as (l & Hl & <-%(inj Ok)). apply bind_Ok in Hl as (entries & Hsc & Hc).
  apply (scan_elem _ _ _ k v Hsc) in Hk as Hin.
  destruct (collect_entries_elem _ _ _ _ _ _ Hc Hin Hp) as ([issuer st] & Hda & Ha'). exists issuer, st. split; [done|]. intros Ha.
  destruct (RevocationStore.names_binding st binding) eqn:En; [|done]. rewrite <- Ex. symmetry. apply existsb_exists.
  exists st. split; [|by rewrite Ha, En]. apply list_elem_of_In, list_elem_of_fmap. by exists (issuer, st).
Qed.

(** A statement no third party could have made: issued by the holder of a key of
    the endpoint it revokes, or a delegation revocation. *)
Definition authorized (st : SignedRevocation.t) : Prop :=
  SignedRevocation.is_self_authorized st = true \/ exists d, st.(SignedRevocation.subject) = RevocationSubject.Delegation d.

Definition authentic_record (v : list u8) : Prop :=
  exists issuer st encoded, v = issuer ++ encoded /\ SignedRevocation.to_bytes st = Ok encoded /\
    SignedRevocation.verify_signature st issuer = Ok tt /\ authorized st /\ len issuer = 32 /\ SignedRevocation.sized st.

Definition authentic (s : St) : Prop :=
  forall k v, contents s Namespace.Trust !! k = Some v -> starts_with SIGNED_REVOCATION_PREFIX k = true -> authentic_record v.

Lemma admitted_item existing entries issuer st now entries' :
  RevocationStore.admit_item existing entries issuer st now = Ok entries' ->
  SignedRevocation.validate st issuer now = Ok tt /\ authorized st /\
  (entries' = entries \/ entries' = entries ++ [(issuer, st)]).
Proof.
  intros ([] & Hv%map_err_Ok & H)%bind_Ok. split; [done|].
  destruct (negb (SignedRevocation.is_self_authorized st) && _) eqn:Ea; [done|].
  apply bind_Ok in H as (encoded & _ & H). cbv beta zeta in H. do 2 (destruct (existsb _ _ || existsb _ _); [done|]). split.
  - unfold authorized. destruct (SignedRevocation.is_self_authorized st); [by left|]. right. cbn [negb andb] in Ea.
    destruct (SignedRevocation.subject st) as [| |d| |]; try done. by exists d.
  - destruct (existsb _ _ || existsb _ _); apply (inj Ok) in H as <-; [by left|by right].
Qed.

Definition good_entry (now : u64) (e : list u8 * SignedRevocation.t) : Prop :=
  SignedRevocation.validate e.2 e.1 now = Ok tt /\ authorized e.2 /\ len e.1 = 32 /\ SignedRevocation.sized e.2.

(** What a batch item yields. *)
Lemma item_good body pos issuer st pos' :
  is_bytes body -> RevocationStore.read_batch_item body pos = Ok ((issuer, st), pos') ->
  len issuer = 32 /\ SignedRevocation.sized st.
Proof.
  intros Hb. unfold RevocationStore.read_batch_item. intros H.
  unfold mbind at 1, Dec_bind at 1 in H. destruct (read_slice_or _ 32 body pos) as [[i p1]|] eqn:E1; [|done].
  unfold mbind at 1, Dec_bind at 1 in H. destruct (read_be _ 2 body p1) as [[n p2]|] eqn:E2; [|done].
  unfold mbind at 1, Dec_bind at 1 in H. destruct (read_slice_or _ n body p2) as [[b p3]|] eqn:E3; [|done].
  unfold mbind at 1, Dec_bind at 1 in H. destruct (lift _ body p3) as [[t p4]|] eqn:E4; [|done].
  injection H as -> -> _.
  assert (Hsl : forall err n p v q, read_slice_or (Er := RevocationError.t) err n body p = Ok (v, q) -> len v = n /\ is_bytes v).
  { intros err n0 p v q (hi & H1%ok_or_Ok & H)%bind_Ok. apply bind_Ok in H as (v' & H2%ok_or_Ok & [= <- <-]).
    apply checked_add_Some in H1 as [-> _]. pose proof (get_range_Some _ _ _ _ H2). split; [lia|].
    unfold get_range in H2. destruct (_ && _); [|done]. injection H2 as <-. by apply list.Forall_take, list.Forall_drop. }
  split; [by apply Hsl in E1 as [? _]|]. apply Hsl in E3 as [_ Hbb]. apply bind_Ok in E4 as (t' & Hf%map_err_Ok & [= -> _]).
  unfold SignedRevocation.from_bytes in Hf. destruct (_ <? _); [done|]. apply bind_Ok in Hf as (t' & Ha & H).
  apply bind_Ok in H as (_ & _ & [= ->]). by destruct (all_of_spells _ _ _ _ _ revocation_spells Hbb Ha) as [? _].
Qed.

Lemma read_batch_good n existing entries now body pos entries' pos' :
  is_bytes body -> Forall (good_entry now) entries ->
  RevocationStore.read_batch n existing entries now body pos = Ok (entries', pos') -> Forall (good_entry now) entries'.
Proof.
  intros Hb. revert entries pos. induction n as [|n IH]; intros entries pos Hg H; cbn [RevocationStore.read_batch] in H.
  - by injection H as <- _.
  - unfold mbind at 1, Dec_bind at 1 in H. destruct (RevocationStore.read_batch_item body pos) as [[[issuer st] p1]|] eqn:E1; [|done].
    unfold mbind at 1, Dec_bind at 1 in H. destruct (lift _ body p1) as [[es p2]|] eqn:E2; [|done].
    apply bind_Ok in E2 as (es' & Ha & [= -> _]). destruct (admitted_item _ _ _ _ _ _ Ha) as (Hv & Hau & Hes).
    destruct (item_good _ _ _ _ _ Hb E1). eapply IH; [|exact H].
    destruct Hes as [-> | ->]; [done|]. apply list.Forall_app. split; [done|]. by apply list.Forall_singleton.
Qed.

Lemma batch_writes_spec s entries now writes :
  RevocationStore.batch_writes s entries now = Ok writes ->
  Forall2 (fun (e : list u8 * SignedRevocation.t) w => exists encoded, SignedRevocation.to_bytes e.2 = Ok encoded /\
     w = (signed_revocation_key e.2, e.1 ++ encoded)) entries writes.
Proof.
  revert writes. induction entries as [|[issuer st] entries IH]; intros writes H; cbn [RevocationStore.batch_writes] in H.
  - apply (inj Ok) in H as <-. constructor.
  - apply bind_Ok in H as (_ & _ & H). apply bind_Ok in H as (encoded & He%map_err_Ok & H).
    apply bind_Ok in H as (ws & Hw & <-%(inj Ok)). constructor; [by exists encoded|by apply IH].
Qed.

(** A batch is written whole or not at all, and nothing in it is unchecked. *)
Lemma batch_outcome s bytes now r s' :
  is_bytes bytes -> RevocationStore.accept_signed_batch s bytes now = (r, s') ->
  contents s' Namespace.Trust = contents s Namespace.Trust \/
  exists entries writes, r = Ok (len entries) /\ contents s' Namespace.Trust = insert_all writes (contents s Namespace.Trust) /\
    Forall (good_entry now) entries /\
    Forall2 (fun (e : list u8 * SignedRevocation.t) w => exists encoded, SignedRevocation.to_bytes e.2 = Ok encoded /\
       w = (signed_revocation_key e.2, e.1 ++ encoded)) entries writes.
Proof.
  intros Hb. unfold RevocationStore.accept_signed_batch.
  destruct (RevocationStore.prepare_batch s bytes now) as [[entries writes]|] eqn:E; [|intros [= <- <-]; by left].
  destruct (len writes =? 0); [intros [= <- <-]; by left|]. unfold after_write.
  destruct (store_put_batch s Namespace.Trust writes) as [[[]|] s1] eqn:Ep; intros [= <- <-].
  2: { left. by apply (batch_failed _ _ _ _ _ Namespace.Trust) in Ep. }
  right. exists entries, writes. split; [done|]. split; [by apply batch_same in Ep|].
  unfold RevocationStore.prepare_batch in E. destruct (_ || _); [done|]. apply bind_Ok in E as (c & _ & E). cbv zeta in E.
  destruct (_ <? _); [done|]. apply bind_Ok in E as (existing & _ & E). apply bind_Ok in E as ([es off] & Hr & E).
  destruct (negb _); [done|]. apply bind_Ok in E as (ws & Hw & [= -> ->]). split; [|by eapply batch_writes_spec].
  by eapply read_batch_good.
Qed.

(** A record of an authentic store reads back as one of its kind. *)
Lemma authentic_decodes k v issuer st :
  authentic_record v -> RevocationStore.decode_entry k v = Ok (issuer, st) ->
  authorized st /\ SignedRevocation.sized st /\ len issuer = 32 /\ SignedRevocation.verify_signature st issuer = Ok tt /\
  k = signed_revocation_key st /\ exists encoded, SignedRevocation.to_bytes st = Ok encoded /\ v = issuer ++ encoded.
Proof.
  intros (i & s0 & encoded & -> & He & Hv & Ha & Hi & Hs) Hd. destruct (revocation_from_to _ _ Hs He) as [_ Hf].
  unfold RevocationStore.decode_entry in Hd. rewrite len_app, Hi, (proj2 (N.ltb_ge _ _)) in Hd by lia.
  rewrite take_app_length', drop_app_length' in Hd by (unfold len in Hi; lia). rewrite Hf in Hd. cbn [map_err mbind Result_bind] in Hd.
  case_bool_decide as Hk; [|done]. cbn [negb] in Hd. rewrite Hv in Hd. injection Hd as <- <-. eauto 10.
Qed.

Lemma insert_all_lookup (l : list Record_) (m : gmap (list u8) (list u8)) (k v : list u8) :
  insert_all l m !! k = Some v -> (k, v) ∈ l \/ m !! k = Some v.
Proof.
  revert m. induction l as [|[k' v'] l IH]; intros m H; cbn [insert_all] in H; [by right|].
  apply IH in H as [H|H]; [left; by right|]. apply lookup_insert_Some in H as [[-> ->]|[_ H]]; [left; left|by right].
Qed.

Lemma insert_all_some (l : list Record_) (m : gmap (list u8) (list u8)) (k : list u8) :
  is_Some (m !! k) \/ k ∈ l.*1 -> is_Some (insert_all l m !! k).
Proof.
  revert m. induction l as [|[k' v'] l IH]; intros m H; cbn [insert_all].
  - by destruct H as [?|?%elem_of_nil].
  - apply IH. destruct (decide (k' = k)) as [->|Hne]; [left; by rewrite lookup_insert_eq|]. rewrite lookup_insert_ne by done.
    destruct H as [H|[H|H]%elem_of_cons]; [by left|by subst|by right].
Qed.

Lemma good_entry_record now (e : list u8 * SignedRevocation.t) encoded :
  good_entry now e -> SignedRevocation.to_bytes e.2 = Ok encoded -> authentic_record (e.1 ++ encoded).
Proof. intros (Hv%validate_verified & Ha & Hi & Hs) He. by exists e.1, e.2, encoded. Qed.

(** ** Runs *)

(** What may happen to the store: the three ways a signed statement is accepted,
    and anything that leaves the signed statements alone. *)
Inductive signed_step : St -> St -> Prop :=
| step_signed s st key now r s' :
    len key = 32 -> SignedRevocation.sized st ->
    RevocationStore.accept_signed s st key now = (r, s') -> signed_step s s'
| step_delegation s st root delegated now r s' :
    len root = 32 -> SignedRevocation.sized st ->
    RevocationStore.accept_delegation_signed s st root delegated now = (r, s') -> signed_step s s'
| step_batch s bytes now r s' :
    is_bytes bytes -> RevocationStore.accept_signed_batch s bytes now = (r, s') -> signed_step s s'
| step_other s s' :
    (forall k, starts_with SIGNED_REVOCATION_PREFIX k = true ->
       contents s' Namespace.Trust !! k = contents s Namespace.Trust !! k) -> signed_step s s'.

Lemma write_signed_authentic s st key now invalid ok refusal r s' :
  authentic s -> len key = 32 -> SignedRevocation.sized st -> (ok = true -> authorized st) ->
  RevocationStore.write_signed s st
    (RevocationStore.prepare_signed_revocation s st key now invalid ok refusal) = (r, s') -> authentic s'.
Proof.
  intros Ha Hk Hs Hok E. destruct r as [[]|e].
  - apply write_signed_stored in E as (value & Hp & Hc).
    apply prepared_signed in Hp as (Hv & Ho & encoded & He & ->). intros k v Hl Hpre. rewrite Hc in Hl.
    apply lookup_insert_Some in Hl as [[<- <-]|[_ Hl]]; [|by apply (Ha k)].
    apply (good_entry_record now (key, st)); [|done]. split_and!; [done|by apply Hok|done|done].
  - apply write_signed_failed in E as Hc. intros k v. rewrite Hc. apply Ha.
Qed.

Lemma signed_step_authentic s s' : authentic s -> signed_step s s' -> authentic s'.
Proof.
  intros Ha Hstep. destruct Hstep as [s st key now r s' Hk Hs E|s st root d now r s' Hk Hs E|s bytes now r s' Hb E|s s' Hsame].
  - eapply write_signed_authentic; [done|exact Hk|exact Hs| |exact E]. by left.
  - eapply write_signed_authentic; [done|exact Hk|exact Hs| |exact E]. intros Hd%bool_decide_eq_true_1. right. by exists d.
  - destruct (batch_outcome _ _ _ _ _ Hb E) as [Hc|(entries & writes & _ & Hc & Hg & Hw)]; intros k v; rewrite Hc; [apply Ha|].
    intros [Hin|Hl]%insert_all_lookup Hp; [|by apply (Ha k)].
    apply list_elem_of_lookup in Hin as [i Hi]. destruct (Forall2_lookup_r _ _ _ _ _ Hw Hi) as (e & He & encoded & Hen & [= -> ->]).
    eapply good_entry_record; [|exact Hen]. rewrite list.Forall_lookup in Hg. by apply (Hg i).
  - intros k v Hl Hp. apply (Ha k); [|done]. by rewrite <- Hsame.
Qed.

Lemma signed_steps_authentic s s' : authentic s -> rtc signed_step s s' -> authentic s'.
Proof. induction 2; eauto using signed_step_authentic. Qed.

(** ** From one node to another *)

Definition sealed (st : SignedRevocation.t) : list u8 := SignedRevocation.signed_bytes st ++ st.(SignedRevocation.signature).

Definition batch_item (e : list u8 * SignedRevocation.t) : list u8 := e.1 ++ to_be_bytes 2 (len (sealed e.2)) ++ sealed e.2.

(** An entry that can be sent. *)
Definition sendable (e : list u8 * SignedRevocation.t) : Prop :=
  len e.1 = 32 /\ SignedRevocation.sized e.2 /\ SignedRevocation.to_bytes e.2 = Ok (sealed e.2).

Definition in_force (now : u64) (e : list u8 * SignedRevocation.t) : bool := negb (inactive e.2 now).

Lemma to_bytes_sealed st encoded : SignedRevocation.to_bytes st = Ok encoded -> encoded = sealed st.
Proof. intros ([] & _ & H)%bind_Ok. cbv zeta in H. destruct (_ <? _); [done|]. by apply (inj Ok) in H as <-. Qed.

Lemma sealed_inj a b :
  SignedRevocation.sized a -> SignedRevocation.sized b ->
  SignedRevocation.to_bytes a = Ok (sealed a) -> SignedRevocation.to_bytes b = Ok (sealed a) -> a = b.
Proof.
  intros Ha Hb Hta Htb. apply (revocation_from_to _ _ Ha) in Hta as [_ Hfa]. apply (revocation_from_to _ _ Hb) in Htb as [_ Hfb].
  rewrite Hfa in Hfb. by apply (inj Ok) in Hfb.
Qed.

Lemma export_entries_spec entries now count out count' out' :
  count <= MAX_SIGNED_BATCH_ENTRIES ->
  RevocationStore.export_entries entries now count out = Ok (count', out') ->
  exists taken, taken = take (N.to_nat (MAX_SIGNED_BATCH_ENTRIES - count)) (List.filter (in_force now) entries) /\
    out' = out ++ concat (map batch_item taken) /\ count' = count + len taken /\
    Forall (fun e => SignedRevocation.to_bytes e.2 = Ok (sealed e.2)) taken /\
    (taken = [] \/ len out' <= MAX_SIGNED_BATCH_BYTES).
Proof.
  revert count out. induction entries as [|[issuer st] entries IH]; intros count out Hc H; cbn [RevocationStore.export_entries] in H.
  - injection H as <- <-. exists []. cbn [List.filter]. rewrite take_nil, app_nil_r, len_nil, N.add_0_r. split_and!; try done; by left.
  - cbn [List.filter]. unfold in_force at 1. cbn [snd]. destruct (inactive st now); cbn [negb]; [by apply IH in H|].
    destruct (N.eqb_spec count MAX_SIGNED_BATCH_ENTRIES) as [->|Hne].
    { injection H as <- <-. exists []. cbn [map concat].
      split_and!; [by rewrite N.sub_diag|by rewrite app_nil_r|rewrite len_nil; lia|done|by left]. }
    apply bind_Ok in H as (encoded & He%map_err_Ok & H). pose proof (to_bytes_sealed _ _ He) as ->.
    apply bind_Ok in H as (length & Hl & H). unfold be16_or in Hl. destruct (_ <? _); [done|]. apply (inj Ok) in Hl as <-. cbv zeta in H.
    destruct (N.ltb_spec MAX_SIGNED_BATCH_BYTES (len (out ++ issuer ++ to_be_bytes 2 (len (sealed st)) ++ sealed st))); [done|].
    assert (Hlt : count < MAX_SIGNED_BATCH_ENTRIES) by lia.
    destruct (IH (count + 1) _ ltac:(lia) H) as (taken & -> & -> & -> & Hf & Hb). clear IH.
    exists ((issuer, st) :: take (N.to_nat (MAX_SIGNED_BATCH_ENTRIES - (count + 1))) (List.filter (in_force now) entries)).
    replace (N.to_nat (MAX_SIGNED_BATCH_ENTRIES - count)) with (S (N.to_nat (MAX_SIGNED_BATCH_ENTRIES - (count + 1)))) by lia.
    split; [done|]. split; [by rewrite <- app_assoc|]. split; [rewrite len_cons; lia|]. split; [by constructor|].
    right. destruct Hb as [-> |Hb]; [|done]. cbn [map concat]. by rewrite app_nil_r.
Qed.

Lemma reads_batch_item e : sendable e -> reads RevocationStore.read_batch_item (batch_item e) e.
Proof.
  destruct e as [issuer st]. unfold sendable, batch_item. cbn [fst snd]. intros (Hi & Hs & He).
  destruct (revocation_from_to _ _ Hs He) as [_ Hf]. unfold RevocationStore.read_batch_item.
  assert (Hl : len (sealed st) <= 256).
  { unfold SignedRevocation.to_bytes in He. apply bind_Ok in He as (_ & _ & He). cbv zeta in He. fold (sealed st) in He.
    destruct (N.ltb_spec MAX_REVOCATION_STATEMENT (len (sealed st))); [done|]. done. }
  eapply reads_bind; [by apply reads_slice_or|]. eapply reads_bind; [apply (reads_be _ 2); simpl; lia|].
  rewrite <- (app_nil_r (sealed st)) at 2. eapply reads_bind; [by apply reads_slice_or|].
  eapply reads_bind_nil; [apply reads_lift; by rewrite Hf|]. apply reads_ret.
Qed.

(** Whatever is admitted is on record, or among the entries to write. *)
Lemma admitted_kept existing entries e now entries' :
  Forall (fun c => SignedRevocation.sized c.2) (existing ++ entries) -> sendable e ->
  RevocationStore.admit_item existing entries e.1 e.2 now = Ok entries' ->
  e.2 ∈ (existing ++ entries').*2 /\ (entries' = entries \/ entries' = entries ++ [(e.1, e.2)]).
Proof.
  intros Hsz (_ & Hs & He) H. destruct (admitted_item _ _ _ _ _ _ H) as (_ & _ & Hes).
  split; [|done]. unfold RevocationStore.admit_item in H. apply bind_Ok in H as (_ & _ & H). destruct (_ && _); [done|].
  rewrite He in H. cbn [map_err mbind Result_bind] in H. cbv beta zeta in H.
  do 2 (destruct (existsb _ _ || existsb _ _); [done|]). destruct (existsb _ _ || existsb _ _) eqn:Ex; apply (inj Ok) in H as <-.
  - assert (exists c, c ∈ existing ++ entries /\ RevocationStore.same_bytes c.2 (sealed e.2) = true) as (c & Hin & Hsame).
    { apply orb_true_iff in Ex as [Ex|Ex]; apply existsb_exists in Ex as (c & Hin%list_elem_of_In & [_ ?]%andb_true_iff);
        exists c; rewrite elem_of_app; auto. }
    unfold RevocationStore.same_bytes in Hsame. destruct (SignedRevocation.to_bytes c.2) as [b|] eqn:Eb; [|done].
    apply bool_decide_eq_true_1 in Hsame as ->. rewrite list.Forall_forall in Hsz.
    rewrite (sealed_inj e.2 c.2 Hs (Hsz c Hin) He Eb). apply list_elem_of_fmap. by exists c.
  - apply list_elem_of_fmap. exists (e.1, e.2). rewrite !elem_of_app, list_elem_of_singleton. auto.
Qed.

Lemma read_batch_items existing now pre taken post :
  Forall (fun c => SignedRevocation.sized c.2) existing -> Forall sendable taken ->
  len (pre ++ concat (map batch_item taken) ++ post) <= usize_max ->
  forall entries entries' pos', Forall (fun c => SignedRevocation.sized c.2) entries ->
  RevocationStore.read_batch (length taken) existing entries now (pre ++ concat (map batch_item taken) ++ post) (len pre) =
    Ok (entries', pos') ->
  (forall e, e ∈ taken -> e.2 ∈ (existing ++ entries').*2) /\ exists more, entries' = entries ++ more.
Proof.
  intros Hex Ht. revert pre. induction Ht as [|e taken He Ht IH]; intros pre Hl entries entries' pos' Hsz H;
    cbn [length RevocationStore.read_batch] in H.
  - injection H as <- _. split; [by intros e ?%elem_of_nil|]. exists []. by rewrite app_nil_r.
  - cbn [map concat] in *. rewrite <- app_assoc in H, Hl. unfold mbind at 1, Dec_bind at 1 in H.
    rewrite (reads_batch_item e He) in H by done. destruct e as [issuer st]. cbv beta iota in H.
    unfold mbind at 1, Dec_bind at 1 in H. destruct (lift _ _ _) as [[es p2]|] eqn:E2; [|done].
    apply bind_Ok in E2 as (es' & Ha & [= <- <-]).
    destruct (admitted_kept existing entries (issuer, st) now es') as [Hin Hes]; [by apply list.Forall_app|done|done|].
    assert (Hsz' : Forall (fun c : list u8 * SignedRevocation.t => SignedRevocation.sized c.2) es').
    { destruct Hes as [-> | ->]; [done|]. apply list.Forall_app. split; [done|]. by apply list.Forall_singleton, He. }
    rewrite app_assoc in H, Hl. rewrite <- len_app in H. destruct (IH _ Hl _ _ _ Hsz' H) as [Hrest [more ->]].
    split; [|destruct Hes as [-> | ->]; [by eexists|rewrite <- app_assoc; by eexists]].
    intros e [-> |Hin']%elem_of_cons; [|by apply Hrest]. rewrite !fmap_app, !elem_of_app in *. tauto.
Qed.

(** A statement with another signature. *)
Definition resigned (st : SignedRevocation.t) (signature : list u8) : SignedRevocation.t :=
  SignedRevocation.mk st.(SignedRevocation.version) st.(SignedRevocation.issuer_endpoint_id) st.(SignedRevocation.subject)
    st.(SignedRevocation.sequence) st.(SignedRevocation.issued_at_ms) st.(SignedRevocation.expires_at_ms) signature.

(** What a statement says is in its signed bytes. *)
Lemma revocation_signed_inj a b :
  SignedRevocation.sized a -> SignedRevocation.sized b ->
  SignedRevocation.to_bytes a = Ok (sealed a) -> SignedRevocation.to_bytes b = Ok (sealed b) ->
  SignedRevocation.signed_bytes a = SignedRevocation.signed_bytes b -> a = resigned b a.(SignedRevocation.signature).
Proof.
  intros Ha Hb Hta Htb E. apply sealed_inj; [done| |done|].
  - destruct Ha as (_ & _ & _ & _ & _ & _ & Hg). by destruct Hb as (? & ? & ? & ? & ? & ? & _).
  - apply bind_Ok in Hta as (_ & _ & Hta). apply bind_Ok in Htb as ([] & Hv & _). cbv zeta in Hta. fold (sealed a) in Hta.
    assert (Hsame : SignedRevocation.signed_bytes (resigned b a.(SignedRevocation.signature)) ++
              (resigned b a.(SignedRevocation.signature)).(SignedRevocation.signature) = sealed a).
    { unfold sealed. by rewrite E. }
    unfold SignedRevocation.to_bytes. rewrite Hsame.
    change (SignedRevocation.validate_structure (resigned b _)) with (SignedRevocation.validate_structure b).
    rewrite Hv. cbn [mbind Result_bind]. exact Hta.
Qed.

Lemma signed_revocation_key_inj a b :
  SignedRevocation.sized a -> SignedRevocation.sized b -> signed_revocation_key a = signed_revocation_key b ->
  SignedRevocation.signed_bytes a = SignedRevocation.signed_bytes b.
Proof.
  intros (_ & Ha & _) (_ & Hb & _) H%app_inv_head. apply app_inj_1 in H as [_ H]; [done|]. unfold len in *. lia.
Qed.

Lemma authentic_entries s entries issuer st :
  authentic s -> RevocationStore.signed_record_entries s = Ok entries -> (issuer, st) ∈ entries ->
  sendable (issuer, st) /\ contents s Namespace.Trust !! signed_revocation_key st = Some (issuer ++ sealed st).
Proof.
  intros Ha (l & Hsc & Hc)%bind_Ok Hin. destruct (collect_entries_from _ _ _ _ _ Hc Hin) as (k & v & Hkv & Hp & Hd).
  apply (scan_elem _ _ _ k v Hsc) in Hkv.
  destruct (authentic_decodes _ _ _ _ (Ha k v Hkv Hp) Hd) as (_ & Hs & Hi & _ & -> & encoded & He & ->).
  pose proof (to_bytes_sealed _ _ He) as ->. done.
Qed.

Definition batch_bytes (taken : list (list u8 * SignedRevocation.t)) : list u8 :=
  RevocationStore.batch_magic ++ to_be_bytes 2 (len taken) ++ concat (map batch_item taken).

(** What the preparation of a batch has found. *)
Lemma prepared_batch t taken now entries writes :
  authentic t -> Forall sendable taken -> len taken <= u16_max ->
  RevocationStore.prepare_batch t (batch_bytes taken) now = Ok (entries, writes) ->
  exists existing, RevocationStore.signed_record_entries t = Ok existing /\
    (forall e, e ∈ taken -> e.2 ∈ (existing ++ entries).*2) /\
    Forall2 (fun (e : list u8 * SignedRevocation.t) w => exists encoded, SignedRevocation.to_bytes e.2 = Ok encoded /\
       w = (signed_revocation_key e.2, e.1 ++ encoded)) entries writes.
Proof.
  intros Ha Ht Hn H. unfold RevocationStore.prepare_batch in H.
  destruct (N.ltb_spec MAX_SIGNED_BATCH_BYTES (len (batch_bytes taken))) as [|Hlen]; [done|]. cbn [orb] in H.
  case_bool_decide; [|done]. cbn [negb] in H. apply bind_Ok in H as (c & Hc%ok_or_Ok & H). cbv zeta in H.
  assert (c = to_be_bytes 2 (len taken)) as ->.
  { rewrite (get_range_is _ RevocationStore.batch_magic (to_be_bytes 2 (len taken)) _ 3 5) in Hc by done. by injection Hc. }
  rewrite from_to_be_bytes in H by (unfold u16_max in Hn; simpl; lia). destruct (_ <? _); [done|].
  apply bind_Ok in H as (existing & Hex%map_err_Ok & H). exists existing. split; [done|].
  apply bind_Ok in H as ([es off] & Hr & H). destruct (negb _); [done|]. apply bind_Ok in H as (ws & Hw & [= -> ->]).
  split; [|by eapply batch_writes_spec].
  unfold batch_bytes in Hr, Hlen. rewrite app_assoc, <- (app_nil_r (concat _)) in Hr, Hlen.
  unfold len in Hr at 1. rewrite Nat2N.id in Hr.
  change 5 with (len (RevocationStore.batch_magic ++ to_be_bytes 2 (len taken))) in Hr.
  eapply read_batch_items in Hr as [Hin _]; [done| |done| |constructor].
  - apply list.Forall_forall. intros [i st] Hi. by apply (authentic_entries _ _ _ _ Ha Hex) in Hi as [(_ & ? & _) _].
  - unfold MAX_SIGNED_BATCH_BYTES, usize_max, u64_max in *. lia.
Qed.

(** After a batch has been taken in, every statement of it is on record, with one
    signature or another. *)
Lemma batch_recorded t taken now n t' e :
  authentic t -> Forall sendable taken -> len taken <= u16_max ->
  RevocationStore.accept_signed_batch t (batch_bytes taken) now = (Ok n, t') ->
  e ∈ taken -> is_Some (contents t' Namespace.Trust !! signed_revocation_key e.2).
Proof.
  intros Ha Ht Hn H Hin. unfold RevocationStore.accept_signed_batch in H.
  destruct (RevocationStore.prepare_batch _ _ _) as [[entries writes]|] eqn:E; [|done].
  destruct (prepared_batch _ _ _ _ _ Ha Ht Hn E) as (existing & Hex & Hall & Hw).
  assert (Hor : is_Some (contents t Namespace.Trust !! signed_revocation_key e.2) \/ signed_revocation_key e.2 ∈ writes.*1).
  { specialize (Hall e Hin). rewrite fmap_app, elem_of_app, !list_elem_of_fmap in Hall.
    destruct Hall as [([i st] & -> & Hi)|(e' & -> & Hi)].
    - left. destruct (authentic_entries _ _ _ _ Ha Hex Hi) as [_ Hc]. eexists. exact Hc.
    - right. apply list_elem_of_lookup in Hi as [j Hj]. destruct (Forall2_lookup_l _ _ _ _ _ Hw Hj) as (w & Hjw & enc & _ & ->).
      apply list_elem_of_fmap. eexists. split; [|by eapply list_elem_of_lookup_2]. done. }
  destruct (N.eqb_spec (len writes) 0) as [H0|_].
  - injection H as _ <-. apply len_0_nil in H0 as ->. by destruct Hor as [?|?%elem_of_nil].
  - unfold after_write in H. destruct (store_put_batch _ _ _) as [[[]|] s1] eqn:Ep; [|done]. injection H as _ <-.
    apply batch_same in Ep as ->. by apply insert_all_some.
Qed.

(** What an export holds. *)
Lemma exported_batch s now bytes :
  authentic s -> RevocationStore.export_signed_batch_at s now = Ok bytes ->
  exists entries taken, RevocationStore.signed_record_entries s = Ok entries /\
    taken = take (N.to_nat MAX_SIGNED_BATCH_ENTRIES) (List.filter (in_force now) entries) /\
    bytes = batch_bytes taken /\ Forall sendable taken /\ len taken <= u16_max.
Proof.
  intros Ha (entries & He%map_err_Ok & H)%bind_Ok. apply bind_Ok in H as ([count out] & Hx & H).
  apply bind_Ok in H as (cb & Hcb & <-%(inj Ok)). apply export_entries_spec in Hx as (taken & Htk & -> & -> & Hf & _); [|done].
  rewrite N.sub_0_r in Htk. exists entries, taken. unfold be16_or in Hcb. rewrite N.add_0_l in Hcb.
  destruct (N.ltb_spec u16_max (len taken)); [done|]. apply (inj Ok) in Hcb as <-. split_and!; try done.
  apply list.Forall_forall. intros [i st] Hi. apply (authentic_entries _ _ _ _ Ha He).
  rewrite Htk in Hi. apply subseteq_take in Hi. apply list_elem_of_In in Hi. apply filter_In in Hi as [Hi _]. by apply list_elem_of_In.
Qed.

End Signed.

(** ** Bindings seen before *)

Section Tofu.
Context {St : Type} `{HS : Store St} {HSL : StoreLaws St} `{HP : Primitives} {HPL : PrimitiveLaws} `{HC : Curves}.

Lemma tofu_decode_encode endpoint r :
  len r.(TofuRecord.binding_digest) = 32 ->
  exists r', TofuRecord.decode endpoint (TofuRecord.encode r) = Ok r' /\
    r'.(TofuRecord.binding_digest) = r.(TofuRecord.binding_digest).
Proof.
  intros Hd. unfold TofuRecord.decode.
  assert (len (TofuRecord.encode r) = 57) as -> by (unfold TofuRecord.encode; rewrite !len_app, !len_to_be_bytes, Hd; done).
  cbn [N.eqb Pos.eqb negb orb]. eexists. split; [done|]. cbn [TofuRecord.binding_digest].
  unfold TofuRecord.encode. cbn [app drop]. apply take_app_length'. unfold len in Hd. lia.
Qed.

(** The digest on record of an endpoint's binding. *)
Definition pinned (s : St) (endpoint digest : list u8) : Prop :=
  exists v r, contents s Namespace.Trust !! tofu_key endpoint = Some v /\ TofuRecord.decode endpoint v = Ok r /\
    r.(TofuRecord.binding_digest) = digest.

Lemma observed s b now s' :
  TofuStore.observe s b now = (Ok tt, s') ->
  pinned s' b.(IdentityBinding.endpoint_id) (TofuStore.binding_digest b) /\
  forall endpoint digest, pinned s endpoint digest ->
    pinned s' endpoint digest /\ (endpoint = b.(IdentityBinding.endpoint_id) -> digest = TofuStore.binding_digest b).
Proof.
  unfold TofuStore.observe. destruct (TofuStore.prepare_observe s b now) as [record|] eqn:E; [|done].
  unfold after_write. destruct (store_put _ _ _ _) as [[[]|] s1] eqn:Ep; [|done]. intros [= <-]. apply put_same in Ep.
  unfold TofuStore.prepare_observe in E. cbv zeta in E. apply bind_Ok in E as (_ & _ & E). apply bind_Ok in E as (found & Hg%map_err_Ok & E).
  apply get_contents in Hg.
  assert (Hrec : record.(TofuRecord.binding_digest) = TofuStore.binding_digest b /\
            forall digest, pinned s b.(IdentityBinding.endpoint_id) digest -> digest = TofuStore.binding_digest b).
  { destruct found as [v|].
    - apply bind_Ok in E as (r & Hr%map_err_Ok & E). case_bool_decide as Hd; [|done]. cbn [negb] in E.
      destruct (_ <? _); [done|]. apply (inj Ok) in E as <-. split; [done|]. intros d (v' & r' & Hv' & Hr' & <-).
      rewrite Hg in Hv'. injection Hv' as <-. rewrite Hr in Hr'. by apply (inj Ok) in Hr' as <-.
    - apply (inj Ok) in E as <-. split; [done|]. intros d (v & r & Hv & _). by rewrite Hg in Hv. }
  destruct Hrec as [Hrec Hsame].
  assert (Hnew : pinned s1 b.(IdentityBinding.endpoint_id) (TofuStore.binding_digest b)).
  { destruct (tofu_decode_encode b.(IdentityBinding.endpoint_id) record) as (r' & Hr' & Hd').
    - rewrite Hrec. apply extract_len.
    - exists (TofuRecord.encode record), r'. rewrite Ep, lookup_insert_eq. split_and!; [done|done|congruence]. }
  split; [done|]. intros endpoint digest Hp. destruct (decide (endpoint = b.(IdentityBinding.endpoint_id))) as [->|Hne].
  - rewrite (Hsame _ Hp). done.
  - split; [|done]. destruct Hp as (v & r & Hv & ?). exists v, r. rewrite Ep, lookup_insert_ne; [done|].
    intros Heq%app_inv_head. done.
Qed.

Lemma observe_failed s b now e s' :
  TofuStore.observe s b now = (Err e, s') -> contents s' Namespace.Trust = contents s Namespace.Trust.
Proof.
  unfold TofuStore.observe. destruct (TofuStore.prepare_observe s b now) as [record|]; [|by intros [= _ <-]]. unfold after_write.
  destruct (store_put _ _ _ _) as [[[]|] s1] eqn:E; [done|]. intros [= _ <-]. by apply (put_failed _ _ _ _ _ _ Namespace.Trust) in E.
Qed.

(** A run of observations, with whether each was accepted. *)
Fixpoint observe_all (s : St) (seen : list (IdentityBinding.t * u64)) : list bool * St :=
  match seen with
  | [] => ([], s)
  | (b, now) :: seen =>
      let '(r, s1) := TofuStore.observe s b now in
      let '(rs, s2) := observe_all s1 seen in
      (is_ok r :: rs, s2)
  end.

Lemma observe_all_pinned s seen endpoint digest j b now :
  pinned s endpoint digest -> seen !! j = Some (b, now) -> (observe_all s seen).1 !! j = Some true ->
  endpoint = b.(IdentityBinding.endpoint_id) -> digest = TofuStore.binding_digest b.
Proof.
  revert s j. induction seen as [|[b' now'] seen IH]; intros s j Hp Hj Hr He; [done|]. cbn [observe_all] in Hr.
  destruct (TofuStore.observe s b' now') as [r s1] eqn:E. specialize (IH s1). destruct (observe_all s1 seen) as [rs s2]. cbn [fst] in *.
  destruct j as [|j]; cbn [lookup list_lookup] in *.
  - injection Hj as -> ->. destruct r as [[]|]; [|done]. by apply observed in E as [_ Ho]; apply (Ho endpoint digest Hp).
  - apply (IH j); try done. destruct r as [[]|e]; [by apply observed in E as [_ Ho]; apply (Ho endpoint digest Hp)|].
    destruct Hp as (v & r & Hv & ?). exists v, r. by rewrite (observe_failed _ _ _ _ _ E).
Qed.

End Tofu.

(** ** Properties *)

Section Theorems.
Context {St : Type} `{HS : Store St} {HSL : StoreLaws St} `{HP : Primitives} `{HC : Curves}.

(** C14: A revocation is enforced: from the moment a node has accepted a signed
    revocation and for as long as the record is kept, no binding it names
    passes the revocation check while the statement is in force. *)
Theorem revocation_enforced s st key now s' s'' binding now' :
  len key = 32 -> SignedRevocation.sized st ->
  RevocationStore.accept_signed s st key now = (Ok tt, s') ->
  contents s'' Namespace.Trust !! signed_revocation_key st = contents s' Namespace.Trust !! signed_revocation_key st ->
  inactive st now' = false -> RevocationStore.names_binding st binding = true ->
  RevocationStore.check s'' binding now' <> Ok tt.
Proof.
  intros Hk Hs E Hkept Ha Hn Hok. apply write_signed_stored in E as (value & Hp & Hc).
  apply prepared_signed in Hp as (Hv%validate_verified & _ & encoded & He & ->).
  rewrite Hc, lookup_insert_eq in Hkept.
  destruct (check_statements _ _ _ _ _ Hok (signed_revocation_prefix st) Hkept) as (i & st' & Hd & Hcheck).
  rewrite decode_signed_record in Hd by done. rewrite Hv in Hd. injection Hd as <- <-. by rewrite Hcheck in Hn.
Qed.

(** Only the holder of an identity revokes it: whatever statements and
    batches a node is handed, in any order, when a binding is reported as
    revoked there is a local record of its endpoint, or a recovery revocation,
    or a signed statement in force that names it and whose signature verifies
    under a key whose endpoint identifier is the binding's own. *)
Theorem revocation_authentic s s' binding now e q :
  (forall k v, contents s Namespace.Trust !! k = Some v -> starts_with SIGNED_REVOCATION_PREFIX k = false) ->
  rtc signed_step s s' -> RevocationStore.check s' binding now = Err (RevocationError.Revoked e q) ->
  (exists r, RevocationStore.record s' binding.(IdentityBinding.endpoint_id) = Ok (Some r)) \/
  RecoveryStore.check s' binding now = Err RecoveryError.Revoked \/
  exists issuer st, inactive st now = false /\ RevocationStore.names_binding st binding = true /\
    endpoint_id issuer = binding.(IdentityBinding.endpoint_id) /\
    identity_verify issuer (SignedRevocation.signed_message st) st.(SignedRevocation.signature) = true.
Proof.
  intros Hnone Hsteps H. assert (Ha : authentic s').
  { eapply signed_steps_authentic; [|done]. intros k v Hl Hp. by rewrite (Hnone k v Hl) in Hp. }
  unfold RevocationStore.check in H. destruct (RevocationStore.record s' _) as [found|] eqn:Er; [|done].
  cbn [map_err mbind Result_bind] in H. destruct found as [r|]; [left; by exists r|right].
  destruct (RevocationStore.signed_records s') as [statements|] eqn:Es; [|done]. cbn [map_err mbind Result_bind] in H.
  destruct (existsb _ statements) eqn:Ex; [right|left; by destruct (RecoveryStore.check s' binding now) as [?|[]]].
  apply existsb_exists in Ex as (st & Hin%list_elem_of_In & [Hact%negb_true_iff Hname]%andb_true_iff).
  apply bind_Ok in Es as (l & Hl & <-%(inj Ok)). apply list_elem_of_fmap in Hin as ([issuer st'] & -> & Hin).
  apply bind_Ok in Hl as (entries & Hsc & Hc). destruct (collect_entries_from _ _ _ _ _ Hc Hin) as (k & v & Hkv & Hp & Hd).
  apply (scan_elem _ _ _ k v Hsc) in Hkv. destruct (authentic_decodes _ _ _ _ (Ha k v Hkv Hp) Hd) as (Hau & _ & _ & Hv & _).
  exists issuer, st'. split_and!; try done; cbn [snd] in *.
  - unfold SignedRevocation.verify_signature in Hv. apply bind_Ok in Hv as (_ & _ & Hv). case_bool_decide as Heid; [|done]. rewrite Heid.
    unfold RevocationStore.names_binding in Hname. destruct Hau as [Hself|[d Hd']]; [|by rewrite Hd' in Hname].
    unfold SignedRevocation.is_self_authorized in Hself. destruct st'.(SignedRevocation.subject); try done;
      apply bool_decide_eq_true_1 in Hself as <-; [by apply bool_decide_eq_true_1 in Hname|].
    by apply andb_true_iff in Hname as [?%bool_decide_eq_true_1 _].
  - unfold SignedRevocation.verify_signature in Hv. apply bind_Ok in Hv as (_ & _ & Hv). case_bool_decide; [|done].
    cbn [negb] in Hv. by destruct (identity_verify _ _ _).
Qed.

(** A batch of revocations is all or nothing: either the store keeps what
    it has, or every statement of the batch was valid, properly signed and
    authorised, and all the records are written at once. *)
Theorem revocation_batch_atomic s bytes now r s' :
  is_bytes bytes -> RevocationStore.accept_signed_batch s bytes now = (r, s') ->
  contents s' Namespace.Trust = contents s Namespace.Trust \/
  exists entries writes, r = Ok (len entries) /\ contents s' Namespace.Trust = insert_all writes (contents s Namespace.Trust) /\
    Forall (fun e => SignedRevocation.validate e.2 e.1 now = Ok tt /\ authorized e.2) entries /\
    Forall2 (fun (e : list u8 * SignedRevocation.t) w => exists encoded, SignedRevocation.to_bytes e.2 = Ok encoded /\
       w = (signed_revocation_key e.2, e.1 ++ encoded)) entries writes.
Proof.
  intros Hb E. destruct (batch_outcome _ _ _ _ _ Hb E) as [?|(entries & writes & Hr & Hc & Hg & Hw)]; [by left|right].
  exists entries, writes. split_and!; try done. eapply list.Forall_impl; [exact Hg|]. by intros e (? & ? & _).
Qed.

(** C15: Revocations travel: when one node has accepted a signed revocation and
    exports what it knows (no more than a batch holds), and another node takes
    the batch in, the second node too refuses the bindings the statement names
    while it is in force. *)
Theorem revocation_propagates s st key now s' now' bytes t n t' binding :
  authentic s -> authentic t -> len key = 32 -> SignedRevocation.sized st ->
  RevocationStore.accept_signed s st key now = (Ok tt, s') ->
  (forall entries, RevocationStore.signed_record_entries s' = Ok entries ->
     len (List.filter (in_force now') entries) <= MAX_SIGNED_BATCH_ENTRIES) ->
  RevocationStore.export_signed_batch_at s' now' = Ok bytes -> is_bytes bytes ->
  RevocationStore.accept_signed_batch t bytes now' = (Ok n, t') ->
  inactive st now' = false -> RevocationStore.names_binding st binding = true ->
  RevocationStore.check t' binding now' <> Ok tt.
Proof.
  intros Ha Hat Hk Hs E Hmax Hex Hb Hacc Hact Hname Hok.
  assert (Ha' : authentic s') by (eapply signed_step_authentic; [exact Ha|by eapply step_signed]).
  assert (Hat' : authentic t') by (eapply signed_step_authentic; [exact Hat|by eapply step_batch]).
  destruct (exported_batch _ _ _ Ha' Hex) as (entries & taken & Hen & Htk & -> & Hsend & Hlen).
  assert (Hin : (key, st) ∈ taken).
  { apply write_signed_stored in E as (value & Hp & Hc). apply prepared_signed in Hp as (Hv%validate_verified & _ & encoded & He & ->).
    rewrite Htk, take_ge by (specialize (Hmax _ Hen); unfold len in Hmax; lia).
    apply list_elem_of_In, filter_In. split; [apply list_elem_of_In|unfold in_force; cbn [snd]; by rewrite Hact].
    apply bind_Ok in Hen as (l & Hsc & Hco).
    destruct (collect_entries_elem _ _ _ _ (signed_revocation_key st) (key ++ encoded) Hco) as (a & Hd & Hin).
    - apply (scan_elem _ _ _ _ _ Hsc). by rewrite Hc, lookup_insert_eq.
    - apply signed_revocation_prefix.
    - rewrite decode_signed_record in Hd by done. rewrite Hv in Hd. by injection Hd as <-. }
  destruct (batch_recorded _ _ _ _ _ _ Hat Hsend Hlen Hacc Hin) as [v Hv]. cbn [snd] in Hv.
  destruct (check_statements _ _ _ _ _ Hok (signed_revocation_prefix st) Hv) as (i & st' & Hd & Hcheck).
  destruct (authentic_decodes _ _ _ _ (Hat' _ _ Hv (signed_revocation_prefix st)) Hd) as (_ & Hs' & _ & _ & Hkey & enc & He' & _).
  pose proof (to_bytes_sealed _ _ He') as ->. rewrite list.Forall_forall in Hsend. destruct (Hsend _ Hin) as (_ & _ & He).
  apply signed_revocation_key_inj in Hkey; [|done|done]. apply revocation_signed_inj in Hkey; [|done|done|done|done].
  rewrite Hkey in Hact, Hname. specialize (Hcheck Hact). unfold RevocationStore.names_binding in *. cbn in Hname. congruence.
Qed.

(** A delegation chain passes exactly when no revocation on record names one
    of its keys.  The statement's own validity does not enter: one that has
    expired stops the chain for good as well. *)
Theorem delegation_check_exact s chain now entries :
  chain.(StoredDelegationChain.certificates) <> [] -> RevocationStore.signed_record_entries s = Ok entries ->
  RevocationStore.check_delegation s chain now = Ok tt <->
  forall issuer st key, (issuer, st) ∈ entries -> st.(SignedRevocation.subject) = RevocationSubject.Delegation key ->
    key ∉ map SignedDelegation.delegated_public_key chain.(StoredDelegationChain.certificates).
Proof.
  intros Hc He. unfold RevocationStore.check_delegation. rewrite He.
  destruct (N.eqb_spec (len chain.(StoredDelegationChain.certificates)) 0) as [H0|_]; [by apply len_0_nil in H0|].
  cbn [map_err mbind Result_bind]. clear He. induction entries as [|[issuer st] entries IH]; cbn [RevocationStore.check_links].
  - split; [|done]. by intros _ issuer st key ?%elem_of_nil.
  - assert (Hskip : (forall key, st.(SignedRevocation.subject) = RevocationSubject.Delegation key ->
        key ∉ map SignedDelegation.delegated_public_key chain.(StoredDelegationChain.certificates)) ->
      RevocationStore.check_links entries chain now = Ok tt <->
      forall issuer' st' key, (issuer', st') ∈ (issuer, st) :: entries ->
        st'.(SignedRevocation.subject) = RevocationSubject.Delegation key ->
        key ∉ map SignedDelegation.delegated_public_key chain.(StoredDelegationChain.certificates)).
    { intros Hst. rewrite IH. split; intros H i' s' key Hin; [|apply (H i' s' key); by right].
      apply elem_of_cons in Hin as [[= -> ->]|Hin]; [apply Hst|by apply (H i')]. }
    destruct st.(SignedRevocation.subject) as [| |subject| |] eqn:Es; try (apply Hskip; by intros).
    case_bool_decide as Hin; cbn [negb]; [|apply Hskip; by intros ? [= <-]].
    split; [|intros H; exfalso; by apply (H issuer st subject); [left| |]].
    intros (_ & _ & H)%bind_Ok. by destruct (negb _).
Qed.

End Theorems.

Section Pinning.
Context {St : Type} `{HS : Store St} {HSL : StoreLaws St} `{HP : Primitives} {HPL : PrimitiveLaws} `{HC : Curves}.

(** C16: Trust on first use pins the binding: in any run of observations, all
    bindings of an endpoint that are accepted have the same digest; a changed
    one is never taken in, also after any number of others. *)
Theorem tofu_pins s seen i j a b now now' :
  seen !! i = Some (a, now) -> seen !! j = Some (b, now') ->
  (observe_all s seen).1 !! i = Some true -> (observe_all s seen).1 !! j = Some true ->
  a.(IdentityBinding.endpoint_id) = b.(IdentityBinding.endpoint_id) ->
  TofuStore.binding_digest a = TofuStore.binding_digest b.
Proof.
  revert s i j a b now now'.
  assert (Hlt : forall s i j a b now now', (i < j)%nat -> seen !! i = Some (a, now) -> seen !! j = Some (b, now') ->
    (observe_all s seen).1 !! i = Some true -> (observe_all s seen).1 !! j = Some true ->
    a.(IdentityBinding.endpoint_id) = b.(IdentityBinding.endpoint_id) ->
    TofuStore.binding_digest a = TofuStore.binding_digest b).
  { induction seen as [|[c t] seen IH]; intros s i j a b now now' Hij Hi Hj Hri Hrj He; [done|]. cbn [observe_all] in *.
    destruct (TofuStore.observe s c t) as [r s1] eqn:E. destruct (observe_all s1 seen) as [rs s2] eqn:Es. cbn [fst] in *.
    destruct j as [|j]; [lia|]. cbn [lookup list_lookup] in *. assert (Hs : (observe_all s1 seen).1 = rs) by (by rewrite Es).
    destruct i as [|i]; cbn [lookup list_lookup] in *; [|apply (IH s1 i j a b now now'); try done; [lia|by rewrite Hs|by rewrite Hs]].
    injection Hi as -> ->. destruct r as [[]|]; [|done]. apply observed in E as [Hp _].
    eapply observe_all_pinned; [exact Hp|exact Hj|by rewrite Hs|done]. }
  intros s i j a b now now' Hi Hj Hri Hrj He. destruct (Nat.lt_trichotomy i j) as [Hij|[->|Hji]].
  - by eapply Hlt.
  - rewrite Hi in Hj. by injection Hj as -> ->.
  - symmetry. by eapply Hlt.
Qed.

End Pinning.

(** ** Examples *)

#[local] Existing Instances memory_store memory_laws toy_primitives toy_laws toy_curves.

Definition sample_statement : SignedRevocation.t :=
  match SignedRevocation.sign sample_identity (RevocationSubject.Identity (endpoint_id sample_root)) 1 100 1000 with
  | Ok s => s
  | Err _ => SignedRevocation.mk 0 [] (RevocationSubject.Identity []) 0 0 0 []
  end.

Definition revoked_memory : Memory := (RevocationStore.accept_signed empty_memory sample_statement sample_root 100).2.

Lemma revoked_memory_eq : RevocationStore.accept_signed empty_memory sample_statement sample_root 100 = (Ok tt, revoked_memory).
Proof. unfold revoked_memory. rewrite (surjective_pairing (RevocationStore.accept_signed _ _ _ _)) at 1. f_equal. Qed.

Definition sample_victim : IdentityBinding.t :=
  IdentityBinding.mk 1 (endpoint_id sample_root) (zeros 32) (zeros 32) 0 5000 4 (zeros 32) (zeros 64).

Lemma revocation_enforced_witness :
  RevocationStore.check revoked_memory sample_victim 500 <> Ok tt /\
  RevocationStore.check revoked_memory (sample_binding_of 8) 500 = Ok tt.
Proof.
  split; [|by vm_compute].
  apply (revocation_enforced empty_memory sample_statement sample_root 100 revoked_memory revoked_memory sample_victim 500);
    [by vm_compute|by repeat split; vm_compute|apply revoked_memory_eq|done|by vm_compute|by vm_compute].
Defined.

Lemma revocation_authentic_witness :
  (exists r, RevocationStore.record revoked_memory (endpoint_id sample_root) = Ok (Some r)) \/
  RecoveryStore.check revoked_memory sample_victim 500 = Err RecoveryError.Revoked \/
  exists issuer st, inactive st 500 = false /\ RevocationStore.names_binding st sample_victim = true /\
    endpoint_id issuer = endpoint_id sample_root /\
    identity_verify issuer (SignedRevocation.signed_message st) st.(SignedRevocation.signature) = true.
Proof.
  apply (revocation_authentic empty_memory revoked_memory sample_victim 500 (endpoint_id sample_root) 4); [done| |by vm_compute].
  apply rtc_once. apply (step_signed _ sample_statement sample_root 100 (Ok tt));
    [by vm_compute|by repeat split; vm_compute|apply revoked_memory_eq].
Defined.

Definition sample_batch : list u8 :=
  match RevocationStore.export_signed_batch_at revoked_memory 500 with
  | Ok b => b
  | Err _ => []
  end.

Definition told_memory : Memory := (RevocationStore.accept_signed_batch empty_memory sample_batch 500).2.

Lemma told_memory_eq : RevocationStore.accept_signed_batch empty_memory sample_batch 500 = (Ok 1, told_memory).
Proof. unfold told_memory. rewrite (surjective_pairing (RevocationStore.accept_signed_batch _ _ _)) at 1. f_equal. Qed.

Lemma sample_batch_bytes : is_bytes sample_batch.
Proof.
  assert (H : forallb (fun b => b <=? u8_max) sample_batch = true) by (by vm_compute).
  apply list.Forall_forall. intros b Hb. apply N.leb_le. by apply (proj1 (forallb_forall _ _) H), list_elem_of_In.
Qed.

Lemma revocation_batch_atomic_witness :
  contents told_memory Namespace.Trust = contents empty_memory Namespace.Trust \/
  exists entries writes, Ok (E := RevocationError.t) 1 = Ok (len entries) /\
    contents told_memory Namespace.Trust = insert_all writes (contents empty_memory Namespace.Trust) /\
    Forall (fun e => SignedRevocation.validate e.2 e.1 500 = Ok tt /\ authorized e.2) entries /\
    Forall2 (fun (e : list u8 * SignedRevocation.t) w => exists encoded, SignedRevocation.to_bytes e.2 = Ok encoded /\
       w = (signed_revocation_key e.2, e.1 ++ encoded)) entries writes.
Proof. apply (revocation_batch_atomic empty_memory sample_batch 500 (Ok 1) told_memory); [apply sample_batch_bytes|apply told_memory_eq]. Defined.

Lemma empty_authentic : authentic empty_memory.
Proof. by intros k v H. Qed.

Lemma revocation_propagates_witness :
  RevocationStore.check told_memory sample_victim 500 <> Ok tt /\
  RevocationStore.check told_memory (sample_binding_of 8) 500 = Ok tt.
Proof.
  split; [|by vm_compute].
  apply (revocation_propagates empty_memory sample_statement sample_root 100 revoked_memory 500 sample_batch empty_memory 1
           told_memory sample_victim);
    [apply empty_authentic|apply empty_authentic|by vm_compute|by repeat split; vm_compute|apply revoked_memory_eq| |
     by vm_compute|apply sample_batch_bytes|apply told_memory_eq|by vm_compute|by vm_compute].
  intros entries E. assert (Hs : RevocationStore.signed_record_entries revoked_memory = Ok [(sample_root, sample_statement)]) by (by vm_compute).
  rewrite Hs in E. apply (inj Ok) in E as <-. by vm_compute.
Defined.

Definition sample_delegated : StoredDelegationChain.t := StoredDelegationChain.mk sample_root [[97]] [sample_certificate 1].

Definition undelegated : SignedRevocation.t :=
  match SignedRevocation.sign sample_identity (RevocationSubject.Delegation (IdentityKeyPair.public sample_new_identity)) 1 100 1000 with
  | Ok s => s
  | Err _ => SignedRevocation.mk 0 [] (RevocationSubject.Identity []) 0 0 0 []
  end.

Definition undelegated_memory : Memory :=
  (RevocationStore.accept_delegation_signed empty_memory undelegated sample_root (IdentityKeyPair.public sample_new_identity) 100).2.

(** The revocation has expired at 1,000 and still stops the chain at 5,000. *)
Lemma delegation_check_exact_witness :
  RevocationStore.check_delegation undelegated_memory sample_delegated 5000 <> Ok tt /\
  RevocationStore.check_delegation empty_memory sample_delegated 5000 = Ok tt.
Proof.
  assert (He : RevocationStore.signed_record_entries undelegated_memory = Ok [(sample_root, undelegated)]) by (by vm_compute).
  assert (Hk : map SignedDelegation.delegated_public_key sample_delegated.(StoredDelegationChain.certificates) =
            [IdentityKeyPair.public sample_new_identity]) by (by vm_compute).
  assert (Hu : undelegated.(SignedRevocation.subject) = RevocationSubject.Delegation (IdentityKeyPair.public sample_new_identity))
    by (by vm_compute).
  split.
  - intros H. refine (proj1 (delegation_check_exact undelegated_memory sample_delegated 5000 _ _ He) H sample_root undelegated _ _ Hu _);
      [done|left|]. rewrite Hk. left.
  - by vm_compute.
Defined.

Definition sample_seen : list (IdentityBinding.t * u64) :=
  [(IdentityBinding.sign sample_identity (zeros 32) 0 9000 1 (zeros 32), 100);
   (IdentityBinding.sign sample_new_identity (zeros 32) 0 9000 1 (zeros 32), 200);
   (IdentityBinding.sign sample_identity (zeros 32) 0 9000 1 (zeros 32), 300);
   (IdentityBinding.sign sample_identity (zeros 32) 0 9000 0 (zeros 32), 400)].

Lemma tofu_pins_witness :
  (observe_all empty_memory sample_seen).1 = [true; true; true; false] /\
  TofuStore.binding_digest (IdentityBinding.sign sample_identity (zeros 32) 0 9000 1 (zeros 32)) =
  TofuStore.binding_digest (IdentityBinding.sign sample_identity (zeros 32) 0 9000 1 (zeros 32)).
Proof.
  split; [by vm_compute|]. apply (tofu_pins empty_memory sample_seen 0 2 _ _ 100 300); by vm_compute.
Defined.
