(* ===== verification/Handshake.v ===== *)
(** * The handshake between two nodes

    The responder of the daemon (bins/umcd/src/handshake_responder.rs) over the
    node's store of delegations and revocations, and the client's attempt
    (crates/umc-core/src/node.rs, [connect_attempt]) as the steps between the
    packets it exchanges.  An honest exchange ends with the same secrets on both
    sides and each knowing the other; whatever CLIENT_AUTH the responder accepts
    carries a signature of the claimed identity over this very transcript. *)

From Stdlib Require Import Strings.String.
From stdpp Require Import gmap.
From S2P Require Import Prelude Codec Varint WireBytes Records Crypto Identity HandshakeMessages HandshakeKeys HandshakeAuth HandshakeGates Canonical Store TrustStatements Trust TrustGraph Recovery Revocation.

Definition BINDING_SKEW_MS : u64 := 300000.
Definition BINDING_WIRE_LEN : usize := 217.

(** What the responder reads of the daemon's state: the configuration's kill
    switches, realm and privacy floor, the node's keys and binding, the store. *)
Module RuntimeState.
Record t (St : Type) := mk {
  carrier_disabled : list u8 -> bool;
  protocol_version_disabled : u32 -> bool;
  crypto_profile_disabled : list u8 -> bool;
  realm_marker : list u8;
  is_private_network : bool;
  effective_privacy_profile : u8;
  identity : IdentityKeyPair.t;
  static_handshake : StaticHandshakeKeyPair.t;
  primary_binding : IdentityBinding.t;
  store : St
}.
End RuntimeState.
#[global] Arguments RuntimeState.mk {_} _ _ _ _ _ _ _ _ _ _.
#[global] Arguments RuntimeState.carrier_disabled {_} _ _.
#[global] Arguments RuntimeState.protocol_version_disabled {_} _ _.
#[global] Arguments RuntimeState.crypto_profile_disabled {_} _ _.
#[global] Arguments RuntimeState.realm_marker {_} _.
#[global] Arguments RuntimeState.is_private_network {_} _.
#[global] Arguments RuntimeState.effective_privacy_profile {_} _.
#[global] Arguments RuntimeState.identity {_} _.
#[global] Arguments RuntimeState.static_handshake {_} _.
#[global] Arguments RuntimeState.primary_binding {_} _.
#[global] Arguments RuntimeState.store {_} _.

Module PeerIdentity.
Record t := mk {
  client_static_public_key : list u8;
  binding : IdentityBinding.t;
  delegation_depth : option u8
}.
End PeerIdentity.

Module HandshakePending.
Record t := mk {
  transcript : Transcript.t;
  secret3 : list u8;
  secret4 : list u8;
  server_eid : list u8;
  session_secrets : SessionSecrets.t;
  selected_privacy : u8;
  machine : HandshakeMachine.t
}.

Definition application_keys_ready (p : t) : bool := HandshakeMachine.may_install_application_keys p.(machine).

Definition with_machine (p : t) (machine : HandshakeMachine.t) : t :=
  mk p.(transcript) p.(secret3) p.(secret4) p.(server_eid) p.(session_secrets) p.(selected_privacy) machine.

End HandshakePending.

Inductive ResponderResponse :=
| ServerHelloResponse (bytes : list u8) (pending : HandshakePending.t)
| VersionNegotiationResponse (bytes : list u8).

(** ** The responder *)

Section Responder.
Context {St : Type} `{Store St} `{Primitives, Curves}.

Definition apply_event (m : HandshakeMachine.t) (event : HandshakeEvent) : Result Failure HandshakeMachine.t :=
  map_err (message "handshake state") (HandshakeMachine.apply m event).

Definition handshake_traffic_secret (p : HandshakePending.t) (client_direction : bool) : list u8 :=
  derive_handshake_traffic_secret p.(HandshakePending.secret3)
    p.(HandshakePending.transcript).(Transcript.hash) client_direction.

(** The mode of the exchange; an offer of PSK-XX needs a matching invitation. *)
Definition select_mode (hello : ClientHello.t) (initial_dcid carrier_binding : list u8) (invitation_key : option (list u8))
    : Result Failure (list u8) :=
  if offers hello MODE_PSK_XX then
    match invitation_key with
    | Some invitation_key =>
        _ ← map_err (message "handshake admission failed")
          (PskAdmissionContext.verify_client_hello
             (PskAdmissionContext.mk invitation_key initial_dcid carrier_binding) hello);
        Ok MODE_PSK_XX
    | None => Err (Message "handshake admission failed")
    end
  else Ok MODE_XX.

(** The privacy level of the session: the stronger floor of the two. *)
Definition select_privacy (st : RuntimeState.t St) (hello : ClientHello.t) : Result Failure u8 :=
  requested_privacy ← ok_or (Message "invalid minimum privacy profile") (ClientHello.minimum_privacy_level hello);
  max_privacy ← ok_or Panic (privacy_profile_level MAX_SUPPORTED_PRIVACY_PROFILE);
  let local_privacy := st.(RuntimeState.effective_privacy_profile) in
  if max_privacy <? local_privacy then Err (Message "local privacy profile unsupported")
  else if max_privacy <? requested_privacy then Err (Message "privacy profile unsupported")
  else
    expected ← capabilities_hash_for_minimum_privacy hello.(ClientHello.minimum_privacy);
    if negb (bool_decide (hello.(ClientHello.capabilities_hash) = expected))
    then Err (Message "client capabilities hash mismatch")
    else Ok (N.max requested_privacy local_privacy).

(** From the selected mode on: the SERVER_HELLO and the state kept for
    CLIENT_AUTH.  [server_ephemeral] and [server_random] are drawn here. *)
Definition answer_hello (st : RuntimeState.t St) (carrier_binding hello_bytes : list u8) (hello : ClientHello.t)
    (client_static_public_key : list u8) (retry_context invitation_key : option (list u8))
    (selected_version : u32) (selected_mode : list u8) (selected_privacy : u8)
    (server_ephemeral : StaticHandshakeKeyPair.t) (server_random : list u8) : Result Failure ResponderResponse :=
  transcript ← map_err (message "transcript")
    (Transcript.update_message (Transcript.new selected_mode CRYPTO_PROFILE carrier_binding) Encoding.CLIENT_HELLO hello_bytes);
  let transcript := absorb_retry transcript retry_context in
  let client_ephemeral := hello.(ClientHello.client_ephemeral_public_key) in
  let dh_ee := StaticHandshakeKeyPair.diffie_hellman server_ephemeral client_ephemeral in
  extract1 ← handshake_extract1 selected_mode invitation_key hello carrier_binding dh_ee (Message "handshake admission failed");
  let binding := st.(RuntimeState.primary_binding) in
  let server_ephemeral_public := StaticHandshakeKeyPair.public server_ephemeral in
  encrypted_auth ← map_err (message "server auth")
    (encrypt_server_auth extract1 transcript.(Transcript.hash)
       (ServerAuthBlock.mk (StaticHandshakeKeyPair.public st.(RuntimeState.static_handshake))
          (IdentityBinding.signed_bytes binding ++ binding.(IdentityBinding.signature)) [])
       server_ephemeral_public server_random CRYPTO_PROFILE);
  canonical ← canonical_hash;
  let server_hello :=
    set_server_realm_marker
      (ServerHello.mk server_random server_ephemeral_public selected_version CRYPTO_PROFILE selected_mode encrypted_auth
         (canonical ++ [selected_privacy] ++ zeros 31))
      st.(RuntimeState.realm_marker) in
  server_hello_bytes ← map_err (message "server hello") (ServerHello.encode server_hello);
  transcript ← map_err (message "transcript")
    (Transcript.update_message transcript Encoding.SERVER_HELLO server_hello_bytes);
  let static_handshake := st.(RuntimeState.static_handshake) in
  let dh_es := StaticHandshakeKeyPair.diffie_hellman static_handshake client_ephemeral in
  let secret2 := extract extract1 dh_es in
  let dh_se := StaticHandshakeKeyPair.diffie_hellman server_ephemeral client_static_public_key in
  let secret3 := extract secret2 dh_se in
  let dh_ss := StaticHandshakeKeyPair.diffie_hellman static_handshake client_static_public_key in
  let secret4 := extract secret3 dh_ss in
  machine ← apply_event HandshakeMachine.new ReceiveClientHello;
  machine ← apply_event machine SendServerHello;
  machine ← apply_event machine InstallHandshakeKeys;
  Ok (ServerHelloResponse server_hello_bytes
        (HandshakePending.mk transcript secret3 secret4 (endpoint_id binding.(IdentityBinding.identity_public_key))
           (derive_session_secrets secret4 transcript.(Transcript.hash)) selected_privacy machine)).

Definition respond_hello_with_retry_context_and_psk (st : RuntimeState.t St) (carrier_binding hello_bytes
    client_static_public_key initial_dcid initial_scid : list u8) (retry_context invitation_key : option (list u8))
    (server_ephemeral : StaticHandshakeKeyPair.t) (server_random : list u8) : Result Failure ResponderResponse :=
  if st.(RuntimeState.carrier_disabled) (if utf8 carrier_binding then carrier_binding else [])
  then Err (Message "disabled carrier")
  else
    hello ← map_err (message "client hello") (ClientHello.decode hello_bytes);
    if negb (realm_marker_matches (client_realm_marker hello) st.(RuntimeState.realm_marker)
               st.(RuntimeState.is_private_network))
    then Err (Message "network realm mismatch")
    else
      match select_version hello.(ClientHello.supported_protocol_versions) with
      | None =>
          bytes ← build_version_negotiation initial_scid initial_dcid [SUPPORTED_PROTOCOL_VERSION];
          Ok (VersionNegotiationResponse bytes)
      | Some selected_version =>
          if st.(RuntimeState.protocol_version_disabled) selected_version then
            bytes ← build_version_negotiation initial_scid initial_dcid [];
            Ok (VersionNegotiationResponse bytes)
          else if st.(RuntimeState.crypto_profile_disabled) CRYPTO_PROFILE then Err (Message "disabled crypto profile")
          else
            selected_privacy ← select_privacy st hello;
            selected_mode ← select_mode hello initial_dcid carrier_binding invitation_key;
            answer_hello st carrier_binding hello_bytes hello client_static_public_key retry_context invitation_key
              selected_version selected_mode selected_privacy server_ephemeral server_random
      end.

(** The delegation chain after the signature, which the node must hold itself
    and no revocation name. *)
Definition read_delegation (st : RuntimeState.t St) (plaintext : list u8) (binding : IdentityBinding.t) (now_ms : u64)
    : Result Failure (option (list SignedDelegation.t)) :=
  let base_len := 32 + BINDING_WIRE_LEN + 64 in
  if len plaintext =? base_len then Ok None
  else
    tail ← ok_or (Message "client auth truncated") (get_from plaintext base_len);
    '(encoded, consumed) ← map_err (message "delegation chain framing") (WireBytes.decode tail HandshakeAuth.MAX_DELEGATION_CHAIN_BYTES);
    if negb (consumed =? len tail) then Err (Message "delegation chain trailing bytes")
    else
      chain ← map_err (message "delegation chain") (decode_delegation_chain encoded);
      persisted ← map_err (message "delegation store unavailable")
        (DelegationStore.valid_chain_for_public_key st.(RuntimeState.store) binding.(IdentityBinding.identity_public_key) now_ms);
      if negb (match persisted with
               | Some record => bool_decide (record.(StoredDelegationChain.certificates) = chain)
               | None => false
               end)
      then Err (Message "delegation chain is not locally authorized")
      else
        again ← map_err (message "delegation store unavailable")
          (DelegationStore.valid_chain_for_public_key st.(RuntimeState.store) binding.(IdentityBinding.identity_public_key) now_ms);
        _ ← (match again with
             | Some record =>
                 map_err (message "delegation revoked") (RevocationStore.check_delegation st.(RuntimeState.store) record now_ms)
             | None => Ok tt
             end);
        Ok (Some chain).

Definition delegation_depth_of (chain : option (list SignedDelegation.t)) : Result Failure (option u8) :=
  match chain with
  | None => Ok None
  | Some chain => if u8_max <? len chain then Err Panic else Ok (Some (len chain))
  end.

(** The decrypted CLIENT_AUTH: who the client is, once its binding and its
    signature over the transcript have been checked. *)
Definition authenticate_client (p : HandshakePending.t) (st : RuntimeState.t St) (plaintext : list u8) (now_ms : u64)
    : Result Failure PeerIdentity.t :=
  let client_auth_transcript := p.(HandshakePending.transcript).(Transcript.hash) in
  let truncated := Message "client auth truncated" in
  recovered_static ← ok_or truncated (get_range plaintext 0 32);
  peer_signature ← ok_or truncated (get_range plaintext (32 + BINDING_WIRE_LEN) (32 + BINDING_WIRE_LEN + 64));
  binding_bytes ← ok_or truncated (get_range plaintext 32 (32 + BINDING_WIRE_LEN));
  binding ← ok_or (Message "binding truncated") (parse_client_binding binding_bytes);
  delegation_chain ← read_delegation st plaintext binding now_ms;
  _ ← map_err (message "client binding invalid") (IdentityBinding.validate binding now_ms BINDING_SKEW_MS);
  if negb (bool_decide (binding.(IdentityBinding.static_handshake_public_key) = recovered_static))
  then Err (Message "client binding static key mismatch")
  else
    let sig_input :=
      client_signature_input client_auth_transcript binding.(IdentityBinding.endpoint_id) p.(HandshakePending.server_eid)
        recovered_static (StaticHandshakeKeyPair.public st.(RuntimeState.static_handshake)) in
    if negb (identity_verify binding.(IdentityBinding.identity_public_key) sig_input peer_signature)
    then Err (Message "client signature invalid")
    else
      depth ← delegation_depth_of delegation_chain;
      Ok (PeerIdentity.mk recovered_static binding depth).

(** [complete] up to its last assignment, with the machine to be assigned. *)
Definition complete_inner (p : HandshakePending.t) (st : RuntimeState.t St) (auth_bytes : list u8) (now_ms : u64)
    : Result Failure (list u8 * PeerIdentity.t * HandshakeMachine.t) :=
  machine ← apply_event p.(HandshakePending.machine) ReceiveClientAuth;
  let client_auth_transcript := p.(HandshakePending.transcript).(Transcript.hash) in
  let client_auth_key := expand32 p.(HandshakePending.secret3) (bstr "client auth key") client_auth_transcript in
  '(ciphertext, _) ← map_err (message "client auth framing") (WireBytes.decode auth_bytes 16384);
  plaintext ← decrypt_client_auth client_auth_key client_auth_transcript ciphertext;
  peer ← authenticate_client p st plaintext now_ms;
  transcript ← map_err (message "transcript")
    (Transcript.update_message p.(HandshakePending.transcript) Encoding.CLIENT_AUTH auth_bytes);
  let server_finished :=
    build_server_finished p.(HandshakePending.secret4) transcript.(Transcript.hash) st.(RuntimeState.identity)
      p.(HandshakePending.server_eid) peer.(PeerIdentity.binding).(IdentityBinding.endpoint_id)
      (StaticHandshakeKeyPair.public st.(RuntimeState.static_handshake)) peer.(PeerIdentity.client_static_public_key) in
  machine ← apply_event machine SendServerFinished;
  Ok (server_finished, peer, machine).

Definition complete (p : HandshakePending.t) (st : RuntimeState.t St) (auth_bytes : list u8) (now_ms : u64)
    : Result Failure (list u8 * SessionSecrets.t * PeerIdentity.t) * HandshakePending.t :=
  match complete_inner p st auth_bytes now_ms with
  | Err e => (Err e, p)
  | Ok (server_finished, peer, machine) =>
      (Ok (server_finished, p.(HandshakePending.session_secrets), peer), HandshakePending.with_machine p machine)
  end.

(** [HandshakePending::verify_client_finished] *)
Definition confirm_client (p : HandshakePending.t) (auth_bytes server_finished client_finished : list u8)
    : Result Failure unit * HandshakePending.t :=
  match
    machine ← apply_event p.(HandshakePending.machine) ReceiveClientFinished;
    _ ← verify_client_finished p.(HandshakePending.secret4) p.(HandshakePending.transcript)
          auth_bytes server_finished client_finished;
    apply_event machine Confirm
  with
  | Err e => (Err e, p)
  | Ok machine => (Ok tt, HandshakePending.with_machine p machine)
  end.

End Responder.

(** ** The client *)

(** Who the client is in this attempt: its keys, its binding, and the encoded
    delegation chain of a delegated identity (empty otherwise). *)
Module ClientSide.
Record t := mk {
  identity : IdentityKeyPair.t;
  static_handshake : StaticHandshakeKeyPair.t;
  binding : IdentityBinding.t;
  delegation_chain : list u8;
  realm_marker : list u8;
  private_realm : bool
}.
End ClientSide.

Section Client.
Context `{Primitives, Curves}.

(** The CLIENT_HELLO with its realm marker, and the token of a Retry once there
    has been one (empty before). *)
Definition client_hello (c : ClientSide.t) (client_random : list u8) (client_ephemeral : StaticHandshakeKeyPair.t)
    (retry_token : list u8) : Result Failure (ClientHello.t * list u8) :=
  hello ← ClientHello.new client_random client_ephemeral;
  let hello := (set_client_realm_marker hello c.(ClientSide.realm_marker)) <| ClientHello.retry_token := retry_token |> in
  bytes ← map_err (message "hello") (ClientHello.encode hello);
  Ok (hello, bytes).

(** From the decrypted response to the body of CLIENT_AUTH. *)
Definition client_auth (c : ClientSide.t) (client_ephemeral : StaticHandshakeKeyPair.t) (hello : ClientHello.t)
    (carrier_type : list u8) (retry_context expected_endpoint_id : option (list u8)) (server_hello_bytes : list u8)
    : Result Failure (ServerHello.t * ClientHandshakeOutput.t * list u8) :=
  server_hello ← map_err (message "server hello") (ServerHello.decode server_hello_bytes);
  if negb (realm_marker_matches (server_realm_marker server_hello) c.(ClientSide.realm_marker) c.(ClientSide.private_realm))
  then Err (Message "network realm mismatch")
  else
    out ← complete_client_side_with_mode client_ephemeral client_ephemeral hello server_hello carrier_type MODE_XX None retry_context;
    if (match expected_endpoint_id with
        | Some expected => negb (bool_decide (out.(ClientHandshakeOutput.server_endpoint_id) = expected))
        | None => false
        end)
    then Err (Message "server endpoint id does not match static peer")
    else
      let client_static := StaticHandshakeKeyPair.public c.(ClientSide.static_handshake) in
      let sig_input :=
        client_signature_input out.(ClientHandshakeOutput.transcript_hash)
          (endpoint_id (IdentityKeyPair.public c.(ClientSide.identity))) out.(ClientHandshakeOutput.server_endpoint_id)
          client_static out.(ClientHandshakeOutput.server_static_public_key) in
      let client_signature := IdentityKeyPair.sign c.(ClientSide.identity) sig_input in
      plaintext ← build_client_auth_plaintext_with_delegation client_static c.(ClientSide.binding) client_signature
                    c.(ClientSide.delegation_chain);
      ciphertext ← encrypt_client_auth out.(ClientHandshakeOutput.client_auth_key)
                     out.(ClientHandshakeOutput.transcript_hash) plaintext;
      auth_body ← put_bytes_or (Message "client auth") ciphertext Encoding.MAX_HANDSHAKE_MESSAGE [];
      Ok (server_hello, out, auth_body).

(** From SERVER_FINISHED to the confirmation: the transcript is built anew. *)
Definition client_finish (c : ClientSide.t) (carrier_type hello_bytes : list u8) (retry_context : option (list u8))
    (server_hello : ServerHello.t) (out : ClientHandshakeOutput.t) (auth_body server_finished : list u8)
    : Result Failure (list u8) :=
  transcript ← map_err (message "transcript")
    (Transcript.update_message (Transcript.new MODE_XX CRYPTO_PROFILE carrier_type) Encoding.CLIENT_HELLO hello_bytes);
  let transcript := absorb_retry transcript retry_context in
  server_hello_canonical ← map_err (message "server hello") (ServerHello.encode server_hello);
  transcript ← map_err (message "transcript")
    (Transcript.update_message transcript Encoding.SERVER_HELLO server_hello_canonical);
  '(confirmation, _) ← verify_server_finished_and_build_confirmation transcript out.(ClientHandshakeOutput.handshake_secret4)
    out.(ClientHandshakeOutput.server_identity_public_key) out.(ClientHandshakeOutput.server_endpoint_id)
    (endpoint_id (IdentityKeyPair.public c.(ClientSide.identity))) out.(ClientHandshakeOutput.server_static_public_key)
    (StaticHandshakeKeyPair.public c.(ClientSide.static_handshake)) auth_body server_finished;
  Ok confirmation.

End Client.

(** ** Lemmas *)

#[local] Arguments to_be_bytes : simpl never.
#[local] Opaque expand32 extract derive_session_secrets.

Section Exchange.
Context {St : Type} `{HS : Store St} `{HP : Primitives} {HPL : PrimitiveLaws} `{HC : Curves} {HCL : CurveLaws} {HT : AeadTotal}.

Lemma capabilities_made minimum :
  len minimum <= 8 -> exists caps, capabilities_hash_for_minimum_privacy minimum = Ok (blake2s caps).
Proof.
  intros Hm. unfold capabilities_hash_for_minimum_privacy, canonical_capabilities_with_extra.
  assert (Hw : writes (put_slice (bstr "UMP-CAPABILITIES-v1") >>> put_varint_or (fun _ => Panic) (len CANONICAL_CAPABILITY_IDS + 1) >>>
     put_all (fun id => put_bytes_or Panic id 64) CANONICAL_CAPABILITY_IDS >>>
     put_bytes_or Panic (bstr "privacy-min=" ++ minimum) 64) (19 + (8 + (7 * 72 + 72)))).
  { apply writes_seq; [apply writes_slice|]. apply writes_seq; [by apply writes_varint|].
    apply writes_seq; [|apply writes_bytes; [rewrite len_app; change (len (bstr "privacy-min=")) with 12; lia|done]].
    apply (writes_all _ 72 CANONICAL_CAPABILITY_IDS). repeat (apply list.Forall_cons_2; [by apply (writes_bytes Panic _ 64)|]).
    apply list.Forall_nil_2. }
  destruct (Hw []) as (bs & E & _). cbn [app] in E. rewrite E. cbn [mbind Result_bind]. by exists bs.
Qed.

Lemma canonical_hash_made : exists caps, canonical_hash = Ok (blake2s caps).
Proof.
  unfold canonical_hash. destruct (canonical_capabilities_with_extra None) as [caps|] eqn:E; [by exists caps|].
  exfalso. revert E. by vm_compute.
Qed.

(** A realm marker as the hash gives it: 32 bytes, not all of them zero. *)
Definition good_marker (marker : list u8) : Prop :=
  len marker = REALM_MARKER_LEN /\ forallb (fun b => b =? 0) marker = false.

(** A hello of one handshake mode as the client writes it, and reads back. *)
Record written_hello (marker random : list u8) (ephemeral : StaticHandshakeKeyPair.t) (mode token : list u8) (hello : ClientHello.t)
    (bytes : list u8) : Prop := {
  written_len : len bytes <= Encoding.MAX_HANDSHAKE_MESSAGE;
  written_decode : ClientHello.decode bytes = Ok hello;
  written_encode : ClientHello.encode hello = Ok bytes;
  written_ephemeral : hello.(ClientHello.client_ephemeral_public_key) = StaticHandshakeKeyPair.public ephemeral;
  written_modes : hello.(ClientHello.supported_handshake_modes) = [mode];
  written_versions : hello.(ClientHello.supported_protocol_versions) = [SUPPORTED_PROTOCOL_VERSION];
  written_privacy : hello.(ClientHello.minimum_privacy) = DEFAULT_MINIMUM_PRIVACY_PROFILE;
  written_caps : capabilities_hash_for_minimum_privacy DEFAULT_MINIMUM_PRIVACY_PROFILE = Ok hello.(ClientHello.capabilities_hash);
  written_marker : client_realm_marker hello = Some marker;
  written_sized : ClientHello.sized hello;
  written_version : hello.(ClientHello.version) <> 0;
  written_random : hello.(ClientHello.client_random) = random;
  written_token : hello.(ClientHello.retry_token) = token
}.

#[global] Arguments written_len {_ _ _ _ _ _ _} _.
#[global] Arguments written_decode {_ _ _ _ _ _ _} _.
#[global] Arguments written_encode {_ _ _ _ _ _ _} _.
#[global] Arguments written_ephemeral {_ _ _ _ _ _ _} _.
#[global] Arguments written_modes {_ _ _ _ _ _ _} _.
#[global] Arguments written_versions {_ _ _ _ _ _ _} _.
#[global] Arguments written_privacy {_ _ _ _ _ _ _} _.
#[global] Arguments written_caps {_ _ _ _ _ _ _} _.
#[global] Arguments written_marker {_ _ _ _ _ _ _} _.
#[global] Arguments written_sized {_ _ _ _ _ _ _} _.
#[global] Arguments written_version {_ _ _ _ _ _ _} _.
#[global] Arguments written_random {_ _ _ _ _ _ _} _.
#[global] Arguments written_token {_ _ _ _ _ _ _} _.

Lemma hello_written marker random ephemeral mode token :
  len random = 32 -> len token <= 1024 -> len mode <= 64 -> good_marker marker ->
  exists base bytes, ClientHello.new random ephemeral = Ok base /\ base.(ClientHello.supported_handshake_modes) = [MODE_XX] /\
    written_hello marker random ephemeral mode token
      ((set_client_realm_marker base marker) <| ClientHello.supported_handshake_modes := [mode] |> <| ClientHello.retry_token := token |>) bytes.
Proof.
  intros Hr Htok Hmode [Hm Hz]. unfold ClientHello.new, ClientHello.new_with_minimum_privacy.
  destruct (capabilities_made DEFAULT_MINIMUM_PRIVACY_PROFILE) as [caps Hcaps]; [done|]. rewrite Hcaps. cbn [mbind Result_bind].
  set (base := ClientHello.mk _ _ _ _ _ _ _ _ _ _ _ _). exists base.
  set (hello := _ <| ClientHello.retry_token := token |>).
  assert (Hp : len hello.(ClientHello.padding) <= 4096).
  { unfold hello, set_client_realm_marker. cbn [ClientHello.padding]. cbn.
    etransitivity; [by apply write_marker_len|]. by vm_compute. }
  assert (Hsz : ClientHello.sized hello).
  { unfold ClientHello.sized, hello, set_client_realm_marker. cbn. split_and!; try done; [apply x25519_public_len|by constructor|apply blake2s_len]. }
  assert (Hw : writes (ClientHello.put hello)
            (8 + (len hello.(ClientHello.client_random) + 
             (len hello.(ClientHello.client_ephemeral_public_key) + ((8 + 1 * 72) + ((8 + 1 * 72) + ((8 + 1 * 8) + 
             (len hello.(ClientHello.capabilities_hash) + ((8 + 8) + ((8 + 512) + ((8 + 1024) + ((8 + 64) + (8 + 4096))))))))))))).
  { unfold ClientHello.put.
    repeat apply writes_seq; try apply writes_slice; try (by apply writes_varint); try (by apply writes_bytes).
    - apply (writes_all _ 72 [CRYPTO_PROFILE]). constructor; [by apply (writes_bytes HelloBytes _ 64)|done].
    - apply (writes_all _ 72 [mode]). constructor; [by apply (writes_bytes HelloBytes _ 64)|done].
    - apply (writes_all _ 8 [SUPPORTED_PROTOCOL_VERSION]). constructor; [by apply writes_varint|done]. }
  destruct (Hw []) as (bs & E & Hl). cbn [app] in E. exists bs. split; [done|]. split; [done|].
  assert (Hl' : len bs <= 16384) by (destruct Hsz as (_ & Hr' & He' & _ & _ & _ & _ & Hc'); lia).
  split; try done.
  - pose proof (client_hello_decode hello bs [] Hsz E) as Hd. rewrite app_nil_r in Hd. apply Hd. unfold usize_max, u64_max. lia.
  - unfold hello, set_client_realm_marker, client_realm_marker. cbn. by apply read_write_marker.
Qed.

Lemma client_hello_made c random ephemeral token :
  len random = 32 -> len token <= 1024 -> good_marker c.(ClientSide.realm_marker) ->
  exists hello bytes, client_hello c random ephemeral token = Ok (hello, bytes) /\
    written_hello c.(ClientSide.realm_marker) random ephemeral MODE_XX token hello bytes.
Proof.
  intros Hr Htok Hm. destruct (hello_written c.(ClientSide.realm_marker) random ephemeral MODE_XX token Hr Htok) as (base & bytes & Hb & Hx & Hw);
    [done|done|].
  eexists _, bytes. split; [|exact Hw]. unfold client_hello. rewrite Hb. cbn [mbind Result_bind]. cbv zeta.
  assert (Hs : set_client_realm_marker base c.(ClientSide.realm_marker) =
    (set_client_realm_marker base c.(ClientSide.realm_marker)) <| ClientHello.supported_handshake_modes := [MODE_XX] |>).
  { unfold set_client_realm_marker. destruct base. cbn in *. by rewrite Hx. }
  pose proof (written_encode Hw) as He. rewrite <- Hs in He |- *. by rewrite He.
Qed.

(** Only the token tells the hellos of one attempt apart. *)
Lemma client_hello_token c random ephemeral token hello bytes token' hello' bytes' :
  client_hello c random ephemeral token = Ok (hello, bytes) -> client_hello c random ephemeral token' = Ok (hello', bytes') ->
  hello' = hello <| ClientHello.retry_token := token' |> /\ hello.(ClientHello.retry_token) = token.
Proof.
  unfold client_hello. intros (h & Hh & E)%bind_Ok (h' & Hh' & E')%bind_Ok. rewrite Hh in Hh'. apply (inj Ok) in Hh' as <-.
  cbv zeta in E, E'. apply bind_Ok in E as (b & _ & [= <- _]). apply bind_Ok in E' as (b' & _ & [= <- _]). done.
Qed.

(** The keys both sides derive from the two Diffie-Hellman ends: the schedule
    after the first extract. *)
Definition secret3_of (extract1 dh_es dh_se : list u8) : list u8 := extract (extract extract1 dh_es) dh_se.
Definition secret4_of (extract1 dh_es dh_se dh_ss : list u8) : list u8 := extract (secret3_of extract1 dh_es dh_se) dh_ss.

Definition server_block (st : RuntimeState.t St) : ServerAuthBlock.t :=
  ServerAuthBlock.mk (StaticHandshakeKeyPair.public st.(RuntimeState.static_handshake))
    (IdentityBinding.signed_bytes st.(RuntimeState.primary_binding) ++
     st.(RuntimeState.primary_binding).(IdentityBinding.signature)) [].

Lemma binding_wire_len b :
  IdentityBinding.sized b -> len (IdentityBinding.signed_bytes b ++ b.(IdentityBinding.signature)) = BINDING_WIRE_LEN.
Proof.
  intros (_ & He & Hi & Hs & _ & _ & _ & Hc & Hg). unfold IdentityBinding.signed_bytes.
  rewrite !len_app, !len_to_be_bytes, He, Hi, Hs, Hc, Hg. done.
Qed.

(** A SERVER_HELLO as the responder builds it is written and read back. *)
Lemma server_hello_made (random ephemeral mode auth canonical marker : list u8) (privacy : u8) :
  len random = 32 -> len ephemeral = 32 -> len mode <= 64 -> len auth <= 8192 -> len canonical = 32 -> good_marker marker ->
  let sh := set_server_realm_marker
      (ServerHello.mk random ephemeral SUPPORTED_PROTOCOL_VERSION CRYPTO_PROFILE mode auth (canonical ++ [privacy] ++ zeros 31)) marker in
  exists bytes, ServerHello.encode sh = Ok bytes /\ ServerHello.decode bytes = Ok sh /\
    len bytes <= Encoding.MAX_HANDSHAKE_MESSAGE /\ ServerHello.server_capabilities_hash sh = Some canonical /\
    server_realm_marker sh = Some marker /\ ServerHello.sized sh.
Proof.
  intros Hr He Hmode Ha Hc [Hm Hz] sh. set (padding := canonical ++ [privacy] ++ zeros 31) in *.
  assert (Hlp : len padding = 64) by (unfold padding; rewrite !len_app, Hc; done).
  assert (Hp : len sh.(ServerHello.padding) <= 4096).
  { unfold sh, set_server_realm_marker. cbn. etransitivity; [by apply write_marker_len|]. rewrite Hlp. by vm_compute. }
  assert (Hsz : ServerHello.sized sh) by done.
  assert (Hw : writes (ServerHello.put sh) (len random + (len ephemeral + (8 + ((8 + 64) + ((8 + 64) + ((8 + 8192) + (8 + 4096)))))))).
  { unfold ServerHello.put. repeat apply writes_seq; try apply writes_slice; try (by apply writes_varint); by apply writes_bytes. }
  destruct (Hw []) as (bs & E & Hl). cbn [app] in E. exists bs. split; [done|].
  assert (Hl' : len bs <= 16384) by lia. split; [|split; [done|split; [|split; [|exact Hsz]]]].
  - pose proof (server_hello_decode sh bs [] Hsz E) as Hd. rewrite app_nil_r in Hd. apply Hd. unfold usize_max, u64_max. lia.
  - unfold ServerHello.server_capabilities_hash, sh, set_server_realm_marker. cbn.
    destruct (write_marker_prefix padding SERVER_REALM_MARKER_OFFSET marker canonical ([privacy] ++ zeros 31)) as [rest ->];
      [done|by rewrite Hc|]. by apply (get_range_is _ [] canonical rest).
  - unfold server_realm_marker, sh, set_server_realm_marker. cbn. by apply read_write_marker.
Qed.

(** The transcript through CLIENT_HELLO, on either side. *)
Definition first_transcript (carrier hello_bytes : list u8) (retry : option (list u8)) : Result Transcript.error Transcript.t :=
  t ← Transcript.update_message (Transcript.new MODE_XX CRYPTO_PROFILE carrier) Encoding.CLIENT_HELLO hello_bytes;
  Ok (absorb_retry t retry).

Lemma first_transcript_made carrier hello_bytes retry :
  len hello_bytes <= Encoding.MAX_HANDSHAKE_MESSAGE -> len (default [] retry) <= 1024 ->
  exists t1, first_transcript carrier hello_bytes retry = Ok t1 /\ len t1.(Transcript.hash) = 32 /\ t1.(Transcript.total_bytes) <= 17424.
Proof.
  intros Hh Hr. unfold first_transcript, Encoding.MAX_HANDSHAKE_MESSAGE in *.
  destruct (update_message_Ok (Transcript.new MODE_XX CRYPTO_PROFILE carrier) Encoding.CLIENT_HELLO hello_bytes) as (t & -> & Hl & Ht);
    [done|done|cbn [Transcript.new Transcript.total_bytes]; unfold Transcript.MAX_TRANSCRIPT; lia|].
  cbn [mbind Result_bind]. eexists. split; [done|]. cbn [Transcript.new Transcript.total_bytes] in Ht.
  destruct retry as [r|]; cbn [absorb_retry Transcript.update_bytes Transcript.hash Transcript.total_bytes]; simpl in Hr;
    [split; [apply blake2s_len|lia]|split; [done|lia]].
Qed.

(** The responder's state once it has answered. *)
Definition pending_of (st : RuntimeState.t St) (ce se : StaticHandshakeKeyPair.t) (t2 : Transcript.t) (privacy : u8) : HandshakePending.t :=
  let static_handshake := st.(RuntimeState.static_handshake) in
  let cpub := StaticHandshakeKeyPair.public ce in
  let extract1 := extract (zeros 32) (StaticHandshakeKeyPair.diffie_hellman se cpub) in
  let es := StaticHandshakeKeyPair.diffie_hellman static_handshake cpub in
  let se := StaticHandshakeKeyPair.diffie_hellman se cpub in
  HandshakePending.mk t2 (secret3_of extract1 es se) (secret4_of extract1 es se es)
    (endpoint_id st.(RuntimeState.primary_binding).(IdentityBinding.identity_public_key))
    (derive_session_secrets (secret4_of extract1 es se es) t2.(Transcript.hash)) privacy
    (HandshakeMachine.mk HandshakeKeys false false).

(** What the client holds once it has read the answer. *)
Definition output_of (st : RuntimeState.t St) (p : HandshakePending.t) : ClientHandshakeOutput.t :=
  let hash := p.(HandshakePending.transcript).(Transcript.hash) in
  ClientHandshakeOutput.mk p.(HandshakePending.session_secrets) p.(HandshakePending.secret4) p.(HandshakePending.secret3)
    (expand32 p.(HandshakePending.secret3) (bstr "client auth key") hash) hash p.(HandshakePending.server_eid)
    st.(RuntimeState.primary_binding).(IdentityBinding.identity_public_key)
    (StaticHandshakeKeyPair.public st.(RuntimeState.static_handshake)).

Lemma binding_identity_key b :
  IdentityBinding.sized b ->
  get_range (IdentityBinding.signed_bytes b ++ b.(IdentityBinding.signature)) 33 65 = Some b.(IdentityBinding.identity_public_key).
Proof.
  intros (_ & He & Hi & _). unfold IdentityBinding.signed_bytes.
  apply (get_range_is _ ([b.(IdentityBinding.version)] ++ b.(IdentityBinding.endpoint_id)) b.(IdentityBinding.identity_public_key)
           (b.(IdentityBinding.static_handshake_public_key) ++ to_be_bytes 8 b.(IdentityBinding.not_before) ++
            to_be_bytes 8 b.(IdentityBinding.not_after) ++ to_be_bytes 8 b.(IdentityBinding.sequence) ++
            b.(IdentityBinding.capabilities_hash) ++ b.(IdentityBinding.signature))).
  - by rewrite <- !app_assoc.
  - rewrite len_app, He. done.
  - by rewrite Hi.
Qed.

Lemma dh_agree a b :
  StaticHandshakeKeyPair.diffie_hellman a (StaticHandshakeKeyPair.public b) =
  StaticHandshakeKeyPair.diffie_hellman b (StaticHandshakeKeyPair.public a).
Proof. apply x25519_agree. Qed.

Lemma hellos_exchanged st carrier hello hb retry ce se random privacy :
  ClientHello.encode hello = Ok hb -> hello.(ClientHello.client_ephemeral_public_key) = StaticHandshakeKeyPair.public ce ->
  len hb <= Encoding.MAX_HANDSHAKE_MESSAGE -> len (default [] retry) <= 1024 -> len random = 32 ->
  good_marker st.(RuntimeState.realm_marker) -> IdentityBinding.sized st.(RuntimeState.primary_binding) ->
  exists sh shb t1 t2,
    answer_hello st carrier hb hello (StaticHandshakeKeyPair.public ce) retry None SUPPORTED_PROTOCOL_VERSION MODE_XX privacy se random =
      Ok (ServerHelloResponse shb (pending_of st ce se t2 privacy)) /\
    ServerHello.decode shb = Ok sh /\ server_realm_marker sh = Some st.(RuntimeState.realm_marker) /\
    complete_client_side_with_mode ce ce hello sh carrier MODE_XX None retry = Ok (output_of st (pending_of st ce se t2 privacy)) /\
    first_transcript carrier hb retry = Ok t1 /\ ServerHello.encode sh = Ok shb /\
    Transcript.update_message t1 Encoding.SERVER_HELLO shb = Ok t2 /\
    len t2.(Transcript.hash) = 32 /\ t2.(Transcript.total_bytes) <= 33824 /\
    ServerHello.sized sh /\ len shb <= Encoding.MAX_HANDSHAKE_MESSAGE.
Proof.
  intros He Hce Hl Hr Hrand Hm Hb.
  destruct (first_transcript_made carrier hb retry Hl Hr) as (t1 & Ht1 & Hl1 & Hb1).
  destruct canonical_hash_made as [caps Hcan].
  set (x1 := extract (zeros 32) (StaticHandshakeKeyPair.diffie_hellman se (StaticHandshakeKeyPair.public ce))).
  destruct (server_auth_read x1 t1.(Transcript.hash) (StaticHandshakeKeyPair.public st.(RuntimeState.static_handshake))
              (IdentityBinding.signed_bytes st.(RuntimeState.primary_binding) ++
               st.(RuntimeState.primary_binding).(IdentityBinding.signature))
              (StaticHandshakeKeyPair.public se) random CRYPTO_PROFILE) as (ct & Hct & Hdec & Hlct);
    [apply x25519_public_len|by apply binding_wire_len|].
  destruct (server_hello_made random (StaticHandshakeKeyPair.public se) MODE_XX ct (blake2s caps) st.(RuntimeState.realm_marker) privacy)
    as (shb & Hshb & Hshd & Hshl & Hcap & Hmk & Hshs); [done|apply x25519_public_len|done|lia|apply blake2s_len|done|].
  cbv zeta in *. set (sh := set_server_realm_marker _ _) in *.
  destruct (update_message_Ok t1 Encoding.SERVER_HELLO shb) as (t2 & Ht2 & Hl2 & Hb2);
    [done|done|unfold Transcript.MAX_TRANSCRIPT, Encoding.MAX_HANDSHAKE_MESSAGE in *; lia|].
  exists sh, shb, t1, t2.
  assert (Hft : exists t0, Transcript.update_message (Transcript.new MODE_XX CRYPTO_PROFILE carrier) Encoding.CLIENT_HELLO hb = Ok t0 /\
            absorb_retry t0 retry = t1).
  { unfold first_transcript in Ht1. apply bind_Ok in Ht1 as (t0 & ? & ?%(inj Ok)). by exists t0. }
  destruct Hft as (t0 & Ht0 & Hab).
  split; [|split; [done|]; split; [done|]; split].
  - unfold answer_hello. rewrite Ht0. cbn [map_err mbind Result_bind]. rewrite Hab, Hce. unfold handshake_extract1.
    rewrite bool_decide_eq_false_2 by done. cbn [mbind Result_bind]. fold x1. rewrite Hct. cbn [map_err mbind Result_bind].
    rewrite Hcan. cbn [mbind Result_bind]. fold sh. rewrite Hshb. cbn [map_err mbind Result_bind]. rewrite Ht2.
    cbn [map_err mbind Result_bind]. done.
  - unfold complete_client_side_with_mode. rewrite (bool_decide_eq_true_2 (_ = MODE_XX)) by done. cbn [negb].
    rewrite Hcan. cbn [mbind Result_bind]. rewrite Hcap, bool_decide_eq_true_2 by done. cbn [negb]. rewrite He. cbn [map_err mbind Result_bind].
    rewrite Ht0. cbn [map_err mbind Result_bind]. rewrite Hab. unfold handshake_extract1. rewrite bool_decide_eq_false_2 by done.
    cbn [mbind Result_bind].
    change (ServerHello.server_ephemeral_public_key sh) with (StaticHandshakeKeyPair.public se).
    change (ServerHello.encrypted_server_authentication sh) with ct. change (ServerHello.server_random sh) with random.
    change (ServerHello.selected_crypto_profile sh) with CRYPTO_PROFILE.
    rewrite (dh_agree ce se). fold x1. rewrite Hdec. cbn [map_err mbind Result_bind ServerAuthBlock.server_identity_binding ServerAuthBlock.server_static_public_key].
    rewrite binding_identity_key by done. cbn [ok_or mbind Result_bind]. rewrite Hshb. cbn [map_err mbind Result_bind].
    rewrite Ht2. cbn [map_err mbind Result_bind]. rewrite !(dh_agree ce st.(RuntimeState.static_handshake)). done.
  - split_and!; try done. unfold Encoding.MAX_HANDSHAKE_MESSAGE in *. lia.
Qed.

Lemma static_public_len k : len (StaticHandshakeKeyPair.public k) = 32.
Proof. apply x25519_public_len. Qed.

(** Framed bytes are taken out of their frame. *)
Lemma framed_bytes {Er} (err : Er) v limit out :
  len v <= limit -> limit <= MAX_VARINT ->
  exists bs, put_bytes_or err v limit out = Ok (out ++ bs) /\ len bs <= 8 + len v /\ WireBytes.decode bs limit = Ok (v, len bs).
Proof.
  intros Hv Hlim. destruct (writes_bytes_len err v limit Hv Hlim out) as (bs & E & Hl). exists bs. split; [done|]. split; [done|].
  unfold put_bytes_or in E. apply map_err_Ok in E. destruct (WireBytes.encode_decode _ _ _ _ E) as (bs' & Heq & Hd).
  apply app_inv_head in Heq as <-. specialize (Hd []). by rewrite app_nil_r in Hd.
Qed.

(** The delegation the client presents is one the responder holds and no
    revocation names; [depth] is its length. *)
Definition delegated (st : RuntimeState.t St) (c : ClientSide.t) (now : u64) (depth : option u8) : Prop :=
  (c.(ClientSide.delegation_chain) = [] /\ depth = None) \/
  exists record, encode_delegation_chain record.(StoredDelegationChain.certificates) = Ok c.(ClientSide.delegation_chain) /\
    Forall SignedDelegation.sized record.(StoredDelegationChain.certificates) /\
    DelegationStore.valid_chain_for_public_key st.(RuntimeState.store)
      c.(ClientSide.binding).(IdentityBinding.identity_public_key) now = Ok (Some record) /\
    RevocationStore.check_delegation st.(RuntimeState.store) record now = Ok tt /\
    depth = Some (len record.(StoredDelegationChain.certificates)).

Lemma encoded_chain_len certs bytes :
  encode_delegation_chain certs = Ok bytes -> 0 < len bytes <= HandshakeAuth.MAX_DELEGATION_CHAIN_BYTES /\ len certs <= 4.
Proof.
  unfold encode_delegation_chain. destruct (N.eqb_spec (len certs) 0) as [|H0]; [done|].
  destruct (N.ltb_spec MAX_DELEGATION_CHAIN_LENGTH (len certs)) as [|Hn]; [done|]. cbn [orb].
  intros (o & H1 & H)%bind_Ok. unfold u8_or in H1. destruct (_ <? _); [done|]. apply (inj Ok) in H1 as <-.
  apply bind_Ok in H as (o & Ho & H). destruct (N.ltb_spec TrustStatements.MAX_DELEGATION_CHAIN_BYTES (len o)) as [|Hlim]; [done|].
  apply (inj Ok) in H as <-. split; [split; [|done]|done].
  assert (Hmono : forall l out out', put_all put_certificate l out = Ok out' -> len out <= len out').
  { induction l as [|x l IH]; intros out out' E; [by apply (inj Ok) in E as <-|]. cbn [put_all] in E. unfold enc_seq in E.
    apply bind_Ok in E as (o1 & E1 & E2). apply IH in E2. unfold put_certificate in E1. apply bind_Ok in E1 as (e1 & _ & E1).
    apply bind_Ok in E1 as (l1 & _ & <-%(inj Ok)). rewrite len_app in E2. lia. }
  apply Hmono in Ho. change (len [len certs]) with 1 in Ho. lia.
Qed.

(** The plaintext of CLIENT_AUTH: the fixed part, and the chain in a frame. *)
Lemma client_plaintext st c now depth signature :
  delegated st c now depth -> IdentityBinding.sized c.(ClientSide.binding) -> len signature = 64 ->
  let base := StaticHandshakeKeyPair.public c.(ClientSide.static_handshake) ++
    IdentityBinding.signed_bytes c.(ClientSide.binding) ++ c.(ClientSide.binding).(IdentityBinding.signature) ++ signature in
  exists tail chain,
    build_client_auth_plaintext_with_delegation (StaticHandshakeKeyPair.public c.(ClientSide.static_handshake)) c.(ClientSide.binding)
      signature c.(ClientSide.delegation_chain) = Ok (base ++ tail) /\ len tail <= 8200 /\
    read_delegation st (base ++ tail) c.(ClientSide.binding) now = Ok chain /\ delegation_depth_of chain = Ok depth.
Proof.
  intros Hd Hb Hs base.
  assert (Hbase : len base = 313).
  { unfold base. rewrite !len_app, static_public_len. pose proof (binding_wire_len _ Hb) as Hw. rewrite len_app in Hw.
    unfold BINDING_WIRE_LEN in Hw. lia. }
  unfold build_client_auth_plaintext_with_delegation. fold base. unfold read_delegation. change (32 + BINDING_WIRE_LEN + 64) with 313.
  destruct Hd as [[-> ->]|(record & He & Hsz & Hv & Hc & ->)].
  - exists [], None. rewrite app_nil_r. change (@len u8 [] =? 0) with true. by rewrite Hbase.
  - destruct (encoded_chain_len _ _ He) as [[Hpos Hmax] Hn]. rewrite (proj2 (N.eqb_neq _ 0)) by lia.
    destruct (framed_bytes Panic c.(ClientSide.delegation_chain) HandshakeAuth.MAX_DELEGATION_CHAIN_BYTES base Hmax) as (bs & Hbs & Hl & Hdec);
      [done|]. pose proof (bytes_decode_bounds _ _ _ _ Hdec) as [[Hp _] _].
    exists bs, (Some record.(StoredDelegationChain.certificates)). rewrite Hbs. split; [done|]. split; [unfold HandshakeAuth.MAX_DELEGATION_CHAIN_BYTES in *; lia|].
    rewrite len_app, Hbase, (proj2 (N.eqb_neq _ _)) by lia. unfold get_from. rewrite len_app, Hbase, (proj2 (N.leb_le _ _)) by lia.
    rewrite <- Hbase, from_app_len. cbn [ok_or mbind Result_bind]. rewrite Hdec. cbn [map_err mbind Result_bind].
    rewrite N.eqb_refl. cbn [negb]. rewrite (delegation_chain_read _ _ Hsz He). cbn [map_err mbind Result_bind].
    rewrite Hv. cbn [map_err mbind Result_bind]. rewrite bool_decide_eq_true_2 by done. cbn [negb]. rewrite Hc. cbn [map_err mbind Result_bind].
    split; [done|]. unfold delegation_depth_of. rewrite (proj2 (N.ltb_ge _ _)); [done|]. unfold u8_max. lia.
Qed.

(** A client that may log in: its binding is its own and valid now. *)
Definition bound (c : ClientSide.t) (now : u64) : Prop :=
  IdentityBinding.sized c.(ClientSide.binding) /\ IdentityBinding.validate c.(ClientSide.binding) now BINDING_SKEW_MS = Ok tt /\
  c.(ClientSide.binding).(IdentityBinding.identity_public_key) = IdentityKeyPair.public c.(ClientSide.identity) /\
  c.(ClientSide.binding).(IdentityBinding.static_handshake_public_key) = StaticHandshakeKeyPair.public c.(ClientSide.static_handshake).

Lemma validated_endpoint b now skew :
  IdentityBinding.validate b now skew = Ok tt ->
  b.(IdentityBinding.endpoint_id) = endpoint_id b.(IdentityBinding.identity_public_key).
Proof. unfold IdentityBinding.validate. destruct (negb _); [done|]. by case_bool_decide. Qed.

(** The client's signature over the transcript. *)
Definition client_signature (st : RuntimeState.t St) (c : ClientSide.t) (p : HandshakePending.t) : list u8 :=
  IdentityKeyPair.sign c.(ClientSide.identity)
    (client_signature_input p.(HandshakePending.transcript).(Transcript.hash)
       (endpoint_id (IdentityKeyPair.public c.(ClientSide.identity))) p.(HandshakePending.server_eid)
       (StaticHandshakeKeyPair.public c.(ClientSide.static_handshake))
       (StaticHandshakeKeyPair.public st.(RuntimeState.static_handshake))).

(** The responder recognises the client in the plaintext it has written. *)
Lemma client_recognised st c p now depth plaintext :
  bound c now -> delegated st c now depth ->
  build_client_auth_plaintext_with_delegation (StaticHandshakeKeyPair.public c.(ClientSide.static_handshake)) c.(ClientSide.binding)
    (client_signature st c p) c.(ClientSide.delegation_chain) = Ok plaintext ->
  authenticate_client p st plaintext now =
    Ok (PeerIdentity.mk (StaticHandshakeKeyPair.public c.(ClientSide.static_handshake)) c.(ClientSide.binding) depth) /\
  len plaintext <= 8513.
Proof.
  intros (Hb & Hv & Hi & Hst) Hd Hpl. assert (Hsig : len (client_signature st c p) = 64) by apply ed25519_sign_len.
  destruct (client_plaintext st c now depth _ Hd Hb Hsig) as (tail & chain & Hpl' & Hlt & Hrd & Hdep).
  rewrite Hpl in Hpl'. apply (inj Ok) in Hpl' as ->. clear Hpl.
  set (cs := StaticHandshakeKeyPair.public c.(ClientSide.static_handshake)) in *. set (sg := client_signature st c p) in *.
  set (bytes := IdentityBinding.signed_bytes c.(ClientSide.binding) ++ c.(ClientSide.binding).(IdentityBinding.signature)).
  assert (Hcs : len cs = 32) by apply static_public_len.
  assert (Hbl : len bytes = 217) by (by apply binding_wire_len).
  assert (Hshape : (cs ++ IdentityBinding.signed_bytes c.(ClientSide.binding) ++ c.(ClientSide.binding).(IdentityBinding.signature) ++ sg) ++ tail =
            cs ++ bytes ++ sg ++ tail) by (unfold bytes; by rewrite <- !app_assoc).
  rewrite Hshape in *. split; [|rewrite !len_app; lia]. unfold authenticate_client.
  change (32 + BINDING_WIRE_LEN + 64) with 313. change (32 + BINDING_WIRE_LEN) with 249.
  rewrite (get_range_is _ [] cs (bytes ++ sg ++ tail) 0 32) by (done || lia). cbn [ok_or mbind Result_bind].
  rewrite (get_range_is _ (cs ++ bytes) sg tail 249 313) by (rewrite <- ?app_assoc, ?len_app; done || lia). cbn [ok_or mbind Result_bind].
  rewrite (get_range_is _ cs bytes (sg ++ tail) 32 249) by (done || lia). cbn [ok_or mbind Result_bind].
  assert (Hparse : parse_client_binding bytes = Some c.(ClientSide.binding)) by (by apply binding_parse).
  rewrite Hparse. cbn [ok_or mbind Result_bind]. rewrite Hrd. cbn [mbind Result_bind].
  rewrite Hv. cbn [map_err mbind Result_bind]. rewrite Hst, bool_decide_eq_true_2 by done. cbn [negb].
  rewrite (validated_endpoint _ _ _ Hv), Hi. unfold sg, client_signature. fold cs. rewrite identity_verify_sign. cbn [negb].
  rewrite Hdep. done.
Qed.

(** The responder's handshake state while it waits for CLIENT_AUTH. *)
Definition awaiting (p : HandshakePending.t) : Prop :=
  p.(HandshakePending.machine) = HandshakeMachine.mk HandshakeKeys false false /\
  p.(HandshakePending.transcript).(Transcript.total_bytes) <= 33824.

Lemma auth_exchanged st c p now depth :
  bound c now -> delegated st c now depth -> awaiting p ->
  let out := output_of st p in
  let peer := PeerIdentity.mk (StaticHandshakeKeyPair.public c.(ClientSide.static_handshake)) c.(ClientSide.binding) depth in
  exists plaintext ct body t3 t4,
    build_client_auth_plaintext_with_delegation (StaticHandshakeKeyPair.public c.(ClientSide.static_handshake)) c.(ClientSide.binding)
      (client_signature st c p) c.(ClientSide.delegation_chain) = Ok plaintext /\
    encrypt_client_auth out.(ClientHandshakeOutput.client_auth_key) out.(ClientHandshakeOutput.transcript_hash) plaintext = Ok ct /\
    put_bytes_or (Message "client auth") ct Encoding.MAX_HANDSHAKE_MESSAGE [] = Ok body /\
    Transcript.update_message p.(HandshakePending.transcript) Encoding.CLIENT_AUTH body = Ok t3 /\
    let fin := build_server_finished p.(HandshakePending.secret4) t3.(Transcript.hash) st.(RuntimeState.identity)
                 p.(HandshakePending.server_eid) c.(ClientSide.binding).(IdentityBinding.endpoint_id)
                 (StaticHandshakeKeyPair.public st.(RuntimeState.static_handshake))
                 (StaticHandshakeKeyPair.public c.(ClientSide.static_handshake)) in
    complete_inner p st body now = Ok (fin, peer, HandshakeMachine.mk SessionKeys true false) /\
    Transcript.update_message t3 Encoding.SERVER_FINISHED fin = Ok t4.
Proof.
  intros Hc Hd [Hm Ht] out peer.
  destruct (client_plaintext st c now depth (client_signature st c p) Hd (proj1 Hc) (ed25519_sign_len _ _)) as (tail & chain & Hpl & _).
  set (plaintext := _ ++ tail) in Hpl. destruct (client_recognised _ _ _ _ _ _ Hc Hd Hpl) as [Hrec Hlen]. clearbody plaintext.
  destruct (packet_keys_Ok out.(ClientHandshakeOutput.client_auth_key)) as [keys Hk].
  destruct (seal_Ok keys 0 out.(ClientHandshakeOutput.transcript_hash) plaintext) as [ct Hct]; [lia|].
  pose proof (seal_len _ _ _ _ _ Hct) as Hcl. unfold TAG_LEN in Hcl.
  destruct (framed_bytes (Message "client auth") ct Encoding.MAX_HANDSHAKE_MESSAGE []) as (body & Hbody & Hbl & Hdec);
    [unfold Encoding.MAX_HANDSHAKE_MESSAGE; lia|done|]. cbn [app] in Hbody.
  assert (Hbl' : len body <= 16384) by lia.
  destruct (update_message_Ok p.(HandshakePending.transcript) Encoding.CLIENT_AUTH body) as (t3 & Ht3 & Hl3 & Hb3);
    [done|done|unfold Transcript.MAX_TRANSCRIPT; lia|].
  exists plaintext, ct, body, t3.
  set (fin := build_server_finished _ _ _ _ _ _ _).
  assert (Hfl : len fin = 96) by apply server_finished_split.
  destruct (update_message_Ok t3 Encoding.SERVER_FINISHED fin) as (t4 & Ht4 & _); [done|rewrite Hfl; done|unfold Transcript.MAX_TRANSCRIPT; lia|].
  exists t4. split; [done|]. split; [|split; [done|split; [done|split; [|done]]]].
  - unfold encrypt_client_auth. rewrite Hk. cbn [map_err mbind Result_bind]. by rewrite Hct.
  - unfold complete_inner, apply_event. rewrite Hm. cbn [HandshakeMachine.apply HandshakeMachine.next HandshakeMachine.state].
    cbn [map_err mbind Result_bind]. 
    change 16384 with Encoding.MAX_HANDSHAKE_MESSAGE. rewrite Hdec. cbn [map_err mbind Result_bind].
    unfold decrypt_client_auth.
    change (expand32 _ (bstr "client auth key") _) with (out.(ClientHandshakeOutput.client_auth_key)). rewrite Hk. cbn [map_err mbind Result_bind].
    change (Transcript.hash (HandshakePending.transcript p)) with (out.(ClientHandshakeOutput.transcript_hash)).
    rewrite (seal_open _ _ _ _ _ Hct). cbn [map_err mbind Result_bind]. rewrite Hrec. cbn [mbind Result_bind]. rewrite Ht3. done.
Qed.

(** The rest of an honest exchange: both Finished messages are accepted. *)
Lemma finished_exchanged st c p carrier hb retry sh shb t1 t2 out body t3 t4 fin peer :
  p.(HandshakePending.transcript) = t2 -> out = output_of st p ->
  first_transcript carrier hb retry = Ok t1 -> ServerHello.encode sh = Ok shb ->
  Transcript.update_message t1 Encoding.SERVER_HELLO shb = Ok t2 ->
  Transcript.update_message t2 Encoding.CLIENT_AUTH body = Ok t3 ->
  st.(RuntimeState.primary_binding).(IdentityBinding.identity_public_key) = IdentityKeyPair.public st.(RuntimeState.identity) ->
  peer = endpoint_id (IdentityKeyPair.public c.(ClientSide.identity)) ->
  fin = build_server_finished p.(HandshakePending.secret4) t3.(Transcript.hash) st.(RuntimeState.identity)
          p.(HandshakePending.server_eid) peer (StaticHandshakeKeyPair.public st.(RuntimeState.static_handshake))
          (StaticHandshakeKeyPair.public c.(ClientSide.static_handshake)) ->
  Transcript.update_message t3 Encoding.SERVER_FINISHED fin = Ok t4 ->
  p.(HandshakePending.machine) = HandshakeMachine.mk SessionKeys true false ->
  exists confirmation,
    client_finish c carrier hb retry sh out body fin = Ok confirmation /\
    confirm_client p body fin confirmation = (Ok tt, HandshakePending.with_machine p (HandshakeMachine.mk Confirmed true true)) /\
    len confirmation = 32.
Proof.
  intros Hp -> Ht1 Hsh Ht2 Ht3 Hid -> -> Ht4 Hm.
  set (fin := build_server_finished _ _ _ _ _ _ _) in *.
  exists (finished_mac (finished_key p.(HandshakePending.secret4) (bstr "client finished") t3.(Transcript.hash)) t4.(Transcript.hash)).
  unfold first_transcript in Ht1. apply bind_Ok in Ht1 as (t0 & Ht0 & <-%(inj Ok)). split; [|split; [|apply finished_mac_len]].
  - unfold client_finish. rewrite Ht0. cbn [map_err mbind Result_bind]. rewrite Hsh. cbn [map_err mbind Result_bind].
    rewrite Ht2. cbn [map_err mbind Result_bind].
    cbn [output_of ClientHandshakeOutput.handshake_secret4 ClientHandshakeOutput.server_identity_public_key
         ClientHandshakeOutput.server_endpoint_id ClientHandshakeOutput.server_static_public_key]. rewrite Hid.
    pose proof (server_finished_accepted t2 t3 _ _ _ _ _ _ body Ht3 t4 Ht4) as Hacc. fold fin in Hacc. by rewrite Hacc.
  - unfold confirm_client, apply_event. rewrite Hm, Hp. cbn [map_err mbind Result_bind HandshakeMachine.apply HandshakeMachine.next HandshakeMachine.state].
    rewrite (client_finished_accepted t2 t3 t4 _ body fin Ht3 Ht4). done.
Qed.

(** The client's answer to a SERVER_HELLO of its realm. *)
Lemma client_answers st c p ce hello carrier retry expected response sh plaintext ct body :
  ServerHello.decode response = Ok sh -> server_realm_marker sh = Some c.(ClientSide.realm_marker) ->
  complete_client_side_with_mode ce ce hello sh carrier MODE_XX None retry = Ok (output_of st p) ->
  (forall e, expected = Some e -> e = p.(HandshakePending.server_eid)) ->
  build_client_auth_plaintext_with_delegation (StaticHandshakeKeyPair.public c.(ClientSide.static_handshake)) c.(ClientSide.binding)
    (client_signature st c p) c.(ClientSide.delegation_chain) = Ok plaintext ->
  encrypt_client_auth (output_of st p).(ClientHandshakeOutput.client_auth_key) (output_of st p).(ClientHandshakeOutput.transcript_hash)
    plaintext = Ok ct ->
  put_bytes_or (Message "client auth") ct Encoding.MAX_HANDSHAKE_MESSAGE [] = Ok body ->
  client_auth c ce hello carrier retry expected response = Ok (sh, output_of st p, body).
Proof.
  intros Hshd Hshm Hcomp Hexp Hpl Hct Hbody.
  unfold client_auth. rewrite Hshd. cbn [map_err mbind Result_bind]. unfold realm_marker_matches. rewrite Hshm, bool_decide_eq_true_2 by done.
  cbn [negb]. rewrite Hcomp. cbn [mbind Result_bind].
  assert (Hx : (match expected with
                | Some e => negb (bool_decide ((output_of st p).(ClientHandshakeOutput.server_endpoint_id) = e))
                | None => false
                end) = false).
  { destruct expected as [e|]; [|done]. rewrite bool_decide_eq_true_2; [done|]. by rewrite (Hexp e). }
  rewrite Hx.
  match goal with |- context [build_client_auth_plaintext_with_delegation _ _ ?sg _] => change sg with (client_signature st c p) end.
  rewrite Hpl. cbn [mbind Result_bind]. rewrite Hct. cbn [mbind Result_bind]. by rewrite Hbody.
Qed.

End Exchange.

(** ** A whole handshake *)

Section Run.
Context {St : Type} `{Store St} `{Primitives, Curves}.

(** The messages of one attempt handed from one side to the other, in the order
    of the protocol: CLIENT_HELLO, SERVER_HELLO, CLIENT_AUTH, SERVER_FINISHED and
    CLIENT_FINISHED.  The daemon passes the ephemeral key of the hello for the
    client's static one. *)
Definition run_handshake (st : RuntimeState.t St) (c : ClientSide.t) (carrier : list u8) (token : list u8)
    (retry_context expected_endpoint_id : option (list u8)) (client_random server_random : list u8)
    (client_ephemeral server_ephemeral : StaticHandshakeKeyPair.t) (dcid scid : list u8) (now_ms : u64)
    : Result Failure (ClientHandshakeOutput.t * SessionSecrets.t * PeerIdentity.t * HandshakePending.t) :=
  '(hello, hello_bytes) ← client_hello c client_random client_ephemeral token;
  answer ← respond_hello_with_retry_context_and_psk st carrier hello_bytes hello.(ClientHello.client_ephemeral_public_key)
             dcid scid retry_context None server_ephemeral server_random;
  match answer with
  | VersionNegotiationResponse _ => Err (Message "version negotiation")
  | ServerHelloResponse server_hello_bytes pending =>
      '(server_hello, out, auth_body) ←
        client_auth c client_ephemeral hello carrier retry_context expected_endpoint_id server_hello_bytes;
      let '(completed, pending) := complete pending st auth_body now_ms in
      '(server_finished, secrets, peer) ← completed;
      confirmation ← client_finish c carrier hello_bytes retry_context server_hello out auth_body server_finished;
      let '(confirmed, pending) := confirm_client pending auth_body server_finished confirmation in
      _ ← confirmed;
      Ok (out, secrets, peer, pending)
  end.

End Run.

(** ** Properties *)

Section Theorems.
Context {St : Type} `{HS : Store St} `{HP : Primitives} {HPL : PrimitiveLaws} `{HC : Curves} {HCL : CurveLaws} {HT : AeadTotal}.

(** A responder that lets clients of this realm in over this carrier. *)
Definition open_responder (st : RuntimeState.t St) (carrier : list u8) : Prop :=
  st.(RuntimeState.carrier_disabled) (if utf8 carrier then carrier else []) = false /\
  st.(RuntimeState.protocol_version_disabled) SUPPORTED_PROTOCOL_VERSION = false /\
  st.(RuntimeState.crypto_profile_disabled) CRYPTO_PROFILE = false /\
  st.(RuntimeState.effective_privacy_profile) <= 3 /\ good_marker st.(RuntimeState.realm_marker) /\
  IdentityBinding.sized st.(RuntimeState.primary_binding) /\
  st.(RuntimeState.primary_binding).(IdentityBinding.identity_public_key) = IdentityKeyPair.public st.(RuntimeState.identity).

Lemma hello_answered st carrier hello hb cstatic dcid scid retry se random :
  open_responder st carrier -> ClientHello.decode hb = Ok hello ->
  client_realm_marker hello = Some st.(RuntimeState.realm_marker) ->
  hello.(ClientHello.supported_handshake_modes) = [MODE_XX] ->
  hello.(ClientHello.supported_protocol_versions) = [SUPPORTED_PROTOCOL_VERSION] ->
  hello.(ClientHello.minimum_privacy) = DEFAULT_MINIMUM_PRIVACY_PROFILE ->
  capabilities_hash_for_minimum_privacy DEFAULT_MINIMUM_PRIVACY_PROFILE = Ok hello.(ClientHello.capabilities_hash) ->
  respond_hello_with_retry_context_and_psk st carrier hb cstatic dcid scid retry None se random =
  answer_hello st carrier hb hello cstatic retry None SUPPORTED_PROTOCOL_VERSION MODE_XX
    st.(RuntimeState.effective_privacy_profile) se random.
Proof.
  intros (Hcd & Hpv & Hcp & Hpr & _) Hd Hmk Hmodes Hvers Hmin Hcaps. unfold respond_hello_with_retry_context_and_psk.
  rewrite Hcd, Hd. cbn [map_err mbind Result_bind]. unfold realm_marker_matches. rewrite Hmk, bool_decide_eq_true_2 by done. cbn [negb].
  rewrite Hvers. change (select_version [SUPPORTED_PROTOCOL_VERSION]) with (Some SUPPORTED_PROTOCOL_VERSION). cbv iota beta.
  rewrite Hpv, Hcp. unfold select_privacy, ClientHello.minimum_privacy_level. rewrite Hmin.
  change (privacy_profile_level DEFAULT_MINIMUM_PRIVACY_PROFILE) with (Some 0).
  change (privacy_profile_level MAX_SUPPORTED_PRIVACY_PROFILE) with (Some 3). cbn [ok_or mbind Result_bind].
  rewrite (proj2 (N.ltb_ge _ _)) by done. change (3 <? 0) with false. cbv iota. rewrite Hcaps. cbn [mbind Result_bind].
  rewrite bool_decide_eq_true_2 by done. cbn [negb mbind Result_bind]. unfold select_mode, offers. rewrite Hmodes. cbn [existsb].
  rewrite bool_decide_eq_false_2 by done. cbn [orb mbind Result_bind]. by rewrite N.max_0_l.
Qed.

(** The two sides of a handshake agree: a client with a valid binding (and,
    if it acts on a delegation, with a chain the responder holds and that is not
    revoked) that meets a responder of its realm completes the exchange, after a
    Retry or without one.  Both hold the same session secrets and the same keys
    for the handshake packets, the responder knows the client's binding, static
    key and delegation depth, the client knows the responder's identity, and the
    responder may install application keys. *)
Theorem handshake_agrees st c carrier token retry expected crandom srandom ce se dcid scid now depth :
  open_responder st carrier -> c.(ClientSide.realm_marker) = st.(RuntimeState.realm_marker) ->
  bound c now -> delegated st c now depth ->
  len crandom = 32 -> len srandom = 32 -> len token <= 1024 -> len (default [] retry) <= 1024 ->
  (forall e, expected = Some e -> e = endpoint_id (IdentityKeyPair.public st.(RuntimeState.identity))) ->
  exists out pending,
    run_handshake st c carrier token retry expected crandom srandom ce se dcid scid now =
      Ok (out, out.(ClientHandshakeOutput.session_secrets),
          PeerIdentity.mk (StaticHandshakeKeyPair.public c.(ClientSide.static_handshake)) c.(ClientSide.binding) depth, pending) /\
    pending.(HandshakePending.session_secrets) = out.(ClientHandshakeOutput.session_secrets) /\
    (forall direction, handshake_traffic_secret pending direction =
       derive_handshake_traffic_secret out.(ClientHandshakeOutput.handshake_secret3) out.(ClientHandshakeOutput.transcript_hash) direction) /\
    out.(ClientHandshakeOutput.server_endpoint_id) = endpoint_id (IdentityKeyPair.public st.(RuntimeState.identity)) /\
    out.(ClientHandshakeOutput.server_static_public_key) = StaticHandshakeKeyPair.public st.(RuntimeState.static_handshake) /\
    HandshakePending.application_keys_ready pending = true.
Proof.
  intros Hopen Hmk Hc Hd Hcr Hsr Htok Hret Hexp. pose proof Hopen as (_ & _ & _ & _ & Hgood & Hbs & Hid).
  destruct (client_hello_made c crandom ce token Hcr Htok) as (hello & hb & Hh & [Hl Hdec Henc He Hmodes Hvers Hmin Hcaps Hcm _ _ _ _]);
    [by rewrite Hmk|]. rewrite Hmk in Hcm.
  destruct (hellos_exchanged st carrier hello hb retry ce se srandom st.(RuntimeState.effective_privacy_profile) Henc He Hl Hret Hsr Hgood Hbs)
    as (sh & shb & t1 & t2 & Hans & Hshd & Hshm & Hcomp & Ht1 & Hshe & Ht2 & Hl2 & Hb2 & _).
  set (p := pending_of st ce se t2 st.(RuntimeState.effective_privacy_profile)) in *.
  destruct (auth_exchanged st c p now depth Hc Hd) as (plaintext & ct & body & t3 & t4 & Hpl & Hct & Hbody & Ht3 & Hci & Ht4); [done|].
  cbv zeta in Hci, Ht4. set (fin := build_server_finished _ _ _ _ _ _ _) in *. pose proof Hc as (_ & Hv & Hik & _).
  set (p' := HandshakePending.with_machine p (HandshakeMachine.mk SessionKeys true false)).
  destruct (finished_exchanged st c p' carrier hb retry sh shb t1 t2 (output_of st p) body t3 t4 fin
              c.(ClientSide.binding).(IdentityBinding.endpoint_id)) as (conf & Hfin & Hconf & _); try done.
  { rewrite (validated_endpoint _ _ _ Hv). by rewrite Hik. }
  assert (Heid : (output_of st p).(ClientHandshakeOutput.server_endpoint_id) = endpoint_id (IdentityKeyPair.public st.(RuntimeState.identity))).
  { cbn. by rewrite Hid. }
  exists (output_of st p), (HandshakePending.with_machine p' (HandshakeMachine.mk Confirmed true true)).
  split; [|split_and!; done]. unfold run_handshake. rewrite Hh. cbn [mbind Result_bind].
  rewrite (hello_answered st carrier hello hb _ dcid scid retry se srandom) by done. rewrite He, Hans. cbn [mbind Result_bind].
  rewrite (client_answers st c p ce hello carrier retry expected shb sh plaintext ct body)
    by (done || (by rewrite Hmk) || (intros e He'; by rewrite (Hexp e He'), <- Heid)).
  cbn [mbind Result_bind]. unfold complete. rewrite Hci. cbn [mbind Result_bind]. rewrite Hfin. cbn [mbind Result_bind].
  fold p'. rewrite Hconf. done.
Qed.

End Theorems.

#[local] Existing Instances memory_store memory_laws toy_primitives toy_laws toy_curves toy_curve_laws toy_total.

Definition sample_node : IdentityKeyPair.t := IdentityKeyPair.mk (replicate 32 3).
Definition sample_node_static : StaticHandshakeKeyPair.t := StaticHandshakeKeyPair.mk (replicate 32 4).
Definition sample_caller : IdentityKeyPair.t := IdentityKeyPair.mk (replicate 32 5).
Definition sample_caller_static : StaticHandshakeKeyPair.t := StaticHandshakeKeyPair.mk (replicate 32 6).

Definition sample_responder : RuntimeState.t Memory :=
  RuntimeState.mk (fun _ => false) (fun _ => false) (fun _ => false) (replicate 32 1) false 2 sample_node sample_node_static
    (IdentityBinding.sign sample_node (StaticHandshakeKeyPair.public sample_node_static) 0 1000 0 (zeros 32)) empty_memory.

Definition sample_client : ClientSide.t :=
  ClientSide.mk sample_caller sample_caller_static
    (IdentityBinding.sign sample_caller (StaticHandshakeKeyPair.public sample_caller_static) 0 1000 0 (zeros 32)) [] (replicate 32 1) false.

Lemma handshake_agrees_witness :
  exists out pending,
    run_handshake sample_responder sample_client (bstr "udp") [] None None (replicate 32 7) (replicate 32 8)
      (StaticHandshakeKeyPair.mk (replicate 32 9)) (StaticHandshakeKeyPair.mk (replicate 32 10)) [1] [2] 500 =
      Ok (out, out.(ClientHandshakeOutput.session_secrets),
          PeerIdentity.mk (StaticHandshakeKeyPair.public sample_caller_static) sample_client.(ClientSide.binding) None, pending) /\
    HandshakePending.application_keys_ready pending = true.
Proof.
  destruct (handshake_agrees sample_responder sample_client (bstr "udp") [] None None (replicate 32 7) (replicate 32 8)
    (StaticHandshakeKeyPair.mk (replicate 32 9)) (StaticHandshakeKeyPair.mk (replicate 32 10)) [1] [2] 500 None)
    as (out & pending & H & _ & _ & _ & _ & Hr).
  - unfold open_responder, IdentityBinding.sized, good_marker. split_and!; by vm_compute.
  - done.
  - unfold bound, IdentityBinding.sized. split_and!; by vm_compute.
  - by left.
  - done.
  - done.
  - by vm_compute.
  - by vm_compute.
  - done.
  - exists out, pending. split; [exact H|exact Hr].
Defined.
