(* ===== verification/HandshakeAgreement.v ===== *)
(** * Agreement on the handshake

    Matching conversations: when the responder accepts a client, a run of that
    client's own software has seen the same messages and holds the same secrets,
    unless somebody has forged a signature or found two inputs of BLAKE2s with
    the same digest. *)

From Stdlib Require Import Strings.String.
From stdpp Require Import gmap.
From S2P Require Import Prelude Codec Varint WireBytes Records Crypto Identity HandshakeMessages HandshakeKeys HandshakeAuth HandshakeGates Canonical Store TrustStatements Trust Revocation Handshake.

(** ** Transcripts *)

Section Transcripts.
Context `{HP : Primitives} {HPL : PrimitiveLaws} `{HC : Curves} {HCL : CurveLaws}.

Definition retry_sized (retry : option (list u8)) : Prop := forall r, retry = Some r -> len r = 32.

(** What is hashed on the way through CLIENT_HELLO and SERVER_HELLO. *)
Definition first_texts (carrier hello_bytes : list u8) (retry : option (list u8)) : list (list u8) :=
  let start := Transcript.new MODE_XX CRYPTO_PROFILE carrier in
  opening_text MODE_XX CRYPTO_PROFILE carrier :: message_text start Encoding.CLIENT_HELLO hello_bytes ::
    match Transcript.update_message start Encoding.CLIENT_HELLO hello_bytes, retry with
    | Ok t, Some r => [t.(Transcript.hash) ++ r]
    | _, _ => []
    end.

Definition hello_texts (carrier hello_bytes : list u8) (retry : option (list u8)) (server_hello_bytes : list u8) : list (list u8) :=
  first_texts carrier hello_bytes retry ++
    match first_transcript carrier hello_bytes retry with
    | Ok t => [message_text t Encoding.SERVER_HELLO server_hello_bytes]
    | Err _ => []
    end.

Lemma encode_message_longer ty body bs : Encoding.encode_message ty body [] = Ok bs -> len body <= len bs.
Proof.
  unfold Encoding.encode_message. intros [_ H]%refuse_Ok.
  apply bind_Ok in H as (o1 & _ & H). apply bind_Ok in H as (o2 & _ & <-%(inj Ok)). rewrite len_app. lia.
Qed.

Lemma update_message_len t ty body t' : Transcript.update_message t ty body = Ok t' -> len t'.(Transcript.hash) = 32.
Proof. intros H. destruct (update_message_hash _ _ _ _ H) as (bs & _ & ->). apply blake2s_len. Qed.

(** Among texts that include those of both sides: *)
Section Texts.
Variable texts : list (list u8).

Lemma first_message_binds c1 c2 hb1 hb2 r1 r2 t1 t2 :
  first_texts c1 hb1 r1 ⊆ texts -> first_texts c2 hb2 r2 ⊆ texts ->
  Transcript.update_message (Transcript.new MODE_XX CRYPTO_PROFILE c1) Encoding.CLIENT_HELLO hb1 = Ok t1 ->
  Transcript.update_message (Transcript.new MODE_XX CRYPTO_PROFILE c2) Encoding.CLIENT_HELLO hb2 = Ok t2 ->
  t1.(Transcript.hash) = t2.(Transcript.hash) -> (c1 = c2 /\ hb1 = hb2) \/ collision_in texts.
Proof.
  intros [O1 [M1 _]%list_subseteq_cons_iff]%list_subseteq_cons_iff [O2 [M2 _]%list_subseteq_cons_iff]%list_subseteq_cons_iff H1 H2 Hh.
  destruct (update_binds _ _ _ _ _ _ _ _ _ M1 M2 (eq_trans (blake2s_len _) (eq_sym (blake2s_len _))) H1 H2 Hh) as [(Hn & _ & ->)|]; [|by right].
  destruct (digest_inj _ _ _ O1 O2 Hn) as [Heq|]; [|by right]. left. by do 3 apply app_inv_head in Heq.
Qed.

(** A hello in the transcript is not mistaken for the context of a Retry. *)
Lemma retry_or_hello h0 r c hb t :
  h0 ++ r ∈ texts -> first_texts c hb None ⊆ texts ->
  Transcript.update_message (Transcript.new MODE_XX CRYPTO_PROFILE c) Encoding.CLIENT_HELLO hb = Ok t ->
  64 <= len hb -> len r = 32 -> len h0 = 32 -> blake2s (h0 ++ r) = t.(Transcript.hash) -> collision_in texts.
Proof.
  intros T [_ [M _]%list_subseteq_cons_iff]%list_subseteq_cons_iff H Hb Hr Hh0 Heq.
  destruct (update_message_hash _ _ _ _ H) as (bs & E & Ht). rewrite Ht in Heq. unfold message_text in M. rewrite E in M.
  apply encode_message_longer in E. destruct (digest_inj _ _ _ T M Heq) as [Heq'|]; [|done].
  apply (f_equal len) in Heq'. rewrite !len_app in Heq'. cbn [Transcript.new Transcript.hash] in Heq'. rewrite blake2s_len in Heq'. lia.
Qed.

Lemma first_transcripts_agree c1 c2 hb1 hb2 r1 r2 t1 t2 :
  first_texts c1 hb1 r1 ⊆ texts -> first_texts c2 hb2 r2 ⊆ texts ->
  first_transcript c1 hb1 r1 = Ok t1 -> first_transcript c2 hb2 r2 = Ok t2 -> retry_sized r1 -> retry_sized r2 ->
  64 <= len hb1 -> 64 <= len hb2 -> t1.(Transcript.hash) = t2.(Transcript.hash) ->
  (c1 = c2 /\ hb1 = hb2 /\ r1 = r2) \/ collision_in texts.
Proof.
  intros S1 S2 (u1 & H1 & <-%(inj Ok))%bind_Ok (u2 & H2 & <-%(inj Ok))%bind_Ok Hr1 Hr2 Hb1 Hb2 Hh.
  pose proof (update_message_len _ _ _ _ H1) as L1. pose proof (update_message_len _ _ _ _ H2) as L2.
  pose proof (first_message_binds _ _ _ _ _ _ _ _ S1 S2 H1 H2) as Hbinds. unfold first_texts in S1, S2. rewrite H1 in S1. rewrite H2 in S2.
  destruct r1 as [r1|], r2 as [r2|]; cbn [absorb_retry Transcript.update_bytes Transcript.hash] in Hh.
  - destruct (digest_inj texts (u1.(Transcript.hash) ++ r1) (u2.(Transcript.hash) ++ r2)) as [Heq|];
      [apply S1; set_solver|apply S2; set_solver|done| |by right]. apply app_inj_1 in Heq as [Heq ->]; [|unfold len in *; lia].
    destruct (Hbinds Heq) as [[-> ->]|]; [by left|by right].
  - right. apply (retry_or_hello u1.(Transcript.hash) r1 c2 hb2 u2); [apply S1; set_solver|unfold first_texts; by rewrite H2|done..|by apply Hr1|done|done].
  - right. apply (retry_or_hello u2.(Transcript.hash) r2 c1 hb1 u1); [apply S2; set_solver|unfold first_texts; by rewrite H1|done..|by apply Hr2|done|done].
  - destruct (Hbinds Hh) as [[-> ->]|]; [by left|by right].
Qed.

Lemma transcripts_agree c1 c2 hb1 hb2 r1 r2 t1 t2 sb1 sb2 u1 u2 :
  hello_texts c1 hb1 r1 sb1 ⊆ texts -> hello_texts c2 hb2 r2 sb2 ⊆ texts ->
  first_transcript c1 hb1 r1 = Ok t1 -> first_transcript c2 hb2 r2 = Ok t2 -> retry_sized r1 -> retry_sized r2 ->
  64 <= len hb1 -> 64 <= len hb2 ->
  Transcript.update_message t1 Encoding.SERVER_HELLO sb1 = Ok u1 -> Transcript.update_message t2 Encoding.SERVER_HELLO sb2 = Ok u2 ->
  u1.(Transcript.hash) = u2.(Transcript.hash) -> (c1 = c2 /\ hb1 = hb2 /\ r1 = r2 /\ sb1 = sb2) \/ collision_in texts.
Proof.
  intros S1 S2 H1 H2 Hr1 Hr2 Hb1 Hb2 U1 U2 Hh. unfold hello_texts in S1, S2. rewrite H1 in S1. rewrite H2 in S2.
  apply list_subseteq_app_iff_l in S1 as [S1 M1]. apply list_subseteq_app_iff_l in S2 as [S2 M2].
  assert (Hlen : forall c hb r t, first_transcript c hb r = Ok t -> len t.(Transcript.hash) = 32).
  { intros c hb r t (u & Hu & <-%(inj Ok))%bind_Ok. destruct r; [apply blake2s_len|]. by eapply update_message_len. }
  destruct (update_binds texts _ _ _ _ _ _ _ _ (M1 _ (list_elem_of_here _ _)) (M2 _ (list_elem_of_here _ _))
    (eq_trans (Hlen _ _ _ _ H1) (eq_sym (Hlen _ _ _ _ H2))) U1 U2 Hh) as [(Ht & _ & ->)|]; [|by right].
  destruct (first_transcripts_agree _ _ _ _ _ _ _ _ S1 S2 H1 H2 Hr1 Hr2 Hb1 Hb2 Ht) as [(-> & -> & ->)|]; [by left|by right].
Qed.

End Texts.

(** ** What has been decoded *)

Lemma read_slice_len {Er} (err : Er) n body pos v pos' :
  read_slice_or err n body pos = Ok (v, pos') -> len v = n /\ pos' = pos + n /\ pos' <= len body.
Proof.
  intros (hi & [-> _]%ok_or_Ok%checked_add_Some & H)%bind_Ok. apply bind_Ok in H as (w & H%ok_or_Ok & [= <- <-]).
  apply get_range_Some in H. lia.
Qed.

Lemma decoded_hello_len bytes h : ClientHello.decode bytes = Ok h -> 64 <= len bytes.
Proof.
  unfold ClientHello.decode, ClientHello.body. intros ([h' off] & H & _)%bind_Ok.
  unfold mbind at 1, Dec_bind at 1 in H. destruct (read_number bytes 0) as [[v p1]|]; [|done].
  unfold mbind at 1, Dec_bind at 1 in H. destruct (read_array 32 bytes p1) as [[r p2]|] eqn:E1; [|done].
  unfold mbind at 1, Dec_bind at 1 in H. destruct (read_array 32 bytes p2) as [[e p3]|] eqn:E2; [|done].
  apply read_slice_len in E1. apply read_slice_len in E2. lia.
Qed.

Lemma decoded_server_hello_sized bytes h : ServerHello.decode bytes = Ok h -> ServerHello.sized h.
Proof.
  unfold ServerHello.decode, ServerHello.body. intros ([h' off] & H & <-%(inj Ok))%bind_Ok.
  unfold mbind at 1, Dec_bind at 1 in H. destruct (read_array 32 bytes 0) as [[r p1]|] eqn:E1; [|done].
  unfold mbind at 1, Dec_bind at 1 in H. destruct (read_array 32 bytes p1) as [[e p2]|] eqn:E2; [|done].
  do 5 (unfold mbind at 1, Dec_bind at 1 in H; match type of H with match ?r with _ => _ end = _ => destruct r as [[? ?]|]; [|done] end).
  apply read_slice_len in E1 as [Hr _]. apply read_slice_len in E2 as [He _]. injection H as <- _. split_and!; [done|done|].
  cbn. unfold as_u32, u32_max. pose proof (N.mod_lt n 4294967296). lia.
Qed.

End Transcripts.

(** ** What is accepted *)

Section Accepted.
Context {St : Type} `{HS : Store St} `{HP : Primitives} {HPL : PrimitiveLaws} `{HC : Curves} {HCL : CurveLaws} {HT : AeadTotal}.

(** The text whose digest a client signs. *)
Definition signature_text (transcript client_endpoint_id server_endpoint_id client_static server_static : list u8) : list u8 :=
  bstr "UMP-CLIENT-AUTH-v1" ++ transcript ++ client_endpoint_id ++ server_endpoint_id ++ client_static ++ server_static.

(** What it is for a client that is let in by this responder. *)
Definition expected_text (st : RuntimeState.t St) (p : HandshakePending.t) (peer : PeerIdentity.t) : list u8 :=
  signature_text p.(HandshakePending.transcript).(Transcript.hash)
    (endpoint_id peer.(PeerIdentity.binding).(IdentityBinding.identity_public_key)) p.(HandshakePending.server_eid)
    peer.(PeerIdentity.client_static_public_key) (StaticHandshakeKeyPair.public st.(RuntimeState.static_handshake)).

(** The message a client signs to be let in by this responder. *)
Definition expected_message (st : RuntimeState.t St) (p : HandshakePending.t) (peer : PeerIdentity.t) : list u8 :=
  client_signature_input p.(HandshakePending.transcript).(Transcript.hash)
    (endpoint_id peer.(PeerIdentity.binding).(IdentityBinding.identity_public_key)) p.(HandshakePending.server_eid)
    peer.(PeerIdentity.client_static_public_key) (StaticHandshakeKeyPair.public st.(RuntimeState.static_handshake)).

(** The signature CLIENT_AUTH carries. *)
Definition presented (p : HandshakePending.t) (auth signature : list u8) : Prop :=
  exists ciphertext used plaintext,
    WireBytes.decode auth 16384 = Ok (ciphertext, used) /\
    decrypt_client_auth (expand32 p.(HandshakePending.secret3) (bstr "client auth key") p.(HandshakePending.transcript).(Transcript.hash))
      p.(HandshakePending.transcript).(Transcript.hash) ciphertext = Ok plaintext /\
    get_range plaintext (32 + BINDING_WIRE_LEN) (32 + BINDING_WIRE_LEN + 64) = Some signature.

Lemma authenticated st p plaintext now peer :
  authenticate_client p st plaintext now = Ok peer ->
  IdentityBinding.validate peer.(PeerIdentity.binding) now BINDING_SKEW_MS = Ok tt /\
  peer.(PeerIdentity.binding).(IdentityBinding.static_handshake_public_key) = peer.(PeerIdentity.client_static_public_key) /\
  len peer.(PeerIdentity.client_static_public_key) = 32 /\
  (exists signature, get_range plaintext (32 + BINDING_WIRE_LEN) (32 + BINDING_WIRE_LEN + 64) = Some signature /\
     identity_verify peer.(PeerIdentity.binding).(IdentityBinding.identity_public_key) (expected_message st p peer) signature = true) /\
  forall depth, peer.(PeerIdentity.delegation_depth) = Some depth ->
    exists record, DelegationStore.valid_chain_for_public_key st.(RuntimeState.store)
        peer.(PeerIdentity.binding).(IdentityBinding.identity_public_key) now = Ok (Some record) /\
      len record.(StoredDelegationChain.certificates) = depth /\
      RevocationStore.check_delegation st.(RuntimeState.store) record now = Ok tt.
Proof.
  unfold authenticate_client. intros (static & Hst%ok_or_Ok & H)%bind_Ok. apply bind_Ok in H as (sg & Hsg%ok_or_Ok & H).
  apply bind_Ok in H as (bytes & _ & H). apply bind_Ok in H as (b & _ & H). apply bind_Ok in H as (chain & Hch & H).
  apply bind_Ok in H as ([] & Hv%map_err_Ok & H). case_bool_decide as Heq; [|done]. cbn [negb] in H.
  destruct (identity_verify _ _ sg) eqn:Esig; [|done]. cbn [negb] in H. apply bind_Ok in H as (depth & Hdep & <-%(inj Ok)).
  cbn [PeerIdentity.binding PeerIdentity.client_static_public_key PeerIdentity.delegation_depth].
  split; [done|]. split; [done|]. split; [apply get_range_Some in Hst; lia|]. split.
  { exists sg. split; [done|]. unfold expected_message. cbn [PeerIdentity.binding PeerIdentity.client_static_public_key].
    by rewrite <- (validated_endpoint _ _ _ Hv). }
  intros d ->. destruct chain as [chain|]; [|done]. cbn [delegation_depth_of] in Hdep. destruct (_ <? _); [done|]. injection Hdep as <-.
  unfold read_delegation in Hch. destruct (_ =? _); [done|]. apply bind_Ok in Hch as (tail & _ & Hch).
  apply bind_Ok in Hch as ([enc used] & _ & Hch). destruct (negb _); [done|]. apply bind_Ok in Hch as (chain' & _ & Hch).
  apply bind_Ok in Hch as (persisted & Hp%map_err_Ok & Hch). destruct persisted as [record|]; [|done].
  case_bool_decide as Hrc; [|done]. cbn [negb] in Hch. rewrite Hp in Hch. cbn [map_err mbind Result_bind] in Hch.
  apply bind_Ok in Hch as ([] & Hck%map_err_Ok & [= ->]). exists record. by rewrite Hrc.
Qed.

Lemma completed st p auth now fin secrets peer p' :
  complete p st auth now = (Ok (fin, secrets, peer), p') ->
  secrets = p.(HandshakePending.session_secrets) /\
  (exists plaintext, authenticate_client p st plaintext now = Ok peer /\
     forall sg, get_range plaintext (32 + BINDING_WIRE_LEN) (32 + BINDING_WIRE_LEN + 64) = Some sg -> presented p auth sg) /\
  exists m m', HandshakeMachine.apply p.(HandshakePending.machine) ReceiveClientAuth = Ok m /\
    HandshakeMachine.apply m SendServerFinished = Ok m' /\ p' = HandshakePending.with_machine p m'.
Proof.
  unfold complete. destruct (complete_inner p st auth now) as [[[f pe] m']|] eqn:E; [|done]. intros [= <- <- <- <-].
  unfold complete_inner in E. apply bind_Ok in E as (m & Hm%map_err_Ok & E). apply bind_Ok in E as ([ct n] & Hf%map_err_Ok & E).
  apply bind_Ok in E as (pl & Hd & E). apply bind_Ok in E as (pr & Hp & E). apply bind_Ok in E as (t & _ & E).
  apply bind_Ok in E as (m'' & Hm'%map_err_Ok & [= <- <- <-]). split; [done|]. split; [exists pl; split; [done|]; intros sg Hsg; by exists ct, n, pl|]. by exists m, m''.
Qed.

Lemma complete_failed (st : RuntimeState.t St) p auth now : HandshakeMachine.apply p.(HandshakePending.machine) ReceiveClientAuth = Err InvalidTransition ->
  complete p st auth now = (Err (Message "handshake state"), p).
Proof. intros E. unfold complete, complete_inner, apply_event. by rewrite E. Qed.

(** The answer fixes the transcript it was given for. *)
Lemma answer_transcript (st : RuntimeState.t St) carrier hb hello cstatic retry version privacy se random shb p :
  answer_hello st carrier hb hello cstatic retry None version MODE_XX privacy se random = Ok (ServerHelloResponse shb p) ->
  exists t1 sh, first_transcript carrier hb retry = Ok t1 /\ ServerHello.encode sh = Ok shb /\
    Transcript.update_message t1 Encoding.SERVER_HELLO shb = Ok p.(HandshakePending.transcript).
Proof.
  unfold answer_hello. intros (t0 & H0%map_err_Ok & H)%bind_Ok. cbv zeta in H. apply bind_Ok in H as (x1 & _ & H).
  apply bind_Ok in H as (ct & _ & H). apply bind_Ok in H as (can & _ & H). apply bind_Ok in H as (bytes & Hb%map_err_Ok & H).
  apply bind_Ok in H as (t2 & Ht2%map_err_Ok & H). do 3 apply bind_Ok in H as (? & _ & H). injection H as <- <-.
  eexists (absorb_retry t0 retry), _. split; [unfold first_transcript; by rewrite H0|]. split; [exact Hb|done].
Qed.

Lemma answer_eid_len (st : RuntimeState.t St) carrier hb hello cstatic retry version mode privacy se random shb p :
  answer_hello st carrier hb hello cstatic retry None version mode privacy se random = Ok (ServerHelloResponse shb p) ->
  len p.(HandshakePending.server_eid) = 32.
Proof.
  unfold answer_hello. intros (t0 & _ & H)%bind_Ok. cbv zeta in H. do 8 apply bind_Ok in H as (? & _ & H). injection H as _ <-.
  apply blake2s_len.
Qed.

(** Without an invitation an answer is one in the mode XX to a hello of the realm. *)
Lemma responded (st : RuntimeState.t St) carrier hb cstatic dcid scid retry se random shb p :
  respond_hello_with_retry_context_and_psk st carrier hb cstatic dcid scid retry None se random = Ok (ServerHelloResponse shb p) ->
  exists hello privacy, ClientHello.decode hb = Ok hello /\
    answer_hello st carrier hb hello cstatic retry None SUPPORTED_PROTOCOL_VERSION MODE_XX privacy se random = Ok (ServerHelloResponse shb p).
Proof.
  unfold respond_hello_with_retry_context_and_psk. destruct (RuntimeState.carrier_disabled _ _); [done|].
  intros (hello & Hd%map_err_Ok & H)%bind_Ok. destruct (negb _); [done|].
  destruct (select_version _) as [v|] eqn:Ev; [|by apply bind_Ok in H as (? & _ & ?)].
  assert (v = SUPPORTED_PROTOCOL_VERSION) as -> by (unfold select_version in Ev; case_decide; by simplify_eq).
  destruct (RuntimeState.protocol_version_disabled _ _); [by apply bind_Ok in H as (? & _ & ?)|].
  destruct (RuntimeState.crypto_profile_disabled _ _); [done|]. apply bind_Ok in H as (pr & _ & H).
  apply bind_Ok in H as (mode & Hm & H). unfold select_mode in Hm. destruct (offers _ _); [done|]. apply (inj Ok) in Hm as <-.
  by exists hello, pr.
Qed.

Lemma client_transcript ce hello sh carrier retry out :
  complete_client_side_with_mode ce ce hello sh carrier MODE_XX None retry = Ok out ->
  exists hb t1 shb t2, ClientHello.encode hello = Ok hb /\ first_transcript carrier hb retry = Ok t1 /\
    ServerHello.encode sh = Ok shb /\ Transcript.update_message t1 Encoding.SERVER_HELLO shb = Ok t2 /\
    out.(ClientHandshakeOutput.transcript_hash) = t2.(Transcript.hash) /\
    len out.(ClientHandshakeOutput.server_static_public_key) = 32 /\
    len out.(ClientHandshakeOutput.server_endpoint_id) = 32.
Proof.
  unfold complete_client_side_with_mode. destruct (negb _); [done|]. intros (can & _ & H)%bind_Ok. destruct (negb _); [done|].
  apply bind_Ok in H as (hb & Hb%map_err_Ok & H). apply bind_Ok in H as (t0 & H0%map_err_Ok & H). cbv zeta in H.
  apply bind_Ok in H as (x1 & _ & H). apply bind_Ok in H as (block & Hbl%map_err_Ok & H). apply bind_Ok in H as (ik & _ & H).
  apply bind_Ok in H as (shb & Hs%map_err_Ok & H). apply bind_Ok in H as (t2 & Ht2%map_err_Ok & <-%(inj Ok)).
  exists hb, (absorb_retry t0 retry), shb, t2. cbn [ClientHandshakeOutput.transcript_hash ClientHandshakeOutput.server_static_public_key
    ClientHandshakeOutput.server_endpoint_id]. split_and!; try done.
  - unfold first_transcript. by rewrite H0.
  - unfold decrypt_server_auth in Hbl. apply bind_Ok in Hbl as (keys & _ & Hbl). apply bind_Ok in Hbl as (pt & _ & Hbl).
    apply bind_Ok in Hbl as (ss & Hss%ok_or_Ok & Hbl). apply bind_Ok in Hbl as (e & _ & Hbl). apply bind_Ok in Hbl as (ch & _ & Hbl).
    apply bind_Ok in Hbl as (bi & _ & <-%(inj Ok)). apply get_range_Some in Hss. cbn. lia.
  - apply blake2s_len.
Qed.

End Accepted.

(** ** Properties *)

(** One attempt of a client's software: who it is, what it sent and received,
    and what came out. *)
Module ClientRun.
Record t := mk {
  side : ClientSide.t;
  ephemeral : StaticHandshakeKeyPair.t;
  hello : ClientHello.t;
  carrier : list u8;
  retry : option (list u8);
  expected : option (list u8);
  response : list u8;
  server_hello : ServerHello.t;
  output : ClientHandshakeOutput.t;
  auth_body : list u8
}.
End ClientRun.

Section Theorems.
Context {St : Type} `{HS : Store St} `{HP : Primitives} {HPL : PrimitiveLaws} `{HC : Curves} {HCL : CurveLaws} {HT : AeadTotal}.

(** The attempt happened. *)
Definition ran (r : ClientRun.t) : Prop :=
  ClientHello.sized r.(ClientRun.hello) /\
  r.(ClientRun.hello).(ClientHello.client_ephemeral_public_key) = StaticHandshakeKeyPair.public r.(ClientRun.ephemeral) /\
  retry_sized r.(ClientRun.retry) /\
  client_auth r.(ClientRun.side) r.(ClientRun.ephemeral) r.(ClientRun.hello) r.(ClientRun.carrier) r.(ClientRun.retry)
    r.(ClientRun.expected) r.(ClientRun.response) = Ok (r.(ClientRun.server_hello), r.(ClientRun.output), r.(ClientRun.auth_body)).

(** What the attempt signed the digest of, and all it hashed for that. *)
Definition run_text (r : ClientRun.t) : list u8 :=
  signature_text r.(ClientRun.output).(ClientHandshakeOutput.transcript_hash)
    (endpoint_id (IdentityKeyPair.public r.(ClientRun.side).(ClientSide.identity)))
    r.(ClientRun.output).(ClientHandshakeOutput.server_endpoint_id)
    (StaticHandshakeKeyPair.public r.(ClientRun.side).(ClientSide.static_handshake))
    r.(ClientRun.output).(ClientHandshakeOutput.server_static_public_key).

Definition written {E} (r : Result E (list u8)) : list u8 := match r with Ok bytes => bytes | Err _ => [] end.

Definition run_texts (r : ClientRun.t) : list (list u8) :=
  run_text r :: hello_texts r.(ClientRun.carrier) (written (ClientHello.encode r.(ClientRun.hello))) r.(ClientRun.retry)
    (written (ServerHello.encode r.(ClientRun.server_hello))).

(** The signature is not forged: each digest for which it verifies is that of a
    text signed in one of the holder's [runs], or of one of the [others] its key
    has been used for. *)
Definition unforged (key : list u8) (runs : list ClientRun.t) (others : list (list u8)) (signature : list u8) : Prop :=
  forall m, len m = 32 -> identity_verify key m signature = true ->
    (exists r, r ∈ runs /\ IdentityKeyPair.public r.(ClientRun.side).(ClientSide.identity) = key /\ m = blake2s (run_text r)) \/
    exists text, text ∈ others /\ m = blake2s text.

Lemma signature_text_binds t1 c1 s1 cs1 ss1 t2 c2 s2 cs2 ss2 :
  len t1 = 32 -> len t2 = 32 -> len c1 = 32 -> len c2 = 32 -> len s1 = 32 -> len s2 = 32 -> len cs1 = 32 -> len cs2 = 32 ->
  signature_text t1 c1 s1 cs1 ss1 = signature_text t2 c2 s2 cs2 ss2 -> t1 = t2 /\ s1 = s2 /\ cs1 = cs2 /\ ss1 = ss2.
Proof.
  intros Ht1 Ht2 Hc1 Hc2 Hs1 Hs2 Hcs1 Hcs2 Heq.
  unfold len in *. apply app_inv_head in Heq. do 4 (apply app_inj_1 in Heq as [? Heq]; [|lia]). done.
Qed.

Lemma message_fits t ty body t' : Transcript.update_message t ty body = Ok t' -> len body <= Encoding.MAX_HANDSHAKE_MESSAGE.
Proof. intros H. destruct (update_message_hash _ _ _ _ H) as (bs & E & _). by apply message_sized in E as [? _]. Qed.

Lemma first_message_fits carrier hb retry t : first_transcript carrier hb retry = Ok t -> len hb <= Encoding.MAX_HANDSHAKE_MESSAGE.
Proof. intros (t0 & H & _)%bind_Ok. by eapply message_fits. Qed.

Lemma client_auth_completed c ce hello carrier retry expected response sh out body :
  client_auth c ce hello carrier retry expected response = Ok (sh, out, body) ->
  ServerHello.decode response = Ok sh /\ complete_client_side_with_mode ce ce hello sh carrier MODE_XX None retry = Ok out.
Proof.
  unfold client_auth. intros (sh' & Hd%map_err_Ok & H)%bind_Ok. destruct (negb _); [done|].
  apply bind_Ok in H as (out' & Ho & H). destruct (match expected with Some _ => _ | None => _ end); [done|].
  cbv zeta in H. do 3 apply bind_Ok in H as (? & _ & H). by injection H as <- <- <-.
Qed.

(** An attempt with the responder's transcript is the other half of it. *)
Lemma run_matches texts (st : RuntimeState.t St) carrier hb hello retry privacy se random shb p r :
  IdentityBinding.sized st.(RuntimeState.primary_binding) -> good_marker st.(RuntimeState.realm_marker) -> len random = 32 ->
  retry_sized retry -> ClientHello.decode hb = Ok hello ->
  answer_hello st carrier hb hello hello.(ClientHello.client_ephemeral_public_key) retry None SUPPORTED_PROTOCOL_VERSION MODE_XX
    privacy se random = Ok (ServerHelloResponse shb p) ->
  hello_texts carrier hb retry shb ⊆ texts -> run_texts r ⊆ texts ->
  ran r -> r.(ClientRun.output).(ClientHandshakeOutput.transcript_hash) = p.(HandshakePending.transcript).(Transcript.hash) ->
  (r.(ClientRun.carrier) = carrier /\ r.(ClientRun.hello) = hello /\ r.(ClientRun.retry) = retry /\
   ServerHello.decode shb = Ok r.(ClientRun.server_hello) /\ r.(ClientRun.output) = output_of st p) \/ collision_in texts.
Proof.
  intros Hbs Hmk Hrand Hret Hdec Hans Htx [_ Htr]%list_subseteq_cons_iff (Hsz & Heph & Hrs & Hca) Hhash.
  apply client_auth_completed in Hca as [Hshd Hcomp].
  destruct (client_transcript _ _ _ _ _ _ Hcomp) as (hb' & t1' & shb' & t2' & Henc & Ht1' & Hshe & Ht2' & Hh & _ & _).
  destruct (answer_transcript _ _ _ _ _ _ _ _ _ _ _ _ Hans) as (t1 & sh0 & Ht1 & _ & Ht2). rewrite Hh in Hhash.
  rewrite Henc, Hshe in Htr. cbn [written] in Htr.
  pose proof (first_message_fits _ _ _ _ Ht1') as Hfit'. pose proof (first_message_fits _ _ _ _ Ht1) as Hfit.
  pose proof (message_fits _ _ _ _ Ht2') as Hsfit. unfold Encoding.MAX_HANDSHAKE_MESSAGE in *.
  assert (Hdec' : ClientHello.decode hb' = Ok r.(ClientRun.hello)).
  { rewrite <- (app_nil_r hb'). apply client_hello_decode; [done|done|]. rewrite app_nil_r. unfold usize_max, u64_max. lia. }
  assert (Hshd' : ServerHello.decode shb' = Ok r.(ClientRun.server_hello)).
  { rewrite <- (app_nil_r shb'). apply server_hello_decode; [by eapply decoded_server_hello_sized|done|]. rewrite app_nil_r. unfold usize_max, u64_max. lia. }
  destruct (transcripts_agree texts _ _ _ _ _ _ _ _ _ _ _ _ Htr Htx Ht1' Ht1 Hrs Hret (decoded_hello_len _ _ Hdec') (decoded_hello_len _ _ Hdec) Ht2' Ht2 Hhash)
    as [(Hcar & Hhb & Hrt & Hsb)|]; [left|by right].
  subst hb' shb'. rewrite Hdec in Hdec'. apply (inj Ok) in Hdec'. rewrite Hcar, Hrt, <- Hdec' in *.
  destruct (hellos_exchanged st carrier hello hb retry r.(ClientRun.ephemeral) se random privacy Henc Heph Hfit)
    as (sh & shb1 & u1 & u2 & Hans' & Hd1 & _ & Hcomp' & _); [|done|done|done|].
  { destruct retry as [x|]; [|done]. simpl. rewrite (Hret x) by done. lia. }
  rewrite <- Heph, Hans in Hans'. injection Hans' as <- ->. rewrite Hshd' in Hd1. apply (inj Ok) in Hd1 as <-.
  rewrite Hcomp in Hcomp'. apply (inj Ok) in Hcomp' as ->. done.
Qed.

(** C5: Whoever is accepted has proved who they are: when the responder
    completes a handshake, the peer's binding is valid now, is for the static key
    presented, and its identity key has signed this very transcript with both
    endpoint identifiers and both static keys.  A delegation that is reported is
    one the responder itself holds, still valid and named by no revocation.  No
    second CLIENT_AUTH is taken, and application keys wait for the client's
    confirmation. *)
Theorem client_authenticated (st : RuntimeState.t St) p auth now fin secrets peer p' :
  complete p st auth now = (Ok (fin, secrets, peer), p') ->
  IdentityBinding.validate peer.(PeerIdentity.binding) now BINDING_SKEW_MS = Ok tt /\
  peer.(PeerIdentity.binding).(IdentityBinding.static_handshake_public_key) = peer.(PeerIdentity.client_static_public_key) /\
  (exists signature, presented p auth signature /\
     identity_verify peer.(PeerIdentity.binding).(IdentityBinding.identity_public_key) (expected_message st p peer) signature = true) /\
  (forall depth, peer.(PeerIdentity.delegation_depth) = Some depth ->
    exists record, DelegationStore.valid_chain_for_public_key st.(RuntimeState.store)
        peer.(PeerIdentity.binding).(IdentityBinding.identity_public_key) now = Ok (Some record) /\
      len record.(StoredDelegationChain.certificates) = depth /\
      RevocationStore.check_delegation st.(RuntimeState.store) record now = Ok tt) /\
  (forall auth' now', complete p' st auth' now' = (Err (Message "handshake state"), p')) /\
  HandshakePending.application_keys_ready p' = false.
Proof.
  intros H. destruct (completed _ _ _ _ _ _ _ _ H) as (_ & (plaintext & Ha & Hpr) & m & m' & Hm & Hm' & ->).
  destruct (authenticated _ _ _ _ _ Ha) as (Hv & Hst & _ & (sg & Hsg & Hver) & Hdel). split_and!; try done.
  - exists sg. split; [by apply Hpr|done].
  - intros auth' now'. apply complete_failed. cbn. destruct p as [? ? ? ? ? ? [s a k]]. cbn in Hm. destruct s; try done;
      injection Hm as <-; cbn in Hm'; by injection Hm' as <-.
  - destruct p as [? ? ? ? ? ? [s a k]]. cbn in Hm. destruct s; try done; injection Hm as <-; cbn in Hm'; by injection Hm' as <-.
Qed.

(** C4: Matching conversations: when the responder accepts a client whose
    signature is not forged, one of the client's own attempts was made over the same
    carrier with the same hello, read the same answer, was meant for this
    responder and its static key, and ended with exactly the session secrets the
    responder has; or two of the texts the two sides have hashed have one BLAKE2s
    digest.  Nobody can stand between the two. *)
Theorem matching_conversations (st : RuntimeState.t St) carrier hb hello dcid scid retry se random shb p auth now fin secrets peer p'
    runs others :
  IdentityBinding.sized st.(RuntimeState.primary_binding) -> good_marker st.(RuntimeState.realm_marker) -> len random = 32 ->
  retry_sized retry -> ClientHello.decode hb = Ok hello ->
  respond_hello_with_retry_context_and_psk st carrier hb hello.(ClientHello.client_ephemeral_public_key) dcid scid retry None se random =
    Ok (ServerHelloResponse shb p) ->
  complete p st auth now = (Ok (fin, secrets, peer), p') ->
  Forall ran runs -> Forall (fun text => starts_with (bstr "UMP-CLIENT-AUTH-v1") text = false) others ->
  (forall signature, presented p auth signature ->
     unforged peer.(PeerIdentity.binding).(IdentityBinding.identity_public_key) runs others signature) ->
  collision_in (expected_text st p peer :: hello_texts carrier hb retry shb ++ concat (map run_texts runs) ++ others) \/
  exists r, r ∈ runs /\ r.(ClientRun.carrier) = carrier /\ r.(ClientRun.hello) = hello /\ r.(ClientRun.retry) = retry /\
    ServerHello.decode shb = Ok r.(ClientRun.server_hello) /\
    IdentityKeyPair.public r.(ClientRun.side).(ClientSide.identity) = peer.(PeerIdentity.binding).(IdentityBinding.identity_public_key) /\
    StaticHandshakeKeyPair.public r.(ClientRun.side).(ClientSide.static_handshake) = peer.(PeerIdentity.client_static_public_key) /\
    r.(ClientRun.output).(ClientHandshakeOutput.server_endpoint_id) = p.(HandshakePending.server_eid) /\
    r.(ClientRun.output).(ClientHandshakeOutput.server_static_public_key) = StaticHandshakeKeyPair.public st.(RuntimeState.static_handshake) /\
    r.(ClientRun.output).(ClientHandshakeOutput.session_secrets) = secrets.
Proof.
  intros Hbs Hmk Hrand Hret Hdec Hresp Hcomp Hruns Hoth Hunf.
  set (texts := expected_text st p peer :: _).
  assert (Tx : expected_text st p peer ∈ texts) by apply list_elem_of_here.
  assert (Th : hello_texts carrier hb retry shb ⊆ texts) by (unfold texts; intros x Hx; apply list_elem_of_further, elem_of_app; by left).
  assert (To : others ⊆ texts) by (unfold texts; intros x Hx; apply list_elem_of_further; rewrite !elem_of_app; auto).
  assert (Tr : forall r, r ∈ runs -> run_texts r ⊆ texts).
  { unfold texts. intros r Hr x Hx. apply list_elem_of_further. rewrite !elem_of_app. right. left.
    apply list_elem_of_In, in_concat. exists (run_texts r). split; [by apply in_map, list_elem_of_In|by apply list_elem_of_In]. }
  clearbody texts.
  destruct (completed _ _ _ _ _ _ _ _ Hcomp) as (-> & (plaintext & Ha & Hpr) & _).
  destruct (authenticated _ _ _ _ _ Ha) as (_ & _ & Hcs & (sg & Hsg & Hsig) & _).
  destruct (responded _ _ _ _ _ _ _ _ _ _ _ Hresp) as (hello' & privacy & Hdec' & Hans).
  rewrite Hdec in Hdec'. apply (inj Ok) in Hdec' as <-.
  destruct (Hunf _ (Hpr _ Hsg) _ (blake2s_len _) Hsig) as [(r & Hr & Hkey & Heq)|(text & Hin & Heq)].
  2: { left. rewrite list.Forall_forall in Hoth. pose proof (Hoth _ Hin) as Hpre.
       destruct (digest_inj _ _ _ Tx (To _ Hin) Heq) as [<-|]; [|done]. unfold starts_with, expected_text, signature_text in Hpre.
       rewrite take_app_length in Hpre. by rewrite bool_decide_eq_true_2 in Hpre. }
  rewrite list.Forall_forall in Hruns. pose proof (Hruns r Hr) as Hran. pose proof Hran as (_ & _ & _ & Hca).
  apply client_auth_completed in Hca as [_ Hcc].
  destruct (client_transcript _ _ _ _ _ _ Hcc) as (? & ? & ? & t2' & _ & _ & _ & Ht2' & Hh & Hls & Hle).
  destruct (answer_transcript _ _ _ _ _ _ _ _ _ _ _ _ Hans) as (? & ? & _ & _ & Ht2).
  destruct (digest_inj _ _ _ Tx (Tr _ Hr _ (list_elem_of_here _ _)) Heq) as [Heq'|]; [|by left].
  apply signature_text_binds in Heq' as (Ht & Hs & Hst & Hss); [|by eapply update_message_len|rewrite Hh; by eapply update_message_len|
    apply blake2s_len|apply blake2s_len|by eapply answer_eid_len|done|done|apply static_public_len].
  destruct (run_matches texts _ _ _ _ _ _ _ _ _ _ _ Hbs Hmk Hrand Hret Hdec Hans Th (Tr _ Hr) Hran (eq_sym Ht)) as [(? & ? & ? & ? & Ho)|]; [right|by left].
  exists r. split_and!; try done. by rewrite Ho.
Qed.

End Theorems.

(** ** Examples *)

#[local] Existing Instances memory_store memory_laws toy_primitives toy_laws toy_curves toy_curve_laws toy_total.

Definition or_default {E A} (d : A) (r : Result E A) : A := match r with Ok a => a | Err _ => d end.

Definition sample_ephemeral : StaticHandshakeKeyPair.t := StaticHandshakeKeyPair.mk (replicate 32 9).
Definition sample_server_ephemeral : StaticHandshakeKeyPair.t := StaticHandshakeKeyPair.mk (replicate 32 10).

Definition sample_sent : ClientHello.t * list u8 :=
  or_default (sample_client_hello, []) (client_hello sample_client (replicate 32 7) sample_ephemeral []).

Definition sample_answer : list u8 * HandshakePending.t :=
  match respond_hello_with_retry_context_and_psk sample_responder (bstr "udp") sample_sent.2
          (StaticHandshakeKeyPair.public sample_ephemeral) [1] [2] None None sample_server_ephemeral (replicate 32 8) with
  | Ok (ServerHelloResponse bytes pending) => (bytes, pending)
  | _ => ([], pending_of sample_responder sample_ephemeral sample_server_ephemeral (Transcript.mk [] 0) 0)
  end.

Definition sample_run : ClientRun.t :=
  let '(server_hello, out, body) :=
    or_default (sample_server_hello, output_of sample_responder sample_answer.2, [])
      (client_auth sample_client sample_ephemeral sample_sent.1 (bstr "udp") None None sample_answer.1) in
  ClientRun.mk sample_client sample_ephemeral sample_sent.1 (bstr "udp") None None sample_answer.1 server_hello out body.

Definition sample_peer : PeerIdentity.t :=
  PeerIdentity.mk (StaticHandshakeKeyPair.public sample_caller_static) sample_client.(ClientSide.binding) None.

Lemma sample_completed :
  exists fin p', complete sample_answer.2 sample_responder sample_run.(ClientRun.auth_body) 500 =
    (Ok (fin, sample_answer.2.(HandshakePending.session_secrets), sample_peer), p').
Proof. eexists _, _. vm_compute. reflexivity. Qed.

Lemma client_authenticated_witness :
  exists fin p', complete sample_answer.2 sample_responder sample_run.(ClientRun.auth_body) 500 =
      (Ok (fin, sample_answer.2.(HandshakePending.session_secrets), sample_peer), p') /\
    complete p' sample_responder sample_run.(ClientRun.auth_body) 600 = (Err (Message "handshake state"), p').
Proof.
  destruct sample_completed as (fin & p' & H). exists fin, p'. split; [exact H|].
  apply (client_authenticated sample_responder sample_answer.2 sample_run.(ClientRun.auth_body) 500 fin _ sample_peer p' H).
Defined.

(** With these curves a signature carries the digest it is for. *)
Lemma toy_digest_signed key m m' signature :
  len m = 32 -> len m' = 32 -> identity_verify key m signature = true -> identity_verify key m' signature = true -> m = m'.
Proof.
  unfold identity_verify. intros Hm Hm' H H'. destruct (negb _); [done|]. cbn [ed25519_verify toy_curves] in H, H'.
  apply bool_decide_eq_true in H, H'. rewrite H in H'. apply app_inv_head in H'. unfold toy_pad, len in *.
  rewrite !take_app_le in H' by lia. rewrite !take_ge in H' by lia. done.
Qed.

Lemma sample_signature :
  let p := sample_answer.2 in
  let hash := p.(HandshakePending.transcript).(Transcript.hash) in
  match WireBytes.decode sample_run.(ClientRun.auth_body) 16384 with
  | Ok (ciphertext, _) =>
      match decrypt_client_auth (expand32 p.(HandshakePending.secret3) (bstr "client auth key") hash) hash ciphertext with
      | Ok plaintext =>
          match get_range plaintext (32 + BINDING_WIRE_LEN) (32 + BINDING_WIRE_LEN + 64) with
          | Some signature =>
              identity_verify sample_peer.(PeerIdentity.binding).(IdentityBinding.identity_public_key) (blake2s (run_text sample_run)) signature
          | None => false
          end
      | Err _ => false
      end
  | Err _ => false
  end = true.
Proof. vm_compute. reflexivity. Qed.

Lemma sample_unforged signature :
  presented sample_answer.2 sample_run.(ClientRun.auth_body) signature ->
  unforged sample_peer.(PeerIdentity.binding).(IdentityBinding.identity_public_key) [sample_run] [] signature.
Proof.
  intros (ct & n & pl & H1 & H2 & H3) m Hm Hv. left. exists sample_run. split; [apply list_elem_of_here|]. split; [by vm_compute|].
  refine (toy_digest_signed _ _ _ signature Hm (blake2s_len _) Hv _).
  pose proof sample_signature as Hs. cbv zeta in Hs. rewrite H1, H2, H3 in Hs. exact Hs.
Qed.

Lemma matching_conversations_witness :
  collision_in (expected_text sample_responder sample_answer.2 sample_peer ::
      hello_texts (bstr "udp") sample_sent.2 None sample_answer.1 ++ concat (map run_texts [sample_run]) ++ []) \/
  exists r, r ∈ [sample_run] /\ r.(ClientRun.hello) = sample_sent.1 /\
    r.(ClientRun.output).(ClientHandshakeOutput.session_secrets) = sample_answer.2.(HandshakePending.session_secrets).
Proof.
  destruct sample_completed as (fin & p' & H).
  destruct (matching_conversations sample_responder (bstr "udp") sample_sent.2 sample_sent.1 [1] [2] None sample_server_ephemeral
    (replicate 32 8) sample_answer.1 sample_answer.2 sample_run.(ClientRun.auth_body) 500 fin
    sample_answer.2.(HandshakePending.session_secrets) sample_peer p' [sample_run] [])
    as [Hc|(r & Hr & _ & Hh & _ & _ & _ & _ & _ & _ & Hs)].
  - unfold IdentityBinding.sized. split_and!; by vm_compute.
  - split; by vm_compute.
  - reflexivity.
  - discriminate 1.
  - vm_compute. reflexivity.
  - vm_compute. reflexivity.
  - exact H.
  - constructor; [|constructor]. split; [unfold ClientHello.sized; split_and!; [by vm_compute..| |by vm_compute]|].
    { assert (E : sample_run.(ClientRun.hello).(ClientHello.supported_protocol_versions) = [SUPPORTED_PROTOCOL_VERSION])
        by (vm_compute; reflexivity). rewrite E. constructor; [discriminate|constructor]. }
    split; [by vm_compute|]. split; [intros x Hx; vm_compute in Hx; discriminate Hx|]. vm_compute. reflexivity.
  - constructor.
  - exact sample_unforged.
  - left. exact Hc.
  - right. exists r. split; [exact Hr|]. split; [exact Hh|exact Hs].
Defined.
