(* ===== verification/SessionRegistry.v ===== *)
(** * The daemon's sessions

    The registry of live sessions (bins/umcd/src/session_manager.rs), the
    blocklist (crates/umc-core/src/block.rs), the traffic policy of a session
    (bins/umcd/src/session_task.rs), the keys kept per peer
    (crates/umc-storage/src/records.rs) and the one way a session comes to life,
    [register_session_locked] of bins/umcd/src/unix_main.rs.  The channels and
    tasks that run a session are the runtime's and are left out; what they are
    given is not. *)

From Stdlib Require Import Strings.String.
From stdpp Require Import gmap.
From S2P Require Import Prelude Records Crypto Header Packet ProtectedPacket Spaces SentPackets Ack Loss Flow Stream Cids Datagrams Paths Congestion KeyPhase SessionState SessionOps SessionRules SessionRun SessionTrace SessionInvariant SessionSafety SessionGates SessionLink Identity HandshakeMessages HandshakeKeys HandshakeGates Store TrustStatements Trust Revocation Handshake.

#[local] Open Scope N_scope.

(** ** The blocklist *)

Module BlockReason.
Inductive t := MalformedTraffic | AuthenticationFailure | RateLimitViolation | Enumeration | Operator.
End BlockReason.

Module BlockEntry.
Record t := mk { reason : BlockReason.t; expires_at : Instant }.
End BlockEntry.

Module Blocklist.
Record t := mk { permanence_seconds : u64; entries : gmap (list u8) BlockEntry.t }.

Definition new (permanence_seconds : u64) : t := mk permanence_seconds ∅.

Definition block (b : t) (endpoint : list u8) (reason : BlockReason.t) (now : Instant) : t :=
  let expires_at := instant_add now (saturating_mul b.(permanence_seconds) 1000) in
  b <| entries := <[endpoint := BlockEntry.mk reason expires_at]> b.(entries) |>.

Definition unblock (b : t) (endpoint : list u8) : t := b <| entries := delete endpoint b.(entries) |>.

Definition is_blocked (b : t) (endpoint : list u8) (now : Instant) : option Instant :=
  match b.(entries) !! endpoint with
  | Some entry => if now <? entry.(BlockEntry.expires_at) then Some entry.(BlockEntry.expires_at) else None
  | None => None
  end.

Definition expiry (b : t) (endpoint : list u8) : option Instant := BlockEntry.expires_at <$> b.(entries) !! endpoint.

Definition reason (b : t) (endpoint : list u8) (now : Instant) : option BlockReason.t :=
  match b.(entries) !! endpoint with
  | Some entry => if now <? entry.(BlockEntry.expires_at) then Some entry.(BlockEntry.reason) else None
  | None => None
  end.

End Blocklist.

(** ** The registry *)

Module SessionEntry.
Record t := mk {
  peer_endpoint_id : list u8;
  carrier_type : string;
  established_at_ms : u64;
  privacy_profile : u8;
  direct_path_allowed : bool;
  traffic_padding_active : bool
}.
End SessionEntry.

Module SessionManager.
(** [next_id] is the last identifier handed out; it would wrap around only after
    2^64 of them, which is not modelled. *)
Record t := mk { sessions : gmap u64 SessionEntry.t; next : u64 }.

Definition new : t := mk ∅ 0.

Definition next_id (m : t) : u64 * t := (m.(next) + 1, m <| next := m.(next) + 1 |>).

Definition count (m : t) : usize := N.of_nat (size m.(sessions)).

Definition try_register (m : t) (session_id : u64) (entry : SessionEntry.t) (max_sessions : usize) : bool * t :=
  if negb (bool_decide (is_Some (m.(sessions) !! session_id))) && (max_sessions <=? count m) then (false, m)
  else (true, m <| sessions := <[session_id := entry]> m.(sessions) |>).

Definition lookup (m : t) (session_id : u64) : option SessionEntry.t := m.(sessions) !! session_id.

Definition remove (m : t) (session_id : u64) : option SessionEntry.t * t :=
  (m.(sessions) !! session_id, m <| sessions := delete session_id m.(sessions) |>).

End SessionManager.

(** ** Traffic policy *)

Module PrivacyRuntimePolicy.
Record t := mk {
  profile : u8;
  traffic_padding : bool;
  timing_jitter_ms : u64;
  cover_traffic : bool;
  cover_interval_ms : u64;
  cover_budget_bps : u64;
  route_rotation_interval_ms : u64
}.

Definition from_config (profile : u8) (traffic_padding : bool) (timing_jitter_ms : u64) (cover_traffic : bool)
    (cover_interval_ms cover_budget_bps route_rotation_interval_ms : u64) : t :=
  let profile := N.min profile 3 in
  mk profile (traffic_padding || (3 <=? profile)) (if 3 <=? profile then N.min timing_jitter_ms 10000 else 0)
    (cover_traffic && (3 <=? profile)) (N.min (N.max cover_interval_ms 100) 60000) (N.min cover_budget_bps (64 * 1024))
    (N.min (N.max route_rotation_interval_ms 60000) (24 * 60 * 60 * 1000)).

End PrivacyRuntimePolicy.

(** ** Keys kept per peer *)

Section Records.
Context {St : Type} `{Store St}.

Definition peer_identity_key_key (peer_endpoint_id : list u8) : list u8 := bstr "peer-identity-key/" ++ peer_endpoint_id.

Definition save_peer_identity_public_key (s : St) (peer_endpoint_id identity_public_key : list u8) : Result StoreError unit * St :=
  if negb (len peer_endpoint_id =? 32) || negb (len identity_public_key =? 32) then (Err Serialization, s)
  else store_put s Namespace.Peer (peer_identity_key_key peer_endpoint_id) identity_public_key.

(** A record of another length is removed and treated as absent. *)
Definition load_peer_identity_public_key (s : St) (peer_endpoint_id : list u8) : Result StoreError (option (list u8)) * St :=
  if negb (len peer_endpoint_id =? 32) then (Ok None, s)
  else
    let key := peer_identity_key_key peer_endpoint_id in
    match store_get s Namespace.Peer key with
    | Err e => (Err e, s)
    | Ok None => (Ok None, s)
    | Ok (Some value) =>
        if len value =? 32 then (Ok (Some value), s) else (Ok None, (store_delete s Namespace.Peer key).2)
    end.

End Records.

(** ** The daemon *)

(** What a session's task is given to issue a ticket at the clean close. *)
Module TicketMaterial.
Record t := mk { ticket_key : list u8; resumption_secret : list u8; peer_endpoint_id : list u8; server_endpoint_id : list u8 }.
End TicketMaterial.

(** The parts of [RuntimeState] that accepting and registering sessions use, with
    the tracker of handshakes that the accept loops share.  [session_controls]
    holds the sessions themselves. *)
Module Daemon.
Record t {St : Type} := mk {
  runtime : RuntimeState.t St;
  require_retry : bool;
  retry_key : list u8;
  ticket_key : list u8;
  ticket_replay_cache : TicketReplayCache.t;
  invitations : InvitationStore.t;
  tracker : DaemonTracker.t;
  trust_default_level : TrustLevel.t;
  blocklist : Blocklist.t;
  active_sessions : usize;
  traffic_padding : bool;
  timing_jitter_ms : u64;
  cover_traffic : bool;
  cover_interval_ms : u64;
  cover_budget_bps : u64;
  route_rotation_interval_ms : u64;
  sessions : SessionManager.t;
  session_controls : gmap u64 (Session.t RenoCongestionController.t);
  ticket_materials : gmap u64 TicketMaterial.t;
  peer_static_handshake_keys : gmap (list u8) (list u8);
  peer_identity_public_keys : gmap (list u8) (list u8);
  (** what the node's clock shows *)
  clock : Instant
}.
#[global] Arguments t : clear implicits.
End Daemon.

Section Daemon.
Context {St : Type} `{Store St} `{Primitives, Curves}.

Definition with_store (d : Daemon.t St) (s : St) : Daemon.t St :=
  let r := d.(Daemon.runtime) in
  d <| Daemon.runtime := RuntimeState.mk r.(RuntimeState.carrier_disabled) r.(RuntimeState.protocol_version_disabled)
         r.(RuntimeState.crypto_profile_disabled) r.(RuntimeState.realm_marker) r.(RuntimeState.is_private_network)
         r.(RuntimeState.effective_privacy_profile) r.(RuntimeState.identity) r.(RuntimeState.static_handshake)
         r.(RuntimeState.primary_binding) s |>.

Definition store_of (d : Daemon.t St) : St := d.(Daemon.runtime).(RuntimeState.store).

Definition node_endpoint_id (d : Daemon.t St) : list u8 :=
  endpoint_id (IdentityKeyPair.public d.(Daemon.runtime).(RuntimeState.identity)).

(** Revocation first, then the pinned binding. *)
Definition validate_peer_binding (d : Daemon.t St) (binding : IdentityBinding.t) (now_ms : u64) : Result Failure unit * Daemon.t St :=
  match RevocationStore.check (store_of d) binding now_ms with
  | Err (RevocationError.Revoked _ _) => (Err (Message "IDENTITY_REVOKED"), d)
  | Err _ => (Err (Message "revocation check failed"), d)
  | Ok _ =>
      let '(r, s) := TofuStore.observe (store_of d) binding now_ms in
      (match r with
       | Ok _ => Ok tt
       | Err (TofuError.BindingChanged _) => Err (Message "TOFU_BINDING_MISMATCH")
       | Err _ => Err (Message "TOFU check failed")
       end, with_store d s)
  end.

Definition refuse_if_blocked (d : Daemon.t St) (peer_endpoint_id : list u8) (now : Instant) : Result Failure unit :=
  match Blocklist.is_blocked d.(Daemon.blocklist) peer_endpoint_id now with
  | Some _ => Err (Message "peer blocked until")
  | None => Ok tt
  end.

Definition refuse_if_trust_disallowed (d : Daemon.t St) (peer_endpoint_id : list u8) : Result Failure unit :=
  state ← map_err (message "trust state unavailable")
    (TrustStore.effective_trust_state (TrustState.from_level d.(Daemon.trust_default_level)) (store_of d) peer_endpoint_id);
  if TrustState.allows_new_session state then Ok tt
  else
    match state with
    | TrustState.Restricted => Err (Message "TRUST_RESTRICTED")
    | TrustState.Blocked => Err (Message "TRUST_BLOCKED")
    | TrustState.Revoked => Err (Message "IDENTITY_REVOKED")
    | _ => Err Panic
    end.

Definition private_profile (d : Daemon.t St) (selected_privacy : u8) : bool :=
  (2 <=? selected_privacy) || (2 <=? d.(Daemon.runtime).(RuntimeState.effective_privacy_profile)).

Definition privacy_policy (d : Daemon.t St) (selected_privacy : u8) : PrivacyRuntimePolicy.t :=
  PrivacyRuntimePolicy.from_config selected_privacy d.(Daemon.traffic_padding) d.(Daemon.timing_jitter_ms)
    d.(Daemon.cover_traffic) d.(Daemon.cover_interval_ms) d.(Daemon.cover_budget_bps) d.(Daemon.route_rotation_interval_ms).

(** The session with its policy and its first path; [challenge] is drawn here. *)
Definition prepare_session (d : Daemon.t St) (carrier_type : string) (dcid local_traffic_secret remote_traffic_secret : list u8)
    (stateless_reset_secret : option (list u8)) (now : Instant) (selected_privacy : u8) (role : Role) (challenge : list u8)
    : Result Failure (Session.t RenoCongestionController.t) :=
  session ← map_err (message "session")
    (session_new (SessionConfig.mk role dcid local_traffic_secret remote_traffic_secret DEFAULT_INITIAL_MAX_DATA
                    DEFAULT_INITIAL_MAX_STREAM_DATA 25) d.(Daemon.clock));
  let policy := privacy_policy d selected_privacy in
  let session := set_traffic_padding session policy.(PrivacyRuntimePolicy.traffic_padding) in
  let session := set_privacy_profile session selected_privacy in
  let session := set_timing_jitter_ms session policy.(PrivacyRuntimePolicy.timing_jitter_ms) in
  let session := set_direct_path_allowed session (negb (private_profile d selected_privacy)) in
  let session :=
    match stateless_reset_secret with
    | Some secret => set_stateless_reset_secret session secret
    | None => session
    end in
  match add_path_with_challenge_bytes DEFAULT_PATH_ID carrier_type [] [] now challenge session with
  | (Ok _, session) => Ok session
  | (Err _, _) => Err (Message "add path 0")
  end.

(** The peer's keys as this session brings them, or as they are on record. *)
Definition note_peer_keys (d : Daemon.t St) (peer_endpoint_id : list u8) (static_key identity_public_key : option (list u8))
    : Daemon.t St :=
  let d :=
    match static_key with
    | Some key => d <| Daemon.peer_static_handshake_keys := <[peer_endpoint_id := key]> d.(Daemon.peer_static_handshake_keys) |>
    | None => d
    end in
  let '(identity_key, d) :=
    match identity_public_key with
    | Some key => (Some key, d)
    | None =>
        let '(r, s) := load_peer_identity_public_key (store_of d) peer_endpoint_id in
        (match r with Ok key => key | Err _ => None end, with_store d s)
    end in
  match identity_key with
  | None => d
  | Some key =>
      let d := d <| Daemon.peer_identity_public_keys := <[peer_endpoint_id := key]> d.(Daemon.peer_identity_public_keys) |> in
      match identity_public_key with
      | Some _ => with_store d (save_peer_identity_public_key (store_of d) peer_endpoint_id key).2
      | None => d
      end
  end.

(** From the identifier on: the registry, the session and its ticket material. *)
Definition install_session (d : Daemon.t St) (carrier_type : string) (session : Session.t RenoCongestionController.t)
    (remote_traffic_secret : list u8) (resumption_secret : option (list u8)) (peer_endpoint_id : list u8) (now : Instant)
    (selected_privacy : u8) (role : Role) : Result Failure u64 * Daemon.t St :=
  let '(session_id, sessions) := SessionManager.next_id d.(Daemon.sessions) in
  let d := d <| Daemon.sessions := sessions |> in
  match PacketKeys.from_traffic_secret remote_traffic_secret with
  | Err _ => (Err (Message "remote keys"), d)
  | Ok _ =>
      let d :=
        match role, resumption_secret with
        | Server, Some secret =>
            d <| Daemon.ticket_materials :=
                 <[session_id := TicketMaterial.mk d.(Daemon.ticket_key) secret peer_endpoint_id (node_endpoint_id d)]>
                   d.(Daemon.ticket_materials) |>
        | _, _ => d
        end in
      let d := d <| Daemon.session_controls := <[session_id := session]> d.(Daemon.session_controls) |> in
      let '(registered, sessions) :=
        SessionManager.try_register d.(Daemon.sessions) session_id
          (SessionEntry.mk peer_endpoint_id carrier_type now (N.min selected_privacy 3)
             (negb (private_profile d selected_privacy)) (privacy_policy d selected_privacy).(PrivacyRuntimePolicy.traffic_padding))
          d.(Daemon.active_sessions) in
      let d := d <| Daemon.sessions := sessions |> in
      (if registered then Ok session_id else Err (Message "RESOURCE_LIMIT: active session profile cap reached"), d)
  end.

Definition register_session_locked (d : Daemon.t St) (carrier_type : string) (dcid local_traffic_secret remote_traffic_secret : list u8)
    (stateless_reset_secret resumption_secret : option (list u8)) (peer_endpoint_id : list u8)
    (peer_static_handshake_public_key peer_identity_public_key : option (list u8)) (now : Instant) (selected_privacy : u8)
    (role : Role) (challenge : list u8) : Result Failure u64 * Daemon.t St :=
  if d.(Daemon.active_sessions) <=? SessionManager.count d.(Daemon.sessions)
  then (Err (Message "RESOURCE_LIMIT: active session profile cap reached"), d)
  else
    let d := note_peer_keys d peer_endpoint_id peer_static_handshake_public_key peer_identity_public_key in
    match
      _ ← refuse_if_trust_disallowed d peer_endpoint_id;
      _ ← refuse_if_blocked d peer_endpoint_id now;
      prepare_session d carrier_type dcid local_traffic_secret remote_traffic_secret stateless_reset_secret now selected_privacy role challenge
    with
    | Err e => (Err e, d)
    | Ok session =>
        install_session d carrier_type session remote_traffic_secret resumption_secret peer_endpoint_id now selected_privacy role
    end.

(** What the watcher of the task does once the task has ended. *)
Definition session_ended (d : Daemon.t St) (session_id : u64) : Daemon.t St :=
  d <| Daemon.sessions := (SessionManager.remove d.(Daemon.sessions) session_id).2 |>
    <| Daemon.session_controls := delete session_id d.(Daemon.session_controls) |>
    <| Daemon.ticket_materials := delete session_id d.(Daemon.ticket_materials) |>.

End Daemon.

(** ** Lemmas *)

Section Registration.
Context {St : Type} `{HS : Store St} `{HP : Primitives} `{HC : Curves}.
Implicit Types d : Daemon.t St.

(** Only the store and the keys of peers may differ. *)
Definition same_sessions d d' : Prop :=
  exists s static identity,
    d' = (with_store d s) <| Daemon.peer_static_handshake_keys := static |> <| Daemon.peer_identity_public_keys := identity |>.

#[global] Instance same_sessions_preorder : PreOrder same_sessions.
Proof.
  split.
  - intros [[]]. by eexists _, _, _.
  - intros d d1 d2 (s & k1 & k2 & ->) (s' & k1' & k2' & ->). by exists s', k1', k2'.
Qed.

Lemma with_store_sessions d s : same_sessions d (with_store d s).
Proof. destruct d. by eexists _, _, _. Qed.

Lemma keys_sessions d static identity :
  same_sessions d (d <| Daemon.peer_static_handshake_keys := static |> <| Daemon.peer_identity_public_keys := identity |>).
Proof. destruct d as [[]]. by eexists _, _, _. Qed.

Lemma note_peer_keys_sessions d peer static identity : same_sessions d (note_peer_keys d peer static identity).
Proof.
  unfold note_peer_keys. cbv zeta.
  set (d1 := match static with Some _ => _ | None => _ end).
  assert (H1 : same_sessions d d1) by (unfold d1; destruct static; [apply (keys_sessions d)|done]).
  etransitivity; [exact H1|]. clearbody d1. clear d H1. destruct identity as [k|].
  - etransitivity; [apply (keys_sessions d1)|apply with_store_sessions].
  - destruct (load_peer_identity_public_key (store_of d1) peer) as [[[k|]|] s]; try apply with_store_sessions.
    etransitivity; [apply with_store_sessions|apply (keys_sessions (with_store d1 s))].
Qed.

Lemma add_path_Ok id carrier local remote now challenge (s s' : Session.t RenoCongestionController.t) c :
  add_path_with_challenge_bytes id carrier local remote now challenge s = (Ok c, s') ->
  (s.(Session.direct_path_allowed) = true \/ is_direct_carrier carrier = false) /\
  exists path, s' = s <| Session.paths := <[id := path]> s.(Session.paths) |>.
Proof.
  unfold add_path_with_challenge_bytes. unfold_m. destruct (bool_decide _); [done|].
  destruct (negb s.(Session.direct_path_allowed) && is_direct_carrier carrier) eqn:E; [done|].
  destruct (_ <? _); [done|]. destruct (Path.start_validation _ _ _ _) as [path|]; [|done]. intros [= _ <-]. split; [|by exists path].
  destruct s.(Session.direct_path_allowed); [by left|right; exact E].
Qed.

Lemma policy_ok (s : Session.t RenoCongestionController.t) padding privacy jitter direct reset :
  session_ok s ->
  session_ok (match reset with
              | Some secret => set_stateless_reset_secret
                  (set_direct_path_allowed (set_timing_jitter_ms (set_privacy_profile (set_traffic_padding s padding) privacy) jitter) direct) secret
              | None => set_direct_path_allowed (set_timing_jitter_ms (set_privacy_profile (set_traffic_padding s padding) privacy) jitter) direct
              end).
Proof.
  intros Hok. assert (H1 : session_ok (set_traffic_padding s padding)) by (destruct Hok; by constructor).
  assert (H2 : session_ok (set_timing_jitter_ms (set_privacy_profile (set_traffic_padding s padding) privacy) jitter))
    by (by apply set_timing_jitter_ok, set_privacy_profile_ok).
  destruct reset; destruct H2; by constructor.
Qed.

(** A session as it starts under its policy. *)
Record started d (carrier_type : string) (dcid local remote : list u8) (reset : option (list u8)) (privacy : u8) (role : Role)
    (s : Session.t RenoCongestionController.t) : Prop := {
  started_ok : session_ok s;
  started_role : s.(Session.role) = role;
  started_dcid : s.(Session.dcid) = dcid;
  started_local : PacketKeys.from_traffic_secret local = Ok s.(Session.local_keys);
  started_remote : PacketKeys.from_traffic_secret remote = Ok s.(Session.remote_keys);
  started_hp : s.(Session.local_hp_key) = header_protection_key local /\ s.(Session.remote_hp_key) = header_protection_key remote;
  started_reset : s.(Session.stateless_reset_secret) = reset;
  started_private : private_profile d privacy = true -> s.(Session.direct_path_allowed) = false /\ is_direct_carrier carrier_type = false;
  started_padded : 3 <= privacy -> s.(Session.traffic_padding) = true;
  started_path : exists path, s.(Session.paths) = {[DEFAULT_PATH_ID := path]}
}.

Lemma session_new_fields config now s :
  session_new config now = Ok s ->
  s.(Session.role) = config.(SessionConfig.role) /\ s.(Session.dcid) = config.(SessionConfig.dcid) /\
  s.(Session.local_hp_key) = header_protection_key config.(SessionConfig.local_traffic_secret) /\
  s.(Session.remote_hp_key) = header_protection_key config.(SessionConfig.remote_traffic_secret) /\
  s.(Session.stateless_reset_secret) = None /\ s.(Session.paths) = ∅.
Proof.
  unfold session_new. destruct (negb _); [done|]. intros (lk & _ & H)%bind_Ok. apply bind_Ok in H as (rk & _ & H). by injection H as <-.
Qed.

Lemma prepare_session_started d carrier dcid local remote reset now privacy role challenge s :
  prepare_session d carrier dcid local remote reset now privacy role challenge = Ok s ->
  started d carrier dcid local remote reset privacy role s.
Proof.
  unfold prepare_session. intros (s0 & Hn%map_err_Ok & H)%bind_Ok. cbv zeta in H.
  pose proof (session_new_ok _ _ _ Hn) as Hok. pose proof (session_new_Ok _ _ _ Hn) as (_ & Hl & Hr). cbn in Hl, Hr.
  pose proof (session_new_fields _ _ _ Hn) as (F1 & F2 & F3 & F4 & F5 & F6). cbn in F1, F2, F3, F4.
  match type of H with (match _ ?s with _ => _ end = _) => set (s1 := s) in H end.
  assert (Hok1 : session_ok s1) by (by apply policy_ok).
  pose proof (add_path_ok DEFAULT_PATH_ID carrier [] [] now challenge s1 Hok1) as Hok2.
  destruct (add_path_with_challenge_bytes _ _ _ _ _ _ s1) as [[c|e] s2] eqn:E; [|done]. apply (inj Ok) in H as <-.
  destruct (add_path_Ok _ _ _ _ _ _ _ _ _ E) as (Hd & path & ->). cbn [snd] in Hok2. clear E.
  assert (Hs1 : s1.(Session.role) = s0.(Session.role) /\ s1.(Session.dcid) = s0.(Session.dcid) /\
    s1.(Session.local_keys) = s0.(Session.local_keys) /\ s1.(Session.remote_keys) = s0.(Session.remote_keys) /\
    s1.(Session.local_hp_key) = s0.(Session.local_hp_key) /\ s1.(Session.remote_hp_key) = s0.(Session.remote_hp_key) /\
    s1.(Session.stateless_reset_secret) = reset /\ s1.(Session.paths) = ∅ /\
    s1.(Session.direct_path_allowed) = negb (private_profile d privacy) /\ (3 <= privacy -> s1.(Session.traffic_padding) = true)).
  { unfold s1, set_privacy_profile. destruct (N.leb_spec 3 (N.min privacy 3)); destruct reset; cbn; rewrite ?F5, ?F6;
      split_and!; try done; lia. }
  clearbody s1. destruct Hs1 as (E1 & E2 & E3 & E4 & E5 & E6 & E7 & E8 & E9 & E10). rewrite <- E3 in Hl. rewrite <- E4 in Hr.
  split; [exact Hok2|exact (eq_trans E1 F1)|exact (eq_trans E2 F2)|exact Hl|exact Hr|
    split; [exact (eq_trans E5 F3)|exact (eq_trans E6 F4)]|exact E7| |exact E10|].
  - intros Hp. rewrite Hp in E9. split; [exact E9|]. destruct Hd as [Hd|Hd]; [by rewrite E9 in Hd|exact Hd].
  - exists path. change (<[DEFAULT_PATH_ID := path]> s1.(Session.paths) = {[DEFAULT_PATH_ID := path]}). by rewrite E8, insert_empty.
Qed.

(** The registry is full exactly as its profile says, hands out no identifier
    twice, and has a session for each entry. *)
Record sessions_ok d : Prop := {
  sessions_capped : SessionManager.count d.(Daemon.sessions) <= d.(Daemon.active_sessions);
  sessions_ids : forall id, is_Some (d.(Daemon.session_controls) !! id) -> id <= d.(Daemon.sessions).(SessionManager.next);
  sessions_live : dom d.(Daemon.sessions).(SessionManager.sessions) = dom d.(Daemon.session_controls);
  sessions_good : map_Forall (fun _ s => session_ok s) d.(Daemon.session_controls);
  sessions_tickets : forall id m, d.(Daemon.ticket_materials) !! id = Some m ->
    exists e, d.(Daemon.sessions).(SessionManager.sessions) !! id = Some e /\
      m.(TicketMaterial.peer_endpoint_id) = e.(SessionEntry.peer_endpoint_id)
}.

Lemma same_sessions_ok d d' : same_sessions d d' -> sessions_ok d -> sessions_ok d'.
Proof. intros (s & k1 & k2 & ->) []. by constructor. Qed.

(** The entry a session is registered with. *)
Definition entry_of d (carrier_type : string) (peer : list u8) (now : Instant) (privacy : u8) : SessionEntry.t :=
  SessionEntry.mk peer carrier_type now (N.min privacy 3) (negb (private_profile d privacy))
    (privacy_policy d privacy).(PrivacyRuntimePolicy.traffic_padding).

(** The daemon after a registration. *)
Definition installed d carrier session resumption peer now privacy role : Daemon.t St :=
  let id := d.(Daemon.sessions).(SessionManager.next) + 1 in
  d <| Daemon.sessions :=
         SessionManager.mk (<[id := entry_of d carrier peer now privacy]> d.(Daemon.sessions).(SessionManager.sessions)) id |>
    <| Daemon.session_controls := <[id := session]> d.(Daemon.session_controls) |>
    <| Daemon.ticket_materials :=
         match role, resumption with
         | Server, Some secret =>
             <[id := TicketMaterial.mk d.(Daemon.ticket_key) secret peer (node_endpoint_id d)]> d.(Daemon.ticket_materials)
         | _, _ => d.(Daemon.ticket_materials)
         end |>.

(** The last check of the cap never fails: the first one was made under the
    same lock. *)
Lemma install_session_Ok d carrier session remote keys resumption peer now privacy role :
  PacketKeys.from_traffic_secret remote = Ok keys ->
  SessionManager.count d.(Daemon.sessions) < d.(Daemon.active_sessions) ->
  install_session d carrier session remote resumption peer now privacy role =
    (Ok (d.(Daemon.sessions).(SessionManager.next) + 1), installed d carrier session resumption peer now privacy role).
Proof.
  intros Hk Hc. unfold install_session. cbn [SessionManager.next_id]. rewrite Hk. unfold SessionManager.try_register.
  destruct role, resumption as [secret|]; cbn; unfold SessionManager.count in *; cbn;
    rewrite (proj2 (N.leb_gt _ _)), andb_false_r by done; done.
Qed.

(** What happens to the sessions of a daemon: one is registered, one has ended,
    one is driven by its task, or something else of the state changes. *)
Inductive session_change `{EntropySource E} d : Daemon.t St -> Prop :=
| change_register carrier dcid local remote reset resumption peer static identity now privacy role challenge :
    session_change d (register_session_locked d carrier dcid local remote reset resumption peer static identity now privacy role challenge).2
| change_ended id : session_change d (session_ended d id)
| change_driven id s (os : list (op E)) :
    d.(Daemon.session_controls) !! id = Some s ->
    session_change d (d <| Daemon.session_controls := <[id := session_run s os]> d.(Daemon.session_controls) |>)
| change_keys d' : same_sessions d d' -> session_change d d'
| change_blocklist b : session_change d (d <| Daemon.blocklist := b |>)
| change_gates cache invitations tracker :
    session_change d (d <| Daemon.ticket_replay_cache := cache |> <| Daemon.invitations := invitations |> <| Daemon.tracker := tracker |>)
| change_clock now : session_change d (d <| Daemon.clock := now |>).

Lemma installed_ok d carrier session resumption peer now privacy role :
  sessions_ok d -> session_ok session -> SessionManager.count d.(Daemon.sessions) < d.(Daemon.active_sessions) ->
  sessions_ok (installed d carrier session resumption peer now privacy role).
Proof.
  intros [Hc Hi Hl Hg Ht] Hs Hcap. set (id := d.(Daemon.sessions).(SessionManager.next) + 1).
  assert (Hfresh : d.(Daemon.session_controls) !! id = None).
  { destruct (d.(Daemon.session_controls) !! id) eqn:E; [|done]. pose proof (Hi id ltac:(by rewrite E)). unfold id in *. lia. }
  assert (Hfresh' : d.(Daemon.sessions).(SessionManager.sessions) !! id = None).
  { apply not_elem_of_dom. rewrite Hl. by apply not_elem_of_dom. }
  constructor; unfold installed; fold id; cbn.
  - unfold SessionManager.count in *. cbn. rewrite map_size_insert_None by done. lia.
  - intros id'. destruct (decide (id' = id)) as [->|Hne]; [lia|]. rewrite lookup_insert_ne by done. intros H. specialize (Hi _ H). unfold id. lia.
  - by rewrite !dom_insert_L, Hl.
  - by apply map_Forall_insert_2.
  - intros id' m Hm. destruct (decide (id' = id)) as [->|Hne].
    + rewrite lookup_insert_eq. eexists. split; [done|].
      destruct role, resumption; rewrite ?lookup_insert_eq in Hm; [..|by simplify_eq|];
        destruct (Ht _ _ Hm) as (? & Hx & _); by rewrite Hfresh' in Hx.
    + rewrite lookup_insert_ne by done. destruct role, resumption; rewrite ?lookup_insert_ne in Hm by done; by apply Ht.
Qed.

Lemma ended_ok d id : sessions_ok d -> sessions_ok (session_ended d id).
Proof.
  intros [Hc Hi Hl Hg Ht]. constructor; cbn.
  - unfold SessionManager.count in *. cbn. rewrite map_size_delete. etransitivity; [|exact Hc].
    destruct (_ !! id); unfold Datatypes.id; lia.
  - intros id' [s Hs]. apply lookup_delete_Some in Hs as [_ Hs]. apply Hi. by rewrite Hs.
  - by rewrite !dom_delete_L, Hl.
  - by apply map_Forall_delete.
  - intros id' m [Hne Hm]%lookup_delete_Some. destruct (Ht _ _ Hm) as (e & He & Hp). exists e. by rewrite lookup_delete_ne.
Qed.

(** What a registration that succeeds means. *)
Definition registration d (carrier : string) (dcid local remote : list u8) (reset resumption : option (list u8)) (peer : list u8)
    (now : Instant) (privacy : u8) (role : Role) (id : u64) d' : Prop :=
  id = d.(Daemon.sessions).(SessionManager.next) + 1 /\
  SessionManager.count d.(Daemon.sessions) < d.(Daemon.active_sessions) /\
  (exists state, TrustStore.effective_trust_state (TrustState.from_level d.(Daemon.trust_default_level)) (store_of d') peer = Ok state /\
     TrustState.allows_new_session state = true) /\
  Blocklist.is_blocked d.(Daemon.blocklist) peer now = None /\
  exists session d1, started d carrier dcid local remote reset privacy role session /\ same_sessions d d1 /\
    d' = installed d1 carrier session resumption peer now privacy role.

Lemma register_cases d carrier dcid local remote reset resumption peer static identity now privacy role challenge r d' :
  register_session_locked d carrier dcid local remote reset resumption peer static identity now privacy role challenge = (r, d') ->
  match r with
  | Ok id => registration d carrier dcid local remote reset resumption peer now privacy role id d'
  | Err _ => same_sessions d d'
  end.
Proof.
  unfold register_session_locked. destruct (N.leb_spec d.(Daemon.active_sessions) (SessionManager.count d.(Daemon.sessions))) as [|Hc].
  { by intros [= <- <-]. }
  pose proof (note_peer_keys_sessions d peer static identity) as Hsame. set (d1 := note_peer_keys _ _ _ _) in *. clearbody d1. cbv zeta.
  assert (Hc1 : SessionManager.count d1.(Daemon.sessions) < d1.(Daemon.active_sessions)) by (by destruct Hsame as (? & ? & ? & ->)).
  destruct (refuse_if_trust_disallowed d1 peer) as [[]|] eqn:Ht; [|by intros [= <- <-]]. cbn [mbind Result_bind].
  destruct (refuse_if_blocked d1 peer now) as [[]|] eqn:Hb; [|by intros [= <- <-]]. cbn [mbind Result_bind].
  destruct (prepare_session d1 _ _ _ _ _ _ _ _ _) as [session|] eqn:Hp; [|by intros [= <- <-]].
  apply prepare_session_started in Hp as Hst. pose proof (started_remote _ _ _ _ _ _ _ _ _ Hst) as Hk.
  rewrite (install_session_Ok _ _ _ _ _ _ _ _ _ _ Hk Hc1). intros [= <- <-].
  apply bind_Ok in Ht as (state & Hts%map_err_Ok & Hal). unfold refuse_if_blocked in Hb.
  destruct (Blocklist.is_blocked d1.(Daemon.blocklist) peer now) eqn:Hbl; [done|].
  destruct Hsame as (s & k1 & k2 & ->). split; [done|]. split; [done|]. split.
  { exists state. split; [exact Hts|]. destruct (TrustState.allows_new_session state) eqn:Ea; [done|by destruct state]. }
  split; [exact Hbl|]. eexists session, _. split; [|split; [by exists s, k1, k2|done]]. destruct Hst. by constructor.
Qed.

(** ** Properties *)

(** C12: The one door to a session: a registration that succeeds takes the next
    identifier, below the profile's cap, for a peer whose trust state allows new
    sessions and that is not blocked; the session starts within its bounds,
    sealing and opening with exactly the keys of the two secrets, padded at
    profile 3, and at profile 2 or above (the peer's or the node's own) only over
    a carrier that is not direct.  One that fails leaves the sessions as they were. *)
Theorem session_registered d carrier dcid local remote reset resumption peer static identity now privacy role challenge r d' :
  register_session_locked d carrier dcid local remote reset resumption peer static identity now privacy role challenge = (r, d') ->
  match r with
  | Ok id => registration d carrier dcid local remote reset resumption peer now privacy role id d'
  | Err _ => same_sessions d d'
  end.
Proof. apply register_cases. Qed.

(** C13: Over any sequence of registrations, ends and calls on the sessions, the
    registry stays within the profile's cap, has a session within its bounds for
    each entry and a ticket only for the peer of a live one, and never goes back
    to an identifier it has handed out. *)
Theorem sessions_bounded `{EntropySource E, !EntropyLaws E} d d' :
  rtc session_change d d' -> sessions_ok d ->
  sessions_ok d' /\ d.(Daemon.sessions).(SessionManager.next) <= d'.(Daemon.sessions).(SessionManager.next).
Proof.
  intros Hr. induction Hr as [|d d1 d2 Hstep _ IH]; intros Hok; [done|].
  assert (H1 : sessions_ok d1 /\ d.(Daemon.sessions).(SessionManager.next) <= d1.(Daemon.sessions).(SessionManager.next)).
  { clear IH d2. destruct Hstep as [carrier dcid local remote reset resumption peer static identity now privacy role challenge|id|id s os Hs|d1 Hs|b| |].
    - destruct (register_session_locked d carrier dcid local remote reset resumption peer static identity now privacy role challenge)
        as [r d1] eqn:Er. cbn [snd]. apply register_cases in Er as Hreg. destruct r as [id|].
      + destruct Hreg as (_ & Hc & _ & _ & session & d0 & Hst & Hsame & ->).
        assert (He : d0.(Daemon.sessions) = d.(Daemon.sessions)) by (by destruct Hsame as (? & ? & ? & ->)).
        split; [|cbn; rewrite He; lia]. apply installed_ok; [by eapply same_sessions_ok|apply Hst|].
        by destruct Hsame as (? & ? & ? & ->).
      + split; [by eapply same_sessions_ok|]. by destruct Hreg as (? & ? & ? & ->).
    - split; [by apply ended_ok|done].
    - split; [|done]. destruct Hok as [Hc Hi Hl Hg Ht]. constructor; cbn; try done.
      + intros id' [s' Hs']. destruct (decide (id' = id)) as [->|]; [apply Hi; by rewrite Hs|]. rewrite lookup_insert_ne in Hs' by done.
        apply Hi. by rewrite Hs'.
      + by rewrite dom_insert_lookup_L.
      + apply map_Forall_insert_2; [|done]. apply session_run_ok. by apply (Hg id).
    - split; [by eapply same_sessions_ok|]. by destruct Hs as (? & ? & ? & ->).
    - split; [|done]. by destruct Hok.
    - split; [|done]. by destruct Hok.
    - split; [|done]. by destruct Hok. }
  destruct H1 as [H1 Hle]. destruct (IH H1) as [H2 Hle']. split; [done|lia].
Qed.

End Registration.

(** ** Examples *)

#[local] Existing Instances memory_store memory_laws toy_primitives toy_curves.

(** A daemon with room for two sessions. *)
Definition sample_daemon : Daemon.t Memory :=
  Daemon.mk Memory sample_responder true (replicate 32 20) (replicate 32 21) TicketReplayCache.new InvitationStore.new DaemonTracker.new
    TrustLevel.Unknown (Blocklist.new 60) 2 false 0 false 1000 0 600000 SessionManager.new ∅ ∅ ∅ ∅ 100.

Definition sample_registration : Result Failure u64 * Daemon.t Memory :=
  register_session_locked sample_daemon "ump.relay/1" (replicate 8 1) (replicate 32 2) (replicate 32 3) None (Some (replicate 32 4))
    (replicate 32 5) None None 100 2 Server (replicate 8 9).

Lemma session_registered_witness :
  registration sample_daemon "ump.relay/1" (replicate 8 1) (replicate 32 2) (replicate 32 3) None (Some (replicate 32 4))
    (replicate 32 5) 100 2 Server 1 sample_registration.2.
Proof.
  refine (session_registered sample_daemon "ump.relay/1" (replicate 8 1) (replicate 32 2) (replicate 32 3) None (Some (replicate 32 4))
    (replicate 32 5) None None 100 2 Server (replicate 8 9) (Ok 1) _ _). vm_compute. reflexivity.
Defined.

Lemma sessions_bounded_witness : sessions_ok (session_ended sample_registration.2 1) /\ 0 <= 1.
Proof.
  apply (sessions_bounded (E := N) sample_daemon (session_ended sample_registration.2 1)).
  - eapply rtc_l; [apply change_register|]. apply rtc_once, change_ended.
  - constructor; cbn; [by vm_compute|intros id [s Hs]; done|by rewrite !dom_empty_L|apply map_Forall_empty|done].
Defined.
