(* ===== verification/Accept.v ===== *)
(** * Accepting a link

    The daemon's side of a connection, packet by packet: [handle_inbound_link] and
    [handle_resumed_link] of bins/umcd/src/unix_main.rs.  Each packet that arrives
    is one step on the daemon's state, so that the steps of different links may
    come in any order; what a link waits with in between is a record of its own.
    Time is what the clock showed when the link's first packet was taken up, as in
    the code.  The link takes every packet it is given to send.  A first packet
    that attaches another carrier to a session already established is handled
    before these steps and is not modelled. *)

From Stdlib Require Import Strings.String.
From stdpp Require Import gmap.
From S2P Require Import Prelude Records Codec Varint WireBytes Crypto Header Packet ProtectedPacket Spaces SentPackets Ack Loss Flow Stream Cids Datagrams Paths Congestion KeyPhase SessionState SessionOps SessionRules SessionRun SessionInvariant SessionLink Identity HandshakeMessages HandshakeKeys HandshakePackets HandshakeAuth HandshakeGates Store TrustStatements Trust TrustGraph Recovery Revocation Handshake HandshakeAgreement SessionRegistry.

#[local] Open Scope N_scope.

(** What a link keeps between its hello and CLIENT_AUTH. *)
Module Handshaking.
Record t := mk {
  carrier_type : string;
  dcid : list u8;
  client_scid : list u8;
  hello : ClientHello.t;
  pending : HandshakePending.t;
  started_at : Instant
}.
End Handshaking.

(** And between CLIENT_AUTH and CLIENT_FINISHED. *)
Module Confirming.
Record t := mk {
  link : Handshaking.t;
  pending : HandshakePending.t;
  client_handshake_keys : PacketKeys.t;
  auth_bytes : list u8;
  server_finished : list u8;
  secrets : SessionSecrets.t;
  peer : PeerIdentity.t
}.
End Confirming.

(** What the first packet leads to: nothing is sent; a packet is sent and the link
    dropped; SERVER_HELLO is sent and CLIENT_AUTH awaited; SERVER_HELLO is sent and
    a session resumed. *)
Inductive Outcome :=
| Refused (e : Failure)
| Replied (packet : list u8) (e : Failure)
| Waiting (packet : list u8) (link : Handshaking.t)
| Resumed (packet : list u8) (session_id : u64).

(** What the Retry gate decides. *)
Inductive Gate :=
| Issued (packet : list u8)
| Passed (retry_context : option (list u8)).

(** The first packet, taken apart. *)
Module Inbound.
Record t := mk {
  header_dcid : list u8;
  client_scid : list u8;
  hello_bytes : list u8;
  hello : ClientHello.t;
  dcid : list u8
}.
End Inbound.

Section Accept.
Context {St : Type} `{Store St} `{Primitives, Curves} `{HashOrder Invitation.t}.
Implicit Types d : Daemon.t St.

Definition retry_carrier_binding_hash (carrier_type : string) : list u8 :=
  blake2s (bstr "UMP-CARRIER-BINDING-v1" ++ bstr carrier_type).

Definition session_dcid (hello : ClientHello.t) : list u8 :=
  take 8 (extract (zeros 32) (bstr "UMP-SESSION-DCID-v1" ++ hello.(ClientHello.client_ephemeral_public_key))).

Definition session_dcid_from_initial (header_dcid : list u8) : Result Failure (list u8) :=
  if negb (len header_dcid =? DEFAULT_DCID_LEN) then Err (Message "Initial destination connection id must be 8 bytes")
  else Ok header_dcid.

Definition read_first (first : list u8) : Result Failure Inbound.t :=
  '(header_dcid, _, payload, client_scid) ←
    ok_or (Message "first packet is not a valid protected Initial") (try_parse_initial first);
  hello_bytes ← decode_client_hello payload;
  hello ← map_err (message "client hello") (ClientHello.decode hello_bytes);
  dcid ← session_dcid_from_initial header_dcid;
  Ok (Inbound.mk header_dcid client_scid hello_bytes hello dcid).

(** A Retry for a hello without a token; [nonce] is drawn here. *)
Definition issue_retry d (carrier_type : string) (i : Inbound.t) (now : u64) (nonce : list u8) : Result Failure (list u8) :=
  let hello := i.(Inbound.hello) in
  let source_context := take 8 nonce in
  token ← map_err (message "retry token")
    (issue_retry_token d.(Daemon.retry_key)
       (RetryPayload.mk 1 source_context i.(Inbound.header_dcid) hello.(ClientHello.client_random)
          (blake2s hello.(ClientHello.client_ephemeral_public_key)) (retry_carrier_binding_hash carrier_type) now
          (saturating_add now RETRY_VALIDITY_MS) nonce) now);
  map_err (message "retry packet")
    (build_retry_packet SUPPORTED_PROTOCOL_VERSION i.(Inbound.client_scid) source_context token d.(Daemon.retry_key)).

(** A token that comes back: it has to be this hello's. *)
Definition check_retry d (carrier_type : string) (i : Inbound.t) (supplied_token : list u8) (now : u64) : Result Failure (list u8) :=
  let hello := i.(Inbound.hello) in
  token_payload ← map_err (message "invalid retry token") (validate_retry_token d.(Daemon.retry_key) supplied_token now);
  original_hello_bytes ← map_err (message "retry hello") (ClientHello.encode (hello <| ClientHello.retry_token := [] |>));
  if negb (bool_decide (token_payload.(RetryPayload.original_destination_connection_id) = i.(Inbound.header_dcid)))
     || negb (bool_decide (token_payload.(RetryPayload.client_random) = hello.(ClientHello.client_random)))
     || negb (bool_decide (token_payload.(RetryPayload.client_ephemeral_public_key_hash) =
                           blake2s hello.(ClientHello.client_ephemeral_public_key)))
     || negb (bool_decide (token_payload.(RetryPayload.carrier_binding_hash) = retry_carrier_binding_hash carrier_type))
     || negb (bool_decide (hello.(ClientHello.retry_token) = supplied_token))
     || negb (len token_payload.(RetryPayload.source_context) =? 8)
  then Err (Message "invalid retry token context")
  else
    retry_packet ← map_err (message "retry packet")
      (build_retry_packet SUPPORTED_PROTOCOL_VERSION i.(Inbound.client_scid) token_payload.(RetryPayload.source_context)
         supplied_token d.(Daemon.retry_key));
    Ok (retry_context original_hello_bytes retry_packet).

(** The Retry gate: for hellos that offer XX, when the node asks for it. *)
Definition retry_gate d (carrier_type : string) (first : list u8) (i : Inbound.t) (now : u64) (nonce : list u8) : Result Failure Gate :=
  if d.(Daemon.require_retry) && offers i.(Inbound.hello) MODE_XX then
    let supplied_token := default [] (initial_token first) in
    if len supplied_token =? 0 then
      packet ← issue_retry d carrier_type i now nonce;
      Ok (Issued packet)
    else
      context ← check_retry d carrier_type i supplied_token now;
      Ok (Passed (Some context))
  else Ok (Passed None).

(** A ticket in a hello that offers IK. *)
Definition resumed_ticket d (hello : ClientHello.t) (now : u64) : option TicketPayload.t :=
  if offers hello MODE_IK then ok (validate_ticket d.(Daemon.ticket_key) hello.(ClientHello.retry_token) now) else None.

(** SERVER_HELLO in an Initial packet: to the client's source identifier, under
    the keys of the identifier it chose for the node. *)
Definition initial_response (i : Inbound.t) (server_hello_bytes : list u8) : Result Failure (list u8) :=
  keys ← derive_initial_keys i.(Inbound.header_dcid);
  build_initial_packet i.(Inbound.client_scid) (session_dcid i.(Inbound.hello)) 0 server_hello_bytes keys.(InitialKeys.server).

(** ** Resumption *)

(** Who the ticket is for, and that it is for this node and protocol. *)
Definition check_ticket d (ticket : TicketPayload.t) (now : u64) : Result Failure unit :=
  if negb (bool_decide (ticket.(TicketPayload.server_endpoint_id_hash) = node_endpoint_id d)) then Err (Message "ticket not issued by this node")
  else if negb (ticket.(TicketPayload.protocol_version) =? SUPPORTED_PROTOCOL_VERSION) then Err (Message "ticket protocol version mismatch")
  else if negb (bool_decide (ticket.(TicketPayload.crypto_profile) = CRYPTO_PROFILE)) then Err (Message "ticket crypto profile mismatch")
  else if negb (bool_decide (ticket.(TicketPayload.client_endpoint_id_hash) = node_endpoint_id d)) then
    chain ← map_err (message "delegation lookup")
      (DelegationStore.valid_chain_for_endpoint_id (store_of d) ticket.(TicketPayload.client_endpoint_id_hash) now);
    match chain with
    | Some chain => map_err (message "delegated resumption revoked") (RevocationStore.check_delegation (store_of d) chain now)
    | None => Ok tt
    end
  else Ok tt.

(** The privacy level of a resumed session. *)
Definition resumed_privacy d (hello : ClientHello.t) : Result Failure u8 :=
  expected ← capabilities_hash_for_minimum_privacy hello.(ClientHello.minimum_privacy);
  if negb (bool_decide (hello.(ClientHello.capabilities_hash) = expected)) then Err (Message "client capabilities hash mismatch")
  else
    requested_privacy ← ok_or (Message "invalid minimum privacy profile") (ClientHello.minimum_privacy_level hello);
    max_privacy ← ok_or Panic (privacy_profile_level MAX_SUPPORTED_PRIVACY_PROFILE);
    let local_privacy := d.(Daemon.runtime).(RuntimeState.effective_privacy_profile) in
    if max_privacy <? local_privacy then Err (Message "local privacy profile unsupported")
    else if max_privacy <? requested_privacy then Err (Message "requested privacy profile is unsupported")
    else Ok (N.max requested_privacy local_privacy).

(** SERVER_HELLO without authentication, and the secrets of the resumed session. *)
Definition resume_secrets d (carrier_type : string) (hello_bytes : list u8) (hello : ClientHello.t) (ticket : TicketPayload.t)
    (selected_privacy : u8) (server_ephemeral : StaticHandshakeKeyPair.t) (server_random : list u8)
    : Result Failure (list u8 * ResumeSecrets.t) :=
  transcript ← map_err (message "transcript")
    (Transcript.update_message (Transcript.new MODE_IK CRYPTO_PROFILE (bstr carrier_type)) Encoding.CLIENT_HELLO hello_bytes);
  canonical ← canonical_hash;
  let server_hello :=
    set_server_realm_marker
      (ServerHello.mk server_random (StaticHandshakeKeyPair.public server_ephemeral) SUPPORTED_PROTOCOL_VERSION CRYPTO_PROFILE MODE_IK []
         (canonical ++ [selected_privacy] ++ zeros 31))
      d.(Daemon.runtime).(RuntimeState.realm_marker) in
  server_hello_bytes ← map_err (message "server hello") (ServerHello.encode server_hello);
  transcript ← map_err (message "transcript") (Transcript.update_message transcript Encoding.SERVER_HELLO server_hello_bytes);
  psk ← ok_or Panic (resumption_psk ticket.(TicketPayload.resumption_secret) ticket.(TicketPayload.nonce));
  Ok (server_hello_bytes,
      derive_resumption_secrets psk server_ephemeral hello.(ClientHello.client_ephemeral_public_key) transcript.(Transcript.hash)).

Definition handle_resumed_link d (carrier_type : string) (i : Inbound.t) (now : u64) (ticket : TicketPayload.t)
    (server_ephemeral : StaticHandshakeKeyPair.t) (server_random challenge : list u8) : Outcome * Daemon.t St :=
  let hello := i.(Inbound.hello) in
  let refuse e := (Refused e, d) in
  if negb (realm_marker_matches (client_realm_marker hello) d.(Daemon.runtime).(RuntimeState.realm_marker)
             d.(Daemon.runtime).(RuntimeState.is_private_network))
  then refuse (Message "network realm mismatch")
  else
    match select_version hello.(ClientHello.supported_protocol_versions) with
    | None =>
        match build_version_negotiation i.(Inbound.client_scid) i.(Inbound.dcid) [SUPPORTED_PROTOCOL_VERSION] with
        | Ok bytes => (Replied bytes (Message "version negotiation: resume hello offered no supported version"), d)
        | Err e => refuse e
        end
    | Some _ =>
        match
          selected_privacy ← resumed_privacy d hello;
          _ ← check_ticket d ticket now;
          '(server_hello_bytes, resume) ←
            resume_secrets d carrier_type i.(Inbound.hello_bytes) hello ticket selected_privacy server_ephemeral server_random;
          packet ← initial_response i server_hello_bytes;
          Ok (selected_privacy, resume, packet)
        with
        | Err e => refuse e
        | Ok (selected_privacy, resume, packet) =>
            let d := d <| Daemon.tracker := DaemonTracker.record d.(Daemon.tracker) i.(Inbound.dcid) now |> in
            let '(r, d) :=
              register_session_locked d carrier_type i.(Inbound.dcid) resume.(ResumeSecrets.server) resume.(ResumeSecrets.client)
                None None ticket.(TicketPayload.client_endpoint_id_hash) None None now selected_privacy Server challenge in
            (match r with Ok id => Resumed packet id | Err e => Replied packet e end, d)
        end
    end.

(** ** The full handshake *)

(** The invitation a PSK-XX hello is admitted by; a single-use one is used up. *)
Definition admit_by_invitation d (carrier_type : string) (i : Inbound.t) (now : u64) : option (list u8) * Daemon.t St :=
  if offers i.(Inbound.hello) MODE_PSK_XX then
    let '(r, invitations) :=
      InvitationStore.authenticate d.(Daemon.invitations) now (fun invitation_key =>
        is_ok (PskAdmissionContext.verify_client_hello
                 (PskAdmissionContext.mk invitation_key i.(Inbound.dcid) (bstr carrier_type)) i.(Inbound.hello))) in
    (ok r, d <| Daemon.invitations := invitations |>)
  else (None, d).

Definition answer_link d (carrier_type : string) (i : Inbound.t) (now : u64) (retry_context : option (list u8))
    (server_ephemeral : StaticHandshakeKeyPair.t) (server_random : list u8) : Outcome * Daemon.t St :=
  let '(psk_key, d) := admit_by_invitation d carrier_type i now in
  match
    respond_hello_with_retry_context_and_psk d.(Daemon.runtime) (bstr carrier_type) i.(Inbound.hello_bytes)
      i.(Inbound.hello).(ClientHello.client_ephemeral_public_key) i.(Inbound.dcid) i.(Inbound.client_scid) retry_context psk_key
      server_ephemeral server_random
  with
  | Err e => (Refused e, d)
  | Ok (VersionNegotiationResponse bytes) =>
      (Replied bytes (Message "version negotiation: client offered no supported version"), d)
  | Ok (ServerHelloResponse server_hello_bytes pending) =>
      match initial_response i server_hello_bytes with
      | Err e => (Refused e, d)
      | Ok packet =>
          (Waiting packet (Handshaking.mk carrier_type i.(Inbound.dcid) i.(Inbound.client_scid) i.(Inbound.hello) pending now),
           d <| Daemon.tracker := DaemonTracker.record d.(Daemon.tracker) i.(Inbound.dcid) now |>)
      end
  end.

(** The first packet of a link. *)
Definition handle_first d (carrier_type : string) (now : u64) (first nonce : list u8) (server_ephemeral : StaticHandshakeKeyPair.t)
    (server_random challenge : list u8) : Outcome * Daemon.t St :=
  match
    i ← read_first first;
    _ ← map_err (message "handshake rejected") (DaemonTracker.check d.(Daemon.tracker) i.(Inbound.dcid) now);
    Ok i
  with
  | Err e => (Refused e, d)
  | Ok i =>
      let runtime := d.(Daemon.runtime) in
      if runtime.(RuntimeState.carrier_disabled) (bstr carrier_type) then (Refused (Message "disabled carrier"), d)
      else if runtime.(RuntimeState.crypto_profile_disabled) CRYPTO_PROFILE then (Refused (Message "disabled crypto profile"), d)
      else if runtime.(RuntimeState.protocol_version_disabled) SUPPORTED_PROTOCOL_VERSION then
        match build_version_negotiation i.(Inbound.client_scid) i.(Inbound.dcid) [] with
        | Ok bytes => (Replied bytes (Message "unsupported protocol version: disabled by policy"), d)
        | Err e => (Refused e, d)
        end
      else
        match retry_gate d carrier_type first i now nonce with
        | Err e => (Refused e, d)
        | Ok (Issued packet) => (Replied packet (Message "stateless retry issued"), d)
        | Ok (Passed retry_context) =>
            match resumed_ticket d i.(Inbound.hello) now with
            | Some ticket =>
                let '(fresh, cache) := TicketReplayCache.insert d.(Daemon.ticket_replay_cache) ticket.(TicketPayload.nonce) in
                let d := d <| Daemon.ticket_replay_cache := cache |> in
                if fresh then handle_resumed_link d carrier_type i now ticket server_ephemeral server_random challenge
                else answer_link d carrier_type i now retry_context server_ephemeral server_random
            | None => answer_link d carrier_type i now retry_context server_ephemeral server_random
            end
        end
  end.

(** CLIENT_AUTH: SERVER_FINISHED is sent in return. *)
Definition handle_auth d (w : Handshaking.t) (packet : list u8) : Result Failure (list u8 * Confirming.t) * Daemon.t St :=
  let now := w.(Handshaking.started_at) in
  match
    keys ← map_err (message "client handshake keys")
      (PacketKeys.from_traffic_secret (handshake_traffic_secret w.(Handshaking.pending) true));
    auth_bytes ← decode_client_auth packet keys;
    let '(completed, pending) := complete w.(Handshaking.pending) d.(Daemon.runtime) auth_bytes now in
    '(server_finished, secrets, peer) ← completed;
    Ok (keys, auth_bytes, pending, server_finished, secrets, peer)
  with
  | Err e => (Err e, d)
  | Ok (keys, auth_bytes, pending, server_finished, secrets, peer) =>
      let '(valid, d) := validate_peer_binding d peer.(PeerIdentity.binding) now in
      (_ ← valid;
       frame ← map_err (message "server finished framing")
         (Encoding.encode_message Encoding.SERVER_FINISHED server_finished []);
       server_keys ← map_err (message "server handshake keys")
         (PacketKeys.from_traffic_secret (handshake_traffic_secret pending false));
       packet ← map_err (message "server finished packet")
         (build_handshake_packet w.(Handshaking.client_scid) (session_dcid w.(Handshaking.hello)) 0 frame server_keys);
       Ok (packet, Confirming.mk w pending keys auth_bytes server_finished secrets peer), d)
  end.

(** CLIENT_FINISHED: the session is registered. *)
Definition handle_finished d (c : Confirming.t) (packet challenge : list u8) : Result Failure u64 * Daemon.t St :=
  match
    client_finished ← decode_client_finished packet c.(Confirming.client_handshake_keys);
    let '(confirmed, pending) :=
      confirm_client c.(Confirming.pending) c.(Confirming.auth_bytes) c.(Confirming.server_finished) client_finished in
    _ ← confirmed;
    if negb (bool_decide (pending.(HandshakePending.machine).(HandshakeMachine.state) = Confirmed))
       || negb (HandshakePending.application_keys_ready pending)
    then Err (Message "handshake confirmation state not reached")
    else Ok pending
  with
  | Err e => (Err e, d)
  | Ok pending =>
      let w := c.(Confirming.link) in
      let secrets := c.(Confirming.secrets) in
      let peer := c.(Confirming.peer) in
      register_session_locked d w.(Handshaking.carrier_type) w.(Handshaking.dcid) secrets.(SessionSecrets.server)
        secrets.(SessionSecrets.client) (Some secrets.(SessionSecrets.stateless_reset)) (Some secrets.(SessionSecrets.resumption))
        peer.(PeerIdentity.binding).(IdentityBinding.endpoint_id) (Some peer.(PeerIdentity.client_static_public_key))
        (Some peer.(PeerIdentity.binding).(IdentityBinding.identity_public_key)) w.(Handshaking.started_at)
        pending.(HandshakePending.selected_privacy) Server challenge
  end.

End Accept.

(** ** Lemmas *)

Section Lemmas.
Context {St : Type} `{HS : Store St} `{HP : Primitives} {HPL : PrimitiveLaws} `{HC : Curves} {HCL : CurveLaws}.
Context `{HO : HashOrder Invitation.t}.
Implicit Types d : Daemon.t St.

(** The token is one this node has issued for this very hello. *)
Definition retry_token_for d (carrier : string) (i : Inbound.t) (now : u64) (token : list u8) : Prop :=
  exists p, validate_retry_token d.(Daemon.retry_key) token now = Ok p /\
    i.(Inbound.hello).(ClientHello.retry_token) = token /\
    p.(RetryPayload.original_destination_connection_id) = i.(Inbound.header_dcid) /\
    p.(RetryPayload.client_random) = i.(Inbound.hello).(ClientHello.client_random) /\
    p.(RetryPayload.client_ephemeral_public_key_hash) = blake2s i.(Inbound.hello).(ClientHello.client_ephemeral_public_key) /\
    p.(RetryPayload.carrier_binding_hash) = retry_carrier_binding_hash carrier /\
    now < p.(RetryPayload.expires_at).

Lemma validated_token_unexpired key token now p : validate_retry_token key token now = Ok p -> now < p.(RetryPayload.expires_at).
Proof.
  unfold validate_retry_token. intros (n & _ & H)%bind_Ok. apply bind_Ok in H as (k & _ & H). apply bind_Ok in H as (pt & _ & H).
  apply bind_Ok in H as (p' & _ & H). destruct (negb _); [done|]. destruct (negb _); [done|].
  destruct (N.leb_spec p'.(RetryPayload.expires_at) now); [done|]. by apply (inj Ok) in H as <-.
Qed.

Lemma check_retry_sound d carrier i token now context :
  check_retry d carrier i token now = Ok context -> retry_token_for d carrier i now token.
Proof.
  unfold check_retry. intros (p & Hp%map_err_Ok & H)%bind_Ok. apply bind_Ok in H as (o & _ & H).
  repeat match type of H with context [negb (bool_decide ?P)] => destruct (bool_decide_reflect P) as [?|?]; cbn [negb orb] in H; [|done] end.
  exists p. split_and!; try done. by eapply validated_token_unexpired.
Qed.

End Lemmas.

(** ** The links of a daemon *)

Module World.
Record t {St : Type} := mk { daemon : Daemon.t St; handshaking : list Handshaking.t; confirming : list Confirming.t }.
#[global] Arguments t : clear implicits.
#[global] Arguments mk {_} _ _ _.
End World.

Section Links.
Context {St : Type} `{HS : Store St} `{HP : Primitives} {HPL : PrimitiveLaws} `{HC : Curves} {HCL : CurveLaws}.
Context `{HO : HashOrder Invitation.t} `{HE : EntropySource E}.
Implicit Types (d : Daemon.t St) (w : World.t St).

(** A packet arrives on a new link or on one that waits for it, whatever it is; or
    something else of the daemon changes: a session ends or is driven by its task,
    an operator blocks a peer or makes an invitation, time passes, the configuration, the keys
    or the records of the node are changed. *)
Inductive accept_step w : World.t St -> Prop :=
| accept_first carrier now first nonce se sr ch :
    accept_step w
      (let '(o, d) := handle_first w.(World.daemon) carrier now first nonce se sr ch in
       World.mk d (match o with Waiting _ l => l :: w.(World.handshaking) | _ => w.(World.handshaking) end) w.(World.confirming))
| accept_auth l packet :
    l ∈ w.(World.handshaking) ->
    accept_step w
      (let '(r, d) := handle_auth w.(World.daemon) l packet in
       World.mk d w.(World.handshaking) (match r with Ok (_, c) => c :: w.(World.confirming) | Err _ => w.(World.confirming) end))
| accept_finished c packet ch :
    c ∈ w.(World.confirming) ->
    accept_step w (World.mk (handle_finished w.(World.daemon) c packet ch).2 w.(World.handshaking) w.(World.confirming))
| accept_ended id : accept_step w (World.mk (session_ended w.(World.daemon) id) w.(World.handshaking) w.(World.confirming))
| accept_driven id s (os : list (op E)) :
    w.(World.daemon).(Daemon.session_controls) !! id = Some s ->
    accept_step w
      (World.mk (w.(World.daemon) <| Daemon.session_controls := <[id := session_run s os]> w.(World.daemon).(Daemon.session_controls) |>)
         w.(World.handshaking) w.(World.confirming))
| accept_changed runtime blocklist invitations clock :
    accept_step w
      (World.mk (w.(World.daemon) <| Daemon.runtime := runtime |> <| Daemon.blocklist := blocklist |> <| Daemon.invitations := invitations |>
           <| Daemon.clock := clock |>)
         w.(World.handshaking) w.(World.confirming)).

(** At some moment since [w0] the node had the client's proof: a valid binding for
    the static key presented, its key's signature over this handshake, no revocation
    that names it on record, and no other binding pinned for it. *)
Definition vouched w0 w (c : Confirming.t) : Prop :=
  exists w1 auth signature, rtc accept_step w0 w1 /\ rtc accept_step w1 w /\
    let d := w1.(World.daemon) in
    let p := c.(Confirming.link).(Handshaking.pending) in
    let now := c.(Confirming.link).(Handshaking.started_at) in
    let b := c.(Confirming.peer).(PeerIdentity.binding) in
    IdentityBinding.validate b now BINDING_SKEW_MS = Ok tt /\
    b.(IdentityBinding.static_handshake_public_key) = c.(Confirming.peer).(PeerIdentity.client_static_public_key) /\
    presented p auth signature /\
    identity_verify b.(IdentityBinding.identity_public_key) (expected_message d.(Daemon.runtime) p c.(Confirming.peer)) signature = true /\
    RevocationStore.check (store_of d) b now = Ok tt /\ (TofuStore.observe (store_of d) b now).1 = Ok tt /\
    c.(Confirming.secrets) = p.(HandshakePending.session_secrets).

(** Why a session is in the registry. *)
Definition accounted w0 w (e : SessionEntry.t) : Prop :=
  (exists c client_finished, vouched w0 w c /\
     e.(SessionEntry.peer_endpoint_id) = endpoint_id c.(Confirming.peer).(PeerIdentity.binding).(IdentityBinding.identity_public_key) /\
     e.(SessionEntry.established_at_ms) = c.(Confirming.link).(Handshaking.started_at) /\
     verify_client_finished c.(Confirming.pending).(HandshakePending.secret4) c.(Confirming.pending).(HandshakePending.transcript)
       c.(Confirming.auth_bytes) c.(Confirming.server_finished) client_finished = Ok tt) \/
  exists ticket payload w1, rtc accept_step w0 w1 /\ rtc accept_step w1 w /\
    validate_ticket w0.(World.daemon).(Daemon.ticket_key) ticket e.(SessionEntry.established_at_ms) = Ok payload /\
    payload.(TicketPayload.client_endpoint_id_hash) = e.(SessionEntry.peer_endpoint_id) /\
    payload.(TicketPayload.server_endpoint_id_hash) = node_endpoint_id w1.(World.daemon) /\
    payload.(TicketPayload.nonce) ∉ w1.(World.daemon).(Daemon.ticket_replay_cache).(TicketReplayCache.seen).

Lemma vouched_later w0 w w' c : vouched w0 w c -> accept_step w w' -> vouched w0 w' c.
Proof.
  intros (w1 & auth & sg & H0 & H1 & H) Hs. exists w1, auth, sg. split; [done|]. split; [|done]. by eapply rtc_r.
Qed.

Lemma accounted_later w0 w w' e : accounted w0 w e -> accept_step w w' -> accounted w0 w' e.
Proof.
  intros [(c & f & Hv & H)|(ticket & payload & w1 & H0 & H1 & H)] Hs.
  - left. exists c, f. split; [by eapply vouched_later|done].
  - right. exists ticket, payload, w1. split; [done|]. split; [by eapply rtc_r|done].
Qed.

(** The registry of [d'] is that of [d], or has one more entry for [peer]. *)
Definition at_most_adds d d' (peer : list u8) (now : Instant) : Prop :=
  d'.(Daemon.ticket_key) = d.(Daemon.ticket_key) /\
  (d'.(Daemon.sessions).(SessionManager.sessions) = d.(Daemon.sessions).(SessionManager.sessions) \/
   exists id e, d'.(Daemon.sessions).(SessionManager.sessions) = <[id := e]> d.(Daemon.sessions).(SessionManager.sessions) /\
     e.(SessionEntry.peer_endpoint_id) = peer /\ e.(SessionEntry.established_at_ms) = now).

Lemma register_adds d carrier dcid local remote reset resumption peer static identity now privacy role challenge r d' :
  register_session_locked d carrier dcid local remote reset resumption peer static identity now privacy role challenge = (r, d') ->
  at_most_adds d d' peer now.
Proof.
  intros H%register_cases. destruct r as [id|].
  - destruct H as (_ & _ & _ & _ & session & d1 & _ & (s & k1 & k2 & ->) & ->). split; [done|]. right. by eexists _, _.
  - destruct H as (s & k1 & k2 & ->). split; [done|by left].
Qed.

Lemma handle_auth_sound d l packet r d' :
  handle_auth d l packet = (r, d') ->
  d'.(Daemon.sessions) = d.(Daemon.sessions) /\ d'.(Daemon.ticket_key) = d.(Daemon.ticket_key) /\
  forall reply c, r = Ok (reply, c) ->
    c.(Confirming.link) = l /\ RevocationStore.check (store_of d) c.(Confirming.peer).(PeerIdentity.binding) l.(Handshaking.started_at) = Ok tt /\
    (TofuStore.observe (store_of d) c.(Confirming.peer).(PeerIdentity.binding) l.(Handshaking.started_at)).1 = Ok tt /\
    exists auth fin, complete l.(Handshaking.pending) d.(Daemon.runtime) auth l.(Handshaking.started_at) =
      (Ok (fin, c.(Confirming.secrets), c.(Confirming.peer)), c.(Confirming.pending)).
Proof.
  unfold handle_auth. destruct (map_err _ (PacketKeys.from_traffic_secret _)) as [keys|]; [|by intros [= <- <-]]. cbn [mbind Result_bind].
  destruct (decode_client_auth packet keys) as [auth|]; [|by intros [= <- <-]]. cbn [mbind Result_bind].
  destruct (complete _ _ auth _) as [[[[fin secrets] peer]|] pending] eqn:Ec; cbn [mbind Result_bind]; [|by intros [= <- <-]].
  unfold validate_peer_binding.
  destruct (RevocationStore.check _ _ _) as [[]|[]] eqn:Er; [|cbn [mbind Result_bind]; by intros [= <- <-]..].
  destruct (TofuStore.observe _ _ _) as [[[]|[]] s] eqn:Et; cbn [mbind Result_bind]; [|by intros [= <- <-]..].
  intros Heq. pose proof (f_equal fst Heq) as Hr. pose proof (f_equal snd Heq) as Hd. cbn [fst snd] in Hr, Hd. clear Heq. subst d'.
  split; [reflexivity|]. split; [reflexivity|]. intros reply c ->.
  do 3 apply bind_Ok in Hr as (? & _ & Hr). apply (inj Ok) in Hr. injection Hr as _ <-. cbn [Confirming.link Confirming.peer Confirming.secrets Confirming.pending]. split; [done|]. rewrite Et. split; [done|]. split; [done|]. by exists auth, fin.
Qed.

Lemma handle_finished_sound d c packet ch r d' :
  handle_finished d c packet ch = (r, d') ->
  d' = d \/
  (exists client_finished,
     verify_client_finished c.(Confirming.pending).(HandshakePending.secret4) c.(Confirming.pending).(HandshakePending.transcript)
       c.(Confirming.auth_bytes) c.(Confirming.server_finished) client_finished = Ok tt) /\
  at_most_adds d d' c.(Confirming.peer).(PeerIdentity.binding).(IdentityBinding.endpoint_id) c.(Confirming.link).(Handshaking.started_at).
Proof.
  unfold handle_finished. destruct (decode_client_finished _ _) as [f|]; [|intros [= _ <-]; by left]. cbn [mbind Result_bind].
  destruct (confirm_client _ _ _ _) as [confirmed pending] eqn:Ec. destruct confirmed as [[]|]; [|intros [= _ <-]; by left].
  cbn [mbind Result_bind]. destruct (_ || _); [intros [= _ <-]; by left|]. intros H%register_adds. right. split; [|done].
  unfold confirm_client in Ec. destruct (apply_event _ _) as [m|]; [|done]. cbn [mbind Result_bind] in Ec. exists f.
  by destruct (verify_client_finished _ _ _ _ _) as [[]|].
Qed.

Lemma answer_link_sessions d carrier i now context se sr o d' :
  answer_link d carrier i now context se sr = (o, d') ->
  d'.(Daemon.sessions) = d.(Daemon.sessions) /\ d'.(Daemon.ticket_key) = d.(Daemon.ticket_key).
Proof.
  unfold answer_link. destruct (admit_by_invitation d carrier i now) as [psk d1] eqn:Ea.
  assert (Hd1 : d1.(Daemon.sessions) = d.(Daemon.sessions) /\ d1.(Daemon.ticket_key) = d.(Daemon.ticket_key)).
  { unfold admit_by_invitation in Ea. destruct (offers _ _); [|by injection Ea as _ <-].
    destruct (InvitationStore.authenticate _ _ _) as [r inv]. by injection Ea as _ <-. }
  clear Ea. destruct (respond_hello_with_retry_context_and_psk _ _ _ _ _ _ _ _ _ _) as [[shb p|b]|e]; [|by intros [= _ <-]..].
  destruct (initial_response i shb); by intros [= _ <-].
Qed.

Lemma check_ticket_node d ticket now :
  check_ticket d ticket now = Ok tt -> ticket.(TicketPayload.server_endpoint_id_hash) = node_endpoint_id d.
Proof. unfold check_ticket. by destruct (bool_decide_reflect (ticket.(TicketPayload.server_endpoint_id_hash) = node_endpoint_id d)). Qed.

Lemma handle_resumed_adds d carrier i now ticket se sr ch o d' :
  handle_resumed_link d carrier i now ticket se sr ch = (o, d') ->
  d' = d \/ (ticket.(TicketPayload.server_endpoint_id_hash) = node_endpoint_id d /\
             at_most_adds d d' ticket.(TicketPayload.client_endpoint_id_hash) now).
Proof.
  unfold handle_resumed_link. destruct (negb _); [intros [= _ <-]; by left|].
  destruct (select_version _); [|destruct (build_version_negotiation _ _ _); intros [= _ <-]; by left].
  destruct (resumed_privacy d _) as [privacy|]; [|intros [= _ <-]; by left]. cbn [mbind Result_bind].
  destruct (check_ticket d ticket now) as [[]|] eqn:Et; [|intros [= _ <-]; by left]. cbn [mbind Result_bind].
  destruct (resume_secrets _ _ _ _ _ _ _ _) as [[shb resume]|]; [|intros [= _ <-]; by left]. cbn [mbind Result_bind].
  destruct (initial_response i shb) as [packet|]; [|intros [= _ <-]; by left]. cbn [mbind Result_bind].
  destruct (register_session_locked _ _ _ _ _ _ _ _ _ _ _ _ _ _) as [r d1] eqn:Er. intros [= _ <-]. right.
  apply register_adds in Er. apply check_ticket_node in Et. done.
Qed.

Lemma handle_first_adds d carrier now first nonce se sr ch o d' :
  handle_first d carrier now first nonce se sr ch = (o, d') ->
  d'.(Daemon.ticket_key) = d.(Daemon.ticket_key) /\
  (d'.(Daemon.sessions) = d.(Daemon.sessions) \/
   exists ticket payload, validate_ticket d.(Daemon.ticket_key) ticket now = Ok payload /\
     payload.(TicketPayload.server_endpoint_id_hash) = node_endpoint_id d /\
     payload.(TicketPayload.nonce) ∉ d.(Daemon.ticket_replay_cache).(TicketReplayCache.seen) /\
     at_most_adds d d' payload.(TicketPayload.client_endpoint_id_hash) now).
Proof.
  unfold handle_first. destruct (read_first first) as [i|]; cbn [mbind Result_bind]; [|intros [= _ <-]; auto].
  destruct (map_err _ (DaemonTracker.check _ _ _)); cbn [mbind Result_bind]; [|intros [= _ <-]; auto].
  destruct (RuntimeState.carrier_disabled _ _); [intros [= _ <-]; auto|].
  destruct (RuntimeState.crypto_profile_disabled _ _); [intros [= _ <-]; auto|].
  destruct (RuntimeState.protocol_version_disabled _ _); [destruct (build_version_negotiation _ _ _); intros [= _ <-]; auto|].
  destruct (retry_gate _ _ _ _ _ _) as [[packet|context]|]; [intros [= _ <-]; auto| |intros [= _ <-]; auto].
  destruct (resumed_ticket d i.(Inbound.hello) now) as [ticket|] eqn:Et; cycle 1.
  { intros [H1 H2]%answer_link_sessions. auto. }
  destruct (TicketReplayCache.insert _ _) as [fresh cache] eqn:Ei. destruct fresh; cycle 1.
  { intros [H1 H2]%answer_link_sessions. auto. }
  intros [->|[Hn Ha]]%handle_resumed_adds; [auto|]. split; [apply Ha|]. right.
  unfold resumed_ticket in Et. destruct (offers _ _); [|done].
  destruct (validate_ticket _ _ _) as [p|] eqn:Ev; [|done]. injection Et as ->.
  exists i.(Inbound.hello).(ClientHello.retry_token), ticket. split; [done|]. split; [exact Hn|]. split; [|exact Ha].
  unfold TicketReplayCache.insert in Ei. by case_bool_decide.
Qed.

(** One step keeps every session accounted for. *)
Definition accounts w0 w : Prop :=
  rtc accept_step w0 w /\ w.(World.daemon).(Daemon.ticket_key) = w0.(World.daemon).(Daemon.ticket_key) /\
  (forall c, c ∈ w.(World.confirming) -> vouched w0 w c) /\
  forall id e, w.(World.daemon).(Daemon.sessions).(SessionManager.sessions) !! id = Some e -> accounted w0 w e.

Lemma accounts_kept w0 w w' :
  accounts w0 w -> accept_step w w' -> w'.(World.confirming) = w.(World.confirming) ->
  w'.(World.daemon).(Daemon.ticket_key) = w.(World.daemon).(Daemon.ticket_key) ->
  (forall id e, w'.(World.daemon).(Daemon.sessions).(SessionManager.sessions) !! id = Some e ->
     w.(World.daemon).(Daemon.sessions).(SessionManager.sessions) !! id = Some e \/ accounted w0 w' e) ->
  accounts w0 w'.
Proof.
  intros (Hr & Hk & Hc & He) Hs Hcs Hks Hes. split; [by eapply rtc_r|]. split; [congruence|]. split.
  - intros c Hin. rewrite Hcs in Hin. eapply vouched_later; eauto.
  - intros id e Hin. destruct (Hes _ _ Hin) as [H|H]; [|done]. eapply accounted_later; eauto.
Qed.

Lemma vouched_now w0 w w' l packet reply c d' :
  rtc accept_step w0 w -> accept_step w w' -> handle_auth w.(World.daemon) l packet = (Ok (reply, c), d') -> vouched w0 w' c.
Proof.
  intros H0 Hs H. apply handle_auth_sound in H as (_ & _ & Hc). destruct (Hc _ _ eq_refl) as (Hl & Hrev & Htofu & auth & fin & Hcomp).
  destruct (completed _ _ _ _ _ _ _ _ Hcomp) as (Hsec & (plaintext & Ha & Hpr) & _).
  destruct (authenticated _ _ _ _ _ Ha) as (Hv & Hst & _ & (sg & Hsg & Hsig) & _).
  exists w, auth, sg. split; [done|]. split; [by apply rtc_once|]. cbv zeta. rewrite Hl. split_and!; auto.
Qed.

Lemma accounts_added w0 w w' peer now :
  accounts w0 w -> accept_step w w' -> w'.(World.confirming) = w.(World.confirming) ->
  at_most_adds w.(World.daemon) w'.(World.daemon) peer now ->
  (forall e, e.(SessionEntry.peer_endpoint_id) = peer -> e.(SessionEntry.established_at_ms) = now -> accounted w0 w' e) ->
  accounts w0 w'.
Proof.
  intros Ha Hs Hc [Hk Hadd] Hacc. eapply accounts_kept; [done..|]. intros id e He. destruct Hadd as [Heq|(id' & e' & Heq & Hp & Hn)]; rewrite Heq in He.
  - by left.
  - apply lookup_insert_Some in He as [[-> <-]|[_ He]]; [right; auto|by left].
Qed.

End Links.

(** ** Properties *)

(** Without XX on offer and without a ticket, what stands before the answer. *)
Section Ungated.
Context {St : Type} `{HS : Store St} `{HP : Primitives} `{HC : Curves} `{HO : HashOrder Invitation.t}.
Implicit Types d : Daemon.t St.

Lemma handle_first_ungated d carrier now first nonce se sr ch i :
  read_first first = Ok i -> offers i.(Inbound.hello) MODE_XX = false -> resumed_ticket d i.(Inbound.hello) now = None ->
  handle_first d carrier now first nonce se sr ch =
    match DaemonTracker.check d.(Daemon.tracker) i.(Inbound.dcid) now with
    | Err e => (Refused (message "handshake rejected" e), d)
    | Ok _ =>
        if d.(Daemon.runtime).(RuntimeState.carrier_disabled) (bstr carrier) then (Refused (Message "disabled carrier"), d)
        else if d.(Daemon.runtime).(RuntimeState.crypto_profile_disabled) CRYPTO_PROFILE
        then (Refused (Message "disabled crypto profile"), d)
        else if d.(Daemon.runtime).(RuntimeState.protocol_version_disabled) SUPPORTED_PROTOCOL_VERSION then
          match build_version_negotiation i.(Inbound.client_scid) i.(Inbound.dcid) [] with
          | Ok bytes => (Replied bytes (Message "unsupported protocol version: disabled by policy"), d)
          | Err e => (Refused e, d)
          end
        else answer_link d carrier i now None se sr
    end.
Proof.
  intros Hread Hx Ht. unfold handle_first. rewrite Hread. cbn [mbind Result_bind].
  destruct (DaemonTracker.check _ _ _); cbn [map_err mbind Result_bind]; [|done]. cbv zeta.
  repeat case_match; try done; unfold retry_gate in *; rewrite Hx, andb_false_r in *; simplify_eq; done.
Qed.

Lemma read_first_hello first i : read_first first = Ok i -> ClientHello.decode i.(Inbound.hello_bytes) = Ok i.(Inbound.hello).
Proof.
  unfold read_first. intros ([[[hd pn] pl] cs] & _ & H)%bind_Ok. apply bind_Ok in H as (hb & _ & H).
  apply bind_Ok in H as (h & Hh%map_err_Ok & H). apply bind_Ok in H as (dc & _ & <-%(inj Ok)). exact Hh.
Qed.

Lemma answer_hello_mode (st : RuntimeState.t St) carrier hb hello static retry invitation version mode privacy se random shb p :
  answer_hello st carrier hb hello static retry invitation version mode privacy se random = Ok (ServerHelloResponse shb p) ->
  exists sh, ServerHello.encode sh = Ok shb /\ sh.(ServerHello.selected_handshake_mode) = mode.
Proof.
  unfold answer_hello. intros (t0 & _ & H)%bind_Ok. cbv zeta in H. apply bind_Ok in H as (x1 & _ & H).
  apply bind_Ok in H as (auth & _ & H). apply bind_Ok in H as (caps & _ & H).
  apply bind_Ok in H as (bytes & Hb%map_err_Ok & H). apply bind_Ok in H as (t1 & _ & H).
  do 3 apply bind_Ok in H as (? & _ & H). injection H as <- _. eexists. split; [exact Hb|reflexivity].
Qed.

(** An answer to a hello that does not ask for PSK-XX is one of XX. *)
Lemma answer_link_xx d carrier i now context se sr first o d' :
  read_first first = Ok i -> offers i.(Inbound.hello) MODE_PSK_XX = false ->
  answer_link d carrier i now context se sr = (o, d') ->
  match o with
  | Waiting reply link =>
      exists sh shb, ServerHello.encode sh = Ok shb /\ sh.(ServerHello.selected_handshake_mode) = MODE_XX /\ initial_response i shb = Ok reply
  | Resumed _ _ => False
  | _ => True
  end.
Proof.
  intros Hread Hp. unfold answer_link, admit_by_invitation. rewrite Hp.
  destruct (respond_hello_with_retry_context_and_psk _ _ _ _ _ _ _ _ _ _) as [[shb p|b]|e] eqn:Er; [|by intros [= <- _]..].
  destruct (initial_response i shb) as [reply|] eqn:Ei; [|by intros [= <- _]]. intros [= <- _].
  enough (H : exists sh, ServerHello.encode sh = Ok shb /\ sh.(ServerHello.selected_handshake_mode) = MODE_XX).
  { destruct H as (sh & H1 & H2). by exists sh, shb. }
  pose proof (read_first_hello _ _ Hread) as Hhello. unfold respond_hello_with_retry_context_and_psk in Er.
  destruct (RuntimeState.carrier_disabled _ _); [done|]. rewrite Hhello in Er. cbn [map_err mbind Result_bind] in Er.
  destruct (negb _); [done|]. destruct (select_version _) as [v|]; [|by apply bind_Ok in Er as (? & _ & ?)].
  destruct (RuntimeState.protocol_version_disabled _ _); [by apply bind_Ok in Er as (? & _ & ?)|].
  destruct (RuntimeState.crypto_profile_disabled _ _); [done|].
  apply bind_Ok in Er as (privacy & _ & Er). apply bind_Ok in Er as (mode & Hm & Er). unfold select_mode in Hm. rewrite Hp in Hm.
  apply (inj Ok) in Hm as <-. by eapply answer_hello_mode.
Qed.

End Ungated.

Section Theorems.
Context {St : Type} `{HS : Store St} `{HP : Primitives} {HPL : PrimitiveLaws} `{HC : Curves} {HCL : CurveLaws}.
Context `{HO : HashOrder Invitation.t}.
Implicit Types d : Daemon.t St.

(** C11: The Retry gate: when the node asks for Retry, a hello that offers XX is
    answered, or its ticket or an invitation looked at, only if its packet has a
    token sealed with the node's key, not expired, for the connection identifier,
    random and key of this hello and for this carrier.  Otherwise the node keeps
    nothing: whatever it sends back, its state is what it was. *)
Theorem retry_gate_sound d carrier now first nonce se sr ch i :
  d.(Daemon.require_retry) = true -> read_first first = Ok i -> offers i.(Inbound.hello) MODE_XX = true ->
  let '(o, d') := handle_first d carrier now first nonce se sr ch in
  (exists token, initial_token first = Some token /\ token <> [] /\ retry_token_for d carrier i now token) \/
  (d' = d /\ match o with Refused _ | Replied _ _ => True | _ => False end).
Proof.
  intros Hreq Hread Hoff. unfold handle_first. rewrite Hread. cbn [mbind Result_bind].
  destruct (map_err _ (DaemonTracker.check _ _ _)); [|by right]. cbn [mbind Result_bind].
  destruct (RuntimeState.carrier_disabled _ _); [by right|]. destruct (RuntimeState.crypto_profile_disabled _ _); [by right|].
  destruct (RuntimeState.protocol_version_disabled _ _); [destruct (build_version_negotiation _ _ _); by right|].
  unfold retry_gate. rewrite Hreq, Hoff. cbn [andb].
  destruct (initial_token first) as [token|]; [change (default [] (Some token)) with token|].
  2: { cbn. destruct (issue_retry _ _ _ _ _); cbn [mbind Result_bind]; by right. }
  destruct (N.eqb_spec (len token) 0) as [|Hne].
  { destruct (issue_retry _ _ _ _ _); cbn [mbind Result_bind]; by right. }
  destruct (check_retry d carrier i token now) as [context|] eqn:Ec; cbn [mbind Result_bind]; [|by right].
  match goal with |- match ?x with (_, _) => _ end => destruct x end. left. exists token. split; [done|]. split; [by intros ->|].
  by eapply check_retry_sound.
Qed.

(** C25: The gate stands only before hellos that list XX: one that lists neither
    XX nor PSK-XX and brings no valid ticket is treated the same whether or not
    the node asks for Retry, with whatever token; and when it is answered, it is
    with the SERVER_HELLO of a full XX handshake, whose state the node keeps. *)
Theorem retry_gate_bypassed d carrier now first nonce se sr ch i o d' :
  read_first first = Ok i -> offers i.(Inbound.hello) MODE_XX = false -> offers i.(Inbound.hello) MODE_PSK_XX = false ->
  resumed_ticket d i.(Inbound.hello) now = None ->
  handle_first d carrier now first nonce se sr ch = (o, d') ->
  handle_first (d <| Daemon.require_retry := false |>) carrier now first nonce se sr ch = (o, d' <| Daemon.require_retry := false |>) /\
  match o with
  | Waiting reply link =>
      exists sh shb, ServerHello.encode sh = Ok shb /\ sh.(ServerHello.selected_handshake_mode) = MODE_XX /\ initial_response i shb = Ok reply
  | Resumed _ _ => False
  | _ => True
  end.
Proof.
  intros Hread Hx Hp Ht. rewrite (handle_first_ungated d _ _ _ _ _ _ _ i) by done.
  rewrite (handle_first_ungated (d <| Daemon.require_retry := false |>) _ _ _ _ _ _ _ i) by done.
  cbn [Daemon.tracker Daemon.runtime set const].
  destruct (DaemonTracker.check _ _ _); [|by intros [= <- <-]].
  destruct (RuntimeState.carrier_disabled _ _); [by intros [= <- <-]|].
  destruct (RuntimeState.crypto_profile_disabled _ _); [by intros [= <- <-]|].
  destruct (RuntimeState.protocol_version_disabled _ _); [destruct (build_version_negotiation _ _ _); by intros [= <- <-]|].
  intros H. pose proof (answer_link_xx _ _ _ _ _ _ _ _ _ _ Hread Hp H) as Hxx. split; [|exact Hxx]. clear Hxx.
  unfold answer_link, admit_by_invitation in *. rewrite Hp in *. cbn [Daemon.runtime Daemon.tracker set const].
  destruct (respond_hello_with_retry_context_and_psk _ _ _ _ _ _ _ _ _ _) as [[shb p|b]|e]; [|by injection H as <- <-..].
  destruct (initial_response i shb); by injection H as <- <-.
Qed.

(** C6: Every session in the registry is accounted for: whatever packets arrive on
    whatever links, in any order, and whatever else changes in the daemon, a
    session is there because at some moment its peer proved the identity it is
    registered under (binding valid, signature over that handshake, neither revoked
    nor contradicting the pinned binding then) and afterwards confirmed the
    handshake's keys, or because of a ticket sealed with the node's key for that
    peer and this node, still valid and not used before as far as the node
    remembers. *)
Theorem sessions_accounted `{HE : EntropySource E} (w0 w : World.t St) :
  w0.(World.confirming) = [] -> w0.(World.daemon).(Daemon.sessions).(SessionManager.sessions) = ∅ ->
  rtc accept_step w0 w ->
  forall id e, w.(World.daemon).(Daemon.sessions).(SessionManager.sessions) !! id = Some e -> accounted w0 w e.
Proof.
  intros Hc0 Hs0 Hr. enough (Ha : accounts w0 w) by apply Ha. revert w Hr. apply rtc_ind_r; [|intros w w' Hr Hstep Ha].
  { split; [done|]. split; [done|]. rewrite Hc0, Hs0. split; [intros c Hc; by apply elem_of_nil in Hc|done]. }
  pose proof Ha as (_ & Hk & Hc & He). pose proof Hstep as Hstep'.
  destruct Hstep as [carrier now first nonce se sr ch|l packet Hl|c packet ch Hin|id|id s os Hs|runtime blocklist inv clock].
  - destruct (handle_first _ _ _ _ _ _ _ _) as [o d'] eqn:Eh. apply handle_first_adds in Eh as (Hk' & [Hsame|(ticket & p & Hv & Hn & Hnew & Hadd)]).
    + eapply accounts_kept; [done..|]. intros id e H. left. cbn in H. by rewrite Hsame in H.
    + eapply accounts_added; [done..|exact Hadd|]. intros e Hp Hnow. right. exists ticket, p, w. rewrite <- Hk, Hp, Hnow.
      split; [done|]. split; [by apply rtc_once|]. done.
  - destruct (handle_auth _ l packet) as [r d'] eqn:Eh. pose proof (handle_auth_sound _ _ _ _ _ Eh) as (Hsame & Hk' & _).
    split; [by eapply rtc_r|]. split; [cbn; congruence|]. split.
    + intros c Hin. cbn in Hin. destruct r as [[reply c']|]; [|eapply vouched_later; eauto].
      apply elem_of_cons in Hin as [->|Hin]; [by eapply vouched_now|eapply vouched_later; eauto].
    + intros id e H. cbn in H. rewrite Hsame in H. eapply accounted_later; eauto.
  - destruct (handle_finished _ c packet ch) as [r d'] eqn:Eh. apply handle_finished_sound in Eh as [->|[[f Hf] Hadd]].
    + eapply accounts_kept; [done..|]. intros id e H. by left.
    + eapply accounts_added; [done..|exact Hadd|]. intros e Hp Hnow. left. exists c, f.
      pose proof (vouched_later _ _ _ _ (Hc _ Hin) Hstep') as Hv. pose proof Hv as (w1 & auth & sg & _ & _ & Hval & _).
      rewrite <- (validated_endpoint _ _ _ Hval). done.
  - eapply accounts_kept; [done..|]. intros id' e H. left. cbn in H. by apply lookup_delete_Some in H as [_ H].
  - eapply accounts_kept; [done..|]. intros id' e H. by left.
  - eapply accounts_kept; [done..|]. intros id' e H. by left.
Qed.

End Theorems.

(** ** Examples *)

#[local] Existing Instances memory_store memory_laws toy_primitives toy_laws toy_curves toy_curve_laws toy_total plain_order.

(** A first packet with a hello of these modes and this token inside. *)
Definition sample_first (modes : list (list u8)) (token : list u8) : list u8 :=
  or_default []
    ('(hello, _) ← client_hello sample_client (replicate 32 7) sample_ephemeral token;
     bytes ← map_err (message "hello") (ClientHello.encode (hello <| ClientHello.supported_handshake_modes := modes |>));
     keys ← derive_initial_keys (replicate 8 1);
     build_initial_packet (replicate 8 1) (replicate 8 2) 0 bytes keys.(InitialKeys.client)).

Definition first_step (d : Daemon.t Memory) (carrier : string) (first : list u8) : Outcome * Daemon.t Memory :=
  handle_first d carrier 500 first (replicate 16 30) sample_server_ephemeral (replicate 32 8) (replicate 8 9).

Lemma retry_gate_sound_witness :
  exists i, read_first (sample_first [MODE_XX] []) = Ok i /\
    let '(o, d') := first_step sample_daemon "ump.relay/1" (sample_first [MODE_XX] []) in
    (exists token, initial_token (sample_first [MODE_XX] []) = Some token /\ token <> [] /\
       retry_token_for sample_daemon "ump.relay/1" i 500 token) \/
    (d' = sample_daemon /\ match o with Refused _ | Replied _ _ => True | _ => False end).
Proof.
  assert (H : exists i, read_first (sample_first [MODE_XX] []) = Ok i /\ offers i.(Inbound.hello) MODE_XX = true)
    by (eexists; vm_compute; split; reflexivity).
  destruct H as (i & Hi & Ho). exists i. split; [exact Hi|]. apply (retry_gate_sound sample_daemon); [reflexivity|exact Hi|exact Ho].
Defined.

Definition sample_resumption_ticket : list u8 :=
  or_default [] (issue_ticket sample_daemon.(Daemon.ticket_key)
    (TicketPayload.mk 1 (replicate 16 40) (endpoint_id (IdentityKeyPair.public sample_caller)) (node_endpoint_id sample_daemon)
       (replicate 32 41) 100 10000 1 CRYPTO_PROFILE (replicate 16 42))).

Definition sample_resumption : list u8 := sample_first [MODE_IK] sample_resumption_ticket.

Definition sample_world : World.t Memory := World.mk sample_daemon [] [].

Lemma sessions_accounted_witness :
  let w := (let '(o, d) := first_step sample_daemon "ump.relay/1" sample_resumption in
            World.mk d (match o with Waiting _ l => l :: [] | _ => [] end) []) in
  exists e, w.(World.daemon).(Daemon.sessions).(SessionManager.sessions) !! 1 = Some e /\ accounted (E := N) sample_world w e.
Proof.
  cbv zeta. set (w := match first_step _ _ _ with (_, _) => _ end).
  assert (H : exists e, w.(World.daemon).(Daemon.sessions).(SessionManager.sessions) !! 1 = Some e)
    by (eexists; vm_compute; reflexivity).
  destruct H as [e He]. exists e. split; [exact He|]. apply (sessions_accounted (E := N) sample_world w) with (id := 1);
    [reflexivity|reflexivity| |exact He]. apply rtc_once. unfold w, first_step.
  exact (accept_first (E := N) sample_world "ump.relay/1" 500 sample_resumption (replicate 16 30) sample_server_ephemeral
    (replicate 32 8) (replicate 8 9)).
Defined.

Lemma retry_gate_bypassed_witness :
  exists i reply link d' sh shb,
    initial_token (sample_first [MODE_IK] []) = Some [] /\ read_first (sample_first [MODE_IK] []) = Ok i /\
    first_step sample_daemon "ump.relay/1" (sample_first [MODE_IK] []) = (Waiting reply link, d') /\
    first_step (sample_daemon <| Daemon.require_retry := false |>) "ump.relay/1" (sample_first [MODE_IK] []) =
      (Waiting reply link, d' <| Daemon.require_retry := false |>) /\
    ServerHello.encode sh = Ok shb /\ sh.(ServerHello.selected_handshake_mode) = MODE_XX /\ initial_response i shb = Ok reply.
Proof.
  assert (H : match read_first (sample_first [MODE_IK] []) with
              | Ok i => offers i.(Inbound.hello) MODE_XX = false /\ offers i.(Inbound.hello) MODE_PSK_XX = false /\
                        resumed_ticket sample_daemon i.(Inbound.hello) 500 = None
              | Err _ => False
              end) by (vm_compute; split_and!; reflexivity).
  destruct (read_first (sample_first [MODE_IK] [])) as [i|] eqn:Hi; [|destruct H]. destruct H as (Hx & Hp & Ht).
  assert (H : match (first_step sample_daemon "ump.relay/1" (sample_first [MODE_IK] [])).1 with Waiting _ _ => True | _ => False end)
    by (vm_compute; exact I).
  destruct (first_step sample_daemon "ump.relay/1" (sample_first [MODE_IK] [])) as [[| |reply link|] d'] eqn:Hw;
    [destruct H|destruct H| |destruct H].
  pose proof Hw as Hs. unfold first_step in Hs |- *.
  destruct (retry_gate_bypassed sample_daemon "ump.relay/1" 500 (sample_first [MODE_IK] []) (replicate 16 30)
    sample_server_ephemeral (replicate 32 8) (replicate 8 9) i (Waiting reply link) d' Hi Hx Hp Ht Hs) as [Hsame (sh & shb & Hsh)].
  exists i, reply, link, d', sh, shb. split; [vm_compute; reflexivity|]. split; [reflexivity|]. split; [reflexivity|]. split; [exact Hsame|exact Hsh].
Defined.

Definition revoked_caller : Daemon.t Memory :=
  with_store sample_daemon
    (match SignedRevocation.sign sample_caller (RevocationSubject.Identity (endpoint_id (IdentityKeyPair.public sample_caller))) 1 100 1000 with
     | Ok statement => (RevocationStore.accept_signed empty_memory statement (IdentityKeyPair.public sample_caller) 100).2
     | Err _ => empty_memory
     end).

(** A ticket outlives a revocation: the node holds the client's own revocation,
    refuses its binding in a full handshake, and resumes a session for it. *)
Theorem resumption_ignores_revocation :
  (validate_peer_binding revoked_caller sample_client.(ClientSide.binding) 500).1 = Err (Message "IDENTITY_REVOKED") /\
  let '(o, d') := first_step revoked_caller "ump.relay/1" sample_resumption in
  match o with
  | Resumed _ id => SessionEntry.peer_endpoint_id <$> SessionManager.lookup d'.(Daemon.sessions) id =
                    Some sample_client.(ClientSide.binding).(IdentityBinding.endpoint_id)
  | _ => False
  end.
Proof. split; vm_compute; reflexivity. Qed.
