(* ===== verification/Connect.v ===== *)
(** * Connecting

    The client's side packet by packet ([connect_attempt] and
    [connect_resumed_attempt] of crates/umc-core/src/node.rs), and both sides
    together: the packets of a client handed to a daemon and back, through a Retry
    when the daemon asks for one, until both hold a session and each session opens
    what the other seals. *)

From Stdlib Require Import Strings.String.
From stdpp Require Import gmap.
From S2P Require Import Prelude Records FrameTypes Codec Varint WireBytes Crypto Header Packet ProtectedPacket Spaces SentPackets Ack Loss Flow Stream Cids Datagrams Paths Congestion KeyPhase SessionState SessionOps SessionRules SessionRun SessionInvariant SessionLink Identity HandshakeMessages HandshakeKeys HandshakePackets HandshakeAuth HandshakeGates Store TrustStatements Trust Revocation Handshake HandshakeAgreement SessionRegistry Accept.

#[local] Open Scope N_scope.

Inductive NodeError :=
| HandshakeFailed (e : Failure)
| VersionNegotiated.

(** What a dial led to. *)
Inductive Reply :=
| RetryReply (hello : ClientHello.t) (hello_bytes retry_context : list u8)
| HelloReply (server_hello_bytes : list u8).

Module ConnectedTransport.
Record t := mk {
  session_id : u64;
  dcid : list u8;
  secrets : SessionSecrets.t;
  peer_endpoint_id : list u8;
  peer_static_handshake_public_key : option (list u8);
  peer_identity_public_key : option (list u8);
  resumed : bool
}.
End ConnectedTransport.

(** The node's own count and table of its sessions. *)
Module NodeSessions.
Record t := mk { next_session : u64; sessions : gmap u64 (SessionSecrets.t * list u8) }.

(** [next_session] would overflow only after 2^64 sessions, which is not modelled. *)
Definition note (n : t) (secrets : SessionSecrets.t) (peer_endpoint_id : list u8) : u64 * t :=
  (n.(next_session), mk (n.(next_session) + 1) (<[n.(next_session) := (secrets, peer_endpoint_id)]> n.(sessions))).
End NodeSessions.

Definition transport_session_dcid (initial_dcid : list u8) : list u8 := initial_dcid.

Section Client.
Context `{Primitives, Curves}.

(** The Initial packet of a dial. *)
Definition initial_flight (dcid scid hello_bytes token : list u8) : Result Failure (list u8) :=
  keys ← derive_initial_keys dcid;
  build_initial_packet_with_token dcid scid 0 hello_bytes token keys.(InitialKeys.client).

Definition parse_initial_response (bytes : list u8) (keys : PacketKeys.t) : Result Failure (list u8) :=
  '(_, _, payload, _) ← ok_or (Message "initial response rejected") (parse_initial_with_keys bytes keys);
  Ok payload.

(** Version negotiation, or the SERVER_HELLO with the padding after it. *)
Definition read_server_packet (dcid scid server_packet : list u8) : Result NodeError (list u8) :=
  match parse_version_negotiation server_packet with
  | Some (offered, vn_dcid) =>
      if negb (bool_decide (vn_dcid = scid)) then Err (HandshakeFailed (Message "version negotiation: DCID echo mismatch"))
      else if negb (bool_decide (is_Some (select_version offered)))
      then Err (HandshakeFailed (Message "version negotiation: server offers no supported protocol version"))
      else Err VersionNegotiated
  | None =>
      map_err HandshakeFailed
        (keys ← derive_initial_keys dcid; parse_initial_response server_packet keys.(InitialKeys.server))
  end.

(** The first response to a dial; after [retry_count] Retries. *)
Definition read_reply (hello : ClientHello.t) (hello_bytes dcid scid : list u8) (retry_count : u8) (server_packet : list u8)
    : Result NodeError Reply :=
  match decode_retry_packet server_packet with
  | Ok retry =>
      if 1 <=? retry_count then Err (HandshakeFailed (Message "multiple Retry packets"))
      else if negb (bool_decide (retry.(RetryPacket.destination_connection_id) = scid))
      then Err (HandshakeFailed (Message "retry: destination connection id mismatch"))
      else if len retry.(RetryPacket.token) =? 0 then Err (HandshakeFailed (Message "retry: empty token"))
      else
        let hello' := hello <| ClientHello.retry_token := retry.(RetryPacket.token) |> in
        bytes ← map_err (fun _ => HandshakeFailed (Message "hello")) (ClientHello.encode hello');
        Ok (RetryReply hello' bytes (retry_context hello_bytes server_packet))
  | Err _ =>
      payload ← read_server_packet dcid scid server_packet;
      Ok (HelloReply payload)
  end.

Definition client_handshake_keys (out : ClientHandshakeOutput.t) (client_direction : bool) : Result Failure PacketKeys.t :=
  traffic_keys (derive_handshake_traffic_secret out.(ClientHandshakeOutput.handshake_secret3)
    out.(ClientHandshakeOutput.transcript_hash) client_direction).

(** CLIENT_AUTH in a Handshake packet. *)
Definition auth_flight (c : ClientSide.t) (client_ephemeral : StaticHandshakeKeyPair.t) (hello : ClientHello.t) (carrier_type : string)
    (retry_context expected_endpoint_id : option (list u8)) (dcid scid server_hello_bytes : list u8)
    : Result Failure (ServerHello.t * ClientHandshakeOutput.t * list u8 * list u8) :=
  '(server_hello, out, auth_body) ←
    client_auth c client_ephemeral hello (bstr carrier_type) retry_context expected_endpoint_id server_hello_bytes;
  frame ← map_err (message "client auth") (Encoding.encode_message Encoding.CLIENT_AUTH auth_body []);
  keys ← client_handshake_keys out true;
  packet ← map_err (message "client auth packet") (build_handshake_packet dcid scid 0 frame keys);
  Ok (server_hello, out, auth_body, packet).

(** CLIENT_FINISHED in a Handshake packet. *)
Definition finished_flight (c : ClientSide.t) (carrier_type : string) (hello_bytes : list u8) (retry_context : option (list u8))
    (server_hello : ServerHello.t) (out : ClientHandshakeOutput.t) (auth_body dcid scid finished_packet : list u8)
    : Result Failure (list u8) :=
  server_keys ← client_handshake_keys out false;
  finished_body ← decode_handshake_message Encoding.SERVER_FINISHED finished_packet server_keys;
  confirmation ← client_finish c (bstr carrier_type) hello_bytes retry_context server_hello out auth_body finished_body;
  frame ← map_err (message "client finished") (Encoding.encode_message Encoding.CLIENT_FINISHED confirmation []);
  keys ← client_handshake_keys out true;
  map_err (message "client finished packet") (build_handshake_packet dcid scid 1 frame keys).

(** The session once CLIENT_FINISHED has been sent. *)
Definition connected (n : NodeSessions.t) (dcid : list u8) (out : ClientHandshakeOutput.t) : ConnectedTransport.t * NodeSessions.t :=
  let secrets := out.(ClientHandshakeOutput.session_secrets) in
  let peer_endpoint_id := out.(ClientHandshakeOutput.server_endpoint_id) in
  let '(id, n) := NodeSessions.note n secrets peer_endpoint_id in
  (ConnectedTransport.mk id (transport_session_dcid dcid) secrets peer_endpoint_id
     (Some out.(ClientHandshakeOutput.server_static_public_key)) (Some out.(ClientHandshakeOutput.server_identity_public_key)) false, n).

(** ** Resumption *)

(** The hello that offers IK, with the ticket where a Retry's token would be. *)
Definition resume_hello (c : ClientSide.t) (client_random : list u8) (client_ephemeral : StaticHandshakeKeyPair.t) (ticket : list u8)
    : Result Failure (ClientHello.t * list u8 * list u8) :=
  hello ← ClientHello.new client_random client_ephemeral;
  let hello := (set_client_realm_marker hello c.(ClientSide.realm_marker))
                 <| ClientHello.supported_handshake_modes := [MODE_IK] |> <| ClientHello.retry_token := ticket |> in
  bytes ← map_err (message "hello") (ClientHello.encode hello);
  nonce ← ok_or (Message "ticket malformed (no clear nonce)") (ticket_nonce ticket);
  Ok (hello, bytes, nonce).

(** From the decrypted response to the resumed session. *)
Definition resume_client (n : NodeSessions.t) (c : ClientSide.t) (client_ephemeral : StaticHandshakeKeyPair.t) (carrier_type : string)
    (hello_bytes nonce resumption_secret dcid server_hello_bytes : list u8) : Result Failure (ConnectedTransport.t * NodeSessions.t) :=
  server_hello ← map_err (message "server hello") (ServerHello.decode server_hello_bytes);
  if negb (realm_marker_matches (server_realm_marker server_hello) c.(ClientSide.realm_marker) c.(ClientSide.private_realm))
  then Err (Message "network realm mismatch")
  else if negb (bool_decide (server_hello.(ServerHello.selected_handshake_mode) = MODE_IK))
  then Err (Message "resume refused: server selected the full XX handshake (stale ticket?)")
  else
    canonical ← canonical_hash;
    if negb (bool_decide (ServerHello.server_capabilities_hash server_hello = Some canonical))
    then Err (Message "server capabilities hash mismatch")
    else
      transcript ← map_err (message "transcript")
        (Transcript.update_message (Transcript.new MODE_IK CRYPTO_PROFILE (bstr carrier_type)) Encoding.CLIENT_HELLO hello_bytes);
      server_hello_canonical ← map_err (message "server hello") (ServerHello.encode server_hello);
      transcript ← map_err (message "transcript") (Transcript.update_message transcript Encoding.SERVER_HELLO server_hello_canonical);
      psk ← ok_or Panic (resumption_psk resumption_secret nonce);
      let resume := derive_resumption_secrets psk client_ephemeral server_hello.(ServerHello.server_ephemeral_public_key)
                      transcript.(Transcript.hash) in
      let secrets :=
        SessionSecrets.mk resume.(ResumeSecrets.client) resume.(ResumeSecrets.server) (zeros 32) (zeros 32) (zeros 32) (zeros 32) (zeros 32) in
      let '(id, n) := NodeSessions.note n secrets (zeros 32) in
      Ok (ConnectedTransport.mk id (transport_session_dcid dcid) secrets (zeros 32) None None true, n).

(** The ticket a session is closed with (bins/umcd/src/session_task.rs); the frame
    it travels in is not modelled.  [nonce] and [ticket_id] are drawn here. *)
Definition build_session_ticket (material : TicketMaterial.t) (now_ms : u64) (nonce ticket_id : list u8) : Result Failure (list u8) :=
  issue_ticket material.(TicketMaterial.ticket_key)
    (TicketPayload.mk TICKET_VERSION ticket_id material.(TicketMaterial.peer_endpoint_id) material.(TicketMaterial.server_endpoint_id)
       material.(TicketMaterial.resumption_secret) now_ms (saturating_add now_ms MAX_TICKET_LIFETIME_MS) SUPPORTED_PROTOCOL_VERSION
       CRYPTO_PROFILE nonce).

End Client.

(** ** The client's registration *)

Section Outbound.
Context {St : Type} `{Store St} `{Primitives, Curves}.

(** What the daemon does with a connection it has made (bins/umcd/src/static_peers.rs,
    [dial_all]). *)
Definition register_outbound (d : Daemon.t St) (carrier : string) (connection : ConnectedTransport.t) (now : u64) (challenge : list u8)
    : Result Failure u64 * Daemon.t St :=
  let secrets := connection.(ConnectedTransport.secrets) in
  register_session_locked d carrier connection.(ConnectedTransport.dcid) secrets.(SessionSecrets.client) secrets.(SessionSecrets.server)
    (if connection.(ConnectedTransport.resumed) then None else Some secrets.(SessionSecrets.stateless_reset))
    (if connection.(ConnectedTransport.resumed) then None else Some secrets.(SessionSecrets.resumption))
    connection.(ConnectedTransport.peer_endpoint_id) connection.(ConnectedTransport.peer_static_handshake_public_key)
    connection.(ConnectedTransport.peer_identity_public_key) now d.(Daemon.runtime).(RuntimeState.effective_privacy_profile) Client challenge.

End Outbound.

(** ** Both sides *)

Section Connection.
Context {St : Type} `{Store St} `{Primitives, Curves} `{HashOrder Invitation.t}.
Implicit Types d : Daemon.t St.

(** From the SERVER_HELLO on: CLIENT_AUTH, SERVER_FINISHED and CLIENT_FINISHED
    cross, and the daemon registers the session. *)
Definition finish_connection d (n : NodeSessions.t) (c : ClientSide.t) (carrier : string) (expected : option (list u8))
    (client_ephemeral : StaticHandshakeKeyPair.t) (hello : ClientHello.t) (hello_bytes : list u8) (retry_context : option (list u8))
    (dcid scid server_hello_bytes : list u8) (w : Handshaking.t) (challenge : list u8)
    : Result Failure (ConnectedTransport.t * NodeSessions.t * Result Failure u64) * Daemon.t St :=
  match auth_flight c client_ephemeral hello carrier retry_context expected dcid scid server_hello_bytes with
  | Err e => (Err e, d)
  | Ok (server_hello, out, auth_body, packet) =>
      match handle_auth d w packet with
      | (Err e, d) => (Err e, d)
      | (Ok (finished_packet, confirming), d) =>
          match finished_flight c carrier hello_bytes retry_context server_hello out auth_body dcid scid finished_packet with
          | Err e => (Err e, d)
          | Ok packet =>
              let '(transport, n) := connected n dcid out in
              let '(registered, d) := handle_finished d confirming packet challenge in
              (Ok (transport, n, registered), d)
          end
      end
  end.

(** One dial: the Initial packet and what the daemon answers. *)
Definition dial d (carrier : string) (now : u64) (hello : ClientHello.t) (hello_bytes dcid scid : list u8) (retry_count : u8)
    (nonce : list u8) (server_ephemeral : StaticHandshakeKeyPair.t) (server_random challenge : list u8)
    : Result NodeError (Reply * option Handshaking.t) * Daemon.t St :=
  match initial_flight dcid scid hello_bytes hello.(ClientHello.retry_token) with
  | Err e => (Err (HandshakeFailed e), d)
  | Ok packet =>
      match handle_first d carrier now packet nonce server_ephemeral server_random challenge with
      | (Waiting reply w, d) => (r ← read_reply hello hello_bytes dcid scid retry_count reply; Ok (r, Some w), d)
      | (Replied reply _, d) => (r ← read_reply hello hello_bytes dcid scid retry_count reply; Ok (r, None), d)
      | (Resumed reply _, d) => (r ← read_reply hello hello_bytes dcid scid retry_count reply; Ok (r, None), d)
      | (Refused e, d) => (Err (HandshakeFailed e), d)
      end
  end.

(** A whole attempt: dialled at [now], and at [later] again after a Retry. *)
Definition connection d (n : NodeSessions.t) (c : ClientSide.t) (carrier : string) (expected : option (list u8))
    (client_random : list u8) (client_ephemeral : StaticHandshakeKeyPair.t) (dcid scid : list u8) (now later : u64) (nonce : list u8)
    (server_ephemeral : StaticHandshakeKeyPair.t) (server_random challenge : list u8)
    : Result NodeError (ConnectedTransport.t * NodeSessions.t * Result Failure u64) * Daemon.t St :=
  let finish d hello hello_bytes retry_context server_hello_bytes w :=
    let '(r, d) := finish_connection d n c carrier expected client_ephemeral hello hello_bytes retry_context dcid scid
                     server_hello_bytes w challenge in
    (map_err HandshakeFailed r, d) in
  match client_hello c client_random client_ephemeral [] with
  | Err e => (Err (HandshakeFailed e), d)
  | Ok (hello, hello_bytes) =>
      match dial d carrier now hello hello_bytes dcid scid 0 nonce server_ephemeral server_random challenge with
      | (Ok (HelloReply payload, Some w), d) => finish d hello hello_bytes None payload w
      | (Ok (RetryReply hello hello_bytes retry_context, _), d) =>
          match dial d carrier later hello hello_bytes dcid scid 1 nonce server_ephemeral server_random challenge with
          | (Ok (HelloReply payload, Some w), d) => finish d hello hello_bytes (Some retry_context) payload w
          | (Ok _, d) => (Err (HandshakeFailed (Message "no answer")), d)
          | (Err e, d) => (Err e, d)
          end
      | (Ok _, d) => (Err (HandshakeFailed (Message "no answer")), d)
      | (Err e, d) => (Err e, d)
      end
  end.

(** One attempt to resume; what the daemon made of it comes third. *)
Definition resumption d (n : NodeSessions.t) (c : ClientSide.t) (carrier : string) (ticket resumption_secret client_random : list u8)
    (client_ephemeral : StaticHandshakeKeyPair.t) (dcid scid : list u8) (now : u64) (nonce : list u8)
    (server_ephemeral : StaticHandshakeKeyPair.t) (server_random challenge : list u8)
    : Result NodeError (ConnectedTransport.t * NodeSessions.t * Result Failure u64) * Daemon.t St :=
  match
    '(_, hello_bytes, ticket_nonce) ← resume_hello c client_random client_ephemeral ticket;
    packet ← initial_flight dcid scid hello_bytes [];
    Ok (hello_bytes, ticket_nonce, packet)
  with
  | Err e => (Err (HandshakeFailed e), d)
  | Ok (hello_bytes, ticket_nonce, packet) =>
      let read reply registered :=
        payload ← read_server_packet dcid scid reply;
        '(transport, n) ← map_err HandshakeFailed
          (resume_client n c client_ephemeral carrier hello_bytes ticket_nonce resumption_secret dcid payload);
        Ok (transport, n, registered) in
      match handle_first d carrier now packet nonce server_ephemeral server_random challenge with
      | (Resumed reply id, d) => (read reply (Ok id), d)
      | (Replied reply e, d) => (read reply (Err e), d)
      | (Waiting reply _, d) => (read reply (Err (Message "not resumed")), d)
      | (Refused e, d) => (Err (HandshakeFailed e), d)
      end
  end.

End Connection.

(** ** Lemmas *)

Section Packets.
Context {St : Type} `{HS : Store St} `{HP : Primitives} {HPL : PrimitiveLaws} `{HC : Curves} {HCL : CurveLaws} {HT : AeadTotal}.
Context `{HO : HashOrder Invitation.t}.
Implicit Types d : Daemon.t St.

(** The daemon takes the Initial packet of a dial apart. *)
Lemma first_flight marker random ce mode token hello hb dcid scid header_token :
  written_hello marker random ce mode token hello hb -> len dcid = 8 -> len scid <= MAX_CONNECTION_ID_LEN -> len header_token <= MAX_TOKEN_LEN ->
  exists packet, initial_flight dcid scid hb header_token = Ok packet /\ read_first packet = Ok (Inbound.mk dcid scid hb hello dcid) /\
    initial_token packet = Some header_token.
Proof.
  intros Hh Hd Hs Ht. destruct (initial_keys_Ok dcid) as [keys Hk].
  destruct (initial_built dcid scid 0 hb header_token keys.(InitialKeys.client)) as (k & packet & Hb & Hp & Hl & Hdc & Hto & _);
    [by rewrite Hd|done|done|done|by apply Hh|].
  exists packet. split; [unfold initial_flight; by rewrite Hk|]. split; [|done].
  unfold read_first, try_parse_initial. rewrite Hdc. cbn [mbind option_bind]. rewrite Hk. cbn [ok mbind option_bind]. rewrite Hp.
  cbn [ok_or mbind Result_bind]. rewrite (hello_extracted hello hb k (written_sized Hh) (written_version Hh) (written_encode Hh) Hl).
  cbn [mbind Result_bind]. rewrite (written_decode Hh). cbn [map_err mbind Result_bind].
  unfold session_dcid_from_initial. rewrite Hd. done.
Qed.

(** The client finds the SERVER_HELLO in the daemon's answer, padding after it. *)
Lemma answer_read i sh shb :
  len i.(Inbound.client_scid) <= MAX_CONNECTION_ID_LEN -> ServerHello.sized sh -> ServerHello.encode sh = Ok shb ->
  len shb <= Encoding.MAX_HANDSHAKE_MESSAGE ->
  exists reply payload, initial_response i shb = Ok reply /\
    (forall hello hb retry_count, read_reply hello hb i.(Inbound.header_dcid) i.(Inbound.client_scid) retry_count reply = Ok (HelloReply payload)) /\
    read_server_packet i.(Inbound.header_dcid) i.(Inbound.client_scid) reply = Ok payload /\ ServerHello.decode payload = Ok sh.
Proof.
  intros Hs Hsz He Hl. destruct (initial_keys_Ok i.(Inbound.header_dcid)) as [keys Hk].
  destruct (initial_built i.(Inbound.client_scid) (session_dcid i.(Inbound.hello)) 0 shb [] keys.(InitialKeys.server))
    as (k & reply & Hb & Hp & Hlen & Hdc & _); [done| |done|done|exact Hl|].
  { unfold session_dcid, len. rewrite length_take. unfold MAX_CONNECTION_ID_LEN. lia. }
  exists reply, (shb ++ zeros k). split; [unfold initial_response; rewrite Hk; exact Hb|].
  destruct (initial_is_no_other _ _ Hdc) as [[e Hre] Hvn].
  assert (Hread : read_server_packet i.(Inbound.header_dcid) i.(Inbound.client_scid) reply = Ok (shb ++ zeros k)).
  { unfold read_server_packet. rewrite Hvn, Hk. cbn [mbind Result_bind]. unfold parse_initial_response. rewrite Hp. done. }
  split; [|split; [exact Hread|]].
  - intros hello hb retry_count. unfold read_reply, decode_retry_packet, parse_retry_packet_inner. rewrite Hre. cbn [mbind Result_bind].
    rewrite Hread. done.
  - by apply server_hello_decode.
Qed.

(** What the exchange of the hellos leaves both sides with. *)
Definition answered (st : RuntimeState.t St) (c : ClientSide.t) (carrier : string) (ce se : StaticHandshakeKeyPair.t) (hello : ClientHello.t)
    (hb : list u8) (retry : option (list u8)) (payload : list u8) (p : HandshakePending.t) : Prop :=
  exists sh shb t1,
    p = pending_of st ce se p.(HandshakePending.transcript) st.(RuntimeState.effective_privacy_profile) /\
    ServerHello.decode payload = Ok sh /\ server_realm_marker sh = Some c.(ClientSide.realm_marker) /\
    complete_client_side_with_mode ce ce hello sh (bstr carrier) MODE_XX None retry = Ok (output_of st p) /\
    first_transcript (bstr carrier) hb retry = Ok t1 /\ ServerHello.encode sh = Ok shb /\
    Transcript.update_message t1 Encoding.SERVER_HELLO shb = Ok p.(HandshakePending.transcript) /\ awaiting p.

Lemma first_answered d c carrier now packet random ce token hello hb dcid scid retry nonce se srandom challenge retry_count :
  written_hello c.(ClientSide.realm_marker) random ce MODE_XX token hello hb -> open_responder d.(Daemon.runtime) (bstr carrier) -> utf8 (bstr carrier) = true ->
  c.(ClientSide.realm_marker) = d.(Daemon.runtime).(RuntimeState.realm_marker) -> len srandom = 32 -> len scid <= MAX_CONNECTION_ID_LEN ->
  read_first packet = Ok (Inbound.mk dcid scid hb hello dcid) -> DaemonTracker.check d.(Daemon.tracker) dcid now = Ok tt ->
  retry_gate d carrier packet (Inbound.mk dcid scid hb hello dcid) now nonce = Ok (Passed retry) -> len (default [] retry) <= 1024 ->
  exists reply payload p,
    handle_first d carrier now packet nonce se srandom challenge =
      (Waiting reply (Handshaking.mk carrier dcid scid hello p now),
       d <| Daemon.tracker := DaemonTracker.record d.(Daemon.tracker) dcid now |>) /\
    read_reply hello hb dcid scid retry_count reply = Ok (HelloReply payload) /\
    answered d.(Daemon.runtime) c carrier ce se hello hb retry payload p.
Proof.
  intros Hh Hopen Hutf Hmk Hsr Hs Hrf Htr Hgate Hret. set (st := d.(Daemon.runtime)) in *.
  pose proof Hopen as (Hcd & Hpv & Hcp & _ & Hgood & Hbs & _). rewrite Hutf in Hcd.
  destruct (hellos_exchanged st (bstr carrier) hello hb retry ce se srandom st.(RuntimeState.effective_privacy_profile)
              (written_encode Hh) (written_ephemeral Hh) (written_len Hh) Hret Hsr Hgood Hbs)
    as (sh & shb & t1 & t2 & Hans & Hshd & Hshm & Hcomp & Ht1 & Hshe & Ht2 & Hl2 & Hb2 & Hshs & Hshl).
  set (i := Inbound.mk dcid scid hb hello dcid) in *.
  destruct (answer_read i sh shb Hs Hshs Hshe Hshl) as (reply & payload & Hrep & Hread & _ & Hpay).
  exists reply, payload, (pending_of st ce se t2 st.(RuntimeState.effective_privacy_profile)).
  split; [|split; [apply Hread|by exists sh, shb, t1; split_and!; rewrite ?Hmk]].
  unfold handle_first. rewrite Hrf. cbn [mbind Result_bind]. cbn [Inbound.dcid i]. rewrite Htr. cbn [map_err mbind Result_bind].
  fold st. rewrite Hcd, Hcp, Hpv. fold i. rewrite Hgate. unfold resumed_ticket, answer_link, admit_by_invitation, offers.
  cbn [Inbound.hello i]. rewrite (written_modes Hh). cbn [existsb].
  rewrite !bool_decide_eq_false_2 by done. cbn [orb]. cbv iota.
  cbn [Inbound.hello_bytes Inbound.dcid Inbound.client_scid i]. fold st.
  rewrite (hello_answered st (bstr carrier) hello hb _ dcid scid retry se srandom Hopen (written_decode Hh)
             (eq_trans (written_marker Hh) (f_equal Some Hmk)) (written_modes Hh) (written_versions Hh)
             (written_privacy Hh) (written_caps Hh)).
  rewrite (written_ephemeral Hh), Hans. fold i. rewrite Hrep. done.
Qed.

Lemma retry_packet_Ok version dcid scid token key :
  version <> 0 -> len dcid <= MAX_CONNECTION_ID_LEN -> len scid <= MAX_CONNECTION_ID_LEN -> len token <= MAX_TOKEN_LEN ->
  exists packet, build_retry_packet version dcid scid token key = Ok packet.
Proof.
  intros Hv Hd Hs Ht. unfold build_retry_packet. rewrite (proj2 (N.eqb_neq _ _)) by done. rewrite !(proj2 (N.ltb_ge _ _)) by done. cbn [orb].
  destruct (writes_varint (fun _ => RetryTokenTooLong) (len token)) with
    (out := [HeaderByte.encode HeaderByte.LONG_RETRY] ++ to_be_bytes 4 version ++ [len dcid] ++ dcid ++ [len scid] ++ scid) as (bs & E & _).
  { unfold MAX_TOKEN_LEN, MAX_VARINT in *. lia. }
  unfold put_varint_or in E. rewrite E. cbn [mbind Result_bind]. by eexists.
Qed.

(** The token issued to a hello is the one its repetition passes with, and both
    sides mix the same context into the transcript. *)
Lemma retry_issued d c carrier now later packet random ce hello hb dcid scid nonce se srandom challenge :
  d.(Daemon.require_retry) = true ->
  client_hello c random ce [] = Ok (hello, hb) -> written_hello c.(ClientSide.realm_marker) random ce MODE_XX [] hello hb -> open_responder d.(Daemon.runtime) (bstr carrier) -> utf8 (bstr carrier) = true ->
  good_marker c.(ClientSide.realm_marker) -> len random = 32 -> len dcid = 8 -> len scid <= MAX_CONNECTION_ID_LEN -> len nonce = 16 ->
  now + RETRY_VALIDITY_MS <= u64_max -> later < now + RETRY_VALIDITY_MS ->
  read_first packet = Ok (Inbound.mk dcid scid hb hello dcid) -> initial_token packet = Some [] ->
  DaemonTracker.check d.(Daemon.tracker) dcid now = Ok tt ->
  exists reply token hello' hb' context,
    handle_first d carrier now packet nonce se srandom challenge = (Replied reply (Message "stateless retry issued"), d) /\
    read_reply hello hb dcid scid 0 reply = Ok (RetryReply hello' hb' context) /\
    client_hello c random ce token = Ok (hello', hb') /\ written_hello c.(ClientSide.realm_marker) random ce MODE_XX token hello' hb' /\ len token <= 1024 /\ len context = 32 /\
    forall packet', initial_token packet' = Some token ->
      retry_gate d carrier packet' (Inbound.mk dcid scid hb' hello' dcid) later nonce = Ok (Passed (Some context)).
Proof.
  intros Hreq Hcall Hh Hopen Hutf Hgood Hr Hd Hs Hn Hmax Hlater Hrf Htok Htr.
  pose proof Hopen as (Hcd & Hpv & Hcp & _). rewrite Hutf in Hcd.
  assert (Hsat : saturating_add now RETRY_VALIDITY_MS = now + RETRY_VALIDITY_MS) by (unfold saturating_add; lia).
  assert (Hsc : len (take 8 nonce) = 8) by (unfold len in *; rewrite length_take; lia).
  set (pl := RetryPayload.mk 1 (take 8 nonce) dcid random (blake2s (StaticHandshakeKeyPair.public ce)) (retry_carrier_binding_hash carrier) now
               (now + RETRY_VALIDITY_MS) nonce).
  destruct (retry_token_read d.(Daemon.retry_key) pl now later) as (token & Hi & Htl & Hval).
  { unfold RetryPayload.sized, pl, retry_carrier_binding_hash. cbn. rewrite !blake2s_len. split_and!; done || lia. }
  { done. } { cbn. lia. } { cbn. lia. } { cbn. unfold RETRY_VALIDITY_MS. lia. } { cbn. lia. } { done. }
  cbn [RetryPayload.expires_at pl] in Hval. rewrite (proj2 (N.leb_gt _ _) Hlater) in Hval.
  destruct (retry_packet_Ok SUPPORTED_PROTOCOL_VERSION scid (take 8 nonce) token d.(Daemon.retry_key)) as [reply Hreply];
    [done|done|unfold MAX_CONNECTION_ID_LEN; lia|unfold MAX_TOKEN_LEN; lia|].
  destruct (client_hello_made c random ce token Hr) as (hello' & hb' & Hcall' & Hh'); [lia|done|].
  destruct (client_hello_token _ _ _ _ _ _ _ _ _ Hcall Hcall') as [Hh2 _].
  exists reply, token, hello', hb', (retry_context hb reply). split; [|split; [|split; [done|split; [done|split; [lia|split; [apply blake2s_len|]]]]]].
  - unfold handle_first. rewrite Hrf. cbn [mbind Result_bind]. cbn [Inbound.dcid]. rewrite Htr. cbn [map_err mbind Result_bind].
    rewrite Hcd, Hcp, Hpv. unfold retry_gate. rewrite Hreq. unfold offers. cbn [Inbound.hello]. rewrite (written_modes Hh). cbn [existsb].
    rewrite bool_decide_eq_true_2 by done. cbn [orb andb]. rewrite Htok. cbn [default]. change (@len u8 [] =? 0) with true. cbv iota.
    unfold issue_retry. cbn [Inbound.hello Inbound.header_dcid Inbound.client_scid]. rewrite Hsat, (written_random Hh), (written_ephemeral Hh).
    fold pl. rewrite Hi. cbn [map_err mbind Result_bind]. rewrite Hreply. done.
  - assert (Hver : SUPPORTED_PROTOCOL_VERSION <= u32_max) by (by vm_compute).
    destruct (retry_packet_read _ _ _ _ _ _ Hver Hreply) as [_ Hdr]. unfold read_reply. rewrite Hdr.
    change (1 <=? 0) with false. cbv iota. cbn [RetryPacket.destination_connection_id RetryPacket.token].
    rewrite bool_decide_eq_true_2 by done. cbn [negb]. rewrite (proj2 (N.eqb_neq _ _)) by lia. cbv zeta.
    rewrite <- Hh2, (written_encode Hh'). done.
  - intros packet' Htok'. unfold retry_gate. rewrite Hreq. unfold offers. cbn [Inbound.hello]. rewrite (written_modes Hh'). cbn [existsb].
    rewrite bool_decide_eq_true_2 by done. cbn [orb andb]. rewrite Htok'. change (default [] (Some token)) with token.
    rewrite (proj2 (N.eqb_neq (len token) 0)) by lia.
    unfold check_retry. rewrite Hval. cbn [map_err mbind Result_bind]. cbn [Inbound.hello Inbound.header_dcid Inbound.client_scid].
    assert (Hback : hello' <| ClientHello.retry_token := [] |> = hello).
    { rewrite Hh2. pose proof (written_token Hh) as E. destruct hello. cbn in *. by rewrite E. }
    rewrite Hback, (written_encode Hh). cbn [map_err mbind Result_bind].
    rewrite (written_random Hh'), (written_ephemeral Hh'), (written_token Hh').
    cbn [RetryPayload.original_destination_connection_id RetryPayload.client_random RetryPayload.client_ephemeral_public_key_hash
         RetryPayload.carrier_binding_hash RetryPayload.source_context pl].
    rewrite !bool_decide_eq_true_2 by done. rewrite Hsc. cbn [negb orb N.eqb Pos.eqb]. rewrite Hreply. done.
Qed.

(** A message sent in a Handshake packet arrives. *)
Lemma message_carried dcid scid pn ty body keys :
  len dcid <= MAX_CONNECTION_ID_LEN -> len scid <= MAX_CONNECTION_ID_LEN -> pn <= u8_max -> ty <= MAX_VARINT ->
  len body <= Encoding.MAX_HANDSHAKE_MESSAGE ->
  exists frame packet, Encoding.encode_message ty body [] = Ok frame /\ build_handshake_packet dcid scid pn frame keys = Ok packet /\
    decode_handshake_message ty packet keys = Ok body.
Proof.
  intros Hd Hs Hn Ht Hb. destruct (message_writes ty body Ht Hb []) as (frame & E & _). cbn [app] in E.
  destruct (handshake_message_read dcid scid pn ty body frame keys Hd Hs Hn E) as (packet & ? & ?). by exists frame, packet.
Qed.

Lemma updated_sized t ty body t' : Transcript.update_message t ty body = Ok t' -> len body <= Encoding.MAX_HANDSHAKE_MESSAGE.
Proof.
  intros (n & _ & H)%bind_Ok. destruct (_ <? _); [done|]. apply bind_Ok in H as (frame & H%map_err_Ok & _). by apply message_sized in H as [? _].
Qed.

(** The registration a handshake ends in: the daemon seals with the server's
    secret and opens with the client's. *)
Definition register_client d (carrier : string) (dcid : list u8) (c : ClientSide.t) (secrets : SessionSecrets.t) (now : u64) (challenge : list u8)
    : Result Failure u64 * Daemon.t St :=
  register_session_locked d carrier dcid secrets.(SessionSecrets.server) secrets.(SessionSecrets.client)
    (Some secrets.(SessionSecrets.stateless_reset)) (Some secrets.(SessionSecrets.resumption))
    (endpoint_id (IdentityKeyPair.public c.(ClientSide.identity)))
    (Some (StaticHandshakeKeyPair.public c.(ClientSide.static_handshake))) (Some (IdentityKeyPair.public c.(ClientSide.identity)))
    now d.(Daemon.runtime).(RuntimeState.effective_privacy_profile) Server challenge.

(** The daemon, given CLIENT_AUTH and CLIENT_FINISHED of a client it completes with. *)
Lemma auth_handled d w packet reply frame body fin keys server_keys peer machine :
  let p := w.(Handshaking.pending) in
  let now := w.(Handshaking.started_at) in
  PacketKeys.from_traffic_secret (handshake_traffic_secret p true) = Ok keys ->
  PacketKeys.from_traffic_secret (handshake_traffic_secret p false) = Ok server_keys ->
  decode_handshake_message Encoding.CLIENT_AUTH packet keys = Ok body ->
  complete_inner p d.(Daemon.runtime) body now = Ok (fin, peer, machine) ->
  (validate_peer_binding d peer.(PeerIdentity.binding) now).1 = Ok tt ->
  Encoding.encode_message Encoding.SERVER_FINISHED fin [] = Ok frame ->
  build_handshake_packet w.(Handshaking.client_scid) (session_dcid w.(Handshaking.hello)) 0 frame server_keys = Ok reply ->
  handle_auth d w packet =
    (Ok (reply, Confirming.mk w (HandshakePending.with_machine p machine) keys body fin p.(HandshakePending.session_secrets) peer),
     (validate_peer_binding d peer.(PeerIdentity.binding) now).2).
Proof.
  intros p now Hck Hsk Hr Hci Hval Hf Hk. unfold handle_auth. fold p now. rewrite Hck. cbn [map_err mbind Result_bind].
  unfold decode_client_auth. rewrite Hr. cbn [mbind Result_bind]. unfold complete. rewrite Hci. cbn [mbind Result_bind].
  destruct (validate_peer_binding d peer.(PeerIdentity.binding) now) as [v d1]. cbn [fst snd] in *. subst v.
  cbn [mbind Result_bind]. rewrite Hf. cbn [map_err mbind Result_bind].
  change (handshake_traffic_secret (HandshakePending.with_machine p machine) false) with (handshake_traffic_secret p false).
  rewrite Hsk. cbn [map_err mbind Result_bind]. rewrite Hk. done.
Qed.

Lemma finished_handled d cf packet conf challenge :
  let w := cf.(Confirming.link) in
  let secrets := cf.(Confirming.secrets) in
  let binding := cf.(Confirming.peer).(PeerIdentity.binding) in
  decode_handshake_message Encoding.CLIENT_FINISHED packet cf.(Confirming.client_handshake_keys) = Ok conf ->
  confirm_client cf.(Confirming.pending) cf.(Confirming.auth_bytes) cf.(Confirming.server_finished) conf =
    (Ok tt, HandshakePending.with_machine cf.(Confirming.pending) (HandshakeMachine.mk Confirmed true true)) ->
  handle_finished d cf packet challenge =
    register_session_locked d w.(Handshaking.carrier_type) w.(Handshaking.dcid) secrets.(SessionSecrets.server) secrets.(SessionSecrets.client)
      (Some secrets.(SessionSecrets.stateless_reset)) (Some secrets.(SessionSecrets.resumption)) binding.(IdentityBinding.endpoint_id)
      (Some cf.(Confirming.peer).(PeerIdentity.client_static_public_key)) (Some binding.(IdentityBinding.identity_public_key))
      w.(Handshaking.started_at) cf.(Confirming.pending).(HandshakePending.selected_privacy) Server challenge.
Proof.
  intros w secrets binding Hr Hconf. unfold handle_finished, decode_client_finished. rewrite Hr. cbn [mbind Result_bind]. rewrite Hconf.
  cbn [mbind Result_bind HandshakePending.with_machine HandshakePending.machine HandshakeMachine.state].
  rewrite bool_decide_eq_true_2 by done. done.
Qed.

Lemma validated_runtime d binding now :
  (validate_peer_binding d binding now).2.(Daemon.runtime).(RuntimeState.effective_privacy_profile) =
  d.(Daemon.runtime).(RuntimeState.effective_privacy_profile).
Proof.
  unfold validate_peer_binding. destruct (RevocationStore.check _ _ _) as [|[]]; try done. by destruct (TofuStore.observe _ _ _).
Qed.

Lemma connection_finishes d n c carrier expected ce se hello hb retry dcid scid payload p now depth challenge :
  answered d.(Daemon.runtime) c carrier ce se hello hb retry payload p -> bound c now -> delegated d.(Daemon.runtime) c now depth ->
  d.(Daemon.runtime).(RuntimeState.primary_binding).(IdentityBinding.identity_public_key) = IdentityKeyPair.public d.(Daemon.runtime).(RuntimeState.identity) ->
  (forall e, expected = Some e -> e = node_endpoint_id d) -> len dcid = 8 -> len scid <= MAX_CONNECTION_ID_LEN ->
  (validate_peer_binding d c.(ClientSide.binding) now).1 = Ok tt ->
  finish_connection d n c carrier expected ce hello hb retry dcid scid payload (Handshaking.mk carrier dcid scid hello p now) challenge =
    let d1 := (validate_peer_binding d c.(ClientSide.binding) now).2 in
    let '(transport, n') := connected n dcid (output_of d.(Daemon.runtime) p) in
    let '(registered, d') := register_client d1 carrier dcid c p.(HandshakePending.session_secrets) now challenge in
    (Ok (transport, n', registered), d').
Proof.
  intros (sh & shb & t1 & Hp & Hshd & Hshm & Hcomp & Ht1 & Hshe & Ht2 & Haw) Hc Hd Hid Hexp Hdl Hs Hval.
  set (st := d.(Daemon.runtime)) in *.
  destruct (auth_exchanged st c p now depth Hc Hd Haw) as (plaintext & ct & body & t3 & t4 & Hpl & Hct & Hbody & Ht3 & Hci & Ht4).
  cbv zeta in Hci, Ht4. set (fin := build_server_finished _ _ _ _ _ _ _) in *. pose proof Hc as (_ & Hv & Hik & _).
  set (p' := HandshakePending.with_machine p (HandshakeMachine.mk SessionKeys true false)).
  assert (Heid : c.(ClientSide.binding).(IdentityBinding.endpoint_id) = endpoint_id (IdentityKeyPair.public c.(ClientSide.identity))).
  { rewrite (validated_endpoint _ _ _ Hv). by rewrite Hik. }
  destruct (finished_exchanged st c p' (bstr carrier) hb retry sh shb t1 p.(HandshakePending.transcript) (output_of st p) body t3 t4 fin
              c.(ClientSide.binding).(IdentityBinding.endpoint_id)) as (conf & Hfin & Hconf & Hcl); try done.
  destruct (packet_keys_Ok (handshake_traffic_secret p true)) as [ck Hck].
  destruct (packet_keys_Ok (handshake_traffic_secret p false)) as [sk Hsk].
  assert (Hd20 : len dcid <= MAX_CONNECTION_ID_LEN) by (rewrite Hdl; done).
  assert (Hsd20 : len (session_dcid hello) <= MAX_CONNECTION_ID_LEN).
  { unfold session_dcid, len. rewrite length_take. unfold MAX_CONNECTION_ID_LEN. lia. }
  destruct (message_carried dcid scid 0 Encoding.CLIENT_AUTH body ck) as (f1 & k1 & Hf1 & Hk1 & Hr1); [done..|by eapply updated_sized|].
  destruct (message_carried scid (session_dcid hello) 0 Encoding.SERVER_FINISHED fin sk) as (f2 & k2 & Hf2 & Hk2 & Hr2);
    [done..|by eapply updated_sized|].
  destruct (message_carried dcid scid 1 Encoding.CLIENT_FINISHED conf ck) as (f3 & k3 & Hf3 & Hk3 & Hr3); [done..|by rewrite Hcl|].
  assert (Hkt : client_handshake_keys (output_of st p) true = Ok ck) 
    by (change (traffic_keys (handshake_traffic_secret p true) = Ok ck); unfold traffic_keys; by rewrite Hck).
  assert (Hks : client_handshake_keys (output_of st p) false = Ok sk) 
    by (change (traffic_keys (handshake_traffic_secret p false) = Ok sk); unfold traffic_keys; by rewrite Hsk).
  assert (Hflight : auth_flight c ce hello carrier retry expected dcid scid payload = Ok (sh, output_of st p, body, k1)).
  { unfold auth_flight. rewrite (client_answers st c p ce hello (bstr carrier) retry expected payload sh plaintext ct body Hshd Hshm Hcomp).
    - cbn [mbind Result_bind]. rewrite Hf1. cbn [map_err mbind Result_bind]. rewrite Hkt. cbn [mbind Result_bind]. by rewrite Hk1.
    - intros e He. rewrite (Hexp e He), Hp. cbn. by rewrite Hid.
    - done.
    - done.
    - done. }
  unfold finish_connection. rewrite Hflight. clear Hflight.
  set (w := Handshaking.mk carrier dcid scid hello p now).
  set (peer := PeerIdentity.mk (StaticHandshakeKeyPair.public c.(ClientSide.static_handshake)) c.(ClientSide.binding) depth) in *.
  rewrite (auth_handled d w k1 k2 f2 body fin ck sk peer _ Hck Hsk Hr1 Hci Hval Hf2 Hk2).
  unfold finished_flight. rewrite Hks. cbn [mbind Result_bind]. rewrite Hr2. cbn [mbind Result_bind].
  rewrite Hfin. cbn [mbind Result_bind]. rewrite Hf3. cbn [map_err mbind Result_bind]. rewrite Hkt. cbn [mbind Result_bind]. rewrite Hk3.
  cbn [map_err]. cbv zeta. destruct (connected n dcid (output_of st p)) as [transport n'].
  rewrite (finished_handled _ (Confirming.mk w p' ck body fin p.(HandshakePending.session_secrets) peer) k3 conf challenge Hr3 Hconf).
  assert (Hpr : p.(HandshakePending.selected_privacy) = st.(RuntimeState.effective_privacy_profile)) by (by rewrite Hp).
  unfold register_client. rewrite validated_runtime. fold st. rewrite <- Hpr, <- Heid, <- Hik. done.
Qed.


(** A dial that is answered, and one that meets a Retry. *)
Lemma dial_answered d c carrier now random ce token hello hb dcid scid retry nonce se srandom challenge retry_count :
  written_hello c.(ClientSide.realm_marker) random ce MODE_XX token hello hb -> open_responder d.(Daemon.runtime) (bstr carrier) -> utf8 (bstr carrier) = true ->
  c.(ClientSide.realm_marker) = d.(Daemon.runtime).(RuntimeState.realm_marker) -> len srandom = 32 ->
  len dcid = 8 -> len scid <= MAX_CONNECTION_ID_LEN -> len token <= MAX_TOKEN_LEN ->
  DaemonTracker.check d.(Daemon.tracker) dcid now = Ok tt ->
  (forall packet, initial_token packet = Some token ->
     retry_gate d carrier packet (Inbound.mk dcid scid hb hello dcid) now nonce = Ok (Passed retry)) ->
  len (default [] retry) <= 1024 ->
  exists payload p,
    dial d carrier now hello hb dcid scid retry_count nonce se srandom challenge =
      (Ok (HelloReply payload, Some (Handshaking.mk carrier dcid scid hello p now)),
       d <| Daemon.tracker := DaemonTracker.record d.(Daemon.tracker) dcid now |>) /\
    answered d.(Daemon.runtime) c carrier ce se hello hb retry payload p.
Proof.
  intros Hh Hopen Hutf Hmk Hsr Hd Hs Ht Htr Hgate Hret.
  destruct (first_flight _ random ce _ token hello hb dcid scid token Hh Hd Hs Ht) as (packet & Hp & Hrf & Hto).
  destruct (first_answered d c carrier now packet random ce token hello hb dcid scid retry nonce se srandom challenge retry_count)
    as (reply & payload & p & Hf & Hread & Hans); try done; [by apply Hgate|].
  exists payload, p. split; [|done]. unfold dial. rewrite (written_token Hh), Hp, Hf, Hread. done.
Qed.

Lemma dial_retried d c carrier now later random ce hello hb dcid scid nonce se srandom challenge :
  d.(Daemon.require_retry) = true ->
  client_hello c random ce [] = Ok (hello, hb) -> written_hello c.(ClientSide.realm_marker) random ce MODE_XX [] hello hb -> open_responder d.(Daemon.runtime) (bstr carrier) -> utf8 (bstr carrier) = true ->
  good_marker c.(ClientSide.realm_marker) -> len random = 32 -> len dcid = 8 -> len scid <= MAX_CONNECTION_ID_LEN -> len nonce = 16 ->
  now + RETRY_VALIDITY_MS <= u64_max -> later < now + RETRY_VALIDITY_MS ->
  DaemonTracker.check d.(Daemon.tracker) dcid now = Ok tt ->
  exists token hello' hb' context,
    dial d carrier now hello hb dcid scid 0 nonce se srandom challenge = (Ok (RetryReply hello' hb' context, None), d) /\
    client_hello c random ce token = Ok (hello', hb') /\ written_hello c.(ClientSide.realm_marker) random ce MODE_XX token hello' hb' /\ len token <= MAX_TOKEN_LEN /\ len context = 32 /\
    forall packet', initial_token packet' = Some token ->
      retry_gate d carrier packet' (Inbound.mk dcid scid hb' hello' dcid) later nonce = Ok (Passed (Some context)).
Proof.
  intros Hreq Hcall Hh Hopen Hutf Hgood Hr Hd Hs Hn Hmax Hlater Htr.
  destruct (first_flight _ random ce _ [] hello hb dcid scid [] Hh Hd Hs) as (packet & Hp & Hrf & Hto); [done|].
  destruct (retry_issued d c carrier now later packet random ce hello hb dcid scid nonce se srandom challenge)
    as (reply & token & hello' & hb' & context & Hf & Hread & Hcall' & Hh' & Htl & Hcl & Hgate); try done.
  exists token, hello', hb', context. split; [|by split_and!]. unfold dial.
  rewrite (written_token Hh), Hp, Hf, Hread. done.
Qed.

(** When the node takes the hello up that it answers. *)
Definition taken_up d (now later : u64) : u64 := if d.(Daemon.require_retry) then later else now.

(** What is left of an attempt once its hello is answered, with or without a Retry. *)
Lemma connection_dials d n c carrier expected random ce dcid scid now later nonce se srandom challenge :
  open_responder d.(Daemon.runtime) (bstr carrier) -> utf8 (bstr carrier) = true ->
  c.(ClientSide.realm_marker) = d.(Daemon.runtime).(RuntimeState.realm_marker) ->
  len random = 32 -> len srandom = 32 -> len dcid = 8 -> len scid <= MAX_CONNECTION_ID_LEN -> len nonce = 16 ->
  now + RETRY_VALIDITY_MS <= u64_max -> later < now + RETRY_VALIDITY_MS ->
  DaemonTracker.check d.(Daemon.tracker) dcid now = Ok tt -> DaemonTracker.check d.(Daemon.tracker) dcid later = Ok tt ->
  let at_ := taken_up d now later in
  let d0 := d <| Daemon.tracker := DaemonTracker.record d.(Daemon.tracker) dcid at_ |> in
  exists hello hb retry payload p,
    answered d0.(Daemon.runtime) c carrier ce se hello hb retry payload p /\
    connection d n c carrier expected random ce dcid scid now later nonce se srandom challenge =
      let '(r, d) := finish_connection d0 n c carrier expected ce hello hb retry dcid scid payload
                       (Handshaking.mk carrier dcid scid hello p at_) challenge in
      (map_err HandshakeFailed r, d).
Proof.
  intros Hopen Hutf Hmk Hr Hsr Hd Hs Hn Hmax Hlater Htr Htr' at_ d0. unfold taken_up in at_.
  assert (Hgood : good_marker c.(ClientSide.realm_marker)) by (rewrite Hmk; apply Hopen).
  destruct (client_hello_made c random ce [] Hr) as (hello & hb & Hcall & Hh); [done..|].
  destruct d.(Daemon.require_retry) eqn:Hreq.
  - destruct (dial_retried d c carrier now later random ce hello hb dcid scid nonce se srandom challenge)
      as (token & hello' & hb' & context & Hdial & Hcall' & Hh' & Htl & Hcl & Hgate); try done.
    destruct (dial_answered d c carrier later random ce token hello' hb' dcid scid (Some context) nonce se srandom challenge 1)
      as (payload & p & Hdial' & Hans); try done; [change (len context <= 1024); rewrite Hcl; done|].
    exists hello', hb', (Some context), payload, p. split; [done|]. unfold connection.
    rewrite Hcall, Hdial, Hdial'. done.
  - destruct (dial_answered d c carrier now random ce [] hello hb dcid scid None nonce se srandom challenge 0)
      as (payload & p & Hdial & Hans); try done; [intros packet _; unfold retry_gate; by rewrite Hreq|].
    exists hello, hb, None, payload, p. split; [done|]. unfold connection. rewrite Hcall, Hdial. done.
Qed.

(** Two registrations with the secrets crosswise: what one seals the other opens. *)
Lemma registered_linked {St'} `{HS' : Store St'} d dc carrier carrier' dcid dcid' l r reset reset' res res' peer peer' st st' idk idk' now now'
    pr pr' role role' ch ch' id id' d' (dc' : Daemon.t St') :
  register_session_locked d carrier dcid l r reset res peer st idk now pr role ch = (Ok id, d') ->
  register_session_locked dc carrier' dcid' r l reset' res' peer' st' idk' now' pr' role' ch' = (Ok id', dc') ->
  exists s s', d'.(Daemon.session_controls) !! id = Some s /\ dc'.(Daemon.session_controls) !! id' = Some s' /\ linked s s' /\ linked s' s.
Proof.
  intros (-> & _ & _ & _ & s & d1 & Hst & (? & ? & ? & ->) & ->)%register_cases (-> & _ & _ & _ & s' & d2 & Hst' & (? & ? & ? & ->) & ->)%register_cases.
  exists s, s'. split; [apply lookup_insert_eq|]. split; [apply lookup_insert_eq|]. unfold linked.
  pose proof (started_local _ _ _ _ _ _ _ _ _ Hst) as L. pose proof (started_remote _ _ _ _ _ _ _ _ _ Hst) as R.
  rewrite (started_remote _ _ _ _ _ _ _ _ _ Hst') in L. rewrite (started_local _ _ _ _ _ _ _ _ _ Hst') in R.
  destruct (started_hp _ _ _ _ _ _ _ _ _ Hst) as [-> ->], (started_hp _ _ _ _ _ _ _ _ _ Hst') as [-> ->].
  apply (inj Ok) in L, R. done.
Qed.


(** *** Resumption *)

Lemma resume_hello_made c random ce ticket nonce :
  len random = 32 -> len ticket <= 1024 -> good_marker c.(ClientSide.realm_marker) -> ticket_nonce ticket = Some nonce ->
  exists hello hb, resume_hello c random ce ticket = Ok (hello, hb, nonce) /\
    written_hello c.(ClientSide.realm_marker) random ce MODE_IK ticket hello hb.
Proof.
  intros Hr Ht Hm Hn. destruct (hello_written c.(ClientSide.realm_marker) random ce MODE_IK ticket Hr Ht) as (base & hb & Hb & _ & Hw); [done..|].
  eexists _, hb. split; [|exact Hw]. unfold resume_hello. rewrite Hb. cbn [mbind Result_bind]. cbv zeta.
  rewrite (written_encode Hw). cbn [map_err mbind Result_bind]. rewrite Hn. done.
Qed.

(** The bearer of a ticket may still resume: it is the node itself, acts on no
    delegation, or on one no revocation names. *)
Definition delegation_clear d (peer : list u8) (now : u64) : Prop :=
  peer = node_endpoint_id d \/
  exists chain, DelegationStore.valid_chain_for_endpoint_id (store_of d) peer now = Ok chain /\
    match chain with Some chain => RevocationStore.check_delegation (store_of d) chain now = Ok tt | None => True end.

Lemma ticket_checked d ticket now :
  ticket.(TicketPayload.server_endpoint_id_hash) = node_endpoint_id d ->
  ticket.(TicketPayload.protocol_version) = SUPPORTED_PROTOCOL_VERSION -> ticket.(TicketPayload.crypto_profile) = CRYPTO_PROFILE ->
  delegation_clear d ticket.(TicketPayload.client_endpoint_id_hash) now -> check_ticket d ticket now = Ok tt.
Proof.
  intros Hs Hv Hc Hd. unfold check_ticket. rewrite (bool_decide_eq_true_2 _ Hs), Hv, N.eqb_refl, (bool_decide_eq_true_2 _ Hc). cbn [negb].
  destruct Hd as [Hd|(chain & Hl & Hr)]; [by rewrite (bool_decide_eq_true_2 _ Hd)|]. destruct (bool_decide _); [done|]. cbn [negb].
  rewrite Hl. cbn [map_err mbind Result_bind]. destruct chain as [chain|]; [by rewrite Hr|done].
Qed.

Lemma resumed_privacy_of d hello carrier :
  open_responder d.(Daemon.runtime) carrier -> hello.(ClientHello.minimum_privacy) = DEFAULT_MINIMUM_PRIVACY_PROFILE ->
  capabilities_hash_for_minimum_privacy DEFAULT_MINIMUM_PRIVACY_PROFILE = Ok hello.(ClientHello.capabilities_hash) ->
  resumed_privacy d hello = Ok d.(Daemon.runtime).(RuntimeState.effective_privacy_profile).
Proof.
  intros (_ & _ & _ & Hpr & _) Hmin Hcaps. unfold resumed_privacy, ClientHello.minimum_privacy_level. rewrite Hmin, Hcaps.
  cbn [mbind Result_bind]. rewrite bool_decide_eq_true_2 by done. cbn [negb].
  change (privacy_profile_level DEFAULT_MINIMUM_PRIVACY_PROFILE) with (Some 0).
  change (privacy_profile_level MAX_SUPPORTED_PRIVACY_PROFILE) with (Some 3). cbn [ok_or mbind Result_bind].
  rewrite (proj2 (N.ltb_ge _ _)) by done. change (3 <? 0) with false. cbv iota. by rewrite N.max_0_l.
Qed.

(** What the client makes of the secrets of a resumption. *)
Definition resumed_transport (n : NodeSessions.t) (dcid : list u8) (resume : ResumeSecrets.t) : ConnectedTransport.t * NodeSessions.t :=
  let secrets :=
    SessionSecrets.mk resume.(ResumeSecrets.client) resume.(ResumeSecrets.server) (zeros 32) (zeros 32) (zeros 32) (zeros 32) (zeros 32) in
  (ConnectedTransport.mk n.(NodeSessions.next_session) dcid secrets (zeros 32) None None true, (NodeSessions.note n secrets (zeros 32)).2).

(** Both sides of a resumption derive the same secrets. *)
Lemma resume_exchanged d n c carrier random ce token hello hb ticket privacy se srandom dcid :
  written_hello c.(ClientSide.realm_marker) random ce MODE_IK token hello hb ->
  c.(ClientSide.realm_marker) = d.(Daemon.runtime).(RuntimeState.realm_marker) -> good_marker c.(ClientSide.realm_marker) ->
  len srandom = 32 -> len ticket.(TicketPayload.nonce) = TICKET_ENTROPY ->
  exists sh shb resume, resume_secrets d carrier hb hello ticket privacy se srandom = Ok (shb, resume) /\
    ServerHello.sized sh /\ ServerHello.encode sh = Ok shb /\ len shb <= Encoding.MAX_HANDSHAKE_MESSAGE /\
    forall payload, ServerHello.decode payload = Ok sh ->
      resume_client n c ce carrier hb ticket.(TicketPayload.nonce) ticket.(TicketPayload.resumption_secret) dcid payload =
        Ok (resumed_transport n dcid resume).
Proof.
  intros Hw Hmk Hgood Hsr Hn. destruct canonical_hash_made as [caps Hcan].
  destruct (server_hello_made srandom (StaticHandshakeKeyPair.public se) MODE_IK [] (blake2s caps) c.(ClientSide.realm_marker) privacy)
    as (shb & Hshb & _ & Hshl & Hcap & Hshm & Hshs); [done|apply static_public_len|done|done|apply blake2s_len|done|].
  cbv zeta in *. rewrite Hmk in Hshb at 1. set (sh := set_server_realm_marker _ _) in Hcap, Hshm, Hshs.
  destruct (update_message_Ok (Transcript.new MODE_IK CRYPTO_PROFILE (bstr carrier)) Encoding.CLIENT_HELLO hb) as (t1 & Ht1 & Hl1 & Hb1);
    [done|apply Hw|pose proof (written_len Hw); cbn [Transcript.new Transcript.total_bytes];
     unfold Transcript.MAX_TRANSCRIPT, Encoding.MAX_HANDSHAKE_MESSAGE in *; lia|].
  destruct (update_message_Ok t1 Encoding.SERVER_HELLO shb) as (t2 & Ht2 & _ & _);
    [done|done|pose proof (written_len Hw); cbn [Transcript.new Transcript.total_bytes] in Hb1;
     unfold Transcript.MAX_TRANSCRIPT, Encoding.MAX_HANDSHAKE_MESSAGE in *; lia|].
  destruct (resumption_psk_total ticket.(TicketPayload.resumption_secret) ticket.(TicketPayload.nonce)) as (psk & Hpsk & _);
    [rewrite Hn; done|].
  exists sh, shb. eexists. split; [|split; [done|split; [by rewrite <- Hmk in Hshb|split; [done|]]]].
  - unfold resume_secrets. rewrite Ht1. cbn [map_err mbind Result_bind]. rewrite Hcan. cbn [mbind Result_bind]. cbv zeta. rewrite Hshb.
    cbn [map_err mbind Result_bind]. rewrite Ht2. cbn [map_err mbind Result_bind]. rewrite Hpsk. cbn [ok_or mbind Result_bind].
    rewrite (written_ephemeral Hw). reflexivity.
  - intros payload Hp. unfold resume_client. rewrite Hp. cbn [map_err mbind Result_bind]. unfold realm_marker_matches.
    rewrite Hshm, bool_decide_eq_true_2 by done. cbn [negb]. rewrite (bool_decide_eq_true_2 (_ = MODE_IK)) by done. cbn [negb].
    rewrite Hcan. cbn [mbind Result_bind]. rewrite Hcap, bool_decide_eq_true_2 by done. cbn [negb]. rewrite Ht1. cbn [map_err mbind Result_bind].
    rewrite <- Hmk in Hshb. fold sh in Hshb. rewrite Hshb. cbn [map_err mbind Result_bind]. rewrite Ht2. cbn [map_err mbind Result_bind].
    rewrite Hpsk. cbn [ok_or mbind Result_bind].
    change (ServerHello.server_ephemeral_public_key sh) with (StaticHandshakeKeyPair.public se).
    unfold derive_resumption_secrets. rewrite (dh_agree ce se). reflexivity.
Qed.

(** The daemon once it has taken up a resumption. *)
Definition resuming d (nonce dcid : list u8) (now : u64) : Daemon.t St :=
  d <| Daemon.ticket_replay_cache := (TicketReplayCache.insert d.(Daemon.ticket_replay_cache) nonce).2 |>
    <| Daemon.tracker := DaemonTracker.record d.(Daemon.tracker) dcid now |>.

Definition register_resumed d (carrier : string) (dcid peer : list u8) (secrets : SessionSecrets.t) (now : u64) (challenge : list u8)
    : Result Failure u64 * Daemon.t St :=
  register_session_locked d carrier dcid secrets.(SessionSecrets.server) secrets.(SessionSecrets.client) None None peer None None now
    d.(Daemon.runtime).(RuntimeState.effective_privacy_profile) Server challenge.

Lemma fresh_nonce cache nonce : nonce ∉ cache.(TicketReplayCache.seen) -> (TicketReplayCache.insert cache nonce).1 = true.
Proof. intros H. unfold TicketReplayCache.insert. rewrite bool_decide_eq_false_2 by done. destruct (_ <? _); [by destruct (_ ++ _)|done]. Qed.

(** The daemon's side, given a ticket it still honours. *)
Lemma resumption_handled d marker random ce ticket p carrier packet dcid scid hello hb now rnonce se srandom challenge shb resume reply :
  let st := d.(Daemon.runtime) in
  let i := Inbound.mk dcid scid hb hello dcid in
  written_hello marker random ce MODE_IK ticket hello hb -> marker = st.(RuntimeState.realm_marker) ->
  open_responder st (bstr carrier) -> utf8 (bstr carrier) = true ->
  read_first packet = Ok i -> DaemonTracker.check d.(Daemon.tracker) dcid now = Ok tt ->
  validate_ticket d.(Daemon.ticket_key) ticket now = Ok p -> check_ticket d p now = Ok tt ->
  p.(TicketPayload.nonce) ∉ d.(Daemon.ticket_replay_cache).(TicketReplayCache.seen) ->
  resume_secrets d carrier hb hello p st.(RuntimeState.effective_privacy_profile) se srandom = Ok (shb, resume) ->
  initial_response i shb = Ok reply ->
  handle_first d carrier now packet rnonce se srandom challenge =
    let '(registered, d') :=
      register_session_locked (resuming d p.(TicketPayload.nonce) dcid now) carrier dcid resume.(ResumeSecrets.server) resume.(ResumeSecrets.client)
        None None p.(TicketPayload.client_endpoint_id_hash) None None now st.(RuntimeState.effective_privacy_profile) Server challenge in
    (match registered with Ok id => Resumed reply id | Err e => Replied reply e end, d').
Proof.
  intros st i Hw Hmk Hopen Hutf Hrf Htr Hval Hchk Hfresh Hres Hrep.
  pose proof Hopen as (Hcd & Hpv & Hcp & _). rewrite Hutf in Hcd. unfold handle_first. rewrite Hrf. cbn [mbind Result_bind]. cbn [Inbound.dcid i].
  rewrite Htr. cbn [map_err mbind Result_bind]. fold st. rewrite Hcd, Hcp, Hpv. unfold retry_gate, resumed_ticket, offers. cbn [Inbound.hello i].
  rewrite (written_modes Hw), (written_token Hw). cbn [existsb]. rewrite bool_decide_eq_false_2, bool_decide_eq_true_2 by done.
  cbn [orb]. rewrite andb_false_r. rewrite Hval. cbn [ok]. pose proof (fresh_nonce _ _ Hfresh) as Hfr. unfold resuming.
  destruct (TicketReplayCache.insert d.(Daemon.ticket_replay_cache) p.(TicketPayload.nonce)) as [fresh cache].
  cbn [fst] in Hfr. subst fresh. cbn [snd]. fold i.
  unfold handle_resumed_link. cbn [Inbound.hello i]. unfold realm_marker_matches.
  set (d1 := d <| Daemon.ticket_replay_cache := cache |>). change (d1.(Daemon.runtime)) with st.
  rewrite (written_marker Hw), Hmk, bool_decide_eq_true_2 by done. cbn [negb].
  rewrite (written_versions Hw). change (select_version [SUPPORTED_PROTOCOL_VERSION]) with (Some SUPPORTED_PROTOCOL_VERSION). cbv iota beta.
  rewrite (resumed_privacy_of d1 hello (bstr carrier)) by (done || apply Hw). cbn [mbind Result_bind].
  change (check_ticket d1 p now) with (check_ticket d p now). rewrite Hchk. cbn [mbind Result_bind]. cbn [Inbound.hello_bytes i].
  change (d1.(Daemon.runtime)) with st.
  change (resume_secrets d1 carrier hb hello p) with (resume_secrets d carrier hb hello p). rewrite Hres. cbn [mbind Result_bind]. fold i.
  rewrite Hrep. done.
Qed.

(** A ticket the daemon still honours, in a hello of its realm: the session is
    registered with the secrets the client derives. *)
Lemma resumption_answered d n c carrier ticket p random ce dcid scid now rnonce se srandom challenge :
  validate_ticket d.(Daemon.ticket_key) ticket now = Ok p -> ticket_nonce ticket = Some p.(TicketPayload.nonce) ->
  len ticket <= 1024 -> len p.(TicketPayload.nonce) = TICKET_ENTROPY ->
  p.(TicketPayload.nonce) ∉ d.(Daemon.ticket_replay_cache).(TicketReplayCache.seen) -> check_ticket d p now = Ok tt ->
  open_responder d.(Daemon.runtime) (bstr carrier) -> utf8 (bstr carrier) = true ->
  c.(ClientSide.realm_marker) = d.(Daemon.runtime).(RuntimeState.realm_marker) ->
  len random = 32 -> len srandom = 32 -> len dcid = 8 -> len scid <= MAX_CONNECTION_ID_LEN ->
  DaemonTracker.check d.(Daemon.tracker) dcid now = Ok tt ->
  exists resume registered d', let '(transport, n') := resumed_transport n dcid resume in
    register_resumed (resuming d p.(TicketPayload.nonce) dcid now) carrier dcid p.(TicketPayload.client_endpoint_id_hash)
      transport.(ConnectedTransport.secrets) now challenge = (registered, d') /\
    resumption d n c carrier ticket p.(TicketPayload.resumption_secret) random ce dcid scid now rnonce se srandom challenge =
      (Ok (transport, n', registered), d').
Proof.
  intros Hval Htn Htl Hnl Hfresh Hchk Hopen Hutf Hmk Hr Hsr Hd Hs Htr.
  assert (Hgood : good_marker c.(ClientSide.realm_marker)) by (rewrite Hmk; apply Hopen).
  destruct (resume_hello_made c random ce ticket _ Hr Htl Hgood Htn) as (hello & hb & Hcall & Hw).
  destruct (first_flight _ random ce _ ticket hello hb dcid scid [] Hw Hd Hs) as (packet & Hfl & Hrf & _); [done|].
  set (i := Inbound.mk dcid scid hb hello dcid) in *.
  destruct (resume_exchanged d n c carrier random ce ticket hello hb p d.(Daemon.runtime).(RuntimeState.effective_privacy_profile) se srandom dcid)
    as (sh & shb & resume & Hres & Hshs & Hshe & Hshl & Hclient); try done.
  destruct (answer_read i sh shb Hs Hshs Hshe Hshl) as (reply & payload & Hrep & _ & Hread & Hpay).
  destruct (register_resumed (resuming d p.(TicketPayload.nonce) dcid now) carrier dcid p.(TicketPayload.client_endpoint_id_hash)
              (resumed_transport n dcid resume).1.(ConnectedTransport.secrets) now challenge) as [registered d'] eqn:Hreg.
  exists resume, registered, d'. cbn [resumed_transport fst] in Hreg |- *. split; [exact Hreg|].
  pose proof (resumption_handled d _ random ce ticket p carrier packet dcid scid hello hb now rnonce se srandom challenge shb resume reply
    Hw Hmk Hopen Hutf Hrf Htr Hval Hchk Hfresh Hres Hrep) as Hfirst.
  change (register_session_locked _ carrier dcid _ _ _ _ _ _ _ now _ _ challenge) with
    (register_resumed (resuming d p.(TicketPayload.nonce) dcid now) carrier dcid p.(TicketPayload.client_endpoint_id_hash)
       (resumed_transport n dcid resume).1.(ConnectedTransport.secrets) now challenge) in Hfirst.
  cbn [resumed_transport fst] in Hfirst. rewrite Hreg in Hfirst.
  unfold resumption. rewrite Hcall. cbn [mbind Result_bind]. rewrite Hfl. cbn [mbind Result_bind]. rewrite Hfirst.
  specialize (Hclient payload Hpay). cbn [Inbound.header_dcid Inbound.client_scid i] in Hread. destruct registered; cbv zeta; rewrite Hread; cbn [mbind Result_bind]; rewrite Hclient; done.
Qed.

End Packets.

(** ** Properties *)

Section Established.
Context {St St' : Type} `{HS : Store St} `{HS' : Store St'} `{HP : Primitives} {HPL : PrimitiveLaws} `{HC : Curves} {HCL : CurveLaws}.
Context {HT : AeadTotal} `{HO : HashOrder Invitation.t}.

(** C3: A client with a valid binding that dials a node of its realm connects,
    through every packet of the handshake and through a Retry when the node asks
    for one: the client ends with the node's identity and static key and a session
    under the next identifier, the daemon goes on to register a session for this
    client with the same secrets crosswise, and once both daemons have registered
    theirs, each session opens what the other seals. *)
Theorem connection_established (d : Daemon.t St) n c carrier expected random ce dcid scid now later nonce se srandom challenge depth :
  let at_ := taken_up d now later in
  let d0 := d <| Daemon.tracker := DaemonTracker.record d.(Daemon.tracker) dcid at_ |> in
  open_responder d.(Daemon.runtime) (bstr carrier) -> utf8 (bstr carrier) = true ->
  c.(ClientSide.realm_marker) = d.(Daemon.runtime).(RuntimeState.realm_marker) ->
  bound c at_ -> delegated d.(Daemon.runtime) c at_ depth -> (validate_peer_binding d0 c.(ClientSide.binding) at_).1 = Ok tt ->
  (forall e, expected = Some e -> e = node_endpoint_id d) ->
  len random = 32 -> len srandom = 32 -> len dcid = 8 -> len scid <= MAX_CONNECTION_ID_LEN -> len nonce = 16 ->
  now + RETRY_VALIDITY_MS <= u64_max -> later < now + RETRY_VALIDITY_MS ->
  DaemonTracker.check d.(Daemon.tracker) dcid now = Ok tt -> DaemonTracker.check d.(Daemon.tracker) dcid later = Ok tt ->
  exists transport n' registered d',
    connection d n c carrier expected random ce dcid scid now later nonce se srandom challenge = (Ok (transport, n', registered), d') /\
    register_client (validate_peer_binding d0 c.(ClientSide.binding) at_).2 carrier dcid c transport.(ConnectedTransport.secrets) at_ challenge =
      (registered, d') /\
    transport.(ConnectedTransport.session_id) = n.(NodeSessions.next_session) /\
    transport.(ConnectedTransport.peer_endpoint_id) = node_endpoint_id d /\
    transport.(ConnectedTransport.peer_static_handshake_public_key) =
      Some (StaticHandshakeKeyPair.public d.(Daemon.runtime).(RuntimeState.static_handshake)) /\
    forall (dc : Daemon.t St') id id' now' challenge' dc',
      registered = Ok id -> register_outbound dc carrier transport now' challenge' = (Ok id', dc') ->
      exists server client, d'.(Daemon.session_controls) !! id = Some server /\ dc'.(Daemon.session_controls) !! id' = Some client /\
        linked server client /\ linked client server.
Proof.
  intros at_ d0 Hopen Hutf Hmk Hb Hdel Hval Hexp Hr Hsr Hd Hs Hn Hmax Hlater Htr Htr'.
  destruct (connection_dials d n c carrier expected random ce dcid scid now later nonce se srandom challenge)
    as (hello & hb & retry & payload & p & Hans & Hconn); try done. cbv zeta in Hans, Hconn. fold at_ in Hconn. fold d0 in Hconn.
  assert (Hid := proj2 (proj2 (proj2 (proj2 (proj2 (proj2 Hopen)))))).
  pose proof Hans as (_ & _ & _ & Hp & _).
  rewrite (connection_finishes d0 n c carrier expected ce se hello hb retry dcid scid payload p at_ depth challenge Hans Hb Hdel Hid Hexp Hd Hs Hval) in Hconn.
  cbv zeta in Hconn. destruct (register_client _ carrier dcid c _ at_ challenge) as [registered d'] eqn:Hreg.
  unfold connected in Hconn. cbn [NodeSessions.note] in Hconn. cbv beta iota zeta in Hconn.
  eexists _, _, registered, d'. split; [exact Hconn|]. split; [exact Hreg|]. split; [done|].
  split; [cbn; rewrite Hp; cbn; by rewrite Hid|]. split; [done|].
  intros dc id id' now' challenge' dc' -> Hout. exact (registered_linked _ _ _ _ _ _ _ _ _ _ _ _ _ _ _ _ _ _ _ _ _ _ _ _ _ _ _ _ _ _ Hreg Hout).
Qed.

(** C7: The ticket a session is closed with resumes it: presented within its
    lifetime to the node that issued it, once, in a hello of its realm, by a peer
    whose delegation (if it has one) is not revoked, it is answered without a full
    handshake; the daemon goes on to register a session for the peer the ticket
    names, the client takes a session with the same secrets crosswise, and once
    both daemons have registered theirs, each opens what the other seals. *)
Theorem session_resumed (d : Daemon.t St) n c carrier material issued nonce ticket_id ticket random ce dcid scid now rnonce se srandom challenge :
  build_session_ticket material issued nonce ticket_id = Ok ticket ->
  material.(TicketMaterial.ticket_key) = d.(Daemon.ticket_key) -> material.(TicketMaterial.server_endpoint_id) = node_endpoint_id d ->
  len material.(TicketMaterial.peer_endpoint_id) = 32 -> len material.(TicketMaterial.resumption_secret) = 32 ->
  len nonce = 16 -> len ticket_id = 16 -> issued <= u64_max -> now < saturating_add issued MAX_TICKET_LIFETIME_MS ->
  nonce ∉ d.(Daemon.ticket_replay_cache).(TicketReplayCache.seen) -> delegation_clear d material.(TicketMaterial.peer_endpoint_id) now ->
  open_responder d.(Daemon.runtime) (bstr carrier) -> utf8 (bstr carrier) = true ->
  c.(ClientSide.realm_marker) = d.(Daemon.runtime).(RuntimeState.realm_marker) ->
  len random = 32 -> len srandom = 32 -> len dcid = 8 -> len scid <= MAX_CONNECTION_ID_LEN ->
  DaemonTracker.check d.(Daemon.tracker) dcid now = Ok tt ->
  exists transport n' registered d',
    resumption d n c carrier ticket material.(TicketMaterial.resumption_secret) random ce dcid scid now rnonce se srandom challenge =
      (Ok (transport, n', registered), d') /\
    register_resumed (resuming d nonce dcid now) carrier dcid material.(TicketMaterial.peer_endpoint_id)
      transport.(ConnectedTransport.secrets) now challenge = (registered, d') /\
    forall (dc : Daemon.t St') id id' now' challenge' dc',
      registered = Ok id -> register_outbound dc carrier transport now' challenge' = (Ok id', dc') ->
      exists server client, d'.(Daemon.session_controls) !! id = Some server /\ dc'.(Daemon.session_controls) !! id' = Some client /\
        linked server client /\ linked client server.
Proof.
  intros Hb Hkey Hsrv Hpl Hsl Hnl Hil Hiss Hnow Hfresh Hclear Hopen Hutf Hmk Hr Hsr Hd Hs Htr.
  unfold build_session_ticket in Hb. set (p := TicketPayload.mk _ _ _ _ _ _ _ _ _ _) in Hb.
  assert (Hexp : p.(TicketPayload.expires_at_ms) <= issued + MAX_TICKET_LIFETIME_MS /\ p.(TicketPayload.expires_at_ms) <= u64_max).
  { cbn. unfold saturating_add. lia. }
  destruct (ticket_read material.(TicketMaterial.ticket_key) p now) as (ticket' & Hi & Htl & Htn & Hval).
  { unfold TicketPayload.sized. cbn [p TicketPayload.version TicketPayload.ticket_id TicketPayload.client_endpoint_id_hash
      TicketPayload.server_endpoint_id_hash TicketPayload.resumption_secret TicketPayload.issued_at_ms TicketPayload.protocol_version TicketPayload.nonce].
    rewrite Hsrv. split_and!; try done; [apply blake2s_len|apply Hexp]. }
  { done. } { cbv. repeat (apply list.Forall_cons_2; [done|]). apply list.Forall_nil_2. } { done. } { apply Hexp. }
  rewrite Hb in Hi. apply (inj Ok) in Hi as <-. rewrite (proj2 (N.leb_gt p.(TicketPayload.expires_at_ms) now) Hnow), Hkey in Hval.
  change (len p.(TicketPayload.crypto_profile)) with 12 in Htl.
  destruct (resumption_answered d n c carrier ticket p random ce dcid scid now rnonce se srandom challenge)
    as (resume & registered & d' & H); try done; [lia|by apply ticket_checked|].
  destruct (resumed_transport n dcid resume) as [transport n'] eqn:Ht. destruct H as [Hreg Hrun].
  exists transport, n', registered, d'. split; [exact Hrun|]. split; [exact Hreg|].
  intros dc id id' now' challenge' dc' -> Hout. unfold register_outbound in Hout.
  exact (registered_linked _ _ _ _ _ _ _ _ _ _ _ _ _ _ _ _ _ _ _ _ _ _ _ _ _ _ _ _ _ _ Hreg Hout).
Qed.

End Established.

#[local] Existing Instances memory_store memory_laws toy_primitives toy_laws toy_curves toy_curve_laws toy_total.

Lemma connection_established_witness :
  exists transport n' registered d',
    connection sample_daemon (NodeSessions.mk 0 ∅) sample_client "ump.relay/1" None (replicate 32 7) (StaticHandshakeKeyPair.mk (replicate 32 9))
      (replicate 8 1) (replicate 8 2) 100 200 (replicate 16 3) (StaticHandshakeKeyPair.mk (replicate 32 10)) (replicate 32 8) (replicate 8 4) =
      (Ok (transport, n', registered), d') /\
    transport.(ConnectedTransport.session_id) = 0 /\ transport.(ConnectedTransport.peer_endpoint_id) = node_endpoint_id sample_daemon.
Proof.
  destruct (connection_established (St' := Memory) sample_daemon (NodeSessions.mk 0 ∅) sample_client "ump.relay/1" None (replicate 32 7)
    (StaticHandshakeKeyPair.mk (replicate 32 9)) (replicate 8 1) (replicate 8 2) 100 200 (replicate 16 3)
    (StaticHandshakeKeyPair.mk (replicate 32 10)) (replicate 32 8) (replicate 8 4) None)
    as (transport & n' & registered & d' & H & _ & Hid & Hpeer & _).
  - unfold open_responder, IdentityBinding.sized, good_marker. split_and!; by vm_compute.
  - by vm_compute.
  - done.
  - unfold bound, IdentityBinding.sized. split_and!; by vm_compute.
  - by left.
  - by vm_compute.
  - done.
  - done.
  - done.
  - done.
  - by vm_compute.
  - done.
  - by vm_compute.
  - by vm_compute.
  - by vm_compute.
  - by vm_compute.
  - exists transport, n', registered, d'. split; [exact H|]. split; [exact Hid|exact Hpeer].
Defined.

(** The ticket of the caller's session at the sample daemon. *)
Definition sample_material : TicketMaterial.t :=
  TicketMaterial.mk sample_daemon.(Daemon.ticket_key) (replicate 32 30) (endpoint_id (IdentityKeyPair.public sample_caller))
    (node_endpoint_id sample_daemon).

Definition sample_close_ticket : list u8 := or_default [] (build_session_ticket sample_material 100 (replicate 16 31) (replicate 16 32)).

Lemma session_resumed_witness :
  exists transport n' registered d',
    resumption sample_daemon (NodeSessions.mk 0 ∅) sample_client "ump.relay/1" sample_close_ticket (replicate 32 30) (replicate 32 7)
      (StaticHandshakeKeyPair.mk (replicate 32 9)) (replicate 8 1) (replicate 8 2) 200 (replicate 16 3)
      (StaticHandshakeKeyPair.mk (replicate 32 10)) (replicate 32 8) (replicate 8 4) = (Ok (transport, n', registered), d').
Proof.
  destruct (session_resumed (St' := Memory) sample_daemon (NodeSessions.mk 0 ∅) sample_client "ump.relay/1" sample_material 100 (replicate 16 31)
    (replicate 16 32) sample_close_ticket (replicate 32 7) (StaticHandshakeKeyPair.mk (replicate 32 9)) (replicate 8 1) (replicate 8 2) 200
    (replicate 16 3) (StaticHandshakeKeyPair.mk (replicate 32 10)) (replicate 32 8) (replicate 8 4))
    as (transport & n' & registered & d' & H & _).
  - by vm_compute.
  - done.
  - done.
  - by vm_compute.
  - done.
  - done.
  - done.
  - by vm_compute.
  - by vm_compute.
  - apply not_elem_of_empty.
  - right. exists None. split; [by vm_compute|done].
  - unfold open_responder, IdentityBinding.sized, good_marker. split_and!; by vm_compute.
  - by vm_compute.
  - done.
  - done.
  - done.
  - done.
  - by vm_compute.
  - by vm_compute.
  - exists transport, n', registered, d'. exact H.
Defined.
