(* ===== verification/Clocks.v ===== *)
(** * The two clocks of the daemon

    The daemon reads time in two ways: the clock of its node counts the
    milliseconds since the process first asked it ([TokioAdaptor] of
    bins/umcd/src/runtime_adapters.rs), and [wall_now] of bins/umcd/src/state.rs
    gives those since the epoch.  The accept path uses the first for everything it
    checks (bins/umcd/src/unix_main.rs), the control services and outbound
    registrations the second.  What follows is where a time taken from the one is
    compared with a time from the other, or with one from before a restart. *)

From Stdlib Require Import Strings.String.
From stdpp Require Import gmap.
From S2P Require Import Prelude Records Crypto SentPackets SessionState SessionRules Identity HandshakeMessages HandshakeKeys HandshakeAuth HandshakeGates Store TrustStatements Trust Recovery Revocation Handshake HandshakeAgreement SessionRegistry Accept Connect.

#[local] Open Scope N_scope.

(** [TokioAdaptor::now]: what has passed since the baseline, [real] being the time
    since the epoch. *)
Definition node_now (baseline real : u64) : Instant := real - baseline.

Definition wall_now (real : u64) : Instant := real.

Section Clocks.
Context {St : Type} `{Store St} `{Primitives, Curves}.
Implicit Types d : Daemon.t St.

(** [PeerService.BlockPeer], once its request is decoded; [now] is the node's clock. *)
Definition block_peer d (endpoint_id : list u8) (now : Instant) : Result Failure (Daemon.t St) :=
  if negb (len endpoint_id =? 32) then Err (Message "invalid argument")
  else Ok (d <| Daemon.blocklist := Blocklist.block d.(Daemon.blocklist) endpoint_id BlockReason.Operator now |>).

(** The keys a daemon starts with follow from its identity alone. *)
Definition ticket_key_for (identity : IdentityKeyPair.t) : list u8 := extract (zeros 32) (IdentityKeyPair.seed identity).

Definition retry_key_for (identity : IdentityKeyPair.t) : Result Failure (list u8) :=
  map_err (fun _ => Panic) (expand_label (ticket_key_for identity) (bstr "retry key") [] 32).

End Clocks.

(** ** Properties *)

Section Theorems.
Context {St : Type} `{HS : Store St} `{HP : Primitives} {HPL : PrimitiveLaws} `{HC : Curves} {HT : AeadTotal}.
Implicit Types d : Daemon.t St.

Lemma statements_ignored statements binding now :
  Forall (fun st => now < st.(SignedRevocation.issued_at_ms)) statements ->
  existsb (fun st => negb (inactive st now) && RevocationStore.names_binding st binding) statements = false.
Proof.
  induction 1 as [|st statements Hst _ IH]; [done|]. cbn [existsb]. rewrite IH. unfold inactive. by rewrite (proj2 (N.ltb_lt _ _) Hst).
Qed.

(** C26: Revocations reach the accept path only once the daemon has run for longer
    than the epoch is old: a signed revocation of the peer's identity, in force at
    the present time, by which the same check refuses the peer with the wall clock,
    is passed over with the node's clock, which stands before the issue of every
    statement that is stamped with the time since the epoch. *)
Theorem handshake_misses_revocations d baseline real binding statements st :
  baseline <= real ->
  RevocationStore.signed_records (store_of d) = Ok statements -> st ∈ statements ->
  inactive st (wall_now real) = false -> RevocationStore.names_binding st binding = true ->
  Forall (fun s => real < baseline + s.(SignedRevocation.issued_at_ms)) statements ->
  RevocationStore.record (store_of d) binding.(IdentityBinding.endpoint_id) = Ok None ->
  RecoveryStore.check (store_of d) binding (node_now baseline real) = Ok tt ->
  validate_peer_binding d binding (wall_now real) = (Err (Message "IDENTITY_REVOKED"), d) /\
  RevocationStore.check (store_of d) binding (node_now baseline real) = Ok tt.
Proof.
  intros Hbase Hs Hin Hact Hn Hall Hrec Hrv. split.
  - unfold validate_peer_binding, RevocationStore.check. rewrite Hrec, Hs. cbn [map_err mbind Result_bind].
    rewrite (proj2 (existsb_exists _ _)); [done|]. exists st. split; [by apply list_elem_of_In|]. by rewrite Hact, Hn.
  - unfold RevocationStore.check. rewrite Hrec, Hs. cbn [map_err mbind Result_bind].
    rewrite statements_ignored; [by rewrite Hrv|]. eapply list.Forall_impl; [exact Hall|]. intros s Hlt. unfold node_now. cbv beta in Hlt. lia.
Qed.

(** C27: A block holds against a peer that dials in and not against one that is
    dialled: the block is stamped and checked with the node's clock at an accepted
    link, and checked with the wall clock when the daemon registers a connection
    of its own, at which it has always expired. *)
Theorem outbound_ignores_block d baseline real peer d' :
  block_peer d peer (node_now baseline real) = Ok d' -> baseline <= real -> real <= u64_max ->
  0 < d.(Daemon.blocklist).(Blocklist.permanence_seconds) -> d.(Daemon.blocklist).(Blocklist.permanence_seconds) * 1000 <= baseline ->
  refuse_if_blocked d' peer (node_now baseline real) = Err (Message "peer blocked until") /\
  refuse_if_blocked d' peer (wall_now real) = Ok tt.
Proof.
  unfold block_peer. destruct (negb _); [done|]. intros [= <-] Hb Hr Hp Hper.
  unfold refuse_if_blocked, Blocklist.is_blocked, Blocklist.block. cbn. rewrite lookup_insert_eq. cbn [BlockEntry.expires_at].
  unfold node_now, wall_now, instant_add, saturating_mul, saturating_add, u64_max in *.
  rewrite (proj2 (N.ltb_lt _ _)), (proj2 (N.ltb_ge _ _)) by lia. done.
Qed.

(** A ticket may live longer than its day: sealed under a key that a restart
    does not change and dated by a clock that a restart sets back, the ticket of a
    session closed by one run of the daemon is accepted by a later one as long as
    that one's clock has not caught up with the ticket's, whatever time has really
    passed; and the later run has forgotten which tickets were used. *)
Theorem ticket_outlives_its_day identity peer server secret nonce ticket_id first closed second presented ticket :
  build_session_ticket (TicketMaterial.mk (ticket_key_for identity) secret peer server) (node_now first closed) nonce ticket_id = Ok ticket ->
  len peer = 32 -> len server = 32 -> len secret = 32 -> len nonce = 16 -> len ticket_id = 16 ->
  closed + MAX_TICKET_LIFETIME_MS <= u64_max -> presented - second < (closed - first) + MAX_TICKET_LIFETIME_MS ->
  exists p, validate_ticket (ticket_key_for identity) ticket (node_now second presented) = Ok p /\
    p.(TicketPayload.client_endpoint_id_hash) = peer /\ p.(TicketPayload.resumption_secret) = secret /\
    (TicketReplayCache.insert TicketReplayCache.new p.(TicketPayload.nonce)).1 = true.
Proof.
  intros Hb Hpl Hsl Hsec Hnl Hil Hmax Hnow. unfold build_session_ticket in Hb. set (p := TicketPayload.mk _ _ _ _ _ _ _ _ _ _) in Hb.
  assert (Hexp : p.(TicketPayload.expires_at_ms) = (closed - first) + MAX_TICKET_LIFETIME_MS).
  { cbn. unfold saturating_add, node_now. lia. }
  destruct (ticket_read (ticket_key_for identity) p (node_now second presented)) as (ticket' & Hi & _ & _ & Hval).
  { unfold TicketPayload.sized. rewrite Hexp. split_and!; try done; cbn; unfold node_now; lia. }
  { done. } { cbv. repeat (apply list.Forall_cons_2; [done|]). apply list.Forall_nil_2. } { done. }
  { rewrite Hexp. cbn. unfold node_now. lia. }
  cbn [TicketMaterial.ticket_key] in Hb. rewrite Hb in Hi. apply (inj Ok) in Hi as <-.
  rewrite Hexp, (proj2 (N.leb_gt _ _)) in Hval by (unfold node_now; lia).
  exists p. split; [exact Hval|]. split; [done|]. split; [done|]. apply fresh_nonce, not_elem_of_empty.
Qed.

End Theorems.

#[local] Existing Instances memory_store memory_laws toy_primitives toy_laws toy_curves toy_total.

(** A daemon started in September 2025 that hears an hour later of a revocation. *)
Definition sample_baseline : u64 := 1757000000000.

Definition epoch_statement : SignedRevocation.t :=
  or_default sample_statement
    (SignedRevocation.sign sample_identity (RevocationSubject.Identity (endpoint_id sample_root)) 1 (sample_baseline + 3600000) 0).

Definition epoch_memory : Memory := (RevocationStore.accept_signed empty_memory epoch_statement sample_root (sample_baseline + 3600000)).2.

Lemma handshake_misses_revocations_witness :
  validate_peer_binding (with_store sample_daemon epoch_memory) sample_victim (wall_now (sample_baseline + 7200000)) =
    (Err (Message "IDENTITY_REVOKED"), with_store sample_daemon epoch_memory) /\
  RevocationStore.check epoch_memory sample_victim (node_now sample_baseline (sample_baseline + 7200000)) = Ok tt.
Proof.
  apply (handshake_misses_revocations (with_store sample_daemon epoch_memory) sample_baseline (sample_baseline + 7200000) sample_victim
           [epoch_statement] epoch_statement).
  - by vm_compute.
  - by vm_compute.
  - apply list_elem_of_here.
  - by vm_compute.
  - by vm_compute.
  - apply list.Forall_cons_2; [by vm_compute|apply list.Forall_nil_2].
  - by vm_compute.
  - by vm_compute.
Defined.

Definition blocking_daemon : Daemon.t Memory :=
  or_default sample_daemon (block_peer sample_daemon (replicate 32 5) (node_now sample_baseline (sample_baseline + 1000))).

Lemma outbound_ignores_block_witness :
  refuse_if_blocked blocking_daemon (replicate 32 5) (node_now sample_baseline (sample_baseline + 1000)) = Err (Message "peer blocked until") /\
  refuse_if_blocked blocking_daemon (replicate 32 5) (wall_now (sample_baseline + 1000)) = Ok tt.
Proof.
  apply (outbound_ignores_block sample_daemon sample_baseline (sample_baseline + 1000) (replicate 32 5) blocking_daemon);
    [reflexivity|by vm_compute|by vm_compute|by vm_compute|by vm_compute].
Defined.

(** Closed after a day of running, presented a year later to a daemon just started. *)
Definition sample_late_ticket : list u8 :=
  or_default [] (build_session_ticket (TicketMaterial.mk (ticket_key_for sample_node) (replicate 32 1) (replicate 32 2) (replicate 32 3))
    (node_now sample_baseline (sample_baseline + 86400000)) (replicate 16 4) (replicate 16 5)).

Lemma ticket_outlives_its_day_witness :
  exists p, validate_ticket (ticket_key_for sample_node) sample_late_ticket
      (node_now (sample_baseline + 31536000000) (sample_baseline + 31536001000)) = Ok p /\
    p.(TicketPayload.client_endpoint_id_hash) = replicate 32 2 /\ p.(TicketPayload.resumption_secret) = replicate 32 1 /\
    (TicketReplayCache.insert TicketReplayCache.new p.(TicketPayload.nonce)).1 = true.
Proof.
  apply (ticket_outlives_its_day sample_node (replicate 32 2) (replicate 32 3) (replicate 32 1) (replicate 16 4) (replicate 16 5)
           sample_baseline (sample_baseline + 86400000) (sample_baseline + 31536000000) (sample_baseline + 31536001000));
    [by vm_compute|done|done|done|done|done|by vm_compute|by vm_compute].
Defined.
